(* ===== verification/_CoqProject ===== *)
-Q . S2P
Prelude.v
Fields.v
Fragment.v
Gf256.v
Rlnc.v
Wire.v
Float64.v
RlncResource.v
Bundle.v
Fec.v
FecProfiles.v
Custody.v
Smaz2.v
Msgpack.v
Hdlc.v
HdlcReticulum.v
RnsPacket.v
RnsCrypto.v
RnsWire.v
RnsState.v
RnsLogic.v
RnsIface.v
RnsAnnounce.v
RnsPathReq.v
RnsForward.v
RnsLink.v
RnsResource.v
RnsLinkLogic.v
RnsInbound.v
RnsTables.v
RnsToy.v
RnsLeaf.v
RnsPaths.v
RnsOnce.v
RnsHandshake.v
RnsPanic.v
Calendar.v
Sha.v
Hubmsg.v
Oob.v
RateLimit.v
Text.v
Strconv.v
Plans.v
Budget.v
Vat.v
SqlTable.v
Effects.v
Books.v
BillStore.v
BillWorld.v
InvoiceNinja.v
Receipts.v
Refunds.v
StripeSignature.v
Stripe.v
Payments.v
PayPlans.v
PayReceipts.v
PayRefunds.v
PayLive.v
PaySystem.v
PayFaults.v
Topics.v
NatsAuth.v
Relay.v
RelaySystem.v
Tenancy.v
TenantLife.v
AuditLog.v
SosTable.v
AlertStore.v
Escalation.v
Deadman.v
Sos.v
AlertSystem.v
SosSystem.v
SosLive.v
