(* ===== verification/Prelude.v ===== *)
(** * MeshSat Hub: verification development

    MeshSat Hub connects field devices (LoRa meshes, Iridium modems, phones) to
    operators.  This library models the part of the Hub that decides what bytes mean and
    which of them are acted on (the codecs and reassemblers of its bearers, its Reticulum
    node from packets to links and resources, its management and message routes, its send limiter and
    plans), who may say what (topics, broker permissions, tenants), and what it must not
    get wrong when replicas crash and race (alerts, escalation, the dead man's switch, SOS
    runs, the audit log, the end of a tenant, payments and their documents).  Paths are
    relative to [src/].

    ** How the program is modelled

    Bytes are [Z]s with [byte_ok]; a machine integer is a [Z] whose wrap-around is written
    out ([u8] .. [u64], [i8] .. [i64]); [float64] is the Standard Library's [spec_float].
    A Go map is a [gmap], [(value, error)] is [result], a pointer that is shared or
    mutated is an entry of a map or a cell of a store, and a panic is [None].  The clock
    and the random source are arguments.  Cryptographic primitives and third-party
    libraries are arguments too; what the code relies on of them is stated as named
    hypotheses, and every theorem that has such hypotheses comes with a witness that
    instantiates them.  All definitions compute.

    ** Files and what their theorems show

    - [Prelude] (this file): results, machine integers, byte lists and slices, [copy],
      little and big endian fields, chunks, arrival slots; tactics and hints.
    - [Fragment]: [internal/fragment/fragment.go] and the fragment branch of the RockBLOCK
      webhook ([internal/rockblock/handler.go]).  Fragments in any order and with any
      duplicates give the message back; the sizes and the truncation of long messages; the
      invariant of the table.
    - [Gf256], [Rlnc], [RlncResource]: [internal/protocol/rlnc.go] and [rlnc_resource.go].
      The tables are the field GF(256); elimination solves exactly the systems of full
      rank; encoding, losing, reordering and decoding give the segments back; the packet
      format is exact.
    - [Wire]: [internal/wire/wire.go], [internal/codec/version.go], [smswire.go] and the
      envelope of [internal/relay/frame.go].  Fields and frames round trip.
    - [Float64]: the [float64] operations the coder and the limiter use.
    - [Bundle]: [internal/protocol/bundle.go].  Bundles reassemble in any order amid other
      traffic, the buffer stays bounded, the header is exact.
    - [Fec], [FecProfiles]: [internal/protocol/fec.go] and [fec_profiles.go] over an
      abstract Reed-Solomon coder (class [RSCode]).  Round trip with erasures; what the
      decoder does not repair; the profile table.
    - [Custody]: [internal/protocol/custody.go] and the custody branches of
      [cmd/meshsat-hub/main.go].  No channel is closed or used twice; offers are answered
      with ACKs that verify; incoming ACKs are not verified.
    - [Smaz2]: [internal/compress/smaz2.go] and [smaz2_default.go].  Compression
      terminates and is lossless.
    - [Msgpack]: [internal/msgpack/msgpack.go].  Encoding then decoding is the identity;
      decoding terminates on all input and re-encoding is stable.
    - [Hdlc], [HdlcReticulum]: [internal/rnswire/hdlc.go] and [internal/reticulum/hdlc.go].
      Both readers refine one stream automaton, so every packet is delivered however the
      stream is cut into reads; their buffers are bounded for every peer.
    - [RnsPacket]: [internal/rnswire/packet.go], [packethash.go], [proof.go].  The header
      codec is exact; delivery proofs survive any rewriting in transport.
    - [RnsCrypto]: [internal/rnswire/hkdf.go], [ifac.go], [token.go], [encrypt.go].  Access
      codes are exact; ratchet encryption round trips; a long frame makes the access-code
      check panic.
    - [RnsWire]: the announces, identities and link messages of [internal/rnswire]
      ([announce.go], [identity.go], [plain.go], [rnslink.go]) over a class of primitives,
      [Crypto].
    - [RnsState], [RnsIface], [RnsAnnounce], [RnsPathReq], [RnsForward], [RnsLink],
      [RnsResource], [RnsInbound]: the Reticulum node of [internal/rns].  [RnsState] has its
      state ([Node]), its surroundings ([Env]: clock, interfaces, random source, callbacks)
      and the monad of its handlers, in which a panic is [None] and a call to the outside an
      [event]; the others have one definition per handler of [paths.go], [leaf.go],
      [paidlinks.go], [node.go] ([RnsIface]), [announce.go], [pathreq.go], [transport.go],
      [receipts.go] and [outbound.go] ([RnsForward]), [link.go] and [request.go] ([RnsLink]),
      [resource.go] ([RnsResource]).  [RnsInbound] has the inbound pipeline, the periodic
      jobs, and the node as a state machine: [op], [step], [reached].
    - [Fields], [RnsLogic], [RnsLinkLogic], [RnsTables]: record update, weakest
      preconditions for the monad (partial and total), and, once for all invariants, what the
      link handlers and what all operations do to the rest of the node and to its tables.
    - [RnsToy]: a small instance of the primitives and a network of three nodes, on which
      the witnesses run.
    - [RnsLeaf]: leaf interfaces are isolated in every reachable state, and the two ways
      around that.  [RnsPaths]: paths, relayed announces and identities are vouched for by
      signatures, and a live path yields only to a newer announce.  [RnsOnce]: a packet is
      handled once.  [RnsHandshake]: link establishment and delivery for primitives that keep
      the laws of [CryptoLaws].  [RnsPanic]: an advertisement that stops the node.
    - [Hubmsg]: [internal/hubmsg/ids.go], [digest.go], [reducer.go].  The projection of an
      operation's evidence is a function of the set of valid events; the digest commits to
      every field; an SOS id names its run; id texts are canonical.
    - [Oob]: [internal/oob/frame.go] (binary form) and [replay.go].  Frames are exact; the
      64-bit replay window refines the set of accepted counters.
    - [RateLimit]: [internal/ratelimit/limiter.go].  The caps hold over any sequence of
      calls; tenants and devices are isolated.

    - [Calendar], [Sha], [Text], [Strconv]: the parts of Go's [time], [crypto/sha1],
      [crypto/sha256], [strings] and [strconv] the files below compute with; [Strconv] also
      has [internal/invoiceninja/money.go], whose amounts are read back as written.
    - [Plans], [Budget], [Vat]: [internal/plans/plans.go], [internal/quota/quota.go],
      [internal/ratelimit/caps.go], [internal/vat/vat.go].  The plan table keeps its types,
      a plan never lowers a configured cap, the net of a gross amount is off by at most a
      cent.
    - [Topics], [NatsAuth]: [internal/mqtt/topics.go], [internal/bridge/natsauth.go].  Topics
      read back exactly; no bridge can publish what only the Hub says; the sender of a
      bridge topic is the one the broker authenticated, with the exceptions the theorems
      name.  The broker is the class [Broker] with an instance.
    - [Relay], [RelaySystem]: the WebSocket relay, [internal/relay].  Whatever replicas, bus
      and bridges do, a frame the relay writes was read from the other end of the same
      tunnel, except for bridges whose names collide with device grants; a frame of an open
      tunnel arrives, and so does the answer; the in-memory budget caps a client's minute.
      The bus client's matching of filters is the class [Bus] with an instance.
    - [Tenancy], [TenantLife]: [internal/tenancy] and the tenant queries of
      [internal/store/sqlite].  An attribution is what the tables said within the cache's
      lifetime; a purge takes all of a tenant or none of its rows, never before the grace.
      What a customer's bridge can make the Hub attribute to others.
    - [AuditLog]: [internal/audit].  The verifier accepts every chain that was logged; two
      accepted chains with one last hash agree, or a SHA-256 collision is at hand; retention
      keeps the floor and loses nothing with the file archive.
    - [Effects]: programs as trees of calls, a rely-guarantee logic for one program, and an
      invariant rule for any number of them interleaved call by call, with programs that die.
    - [Books]: the billing system (Invoice Ninja, a separate server) as the class
      [BillingSystem], with an instance.
    - [BillStore], [BillWorld]: the receipts, refunds and tenants of [internal/store/sqlite]
      and the calls of the billing programs on them, the books, mail and the audit log.
    - [InvoiceNinja], [Receipts], [Refunds], [Stripe], [StripeSignature]:
      [internal/invoiceninja], [internal/billing], [internal/refunds] and [internal/stripe] as
      such programs.  An accepted delivery was signed within five minutes, and what Stripe
      signs is accepted.
    - [Payments], [PayReceipts], [PayRefunds], [PaySystem]: any number of deliveries, lapse
      passes and operator actions with one drainer of each outbox.  A payment has at most one
      numbered invoice and one numbered credit note, is booked once, and its period is taken
      back at most once.
    - [PayLive]: from every reachable state one undisturbed attempt issues the receipt.
    - [PayPlans]: the lapse pass ends exactly the plans that ran out; a delivery grants only
      plans that are sold; a redelivery changes nothing.
    - [PayFaults]: runs that end where the code's comments say they cannot.
    - [SqlTable], [AlertStore], [SosTable]: the tables of [internal/store/sqlite] behind
      alerts, the switch and SOS runs, and the effect trees ([prog]) of the programs that
      use them, with calls that fail before or after they took effect.
    - [Escalation], [Deadman], [Sos]: [internal/escalation], [internal/deadman] and
      [internal/sos] as such programs, one replica alone.  A raised alert runs its chain to
      the end; an expired device pages once.
    - [AlertSystem], [SosSystem]: any number of these programs interleaved call by call
      against one store, with crashes.  A closed alert stays closed and silent, one replica
      wins a due time, an alert is raised once, an acknowledged or cancelled SOS stays so.
    - [SosLive]: without faults the reconciler settles every run, and an SOS on several
      bearers and replicas is told once.

    The files build on each other as the packages do: [RlncResource] on [Rlnc] on [Gf256],
    [Custody] on [Bundle] (version-4 ids), [FecProfiles] on [Fec], [HdlcReticulum] on
    [Hdlc], [RnsCrypto] on [RnsPacket], [RnsWire] on both, the files of the node on these and
    on [Msgpack] and [Float64], [Budget] on [RateLimit] and [Plans], [NatsAuth] on
    [Topics], [Relay] and [Tenancy] on both, [TenantLife] on [Tenancy], [Deadman] and [Sos] on
    [Escalation] on [AlertStore], [Receipts] and [Refunds] on [InvoiceNinja] on [BillWorld] on
    [BillStore], [Books] and [Effects], the systems on all of these.

    ** Fuel

    Loops that are not structural take fuel, and the entry points pass enough: the
    extraction loop of [Hdlc] the buffer's length plus one, since a turn drops at least a
    flag ([extract_run]); the msgpack decoder the input's length plus one, since each
    level of nesting consumes a byte, with the theorem that the fuel never runs out; the
    loops of [Smaz2] the input's length.  The theorems state that a result is returned.
    One loop of the Reticulum node has no bound: the search for a salt under which no two
    parts of a resource have the same short hash ([RnsLink.draw_salt]).  It runs on [e_fuel]
    of the environment and its end counts as a panic; no theorem claims that it ends.

    ** Not modelled

    HTTP handlers, the SQL of the other tables, MQTT and socket loops, provider clients, TAK
    hosting and the web interface are I/O around external systems.  Of the packages
    above the base32 text form and service of [oob], the service of [hubmsg] and key generation
    of [rnswire] are left out, as are the relay's budget in Redis, its credentials check and its
    socket deadlines, logs, metrics and JSON.  Locks are not modelled: an operation under its component's mutex is one step;
    the programs of the alert files take one step per store call.  The PostgreSQL store is
    not modelled; the queries are SQLite's.  Of billing the calls to the payment provider, the
    decoding of events, the purge of a tenant's outbox rows and the deletion of a refund by an
    operator are left out, and a call in flight when its program dies either took effect by then
    or never does.  The limiter reads the clock once per call where the source reads it
    several times.  The Reticulum node's handlers are one step each, with one reading of the
    clock and one order for ranging over a map ([e_order]); its goroutines, the ticker of
    [Start], the listings for the web interface and the callbacks' own work are left out, and
    a callback that is not set is an event nobody looks at. *)
From stdpp Require Export base list list_numbers gmap strings pretty sorting.
From Stdlib Require Export ZArith Lia Btauto.

#[global] Open Scope Z_scope.

(** [lia] with division and remainder by constants. *)
Ltac zlia := Z.div_mod_to_equations; lia.

(** * Results: Go's [(value, error)] pairs *)

Inductive result (E A : Type) : Type :=
| Ok (a : A)
| Err (e : E).
Arguments Ok {E A} a.
Arguments Err {E A} e.

Declare Scope result_scope.
Delimit Scope result_scope with result.

Definition rbind {E A B} (c : result E A) (k : A → result E B) : result E B :=
  match c with Ok a => k a | Err e => Err e end.

Notation "'let!' x := c 'in' k" := (rbind c (λ x, k))
  (at level 10, x pattern, c at level 100, k at level 200,
   format "'[v' 'let!'  x  :=  c  'in' '//' k ']'") : result_scope.

Definition is_ok {E A} (r : result E A) : bool :=
  match r with Ok _ => true | Err _ => false end.

(** * Machine integers: values of width [w] are [Z]s, the wrap-around is written out *)

Definition u8 (z : Z) : Z := z mod 256.
Definition u16 (z : Z) : Z := z mod 65536.
Definition u32 (z : Z) : Z := z mod 4294967296.
Definition u64 (z : Z) : Z := z mod 18446744073709551616.

(** Two's-complement reinterpretation of the low [w] bits. *)
Definition sint (w z : Z) : Z := (z + 2 ^ (w - 1)) mod 2 ^ w - 2 ^ (w - 1).
Definition i8 (z : Z) : Z := sint 8 z.
Definition i16 (z : Z) : Z := sint 16 z.
Definition i32 (z : Z) : Z := sint 32 z.
Definition i64 (z : Z) : Z := sint 64 z.

Lemma sint_wrap w v : 0 < w → - 2 ^ (w - 1) <= v < 2 ^ (w - 1) → sint w (v mod 2 ^ w) = v.
Proof.
  intros Hw Hv. unfold sint. rewrite Zplus_mod_idemp_l.
  assert (2 ^ w = 2 * 2 ^ (w - 1)) by (rewrite <- Z.pow_succ_r by lia; f_equal; lia).
  rewrite Z.mod_small; lia.
Qed.

Lemma sint_range w z : 0 < w → - 2 ^ (w - 1) <= sint w z < 2 ^ (w - 1).
Proof.
  intros Hw. unfold sint.
  assert (2 ^ w = 2 * 2 ^ (w - 1)) as E by (rewrite <- Z.pow_succ_r by lia; f_equal; lia).
  pose proof (Z.mod_pos_bound (z + 2 ^ (w - 1)) (2 ^ w)). pose proof (Z.pow_pos_nonneg 2 (w - 1)). lia.
Qed.

Lemma i64_id z : - 2 ^ 63 <= z < 2 ^ 63 → i64 z = z.
Proof. intros. unfold i64, sint. change (2 ^ (64 - 1)) with (2 ^ 63). rewrite Z.mod_small; lia. Qed.

Definition byte_ok (b : Z) : Prop := 0 <= b < 256.
Definition bytes_ok (l : list Z) : Prop := Forall byte_ok l.

#[global] Instance byte_ok_dec b : Decision (byte_ok b).
Proof. unfold byte_ok. apply _. Defined.

Create HintDb hub.

Lemma u8_range z : byte_ok (u8 z).
Proof. unfold byte_ok, u8. zlia. Qed.

Lemma u8_small z : byte_ok z → u8 z = z.
Proof. unfold byte_ok, u8. intros. apply Z.mod_small. lia. Qed.

Lemma u16_small z : 0 <= z < 65536 → u16 z = z.
Proof. intros. apply Z.mod_small. lia. Qed.

Lemma u32_small z : 0 <= z < 4294967296 → u32 z = z.
Proof. intros. apply Z.mod_small. lia. Qed.

Lemma lxor_byte a b : byte_ok a → byte_ok b → byte_ok (Z.lxor a b).
Proof.
  unfold byte_ok. intros Ha Hb. split; [apply Z.lxor_nonneg; lia|].
  destruct (decide (Z.lxor a b = 0)) as [->|Hn]; [lia|].
  assert (0 <= Z.lxor a b) by (apply Z.lxor_nonneg; lia).
  apply Z.log2_lt_pow2 with (b := 8); [lia|].
  eapply Z.le_lt_trans; [apply Z.log2_lxor; lia|].
  assert (∀ x, 0 <= x < 256 → Z.log2 x < 8) as Hlog.
  { intros x Hx. destruct (decide (x = 0)) as [->|]; [done|]. apply Z.log2_lt_pow2; lia. }
  apply Z.max_lub_lt; by apply Hlog.
Qed.

#[export] Hint Resolve u8_range : hub.

(** * Slices *)

(** [Zlen l] is Go's [len(l)], an [int]. *)
Definition Zlen {A} (l : list A) : Z := Z.of_nat (length l).

(** [idx l i] is [l[i]]; every use in the models is guarded by the bounds
    check the source has, so the default is never read. *)
Definition idx (l : list Z) (i : nat) : Z := nth i l 0.

(** [sub lo hi l] is [l[lo:hi]]. *)
Definition sub {A} (lo hi : nat) (l : list A) : list A := take (hi - lo) (drop lo l).

Lemma Zlen_nonneg {A} (l : list A) : 0 <= Zlen l.
Proof. unfold Zlen. lia. Qed.

Lemma Zlen_app {A} (l k : list A) : Zlen (l ++ k) = Zlen l + Zlen k.
Proof. unfold Zlen. rewrite length_app. lia. Qed.

Lemma Zlen_cons {A} (x : A) l : Zlen (x :: l) = 1 + Zlen l.
Proof. unfold Zlen. simpl. lia. Qed.

Lemma idx_lookup l i b : l !! i = Some b → idx l i = b.
Proof.
  unfold idx. revert i. induction l as [|x l IH]; intros [|i]; simpl; try done;
    [congruence | apply IH].
Qed.

Lemma idx_app_l l k i : (i < length l)%nat → idx (l ++ k) i = idx l i.
Proof. intros. unfold idx. by apply app_nth1. Qed.

Lemma idx_app_r l k i : (length l ≤ i)%nat → idx (l ++ k) i = idx k (i - length l).
Proof. intros. unfold idx. by apply app_nth2. Qed.

Lemma idx_ok l i : bytes_ok l → byte_ok (idx l i).
Proof.
  intros H. unfold idx. destruct (decide (i < length l)%nat) as [Hi|Hi].
  - eapply Forall_forall in H; [exact H|].
    apply list_elem_of_In, nth_In. lia.
  - rewrite nth_overflow by lia. unfold byte_ok. lia.
Qed.

Lemma sub_length {A} lo hi (l : list A) :
  (lo ≤ hi ≤ length l)%nat → length (sub lo hi l) = (hi - lo)%nat.
Proof. intros. unfold sub. rewrite length_take, length_drop. lia. Qed.

Lemma sub_app_l {A} lo hi (l k : list A) :
  (hi ≤ length l)%nat → sub lo hi (l ++ k) = sub lo hi l.
Proof.
  intros. unfold sub. destruct (decide (lo ≤ length l)%nat).
  - rewrite drop_app_le by lia. apply take_app_le. rewrite length_drop. lia.
  - replace (hi - lo)%nat with 0%nat by lia. done.
Qed.

Lemma sub_app_r {A} lo hi (l k : list A) :
  (length l ≤ lo)%nat → sub lo hi (l ++ k) = sub (lo - length l) (hi - length l) k.
Proof.
  intros. unfold sub. rewrite drop_app_ge by lia. f_equal. lia.
Qed.

Lemma sub_all {A} n (l : list A) : length l = n → sub 0 n l = l.
Proof. intros <-. unfold sub. rewrite drop_0, Nat.sub_0_r. apply firstn_all. Qed.

Lemma sub_all' {A} lo n (l : list A) : lo = 0%nat → length l = n → sub lo n l = l.
Proof. intros -> . apply sub_all. Qed.

Lemma bytes_ok_app l k : bytes_ok (l ++ k) ↔ bytes_ok l ∧ bytes_ok k.
Proof. apply Forall_app. Qed.

Lemma bytes_ok_take n l : bytes_ok l → bytes_ok (take n l).
Proof. apply Forall_take. Qed.

Lemma bytes_ok_drop n l : bytes_ok l → bytes_ok (drop n l).
Proof. apply Forall_drop. Qed.

Lemma bytes_ok_sub lo hi l : bytes_ok l → bytes_ok (sub lo hi l).
Proof. intros. by apply bytes_ok_take, bytes_ok_drop. Qed.

#[export] Hint Resolve bytes_ok_take bytes_ok_drop bytes_ok_sub idx_ok : hub.

(** * Fixed-width fields: [encoding/binary] *)

Fixpoint le_put (n : nat) (z : Z) : list Z :=
  match n with
  | O => []
  | S n => z mod 256 :: le_put n (z / 256)
  end.

Fixpoint le_get (l : list Z) : Z :=
  match l with
  | [] => 0
  | b :: l => b + 256 * le_get l
  end.

Definition be_put (n : nat) (z : Z) : list Z := reverse (le_put n z).
Definition be_get (l : list Z) : Z := le_get (reverse l).

Lemma le_put_length n z : length (le_put n z) = n.
Proof. revert z. induction n as [|n IH]; intros; simpl; [done | by rewrite IH]. Qed.

Lemma be_put_length n z : length (be_put n z) = n.
Proof. unfold be_put. by rewrite length_reverse, le_put_length. Qed.

Lemma le_put_ok n z : bytes_ok (le_put n z).
Proof.
  revert z. induction n as [|n IH]; intros z; simpl; constructor; [|apply IH].
  unfold byte_ok. zlia.
Qed.

Lemma be_put_ok n z : bytes_ok (be_put n z).
Proof. unfold be_put, bytes_ok. rewrite Forall_reverse. apply le_put_ok. Qed.

Lemma pow256_succ n : 2 ^ (8 * Z.of_nat (S n)) = 256 * 2 ^ (8 * Z.of_nat n).
Proof.
  replace (8 * Z.of_nat (S n)) with (8 + 8 * Z.of_nat n) by lia.
  rewrite Z.pow_add_r by lia. done.
Qed.

(** Reading back a written field gives the value modulo its width. *)
Lemma le_get_put n z : le_get (le_put n z) = z mod 2 ^ (8 * Z.of_nat n).
Proof.
  revert z. induction n as [|n IH]; intros z.
  - simpl. by rewrite Z.mod_1_r.
  - cbn [le_put le_get]. rewrite IH, pow256_succ.
    rewrite (Z.rem_mul_r z 256) by (try apply Z.pow_pos_nonneg; lia). lia.
Qed.

Lemma le_get_bound l : bytes_ok l → 0 <= le_get l < 2 ^ (8 * Zlen l).
Proof.
  unfold Zlen. induction 1 as [|b l Hb _ IH]; [simpl; lia|].
  cbn [le_get length]. rewrite pow256_succ. unfold byte_ok in Hb. lia.
Qed.

Lemma le_put_get n l : bytes_ok l → length l = n → le_put n (le_get l) = l.
Proof.
  intros H <-. induction H as [|b l Hb _ IH]; [done|].
  cbn [le_get length le_put]. unfold byte_ok in Hb.
  replace ((b + 256 * le_get l) mod 256) with b by zlia.
  replace ((b + 256 * le_get l) / 256) with (le_get l) by zlia.
  by rewrite IH.
Qed.

Lemma le_get_put_small n z : 0 <= z < 2 ^ (8 * Z.of_nat n) → le_get (le_put n z) = z.
Proof. intros. rewrite le_get_put. by apply Z.mod_small. Qed.

Lemma be_get_put n z : be_get (be_put n z) = z mod 2 ^ (8 * Z.of_nat n).
Proof. unfold be_get, be_put. rewrite reverse_involutive. apply le_get_put. Qed.

Lemma be_get_put_small n z : 0 <= z < 2 ^ (8 * Z.of_nat n) → be_get (be_put n z) = z.
Proof. intros. rewrite be_get_put. by apply Z.mod_small. Qed.

Lemma be_get_bound l : bytes_ok l → 0 <= be_get l < 2 ^ (8 * Zlen l).
Proof.
  intros H. unfold be_get, Zlen. rewrite <- (length_reverse l).
  apply le_get_bound. unfold bytes_ok. by rewrite Forall_reverse.
Qed.

Lemma be_put_get n l : bytes_ok l → length l = n → be_put n (be_get l) = l.
Proof.
  intros H Hn. unfold be_put, be_get. rewrite le_put_get.
  - apply reverse_involutive.
  - unfold bytes_ok. by rewrite Forall_reverse.
  - by rewrite length_reverse.
Qed.

#[export] Hint Resolve le_put_ok be_put_ok : hub.
Create Rewrite HintDb hub_len.
#[export] Hint Rewrite le_put_length be_put_length @length_app @length_cons @length_take @length_drop
  @length_replicate : hub_len.

(** Solve the length side conditions of slices of concatenations. *)
Ltac len := autorewrite with hub_len in *; simpl length in *; lia.

(** Reduce [sub]/[idx] of a concatenation whose parts have known lengths. *)
Ltac slices :=
  repeat first
    [ rewrite sub_app_l by len
    | rewrite sub_app_r by len
    | rewrite idx_app_l by len
    | rewrite idx_app_r by len
    | rewrite sub_all' by len ].

(** Case on the boolean or decision of the innermost [if] and clean up. *)
Ltac case_if :=
  match goal with
  | |- context [if ?b then _ else _] =>
      let H := fresh "Hif" in destruct b eqn:H
  end.

Ltac zbool :=
  repeat match goal with
  | H : (_ && _)%bool = true |- _ => apply andb_true_iff in H as [? ?]
  | H : (_ || _)%bool = false |- _ => apply orb_false_iff in H as [? ?]
  | H : (_ <? _) = true |- _ => apply Z.ltb_lt in H
  | H : (_ <? _) = false |- _ => apply Z.ltb_ge in H
  | H : (_ <=? _) = true |- _ => apply Z.leb_le in H
  | H : (_ <=? _) = false |- _ => apply Z.leb_gt in H
  | H : (_ =? _) = true |- _ => apply Z.eqb_eq in H
  | H : (_ =? _) = false |- _ => apply Z.eqb_neq in H
  | H : negb _ = true |- _ => apply negb_true_iff in H
  | H : negb _ = false |- _ => apply negb_false_iff in H
  end.

(** Case on every natural-number equality test of the goal. *)
Ltac nat_cases :=
  repeat match goal with
  | |- context [(?a =? ?b)%nat] => destruct (Nat.eqb_spec a b); subst
  end.

(** * Bounded quantification over small integers, decided by evaluation *)

Definition zall (n : nat) (p : Z → bool) : bool := forallb (λ i, p (Z.of_nat i)) (seq 0 n).

Lemma zall_spec n p : zall n p = true → ∀ z, 0 <= z < Z.of_nat n → p z = true.
Proof.
  intros H z Hz. unfold zall in H. rewrite forallb_forall in H.
  specialize (H (Z.to_nat z)). rewrite Z2Nat.id in H by lia. apply H.
  apply in_seq. lia.
Qed.

(** * Chunking: cutting a payload every [p] bytes *)

(** The [i]-th chunk, with the end clamped to the payload as the Go loops do. *)
Definition chunk_at {A} (p : nat) (data : list A) (i : nat) : list A :=
  let start := (i * p)%nat in
  let end_ := (start + p)%nat in
  let end_ := if (length data <? end_)%nat then length data else end_ in
  sub start end_ data.

Lemma chunk_at_take {A} p (data : list A) i :
  chunk_at p data i = take p (drop (i * p) data).
Proof.
  unfold chunk_at, sub. destruct (Nat.ltb_spec (length data) (i * p + p)).
  - rewrite !take_ge; rewrite ?length_drop; done || lia.
  - f_equal. lia.
Qed.

Lemma chunk_at_length {A} p (data : list A) i :
  length (chunk_at p data i) = Nat.min p (length data - i * p).
Proof. rewrite chunk_at_take, length_take, length_drop. done. Qed.

Lemma concat_chunks {A} p (data : list A) n :
  concat (map (chunk_at p data) (seq 0 n)) = take (n * p) data.
Proof.
  induction n as [|n IH]; [done|].
  rewrite seq_S, map_app, concat_app, IH. simpl.
  rewrite app_nil_r, chunk_at_take, Nat.add_comm. apply take_take_drop.
Qed.

Lemma concat_chunks_all {A} p (data : list A) n :
  (length data ≤ n * p)%nat → concat (map (chunk_at p data) (seq 0 n)) = data.
Proof. intros. rewrite concat_chunks. by apply take_ge. Qed.

(** [(len + p - 1) / p] chunks of [p] cover the payload, one fewer does not. *)
Lemma ceil_div_cover n p :
  0 <= n → 0 < p → n <= (n + p - 1) / p * p < n + p.
Proof. intros. pose proof (Z.div_mod (n + p - 1) p). pose proof (Z.mod_pos_bound (n + p - 1) p). lia. Qed.

(** * Slot tables: the [[]T] with nil holes that reassemblers fill *)

Definition is_some {A} (o : option A) : bool := match o with Some _ => true | None => false end.

Fixpoint filled {A} (l : list (option A)) : nat :=
  match l with
  | [] => 0
  | o :: l => (if is_some o then 1 else 0) + filled l
  end.

Lemma filled_le {A} (l : list (option A)) : (filled l ≤ length l)%nat.
Proof. induction l as [|[?|] l IH]; simpl; lia. Qed.

Lemma filled_replicate {A} n : filled (replicate n (@None A)) = 0%nat.
Proof. by induction n. Qed.

Lemma filled_insert {A} (l : list (option A)) i o x :
  l !! i = Some o →
  filled (<[i := Some x]> l) = (filled l + if is_some o then 0 else 1)%nat.
Proof.
  revert i. induction l as [|p l IH]; intros [|i] H; simplify_eq/=; [|rewrite IH; [lia|done]].
  destruct o; simpl; lia.
Qed.

Lemma filled_all {A} (l : list (option A)) :
  filled l = length l → ∃ k, l = Some <$> k.
Proof.
  induction l as [|[a|] l IH]; simpl; intros H.
  - by exists [].
  - destruct IH as [k ->]; [lia|]. by exists (a :: k).
  - pose proof (filled_le l). lia.
Qed.

Lemma filled_fmap {A} (k : list A) : filled (Some <$> k) = length k.
Proof. induction k; csimpl; congruence. Qed.

Lemma filled_lt {A} (l : list (option A)) i :
  l !! i = Some None → (filled l < length l)%nat.
Proof.
  revert i. induction l as [|o l IH]; intros [|i] H; simplify_eq/=.
  - pose proof (filled_le l). lia.
  - apply IH in H. destruct (is_some o); lia.
Qed.

(** The table after the fragments whose indices are in [js] have arrived. *)
Definition arrived {A} (frags : list A) (js : list nat) : list (option A) :=
  imap (λ i f, if bool_decide (i ∈ js) then Some f else None) frags.

Lemma arrived_length {A} (frags : list A) js : length (arrived frags js) = length frags.
Proof. apply length_imap. Qed.

Lemma arrived_lookup {A} (frags : list A) js i :
  arrived frags js !! i = (λ f, if bool_decide (i ∈ js) then Some f else None) <$> frags !! i.
Proof. apply list_lookup_imap. Qed.

Lemma arrived_nil {A} (frags : list A) : arrived frags [] = replicate (length frags) None.
Proof.
  apply list_eq. intros i. rewrite arrived_lookup.
  destruct (frags !! i) eqn:E; simpl.
  - symmetry. apply lookup_replicate. split; [done | by eapply lookup_lt_Some].
  - symmetry. apply lookup_replicate_None. by apply lookup_ge_None.
Qed.

Lemma arrived_insert {A} (frags : list A) js j f :
  frags !! j = Some f → <[j := Some f]> (arrived frags js) = arrived frags (js ++ [j]).
Proof.
  intros Hj. assert (j < length frags)%nat by by eapply lookup_lt_Some.
  apply list_eq. intros i. destruct (decide (i = j)) as [->|Hne].
  - rewrite list_lookup_insert_eq by (by rewrite arrived_length).
    rewrite arrived_lookup, Hj. simpl. by rewrite bool_decide_eq_true_2 by set_solver.
  - rewrite list_lookup_insert_ne by done. rewrite !arrived_lookup.
    destruct (frags !! i); simpl; [|done].
    rewrite (bool_decide_ext (i ∈ js ++ [j]) (i ∈ js)); [done|].
    rewrite elem_of_app, list_elem_of_singleton. tauto.
Qed.

Lemma arrived_all {A} (frags : list A) js :
  (∀ i, (i < length frags)%nat → i ∈ js) → arrived frags js = Some <$> frags.
Proof.
  intros H. apply list_eq. intros i. rewrite arrived_lookup, list_lookup_fmap.
  destruct (frags !! i) eqn:E; simpl; [|done].
  rewrite bool_decide_eq_true_2; [done|]. apply H. by eapply lookup_lt_Some.
Qed.

(** Concatenating the payloads of a table; a nil slot contributes nothing. *)
Definition slots_concat {A} (l : list (option (list A))) : list A :=
  concat (map (λ o, match o with Some x => x | None => [] end) l).

Lemma slots_concat_fmap {A} (k : list (list A)) : slots_concat (Some <$> k) = concat k.
Proof.
  unfold slots_concat. f_equal. induction k; csimpl; congruence.
Qed.

(** * Map keys of the form [fmt.Sprintf("%s:%d", s, n)] *)

Definition colon : Ascii.ascii := Ascii.Ascii false true false true true true false false.

Definition keyf (s : string) (n : Z) : string := s +:+ ":" +:+ pretty (Z.to_N n).

Definition chars (s : string) : list Ascii.ascii := String.list_ascii_of_string s.

(** The bytes of a Go string literal. *)
Definition bytes_of_string (s : string) : list Z :=
  (λ c, Z.of_N (Ascii.N_of_ascii c)) <$> chars s.

Notation str s := (bytes_of_string s%string).

Definition string_of_bytes (l : list Z) : string :=
  String.string_of_list_ascii ((λ b, Ascii.ascii_of_N (Z.to_N b)) <$> l).

Lemma chars_app s t : chars (s +:+ t) = chars s ++ chars t.
Proof. induction s as [|c s IH]; simpl; [done | by f_equal]. Qed.

Lemma chars_inj s t : chars s = chars t → s = t.
Proof.
  intros H. rewrite <- (String.string_of_list_ascii_of_string s).
  rewrite <- (String.string_of_list_ascii_of_string t). by f_equal.
Qed.

Lemma pretty_go_no_colon x s : colon ∉ chars s → colon ∉ chars (pretty_N_go x s).
Proof.
  revert s. induction (N.lt_wf_0 x) as [x _ IH]; intros s Hs.
  destruct (decide (x = 0)%N) as [->|Hx].
  - by rewrite pretty_N_go_0.
  - rewrite pretty_N_go_step by lia. apply IH; [apply N.div_lt; lia|].
    simpl. rewrite not_elem_of_cons. split; [|done].
    unfold pretty_N_char. repeat (case_match; try done).
Qed.

Lemma pretty_no_colon (n : N) : colon ∉ chars (pretty n).
Proof.
  unfold pretty, pretty_N. case_decide.
  - simpl. rewrite list_elem_of_singleton. done.
  - apply pretty_go_no_colon. apply not_elem_of_nil.
Qed.

Lemma split_at_last {A} (c : A) l1 l2 d1 d2 :
  c ∉ d1 → c ∉ d2 → l1 ++ c :: d1 = l2 ++ c :: d2 → l1 = l2 ∧ d1 = d2.
Proof.
  intros H1 H2. revert l2.
  induction l1 as [|x l1 IH]; intros [|y l2] H; simpl in H.
  - by injection H.
  - injection H as -> H. exfalso. apply H1. rewrite H. set_solver.
  - injection H as -> H. exfalso. apply H2. rewrite <- H. set_solver.
  - injection H as -> H. destruct (IH _ H) as [-> ->]. done.
Qed.

(** Two keys agree only for the same string and the same number: entries of
    different devices never meet, whatever the device ids contain. *)
Lemma keyf_inj s t n m : 0 <= n → 0 <= m → keyf s n = keyf t m → s = t ∧ n = m.
Proof.
  unfold keyf. intros Hn Hm H. apply (f_equal chars) in H.
  rewrite !chars_app in H. simpl in H.
  apply split_at_last in H as [H1 H2]; [|apply pretty_no_colon..].
  apply chars_inj in H1, H2. apply (inj pretty) in H2. split; [done|lia].
Qed.

(** [copy(buf[off:], src)]: as many bytes of [src] as fit. *)
Definition copy_at {A} (off : nat) (src buf : list A) : list A :=
  take off buf ++ take (length buf - off) src ++ drop (off + length src) buf.

Lemma copy_at_length {A} off (src buf : list A) :
  (off ≤ length buf)%nat → length (copy_at off src buf) = length buf.
Proof.
  intros. unfold copy_at. rewrite !length_app, !length_take, length_drop. lia.
Qed.

(** Overwriting the tail of [l ++ m ++ k] where [m] has the length of [src]. *)
Lemma copy_at_app {A} (l m k src : list A) off :
  off = length l → length src = length m → copy_at off src (l ++ m ++ k) = l ++ src ++ k.
Proof.
  intros -> Hl. unfold copy_at.
  rewrite take_app_length, (take_ge src) by (rewrite !length_app; lia).
  do 2 f_equal. rewrite Hl, <- length_app, app_assoc. apply drop_app_length.
Qed.

Lemma copy_at_eq {A} (l m k src buf : list A) off :
  buf = l ++ m ++ k → off = length l → length src = length m →
  copy_at off src buf = l ++ src ++ k.
Proof. intros ->. apply copy_at_app. Qed.

(** [buf[i] = y] as an update of the block layout. *)
Lemma insert_eq {A} (l k buf : list A) i x y :
  buf = l ++ x :: k → i = length l → <[i := y]> buf = l ++ y :: k.
Proof. intros -> ->. by rewrite insert_app_r_alt, Nat.sub_diag. Qed.

(** Cutting a buffer into the fields a decoder reads. *)
Lemma drop_sub {A} lo hi (l : list A) : (lo ≤ hi)%nat → drop lo l = sub lo hi l ++ drop hi l.
Proof.
  intros H. unfold sub. rewrite <- (take_drop (hi - lo) (drop lo l)) at 1.
  rewrite drop_drop. do 2 f_equal. lia.
Qed.

Lemma drop_idx (l : list Z) i : (i < length l)%nat → drop i l = idx l i :: drop (S i) l.
Proof.
  intros H. destruct (lookup_lt_is_Some_2 l i H) as [x Hx].
  rewrite (idx_lookup _ _ _ Hx). by apply drop_S.
Qed.

Lemma take_sub {A} n (l : list A) : sub 0 n l = take n l.
Proof. unfold sub. by rewrite Nat.sub_0_r. Qed.
