(* ===== verification/Fields.v ===== *)
(** Updating one field of a record: [r <| f := v |>] and [r <| f ::= g |>].

    A record type that wants the notation declares itself [Settable] by giving its
    eta-expansion; the setter of a field is then found by instance search. *)
From S2P Require Import Prelude.

Module Fields.

(** [settable r] is [r], rebuilt from its fields. *)
Class Settable (R : Type) := settable : R → R.

Class Setter {R E : Type} (get : R → E) := update_field : (E → E) → R → R.
Arguments update_field {R E} get {_} f r.

Ltac build_setter R get :=
  let eta := constr:(_ : Settable R) in
  let eta := eval hnf in eta in
  refine (λ f r, ltac:(
    let body := eval cbv beta in (eta r) in
    match body with context C [get r] => let body := context C [f (get r)] in exact body end)).

#[export] Hint Extern 1 (@Setter ?R _ ?get) => build_setter R get : typeclass_instances.

Declare Scope field_scope.
Open Scope field_scope.

Notation "r <| get ::= f |>" := (update_field get f r)
  (at level 12, left associativity, get at level 9, f at level 99,
   format "r  <| get  ::=  f |>") : field_scope.
Notation "r <| get := v |>" := (update_field get (λ _, v) r)
  (at level 12, left associativity, get at level 9, v at level 99,
   format "r  <| get  :=  v |>") : field_scope.

End Fields.
