(* ===== verification/Fragment.v ===== *)
(** SBD fragmentation and reassembly: [internal/fragment/fragment.go]. *)
From S2P Require Import Prelude.

Module Fragment.

Definition IridiumMO_MTU : Z := 340.
Definition IridiumMT_MTU : Z := 270.
Definition HeaderSize : nat := 2.
Definition MaxFragments : Z := 16.
Definition MinFragmentPayload : nat := 100.
Definition versionByte : Z := 1.

Definition EncodeHeader (fragIndex fragTotal msgID : Z) : list Z :=
  [ Z.lor (u8 (Z.shiftl (Z.land fragIndex 15) 4)) (Z.land (u8 (fragTotal - 1)) 15);
    msgID ].

Definition DecodeHeader (b0 b1 : Z) : Z * Z * Z :=
  (Z.shiftr b0 4, u8 (Z.land b0 15 + 1), b1).

Definition IsFragment (data : list Z) : bool :=
  if (length data <? HeaderSize + MinFragmentPayload)%nat then false
  else
    let '(fragIndex, fragTotal, _) := DecodeHeader (idx data 0) (idx data 1) in
    (1 <? fragTotal) && (fragIndex <? fragTotal).

(** [Fragment]; [None] is the nil return. *)
Definition Fragment (data : list Z) (mtu msgID : Z) : option (list (list Z)) :=
  if Zlen data <=? mtu then None
  else
    let fragPayload := mtu - Z.of_nat HeaderSize in
    if fragPayload <=? 0 then None
    else
      let nFrags := (Zlen data + fragPayload - 1) / fragPayload in
      let '(nFrags, data) :=
        if MaxFragments <? nFrags
        then (MaxFragments, take (Z.to_nat (MaxFragments * fragPayload)) data)
        else (nFrags, data) in
      Some (map (λ i, EncodeHeader (u8 (Z.of_nat i)) (u8 nFrags) msgID
                        ++ chunk_at (Z.to_nat fragPayload) data i)
              (seq 0 (Z.to_nat nFrags))).

Record pendingMessage := PendingMessage {
  fragments : list (option (list Z));   (* nil slot = None *)
  total : Z;
  received : Z;
  createdAt : Z;
}.

Record Reassembler := MkReassembler {
  pending : gmap string pendingMessage; (* key: "deviceID:msgID" *)
  maxAge : Z;
}.

Definition NewReassembler (maxAge : Z) : Reassembler := MkReassembler ∅ maxAge.

Inductive AddError := TooShort | IndexBeyondTotal.

(** [AddFragment]: [now] is what [time.Now()] returns. The entry is written to
    the map before the index check, as in the source. *)
Definition AddFragment (now : Z) (r : Reassembler) (deviceID : string) (data : list Z)
  : result AddError (option (list Z)) * Reassembler :=
  if (length data <? HeaderSize)%nat then (Err TooShort, r)
  else
    let '(fragIndex, fragTotal, msgID) := DecodeHeader (idx data 0) (idx data 1) in
    let payload := drop HeaderSize data in
    let key := keyf deviceID msgID in
    let pm :=
      match pending r !! key with
      | Some pm => pm
      | None => PendingMessage (replicate (Z.to_nat fragTotal) None) fragTotal 0 now
      end in
    let r := MkReassembler (<[key := pm]> (pending r)) (maxAge r) in
    if total pm <=? fragIndex then (Err IndexBeyondTotal, r)
    else
      let i := Z.to_nat fragIndex in
      let received' :=
        match fragments pm !! i with
        | Some (Some _) => received pm
        | _ => received pm + 1
        end in
      let pm' := PendingMessage (<[i := Some payload]> (fragments pm)) (total pm)
                   received' (createdAt pm) in
      if received' <? total pm
      then (Ok None, MkReassembler (<[key := pm']> (pending r)) (maxAge r))
      else (Ok (Some (slots_concat (fragments pm'))),
            MkReassembler (delete key (pending r)) (maxAge r)).

Definition Claims (r : Reassembler) (deviceID : string) (data : list Z) (mtu : Z) : bool :=
  if (mtu <=? 0) || negb (IsFragment data) || (idx data 0 =? versionByte) then false
  else
    let '(fragIndex, fragTotal, msgID) := DecodeHeader (idx data 0) (idx data 1) in
    if fragIndex <? u8 (fragTotal - 1) then Zlen data =? mtu
    else if mtu <? Zlen data then false
    else
      match pending r !! keyf deviceID msgID with
      | Some pm => total pm =? fragTotal
      | None => false
      end.

(** [Expire] returns the number of entries removed. *)
Definition expired (cutoff : Z) (pm : pendingMessage) : bool := createdAt pm <? cutoff.

Definition Expire (now : Z) (r : Reassembler) : nat * Reassembler :=
  let cutoff := now - maxAge r in
  (size (filter (λ kv, expired cutoff kv.2 = true) (pending r)),
   MkReassembler (filter (λ kv, expired cutoff kv.2 = false) (pending r)) (maxAge r)).

Definition PendingCount (r : Reassembler) : nat := size (pending r).

(** The fragment step of the RockBLOCK MO webhook: a claimed payload goes to the
    reassembler and either errors, waits or yields the whole message; anything
    else is a whole message already. *)
Inductive inbound_result :=
| FragmentError (e : AddError)
| FragmentBuffered
| WholeMessage (bytes : list Z).

Definition of_add (o : result AddError (option (list Z))) : inbound_result :=
  match o with
  | Err e => FragmentError e
  | Ok None => FragmentBuffered
  | Ok (Some m) => WholeMessage m
  end.

Definition inbound (now : Z) (r : Reassembler) (imei : string) (rawBytes : list Z)
  : inbound_result * Reassembler :=
  if Claims r imei rawBytes IridiumMO_MTU then
    let '(o, r) := AddFragment now r imei rawBytes in (of_add o, r)
  else (WholeMessage rawBytes, r).

Fixpoint inbound_all (r : Reassembler) (imei : string) (fs : list (Z * list Z))
  : list inbound_result * Reassembler :=
  match fs with
  | [] => ([], r)
  | (now, f) :: fs =>
      let '(o, r) := inbound now r imei f in
      let '(os, r) := inbound_all r imei fs in
      (o :: os, r)
  end.

(** Feeding a sequence of (arrival time, fragment) pairs of one device. *)
Fixpoint feed (r : Reassembler) (deviceID : string) (fs : list (Z * list Z))
  : list (result AddError (option (list Z))) * Reassembler :=
  match fs with
  | [] => ([], r)
  | (now, f) :: fs =>
      let '(o, r) := AddFragment now r deviceID f in
      let '(os, r) := feed r deviceID fs in
      (o :: os, r)
  end.

(** ** The header *)

Lemma header_roundtrip_aux :
  zall 16 (λ i, zall 16 (λ t,
    let b0 := Z.lor (u8 (Z.shiftl (Z.land i 15) 4)) (Z.land (u8 (t + 1 - 1)) 15) in
    (Z.shiftr b0 4 =? i) && (u8 (Z.land b0 15 + 1) =? t + 1) && (0 <=? b0) && (b0 <? 256)))
  = true.
Proof. vm_compute. done. Qed.

Lemma header_fields i t :
  0 <= i < 16 → 1 <= t <= 16 →
  let b0 := Z.lor (u8 (Z.shiftl (Z.land i 15) 4)) (Z.land (u8 (t - 1)) 15) in
  Z.shiftr b0 4 = i ∧ u8 (Z.land b0 15 + 1) = t ∧ byte_ok b0.
Proof.
  intros Hi Ht b0.
  pose proof (zall_spec _ _ header_roundtrip_aux i ltac:(lia)) as H.
  pose proof (zall_spec _ _ H (t - 1) ltac:(lia)) as H'. clear H.
  cbv beta zeta in H'. replace (t - 1 + 1) with t in H' by lia. fold b0 in H'.
  zbool. unfold byte_ok. repeat split; done || lia.
Qed.

Lemma DecodeHeader_EncodeHeader i t id rest :
  0 <= i < 16 → 1 <= t <= 16 →
  DecodeHeader (idx (EncodeHeader i t id ++ rest) 0) (idx (EncodeHeader i t id ++ rest) 1)
  = (i, t, id).
Proof.
  intros Hi Ht. destruct (header_fields i t Hi Ht) as (H1 & H2 & _).
  unfold DecodeHeader, EncodeHeader, idx. cbn [nth app]. by rewrite H1, H2.
Qed.

(** ** Reassembly *)

Section Reassembly.
Set Default Proof Using "Type".
Context (deviceID : string) (id : Z) (ps : list (list Z))
        (Hps : (1 ≤ length ps ≤ 16)%nat).

Let n := Zlen ps.
Let k := keyf deviceID id.

(** The wire form of payload [j] of a message of [length ps] fragments. *)
Definition wire (j : nat) (p : list Z) : list Z := EncodeHeader (Z.of_nat j) n id ++ p.

(** The pending entry once the fragments [js] have arrived. *)
Definition entry (js : list nat) (ca : Z) : pendingMessage :=
  PendingMessage (arrived ps js) n (Z.of_nat (filled (arrived ps js))) ca.

Definition at_stage (r : Reassembler) (js : list nat) : Prop :=
  match js with
  | [] => pending r !! k = None
  | _ => ∃ ca, pending r !! k = Some (entry js ca)
  end.

Lemma entry_nil ca : entry [] ca = PendingMessage (replicate (Z.to_nat n) None) n 0 ca.
Proof.
  unfold entry. rewrite arrived_nil, filled_replicate. unfold n, Zlen.
  by rewrite Nat2Z.id.
Qed.

Lemma received_step js j p :
  ps !! j = Some p →
  match arrived ps js !! j with
  | Some (Some _) => Z.of_nat (filled (arrived ps js))
  | _ => Z.of_nat (filled (arrived ps js)) + 1
  end = Z.of_nat (filled (arrived ps (js ++ [j]))).
Proof.
  clear Hps. intros Hj. rewrite <- (arrived_insert ps js j p Hj).
  destruct (arrived ps js !! j) as [o|] eqn:E.
  - rewrite (filled_insert _ _ o) by done. destruct o; simpl; lia.
  - rewrite arrived_lookup, Hj in E. done.
Qed.

Lemma AddFragment_stage now r js j p :
  at_stage r js → ps !! j = Some p →
  ∃ ca, AddFragment now r deviceID (wire j p) =
    if (filled (arrived ps (js ++ [j])) <? length ps)%nat
    then (Ok None, MkReassembler (<[k := entry (js ++ [j]) ca]> (pending r)) (maxAge r))
    else (Ok (Some (slots_concat (arrived ps (js ++ [j])))),
          MkReassembler (delete k (pending r)) (maxAge r)).
Proof using Hps.
  intros Hst Hj. assert (j < length ps)%nat as Hlt by by eapply lookup_lt_Some.
  assert (∃ ca, match pending r !! k with
                | Some pm => pm
                | None => PendingMessage (replicate (Z.to_nat n) None) n 0 now
                end = entry js ca) as [ca Hpm].
  { destruct js as [|j0 js]; simpl in Hst.
    - exists now. by rewrite Hst, entry_nil.
    - destruct Hst as [ca Hca]. exists ca. by rewrite Hca. }
  exists ca. unfold AddFragment.
  replace (length (wire j p) <? HeaderSize)%nat with false
    by (symmetry; apply Nat.ltb_ge; unfold wire, EncodeHeader, HeaderSize; simpl; lia).
  unfold wire. rewrite DecodeHeader_EncodeHeader by (unfold n, Zlen; lia).
  fold k. rewrite Hpm. cbn [entry total received fragments createdAt pending maxAge].
  replace (n <=? Z.of_nat j) with false by (symmetry; apply Z.leb_gt; unfold n, Zlen; lia).
  rewrite Nat2Z.id, (received_step _ _ p) by done.
  change (drop HeaderSize (EncodeHeader (Z.of_nat j) n id ++ p)) with p.
  rewrite (arrived_insert _ _ _ p) by done.
  replace (Z.of_nat (filled (arrived ps (js ++ [j]))) <? n)
    with (filled (arrived ps (js ++ [j])) <? length ps)%nat
    by (apply eq_bool_prop_intro; rewrite !Is_true_true, Z.ltb_lt, Nat.ltb_lt; unfold n, Zlen; lia).
  destruct (_ <? _)%nat.
  - by rewrite insert_insert_eq.
  - by rewrite delete_insert_eq.
Qed.

Lemma stage_incomplete js i :
  (i < length ps)%nat → i ∉ js → (filled (arrived ps js) < length ps)%nat.
Proof.
  intros Hi Hn. rewrite <- (arrived_length ps js). apply (filled_lt _ i).
  rewrite arrived_lookup. destruct (lookup_lt_is_Some_2 ps i Hi) as [p ->]. simpl.
  by rewrite bool_decide_eq_false_2.
Qed.

Lemma stage_complete js :
  (∀ i, (i < length ps)%nat → i ∈ js) →
  (filled (arrived ps js) <? length ps)%nat = false ∧ slots_concat (arrived ps js) = concat ps.
Proof.
  intros H. rewrite arrived_all by done. rewrite slots_concat_fmap, filled_fmap.
  split; [apply Nat.ltb_irrefl | done].
Qed.

(** Any sequence of arrivals that leaves some fragment out reports
    "not yet complete" at every step and only touches this message's entry. *)
Lemma feed_stage todo : ∀ js r,
  at_stage r js →
  Forall (λ '(_, j), (j < length ps)%nat) todo →
  (∃ i, (i < length ps)%nat ∧ i ∉ js ++ map snd todo) →
  ∃ r', feed r deviceID (map (λ '(t, j), (t, wire j (nth j ps []))) todo)
          = (replicate (length todo) (Ok None), r')
      ∧ at_stage r' (js ++ map snd todo)
      ∧ delete k (pending r') = delete k (pending r) ∧ maxAge r' = maxAge r.
Proof using Hps.
  induction todo as [|[t j] todo IH]; intros js r Hst Hb (i & Hi & Hn); simpl.
  - exists r. by rewrite app_nil_r.
  - apply Forall_cons in Hb as [Hj Hb].
    assert (ps !! j = Some (nth j ps [])) as Hp.
    { rewrite nth_lookup.
      destruct (lookup_lt_is_Some_2 ps j Hj) as [p ->]. done. }
    destruct (AddFragment_stage t r js j _ Hst Hp) as [ca Hadd].
    assert (filled (arrived ps (js ++ [j])) < length ps)%nat as Hf
      by (apply (stage_incomplete _ i); [done | set_solver]).
    apply Nat.ltb_lt in Hf. rewrite Hf in Hadd. rewrite Hadd.
    destruct (IH (js ++ [j]) (MkReassembler (<[k:=entry (js ++ [j]) ca]> (pending r)) (maxAge r)))
      as (r' & -> & Hst' & Hdel & Hage).
    + destruct js; simpl; exists ca; apply lookup_insert_eq.
    + done.
    + exists i. rewrite <- app_assoc. done.
    + exists r'. rewrite <- app_assoc in Hst'. split_and!; [done..| |done].
      rewrite Hdel. cbn [pending]. apply delete_insert_eq.
Qed.
End Reassembly.

(** ** The splitter *)

Definition payloads (data : list Z) (mtu : Z) (n : nat) : list (list Z) :=
  map (chunk_at (Z.to_nat (mtu - 2)) data) (seq 0 n).

Lemma payloads_length data mtu n : length (payloads data mtu n) = n.
Proof. unfold payloads. by rewrite length_map, length_seq. Qed.

Lemma payloads_lookup data mtu n j :
  (j < n)%nat → payloads data mtu n !! j = Some (chunk_at (Z.to_nat (mtu - 2)) data j).
Proof.
  intros. unfold payloads. change (map ?f ?l) with (f <$> l).
  rewrite list_lookup_fmap, lookup_seq_lt by done. done.
Qed.

Lemma payloads_Zlen data mtu n i p :
  2 < mtu → payloads data mtu n !! i = Some p →
  Zlen p = Z.max 0 (Z.min (mtu - 2) (Zlen data - Z.of_nat i * (mtu - 2))).
Proof.
  intros Hm H. assert (i < n)%nat by (rewrite <- (payloads_length data mtu n); by eapply lookup_lt_Some).
  rewrite payloads_lookup in H by done. injection H as <-.
  unfold Zlen. rewrite chunk_at_length. nia.
Qed.

(** [Fragment] succeeds exactly on a payload longer than the MTU with an MTU
    above the header, cuts it (or its first [16 * (mtu - 2)] bytes) every
    [mtu - 2] bytes and labels the pieces. *)
Lemma Fragment_shape data mtu id frags :
  Fragment data mtu id = Some frags →
  2 < mtu ∧ mtu < Zlen data ∧
  ∃ n, (2 ≤ n ≤ 16)%nat ∧
    let kept := take (Z.to_nat (16 * (mtu - 2))) data in
    let ps := payloads kept mtu n in
    frags = imap (wire id ps) ps ∧ concat ps = kept ∧
    (mtu - 2) * (Z.of_nat n - 1) < Zlen kept <= (mtu - 2) * Z.of_nat n.
Proof.
  unfold Fragment. change (Z.of_nat HeaderSize) with 2. unfold MaxFragments.
  destruct (Z.leb_spec (Zlen data) mtu); [done|].
  destruct (Z.leb_spec (mtu - 2) 0); [done|].
  set (p := mtu - 2) in *. set (c := (Zlen data + p - 1) / p).
  assert (Zlen data <= c * p < Zlen data + p) as Hc
    by (apply ceil_div_cover; [apply Zlen_nonneg | lia]).
  assert (∀ n kept, (2 ≤ n ≤ 16)%nat →
    map (λ i, EncodeHeader (u8 (Z.of_nat i)) (u8 (Z.of_nat n)) id ++ chunk_at (Z.to_nat p) kept i)
      (seq 0 n) = imap (wire id (payloads kept mtu n)) (payloads kept mtu n)) as Himap.
  { intros n kept Hn. apply list_eq. intros i. rewrite list_lookup_imap.
    change (map ?f ?l) with (f <$> l). rewrite list_lookup_fmap.
    destruct (decide (i < n)%nat) as [Hi|Hi].
    - rewrite lookup_seq_lt, payloads_lookup by done. cbn [fmap option_fmap option_map].
      unfold wire, Zlen. rewrite payloads_length, Nat.add_0_l.
      rewrite (u8_small (Z.of_nat i)), (u8_small (Z.of_nat n)) by (unfold byte_ok; lia). done.
    - rewrite lookup_seq_ge by lia.
      rewrite (proj2 (lookup_ge_None (payloads kept mtu n) i)) by (rewrite payloads_length; lia).
      done. }
  intros Hf. split_and!; [lia..|].
  destruct (Z.ltb_spec 16 c) as [Hbig|Hsmall]; injection Hf as <-.
  - exists 16%nat. split; [lia|]. cbv zeta.
    split; [exact (Himap 16%nat _ ltac:(lia))|].
    unfold Zlen in *. rewrite length_take. split; [|nia].
    unfold payloads. fold p. apply concat_chunks_all. rewrite length_take. lia.
  - assert (2 <= c) by nia.
    exists (Z.to_nat c). split; [lia|]. cbv zeta.
    rewrite (take_ge data) by (unfold Zlen in *; nia).
    rewrite <- Himap by lia. rewrite !Z2Nat.id by lia.
    split; [done|]. split; [|nia].
    unfold payloads. fold p. apply concat_chunks_all. unfold Zlen in *. nia.
Qed.

(** ** The reassembler's invariant *)

Definition pm_ok (pm : pendingMessage) : Prop :=
  Z.of_nat (length (fragments pm)) = total pm ∧ 1 <= total pm <= 16 ∧
  received pm = Z.of_nat (filled (fragments pm)) ∧ received pm < total pm.

Definition inv (r : Reassembler) : Prop := map_Forall (λ _, pm_ok) (pending r).

Lemma DecodeHeader_total b0 b1 i t id :
  DecodeHeader b0 b1 = (i, t, id) → byte_ok b0 → 0 <= i < 16 ∧ 1 <= t <= 16 ∧ id = b1.
Proof.
  unfold DecodeHeader, u8, byte_ok. intros [= <- <- <-] H.
  change 15 with (Z.ones 4). rewrite Z.land_ones, Z.shiftr_div_pow2 by lia.
  change (2 ^ 4) with 16. rewrite (Z.mod_small (_ + 1)) by zlia. split_and!; zlia.
Qed.

Lemma inv_AddFragment now r dev data :
  bytes_ok data → inv r → inv (AddFragment now r dev data).2.
Proof.
  intros Hd Hinv. unfold AddFragment.
  destruct (_ <? _)%nat; [done|].
  destruct (DecodeHeader _ _) as [[i t] id] eqn:Ehdr.
  apply DecodeHeader_total in Ehdr as (Hi & Ht & ->); [|by apply idx_ok].
  set (k := keyf dev _).
  set (pm := match pending r !! k with Some _ => _ | None => _ end).
  assert (pm_ok pm) as Hpm.
  { subst pm. destruct (pending r !! k) as [pm|] eqn:E; [exact (Hinv _ _ E)|].
    unfold pm_ok. cbn. rewrite length_replicate, filled_replicate. lia. }
  clearbody pm. destruct Hpm as (Hlen & Htot & Hrec & Hlt).
  destruct (Z.leb_spec (total pm) i).
  { apply map_Forall_insert_2; [done|done]. }
  destruct (fragments pm !! Z.to_nat i) as [o|] eqn:Eo;
    [|apply lookup_ge_None in Eo; lia].
  destruct (_ <? total pm) eqn:Elt; cbn [snd].
  - apply Z.ltb_lt in Elt. apply map_Forall_insert_2; [|by apply map_Forall_insert_2].
    unfold pm_ok. cbn [fragments total received]. rewrite length_insert.
    rewrite (filled_insert _ _ o) by done. destruct o; simpl; lia.
  - by apply map_Forall_delete, map_Forall_insert_2.
Qed.

Lemma inv_Expire now r : inv r → inv (Expire now r).2.
Proof. intros H k pm Hk. apply map_lookup_filter_Some in Hk as [Hk _]. exact (H _ _ Hk). Qed.

(** ** Properties *)

(** C23: cutting a message that fits in sixteen fragments and feeding the pieces
    to a reassembler in any order, with any repetitions, gives the message back
    exactly when the last missing piece arrives: every earlier call answers
    "not yet complete", and afterwards the reassembler is as it was. *)
Theorem reassemble_any_order r dev data mtu id frags todo t j :
  Fragment data mtu id = Some frags →
  Zlen data <= 16 * (mtu - 2) →
  pending r !! keyf dev id = None →
  Forall (λ '(_, i), (i < length frags)%nat) todo →
  (j < length frags)%nat → j ∉ map snd todo →
  (∀ i, (i < length frags)%nat → i ∈ map snd todo ++ [j]) →
  ∃ r', feed r dev (map (λ '(t, i), (t, nth i frags [])) todo)
          = (replicate (length todo) (Ok None), r')
      ∧ AddFragment t r' dev (nth j frags []) = (Ok (Some data), r).
Proof.
  intros HF Hfit Hnone Htodo Hj Hnj Hall.
  apply Fragment_shape in HF as (Hm & Hlong & n & Hn & -> & Hcat & _). cbv zeta in *.
  rewrite take_ge in * by (unfold Zlen in *; lia).
  set (ps := payloads data mtu n) in *.
  assert (length ps = n) as Hlen by apply payloads_length.
  rewrite length_imap in *.
  assert (∀ i, (i < length ps)%nat →
    nth i (imap (wire id ps) ps) [] = wire id ps i (nth i ps [])) as Hnth.
  { intros i Hi. rewrite !nth_lookup, list_lookup_imap.
    by destruct (lookup_lt_is_Some_2 ps i Hi) as [p ->]. }
  destruct (feed_stage dev id ps ltac:(lia) todo [] r) as (r' & Hfeed & Hst & Hdel & Hage);
    [done | done | by exists j |].
  exists r'. split.
  { rewrite <- Hfeed. f_equal. apply map_ext_Forall.
    eapply Forall_impl; [exact Htodo|]. intros [t' i] Hi. simpl in Hi. by rewrite Hnth. }
  rewrite Hnth by done. simpl in Hst.
  assert (ps !! j = Some (nth j ps [])) as Hp.
  { rewrite nth_lookup. by destruct (lookup_lt_is_Some_2 ps j Hj) as [p ->]. }
  destruct (AddFragment_stage dev id ps ltac:(lia) t r' _ j _ Hst Hp) as [ca ->].
  destruct (stage_complete ps (map snd todo ++ [j]) Hall) as [-> ->].
  rewrite Hcat, Hdel, Hage, delete_id by done. by destruct r.
Qed.

Lemma reassemble_any_order_witness :
  ∃ r', feed (NewReassembler 60) "dev" [(5, nth 1 (default [] (Fragment (replicate 20 7%Z) 10 3)) []);
                                        (6, nth 0 (default [] (Fragment (replicate 20 7%Z) 10 3)) [])]
          = (replicate 2 (Ok None), r')
      ∧ AddFragment 7 r' "dev" (nth 2 (default [] (Fragment (replicate 20 7%Z) 10 3)) [])
          = (Ok (Some (replicate 20 7%Z)), NewReassembler 60).
Proof.
  apply (reassemble_any_order (NewReassembler 60) "dev" (replicate 20 7%Z) 10 3
           (default [] (Fragment (replicate 20 7%Z) 10 3)) [(5, 1%nat); (6, 0%nat)] 7 2%nat).
  - reflexivity.
  - vm_compute. discriminate.
  - reflexivity.
  - repeat constructor.
  - vm_compute. lia.
  - simpl. set_solver.
  - intros i Hi. vm_compute in Hi. simpl.
    destruct i as [|[|[|i]]]; [set_solver..|lia].
Defined.

(** [Fragment] makes between two and sixteen pieces; each is at most one
    MTU, every piece but the last is exactly one MTU, and the payloads after
    the two header bytes concatenate to the first [16 * (mtu - 2)] bytes of the
    message: what lies beyond is dropped without an error. *)
Theorem Fragment_sizes data mtu id frags :
  Fragment data mtu id = Some frags →
  (2 ≤ length frags ≤ 16)%nat ∧
  Forall (λ f, 2 < Zlen f <= mtu) frags ∧
  (∀ i f, frags !! i = Some f → (i + 1 < length frags)%nat → Zlen f = mtu) ∧
  concat (map (drop 2) frags) = take (Z.to_nat (16 * (mtu - 2))) data.
Proof.
  intros HF. apply Fragment_shape in HF as (Hm & Hlong & n & Hn & -> & Hcat & Hlen).
  cbv zeta in *. set (kept := take _ data) in *. set (ps := payloads kept mtu n) in *.
  rewrite length_imap. assert (length ps = n) as Hps by apply payloads_length. rewrite Hps.
  assert (∀ i f, imap (wire id ps) ps !! i = Some f →
     (i < n)%nat ∧ Zlen f = 2 + Z.min (mtu - 2) (Zlen kept - Z.of_nat i * (mtu - 2))) as Hf.
  { intros i f H. rewrite list_lookup_imap in H. destruct (ps !! i) as [p|] eqn:E; simplify_eq/=.
    assert (i < n)%nat as Hi by (rewrite <- Hps; by eapply lookup_lt_Some).
    split; [done|]. unfold wire. rewrite Zlen_app, (payloads_Zlen _ _ _ _ _ Hm E).
    change (Zlen (EncodeHeader _ _ _)) with 2. nia. }
  split_and!; [lia..| | |].
  - apply Forall_lookup. intros i f H. apply Hf in H as [Hi ->]. nia.
  - intros i f H Hi. apply Hf in H as [_ ->]. nia.
  - rewrite <- Hcat. f_equal. apply list_eq. intros i. change (map ?f ?l) with (f <$> l).
    rewrite list_lookup_fmap, list_lookup_imap. by destruct (ps !! i).
Qed.

Lemma Fragment_sizes_witness :
  (2 ≤ length (default [] (Fragment (replicate 200 7%Z) 10 3)) ≤ 16)%nat ∧
  concat (map (drop 2) (default [] (Fragment (replicate 200 7%Z) 10 3))) = replicate 128 7%Z.
Proof.
  destruct (Fragment_sizes (replicate 200 7%Z) 10 3 (default [] (Fragment (replicate 200 7%Z) 10 3)))
    as (H1 & _ & _ & H2); [reflexivity|]. split; [exact H1|]. rewrite H2. reflexivity.
Defined.

(** The reassembler's table stays well formed under every operation: each
    entry has as many slots as its total (between 1 and 16), its received count
    is the number of filled slots, and it is always still incomplete. *)
Theorem reassembler_invariant now r dev data :
  bytes_ok data → inv r →
  inv (NewReassembler (maxAge r)) ∧ inv (AddFragment now r dev data).2 ∧ inv (Expire now r).2.
Proof.
  intros Hd Hr. split_and!.
  - apply map_Forall_empty.
  - by apply inv_AddFragment.
  - by apply inv_Expire.
Qed.

Lemma reassembler_invariant_witness :
  inv (AddFragment 5 (NewReassembler 60) "dev" [2; 9; 1]).2.
Proof.
  apply (reassembler_invariant 5 (NewReassembler 60) "dev" [2; 9; 1]).
  - repeat constructor; unfold byte_ok; lia.
  - apply map_Forall_empty.
Defined.

(** A fragment of one device and message id never reads or changes the
    pending entry of another device or another message id. *)
Theorem AddFragment_isolated now r dev data dev' id' :
  bytes_ok data → 0 <= id' → (dev, idx data 1) ≠ (dev', id') →
  pending (AddFragment now r dev data).2 !! keyf dev' id' = pending r !! keyf dev' id'.
Proof.
  intros Hd Hid Hne. unfold AddFragment. destruct (_ <? _)%nat; [done|].
  unfold DecodeHeader. assert (keyf dev (idx data 1) ≠ keyf dev' id') as Hk.
  { intros H. apply keyf_inj in H as [??]; [congruence | by apply idx_ok | done]. }
  repeat case_match; simplify_eq/=;
    rewrite ?lookup_insert_ne, ?lookup_delete_ne, ?lookup_insert_ne by done; done.
Qed.

Lemma AddFragment_isolated_witness :
  pending (AddFragment 5 (NewReassembler 60) "a:1" [2; 9; 1]).2 !! keyf "a" 9 = None.
Proof.
  rewrite (AddFragment_isolated 5 (NewReassembler 60) "a:1" [2; 9; 1] "a" 9).
  - reflexivity.
  - repeat constructor; unfold byte_ok; lia.
  - lia.
  - by intros [=].
Defined.

(** ** Which payloads the inbound path claims *)

Lemma header_byte_aux :
  zall 16 (λ i, zall 16 (λ t,
    (t <? 2) || negb (Z.lor (u8 (Z.shiftl (Z.land i 15) 4)) (Z.land (u8 (t + 1 - 1)) 15) =? 1)))
  = true.
Proof. vm_compute. done. Qed.

Lemma header_not_version i t :
  0 <= i < 16 → 3 <= t <= 16 →
  Z.lor (u8 (Z.shiftl (Z.land i 15) 4)) (Z.land (u8 (t - 1)) 15) ≠ 1.
Proof.
  intros Hi Ht.
  pose proof (zall_spec _ _ header_byte_aux i ltac:(lia)) as H.
  pose proof (zall_spec _ _ H (t - 1) ltac:(lia)) as H'. clear H. cbv beta in H'.
  replace (t - 1 + 1) with t in H' by lia. apply orb_true_iff in H' as [H'|H']; zbool; lia.
Qed.

Lemma Claims_wire r dev id ps i p :
  (3 ≤ length ps ≤ 16)%nat → (i < length ps)%nat →
  Claims r dev (wire id ps i p) IridiumMO_MTU =
    if (100 <=? Zlen p) then
      if Z.of_nat i <? Zlen ps - 1 then Zlen p =? IridiumMO_MTU - 2
      else if IridiumMO_MTU - 2 <? Zlen p then false
      else match pending r !! keyf dev id with
           | Some pm => total pm =? Zlen ps
           | None => false
           end
    else false.
Proof.
  intros Hn Hi. unfold Claims, IsFragment.
  assert (Zlen (wire id ps i p) = 2 + Zlen p) as Hlen by (unfold wire; by rewrite Zlen_app).
  replace (length (wire id ps i p) <? HeaderSize + MinFragmentPayload)%nat
    with (negb (100 <=? Zlen p)).
  2: { unfold HeaderSize, MinFragmentPayload, Zlen in *.
       destruct (Z.leb_spec 100 (Z.of_nat (length p))); simpl; symmetry;
         [apply Nat.ltb_ge | apply Nat.ltb_lt]; lia. }
  destruct (100 <=? Zlen p); cbn [negb]; [|by rewrite orb_true_r].
  unfold wire at 1 2 4 5. rewrite !DecodeHeader_EncodeHeader by (unfold Zlen; lia).
  replace (idx (wire id ps i p) 0 =? versionByte) with false.
  2: { symmetry. apply Z.eqb_neq. unfold wire, EncodeHeader, idx, versionByte. cbn [nth app].
       apply header_not_version; unfold Zlen; lia. }
  rewrite Hlen, (u8_small (Zlen ps - 1)) by (unfold byte_ok, Zlen; lia).
  replace (1 <? Zlen ps) with true by (symmetry; apply Z.ltb_lt; unfold Zlen; lia).
  replace (Z.of_nat i <? Zlen ps) with true by (symmetry; apply Z.ltb_lt; unfold Zlen; lia).
  cbn [negb orb andb IridiumMO_MTU Z.leb Z.compare].
  destruct (Z.of_nat i <? Zlen ps - 1).
  - destruct (Z.eqb_spec (2 + Zlen p) IridiumMO_MTU), (Z.eqb_spec (Zlen p) (IridiumMO_MTU - 2));
      done || lia.
  - destruct (Z.ltb_spec IridiumMO_MTU (2 + Zlen p)), (Z.ltb_spec (IridiumMO_MTU - 2) (Zlen p));
      done || lia.
Qed.

Lemma inbound_all_claimed r dev fs :
  (∀ r t f, (t, f) ∈ fs → Claims r dev f IridiumMO_MTU = true) →
  inbound_all r dev fs = let '(os, r') := feed r dev fs in (map of_add os, r').
Proof.
  revert r. induction fs as [|[t f] fs IH]; intros r H; [done|].
  cbn [inbound_all feed]. unfold inbound. rewrite (H r t f) by left.
  destruct (AddFragment t r dev f) as [o r1]. rewrite IH by (intros; by eapply H; right).
  by destruct (feed r1 dev fs).
Qed.

Lemma inbound_all_app r dev fs gs :
  inbound_all r dev (fs ++ gs) =
    let '(os, r1) := inbound_all r dev fs in
    let '(ps, r2) := inbound_all r1 dev gs in (os ++ ps, r2).
Proof.
  revert r. induction fs as [|[t f] fs IH]; intros r; simpl.
  - by destruct (inbound_all r dev gs).
  - destruct (inbound t r dev f) as [o r1]. rewrite IH.
    destruct (inbound_all r1 dev fs) as [os r2]. by destruct (inbound_all r2 dev gs).
Qed.

Lemma zip_in_order id ps (ts : list Z) :
  length ts = length ps →
  zip ts (imap (wire id ps) ps) =
    map (λ '(t, i), (t, wire id ps i (nth i ps []))) (zip ts (seq 0 (length ps))).
Proof.
  intros Hl. apply list_eq. intros i. change (map ?f ?l) with (f <$> l).
  rewrite list_lookup_fmap, !lookup_zip_with, list_lookup_imap.
  destruct (decide (i < length ps)%nat) as [Hi|Hi].
  - rewrite lookup_seq_lt by done.
    destruct (lookup_lt_is_Some_2 ps i Hi) as [p Hp].
    destruct (lookup_lt_is_Some_2 ts i ltac:(lia)) as [t Ht].
    rewrite Ht, Hp. simpl. by rewrite nth_lookup, Hp.
  - by rewrite (lookup_ge_None_2 ts i) by lia.
Qed.

(** The state and answers after the first [n - 1] fragments came in order. *)
Lemma inbound_prefix r dev id ps times :
  (3 ≤ length ps ≤ 16)%nat →
  (∀ i p, ps !! i = Some p → (i + 1 < length ps)%nat → Zlen p = IridiumMO_MTU - 2) →
  pending r !! keyf dev id = None →
  length times = (length ps - 1)%nat →
  ∃ r' ca, inbound_all r dev (map (λ '(t, i), (t, wire id ps i (nth i ps [])))
                                (zip times (seq 0 (length ps - 1))))
          = (replicate (length ps - 1) FragmentBuffered, r')
      ∧ pending r' = <[keyf dev id := entry ps (seq 0 (length ps - 1)) ca]> (pending r)
      ∧ maxAge r' = maxAge r.
Proof.
  intros Hn Hmid Hnone Htimes. set (n := length ps) in *.
  set (todo := zip times (seq 0 (n - 1))).
  assert (map snd todo = seq 0 (n - 1)) as Hsnd
    by (subst todo; apply snd_zip; rewrite length_seq; lia).
  fold todo.
  assert (Forall (λ '(_, j), (j < n - 1)%nat) todo) as Hrange.
  { apply Forall_forall. intros [t j] Hin. apply (list_elem_of_fmap_2 snd) in Hin. simpl in Hin.
    change (snd <$> todo) with (map snd todo) in Hin. rewrite Hsnd in Hin.
    apply elem_of_seq in Hin. lia. }
  assert (length todo = (n - 1)%nat) as Hltodo
    by (subst todo; rewrite length_zip, length_seq; lia).
  destruct (feed_stage dev id ps ltac:(fold n; lia) todo [] r) as (r' & Hfeed & Hst & Hdel & Hage).
  { done. }
  { eapply Forall_impl; [exact Hrange|]. intros [t j]. fold n. lia. }
  { exists (n - 1)%nat. fold n. split; [lia|]. simpl. rewrite Hsnd, elem_of_seq. lia. }
  simpl in Hst. rewrite Hsnd in Hst. unfold at_stage in Hst.
  destruct (seq 0 (n - 1)) as [|j0 js] eqn:Eseq.
  { apply (f_equal length) in Eseq. rewrite length_seq in Eseq. simpl in Eseq. lia. }
  rewrite <- Eseq in *. destruct Hst as [ca Hca].
  exists r', ca. split_and!.
  - rewrite inbound_all_claimed, Hfeed, Hltodo.
    + f_equal. change (map ?f ?l) with (f <$> l). by rewrite fmap_replicate.
    + intros r0 t f Hin. apply list_elem_of_In, in_map_iff in Hin as ([t' j] & [= <- <-] & Hin).
      apply list_elem_of_In in Hin. rewrite Forall_forall in Hrange.
      specialize (Hrange _ Hin). simpl in Hrange.
      destruct (lookup_lt_is_Some_2 ps j ltac:(fold n; lia)) as [p Hp].
      rewrite nth_lookup, Hp. simpl. rewrite Claims_wire by (fold n; lia).
      rewrite (Hmid j p) by (done || fold n; lia).
      replace (Z.of_nat j <? Zlen ps - 1) with true
        by (symmetry; apply Z.ltb_lt; unfold Zlen; fold n; lia). done.
  - rewrite <- (insert_id _ _ _ Hca), <- insert_delete_eq, Hdel, insert_delete_eq. done.
  - done.
Qed.

Lemma filled_prefix (ps : list (list Z)) p :
  (1 ≤ length ps)%nat → ps !! (length ps - 1)%nat = Some p →
  Z.of_nat (filled (arrived ps (seq 0 (length ps - 1)))) = Zlen ps - 1.
Proof.
  intros Hn Hp. pose proof (received_step ps (seq 0 (length ps - 1)) _ p Hp) as H.
  rewrite arrived_lookup, Hp in H. cbn [fmap option_fmap option_map] in H.
  rewrite bool_decide_eq_false_2 in H by (rewrite elem_of_seq; lia).
  rewrite (arrived_all ps (_ ++ _)), filled_fmap in H; [unfold Zlen; lia|].
  intros i Hi. rewrite elem_of_app, elem_of_seq, list_elem_of_singleton. lia.
Qed.

(** The last fragment after all the others. *)
Lemma inbound_last r dev id (ps : list (list Z)) p ca m t :
  (3 ≤ length ps ≤ 16)%nat → ps !! (length ps - 1)%nat = Some p →
  Zlen p <= IridiumMO_MTU - 2 →
  pending r = <[keyf dev id := entry ps (seq 0 (length ps - 1)) ca]> m →
  inbound t r dev (wire id ps (length ps - 1) p) =
    if 100 <=? Zlen p
    then (WholeMessage (concat ps), MkReassembler (delete (keyf dev id) m) (maxAge r))
    else (WholeMessage (wire id ps (length ps - 1) p), r).
Proof.
  intros Hn Hp Hmax Hpend. set (n := length ps) in *.
  unfold inbound. rewrite Claims_wire by (fold n; lia).
  replace (Z.of_nat (n - 1) <? Zlen ps - 1) with false
    by (symmetry; apply Z.ltb_ge; unfold Zlen; lia).
  replace (IridiumMO_MTU - 2 <? Zlen p) with false by (symmetry; apply Z.ltb_ge; lia).
  rewrite Hpend, lookup_insert_eq. cbn [total entry]. rewrite Z.eqb_refl.
  destruct (100 <=? Zlen p); [|done].
  destruct (AddFragment_stage dev id ps ltac:(fold n; lia) t r (seq 0 (n - 1)) (n - 1) p)
    as [ca' Hadd]; [|done|].
  { destruct (seq 0 (n - 1)) as [|j js] eqn:E; [by apply (f_equal length) in E;
      rewrite length_seq in E; simpl in E; lia|].
    exists ca. rewrite Hpend. apply lookup_insert_eq. }
  destruct (stage_complete ps (seq 0 (n - 1) ++ [(n - 1)%nat])) as [E1 E2].
  { intros i Hi. rewrite elem_of_app, elem_of_seq, list_elem_of_singleton. fold n in Hi. lia. }
  by rewrite Hadd, E1, E2, Hpend, delete_insert_eq.
Qed.

(** What the RockBLOCK webhook makes of the fragments of one message (three
    to sixteen parts) arriving in order: every part but the last is buffered;
    the last completes the message if its payload has at least 100 bytes, and is
    otherwise taken for a whole message of its own (header included), with the
    other parts left waiting. *)
Theorem inbound_in_order r dev data id frags times t :
  Fragment data IridiumMO_MTU id = Some frags →
  (3 ≤ length frags)%nat → Zlen data <= 16 * (IridiumMO_MTU - 2) →
  pending r !! keyf dev id = None →
  length times = (length frags - 1)%nat →
  let tail := nth (length frags - 1) frags [] in
  ∃ r', inbound_all r dev (zip (times ++ [t]) frags)
          = (replicate (length frags - 1) FragmentBuffered ++
               [if 102 <=? Zlen tail then WholeMessage data else WholeMessage tail], r')
      ∧ if 102 <=? Zlen tail then r' = r
        else ∃ pm, pending r' !! keyf dev id = Some pm ∧ received pm = Zlen frags - 1.
Proof.
  intros HF H3 Hfit Hnone Htimes.
  apply Fragment_shape in HF as (Hm & Hlong & n & Hn & -> & Hcat & Hkept). cbv zeta in *.
  rewrite take_ge in * by (unfold Zlen in *; lia).
  set (ps := payloads data IridiumMO_MTU n) in *.
  assert (length ps = n) as Hlen by apply payloads_length.
  rewrite length_imap, Hlen in *.
  destruct (lookup_lt_is_Some_2 ps (n - 1)%nat ltac:(lia)) as [p Hp].
  assert (∀ i q, ps !! i = Some q → (i + 1 < n)%nat → Zlen q = IridiumMO_MTU - 2) as Hmid.
  { intros i q Hq Hi. rewrite (payloads_Zlen _ _ _ _ _ Hm Hq). nia. }
  assert (Zlen p <= IridiumMO_MTU - 2) as Hpmax
    by (rewrite (payloads_Zlen _ _ _ _ _ Hm Hp); lia).
  assert (nth (n - 1) (imap (wire id ps) ps) [] = wire id ps (n - 1) p) as Htail
    by (by rewrite nth_lookup, list_lookup_imap, Hp).
  rewrite Htail, zip_in_order by (rewrite length_app, Hlen; simpl; lia).
  replace (length ps) with (n - 1 + 1)%nat by lia.
  rewrite seq_app, zip_with_app, map_app by (rewrite length_seq; lia).
  rewrite inbound_all_app. destruct (inbound_prefix r dev id ps times)
    as (r' & ca & Hpre & Hpend & Hage); [lia | rewrite Hlen; done | done | lia |].
  rewrite Hlen in Hpre. rewrite Hpre. cbn [zip_with map inbound_all seq Nat.add].
  assert (nth (n - 1) ps [] = p) as -> by (by rewrite nth_lookup, Hp).
  pose proof (inbound_last r' dev id ps p ca (pending r) t ltac:(lia)) as Hlast.
  rewrite Hlen, Hcat in Hlast. rewrite Hlast by (rewrite ?Hpend, ?Hlen; done). replace (102 <=? Zlen (wire id ps (n - 1) p)) with (100 <=? Zlen p).
  2: { unfold wire. rewrite Zlen_app. change (Zlen (EncodeHeader _ _ _)) with 2.
       destruct (Z.leb_spec 100 (Zlen p)), (Z.leb_spec 102 (2 + Zlen p)); done || lia. }
  destruct (100 <=? Zlen p).
  - eexists. split; [done|]. rewrite Hage, delete_id by done. by destruct r.
  - exists r'. split; [done|]. eexists. split; [rewrite Hpend; apply lookup_insert_eq|].
    cbn [received entry]. rewrite (filled_prefix ps p) by (rewrite ?Hlen; done || lia).
    unfold Zlen. rewrite length_imap. lia.
Qed.

Lemma inbound_in_order_witness :
  ∃ r', inbound_all (NewReassembler 60) "imei" (zip [1; 2; 3]
            (default [] (Fragment (replicate 700 7%Z) IridiumMO_MTU 9)))
        = ([FragmentBuffered; FragmentBuffered;
            WholeMessage (34 :: 9 :: replicate 24 7%Z)], r')
      ∧ ∃ pm, pending r' !! keyf "imei" 9 = Some pm ∧ received pm = 2.
Proof.
  apply (inbound_in_order (NewReassembler 60) "imei" (replicate 700 7%Z) 9
           (default [] (Fragment (replicate 700 7%Z) IridiumMO_MTU 9)) [1; 2] 3).
  - vm_compute. reflexivity.
  - vm_compute. lia.
  - vm_compute. discriminate.
  - reflexivity.
  - vm_compute. reflexivity.
Defined.

End Fragment.
