(* ===== verification/Gf256.v ===== *)
(** GF(256) arithmetic of the network coder: [internal/protocol/rlnc.go], the
    exp/log tables and the field operations, with the field laws. *)
From S2P Require Import Prelude.

Module Gf256.

(** One turn of the loop of [initGFTables]: [(x, gfExp, gfLog)]. *)
Definition init_step (st : Z * list Z * list Z) (i : nat) : Z * list Z * list Z :=
  let '(x, exp, log) := st in
  let exp := <[i := u8 x]> exp in
  let log := <[Z.to_nat (u8 x) := u8 (Z.of_nat i)]> log in
  let hi := u16 (Z.shiftl x 1) in
  let hi := if 256 <=? hi then Z.lxor hi 283 (* 0x11B *) else hi in
  (Z.lxor hi x, exp, log).

(** [initGFTables]: fill [exp[0..254]] and [log], then copy [exp] up by 255. *)
Definition initGFTables : list Z * list Z :=
  let '(_, exp, log) :=
    foldl init_step (1, replicate 512 0, replicate 256 0) (seq 0 255) in
  (foldl (λ exp i, <[(i + 255)%nat := idx exp i]> exp) exp (seq 0 255), log).

(** The package variables after [init]. *)
Definition gfExp : list Z := Eval vm_compute in fst initGFTables.

Definition gfLog : list Z := Eval vm_compute in snd initGFTables.

Definition GFAdd (a b : Z) : Z := Z.lxor a b.

Definition GFMul (a b : Z) : Z :=
  if (a =? 0) || (b =? 0) then 0
  else idx gfExp (Z.to_nat (idx gfLog (Z.to_nat a) + idx gfLog (Z.to_nat b))).

(** [GFInv]; [None] is the panic on zero. *)
Definition GFInv (a : Z) : option Z :=
  if a =? 0 then None
  else Some (idx gfExp (Z.to_nat (255 - idx gfLog (Z.to_nat a)))).

(** ** Table facts, by evaluation *)

Definition gexp (i : Z) : Z := idx gfExp (Z.to_nat i).
Definition glog (a : Z) : Z := idx gfLog (Z.to_nat a).

(** Multiplication by the generator [x + 1] modulo [x^8 + x^4 + x^3 + x + 1]. *)
Definition xtime (a : Z) : Z :=
  if Z.testbit a 7 then Z.lxor (2 * a) 283 else 2 * a.
Definition times3 (a : Z) : Z := Z.lxor (xtime a) a.

Lemma gfExp_init : gfExp = fst initGFTables.
Proof. vm_compute. reflexivity. Qed.

Lemma gfLog_init : gfLog = snd initGFTables.
Proof. vm_compute. reflexivity. Qed.

Lemma exp_step_table : zall 508 (λ i, gexp (i + 1) =? times3 (gexp i)) = true.
Proof. vm_compute. reflexivity. Qed.

Lemma exp_range_table : zall 510 (λ i, (0 <? gexp i) && (gexp i <? 256) && (glog (gexp i) =? i mod 255)) = true.
Proof. vm_compute. reflexivity. Qed.

Lemma log_table :
  zall 256 (λ a, (a =? 0) || ((0 <=? glog a) && (glog a <? 255) && (gexp (glog a) =? a))) = true.
Proof. vm_compute. reflexivity. Qed.

Lemma gexp_step i : 0 <= i < 508 → gexp (i + 1) = times3 (gexp i).
Proof. intros H. apply Z.eqb_eq, (zall_spec _ _ exp_step_table). lia. Qed.

Lemma gexp_range i : 0 <= i < 510 → 0 < gexp i < 256 ∧ glog (gexp i) = i mod 255.
Proof.
  intros H. pose proof (zall_spec _ _ exp_range_table i ltac:(lia)) as E.
  cbv beta in E. zbool. lia.
Qed.

Lemma glog_spec a : byte_ok a → a ≠ 0 → 0 <= glog a < 255 ∧ gexp (glog a) = a.
Proof.
  intros Ha H0. pose proof (zall_spec _ _ log_table a ltac:(unfold byte_ok in Ha; lia)) as E.
  cbv beta in E. apply orb_true_iff in E as [E|E]; zbool; [done|]. lia.
Qed.

Lemma gexp_mod i : 0 <= i < 510 → gexp i = gexp (i mod 255).
Proof.
  intros H. destruct (gexp_range i H) as [Hr Hl].
  rewrite <- Hl. symmetry. apply glog_spec; unfold byte_ok; lia.
Qed.

(** ** Addition *)

Lemma GFAdd_ok a b : byte_ok a → byte_ok b → byte_ok (GFAdd a b).
Proof. apply lxor_byte. Qed.

Lemma GFAdd_comm a b : GFAdd a b = GFAdd b a.
Proof. apply Z.lxor_comm. Qed.

Lemma GFAdd_assoc a b c : GFAdd a (GFAdd b c) = GFAdd (GFAdd a b) c.
Proof. unfold GFAdd. by rewrite Z.lxor_assoc. Qed.

Lemma GFAdd_0_l a : GFAdd 0 a = a.
Proof. apply Z.lxor_0_l. Qed.

Lemma GFAdd_0_r a : GFAdd a 0 = a.
Proof. apply Z.lxor_0_r. Qed.

Lemma GFAdd_self a : GFAdd a a = 0.
Proof. apply Z.lxor_nilpotent. Qed.

(** ** Multiplication as a logarithm sum *)

Lemma GFMul_0_l b : GFMul 0 b = 0.
Proof. done. Qed.

Lemma GFMul_0_r a : GFMul a 0 = 0.
Proof. unfold GFMul. by rewrite orb_true_r. Qed.

Lemma GFMul_nz a b : a ≠ 0 → b ≠ 0 → GFMul a b = gexp (glog a + glog b).
Proof.
  intros Ha Hb. unfold GFMul. apply Z.eqb_neq in Ha, Hb. by rewrite Ha, Hb.
Qed.

Lemma GFMul_ok a b : byte_ok a → byte_ok b → byte_ok (GFMul a b).
Proof.
  intros Ha Hb. destruct (decide (a = 0)) as [->|Ha0]; [by unfold byte_ok|].
  destruct (decide (b = 0)) as [->|Hb0]; [rewrite GFMul_0_r; by unfold byte_ok|].
  rewrite GFMul_nz by done. destruct (glog_spec a), (glog_spec b); try done.
  destruct (gexp_range (glog a + glog b)); unfold byte_ok; lia.
Qed.

Lemma GFMul_comm a b : GFMul a b = GFMul b a.
Proof. unfold GFMul. rewrite orb_comm, Z.add_comm. done. Qed.

Lemma GFMul_nz_nz a b : byte_ok a → byte_ok b → a ≠ 0 → b ≠ 0 → GFMul a b ≠ 0.
Proof.
  intros Ha Hb Ha0 Hb0. rewrite GFMul_nz by done.
  destruct (glog_spec a), (glog_spec b); try done.
  destruct (gexp_range (glog a + glog b)); lia.
Qed.

Lemma GFMul_assoc a b c :
  byte_ok a → byte_ok b → byte_ok c → GFMul a (GFMul b c) = GFMul (GFMul a b) c.
Proof.
  intros Ha Hb Hc. destruct (decide (a = 0)) as [->|Ha0]; [done|].
  destruct (decide (b = 0)) as [->|Hb0]; [by rewrite (GFMul_0_l c), !GFMul_0_r|].
  destruct (decide (c = 0)) as [->|Hc0]; [by rewrite !GFMul_0_r|].
  rewrite (GFMul_nz a (GFMul b c)), (GFMul_nz (GFMul a b) c) by (done || by apply GFMul_nz_nz).
  rewrite !GFMul_nz by done.
  destruct (glog_spec a) as [Hla _], (glog_spec b) as [Hlb _], (glog_spec c) as [Hlc _]; try done.
  destruct (gexp_range (glog b + glog c)) as [_ ->]; [lia|].
  destruct (gexp_range (glog a + glog b)) as [_ ->]; [lia|].
  assert (∀ x y, 0 <= x < 255 → 0 <= y < 255 → gexp (x + y) = gexp ((x + y) mod 255)) as E
    by (intros; apply gexp_mod; lia).
  rewrite (E (glog a) ((glog b + glog c) mod 255)), (E ((glog a + glog b) mod 255) (glog c)) by zlia.
  f_equal. rewrite Zplus_mod_idemp_r, Zplus_mod_idemp_l. f_equal. lia.
Qed.

Lemma GFMul_1_l a : byte_ok a → GFMul 1 a = a.
Proof.
  intros Ha. destruct (decide (a = 0)) as [->|H0]; [done|].
  rewrite GFMul_nz by done. change (glog 1) with 0. rewrite Z.add_0_l. by apply glog_spec.
Qed.

Lemma GFMul_1_r a : byte_ok a → GFMul a 1 = a.
Proof. intros. rewrite GFMul_comm. by apply GFMul_1_l. Qed.

Lemma GFInv_spec a :
  byte_ok a → a ≠ 0 → ∃ i, GFInv a = Some i ∧ byte_ok i ∧ i ≠ 0 ∧ GFMul a i = 1.
Proof.
  intros Ha H0. destruct (glog_spec a Ha H0) as [Hl He].
  destruct (gexp_range (255 - glog a)) as [Hr Hlg]; [lia|].
  exists (gexp (255 - glog a)). unfold GFInv. rewrite (proj2 (Z.eqb_neq a 0) H0).
  split; [done|]. split; [unfold byte_ok; lia|]. split; [lia|].
  rewrite GFMul_nz by lia. rewrite Hlg, gexp_mod by zlia.
  rewrite Zplus_mod_idemp_r. replace (glog a + (255 - glog a)) with 255 by lia. reflexivity.
Qed.

(** ** Distributivity: multiplication by [a] is [glog a] turns of [times3] *)

Lemma testbit7_lxor a b : Z.testbit (Z.lxor a b) 7 = xorb (Z.testbit a 7) (Z.testbit b 7).
Proof. apply Z.lxor_spec. Qed.

Lemma double_lxor a b : 2 * Z.lxor a b = Z.lxor (2 * a) (2 * b).
Proof.
  assert (∀ x, 2 * x = Z.shiftl x 1) as E by (intros; rewrite Z.shiftl_mul_pow2; lia).
  rewrite !E. apply Z.shiftl_lxor.
Qed.

Lemma xtime_lxor a b : xtime (Z.lxor a b) = Z.lxor (xtime a) (xtime b).
Proof.
  unfold xtime. rewrite testbit7_lxor, double_lxor.
  destruct (Z.testbit a 7), (Z.testbit b 7); cbn [xorb];
    apply Z.bits_inj'; intros n _; rewrite !Z.lxor_spec; btauto.
Qed.

Lemma times3_lxor a b : times3 (Z.lxor a b) = Z.lxor (times3 a) (times3 b).
Proof.
  unfold times3. rewrite xtime_lxor.
  apply Z.bits_inj'; intros n _; rewrite !Z.lxor_spec; btauto.
Qed.

Lemma GFMul_times3 n b :
  byte_ok b → (n < 255)%nat → GFMul (gexp (Z.of_nat n)) b = Nat.iter n times3 b.
Proof.
  intros Hb Hn. destruct (decide (b = 0)) as [->|Hb0].
  { rewrite GFMul_0_r. clear Hn. induction n as [|n IH]; [done|]. simpl. by rewrite <- IH. }
  induction n as [|n IH].
  - change (gexp (Z.of_nat 0)) with 1. by rewrite GFMul_1_l.
  - simpl Nat.iter. rewrite <- IH by lia. destruct (glog_spec b) as [Hl _]; try done.
    destruct (gexp_range (Z.of_nat n)) as [Hr1 E1]; [lia|].
    destruct (gexp_range (Z.of_nat (S n))) as [Hr2 E2]; [lia|].
    rewrite !GFMul_nz, E1, E2, !Z.mod_small by lia.
    rewrite <- gexp_step by lia. f_equal. lia.
Qed.

Lemma iter_times3_lxor n b c :
  Nat.iter n times3 (Z.lxor b c) = Z.lxor (Nat.iter n times3 b) (Nat.iter n times3 c).
Proof. induction n as [|n IH]; [done|]. simpl. by rewrite IH, times3_lxor. Qed.

Lemma GFMul_add_r a b c :
  byte_ok a → byte_ok b → byte_ok c → GFMul a (GFAdd b c) = GFAdd (GFMul a b) (GFMul a c).
Proof.
  intros Ha Hb Hc. destruct (decide (a = 0)) as [->|H0]; [done|].
  destruct (glog_spec a Ha H0) as [Hl He]. rewrite <- He.
  replace (glog a) with (Z.of_nat (Z.to_nat (glog a))) by lia.
  rewrite !GFMul_times3 by (try apply GFAdd_ok; done || lia). apply iter_times3_lxor.
Qed.

Lemma GFMul_add_l a b c :
  byte_ok a → byte_ok b → byte_ok c → GFMul (GFAdd a b) c = GFAdd (GFMul a c) (GFMul b c).
Proof. intros. rewrite !(GFMul_comm _ c). by apply GFMul_add_r. Qed.

#[export] Hint Resolve GFAdd_ok GFMul_ok : hub.

(** ** The reference product: carry-less multiplication reduced by 0x11B *)

Definition poly_mul (a b : Z) : Z :=
  foldr (λ i acc, GFAdd (if Z.testbit b (Z.of_nat i) then Nat.iter i xtime a else 0) acc)
    0 (seq 0 8).

Definition bit_of (b : Z) (i : nat) : Z := if Z.testbit b (Z.of_nat i) then 2 ^ Z.of_nat i else 0.

(** A byte is the sum of its bits. *)
Lemma byte_bits b : byte_ok b → b = foldr (λ i acc, GFAdd (bit_of b i) acc) 0 (seq 0 8).
Proof.
  intros Hb.
  assert (zall 256 (λ b, b =? foldr (λ i acc, GFAdd (bit_of b i) acc) 0 (seq 0 8)) = true) as H
    by (vm_compute; reflexivity).
  apply Z.eqb_eq, (zall_spec _ _ H). exact Hb.
Qed.

Lemma bit_of_ok b i : (i < 8)%nat → byte_ok (bit_of b i).
Proof.
  intros Hi. unfold bit_of. destruct (Z.testbit _ _); [|by unfold byte_ok].
  unfold byte_ok. split; [lia|]. change 256 with (2 ^ 8). apply Z.pow_lt_mono_r; lia.
Qed.

Lemma GFMul_pow2_table :
  zall 256 (λ a, zall 8 (λ i, GFMul a (2 ^ i) =? Nat.iter (Z.to_nat i) xtime a)) = true.
Proof. vm_compute. reflexivity. Qed.

Lemma GFMul_bit a b i :
  byte_ok a → (i < 8)%nat →
  GFMul a (bit_of b i) = if Z.testbit b (Z.of_nat i) then Nat.iter i xtime a else 0.
Proof.
  intros Ha Hi. unfold bit_of. destruct (Z.testbit _ _); [|apply GFMul_0_r].
  pose proof (zall_spec _ _ GFMul_pow2_table a Ha) as H.
  pose proof (zall_spec _ _ H (Z.of_nat i) ltac:(lia)) as H'. cbv beta in H'.
  rewrite Nat2Z.id in H'. by apply Z.eqb_eq.
Qed.

Lemma GFMul_foldr a b l :
  byte_ok a → Forall (λ i, i < 8)%nat l →
  byte_ok (foldr (λ i acc, GFAdd (bit_of b i) acc) 0 l) ∧
  GFMul a (foldr (λ i acc, GFAdd (bit_of b i) acc) 0 l) =
    foldr (λ i acc, GFAdd (if Z.testbit b (Z.of_nat i) then Nat.iter i xtime a else 0) acc) 0 l.
Proof.
  intros Ha. induction 1 as [|i l Hi _ [IHok IH]]; simpl.
  - by rewrite GFMul_0_r.
  - pose proof (bit_of_ok b i Hi). split; [by apply GFAdd_ok|].
    by rewrite GFMul_add_r, IH, GFMul_bit.
Qed.

(** ** Properties *)

(** The table-driven product equals multiplication of polynomials over
    GF(2) reduced by [x^8 + x^4 + x^3 + x + 1], for every pair of bytes. *)
Theorem GFMul_is_polynomial_product a b :
  byte_ok a → byte_ok b → GFMul a b = poly_mul a b.
Proof.
  intros Ha Hb. rewrite (byte_bits b Hb) at 1. apply GFMul_foldr; [done|].
  apply Forall_forall. intros i Hi. apply elem_of_seq in Hi. lia.
Qed.

Lemma GFMul_is_polynomial_product_witness : GFMul 87 131 = 193 ∧ poly_mul 87 131 = 193.
Proof.
  rewrite <- (GFMul_is_polynomial_product 87 131); unfold byte_ok; [|lia..].
  split; reflexivity.
Defined.

(** Bytes with [GFAdd] and [GFMul] form a field of characteristic two, and
    [GFInv] is the inverse: it panics on zero only. *)
Theorem gf256_field a b c :
  byte_ok a → byte_ok b → byte_ok c →
  byte_ok (GFAdd a b) ∧ byte_ok (GFMul a b) ∧
  GFAdd a b = GFAdd b a ∧ GFAdd a (GFAdd b c) = GFAdd (GFAdd a b) c ∧
  GFAdd a 0 = a ∧ GFAdd a a = 0 ∧
  GFMul a b = GFMul b a ∧ GFMul a (GFMul b c) = GFMul (GFMul a b) c ∧
  GFMul a 1 = a ∧ GFMul a (GFAdd b c) = GFAdd (GFMul a b) (GFMul a c) ∧
  match GFInv a with
  | None => a = 0
  | Some i => a ≠ 0 ∧ byte_ok i ∧ GFMul a i = 1
  end.
Proof.
  intros Ha Hb Hc. split_and!;
    auto using GFAdd_ok, GFMul_ok, GFAdd_comm, GFAdd_assoc, GFAdd_0_r, GFAdd_self, GFMul_comm,
      GFMul_assoc, GFMul_1_r, GFMul_add_r.
  destruct (decide (a = 0)) as [->|H0]; [done|].
  by destruct (GFInv_spec a Ha H0) as (i & -> & ? & ? & ?).
Qed.

Lemma gf256_field_witness : GFMul 3 (GFAdd 5 7) = GFAdd (GFMul 3 5) (GFMul 3 7).
Proof. apply (gf256_field 3 5 7); unfold byte_ok; lia. Defined.

End Gf256.
