(* ===== verification/Rlnc.v ===== *)
(** Random linear network coding: the matrix and the eliminator of
    [internal/protocol/rlnc.go]. *)
From S2P Require Import Prelude Gf256.

Module Rlnc.
Import Gf256.

(** ** Matrices over GF(256), row-major *)

Record GFMatrix := MkGFMatrix { Rows : nat; Cols : nat; Data : list Z }.

Definition NewGFMatrix (rows cols : nat) : GFMatrix :=
  MkGFMatrix rows cols (replicate (rows * cols) 0).

Definition Get (m : GFMatrix) (row col : nat) : Z := idx (Data m) (row * Cols m + col).

Definition Set_ (m : GFMatrix) (row col : nat) (val : Z) : GFMatrix :=
  MkGFMatrix (Rows m) (Cols m) (<[(row * Cols m + col)%nat := val]> (Data m)).

(** ** [GaussianEliminate] *)

Inductive ge_error :=
| RankTooFewRows
| RankNoPivot (col : nat)
| PayloadCount
| PayloadLength (i : nat)
| PanicZeroInverse.

(** The working copies [mat] and [pld]. *)
Definition state : Type := GFMatrix * list (list Z).

Definition find_pivot (m : GFMatrix) (col : nat) : option nat :=
  List.find (λ row, negb (Get m row col =? 0)) (seq col (Rows m - col)).

Definition swap_rows (st : state) (col pivotRow : nat) : state :=
  let '(m, pld) := st in
  if (pivotRow =? col)%nat then st
  else
    (foldl (λ m c, let a := Get m col c in let b := Get m pivotRow c in
                   Set_ (Set_ m col c b) pivotRow c a) m (seq 0 (Cols m)),
     <[col := nth pivotRow pld []]> (<[pivotRow := nth col pld []]> pld)).

Definition scale_row (st : state) (col : nat) (inv : Z) : state :=
  let '(m, pld) := st in
  (foldl (λ m c, Set_ m col c (GFMul (Get m col c) inv)) m (seq 0 (Cols m)),
   <[col := map (λ x, GFMul x inv) (nth col pld [])]> pld).

Definition eliminate_row (col : nat) (st : state) (row : nat) : state :=
  let '(m, pld) := st in
  if (row =? col)%nat then st
  else
    let factor := Get m row col in
    if factor =? 0 then st
    else
      (foldl (λ m c, Set_ m row c (GFAdd (Get m row c) (GFMul factor (Get m col c))))
         m (seq 0 (Cols m)),
       <[row := zip_with (λ x y, GFAdd x (GFMul factor y)) (nth row pld []) (nth col pld [])]> pld).

Definition elim_col (st : state) (col : nat) : result ge_error state :=
  let '(m, _) := st in
  match find_pivot m col with
  | None => Err (RankNoPivot col)
  | Some pivotRow =>
      let st := swap_rows st col pivotRow in
      match GFInv (Get st.1 col col) with
      | None => Err PanicZeroInverse
      | Some inv =>
          let st := scale_row st col inv in
          Ok (foldl (eliminate_row col) st (seq 0 (Rows m)))
      end
  end.

Fixpoint elim_cols (st : state) (cols : list nat) : result ge_error state :=
  match cols with
  | [] => Ok st
  | col :: cols =>
      match elim_col st col with
      | Err e => Err e
      | Ok st => elim_cols st cols
      end
  end.

(** The first payload whose length differs from that of payload 0. *)
Definition bad_length (payloads : list (list Z)) : option nat :=
  let payloadLen := length (nth 0 payloads []) in
  List.find (λ i, negb (length (nth i payloads []) =? payloadLen)%nat)
    (seq 1 (length payloads - 1)).

Definition GaussianEliminate (coeffs : GFMatrix) (payloads : list (list Z))
  : result ge_error (list (list Z)) :=
  let n := Rows coeffs in
  let k := Cols coeffs in
  if (n <? k)%nat then Err RankTooFewRows
  else if negb (length payloads =? n)%nat then Err PayloadCount
  else if (k =? 0)%nat then Ok []
  else
    match bad_length payloads with
    | Some i => Err (PayloadLength i)
    | None =>
        let mat := MkGFMatrix n k (copy_at 0 (Data coeffs) (Data (NewGFMatrix n k))) in
        match elim_cols (mat, payloads) (seq 0 k) with
        | Err e => Err e
        | Ok (_, pld) => Ok (take k pld)
        end
    end.

(** ** Elementary row operations on one column *)

Inductive rowop :=
| OSwap (a b : nat)
| OScale (a : nat) (x : Z)
| OAdd (r s : nat) (f : Z).

Definition apply_op (op : rowop) (p : nat → Z) (i : nat) : Z :=
  match op with
  | OSwap a b => if (i =? a)%nat then p b else if (i =? b)%nat then p a else p i
  | OScale a x => if (i =? a)%nat then GFMul (p a) x else p i
  | OAdd r s f => if (i =? r)%nat then GFAdd (p r) (GFMul f (p s)) else p i
  end.

Definition op_ok (n : nat) (op : rowop) : Prop :=
  match op with
  | OSwap a b => (a < n)%nat ∧ (b < n)%nat ∧ a ≠ b
  | OScale a x => (a < n)%nat ∧ byte_ok x ∧ x ≠ 0
  | OAdd r s f => (r < n)%nat ∧ (s < n)%nat ∧ r ≠ s ∧ byte_ok f
  end.

Definition wf (n k : nat) (m : GFMatrix) : Prop :=
  Rows m = n ∧ Cols m = k ∧ length (Data m) = (n * k)%nat ∧ bytes_ok (Data m).

Lemma Get_ok n k m i j : wf n k m → byte_ok (Get m i j).
Proof. intros (_ & _ & _ & H). by apply idx_ok. Qed.

Lemma idx_insert l i j v :
  (i < length l)%nat → idx (<[i := v]> l) j = if (j =? i)%nat then v else idx l j.
Proof.
  intros Hi. unfold idx. rewrite !nth_lookup.
  destruct (Nat.eqb_spec j i) as [->|Hne].
  - by rewrite list_lookup_insert_eq.
  - by rewrite list_lookup_insert_ne.
Qed.

Lemma Set_wf n k m r c v :
  wf n k m → byte_ok v → wf n k (Set_ m r c v).
Proof.
  intros (H1 & H2 & H3 & H4) Hv. unfold wf, Set_. cbn. rewrite length_insert.
  split_and!; [done..|]. apply Forall_insert; done.
Qed.

Lemma Get_Set n k m r c v i j :
  wf n k m → (r < n)%nat → (c < k)%nat → (i < n)%nat → (j < k)%nat →
  Get (Set_ m r c v) i j = if (i =? r)%nat && (j =? c)%nat then v else Get m i j.
Proof.
  intros (_ & Hk & Hl & _) Hr Hc Hi Hj. unfold Get, Set_. cbn [Data Cols]. rewrite Hk.
  rewrite idx_insert by (rewrite Hl; nia).
  destruct (Nat.eqb_spec i r) as [->|Hne], (Nat.eqb_spec j c) as [->|Hne']; cbn [andb].
  - by rewrite Nat.eqb_refl.
  - rewrite (proj2 (Nat.eqb_neq _ _)) by lia. done.
  - rewrite (proj2 (Nat.eqb_neq _ _)) by nia. done.
  - rewrite (proj2 (Nat.eqb_neq _ _)) by nia. done.
Qed.

Lemma apply_op_ext n op p q i :
  op_ok n op → (∀ i, (i < n)%nat → p i = q i) → (i < n)%nat → apply_op op p i = apply_op op q i.
Proof.
  intros Hop H Hi. destruct op; simpl in *; repeat case_match; rewrite ?H by (naive_solver || lia);
    try done; f_equal; rewrite H by naive_solver; done.
Qed.

Lemma apply_op_ok n op p i :
  op_ok n op → (∀ i, (i < n)%nat → byte_ok (p i)) → (i < n)%nat → byte_ok (apply_op op p i).
Proof. intros Hop H Hi. destruct op; simpl in *; repeat case_match; naive_solver eauto with hub. Qed.

(** A loop over the columns whose turn [c] rewrites column [c] to [h c]. *)
Lemma foldl_columns n k (h : nat → (nat → Z) → nat → Z) (s : GFMatrix → nat → GFMatrix) m :
  (∀ c p q i, (∀ i, (i < n)%nat → p i = q i) → (i < n)%nat → h c p i = h c q i) →
  (∀ m c, wf n k m → (c < k)%nat →
     wf n k (s m c) ∧
     ∀ i j, (i < n)%nat → (j < k)%nat →
       Get (s m c) i j = if (j =? c)%nat then h c (λ i, Get m i c) i else Get m i j) →
  wf n k m →
  wf n k (foldl s m (seq 0 k)) ∧
  ∀ i j, (i < n)%nat → (j < k)%nat →
    Get (foldl s m (seq 0 k)) i j = h j (λ i, Get m i j) i.
Proof.
  intros Hh Hs Hm.
  assert (∀ k', (k' ≤ k)%nat →
    wf n k (foldl s m (seq 0 k')) ∧
    ∀ i j, (i < n)%nat → (j < k)%nat →
      Get (foldl s m (seq 0 k')) i j
      = if (j <? k')%nat then h j (λ i, Get m i j) i else Get m i j) as H.
  { induction k' as [|k' IH]; intros Hk'; [done|].
    destruct IH as [IHwf IH]; [lia|]. rewrite seq_S, foldl_app. simpl.
    destruct (Hs (foldl s m (seq 0 k')) k' IHwf ltac:(lia)) as [Hwf Hget].
    split; [done|]. intros i j Hi Hj. rewrite Hget by done.
    destruct (Nat.eqb_spec j k') as [->|Hne].
    - rewrite (proj2 (Nat.ltb_lt _ _)) by lia. apply Hh; [|done].
      intros i' Hi'. rewrite IH by lia. by rewrite Nat.ltb_irrefl.
    - rewrite IH by done. destruct (Nat.ltb_spec j k'), (Nat.ltb_spec j (S k')); done || lia. }
  destruct (H k) as [Hw Hg]; [lia|]. split; [done|]. intros i j Hi Hj.
  rewrite Hg by done. by rewrite (proj2 (Nat.ltb_lt _ _)).
Qed.

Lemma foldl_columns_op n k op (s : GFMatrix → nat → GFMatrix) m :
  op_ok n op →
  (∀ m c, wf n k m → (c < k)%nat →
     wf n k (s m c) ∧
     ∀ i j, (i < n)%nat → (j < k)%nat →
       Get (s m c) i j = if (j =? c)%nat then apply_op op (λ i, Get m i c) i else Get m i j) →
  wf n k m →
  wf n k (foldl s m (seq 0 k)) ∧
  ∀ i j, (i < n)%nat → (j < k)%nat →
    Get (foldl s m (seq 0 k)) i j = apply_op op (λ i, Get m i j) i.
Proof.
  intros Hop. apply (foldl_columns n k (λ _, apply_op op)).
  intros _ p q i. by apply apply_op_ext.
Qed.

(** ** The elimination is a sequence of elementary operations *)

Definition pcol (pld : list (list Z)) (b i : nat) : Z := idx (nth i pld []) b.

Definition pwf (n L : nat) (pld : list (list Z)) : Prop :=
  length pld = n ∧ Forall (λ r, length r = L ∧ bytes_ok r) pld.

Definition apply_ops (ops : list rowop) (p : nat → Z) : nat → Z :=
  foldl (λ p op, apply_op op p) p ops.

(** [st'] is [st] after the operations [ops], on every matrix column and on
    every byte position of the payloads. *)
Definition ran (n k L : nat) (ops : list rowop) (st st' : state) : Prop :=
  Forall (op_ok n) ops ∧ wf n k st'.1 ∧ pwf n L st'.2 ∧
  (∀ i j, (i < n)%nat → (j < k)%nat →
     Get st'.1 i j = apply_ops ops (λ i, Get st.1 i j) i) ∧
  (∀ i b, (i < n)%nat → (b < L)%nat →
     pcol st'.2 b i = apply_ops ops (pcol st.2 b) i).

Lemma apply_ops_ext n ops p q :
  Forall (op_ok n) ops → (∀ i, (i < n)%nat → p i = q i) →
  ∀ i, (i < n)%nat → apply_ops ops p i = apply_ops ops q i.
Proof.
  intros Hops. revert p q. induction Hops as [|op ops Hop _ IH]; intros p q H; simpl; [done|].
  apply IH. intros i Hi. by apply (apply_op_ext n).
Qed.

Lemma ran_nil n k L st : wf n k st.1 → pwf n L st.2 → ran n k L [] st st.
Proof. intros. repeat split; try apply H; try apply H0; auto using Forall_nil_2. Qed.

Lemma ran_app n k L ops1 ops2 st1 st2 st3 :
  ran n k L ops1 st1 st2 → ran n k L ops2 st2 st3 → ran n k L (ops1 ++ ops2) st1 st3.
Proof.
  intros (Ho1 & _ & _ & Hg1 & Hp1) (Ho2 & Hw & Hpw & Hg2 & Hp2).
  split_and!; [by apply Forall_app|done..| |].
  - intros i j Hi Hj. rewrite Hg2 by done. unfold apply_ops. rewrite foldl_app.
    apply (apply_ops_ext n); [done| |done]. intros. by apply Hg1.
  - intros i b Hi Hb. rewrite Hp2 by done. unfold apply_ops. rewrite foldl_app.
    apply (apply_ops_ext n); [done| |done]. intros. by apply Hp1.
Qed.

Lemma pwf_nth n L pld i : pwf n L pld → (i < n)%nat → length (nth i pld []) = L ∧ bytes_ok (nth i pld []).
Proof.
  intros [Hl Hf] Hi. rewrite <- Hl in Hi. destruct (lookup_lt_is_Some_2 pld i Hi) as [r Hr].
  rewrite nth_lookup, Hr. simpl. rewrite Forall_lookup in Hf. by apply Hf in Hr.
Qed.

Lemma pwf_insert n L pld i r :
  pwf n L pld → length r = L → bytes_ok r → pwf n L (<[i := r]> pld).
Proof. intros [Hl Hf] Hr Hb. split; [by rewrite length_insert|]. by apply Forall_insert. Qed.

Lemma nth_insert {A} (l : list (list A)) i j r :
  (i < length l)%nat → nth j (<[i := r]> l) [] = if (j =? i)%nat then r else nth j l [].
Proof.
  intros Hi. rewrite !nth_lookup. destruct (Nat.eqb_spec j i) as [->|Hne].
  - by rewrite list_lookup_insert_eq.
  - by rewrite list_lookup_insert_ne.
Qed.

Lemma idx_map f l b : (b < length l)%nat → idx (map f l) b = f (idx l b).
Proof.
  intros Hb. unfold idx. rewrite !nth_lookup. change (map f l) with (f <$> l).
  rewrite list_lookup_fmap. by destruct (lookup_lt_is_Some_2 l b Hb) as [x ->].
Qed.

Lemma idx_zip_with f l k b :
  (b < length l)%nat → length k = length l → idx (zip_with f l k) b = f (idx l b) (idx k b).
Proof.
  intros Hb Hl. unfold idx. rewrite !nth_lookup, lookup_zip_with.
  destruct (lookup_lt_is_Some_2 l b Hb) as [x ->].
  by destruct (lookup_lt_is_Some_2 k b ltac:(lia)) as [y ->].
Qed.

Section Steps.
Context (n k L : nat).

Lemma swap_ran st a b :
  wf n k st.1 → pwf n L st.2 → (a < n)%nat → (b < n)%nat → a ≠ b →
  ran n k L [OSwap a b] st (swap_rows st a b).
Proof.
  destruct st as [m pld]. simpl. intros Hw Hp Ha Hb Hne.
  rewrite (proj2 (Nat.eqb_neq b a)) by done.
  assert (op_ok n (OSwap a b)) as Hop by done.
  pose proof Hw as (_ & Hc & _). rewrite Hc.
  edestruct (foldl_columns_op n k (OSwap a b)) as [Hw' Hg]; [done| |exact Hw|].
  2: { destruct Hp as [Hl Hf] eqn:E. split_and!; [by apply Forall_singleton | exact Hw' | | exact Hg |].
       - destruct (pwf_nth n L pld a), (pwf_nth n L pld b); [done..|].
         apply pwf_insert; [by apply pwf_insert|done..].
       - intros i c Hi Hc'. unfold pcol. cbn [snd apply_ops foldl apply_op].
         rewrite !nth_insert by (rewrite ?length_insert; lia).
         repeat case_match; done. }
  intros m' c Hm' Hc'. cbv zeta. pose proof (Get_ok n k m') as Hok. split.
  - repeat apply Set_wf; auto.
  - intros i j Hi Hj. rewrite !(Get_Set n k) by (try apply Set_wf; auto).
    simpl. destruct (Nat.eqb_spec j c) as [->|]; rewrite ?andb_true_r, ?andb_false_r; [|done].
    destruct (Nat.eqb_spec i b), (Nat.eqb_spec i a); subst; done.
Qed.

Lemma scale_ran st a x :
  wf n k st.1 → pwf n L st.2 → (a < n)%nat → byte_ok x → x ≠ 0 →
  ran n k L [OScale a x] st (scale_row st a x).
Proof.
  destruct st as [m pld]. simpl. intros Hw Hp Ha Hx Hx0.
  pose proof Hw as (_ & Hc & _). rewrite Hc.
  edestruct (foldl_columns_op n k (OScale a x)) as [Hw' Hg]; [done| |exact Hw|].
  2: { destruct (pwf_nth n L pld a) as [Hla Hba]; [done..|].
       split_and!; [by apply Forall_singleton | exact Hw' | | exact Hg |].
       - apply pwf_insert; [done|by rewrite length_map|].
         apply Forall_map, Forall_forall. intros y Hy. apply GFMul_ok; [|done].
         unfold bytes_ok in Hba. rewrite Forall_forall in Hba. by apply Hba.
       - intros i c Hi Hc'. unfold pcol. cbn [snd apply_ops foldl apply_op].
         destruct Hp as [Hl _]. rewrite nth_insert by lia.
         destruct (Nat.eqb_spec i a); [|done]. rewrite idx_map by lia. done. }
  intros m' c Hm' Hc'. cbv zeta. pose proof (Get_ok n k m') as Hok. split.
  - apply Set_wf; auto with hub.
  - intros i j Hi Hj. rewrite !(Get_Set n k) by auto. simpl.
    destruct (Nat.eqb_spec j c), (Nat.eqb_spec i a); subst; done.
Qed.

Lemma add_ran st r s f :
  wf n k st.1 → pwf n L st.2 → (r < n)%nat → (s < n)%nat → r ≠ s → byte_ok f →
  ran n k L [OAdd r s f] st
    (foldl (λ m c, Set_ m r c (GFAdd (Get m r c) (GFMul f (Get m s c)))) st.1 (seq 0 (Cols st.1)),
     <[r := zip_with (λ x y, GFAdd x (GFMul f y)) (nth r st.2 []) (nth s st.2 [])]> st.2).
Proof.
  destruct st as [m pld]. simpl. intros Hw Hp Hr Hs Hne Hf.
  pose proof Hw as (_ & Hc & _). rewrite Hc.
  edestruct (foldl_columns_op n k (OAdd r s f)) as [Hw' Hg]; [done| |exact Hw|].
  2: { destruct (pwf_nth n L pld r) as [Hlr Hbr]; [done..|].
       destruct (pwf_nth n L pld s) as [Hls Hbs]; [done..|].
       split_and!; [by apply Forall_singleton | exact Hw' | | exact Hg |].
       - apply pwf_insert; [done|rewrite length_zip_with; lia|].
         apply Forall_lookup. intros i z Hz. rewrite lookup_zip_with in Hz.
         unfold bytes_ok in *. rewrite Forall_lookup in Hbr, Hbs.
         destruct (nth r pld [] !! i) eqn:E1; [|done]. destruct (nth s pld [] !! i) eqn:E2; [|done].
         simplify_eq/=. apply Hbr in E1. apply Hbs in E2. auto with hub.
       - intros i c Hi Hc'. unfold pcol. cbn [snd apply_ops foldl apply_op].
         destruct Hp as [Hl _]. rewrite nth_insert by lia.
         destruct (Nat.eqb_spec i r); [|done]. rewrite idx_zip_with by lia. done. }
  intros m' c Hm' Hc'. cbv zeta. pose proof (Get_ok n k m') as Hok. split.
  - apply Set_wf; auto with hub.
  - intros i j Hi Hj. rewrite !(Get_Set n k) by auto. simpl.
    destruct (Nat.eqb_spec j c), (Nat.eqb_spec i r); subst; done.
Qed.

(** Columns below [col] are those of the identity. *)
Definition unit_below (m : GFMatrix) (col : nat) : Prop :=
  ∀ c i, (c < col)%nat → (i < n)%nat → Get m i c = if (i =? c)%nat then 1 else 0.

Lemma eliminate_row_ran st col row :
  wf n k st.1 → pwf n L st.2 → (col < n)%nat → (col < k)%nat → (row < n)%nat →
  unit_below st.1 col → Get st.1 col col = 1 →
  let st' := eliminate_row col st row in
  ∃ ops, ran n k L ops st st' ∧ unit_below st'.1 col ∧ Get st'.1 col col = 1 ∧
         (∀ r, (r < n)%nat → r ≠ row → Get st'.1 r col = Get st.1 r col) ∧
         (row ≠ col → Get st'.1 row col = 0).
Proof.
  intros Hw Hp Hcn Hck Hr Hu H1. destruct st as [m pld]. unfold eliminate_row.
  destruct (Nat.eqb_spec row col) as [->|Hne].
  { exists []. split; [by apply ran_nil|]. done. }
  destruct (Z.eqb_spec (Get m row col) 0) as [H0|H0].
  { exists []. split; [by apply ran_nil|]. done. }
  pose proof (add_ran (m, pld) row col (Get m row col) Hw Hp Hr Hcn Hne (Get_ok _ _ _ _ _ Hw)) as Hran.
  cbv zeta. exists [OAdd row col (Get m row col)]. split; [exact Hran|].
  destruct Hran as (_ & Hw' & _ & Hg & _). cbn [fst snd] in *.
  cbn [apply_ops foldl apply_op] in Hg. split_and!.
  - intros c i Hc Hi. rewrite Hg by lia. rewrite (Hu c row), (Hu c col), (Hu c i) by lia.
    rewrite (proj2 (Nat.eqb_neq col c)) by lia. rewrite GFMul_0_r, GFAdd_0_r.
    destruct (Nat.eqb_spec i row); subst; done.
  - rewrite Hg by lia. rewrite (proj2 (Nat.eqb_neq col row)) by lia. done.
  - intros r Hr' Hne'. rewrite Hg by lia. by rewrite (proj2 (Nat.eqb_neq r row)).
  - intros _. rewrite Hg by lia. rewrite Nat.eqb_refl, H1.
    rewrite GFMul_1_r by (by eapply Get_ok). apply GFAdd_self.
Qed.

Lemma eliminate_rows_ran st col n' :
  wf n k st.1 → pwf n L st.2 → (col < n)%nat → (col < k)%nat → (n' ≤ n)%nat →
  unit_below st.1 col → Get st.1 col col = 1 →
  let st' := foldl (eliminate_row col) st (seq 0 n') in
  ∃ ops, ran n k L ops st st' ∧ unit_below st'.1 col ∧ Get st'.1 col col = 1 ∧
         (∀ r, (r < n')%nat → r ≠ col → Get st'.1 r col = 0).
Proof.
  intros Hw Hp Hcn Hck Hn' Hu H1. cbv zeta. induction n' as [|n' IH].
  - exists []. split; [by apply ran_nil|]. split_and!; [done..|lia].
  - destruct IH as (ops & Hran & Hu' & H1' & H0); [lia|].
    rewrite seq_S, foldl_app. cbn [foldl Nat.add].
    set (st1 := foldl (eliminate_row col) st (seq 0 n')) in *.
    pose proof Hran as (_ & Hw1 & Hp1 & _).
    destruct (eliminate_row_ran st1 col n' Hw1 Hp1 Hcn Hck ltac:(lia) Hu' H1')
      as (ops2 & Hran2 & Hu2 & H12 & Hsame & Hz).
    exists (ops ++ ops2). split; [by eapply ran_app|]. split_and!; [done..|].
    intros r Hr Hne. destruct (decide (r = n')) as [->|Hne']; [by apply Hz|].
    rewrite Hsame by lia. apply H0; lia.
Qed.

Lemma find_pivot_spec m col :
  Rows m = n →
  match find_pivot m col with
  | Some p => (col ≤ p < n)%nat ∧ Get m p col ≠ 0
  | None => ∀ r, (col ≤ r < n)%nat → Get m r col = 0
  end.
Proof.
  intros Hn. unfold find_pivot. rewrite Hn. destruct (List.find _ _) as [p|] eqn:E.
  - apply find_some in E as [Hin Hz]. apply in_seq in Hin. zbool. split; [lia|done].
  - intros r Hr. pose proof (find_none _ _ E r) as H.
    rewrite in_seq in H. specialize (H ltac:(lia)). cbv beta in H. by zbool.
Qed.

(** One column: either it becomes a unit column by elementary operations, or
    no row at or below the diagonal has a non-zero entry in it. *)
Lemma elim_col_spec st col :
  wf n k st.1 → pwf n L st.2 → (col < k)%nat → (k ≤ n)%nat → unit_below st.1 col →
  match elim_col st col with
  | Ok st' => ∃ ops, ran n k L ops st st' ∧ unit_below st'.1 (S col)
  | Err e => e = RankNoPivot col ∧ ∀ r, (col ≤ r < n)%nat → Get st.1 r col = 0
  end.
Proof.
  intros Hw Hp Hck Hkn Hu. destruct st as [m pld]. unfold elim_col. cbn [fst] in *.
  pose proof Hw as (Hrows & _). rewrite Hrows.
  pose proof (find_pivot_spec m col Hrows) as Hpiv.
  destruct (find_pivot m col) as [p|]; [|done]. destruct Hpiv as [Hpr Hpz].
  assert (∃ ops, ran n k L ops (m, pld) (swap_rows (m, pld) col p) ∧
    unit_below (swap_rows (m, pld) col p).1 col ∧ Get (swap_rows (m, pld) col p).1 col col ≠ 0)
    as (ops1 & Hran1 & Hu1 & Hz1).
  { destruct (decide (p = col)) as [->|Hne].
    - exists []. unfold swap_rows. rewrite Nat.eqb_refl. split_and!; [by apply ran_nil|done..].
    - exists [OSwap col p].
      pose proof (swap_ran (m, pld) col p Hw Hp ltac:(lia) ltac:(lia) ltac:(lia)) as Hr.
      split; [exact Hr|]. destruct Hr as (_ & _ & _ & Hg & _).
      cbn [apply_ops foldl apply_op fst] in Hg. split.
      + intros c i Hc Hi. rewrite Hg by lia.
        destruct (Nat.eqb_spec i col); [|destruct (Nat.eqb_spec i p)];
          rewrite Hu by lia; nat_cases; done || lia.
      + rewrite Hg by lia. by rewrite Nat.eqb_refl. }
  set (st1 := swap_rows (m, pld) col p) in *. pose proof Hran1 as (_ & Hw1 & Hp1 & _).
  destruct (GFInv_spec (Get st1.1 col col)) as (inv & -> & Hiok & Hinz & Hinv);
    [by eapply Get_ok|done|].
  pose proof (scale_ran st1 col inv Hw1 Hp1 ltac:(lia) Hiok Hinz) as Hran2.
  set (st2 := scale_row st1 col inv) in *. pose proof Hran2 as (_ & Hw2 & Hp2 & Hg2 & _).
  cbn [apply_ops foldl apply_op fst] in Hg2.
  destruct (eliminate_rows_ran st2 col n Hw2 Hp2 ltac:(lia) Hck ltac:(lia))
    as (ops3 & Hran3 & Hu3 & H13 & H03).
  { intros c i Hc Hi. rewrite Hg2 by lia. rewrite (Hu1 c col), (Hu1 c i) by lia.
    rewrite (proj2 (Nat.eqb_neq col c)) by lia. rewrite GFMul_0_l.
    destruct (Nat.eqb_spec i col), (Nat.eqb_spec i c); subst; done || lia. }
  { rewrite Hg2 by lia. by rewrite Nat.eqb_refl. }
  exists (ops1 ++ [OScale col inv] ++ ops3). split; [by do 2 (eapply ran_app; [done|])|].
  intros c i Hc Hi. destruct (decide (c = col)) as [->|Hne].
  - destruct (Nat.eqb_spec i col) as [->|]; [done|]. by apply H03.
  - apply Hu3; lia.
Qed.

Lemma elim_cols_spec st col :
  wf n k st.1 → pwf n L st.2 → (col ≤ k)%nat → (k ≤ n)%nat → unit_below st.1 col →
  match elim_cols st (seq col (k - col)) with
  | Ok st' => ∃ ops, ran n k L ops st st' ∧ unit_below st'.1 k
  | Err e => ∃ c ops st', e = RankNoPivot c ∧ (c < k)%nat ∧ ran n k L ops st st' ∧
      unit_below st'.1 c ∧ ∀ r, (c ≤ r < n)%nat → Get st'.1 r c = 0
  end.
Proof.
  intros Hw Hp Hck Hkn Hu. remember (k - col)%nat as d eqn:Hd.
  revert st col Hd Hw Hp Hck Hu. induction d as [|d IH]; intros st col Hd Hw Hp Hck Hu; simpl.
  - exists []. split; [by apply ran_nil|]. by replace k with col by lia.
  - pose proof (elim_col_spec st col Hw Hp ltac:(lia) Hkn Hu) as Hcol.
    destruct (elim_col st col) as [st1|e].
    + destruct Hcol as (ops1 & Hran1 & Hu1). pose proof Hran1 as (_ & Hw1 & Hp1 & _).
      specialize (IH st1 (S col) ltac:(lia) Hw1 Hp1 ltac:(lia) Hu1).
      destruct (elim_cols st1 (seq (S col) d)) as [st2|e].
      * destruct IH as (ops2 & Hran2 & Hu2). exists (ops1 ++ ops2). eauto using ran_app.
      * destruct IH as (c & ops2 & st2 & -> & Hc & Hran2 & Hu2 & Hz).
        exists c, (ops1 ++ ops2), st2. eauto 10 using ran_app.
    + destruct Hcol as [-> Hz]. exists col, [], st.
      split_and!; [done|lia|by apply ran_nil|done..].
Qed.

End Steps.
(** ** Solutions of a linear system *)

(** [dot a v] is the sum of [a j * v_j]. *)
Fixpoint dot (a : nat → Z) (v : list Z) : Z :=
  match v with
  | [] => 0
  | x :: v => GFAdd (GFMul (a 0%nat) x) (dot (λ j, a (S j)) v)
  end.

Lemma dot_ext a b v : (∀ j, (j < length v)%nat → a j = b j) → dot a v = dot b v.
Proof.
  revert a b. induction v as [|x v IH]; intros a b H; simpl; [done|].
  rewrite (H 0%nat) by (simpl; lia). f_equal. apply IH. intros j Hj. apply H. simpl. lia.
Qed.

Lemma dot_ok a v :
  (∀ j, (j < length v)%nat → byte_ok (a j)) → bytes_ok v → byte_ok (dot a v).
Proof.
  intros Ha Hv. revert a Ha. induction Hv as [|x v Hx Hv IH]; intros a Ha; simpl; [by unfold byte_ok|].
  apply GFAdd_ok; [apply GFMul_ok; [apply Ha; simpl; lia|done]|].
  apply IH. intros j Hj. apply Ha. simpl. lia.
Qed.

Lemma dot_scale a x v :
  (∀ j, (j < length v)%nat → byte_ok (a j)) → bytes_ok v → byte_ok x →
  dot (λ j, GFMul (a j) x) v = GFMul (dot a v) x.
Proof.
  intros Ha Hv Hx. revert a Ha. induction Hv as [|y v Hy Hv IH]; intros a Ha; simpl; [done|].
  assert (∀ j, (j < length v)%nat → byte_ok (a (S j))) as Ha' by (intros; apply Ha; simpl; lia).
  assert (byte_ok (a 0%nat)) by (apply Ha; simpl; lia).
  rewrite IH, GFMul_add_l by (auto using dot_ok with hub). f_equal.
  rewrite <- !GFMul_assoc by done. f_equal. apply GFMul_comm.
Qed.

Lemma GFAdd_swap a b c d : GFAdd (GFAdd a b) (GFAdd c d) = GFAdd (GFAdd a c) (GFAdd b d).
Proof. rewrite !GFAdd_assoc. f_equal. rewrite <- !GFAdd_assoc. f_equal. apply GFAdd_comm. Qed.

Lemma dot_add a b f v :
  (∀ j, (j < length v)%nat → byte_ok (a j)) → (∀ j, (j < length v)%nat → byte_ok (b j)) →
  bytes_ok v → byte_ok f →
  dot (λ j, GFAdd (a j) (GFMul f (b j))) v = GFAdd (dot a v) (GFMul f (dot b v)).
Proof.
  intros Ha Hb Hv Hf. revert a b Ha Hb.
  induction Hv as [|y v Hy Hv IH]; intros a b Ha Hb; simpl; [by rewrite GFMul_0_r|].
  assert (∀ j, (j < length v)%nat → byte_ok (a (S j))) as Ha' by (intros; apply Ha; simpl; lia).
  assert (∀ j, (j < length v)%nat → byte_ok (b (S j))) as Hb' by (intros; apply Hb; simpl; lia).
  assert (byte_ok (a 0%nat)) by (apply Ha; simpl; lia).
  assert (byte_ok (b 0%nat)) by (apply Hb; simpl; lia).
  rewrite IH, (GFMul_add_r f), (GFMul_add_l (a 0%nat)) by (auto using dot_ok with hub).
  rewrite GFAdd_swap. do 2 f_equal. by rewrite GFMul_assoc.
Qed.

Lemma dot_unit a v i x :
  (∀ j, (j < length v)%nat → a j = if (j =? i)%nat then 1 else 0) →
  bytes_ok v → v !! i = Some x → dot a v = x.
Proof.
  intros Ha Hv. revert a i Ha. induction Hv as [|y v Hy Hv IH]; intros a i Ha Hi; [done|].
  simpl. rewrite (Ha 0%nat) by (simpl; lia). destruct i as [|i]; simplify_eq/=.
  - rewrite GFMul_1_l by done. rewrite (dot_ext _ (λ _, 0)).
    + assert (dot (λ _, 0) v = 0) as ->; [|apply GFAdd_0_r].
      clear. induction v; simpl; [done|]. by rewrite IHv.
    + intros j Hj. by rewrite Ha by (simpl; lia).
  - rewrite GFAdd_0_l. apply (IH _ i); [|done]. intros j Hj. by rewrite Ha by (simpl; lia).
Qed.

Section Systems.
Context (n k : nat).

Lemma dot_apply_op op (A : nat → nat → Z) v i :
  op_ok n op → (∀ i j, (i < n)%nat → (j < k)%nat → byte_ok (A i j)) →
  length v = k → bytes_ok v → (i < n)%nat →
  dot (λ j, apply_op op (λ i, A i j) i) v = apply_op op (λ i, dot (A i) v) i.
Proof.
  intros Hop HA Hl Hv Hi. destruct op as [a b|a x|r s f]; simpl in *.
  - destruct (i =? a)%nat; [done|]. by destruct (i =? b)%nat.
  - destruct (i =? a)%nat; [|done]. apply dot_scale; [|done|tauto].
    intros j Hj. apply HA; [tauto|lia].
  - destruct (i =? r)%nat; [|done]. apply dot_add; [| |done|tauto];
      intros j Hj; apply HA; (tauto || lia).
Qed.

Lemma GFMul_cancel_r a b x :
  byte_ok a → byte_ok b → byte_ok x → x ≠ 0 → GFMul a x = GFMul b x → a = b.
Proof.
  intros Ha Hb Hx Hx0 H. destruct (GFInv_spec x Hx Hx0) as (y & _ & Hy & _ & Hxy).
  rewrite <- (GFMul_1_r a Ha), <- (GFMul_1_r b Hb), <- Hxy, !GFMul_assoc by done. by rewrite H.
Qed.

Lemma GFAdd_cancel_r a b x : GFAdd a x = GFAdd b x → a = b.
Proof.
  intros H. rewrite <- (GFAdd_0_r a), <- (GFAdd_0_r b), <- (GFAdd_self x), !GFAdd_assoc.
  by rewrite H.
Qed.

Lemma apply_op_inj op d p :
  op_ok n op → (∀ i, (i < n)%nat → byte_ok (d i)) → (∀ i, (i < n)%nat → byte_ok (p i)) →
  (∀ i, (i < n)%nat → apply_op op d i = apply_op op p i) → ∀ i, (i < n)%nat → d i = p i.
Proof.
  intros Hop Hd Hp H i Hi. destruct op as [a b|a x|r s f]; simpl in *.
  - destruct Hop as (Ha & Hb & Hne).
    destruct (decide (i = a)) as [Ea|Ea]; [|destruct (decide (i = b)) as [Eb|Eb]]; subst.
    + specialize (H b Hb). rewrite Nat.eqb_refl in H.
      by rewrite (proj2 (Nat.eqb_neq b a)) in H by done.
    + specialize (H a Ha). by rewrite Nat.eqb_refl in H.
    + specialize (H i Hi). by rewrite !(proj2 (Nat.eqb_neq i _)) in H by done.
  - specialize (H i Hi). destruct (Nat.eqb_spec i a); [|done]. subst i.
    apply (GFMul_cancel_r _ _ x); [auto|auto|tauto|tauto|done].
  - destruct Hop as (Hr & Hs & Hne & Hf).
    assert (d s = p s) as Es.
    { specialize (H s Hs). by rewrite (proj2 (Nat.eqb_neq s r)) in H by done. }
    specialize (H i Hi). destruct (Nat.eqb_spec i r); [|done]. subst i.
    rewrite Es in H. by eapply GFAdd_cancel_r.
Qed.

Definition solves (A : nat → nat → Z) (p : nat → Z) (v : list Z) : Prop :=
  ∀ i, (i < n)%nat → dot (A i) v = p i.

(** Elementary operations keep the solution set. *)
Lemma solves_ops ops A p v :
  Forall (op_ok n) ops →
  (∀ i j, (i < n)%nat → (j < k)%nat → byte_ok (A i j)) → (∀ i, (i < n)%nat → byte_ok (p i)) →
  length v = k → bytes_ok v →
  solves A p v ↔ solves (λ i j, apply_ops ops (λ i, A i j) i) (apply_ops ops p) v.
Proof.
  intros Hops. revert A p. induction Hops as [|op ops Hop _ IH]; intros A p HA Hp Hl Hv; [done|].
  cbn [apply_ops foldl]. etrans; [|apply (IH (λ i j, apply_op op (λ i, A i j) i) (apply_op op p))].
  - split.
    + intros H i Hi. rewrite dot_apply_op by done. by apply (apply_op_ext n).
    + intros H i' Hi'. apply (apply_op_inj op (λ i, dot (A i) v) p); [done| |done| |done].
      * intros i Hi. apply dot_ok; [|done]. intros j Hj. apply HA; lia.
      * intros i Hi. rewrite <- dot_apply_op by done. by apply H.
  - intros i j Hi Hj. apply (apply_op_ok n); [done| |done]. intros. by apply HA.
  - intros i Hi. by apply (apply_op_ok n).
  - done.
  - done.
Qed.

Lemma apply_ops_zero ops i : apply_ops ops (λ _, 0) i = 0.
Proof.
  unfold apply_ops. enough (∀ p, (∀ i, p i = 0) → foldl (λ p op, apply_op op p) p ops i = 0) by auto.
  induction ops as [|op ops IH]; intros p Hp; simpl; [done|]. apply IH. intros i'.
  destruct op; simpl; repeat case_match; rewrite ?Hp; try done. by rewrite GFMul_0_r.
Qed.

(** With unit columns the system reads off its solution. *)
Lemma solves_unit A p v i x :
  (k ≤ n)%nat → (∀ c i, (c < k)%nat → (i < n)%nat → A i c = if (i =? c)%nat then 1 else 0) →
  length v = k → bytes_ok v → solves A p v → v !! i = Some x → p i = x.
Proof.
  intros Hkn HA Hl Hv H Hi. assert (i < k)%nat by (rewrite <- Hl; by eapply lookup_lt_Some).
  rewrite <- H by lia. apply (dot_unit _ _ i); [|done..].
  intros j Hj. rewrite HA by lia. rewrite Nat.eqb_sym. done.
Qed.

Fixpoint gsum (f : nat → Z) (m : nat) : Z :=
  match m with
  | O => 0
  | S m => GFAdd (f 0%nat) (gsum (λ j, f (S j)) m)
  end.

Lemma dot_gsum a v : dot a v = gsum (λ j, GFMul (a j) (idx v j)) (length v).
Proof. revert a. induction v as [|x v IH]; intros a; simpl; [done|]. by rewrite IH. Qed.

Lemma gsum_ext f g m : (∀ j, (j < m)%nat → f j = g j) → gsum f m = gsum g m.
Proof.
  revert f g. induction m as [|m IH]; intros f g H; simpl; [done|].
  rewrite (H 0%nat) by lia. f_equal. apply IH. intros. apply H. lia.
Qed.

Lemma gsum_add f g m : gsum (λ j, GFAdd (f j) (g j)) m = GFAdd (gsum f m) (gsum g m).
Proof.
  revert f g. induction m as [|m IH]; intros f g; simpl; [done|].
  rewrite IH. apply GFAdd_swap.
Qed.

Lemma gsum_zero f m : (∀ j, (j < m)%nat → f j = 0) → gsum f m = 0.
Proof.
  revert f. induction m as [|m IH]; intros f H; simpl; [done|].
  rewrite (H 0%nat) by lia. rewrite IH; [done|]. intros. apply H. lia.
Qed.

Lemma gsum_single f m i :
  (i < m)%nat → (∀ j, (j < m)%nat → j ≠ i → f j = 0) → gsum f m = f i.
Proof.
  revert f i. induction m as [|m IH]; intros f i Hi H; simpl; [lia|]. destruct i as [|i].
  - rewrite gsum_zero by (intros; apply H; lia). apply GFAdd_0_r.
  - rewrite (H 0%nat) by lia. rewrite GFAdd_0_l.
    rewrite (IH _ i) by (try lia; intros; apply H; lia). done.
Qed.

(** The vector that witnesses a missing pivot in column [c]. *)
Definition kernel_vec (A : nat → nat → Z) (c : nat) : list Z :=
  map (λ j, if (j <? c)%nat then A j c else if (j =? c)%nat then 1 else 0) (seq 0 k).

Lemma kernel_vec_idx A c j :
  (j < k)%nat →
  idx (kernel_vec A c) j = if (j <? c)%nat then A j c else if (j =? c)%nat then 1 else 0.
Proof.
  intros Hj. unfold kernel_vec, idx. rewrite nth_lookup. change (map ?f ?l) with (f <$> l).
  rewrite list_lookup_fmap, lookup_seq_lt by done. done.
Qed.

Lemma kernel_vec_solves A c :
  (c < k)%nat → (k ≤ n)%nat → (∀ i j, (i < n)%nat → (j < k)%nat → byte_ok (A i j)) →
  (∀ c' i, (c' < c)%nat → (i < n)%nat → A i c' = if (i =? c')%nat then 1 else 0) →
  (∀ r, (c ≤ r < n)%nat → A r c = 0) →
  solves A (λ _, 0) (kernel_vec A c).
Proof.
  intros Hc Hkn HA Hu Hz i Hi. rewrite dot_gsum. unfold kernel_vec at 2.
  rewrite length_map, length_seq.
  rewrite (gsum_ext _ (λ j, GFAdd (if (j =? i)%nat && (i <? c)%nat then A i c else 0)
                                  (if (j =? c)%nat then A i c else 0))).
  - rewrite gsum_add. rewrite (gsum_single (λ j, if (j =? c)%nat then _ else _) k c), Nat.eqb_refl
      by (try done; intros; nat_cases; done || lia).
    destruct (Nat.ltb_spec i c).
    + rewrite (gsum_single _ k i) by (try lia; intros; nat_cases; done || lia).
      rewrite Nat.eqb_refl. apply GFAdd_self.
    + rewrite gsum_zero by (intros; by rewrite andb_false_r).
      rewrite GFAdd_0_l. apply Hz. lia.
  - intros j Hj. rewrite kernel_vec_idx by done. destruct (Nat.ltb_spec j c).
    + rewrite Hu by lia. rewrite (proj2 (Nat.eqb_neq j c)), GFAdd_0_r by lia.
      destruct (Nat.eqb_spec i j) as [E|E], (Nat.eqb_spec j i); try lia; cbn [andb]; [|done].
      subst j. rewrite (proj2 (Nat.ltb_lt i c)) by lia. apply GFMul_1_l. by apply HA.
    + destruct (Nat.eqb_spec j c) as [E|E].
      * subst j. rewrite GFMul_1_r by (by apply HA).
        destruct (Nat.eqb_spec c i), (Nat.ltb_spec i c); try lia; cbn [andb]; by rewrite GFAdd_0_l.
      * rewrite GFMul_0_r, GFAdd_0_r.
        destruct (Nat.eqb_spec j i), (Nat.ltb_spec i c); try done; lia.
Qed.

End Systems.
(** ** What [GaussianEliminate] computes *)

Definition column (X : list (list Z)) (b : nat) : list Z := map (λ seg, idx seg b) X.

(** Every coded payload is its row's combination of the segments. *)
Definition coded (coeffs : GFMatrix) (payloads X : list (list Z)) (L : nat) : Prop :=
  ∀ b, (b < L)%nat → solves (Rows coeffs) (Get coeffs) (pcol payloads b) (column X b).

(** Only the zero vector is orthogonal to every row. *)
Definition independent (coeffs : GFMatrix) : Prop :=
  ∀ v, length v = Cols coeffs → bytes_ok v →
    solves (Rows coeffs) (Get coeffs) (λ _, 0) v → v = replicate (Cols coeffs) 0.

Lemma ran_solves n k L ops st st' p v :
  wf n k st.1 → ran n k L ops st st' → (∀ i, (i < n)%nat → byte_ok (p i)) →
  length v = k → bytes_ok v →
  solves n (Get st.1) p v ↔ solves n (Get st'.1) (apply_ops ops p) v.
Proof.
  intros Hw (Hops & _ & _ & Hg & _) Hp Hl Hv.
  rewrite (solves_ops n k ops) by (done || intros; by eapply Get_ok).
  split; intros H i Hi; rewrite <- (H i Hi); apply dot_ext; intros j Hj;
    rewrite Hg by lia; done.
Qed.

Lemma bad_length_pwf n L payloads : pwf n L payloads → bad_length payloads = None.
Proof.
  intros [Hn Hf]. unfold bad_length. destruct (List.find _ _) as [i|] eqn:E; [|done].
  apply find_some in E as [Hin Hb]. apply in_seq in Hin.
  destruct (pwf_nth n L payloads i) as [E1 _]; [done|lia|].
  destruct (pwf_nth n L payloads 0) as [E2 _]; [done|lia|].
  rewrite E1, E2, Nat.eqb_refl in Hb. done.
Qed.

Lemma GaussianEliminate_run coeffs payloads n k L :
  wf n k coeffs → pwf n L payloads → (1 ≤ k ≤ n)%nat →
  match GaussianEliminate coeffs payloads with
  | Ok R => ∃ ops st', ran n k L ops (coeffs, payloads) st' ∧ unit_below n st'.1 k ∧
      R = take k st'.2
  | Err e => ∃ c ops st', e = RankNoPivot c ∧ (c < k)%nat ∧ ran n k L ops (coeffs, payloads) st' ∧
      unit_below n st'.1 c ∧ ∀ r, (c ≤ r < n)%nat → Get st'.1 r c = 0
  end.
Proof.
  intros Hw Hp Hk. unfold GaussianEliminate. pose proof Hw as (Hr & Hc & Hl & _).
  rewrite Hr, Hc, (bad_length_pwf n L) by done.
  rewrite (proj2 (Nat.ltb_ge n k)), (proj2 (Nat.eqb_neq k 0)) by lia.
  destruct (Hp) as [-> _]. rewrite Nat.eqb_refl. cbn [negb].
  assert (MkGFMatrix n k (copy_at 0 (Data coeffs) (Data (NewGFMatrix n k))) = coeffs) as ->.
  { destruct coeffs as [rows cols dat]. cbn in *. subst rows cols. f_equal.
    unfold copy_at. rewrite length_replicate, take_0, drop_ge, app_nil_r by (rewrite length_replicate; lia).
    simpl. apply take_ge. lia. }
  pose proof (elim_cols_spec n k L (coeffs, payloads) 0 Hw Hp ltac:(lia) ltac:(lia)) as H.
  rewrite Nat.sub_0_r in H. specialize (H ltac:(intros c i Hc0; lia)).
  destruct (elim_cols (coeffs, payloads) (seq 0 k)) as [[m pld]|e]; [|done].
  destruct H as (ops & Hran & Hu). eauto.
Qed.

Lemma column_lookup X b i seg : X !! i = Some seg → column X b !! i = Some (idx seg b).
Proof. intros H. unfold column. change (map ?f ?l) with (f <$> l). by rewrite list_lookup_fmap, H. Qed.

Lemma list_eq_idx (l1 l2 : list Z) L :
  length l1 = L → length l2 = L → (∀ b, (b < L)%nat → idx l1 b = idx l2 b) → l1 = l2.
Proof.
  intros H1 H2 H. apply (list_eq_same_length _ _ L); [done..|].
  intros i x y Hi Hx Hy. apply idx_lookup in Hx as <-. apply idx_lookup in Hy as <-. by apply H.
Qed.

Lemma GaussianEliminate_sound coeffs payloads X R n k L :
  wf n k coeffs → pwf n L payloads → pwf k L X → (k ≤ n)%nat →
  coded coeffs payloads X L → GaussianEliminate coeffs payloads = Ok R → R = X.
Proof.
  intros Hw Hp HX Hkn Hcoded HR. pose proof Hw as (Hr & Hc & _).
  destruct (decide (k = 0%nat)) as [->|Hk0].
  { unfold GaussianEliminate in HR. destruct Hp as [Hpl _], HX as [HXl _].
    rewrite Hr, Hc, Hpl, Nat.eqb_refl in HR. simpl in HR. injection HR as <-.
    by destruct X. }
  pose proof (GaussianEliminate_run coeffs payloads n k L Hw Hp ltac:(lia)) as H. rewrite HR in H.
  destruct H as (ops & st' & Hran & Hu & ->).
  pose proof Hran as (_ & _ & Hp' & _ & Hpc). pose proof Hp' as [Hl' _]. pose proof HX as [HXl _].
  apply (list_eq_same_length _ _ k); [done|rewrite length_take; lia|].
  intros i r seg Hi Hri Hseg. rewrite lookup_take in Hri. case_decide; [|lia].
  destruct (pwf_nth n L st'.2 i Hp' ltac:(lia)) as [Hri1 _].
  destruct (pwf_nth k L X i HX Hi) as [Hxi1 _].
  rewrite nth_lookup, Hri in Hri1. rewrite nth_lookup, Hseg in Hxi1. simpl in *.
  apply (list_eq_idx _ _ L); [done..|]. intros b Hb.
  assert (bytes_ok (column X b)) as Hcb.
  { apply Forall_lookup. intros j x Hx. unfold column in Hx. change (map ?f ?l) with (f <$> l) in Hx.
    rewrite list_lookup_fmap in Hx. destruct (X !! j) as [s0|] eqn:Ej; [|done]. simplify_eq/=.
    destruct HX as [_ HXf]. rewrite Forall_lookup in HXf. apply idx_ok. by eapply HXf. }
  assert (length (column X b) = k) as Hcl by (unfold column; by rewrite length_map).
  specialize (Hcoded b Hb). rewrite Hr in Hcoded.
  assert (∀ j, (j < n)%nat → byte_ok (pcol payloads b j)) as Hpb
    by (intros j Hj; unfold pcol; apply idx_ok; by apply (pwf_nth n L)).
  apply (proj1 (ran_solves n k L ops (coeffs, payloads) st' _ _ Hw Hran Hpb Hcl Hcb)) in Hcoded.
  pose proof (solves_unit n k _ _ _ i _ Hkn Hu Hcl Hcb Hcoded (column_lookup X b i seg Hseg)) as E.
  rewrite <- E. rewrite <- (Hpc i b) by lia. unfold pcol. by rewrite nth_lookup, Hri.
Qed.

Lemma GaussianEliminate_rank coeffs payloads n k L :
  wf n k coeffs → pwf n L payloads → (1 ≤ k ≤ n)%nat →
  (∃ R, GaussianEliminate coeffs payloads = Ok R) ↔ independent coeffs.
Proof.
  intros Hw Hp Hk. pose proof Hw as (Hr & Hc & _).
  pose proof (GaussianEliminate_run coeffs payloads n k L Hw Hp Hk) as Hrun.
  assert (∀ i, (i < n)%nat → byte_ok ((λ _, 0) i)) as H0 by (intros; by unfold byte_ok).
  destruct (GaussianEliminate coeffs payloads) as [R|e].
  - split; [|by eauto]. intros _ v Hl Hv Hs. rewrite Hr in Hs. rewrite Hc in *.
    destruct Hrun as (ops & st' & Hran & Hu & _).
    apply (proj1 (ran_solves n k L ops (coeffs, payloads) st' _ _ Hw Hran H0 Hl Hv)) in Hs.
    apply list_eq. intros i. destruct (v !! i) as [x|] eqn:Ei.
    + assert (i < k)%nat by (rewrite <- Hl; by eapply lookup_lt_Some).
      pose proof (solves_unit n k _ _ _ i x ltac:(lia) Hu Hl Hv Hs Ei) as Ex.
      rewrite apply_ops_zero in Ex. subst x. symmetry. by apply lookup_replicate_2.
    + symmetry. apply lookup_replicate_None. rewrite <- Hl. by apply lookup_ge_None.
  - split; [by intros [? ?]|]. intros Hind.
    destruct Hrun as (c & ops & st' & -> & Hck & Hran & Hu & Hz).
    pose proof Hran as (_ & Hw' & _).
    set (v := kernel_vec k (Get st'.1) c).
    assert (bytes_ok v) as Hv.
    { apply Forall_lookup. intros j x Hx.
      assert (j < k)%nat as Hj by (apply lookup_lt_Some in Hx; subst v; unfold kernel_vec in Hx;
        rewrite length_map, length_seq in Hx; done).
      apply idx_lookup in Hx as <-. subst v. rewrite kernel_vec_idx by done.
      pose proof (Get_ok n k st'.1 j c Hw'). repeat case_match; [done|by unfold byte_ok..]. }
    assert (length v = k) as Hl by (subst v; unfold kernel_vec; by rewrite length_map, length_seq).
    exfalso. assert (v = replicate k 0) as Ev.
    { rewrite <- Hc. apply Hind; [by rewrite Hc|done|]. rewrite Hr.
      apply (ran_solves n k L ops (coeffs, payloads) st'); [done..|].
      intros i Hi. rewrite apply_ops_zero.
      apply (kernel_vec_solves n k (Get st'.1) c); try done; [lia|].
      intros; by eapply Get_ok. }
    pose proof (kernel_vec_idx k (Get st'.1) c c Hck) as E. fold v in E.
    rewrite Ev, Nat.ltb_irrefl, Nat.eqb_refl in E.
    unfold idx in E. rewrite nth_lookup, lookup_replicate_2 in E by done. done.
Qed.

(** C36: the eliminator on an [n] by [k] system with payloads of one length:
    it succeeds exactly when the coefficient rows have full column rank, its
    answer is then the only one that can have produced the payloads, and the
    only failure is a missing pivot; the zero-inverse panic is unreachable. *)
Theorem GaussianEliminate_correct coeffs payloads n k L :
  wf n k coeffs → pwf n L payloads → (1 ≤ k ≤ n)%nat →
  match GaussianEliminate coeffs payloads with
  | Ok R => independent coeffs ∧ ∀ X, pwf k L X → coded coeffs payloads X L → R = X
  | Err e => ¬ independent coeffs ∧ ∃ c, (c < k)%nat ∧ e = RankNoPivot c
  end.
Proof.
  intros Hw Hp Hk. pose proof (GaussianEliminate_rank _ _ _ _ _ Hw Hp Hk) as Hr.
  pose proof (GaussianEliminate_run _ _ _ _ _ Hw Hp Hk) as Hrun.
  destruct (GaussianEliminate coeffs payloads) as [R|e] eqn:E.
  - split; [apply Hr; eauto|]. intros X HX Hc.
    by apply (GaussianEliminate_sound coeffs payloads X R n k L); [..|lia| |].
  - destruct Hrun as (c & _ & _ & -> & Hc & _). split; [|by eauto].
    intros Hi. apply Hr in Hi as [R HR]. done.
Qed.

Lemma GaussianEliminate_correct_witness :
  GaussianEliminate (MkGFMatrix 2 2 [0; 1; 2; 3]) [[9]; [7]] = Ok [[14]; [9]] ∧
  independent (MkGFMatrix 2 2 [0; 1; 2; 3]).
Proof.
  assert (GaussianEliminate (MkGFMatrix 2 2 [0; 1; 2; 3]) [[9]; [7]] = Ok [[14]; [9]]) as E
    by (vm_compute; reflexivity).
  pose proof (GaussianEliminate_correct (MkGFMatrix 2 2 [0; 1; 2; 3]) [[9]; [7]] 2 2 1) as H.
  rewrite E in H. split; [exact E|]. apply H.
  - split_and!; try done. repeat constructor; unfold byte_ok; lia.
  - split; [done|]. repeat constructor; unfold byte_ok; lia.
  - lia.
Defined.

End Rlnc.
