(* ===== verification/Wire.v ===== *)
(** Small wire formats: two's-complement fields ([internal/wire/wire.go]), the
    protocol version byte ([internal/codec/version.go]), the version-2 SMS frame
    ([internal/codec/smswire.go]) and the relay envelope
    ([internal/relay/frame.go]). *)
From S2P Require Import Prelude.

Module Wire.

Definition I32BE (b : list Z) : Z := i32 (be_get (sub 0 4 b)).
Definition I32LE (b : list Z) : Z := i32 (le_get (sub 0 4 b)).
Definition I16BE (b : list Z) : Z := i16 (be_get (sub 0 2 b)).
Definition I16LE (b : list Z) : Z := i16 (le_get (sub 0 2 b)).
Definition I8 (b : Z) : Z := i8 b.
Definition U32 (v : Z) : Z := u32 v.
Definition U16 (v : Z) : Z := u16 v.

Definition ClampU8 (v : Z) : Z := if v <? 0 then 0 else if 255 <? v then 255 else u8 v.

Definition ClampU16 (v : Z) : Z := if v <? 0 then 0 else if 65535 <? v then 65535 else u16 v.

Lemma ClampU8_spec v : ClampU8 v = Z.max 0 (Z.min 255 v).
Proof.
  unfold ClampU8, u8. destruct (Z.ltb_spec v 0); [lia|]. destruct (Z.ltb_spec 255 v); [lia|].
  rewrite Z.mod_small; lia.
Qed.

Lemma ClampU8_ok v : byte_ok (ClampU8 v).
Proof. rewrite ClampU8_spec. unfold byte_ok. lia. Qed.

Lemma ClampU16_spec v : ClampU16 v = Z.max 0 (Z.min 65535 v).
Proof.
  unfold ClampU16, u16. destruct (Z.ltb_spec v 0); [lia|]. destruct (Z.ltb_spec 65535 v); [lia|].
  rewrite Z.mod_small; lia.
Qed.

(** A signed value written as its unsigned encoding in either byte order
    and read back is the same value, for 32-bit and for 16-bit fields, whatever
    follows the field. *)
Theorem signed_fields_roundtrip v s rest :
  - 2 ^ 31 <= v < 2 ^ 31 → - 2 ^ 15 <= s < 2 ^ 15 →
  I32BE (be_put 4 (U32 v) ++ rest) = v ∧ I32LE (le_put 4 (U32 v) ++ rest) = v ∧
  I16BE (be_put 2 (U16 s) ++ rest) = s ∧ I16LE (le_put 2 (U16 s) ++ rest) = s.
Proof.
  intros Hv Hs. unfold I32BE, I32LE, I16BE, I16LE, U32, U16, u32, u16. slices.
  rewrite !be_get_put, !le_get_put.
  change (2 ^ (8 * Z.of_nat 4)) with (2 ^ 32). change (2 ^ (8 * Z.of_nat 2)) with (2 ^ 16).
  change 4294967296 with (2 ^ 32). change 65536 with (2 ^ 16).
  rewrite !Z.mod_mod by done. unfold i32, i16. rewrite !sint_wrap by lia. done.
Qed.

Lemma signed_fields_roundtrip_witness :
  I32LE (le_put 4 (U32 (-5)) ++ [1; 2]) = -5 ∧ I16BE (be_put 2 (U16 (-300)) ++ [1; 2]) = -300.
Proof.
  destruct (signed_fields_roundtrip (-5) (-300) [1; 2]) as (_ & H1 & H2 & _); [lia..|]. done.
Defined.

End Wire.

Module Version.

Definition ProtoVersion1 : Z := 1.
Definition MagicGPSHubFormat : Z := 165.
Definition MagicGPSBridgeFull : Z := 80.
Definition MagicGPSBridgeDelta : Z := 68.
Definition MagicCannedMessage : Z := 202.
Definition MagicIPoUGRS : Z := 73.
Definition MagicJSON : Z := 123.

Definition is_magic (b : Z) : bool :=
  existsb (Z.eqb b) [MagicGPSHubFormat; MagicGPSBridgeFull; MagicGPSBridgeDelta;
                     MagicCannedMessage; MagicIPoUGRS; MagicJSON].

Definition StripVersionByte (payload : list Z) : Z * list Z :=
  match payload with
  | [] => (0, payload)
  | first :: rest =>
      if is_magic first then (0, payload)
      else if first =? ProtoVersion1 then (first, rest)
      else (0, payload)
  end.

Definition PrependVersionByte (payload : list Z) : list Z := ProtoVersion1 :: payload.

(** Stripping undoes prepending, and a payload reported as unversioned is
    returned untouched; the version is non-zero exactly for a leading 0x01, so
    no payload type magic is ever eaten. *)
Theorem version_byte_roundtrip payload :
  StripVersionByte (PrependVersionByte payload) = (ProtoVersion1, payload) ∧
  let '(v, rest) := StripVersionByte payload in
  if decide (head payload = Some 1) then v = 1 ∧ payload = 1 :: rest else v = 0 ∧ rest = payload.
Proof.
  split; [done|]. unfold StripVersionByte. destruct payload as [|b rest]; [done|].
  destruct (is_magic b) eqn:Em.
  - rewrite decide_False; [done|]. intros [= ->]. done.
  - destruct (Z.eqb_spec b ProtoVersion1) as [->|Hne].
    + by rewrite decide_True.
    + rewrite decide_False; [done|]. intros [= ->]. done.
Qed.

End Version.

Module SmsWire.

Definition SMSWireV2 : Z := 2.
Definition SMSModeClear : Z := 0.
Definition SMSModeAESGCM : Z := 1.

Definition SMSWireV2Header (mode : Z) : list Z := [SMSWireV2; mode].

Definition ParseSMSWireV2 (blob : list Z) : option (Z * list Z) :=
  if (length blob <? 3)%nat || negb (idx blob 0 =? SMSWireV2) then None
  else Some (idx blob 1, drop 2 blob).

Lemma ParseSMSWireV2_header mode payload :
  payload ≠ [] → ParseSMSWireV2 (SMSWireV2Header mode ++ payload) = Some (mode, payload).
Proof. destruct payload as [|b p]; [done|]. intros _. reflexivity. Qed.

Lemma ParseSMSWireV2_inv blob mode payload :
  ParseSMSWireV2 blob = Some (mode, payload) →
  blob = SMSWireV2Header mode ++ payload ∧ payload ≠ [].
Proof.
  unfold ParseSMSWireV2. destruct blob as [|a [|b [|c l]]]; [done..|]. simpl.
  unfold idx. simpl. destruct (Z.eqb_spec a SMSWireV2) as [->|]; [|done].
  intros [= <- <-]. done.
Qed.

(** The version-2 SMS parser accepts exactly the frames its header builder
    makes around a non-empty payload, and gives back the mode and the payload. *)
Theorem sms_wire_v2_exact blob mode payload :
  ParseSMSWireV2 blob = Some (mode, payload) ↔
  blob = SMSWireV2Header mode ++ payload ∧ payload ≠ [].
Proof.
  split; [apply ParseSMSWireV2_inv|]. intros [-> H]. by apply ParseSMSWireV2_header.
Qed.

End SmsWire.

Module Envelope.

Definition envelopeVersion : Z := 1.
Definition MaxClientID : Z := 255.

Inductive env_error := ErrEnvelope | ErrClientID.

(** A Go string is its bytes. *)
Definition EncodeEnvelope (clientID payload : list Z) : result env_error (list Z) :=
  match clientID with
  | [] => Err ErrClientID
  | _ =>
      if MaxClientID <? Zlen clientID then Err ErrClientID
      else Ok ([envelopeVersion; u8 (Zlen clientID)] ++ clientID ++ payload)
  end.

Definition DecodeEnvelope (frame : list Z) : result env_error (list Z * list Z) :=
  if (length frame <? 2)%nat then Err ErrEnvelope
  else if negb (idx frame 0 =? envelopeVersion) then Err ErrEnvelope
  else
    let n := Z.to_nat (idx frame 1) in
    if (n =? 0)%nat || (length frame <? 2 + n)%nat then Err ErrEnvelope
    else Ok (sub 2 (2 + n) frame, drop (2 + n) frame).

Lemma DecodeEnvelope_frame cid payload :
  cid ≠ [] → Zlen cid <= 255 →
  DecodeEnvelope ([envelopeVersion; Zlen cid] ++ cid ++ payload) = Ok (cid, payload).
Proof.
  intros Hc Hn. assert (length cid ≠ 0%nat) by (by destruct cid). unfold DecodeEnvelope, Zlen in *.
  rewrite length_app. change (idx _ 0) with envelopeVersion.
  change (idx _ 1) with (Z.of_nat (length cid)). rewrite Nat2Z.id, length_app. simpl length.
  destruct (Nat.ltb_spec (2 + (length cid + length payload)) 2); [lia|].
  rewrite Z.eqb_refl. destruct (Nat.eqb_spec (length cid) 0); [lia|].
  destruct (Nat.ltb_spec (2 + (length cid + length payload)) (2 + length cid)); [lia|].
  cbn [negb orb]. f_equal. f_equal; [by slices|]. simpl. by rewrite drop_app_length.
Qed.

Lemma DecodeEnvelope_inv frame cid payload :
  bytes_ok frame → DecodeEnvelope frame = Ok (cid, payload) →
  cid ≠ [] ∧ Zlen cid <= 255 ∧ frame = [envelopeVersion; Zlen cid] ++ cid ++ payload.
Proof.
  intros Hok. unfold DecodeEnvelope.
  destruct (Nat.ltb_spec (length frame) 2); [done|].
  destruct (Z.eqb_spec (idx frame 0) envelopeVersion) as [Hv|]; [cbn [negb]|done].
  pose proof (idx_ok frame 1 Hok) as Hn. unfold byte_ok in Hn.
  destruct (Nat.eqb_spec (Z.to_nat (idx frame 1)) 0) as [|Hn0]; [done|]. cbn [orb].
  destruct (Nat.ltb_spec (length frame) (2 + Z.to_nat (idx frame 1))) as [|Hlen]; [done|].
  remember (2 + Z.to_nat (idx frame 1))%nat as m eqn:Hm. intros [= <- <-].
  assert (length (sub 2 m frame) = Z.to_nat (idx frame 1)) as Hl
    by (rewrite sub_length; lia).
  unfold Zlen. rewrite Hl, Z2Nat.id by lia.
  split; [intros E; rewrite E in Hl; simpl in Hl; lia|]. split; [lia|].
  subst m.
  destruct frame as [|v [|n l]]; [simpl in *; lia..|]. unfold idx in *. simpl in *. subst v.
  unfold sub. simpl. rewrite Nat.sub_0_r. by rewrite take_drop.
Qed.

(** A relay envelope decodes to the client id and payload it was built
    from, and conversely every frame the decoder accepts is the envelope of
    what it returns: the framing is unambiguous. *)
Theorem envelope_exact frame clientID payload :
  bytes_ok frame →
  DecodeEnvelope frame = Ok (clientID, payload) ↔ EncodeEnvelope clientID payload = Ok frame.
Proof.
  intros Hok. split.
  - intros H. apply DecodeEnvelope_inv in H as (Hc & Hn & ->); [|done].
    unfold EncodeEnvelope, Zlen, MaxClientID in *. destruct clientID as [|c cs]; [done|].
    rewrite (proj2 (Z.ltb_ge _ _)) by lia. by rewrite u8_small by (unfold byte_ok; lia).
  - unfold EncodeEnvelope. destruct clientID as [|c cs]; [done|]. set (cid := c :: cs).
    assert (1 ≤ length cid)%nat by (simpl; lia). clearbody cid. unfold MaxClientID, Zlen.
    destruct (Z.ltb_spec 255 (Z.of_nat (length cid))); [done|]. intros [= <-].
    rewrite u8_small by (unfold byte_ok; lia). apply DecodeEnvelope_frame; [|unfold Zlen; lia].
    intros ->. simpl in *. lia.
Qed.

Lemma envelope_exact_witness :
  DecodeEnvelope [1; 2; 97; 98; 7] = Ok ([97; 98], [7]).
Proof.
  apply (envelope_exact [1; 2; 97; 98; 7] [97; 98] [7]); [|reflexivity].
  repeat constructor; unfold byte_ok; lia.
Defined.

End Envelope.
