(* ===== verification/Float64.v ===== *)
(** IEEE-754 binary64 arithmetic as Go's [float64] has it, on the Standard
    Library's axiom-free [spec_float] (53-bit significand, round to nearest
    even), with the conversion [int(f)]. *)
From S2P Require Import Prelude.
From Stdlib Require Import SpecFloat.

Module Float64.

Abbreviation float64 := spec_float.

Definition f64_of_Z (z : Z) : float64 := binary_normalize 53 1024 z 0 false.
Definition f64_add (x y : float64) : float64 := SFadd 53 1024 x y.
Definition f64_sub (x y : float64) : float64 := SFsub 53 1024 x y.
Definition f64_mul (x y : float64) : float64 := SFmul 53 1024 x y.
Definition f64_div (x y : float64) : float64 := SFdiv 53 1024 x y.
Definition f64_ltb (x y : float64) : bool := SFltb x y.
Definition f64_leb (x y : float64) : bool := SFleb x y.

(** The decimal literal [n/d], correctly rounded. *)
Definition f64_lit (n d : Z) : float64 := f64_div (f64_of_Z n) (f64_of_Z d).

(** [int(f)]: truncation toward zero; what does not fit (and NaN, Inf) becomes
    the smallest [int], as on amd64. *)
Definition f64_to_int (f : float64) : Z :=
  let min_int := - 2 ^ 63 in
  match f with
  | S754_zero _ => 0
  | S754_finite s m e =>
      let v := if 0 <=? e then Z.pos m * 2 ^ e else Z.pos m / 2 ^ (- e) in
      let v := if s then - v else v in
      if (- 2 ^ 63 <=? v) && (v <? 2 ^ 63) then v else min_int
  | _ => min_int
  end.

(** [math.Float64bits] and [math.Float64frombits]; a NaN is Go's quiet NaN. *)
Definition f64_bits (f : float64) : Z :=
  let sign (s : bool) := if s then 2 ^ 63 else 0 in
  match f with
  | S754_zero s => sign s
  | S754_infinity s => sign s + 2047 * 2 ^ 52
  | S754_nan => 2047 * 2 ^ 52 + 2 ^ 51 + 1
  | S754_finite s m e =>
      sign s + (if 2 ^ 52 <=? Z.pos m then (e + 1075) * 2 ^ 52 + (Z.pos m - 2 ^ 52) else Z.pos m)
  end.

Definition f64_of_bits (u : Z) : float64 :=
  let s := 2 ^ 63 <=? u in
  let exp := (u / 2 ^ 52) mod 2048 in
  let frac := u mod 2 ^ 52 in
  let finite m e := match m with Z.pos m => S754_finite s m e | _ => S754_zero s end in
  if exp =? 2047 then (if frac =? 0 then S754_infinity s else S754_nan)
  else if exp =? 0 then finite frac (-1074)
  else finite (frac + 2 ^ 52) (exp - 1075).

Example bits_examples :
  map (λ f, (f64_bits f, f64_of_bits (f64_bits f)))
    [f64_lit 5 2; f64_lit (-1) 3; f64_of_Z 0; f64_lit 1 (2 ^ 1000); S754_infinity true]
  = map (λ f, (f64_bits f, f)) [f64_lit 5 2; f64_lit (-1) 3; f64_of_Z 0; f64_lit 1 (2 ^ 1000); S754_infinity true]
  ∧ f64_bits (f64_lit 5 2) = 0x4004000000000000 ∧ f64_bits (f64_lit (-1) 3) = 0xbfd5555555555555.
Proof. vm_compute. done. Qed.

Example to_int_examples :
  f64_to_int (f64_lit 7 2) = 3 ∧ f64_to_int (f64_lit (-7) 2) = -3 ∧
  f64_to_int (f64_add (f64_mul (f64_of_Z 5) (f64_lit 3 2)) (f64_lit 999999 1000000)) = 8.
Proof. vm_compute. done. Qed.

End Float64.
