(* ===== verification/RlncResource.v ===== *)
(** Network-coded resources: the coded packet, its wire form, the generation
    tracker and the encoder of [internal/protocol/rlnc_resource.go], on top of
    the eliminator of [Rlnc.v].  [crypto/rand] is a parameter of the encoder. *)
From S2P Require Import Prelude Gf256 Rlnc Wire Float64.

Module RlncResource.
Import Gf256 Rlnc Wire Float64.

Definition RLNCVersion : Z := 1.
Definition rlncHashLen : nat := 32.
Definition rlncFixedHdrLen : nat := rlncHashLen + 1 + 2 + 1.
Definition rlncMinPacketLen : nat := rlncFixedHdrLen + 1 + 1.

Inductive rlnc_error :=
| ErrRLNCPacketTooShort
| ErrRLNCBadVersion
| ErrRLNCBadK
| ErrRLNCNotDecodable (cause : option ge_error)
| PanicIndexOutOfRange
| PanicGFInvZero.

Record RLNCCodedPacket := MkRLNCCodedPacket {
  ResourceHash : list Z;
  Version : Z;
  GenerationID : Z;
  K : Z;
  Coefficients : list Z;
  Payload : list Z;
}.

(** ** The wire form *)

Definition MarshalRLNCPacket (pkt : RLNCCodedPacket) : list Z :=
  let k := Z.to_nat (K pkt) in
  let totalLen := (rlncFixedHdrLen + k + length (Payload pkt))%nat in
  let buf := replicate totalLen 0 in
  let buf := copy_at 0 (take rlncHashLen (ResourceHash pkt)) buf in
  let buf := <[rlncHashLen := Version pkt]> buf in
  let buf := copy_at (rlncHashLen + 1) (le_put 2 (GenerationID pkt)) buf in
  let buf := <[(rlncHashLen + 3)%nat := K pkt]> buf in
  let buf := copy_at rlncFixedHdrLen (Coefficients pkt) buf in
  copy_at (rlncFixedHdrLen + k) (Payload pkt) buf.

Definition UnmarshalRLNCPacket (data : list Z) : result rlnc_error RLNCCodedPacket :=
  if (length data <? rlncMinPacketLen)%nat then Err ErrRLNCPacketTooShort
  else
    let version := idx data rlncHashLen in
    if negb (version =? RLNCVersion) then Err ErrRLNCBadVersion
    else
      let genID := le_get (sub (rlncHashLen + 1) (rlncHashLen + 3) data) in
      let kb := idx data (rlncHashLen + 3) in
      if kb =? 0 then Err ErrRLNCBadK
      else
        let coeffEnd := (rlncFixedHdrLen + Z.to_nat kb)%nat in
        if (length data <? coeffEnd + 1)%nat then Err ErrRLNCPacketTooShort
        else Ok (MkRLNCCodedPacket (take rlncHashLen data) version genID kb
                   (sub rlncFixedHdrLen coeffEnd data) (drop coeffEnd data)).

(** ** Generations *)

Record RLNCGeneration := MkRLNCGeneration {
  gID : Z;
  gK : nat;
  gPayloadSize : nat;
  gReceived : list RLNCCodedPacket;
  gDecoded : bool;
  gDecodedData : list (list Z);
}.

Definition NewRLNCGeneration (id : Z) (k payloadSize : nat) : RLNCGeneration :=
  MkRLNCGeneration id k payloadSize [] false [].

Definition AddPacket (g : RLNCGeneration) (pkt : RLNCCodedPacket) : bool * RLNCGeneration :=
  if gDecoded g then (true, g)
  else
    let received := gReceived g ++ [pkt] in
    ((gK g <=? length received)%nat,
     MkRLNCGeneration (gID g) (gK g) (gPayloadSize g) received (gDecoded g) (gDecodedData g)).

(** The inner loop of [TryDecode]: row [i] of the matrix from one packet;
    [None] is the index panic of a packet with fewer than [k] coefficients. *)
Definition set_row (k : nat) (m : GFMatrix) (i : nat) (pkt : RLNCCodedPacket) : option GFMatrix :=
  foldl (λ om j, m ← om; c ← Coefficients pkt !! j; Some (Set_ m i j c)) (Some m) (seq 0 k).

Fixpoint set_rows (k : nat) (m : GFMatrix) (i : nat) (pkts : list RLNCCodedPacket)
  : option GFMatrix :=
  match pkts with
  | [] => Some m
  | pkt :: pkts => m ← set_row k m i pkt; set_rows k m (S i) pkts
  end.

Definition TryDecode (g : RLNCGeneration) : result rlnc_error (list (list Z)) * RLNCGeneration :=
  if gDecoded g then (Ok (gDecodedData g), g)
  else if (length (gReceived g) <? gK g)%nat then (Err (ErrRLNCNotDecodable None), g)
  else
    let n := length (gReceived g) in
    let k := gK g in
    match set_rows k (NewGFMatrix n k) 0 (gReceived g) with
    | None => (Err PanicIndexOutOfRange, g)
    | Some coeffs =>
        match GaussianEliminate coeffs (map Payload (gReceived g)) with
        | Err PanicZeroInverse => (Err PanicGFInvZero, g)
        | Err e => (Err (ErrRLNCNotDecodable (Some e)), g)
        | Ok decoded =>
            (Ok decoded,
             MkRLNCGeneration (gID g) (gK g) (gPayloadSize g) (gReceived g) true decoded)
        end
    end.

(** ** The encoder *)

Definition max_len (segments : list (list Z)) : nat :=
  foldl (λ payloadSize seg,
    if (payloadSize <? length seg)%nat then length seg else payloadSize) 0%nat segments.

Definition pad_to (n : nat) (seg : list Z) : list Z := copy_at 0 seg (replicate n 0).

(** [int(float64(k)*redundancy + 0.999999)], at least [k]. *)
Definition packet_count (k : nat) (redundancy : float64) : nat :=
  let redundancy := if f64_ltb redundancy (f64_of_Z 1) then f64_of_Z 1 else redundancy in
  let n := f64_to_int (f64_add (f64_mul (f64_of_Z (Z.of_nat k)) redundancy) (f64_lit 999999 1000000)) in
  if n <? Z.of_nat k then k else Z.to_nat n.

(** "Ensure at least one coefficient is non-zero". *)
Definition fix_zero (coefficients : list Z) : list Z :=
  if forallb (Z.eqb 0) coefficients then <[0%nat := 1]> coefficients else coefficients.

Definition combine (payloadSize : nat) (coefficients : list Z) (padded : list (list Z)) : list Z :=
  foldl (λ payload j,
    let c := idx coefficients j in
    if c =? 0 then payload
    else zip_with (λ p x, GFAdd p (GFMul c x)) payload (nth j padded []))
    (replicate payloadSize 0) (seq 0 (length padded)).

(** [randBytes i k] is what [crypto/rand] writes into the [i]-th buffer of [k] bytes. *)
Definition EncodeGeneration (randBytes : nat → nat → list Z) (genID : Z) (resourceHash : list Z)
  (segments : list (list Z)) (redundancy : float64) : list RLNCCodedPacket :=
  let k := length segments in
  if (k =? 0)%nat then []
  else
    let payloadSize := max_len segments in
    let padded := map (pad_to payloadSize) segments in
    let n := packet_count k redundancy in
    map (λ i,
      let coefficients := fix_zero (randBytes i k) in
      MkRLNCCodedPacket resourceHash RLNCVersion genID (ClampU8 (Z.of_nat k)) coefficients
        (combine payloadSize coefficients padded)) (seq 0 n).

(** ** Wire round trip *)

Definition pkt_wf (p : RLNCCodedPacket) : Prop :=
  length (ResourceHash p) = rlncHashLen ∧ bytes_ok (ResourceHash p) ∧
  Version p = RLNCVersion ∧ 0 <= GenerationID p < 65536 ∧ 1 <= K p <= 255 ∧
  Zlen (Coefficients p) = K p ∧ bytes_ok (Coefficients p) ∧
  Payload p ≠ [] ∧ bytes_ok (Payload p).

(** A packet in [pkt_wf] is laid out field after field. *)
Lemma Marshal_layout p :
  length (ResourceHash p) = rlncHashLen → 0 <= K p → Zlen (Coefficients p) = K p →
  MarshalRLNCPacket p =
    ResourceHash p ++ [Version p] ++ le_put 2 (GenerationID p) ++ [K p] ++
    Coefficients p ++ Payload p.
Proof.
  intros Hh Hk Hc. unfold MarshalRLNCPacket, Zlen in *.
  assert (length (Coefficients p) = Z.to_nat (K p)) as Hl by lia.
  rewrite (take_ge (ResourceHash p)) by lia.
  assert (replicate (rlncFixedHdrLen + Z.to_nat (K p) + length (Payload p)) 0 =
    replicate 32 0 ++ [0] ++ replicate 2 0 ++ [0] ++ replicate (Z.to_nat (K p)) 0 ++
    replicate (length (Payload p)) 0) as ->.
  { change [0] with (replicate 1 0). by rewrite <- !replicate_add. }
  change rlncHashLen with 32%nat in *. change rlncFixedHdrLen with 36%nat.
  rewrite (copy_at_eq [] (replicate 32 0) ([0] ++ replicate 2 0 ++ [0] ++
    replicate (Z.to_nat (K p)) 0 ++ replicate (length (Payload p)) 0) (ResourceHash p));
    [|done|done|by rewrite Hh].
  rewrite (insert_eq (ResourceHash p) (replicate 2 0 ++ [0] ++ replicate (Z.to_nat (K p)) 0 ++
    replicate (length (Payload p)) 0) _ _ 0 (Version p)); [|done|done].
  rewrite (copy_at_eq (ResourceHash p ++ [Version p]) (replicate 2 0) ([0] ++
    replicate (Z.to_nat (K p)) 0 ++ replicate (length (Payload p)) 0) (le_put 2 _));
    [|by rewrite <- app_assoc|len|done].
  rewrite (insert_eq (ResourceHash p ++ [Version p] ++ le_put 2 (GenerationID p))
    (replicate (Z.to_nat (K p)) 0 ++ replicate (length (Payload p)) 0) _ _ 0 (K p));
    [|by rewrite <- !app_assoc|len].
  rewrite (copy_at_eq (ResourceHash p ++ [Version p] ++ le_put 2 (GenerationID p) ++ [K p])
    (replicate (Z.to_nat (K p)) 0) (replicate (length (Payload p)) 0) (Coefficients p));
    [|by rewrite <- !app_assoc|len|len].
  rewrite (copy_at_eq (ResourceHash p ++ [Version p] ++ le_put 2 (GenerationID p) ++ [K p] ++
    Coefficients p) (replicate (length (Payload p)) 0) []);
    [|by rewrite <- !app_assoc, app_nil_r|len|len].
  by rewrite <- !app_assoc, app_nil_r.
Qed.

Lemma Unmarshal_layout p :
  pkt_wf p → UnmarshalRLNCPacket (ResourceHash p ++ [Version p] ++ le_put 2 (GenerationID p) ++
    [K p] ++ Coefficients p ++ Payload p) = Ok p.
Proof.
  intros (Hh & _ & Hv & Hg & Hk & Hc & _ & Hp & _). unfold UnmarshalRLNCPacket, Zlen in *.
  destruct p as [h v g k cs pl]. cbn [ResourceHash Version GenerationID K Coefficients Payload] in *.
  assert (1 ≤ length pl)%nat by (destruct pl; simpl; [done|lia]).
  assert (length cs = Z.to_nat k) as Hl by lia. subst v.
  change rlncHashLen with 32%nat in *. change rlncFixedHdrLen with 36%nat.
  change rlncMinPacketLen with 38%nat.
  rewrite (proj2 (Nat.ltb_ge _ _)) by len.
  assert (∀ i, i = 32%nat → idx (h ++ [RLNCVersion] ++ le_put 2 g ++ [k] ++ cs ++ pl) i = RLNCVersion) as ->;
    [intros i ->; by slices; rewrite Hh| |done].
  assert (idx (h ++ [RLNCVersion] ++ le_put 2 g ++ [k] ++ cs ++ pl) (32 + 3) = k) as ->.
  { slices. rewrite Hh. done. }
  cbn [negb Z.eqb RLNCVersion Pos.eqb]. rewrite (proj2 (Z.eqb_neq k 0)) by lia.
  rewrite (proj2 (Nat.ltb_ge _ _)) by len.
  f_equal. f_equal.
  - rewrite <- Hh. apply take_app_length.
  - slices. by apply le_get_put_small.
  - by slices.
  - rewrite !app_assoc. apply drop_app_length'. len.
Qed.

Lemma Unmarshal_inv data p :
  bytes_ok data → UnmarshalRLNCPacket data = Ok p →
  pkt_wf p ∧ data = ResourceHash p ++ [Version p] ++ le_put 2 (GenerationID p) ++
    [K p] ++ Coefficients p ++ Payload p.
Proof.
  intros Hok. unfold UnmarshalRLNCPacket.
  change rlncHashLen with 32%nat in *. change rlncFixedHdrLen with 36%nat.
  change rlncMinPacketLen with 38%nat. change (32 + 1)%nat with 33%nat. change (32 + 3)%nat with 35%nat.
  destruct (Nat.ltb_spec (length data) 38); [done|].
  destruct (Z.eqb_spec (idx data 32) RLNCVersion) as [Hv|]; [cbn [negb]|done].
  pose proof (idx_ok data 35 Hok) as Hk. unfold byte_ok in Hk.
  destruct (Z.eqb_spec (idx data 35) 0); [done|].
  destruct (Nat.ltb_spec (length data) (36 + Z.to_nat (idx data 35) + 1)); [done|].
  remember (36 + Z.to_nat (idx data 35))%nat as ce eqn:Hce. intros [= <-].
  assert (length (sub 33 35 data) = 2%nat) as Hl2 by (rewrite sub_length; lia).
  split.
  - unfold pkt_wf. cbn [ResourceHash Version GenerationID K Coefficients Payload].
    pose proof (le_get_bound (sub 33 35 data)) as Hb. unfold Zlen in *. rewrite Hl2 in Hb.
    split_and!; try by auto with hub.
    + rewrite length_take. unfold rlncHashLen. lia.
    + apply Hb. auto with hub.
    + apply Hb. auto with hub.
    + lia.
    + lia.
    + rewrite sub_length by lia. lia.
    + intros E. apply (f_equal length) in E. rewrite length_drop in E. simpl in E. lia.
  - cbn [ResourceHash Version GenerationID K Coefficients Payload].
    rewrite le_put_get by auto with hub. rewrite <- (take_drop 32 data) at 1. f_equal.
    rewrite (drop_idx data 32) by lia. cbn [app]. f_equal.
    rewrite (drop_sub 33 35) by lia. 
    f_equal. rewrite (drop_idx data 35) by lia. f_equal. apply drop_sub. lia.
Qed.

(** The coded-packet wire form is exact: every well-formed packet survives
    the wire, and every byte string the decoder accepts is the encoding of the
    well-formed packet it returns. *)
Theorem rlnc_wire_exact data p :
  bytes_ok data →
  UnmarshalRLNCPacket data = Ok p ↔ pkt_wf p ∧ MarshalRLNCPacket p = data.
Proof.
  intros Hok. split.
  - intros H. apply Unmarshal_inv in H as [Hp ->]; [|done]. split; [done|].
    destruct Hp as (? & _ & _ & _ & ? & ? & _). apply Marshal_layout; [done|lia|done].
  - intros [Hp <-]. rewrite Marshal_layout; [by apply Unmarshal_layout|..];
      destruct Hp as (? & _ & _ & _ & ? & ? & _); done || lia.
Qed.

Definition sample_packet : RLNCCodedPacket :=
  MkRLNCCodedPacket (replicate 32 9) 1 513 2 [3; 4] [5; 6; 7].

Lemma rlnc_wire_exact_witness :
  UnmarshalRLNCPacket (MarshalRLNCPacket sample_packet) = Ok sample_packet.
Proof.
  apply (rlnc_wire_exact (MarshalRLNCPacket sample_packet) sample_packet).
  - apply (bool_decide_unpack _). vm_compute. exact I.
  - split; [|reflexivity]. unfold pkt_wf. split_and!; try done; apply (bool_decide_unpack _); vm_compute; exact I.
Defined.

(** ** The matrix [TryDecode] builds *)

Lemma set_row_loop k m i pkt :
  (k ≤ length (Coefficients pkt))%nat →
  set_row k m i pkt = Some (foldl (λ m j, Set_ m i j (idx (Coefficients pkt) j)) m (seq 0 k)).
Proof.
  unfold set_row. induction k as [|k IH]; intros Hk; [done|].
  rewrite seq_S, !foldl_app, IH by lia. simpl.
  destruct (lookup_lt_is_Some_2 (Coefficients pkt) k ltac:(lia)) as [c Hc].
  rewrite Hc, (idx_lookup _ _ _ Hc). done.
Qed.

Definition row_ok (k : nat) (pkt : RLNCCodedPacket) : Prop :=
  (k ≤ length (Coefficients pkt))%nat ∧ bytes_ok (Coefficients pkt).

Lemma set_row_spec n k m i pkt :
  wf n k m → (i < n)%nat → row_ok k pkt →
  ∃ m', set_row k m i pkt = Some m' ∧ wf n k m' ∧
    ∀ i' j, (i' < n)%nat → (j < k)%nat →
      Get m' i' j = if (i' =? i)%nat then idx (Coefficients pkt) j else Get m i' j.
Proof.
  intros Hw Hi [Hk Hb]. rewrite set_row_loop by done. eexists; split; [done|].
  apply (foldl_columns n k (λ c p i', if (i' =? i)%nat then idx (Coefficients pkt) c else p i'));
    [|clear m Hw; intros m c Hw Hc|done].
  - intros c p q i' Hpq Hi'. by rewrite Hpq.
  - split; [apply Set_wf; auto with hub|]. intros i' j Hi' Hj.
    rewrite (Get_Set n k) by done. destruct (Nat.eqb_spec i' i), (Nat.eqb_spec j c); subst; done.
Qed.

Lemma set_rows_spec n k pkts : ∀ m i,
  wf n k m → (i + length pkts ≤ n)%nat → Forall (row_ok k) pkts →
  ∃ m', set_rows k m i pkts = Some m' ∧ wf n k m' ∧
    ∀ i' j, (i' < n)%nat → (j < k)%nat →
      Get m' i' j = match pkts !! (i' - i)%nat with
                    | Some p => if (i <=? i')%nat then idx (Coefficients p) j else Get m i' j
                    | None => Get m i' j
                    end.
Proof.
  induction pkts as [|p pkts IH]; intros m i Hw Hn Hf; cbn [set_rows length] in *.
  - eexists; split; [done|]. split; [done|]. done.
  - apply Forall_cons in Hf as [Hp Hf].
    destruct (set_row_spec n k m i p Hw ltac:(lia) Hp) as (m1 & -> & Hw1 & Hg1). simpl.
    destruct (IH m1 (S i) Hw1 ltac:(lia) Hf) as (m2 & -> & Hw2 & Hg2).
    eexists; split; [done|]. split; [done|]. intros i' j Hi' Hj.
    rewrite Hg2, Hg1 by done. destruct (Nat.eqb_spec i' i) as [E|E].
    + subst i'. rewrite Nat.sub_diag, Nat.leb_refl. cbn [lookup list_lookup].
      rewrite (proj2 (Nat.leb_gt (S i) i)) by lia. by destruct (pkts !! (i - S i)%nat).
    + destruct (Nat.leb_spec i i'); destruct (Nat.leb_spec (S i) i'); try lia.
      * replace (i' - i)%nat with (S (i' - S i)) by lia. done.
      * replace (i' - i)%nat with 0%nat by lia. simpl. by case_match.
Qed.

(** ** The payload the encoder computes *)

Lemma gsum_snoc f m : gsum f (S m) = GFAdd (gsum f m) (f m).
Proof.
  revert f. induction m as [|m IH]; intros f.
  - simpl. by rewrite GFAdd_0_r, GFAdd_0_l.
  - change (gsum f (S (S m))) with (GFAdd (f 0%nat) (gsum (λ j, f (S j)) (S m))).
    rewrite IH, GFAdd_assoc. done.
Qed.

Lemma combine_spec L coefficients padded :
  Forall (λ r, length r = L) padded →
  length (combine L coefficients padded) = L ∧
  ∀ b, (b < L)%nat →
    idx (combine L coefficients padded) b = dot (idx coefficients) (column padded b).
Proof.
  intros Hp. assert (∀ b, length (column padded b) = length padded) as Hcl
    by (intros; unfold column; by rewrite length_map).
  unfold combine. setoid_rewrite dot_gsum. setoid_rewrite Hcl.
  assert (length padded ≤ length padded)%nat as Hm by lia. revert Hm.
  generalize (length padded) at 1 3 4 5. intros m. induction m as [|m IH]; intros Hm.
  - simpl. split; [by rewrite length_replicate|]. intros b Hb.
    unfold idx. by rewrite nth_lookup, lookup_replicate_2.
  - rewrite seq_S, foldl_app. cbn [foldl Nat.add]. destruct IH as [IHl IH]; [lia|].
    destruct (lookup_lt_is_Some_2 padded m ltac:(lia)) as [r Hr].
    assert (length r = L) as Hrl by (rewrite Forall_lookup in Hp; by eapply Hp).
    assert (∀ b, idx (column padded b) m = idx r b) as Hcol
      by (intros b; by apply idx_lookup, column_lookup).
    rewrite nth_lookup, Hr. change (default [] (Some r)) with r.
    destruct (Z.eqb_spec (idx coefficients m) 0) as [E|E].
    + split; [done|]. intros b Hb. rewrite gsum_snoc, IH, E by done. by rewrite GFMul_0_l, GFAdd_0_r.
    + split; [by rewrite length_zip_with, IHl, Hrl, Nat.min_id|]. intros b Hb.
      rewrite gsum_snoc, <- IH, Hcol by done. apply (idx_zip_with (λ p x, _)); lia.
Qed.

Lemma pad_to_length n seg : length (pad_to n seg) = n.
Proof. unfold pad_to. rewrite copy_at_length by lia. apply length_replicate. Qed.

Lemma pad_to_eq n seg : (length seg ≤ n)%nat → pad_to n seg = seg ++ replicate (n - length seg) 0.
Proof.
  intros H. unfold pad_to, copy_at. rewrite length_replicate, Nat.sub_0_r, (take_ge seg) by lia.
  simpl. by rewrite drop_replicate.
Qed.

Lemma bytes_ok_replicate n : bytes_ok (replicate n 0).
Proof. apply Forall_replicate. by unfold byte_ok. Qed.

Lemma pad_to_ok n seg : bytes_ok seg → bytes_ok (pad_to n seg).
Proof.
  intros H. unfold pad_to, copy_at. rewrite !bytes_ok_app.
  auto using bytes_ok_take, bytes_ok_drop, bytes_ok_replicate.
Qed.

Lemma max_len_fold (segments : list (list Z)) : ∀ s0,
  (s0 ≤ foldl (λ s seg, if (s <? length seg)%nat then length seg else s) s0 segments)%nat ∧
  Forall (λ seg, (length seg ≤
    foldl (λ s seg, if (s <? length seg)%nat then length seg else s) s0 segments)%nat) segments.
Proof.
  induction segments as [|seg segs IH]; intros s0; cbn [foldl]; [split; [lia|constructor]|].
  destruct (IH (if (s0 <? length seg)%nat then length seg else s0)) as [H1 H2].
  destruct (Nat.ltb_spec s0 (length seg)); (split; [lia|constructor; [lia|done]]).
Qed.

Lemma max_len_bound segments : Forall (λ seg, (length seg ≤ max_len segments)%nat) segments.
Proof. apply max_len_fold. Qed.

Lemma fix_zero_length c : length (fix_zero c) = length c.
Proof. unfold fix_zero. case_if; [by rewrite length_insert|done]. Qed.

Lemma fix_zero_ok c : bytes_ok c → bytes_ok (fix_zero c).
Proof. intros H. unfold fix_zero. case_if; [|done]. apply Forall_insert; [done|by unfold byte_ok]. Qed.

Lemma fix_zero_nonzero c : c ≠ [] → ∃ j, idx (fix_zero c) j ≠ 0.
Proof.
  intros Hc. unfold fix_zero. destruct (forallb (Z.eqb 0) c) eqn:E.
  - exists 0%nat. by destruct c.
  - apply not_true_iff_false in E. rewrite forallb_forall in E.
    destruct (decide (Exists (λ x, x ≠ 0) c)) as [Hex|Hn].
    + apply Exists_exists in Hex as (x & Hx & H0). apply list_elem_of_lookup in Hx as [j Hj].
      exists j. by rewrite (idx_lookup _ _ _ Hj).
    + exfalso. apply E. intros x Hx. apply Z.eqb_eq. apply list_elem_of_In in Hx.
      apply not_Exists_Forall in Hn; [|apply _]. rewrite Forall_forall in Hn.
      specialize (Hn x Hx). destruct (decide (x = 0)); [done|]. exfalso. by apply Hn.
Qed.

Lemma packet_count_ge k redundancy : (k ≤ packet_count k redundancy)%nat.
Proof. unfold packet_count. case_if; zbool; lia. Qed.

(** ** A generation across a lossy, duplicating, reordering network *)

Section Transfer.
Context (randBytes : nat → nat → list Z).
Hypothesis randBytes_fills : ∀ i k, length (randBytes i k) = k ∧ bytes_ok (randBytes i k).

Context (genID : Z) (hash : list Z) (segments : list (list Z)) (redundancy : float64).
Let k := length segments.
Let L := max_len segments.
Let padded := map (pad_to L) segments.
Let sent := EncodeGeneration randBytes genID hash segments redundancy.

(** A packet carries a full row of coefficients and its combination. *)
Definition honest (p : RLNCCodedPacket) : Prop :=
  length (Coefficients p) = k ∧ bytes_ok (Coefficients p) ∧
  length (Payload p) = L ∧ bytes_ok (Payload p) ∧
  ∀ b, (b < L)%nat → idx (Payload p) b = dot (idx (Coefficients p)) (column padded b).

Hypothesis segments_ok : Forall bytes_ok segments.

Lemma padded_pwf : pwf k L padded.
Proof using segments_ok.
  split; [unfold padded; by rewrite length_map|]. unfold padded. apply Forall_map.
  eapply Forall_impl; [apply segments_ok|]. intros seg Hs. simpl.
  split; [apply pad_to_length|by apply pad_to_ok].
Qed.

Lemma bytes_ok_idx l : (∀ b, (b < length l)%nat → byte_ok (idx l b)) → bytes_ok l.
Proof.
  intros H. apply Forall_lookup. intros i x Hx. rewrite <- (idx_lookup _ _ _ Hx).
  apply H. by eapply lookup_lt_Some.
Qed.

Lemma column_ok X b : Forall bytes_ok X → bytes_ok (column X b).
Proof. intros H. apply Forall_map. eapply Forall_impl; [apply H|]. intros x Hx. by apply idx_ok. Qed.

Lemma sent_honest : Forall honest sent.
Proof using randBytes_fills segments_ok.
  unfold sent, EncodeGeneration. fold k L padded.
  destruct (Nat.eqb_spec k 0); [constructor|]. apply Forall_map, Forall_forall. intros i _.
  destruct (randBytes_fills i k) as [Hl Hb]. destruct padded_pwf as [Hpl Hpf].
  destruct (combine_spec L (fix_zero (randBytes i k)) padded) as [Hcl Hc].
  { eapply Forall_impl; [apply Hpf|]. by intros r [? _]. }
  split_and!; cbn [Coefficients Payload]; [by rewrite fix_zero_length|by apply fix_zero_ok|done| |done].
  apply bytes_ok_idx. rewrite Hcl. intros b Hlt. rewrite Hc by done. apply dot_ok.
  - intros j Hj. by apply idx_ok, fix_zero_ok.
  - apply column_ok. eapply Forall_impl; [apply Hpf|]. by intros r [_ ?].
Qed.

(** Collecting packets before any decode keeps them all, in arrival order. *)
Lemma add_packets recv g :
  gDecoded g = false →
  foldl (λ g p, (AddPacket g p).2) g recv =
  MkRLNCGeneration (gID g) (gK g) (gPayloadSize g) (gReceived g ++ recv) false (gDecodedData g).
Proof.
  revert g. induction recv as [|p recv IH]; intros g Hg; cbn [foldl].
  - rewrite app_nil_r. destruct g; simpl in *. by subst.
  - unfold AddPacket at 2. rewrite Hg. cbn [snd]. rewrite IH by done. cbn. by rewrite <- app_assoc.
Qed.

Lemma received_pwf recv : Forall honest recv → pwf (length recv) L (map Payload recv).
Proof.
  intros H. split; [apply length_map|]. apply Forall_map. eapply Forall_impl; [apply H|].
  intros p (_ & _ & ? & ? & _). done.
Qed.

Lemma received_matrix recv :
  Forall honest recv →
  ∃ m, set_rows k (NewGFMatrix (length recv) k) 0 recv = Some m ∧ wf (length recv) k m ∧
    (∀ i p v, recv !! i = Some p → length v = k → dot (Get m i) v = dot (idx (Coefficients p)) v).
Proof.
  intros H.
  destruct (set_rows_spec (length recv) k recv (NewGFMatrix (length recv) k) 0) as (m & E & Hw & Hg).
  - split_and!; [done..| |]; cbn; [apply length_replicate|apply bytes_ok_replicate].
  - lia.
  - eapply Forall_impl; [apply H|]. intros p (? & ? & _). split; [lia|done].
  - exists m. split; [done|]. split; [done|]. intros i p v Hp Hv. apply dot_ext. intros j Hj.
    rewrite Hg by (lia || by eapply lookup_lt_Some). by rewrite Nat.sub_0_r, Hp.
Qed.

(** Only the zero vector is orthogonal to every received coefficient row. *)
Definition rows_independent (recv : list RLNCCodedPacket) : Prop :=
  ∀ v, length v = k → bytes_ok v →
    Forall (λ p, dot (idx (Coefficients p)) v = 0) recv → v = replicate k 0.

Lemma rows_independent_matrix recv m :
  wf (length recv) k m →
  (∀ i p v, recv !! i = Some p → length v = k → dot (Get m i) v = dot (idx (Coefficients p)) v) →
  independent m ↔ rows_independent recv.
Proof.
  intros (Hr & Hc & _) Hg. unfold independent, rows_independent, solves. rewrite Hr, Hc.
  split; intros H v Hl Hv Hs; apply H; try done.
  - intros i Hi. destruct (lookup_lt_is_Some_2 recv i Hi) as [p Hp]. rewrite (Hg i p) by done.
    rewrite Forall_lookup in Hs. by eapply Hs.
  - apply Forall_lookup. intros i p Hp. rewrite <- (Hg i p) by done.
    apply Hs. by eapply lookup_lt_Some.
Qed.

Lemma received_coded recv m :
  Forall honest recv → wf (length recv) k m →
  (∀ i p v, recv !! i = Some p → length v = k → dot (Get m i) v = dot (idx (Coefficients p)) v) →
  coded m (map Payload recv) padded L.
Proof.
  intros H (Hr & _) Hg b Hb i Hi. rewrite Hr in Hi.
  destruct (lookup_lt_is_Some_2 recv i Hi) as [p Hp].
  rewrite (Hg i p) by (try done; unfold column, padded; by rewrite !length_map).
  rewrite Forall_lookup in H. destruct (H i p Hp) as (_ & _ & _ & _ & Hd).
  rewrite <- Hd by done. unfold pcol. rewrite nth_lookup. change (map ?f ?l) with (f <$> l).
  by rewrite list_lookup_fmap, Hp.
Qed.

Lemma TryDecode_honest recv g :
  (1 ≤ k)%nat → Forall honest recv →
  gDecoded g = false → gK g = k → gReceived g = recv →
  match TryDecode g with
  | (Ok R, g') => (k ≤ length recv)%nat ∧ rows_independent recv ∧ R = padded ∧
      gDecoded g' = true ∧ gDecodedData g' = padded
  | (Err e, g') => ¬ ((k ≤ length recv)%nat ∧ rows_independent recv) ∧ g' = g ∧
      ∃ c, e = ErrRLNCNotDecodable c
  end.
Proof using segments_ok.
  intros Hk H Hd HK HR. unfold TryDecode. rewrite Hd, HK, HR.
  destruct (Nat.ltb_spec (length recv) k) as [Hlt|Hle].
  { split; [lia|]. split; [done|by eexists]. }
  destruct (received_matrix recv H) as (m & -> & Hw & Hg).
  pose proof (received_pwf recv H) as Hpl.
  pose proof (GaussianEliminate_rank m _ _ _ _ Hw Hpl ltac:(lia)) as Hrank.
  rewrite (rows_independent_matrix recv m Hw Hg) in Hrank.
  pose proof (GaussianEliminate_run m _ _ _ _ Hw Hpl ltac:(lia)) as Hrun.
  destruct (GaussianEliminate m (map Payload recv)) as [R|e] eqn:E.
  - assert (R = padded) as ->.
    { eapply (GaussianEliminate_sound m); [done|done|apply padded_pwf|done| |done].
      by apply (received_coded recv). }
    split; [done|]. split; [apply Hrank; eauto|]. done.
  - destruct Hrun as (c & _ & _ & -> & _). split; [|by eauto].
    intros [_ Hi]. apply Hrank in Hi as [R HR']. done.
Qed.

End Transfer.

(** C31: a generation encoded from [segments], whatever subset of its coded
    packets arrives, in whatever order and with whatever repetitions: decoding
    succeeds exactly when at least [k] packets arrived and their coefficient
    rows have full rank; it then returns the source segments (zero-padded to
    the longest), remembers them, and returns them again however many packets
    follow; otherwise it reports "not decodable" and leaves the generation as
    it was. It never panics. *)
Theorem rlnc_transfer randBytes genID hash segments redundancy id size recv :
  (∀ i k, length (randBytes i k) = k ∧ bytes_ok (randBytes i k)) →
  segments ≠ [] → Forall bytes_ok segments →
  Forall (λ p, p ∈ EncodeGeneration randBytes genID hash segments redundancy) recv →
  let g := foldl (λ g p, (AddPacket g p).2) (NewRLNCGeneration id (length segments) size) recv in
  let original := map (λ seg, seg ++ replicate (max_len segments - length seg) 0) segments in
  match TryDecode g with
  | (Ok R, g') => (length segments ≤ length recv)%nat ∧ rows_independent segments recv ∧
      R = original ∧ ∀ later, TryDecode (foldl (λ g p, (AddPacket g p).2) g' later) = (Ok original, g')
  | (Err e, g') => ¬ ((length segments ≤ length recv)%nat ∧ rows_independent segments recv) ∧
      g' = g ∧ ∃ c, e = ErrRLNCNotDecodable c
  end.
Proof.
  intros Hrnd Hne Hok Hrecv. cbv zeta.
  assert (map (λ seg, seg ++ replicate (max_len segments - length seg) 0) segments
          = map (pad_to (max_len segments)) segments) as ->.
  { apply map_ext_in. intros seg Hs. symmetry. apply pad_to_eq.
    pose proof (max_len_bound segments) as Hb. rewrite Forall_forall in Hb.
    apply Hb. by apply list_elem_of_In. }
  rewrite add_packets by done. cbn [app gReceived NewRLNCGeneration gID gK gPayloadSize gDecodedData].
  match goal with |- context [TryDecode ?g] =>
    pose proof (TryDecode_honest segments Hok recv g) as H end.
  ospecialize* H; [destruct segments; [done|simpl; lia]| |done..|].
  { pose proof (sent_honest randBytes Hrnd genID hash segments redundancy Hok) as Hs.
    rewrite Forall_forall in Hs. eapply Forall_impl; [apply Hrecv|]. intros p Hp. by apply Hs. }
  destruct (TryDecode _) as [[R|e] g']; [|done].
  destruct H as (H1 & H2 & H3 & H4 & H5). split_and!; [done..|]. intros later.
  assert (foldl (λ g p, (AddPacket g p).2) g' later = g') as ->.
  { clear -H4. induction later as [|p later IH]; [done|]. cbn [foldl]. unfold AddPacket at 2.
    by rewrite H4. }
  unfold TryDecode. by rewrite H4, H5.
Qed.

Definition sample_rand (i k : nat) : list Z := map (λ j, u8 (Z.of_nat (i * j) + 1)) (seq 0 k).

Definition sample_sent : list RLNCCodedPacket :=
  EncodeGeneration sample_rand 7 (replicate 32 0) [[1; 2; 3]; [4; 5]] (f64_lit 3 2).

Definition sample_recv : list RLNCCodedPacket :=
  match sample_sent with p0 :: p1 :: p2 :: _ => [p2; p2; p1] | _ => [] end.

Definition sample_generation : RLNCGeneration :=
  foldl (λ g p, (AddPacket g p).2) (NewRLNCGeneration 7 (length [[1; 2; 3]; [4; 5]]) 3) sample_recv.

Lemma sample_recv_sent : Forall (λ p, p ∈ sample_sent) sample_recv.
Proof.
  unfold sample_recv. destruct sample_sent as [|p0 [|p1 [|p2 l]]]; [constructor..|].
  repeat constructor; set_solver.
Qed.

Lemma sample_rand_fills i k : length (sample_rand i k) = k ∧ bytes_ok (sample_rand i k).
Proof.
  unfold sample_rand. rewrite length_map, length_seq. split; [done|].
  apply Forall_map, Forall_forall. intros. apply u8_range.
Qed.

(** Three packets are sent for two segments; two arrive, reordered and with a
    duplicate, and the segments come out. *)
Lemma rlnc_transfer_witness :
  (TryDecode sample_generation).1 = Ok [[1; 2; 3]; [4; 5; 0]] ∧
  rows_independent [[1; 2; 3]; [4; 5]] sample_recv.
Proof.
  assert (is_ok (TryDecode sample_generation).1 = true) as Hok by (vm_compute; reflexivity).
  pose proof (rlnc_transfer sample_rand 7 (replicate 32 0) [[1; 2; 3]; [4; 5]] (f64_lit 3 2) 7 3
    sample_recv sample_rand_fills ltac:(discriminate)
    ltac:(repeat constructor; unfold byte_ok; lia) sample_recv_sent) as H.
  cbv zeta in H. fold sample_generation in H.
  destruct (TryDecode sample_generation) as [[R|e] g']; [|discriminate Hok].
  destruct H as (_ & Hi & -> & _). split; [reflexivity|exact Hi].
Defined.

End RlncResource.
