(* ===== verification/Bundle.v ===== *)
(** DTN bundle fragmentation, [internal/protocol/bundle.go]: the 25-byte header,
    the splitter and the reassembly buffer.  [crypto/rand] and [time.Now] are
    arguments. *)
From S2P Require Import Prelude.

Module Bundle.

Definition BundleVersion : Z := 1.
Definition BundleHeaderLen : nat := 25.
Definition MaxBundleFragments : Z := 65535.

Record BundleHeader := MkBundleHeader {
  hVersion : Z;
  BundleID : list Z;
  FragIndex : Z;
  FragTotal : Z;
  TotalSize : Z;
}.

Inductive bundle_error :=
| HeaderTooShort
| BadVersion
| ZeroFragTotal
| IndexOutOfRange
| MTUTooSmall
| PayloadTooLarge
| TooManyFragments
| BufferFull
| TotalSizeMismatch
| FragTotalMismatch
| MissingFragment (i : Z)
| SizeMismatch.

Definition MarshalBundleHeader (h : BundleHeader) : list Z :=
  let buf := replicate BundleHeaderLen 0 in
  let buf := <[0%nat := hVersion h]> buf in
  let buf := copy_at 1 (take 16 (BundleID h)) buf in
  let buf := copy_at 17 (le_put 2 (FragIndex h)) buf in
  let buf := copy_at 19 (le_put 2 (FragTotal h)) buf in
  copy_at 21 (le_put 4 (TotalSize h)) buf.

Definition UnmarshalBundleHeader (data : list Z) : result bundle_error BundleHeader :=
  if (length data <? BundleHeaderLen)%nat then Err HeaderTooShort
  else if negb (idx data 0 =? BundleVersion) then Err BadVersion
  else
    let h := MkBundleHeader (idx data 0) (sub 1 17 data) (le_get (sub 17 19 data))
               (le_get (sub 19 21 data)) (le_get (sub 21 25 data)) in
    if FragTotal h =? 0 then Err ZeroFragTotal
    else if FragTotal h <=? FragIndex h then Err IndexOutOfRange
    else Ok h.

Definition IsBundleFragment (data : list Z) : bool :=
  (BundleHeaderLen <=? length data)%nat && (idx data 0 =? BundleVersion).

(** The version-4 UUID bits set on the random id. *)
Definition uuid4 (id : list Z) : list Z :=
  let id := <[6%nat := Z.lor (Z.land (idx id 6) 15) 64]> id in
  <[8%nat := Z.lor (Z.land (idx id 8) 63) 128]> id.

(** [random] is the 16 bytes [rand.Read] returns. *)
Definition FragmentBundle (random payload : list Z) (mtu : Z)
  : result bundle_error (list Z * list (list Z)) :=
  if mtu <=? Z.of_nat BundleHeaderLen then Err MTUTooSmall
  else
    let maxPayloadPerFrag := mtu - Z.of_nat BundleHeaderLen in
    let payloadLen := Zlen payload in
    if (payloadLen <? 0) || (4294967295 <? payloadLen) then Err PayloadTooLarge
    else
      let totalSize := u32 payloadLen in
      let fragCount := (payloadLen + maxPayloadPerFrag - 1) / maxPayloadPerFrag in
      let fragCount := if fragCount =? 0 then 1 else fragCount in
      if MaxBundleFragments <? fragCount then Err TooManyFragments
      else
        let bundleID := uuid4 random in
        Ok (bundleID,
            map (λ i,
              let fragPayload := chunk_at (Z.to_nat maxPayloadPerFrag) payload i in
              let hdrBytes := MarshalBundleHeader
                (MkBundleHeader BundleVersion bundleID (u16 (Z.of_nat i)) (u16 fragCount) totalSize) in
              let frag := replicate (length hdrBytes + length fragPayload) 0 in
              let frag := copy_at 0 hdrBytes frag in
              copy_at BundleHeaderLen fragPayload frag)
              (seq 0 (Z.to_nat fragCount))).

Record reassemblyState := MkState {
  totalSize : Z;
  fragTotal : Z;
  fragments : gmap Z (list Z);
  createdAt : Z;
}.

Record BundleReassemblyBuffer := MkBuffer {
  bundles : gmap (list Z) reassemblyState;
  maxAge : Z;
  maxSize : Z;
}.

Definition NewBundleReassemblyBuffer (maxAge maxBundles : Z) : BundleReassemblyBuffer :=
  MkBuffer ∅ maxAge maxBundles.

Definition set_bundles (rb : BundleReassemblyBuffer) (b : gmap (list Z) reassemblyState) :=
  MkBuffer b (maxAge rb) (maxSize rb).

(** The loop that appends fragment 0, 1, ... of a complete bundle. *)
Fixpoint append_fragments (m : gmap Z (list Z)) (ixs : list Z) (acc : list Z)
  : result bundle_error (list Z) :=
  match ixs with
  | [] => Ok acc
  | i :: ixs =>
      match m !! i with
      | None => Err (MissingFragment i)
      | Some frag => append_fragments m ixs (acc ++ frag)
      end
  end.

(** [Ok None] is the nil slice of an incomplete bundle. *)
Definition Reassemble (now : Z) (data : list Z) (rb : BundleReassemblyBuffer)
  : result bundle_error (option (list Z)) * BundleReassemblyBuffer :=
  match UnmarshalBundleHeader data with
  | Err e => (Err e, rb)
  | Ok hdr =>
      let fragPayload := drop BundleHeaderLen data in
      let found :=
        match bundles rb !! BundleID hdr with
        | Some st => Some st
        | None =>
            if (0 <? maxSize rb) && (maxSize rb <=? Z.of_nat (size (bundles rb))) then None
            else Some (MkState (TotalSize hdr) (FragTotal hdr) ∅ now)
        end in
      match found with
      | None => (Err BufferFull, rb)
      | Some st =>
          let rb := set_bundles rb (<[BundleID hdr := st]> (bundles rb)) in
          if negb (TotalSize hdr =? totalSize st) then (Err TotalSizeMismatch, rb)
          else if negb (FragTotal hdr =? fragTotal st) then (Err FragTotalMismatch, rb)
          else
            let frags := <[FragIndex hdr := fragPayload]> (fragments st) in
            let st := MkState (totalSize st) (fragTotal st) frags (createdAt st) in
            let rb := set_bundles rb (<[BundleID hdr := st]> (bundles rb)) in
            if Z.of_nat (size frags) <? fragTotal st then (Ok None, rb)
            else
              match append_fragments frags (seqZ 0 (fragTotal st)) [] with
              | Err e => (Err e, rb)
              | Ok result =>
                  let rb := set_bundles rb (delete (BundleID hdr) (bundles rb)) in
                  if negb (Zlen result =? totalSize st) then (Err SizeMismatch, rb)
                  else (Ok (Some result), rb)
              end
      end
  end.

Definition Reap (now : Z) (rb : BundleReassemblyBuffer) : Z * BundleReassemblyBuffer :=
  let old := filter (λ p, maxAge rb < now - createdAt p.2) (bundles rb) in
  (Z.of_nat (size old), set_bundles rb (bundles rb ∖ old)).

Definition PendingCount (rb : BundleReassemblyBuffer) : Z := Z.of_nat (size (bundles rb)).

Definition PendingBundleInfo (bundleID : list Z) (rb : BundleReassemblyBuffer) : Z * Z :=
  match bundles rb !! bundleID with
  | None => (0, 0)
  | Some st => (Z.of_nat (size (fragments st)), fragTotal st)
  end.

(** ** The header *)

Definition header_wf (h : BundleHeader) : Prop :=
  hVersion h = BundleVersion ∧ length (BundleID h) = 16%nat ∧ bytes_ok (BundleID h) ∧
  0 <= FragIndex h < FragTotal h ∧ FragTotal h < 65536 ∧ 0 <= TotalSize h < 4294967296.

Lemma bundle_layout h :
  length (BundleID h) = 16%nat →
  MarshalBundleHeader h =
    hVersion h :: BundleID h ++ le_put 2 (FragIndex h) ++ le_put 2 (FragTotal h) ++
    le_put 4 (TotalSize h).
Proof.
  destruct h as [v id i n s]. cbn [BundleID hVersion FragIndex FragTotal TotalSize]. intros Hid.
  unfold MarshalBundleHeader. cbn [BundleID hVersion FragIndex FragTotal TotalSize].
  do 16 (destruct id as [|? id]; [done|]). destruct id; [|done].
  unfold le_put. reflexivity.
Qed.

Lemma bundle_header_app h rest :
  header_wf h → UnmarshalBundleHeader (MarshalBundleHeader h ++ rest) = Ok h.
Proof.
  intros (Hv & Hid & _ & Hi & Hn & Hs). rewrite bundle_layout by done.
  destruct h as [v id i n s]. cbn [BundleID hVersion FragIndex FragTotal TotalSize] in *. subst v.
  unfold UnmarshalBundleHeader, BundleHeaderLen. rewrite (proj2 (Nat.ltb_ge _ _)) by len.
  change (idx ((BundleVersion :: ?x) ++ ?y) 0) with BundleVersion.
  change (BundleVersion :: ?x) with ([BundleVersion] ++ x). rewrite <- !app_assoc.
  slices. rewrite !le_get_put_small by (change (2 ^ _) with 65536 || change (2 ^ _) with 4294967296; lia).
  cbn [FragTotal FragIndex]. rewrite (proj2 (Z.eqb_neq n 0)), (proj2 (Z.leb_gt n i)) by lia. done.
Qed.

Lemma bundle_header_inv data h :
  bytes_ok data → UnmarshalBundleHeader data = Ok h →
  header_wf h ∧ data = MarshalBundleHeader h ++ drop BundleHeaderLen data.
Proof.
  intros Hok. unfold UnmarshalBundleHeader, BundleHeaderLen.
  destruct (Nat.ltb_spec (length data) 25); [done|].
  destruct (Z.eqb_spec (idx data 0) BundleVersion) as [Hv|]; [cbn [negb]|done].
  cbn [FragTotal FragIndex].
  destruct (Z.eqb_spec (le_get (sub 19 21 data)) 0); [done|].
  destruct (Z.leb_spec (le_get (sub 19 21 data)) (le_get (sub 17 19 data))); [done|]. intros [= <-].
  pose proof (le_get_bound (sub 17 19 data)) as B1. pose proof (le_get_bound (sub 19 21 data)) as B2.
  pose proof (le_get_bound (sub 21 25 data)) as B3. unfold Zlen in B1, B2, B3.
  rewrite sub_length in B1, B2, B3 by lia.
  change (2 ^ _) with 65536 in B1, B2. change (2 ^ _) with 4294967296 in B3.
  assert (length (sub 1 17 data) = 16%nat) as L1 by (rewrite sub_length; lia).
  split.
  - unfold header_wf. cbn [BundleID hVersion FragIndex FragTotal TotalSize].
    specialize (B1 (bytes_ok_sub _ _ _ Hok)). specialize (B2 (bytes_ok_sub _ _ _ Hok)).
    specialize (B3 (bytes_ok_sub _ _ _ Hok)). split_and!; auto with hub; lia.
  - rewrite bundle_layout by done. cbn [BundleID hVersion FragIndex FragTotal TotalSize].
    rewrite !le_put_get by (auto with hub; rewrite sub_length; lia).
    rewrite <- (drop_0 data) at 1. rewrite (drop_idx data 0) by lia. cbn [app]. f_equal.
    rewrite (drop_sub 1 17), (drop_sub 17 19), (drop_sub 19 21), (drop_sub 21 25) by lia.
    by rewrite <- !app_assoc.
Qed.

(** ** Index maps *)

Definition keys_below (n : Z) (m : gmap Z (list Z)) : Prop := ∀ i, is_Some (m !! i) → 0 <= i < n.

Lemma seqZ_set_size n : 0 <= n → size (list_to_set (seqZ 0 n) : gset Z) = Z.to_nat n.
Proof. intros. rewrite size_list_to_set by apply NoDup_seqZ. by rewrite length_seqZ. Qed.

Lemma keys_below_dom n m : keys_below n m → dom m ⊆ (list_to_set (seqZ 0 n) : gset Z).
Proof.
  intros H i Hi. apply elem_of_dom, H in Hi. apply elem_of_list_to_set, elem_of_seqZ. lia.
Qed.

(** As many keys below [n] as [n] means that all are there. *)
Lemma keys_below_full n m :
  0 <= n → keys_below n m → (n <= Z.of_nat (size m) ↔ ∀ i, 0 <= i < n → is_Some (m !! i)).
Proof.
  intros Hn Hk. pose proof (keys_below_dom n m Hk) as Hsub. rewrite <- size_dom. split.
  - intros Hs i Hi. apply elem_of_dom.
    rewrite (set_subseteq_size_eq (dom m) (list_to_set (seqZ 0 n)) Hsub).
    + apply elem_of_list_to_set, elem_of_seqZ. lia.
    + rewrite seqZ_set_size by done. lia.
  - intros H. assert ((list_to_set (seqZ 0 n) : gset Z) ⊆ dom m) as Hsub'.
    { intros i Hi. apply elem_of_list_to_set, elem_of_seqZ in Hi. apply elem_of_dom, H. lia. }
    apply subseteq_size in Hsub'. rewrite seqZ_set_size in Hsub' by done. lia.
Qed.

Lemma append_fragments_all m ixs acc :
  (∀ i, i ∈ ixs → is_Some (m !! i)) →
  append_fragments m ixs acc = Ok (acc ++ concat (map (λ i, default [] (m !! i)) ixs)).
Proof.
  revert acc. induction ixs as [|i ixs IH]; intros acc H; simpl; [by rewrite app_nil_r|].
  destruct (H i) as [x Hx]; [set_solver|]. rewrite Hx. simpl.
  rewrite IH by set_solver. by rewrite <- app_assoc.
Qed.

(** ** The buffer's invariant *)

Definition state_ok (st : reassemblyState) : Prop :=
  0 < fragTotal st < 65536 ∧ keys_below (fragTotal st) (fragments st) ∧
  Z.of_nat (size (fragments st)) < fragTotal st.

Definition buffer_ok (rb : BundleReassemblyBuffer) : Prop :=
  map_Forall (λ _ st, state_ok st) (bundles rb) ∧
  (0 < maxSize rb → Z.of_nat (size (bundles rb)) <= maxSize rb).

Definition fresh (now : Z) (hdr : BundleHeader) : reassemblyState :=
  MkState (TotalSize hdr) (FragTotal hdr) ∅ now.

Definition full (rb : BundleReassemblyBuffer) : bool :=
  (0 <? maxSize rb) && (maxSize rb <=? Z.of_nat (size (bundles rb))).

(** The entry a fragment is stored in: the bundle's, or a new one. *)
Definition entry (now : Z) (hdr : BundleHeader) (rb : BundleReassemblyBuffer)
  : option reassemblyState :=
  match bundles rb !! BundleID hdr with
  | Some st => Some st
  | None => if full rb then None else Some (fresh now hdr)
  end.

Definition stored (hdr : BundleHeader) (payload : list Z) (st : reassemblyState) : reassemblyState :=
  MkState (totalSize st) (fragTotal st) (<[FragIndex hdr := payload]> (fragments st)) (createdAt st).

Definition consistent (hdr : BundleHeader) (st : reassemblyState) : Prop :=
  TotalSize hdr = totalSize st ∧ FragTotal hdr = fragTotal st.

Definition joined (st : reassemblyState) : list Z :=
  concat (map (λ i, default [] (fragments st !! i)) (seqZ 0 (fragTotal st))).

Lemma stored_keys hdr payload st :
  header_wf hdr → consistent hdr st → keys_below (fragTotal st) (fragments st) →
  keys_below (fragTotal st) (fragments (stored hdr payload st)).
Proof.
  intros (_ & _ & _ & Hi & _) [_ Ht] Hk i. cbn. rewrite lookup_insert_is_Some.
  intros [<-|[_ H]]; [lia|by apply Hk].
Qed.

(** Every outcome of [Reassemble] on a well-formed buffer. *)
Lemma Reassemble_cases now data rb hdr :
  UnmarshalBundleHeader data = Ok hdr → header_wf hdr →
  (∀ st, entry now hdr rb = Some st → 0 < fragTotal st ∧ keys_below (fragTotal st) (fragments st)) →
  Reassemble now data rb =
    match entry now hdr rb with
    | None => (Err BufferFull, rb)
    | Some st =>
        if decide (consistent hdr st) then
          let st' := stored hdr (drop BundleHeaderLen data) st in
          if decide (Z.of_nat (size (fragments st')) < fragTotal st) then
            (Ok None, set_bundles rb (<[BundleID hdr := st']> (bundles rb)))
          else
            (if Zlen (joined st') =? totalSize st then Ok (Some (joined st')) else Err SizeMismatch,
             set_bundles rb (delete (BundleID hdr) (bundles rb)))
        else
          (Err (if TotalSize hdr =? totalSize st then FragTotalMismatch else TotalSizeMismatch),
           set_bundles rb (<[BundleID hdr := st]> (bundles rb)))
    end.
Proof.
  intros Hu Hwf Hst. unfold Reassemble. rewrite Hu. fold (full rb) (fresh now hdr).
  fold (entry now hdr rb). destruct (entry now hdr rb) as [st|] eqn:E; [|done].
  destruct (Hst st eq_refl) as [Ht Hk].
  destruct (Z.eqb_spec (TotalSize hdr) (totalSize st)) as [Hs|Hs]; cbn [negb];
    [|by rewrite decide_False by (intros [? ?]; done)].
  destruct (Z.eqb_spec (FragTotal hdr) (fragTotal st)) as [Hn|Hn]; cbn [negb];
    [|by rewrite decide_False by (intros [? ?]; done)].
  rewrite decide_True by done. cbv zeta. fold (stored hdr (drop BundleHeaderLen data) st).
  change (<[FragIndex hdr:=drop BundleHeaderLen data]> (fragments st))
    with (fragments (stored hdr (drop BundleHeaderLen data) st)).
  set (st' := stored hdr (drop BundleHeaderLen data) st).
  change (fragTotal st') with (fragTotal st). unfold set_bundles; cbn [bundles maxAge maxSize].
  rewrite insert_insert_eq. destruct (Z.ltb_spec (Z.of_nat (size (fragments st'))) (fragTotal st)).
  - by rewrite decide_True.
  - rewrite decide_False by lia. rewrite append_fragments_all.
    + cbn [app]. fold (joined st'). rewrite delete_insert_eq.
      change (totalSize st') with (totalSize st). by destruct (_ =? _).
    + intros i Hi. apply elem_of_seqZ in Hi.
      apply (keys_below_full (fragTotal st)); [lia|by apply stored_keys|done|lia].
Qed.

Lemma entry_ok now hdr rb st :
  header_wf hdr → buffer_ok rb → entry now hdr rb = Some st → state_ok st.
Proof.
  intros (_ & _ & _ & Hi & Hn & _) [Hf _]. unfold entry.
  destruct (bundles rb !! BundleID hdr) as [s|] eqn:E.
  - intros [= <-]. by eapply Hf.
  - destruct (full rb); intros [= <-]. unfold fresh, state_ok. cbn. split; [lia|]. split; [|rewrite map_size_empty; lia].
    intros i [x Hx]. by rewrite lookup_empty in Hx.
Qed.

(** Storing an entry under an id that is present or has room keeps the bound. *)
Lemma entry_size now hdr rb st (st' : reassemblyState) :
  buffer_ok rb → entry now hdr rb = Some st →
  0 < maxSize rb → Z.of_nat (size (<[BundleID hdr := st']> (bundles rb))) <= maxSize rb.
Proof.
  intros [_ Hs] He Hm. specialize (Hs Hm). unfold entry in He. rewrite map_size_insert.
  destruct (bundles rb !! BundleID hdr); [done|]. destruct (full rb) eqn:Ef; [done|].
  unfold full in Ef. rewrite (proj2 (Z.ltb_lt 0 (maxSize rb))) in Ef by done. simpl in Ef. zbool. lia.
Qed.

Lemma Reassemble_ok now data rb :
  bytes_ok data → buffer_ok rb → buffer_ok (Reassemble now data rb).2.
Proof.
  intros Hd Hok. destruct (UnmarshalBundleHeader data) as [hdr|e] eqn:Hu.
  2:{ unfold Reassemble. by rewrite Hu. }
  destruct (bundle_header_inv data hdr Hd Hu) as [Hwf _].
  assert (∀ st, entry now hdr rb = Some st → state_ok st) as Hst
    by (intros st; by apply (entry_ok now hdr rb)).
  rewrite (Reassemble_cases now data rb hdr) by (try done; intros st He; destruct (Hst st He); naive_solver lia).
  destruct (entry now hdr rb) as [st|] eqn:He; [|done].
  destruct (Hst st eq_refl) as (Ht & Hk & Hsz).
  case_decide as Hc; cbv zeta; [case_decide as Hlt|]; cbn [snd]; split; cbn.
  - apply map_Forall_insert_2; [|apply Hok]. split_and!; [apply Ht..| |done].
    by apply (stored_keys hdr _ st).
  - by apply (entry_size now hdr rb st).
  - apply map_Forall_delete, Hok.
  - intros Hm. destruct Hok as [_ Hs]. specialize (Hs Hm).
    pose proof (map_subseteq_size _ _ (delete_subseteq (bundles rb) (BundleID hdr))). lia.
  - apply map_Forall_insert_2; [by apply Hst|apply Hok].
  - by apply (entry_size now hdr rb st).
Qed.

Lemma Reap_ok now rb : buffer_ok rb → buffer_ok (Reap now rb).2.
Proof.
  intros [Hf Hs]. unfold Reap. split; cbn.
  - intros i st H. apply lookup_difference_Some in H as [H _]. by apply (Hf i).
  - intros Hm. specialize (Hs Hm).
    etrans; [|apply Hs]. apply inj_le, map_subseteq_size, map_subseteq_spec.
    intros i st H. by apply lookup_difference_Some in H as [H _].
Qed.

Lemma Reap_spec now rb id :
  bundles (Reap now rb).2 !! id =
    match bundles rb !! id with
    | Some st => if decide (maxAge rb < now - createdAt st) then None else Some st
    | None => None
    end.
Proof.
  unfold Reap, set_bundles. cbn. rewrite lookup_difference, map_lookup_filter.
  destruct (bundles rb !! id) as [st|]; simpl; [|done].
  by case_decide; rewrite ?option_guard_True, ?option_guard_False by done.
Qed.

(** ** What the splitter makes *)

Lemma uuid_bits x :
  byte_ok x → byte_ok (Z.lor (Z.land x 15) 64) ∧ byte_ok (Z.lor (Z.land x 63) 128).
Proof.
  intros Hx. pose proof (zall_spec 256 (λ x, (0 <=? Z.lor (Z.land x 15) 64) &&
    (Z.lor (Z.land x 15) 64 <? 256) && (0 <=? Z.lor (Z.land x 63) 128) &&
    (Z.lor (Z.land x 63) 128 <? 256)) ltac:(vm_compute; reflexivity) x Hx) as H.
  unfold byte_ok. cbv beta in H. zbool. lia.
Qed.

Section Delivery.
Context (random payload : list Z) (mtu : Z) (id : list Z) (frags : list (list Z)).
Hypothesis random_16 : length random = 16%nat ∧ bytes_ok random.
Hypothesis split_ok : FragmentBundle random payload mtu = Ok (id, frags).

Let per : nat := Z.to_nat (mtu - 25).
Let n : nat := length frags.

Definition hdr_of (i : nat) : BundleHeader :=
  MkBundleHeader BundleVersion id (Z.of_nat i) (Z.of_nat n) (Zlen payload).

Lemma uuid4_ok : length (uuid4 random) = 16%nat ∧ bytes_ok (uuid4 random).
Proof using random_16.
  destruct random_16 as [Hl Hb]. unfold uuid4. rewrite !length_insert. split; [done|].
  apply Forall_insert; [apply Forall_insert; [done|]|]; apply uuid_bits, idx_ok; [done|].
  apply Forall_insert; [done|]. by apply uuid_bits, idx_ok.
Qed.

Lemma frag_buffer hdr chunk :
  length hdr = BundleHeaderLen →
  copy_at BundleHeaderLen chunk (copy_at 0 hdr (replicate (length hdr + length chunk) 0)) = hdr ++ chunk.
Proof.
  intros Hl. rewrite replicate_add.
  rewrite (copy_at_eq [] (replicate (length hdr) 0) (replicate (length chunk) 0) hdr);
    [|done|done|by rewrite length_replicate].
  rewrite (copy_at_eq hdr (replicate (length chunk) 0) []);
    [by rewrite app_nil_r|by rewrite app_nil_r|done|by rewrite length_replicate].
Qed.

Lemma split_shape :
  id = uuid4 random ∧ 25 < mtu ∧ (1 ≤ n)%nat ∧ Z.of_nat n <= 65535 ∧ Zlen payload < 4294967296 ∧
  (length payload ≤ n * per)%nat ∧
  frags = map (λ i, MarshalBundleHeader (hdr_of i) ++ chunk_at per payload i) (seq 0 n).
Proof using random_16 split_ok.
  pose proof uuid4_ok as [Hid _]. clear random_16. unfold hdr_of. subst n per.
  revert split_ok. unfold FragmentBundle, MaxBundleFragments.
  change (Z.of_nat BundleHeaderLen) with 25. destruct (Z.leb_spec mtu 25); [done|].
  pose proof (Zlen_nonneg payload). rewrite (proj2 (Z.ltb_ge (Zlen payload) 0)) by lia. cbn [orb].
  destruct (Z.ltb_spec 4294967295 (Zlen payload)); [done|]. rewrite u32_small by lia.
  set (q := (Zlen payload + (mtu - 25) - 1) / (mtu - 25)).
  pose proof (ceil_div_cover (Zlen payload) (mtu - 25) ltac:(lia) ltac:(lia)) as Hq. fold q in Hq.
  assert (0 <= q) by (apply Z.div_pos; lia).
  set (c := if q =? 0 then 1 else q). destruct (Z.ltb_spec 65535 c); [done|]. intros [= <- <-].
  assert (1 <= c /\ q <= c) as [Hc1 Hc2] by (subst c; destruct (Z.eqb_spec q 0); lia).
  rewrite length_map, length_seq, Z2Nat.id by lia.
  split; [done|]. split; [lia|]. split; [lia|]. split; [lia|]. split; [lia|].
  split; [unfold Zlen in *; nia|]. apply map_ext_in. intros i Hi%in_seq.
  rewrite !u16_small by lia. apply frag_buffer. rewrite bundle_layout by done.
  cbn [hVersion BundleID FragIndex FragTotal TotalSize]. unfold BundleHeaderLen. len.
Qed.

Lemma hdr_of_wf i : (i < n)%nat → header_wf (hdr_of i).
Proof using random_16 split_ok.
  destruct split_shape as (Hid & _ & _ & Hn & Hp & _). destruct uuid4_ok as [Hl Hb].
  rewrite <- Hid in Hl, Hb. pose proof (Zlen_nonneg payload). intros Hi.
  unfold header_wf. cbn. split_and!; done || lia.
Qed.

Lemma frag_parse i f :
  frags !! i = Some f →
  UnmarshalBundleHeader f = Ok (hdr_of i) ∧ drop BundleHeaderLen f = chunk_at per payload i.
Proof using random_16 split_ok.
  intros Hf. assert (i < n)%nat as Hi by (by eapply lookup_lt_Some).
  pose proof (hdr_of_wf i Hi) as Hw. destruct split_shape as (_ & _ & _ & _ & _ & _ & E).
  rewrite E in Hf. change (map ?g ?l) with (g <$> l) in Hf.
  rewrite list_lookup_fmap, lookup_seq_lt in Hf by done. apply (inj Some) in Hf as <-.
  change (0 + i)%nat with i.
  split; [by apply bundle_header_app|]. apply drop_app_length'.
  destruct Hw as (_ & Hl & _). rewrite bundle_layout by done. unfold BundleHeaderLen. len.
Qed.

(** The entry after the fragments with indices [js] have been stored. *)
Definition tracks (js : list nat) (st : reassemblyState) : Prop :=
  totalSize st = Zlen payload ∧ fragTotal st = Z.of_nat n ∧
  ∀ i, fragments st !! i =
    if decide (0 <= i ∧ Z.to_nat i ∈ js) then Some (chunk_at per payload (Z.to_nat i)) else None.

Definition complete (js : list nat) : Prop := ∀ i, (i < n)%nat → i ∈ js.

Lemma tracks_keys js st : Forall (λ j, (j < n)%nat) js → tracks js st → keys_below (fragTotal st) (fragments st).
Proof.
  intros Hj (_ & -> & Hf) i. rewrite Hf. case_decide as H; [|by intros [? ?]].
  intros _. rewrite Forall_forall in Hj. destruct H as [? H]. apply Hj in H. lia.
Qed.

Lemma tracks_complete js st :
  Forall (λ j, (j < n)%nat) js → tracks js st →
  (Z.of_nat (size (fragments st)) < fragTotal st ↔ ¬ complete js).
Proof.
  intros Hj Ht. pose proof (tracks_keys js st Hj Ht) as Hk. destruct Ht as (_ & Hn & Hf).
  pose proof (keys_below_full (fragTotal st) (fragments st) ltac:(lia) Hk) as H.
  assert (complete js ↔ ∀ i, 0 <= i < fragTotal st → is_Some (fragments st !! i)) as Hiff;
    [|rewrite Hiff, <- H; lia].
  split.
  - intros Hc i Hi. rewrite Hf, decide_True; [by eexists|]. split; [lia|]. apply Hc. lia.
  - intros Ha i Hi. specialize (Ha (Z.of_nat i) ltac:(lia)). rewrite Hf, Nat2Z.id in Ha.
    case_decide as Hd; [apply Hd|]. by destruct Ha.
Qed.

Lemma tracks_joined js st : complete js → tracks js st → joined st = payload.
Proof using random_16 split_ok.
  intros Hc (_ & Hn & Hf). destruct split_shape as (_ & _ & _ & _ & _ & Hcov & _).
  unfold joined. rewrite Hn. etrans; [|apply (concat_chunks_all per payload n Hcov)]. f_equal.
  unfold seqZ. rewrite Nat2Z.id. change (?f <$> ?l) with (map f l). rewrite map_map.
  apply map_ext_in. intros i Hi%in_seq. rewrite Hf, Z.add_0_r, Nat2Z.id.
  rewrite decide_True; [done|]. split; [lia|]. apply Hc. lia.
Qed.

Lemma tracks_stored js j st f :
  tracks js st → frags !! j = Some f →
  tracks (js ++ [j]) (stored (hdr_of j) (drop BundleHeaderLen f) st).
Proof using random_16 split_ok.
  intros (Hs & Hn & Hf) Hj. split; [done|]. split; [done|]. intros i. cbn.
  destruct (frag_parse j f Hj) as [_ E]. unfold BundleHeaderLen in E. rewrite E.
  destruct (decide (i = Z.of_nat j)) as [->|Hne].
  - rewrite lookup_insert_eq, decide_True, Nat2Z.id; [done|]. split; [lia|]. set_solver by lia.
  - rewrite lookup_insert_ne, Hf by done.
    destruct (decide (0 <= i ∧ Z.to_nat i ∈ js)) as [[H1 H2]|H].
    + rewrite decide_True; [done|]. split; [done|]. set_solver.
    + rewrite decide_False; [done|]. intros [H1 H2]. apply H. split; [done|].
      apply elem_of_app in H2 as [?|H2]; [done|]. apply list_elem_of_singleton in H2. lia.
Qed.

Lemma tracks_fresh now j : tracks [] (fresh now (hdr_of j)).
Proof.
  split; [done|]. split; [done|]. intros i. cbn. rewrite lookup_empty, decide_False; [done|].
  set_solver.
Qed.

Definition with_entry (rb0 : BundleReassemblyBuffer) (st : reassemblyState) : BundleReassemblyBuffer :=
  set_bundles rb0 (<[id := st]> (bundles rb0)).

(** [rb] is [rb0], which knows nothing of the bundle, plus what [js] brought. *)
Definition holds (js : list nat) (rb rb0 : BundleReassemblyBuffer) : Prop :=
  bundles rb0 !! id = None ∧ maxSize rb0 <= 0 ∧
  (js = [] ∧ rb = rb0 ∨ ∃ st, tracks js st ∧ rb = with_entry rb0 st).

Lemma not_full rb : maxSize rb <= 0 → full rb = false.
Proof. intros H. unfold full. by rewrite (proj2 (Z.ltb_ge 0 (maxSize rb))). Qed.

Lemma holds_entry now js j rb rb0 :
  holds js rb rb0 →
  ∃ st, entry now (hdr_of j) rb = Some st ∧ tracks js st ∧
    ∀ st', set_bundles rb (<[id := st']> (bundles rb)) = with_entry rb0 st' ∧
           set_bundles rb (delete id (bundles rb)) = rb0.
Proof.
  intros (Hn & Hm & [[-> ->]|(st & Ht & ->)]); unfold entry; cbn [BundleID hdr_of].
  - rewrite Hn, not_full by done. eexists; split; [done|]. split; [apply tracks_fresh|].
    intros st'. split; [done|]. rewrite delete_id by done. by destruct rb0.
  - unfold with_entry at 1. cbn [bundles set_bundles]. rewrite lookup_insert_eq.
    exists st. split; [done|]. split; [done|]. intros st'. unfold with_entry, set_bundles. cbn.
    rewrite insert_insert_eq, delete_insert_id by done. split; [done|]. by destruct rb0.
Qed.

Lemma own_step now js j f rb rb0 :
  holds js rb rb0 → Forall (λ j, (j < n)%nat) js → frags !! j = Some f →
  (complete (js ++ [j]) → Reassemble now f rb = (Ok (Some payload), rb0)) ∧
  (¬ complete (js ++ [j]) → ∃ rb', Reassemble now f rb = (Ok None, rb') ∧ holds (js ++ [j]) rb' rb0).
Proof using random_16 split_ok.
  intros Hh Hjs Hf. assert (j < n)%nat as Hj by (by eapply lookup_lt_Some).
  destruct (frag_parse j f Hf) as [Hu _]. pose proof (hdr_of_wf j Hj) as Hw.
  destruct (holds_entry now js j rb rb0 Hh) as (st & He & Ht & Hset).
  pose proof (tracks_stored js j st f Ht Hf) as Ht'.
  set (st' := stored (hdr_of j) (drop BundleHeaderLen f) st) in *.
  destruct (Hset st') as [E1 E2].
  assert (Forall (λ j, (j < n)%nat) (js ++ [j])) as Hjs' by (apply Forall_app; auto).
  rewrite (Reassemble_cases now f rb (hdr_of j) Hu Hw), He.
  2:{ intros s. rewrite He. intros [= <-]. split; [|by apply (tracks_keys js)].
      destruct Ht as (_ & -> & _). lia. }
  rewrite decide_True by (destruct Ht as (? & ? & _); done). cbv zeta. fold st'.
  change (fragTotal st) with (fragTotal st'). change (totalSize st) with (totalSize st').
  cbn [BundleID hdr_of]. rewrite E1, E2. pose proof (tracks_complete _ st' Hjs' Ht') as Hc. split.
  - intros Hcomp. rewrite decide_False by (rewrite Hc; tauto).
    rewrite (tracks_joined _ st' Hcomp Ht'). destruct Ht' as (-> & _). by rewrite Z.eqb_refl.
  - intros Hcomp. rewrite decide_True by (by rewrite Hc). eexists; split; [done|].
    destruct Hh as (? & ? & _). split; [done|]. split; [done|]. right. by exists st'.
Qed.

Definition foreign (data : list Z) : Prop :=
  ∀ h, UnmarshalBundleHeader data = Ok h → BundleID h ≠ id.

Lemma foreign_step now data rb st :
  foreign data → maxSize rb <= 0 →
  Reassemble now data (with_entry rb st) =
    ((Reassemble now data rb).1, with_entry (Reassemble now data rb).2 st).
Proof.
  intros Hfor Hm. unfold Reassemble. destruct (UnmarshalBundleHeader data) as [h|e] eqn:Hu; [|done].
  specialize (Hfor h Hu). fold (fresh now h) (full rb) (full (with_entry rb st)).
  fold (entry now h rb) (entry now h (with_entry rb st)).
  assert (entry now h (with_entry rb st) = entry now h rb) as ->.
  { unfold entry. rewrite !not_full by done. unfold with_entry. cbn [bundles set_bundles].
    by rewrite lookup_insert_ne. }
  destruct (entry now h rb) as [s|]; [|done]. clear Hu Hm.
  assert (∀ b s', <[BundleID h := s']> (<[id := st]> b) = <[id := st]> (<[BundleID h := s']> b))
    as Hi by (intros; by rewrite insert_insert_ne).
  assert (∀ b, delete (BundleID h) (<[id := st]> b) = <[id := st]> (delete (BundleID h) b))
    as Hd by (intros; by rewrite delete_insert_ne).
  unfold set_bundles, with_entry. cbn [set_bundles bundles maxAge maxSize]. rewrite !Hi.
  repeat case_match; cbn [fst snd bundles maxAge maxSize]; rewrite ?Hd; done.
Qed.

Lemma foreign_keeps now data rb :
  foreign data → bundles rb !! id = None → maxSize rb <= 0 →
  bundles (Reassemble now data rb).2 !! id = None ∧ maxSize (Reassemble now data rb).2 <= 0.
Proof.
  intros Hfor Hn Hm. unfold Reassemble. destruct (UnmarshalBundleHeader data) as [h|e] eqn:Hu; [|done].
  specialize (Hfor h Hu). repeat case_match; simpl; rewrite ?lookup_insert_ne, ?lookup_delete_ne, ?lookup_insert_ne by done; done.
Qed.

(** Traffic: a fragment of this bundle by index, or any other datagram, each
    with its arrival time. *)
Definition traffic : Type := Z * (nat + list Z).

Definition datagram (e : traffic) : list Z :=
  match e.2 with inl j => nth j frags [] | inr data => data end.

Definition admissible (e : traffic) : Prop :=
  match e.2 with inl j => (j < n)%nat | inr data => foreign data end.

Definition run (rb : BundleReassemblyBuffer) (es : list traffic) : BundleReassemblyBuffer :=
  foldl (λ rb e, (Reassemble e.1 (datagram e) rb).2) rb es.

Definition own (es : list traffic) : list nat :=
  omap (λ e : traffic, match e.2 with inl j => Some j | inr _ => None end) es.

Definition others (es : list traffic) : list traffic :=
  List.filter (λ e : traffic, match e.2 with inl _ => false | inr _ => true end) es.

Lemma run_cons rb e es : run rb (e :: es) = run (Reassemble e.1 (datagram e) rb).2 es.
Proof. done. Qed.

Lemma holds_run es : ∀ js rb rb0,
  holds js rb rb0 → Forall (λ j, (j < n)%nat) js → Forall admissible es → ¬ complete (js ++ own es) →
  holds (js ++ own es) (run rb es) (run rb0 (others es)) ∧ Forall (λ j, (j < n)%nat) (js ++ own es).
Proof using random_16 split_ok.
  induction es as [|[t [j|data]] es IH]; intros js rb rb0 Hh Hjs Hes Hc.
  - cbn in *. by rewrite app_nil_r in *.
  - apply Forall_cons in Hes as [Hj Hes]. cbn in Hj.
    change (own ((t, inl j) :: es)) with ([j] ++ own es) in *.
    destruct (lookup_lt_is_Some_2 frags j Hj) as [f Hf].
    rewrite !(app_assoc js) in Hc |- *.
    assert (¬ complete (js ++ [j])) as Hc'
      by (intros H; apply Hc; intros i Hi; apply elem_of_app; left; by apply H).
    destruct (proj2 (own_step t js j f rb rb0 Hh Hjs Hf) Hc') as (rb' & Hr & Hh').
    assert (datagram (t, inl j) = f) as Hd by (unfold datagram; cbn; by rewrite nth_lookup, Hf).
    rewrite run_cons, Hd. cbn [fst]. rewrite Hr. cbn [snd].
    change (others ((t, inl j) :: es)) with (others es).
    apply IH; [done| |done|done]. apply Forall_app; auto.
  - apply Forall_cons in Hes as [Hj Hes]. cbn in Hj. change (own ((t, inr data) :: es)) with (own es) in *.
    change (others ((t, inr data) :: es)) with ((t, inr data : nat + list Z) :: others es).
    rewrite !run_cons.
    cbn. apply IH; [|done..]. destruct Hh as (Hn & Hm & Hst).
    destruct (foreign_keeps t data rb0 Hj Hn Hm) as [Hn' Hm']. split; [done|]. split; [done|].
    destruct Hst as [[-> ->]|(st & Ht & ->)]; [by left|right]. exists st. split; [done|].
    by rewrite foreign_step.
Qed.

Lemma delivery es t j rb :
  bundles rb !! id = None → maxSize rb <= 0 → Forall admissible es → (j < n)%nat →
  ¬ complete (own es) →
  (complete (own es ++ [j]) →
     Reassemble t (nth j frags []) (run rb es) = (Ok (Some payload), run rb (others es))) ∧
  (¬ complete (own es ++ [j]) → (Reassemble t (nth j frags []) (run rb es)).1 = Ok None).
Proof using random_16 split_ok.
  intros Hn Hm Hes Hj Hc. destruct (lookup_lt_is_Some_2 frags j Hj) as [f Hf].
  rewrite nth_lookup, Hf. change (default [] (Some f)) with f.
  destruct (holds_run es [] rb rb) as [Hh Hjs]; [|done..|].
  { split; [done|]. split; [done|]. by left. }
  cbn [app] in *. destruct (own_step t _ j f _ _ Hh Hjs Hf) as [H1 H2]. split; [done|].
  intros H. destruct (H2 H) as (rb' & -> & _). done.
Qed.

End Delivery.

(** A payload split by [FragmentBundle], its fragments delivered in any
    order with any repetitions and interleaved with any other traffic (other
    bundles, malformed datagrams): nothing is returned before every index has
    arrived, the payload is returned exactly with the last missing fragment,
    and the buffer is then what the other traffic alone would have made of it. *)
Theorem bundle_any_order random payload mtu id frags es t j rb :
  length random = 16%nat ∧ bytes_ok random → FragmentBundle random payload mtu = Ok (id, frags) →
  bundles rb !! id = None → maxSize rb <= 0 → Forall (admissible id frags) es →
  (j < length frags)%nat → ¬ complete frags (own es) →
  (complete frags (own es ++ [j]) →
     Reassemble t (nth j frags []) (run frags rb es) = (Ok (Some payload), run frags rb (others es))) ∧
  (¬ complete frags (own es ++ [j]) →
     (Reassemble t (nth j frags []) (run frags rb es)).1 = Ok None).
Proof. intros Hr Hs. by apply delivery with random mtu. Qed.

Definition sample_random : list Z := map Z.of_nat (seq 0 16).
Definition sample_frags : list (list Z) :=
  match FragmentBundle sample_random [1; 2; 3; 4; 5] 27 with Ok (_, f) => f | Err _ => [] end.

(** Three fragments arrive as 2, 0, 2 among a foreign bundle's and a short datagram. *)
Definition sample_traffic : list traffic :=
  [(0, inl 2%nat); (0, inr [1; 2]); (1, inl 0%nat);
   (2, inr (MarshalBundleHeader (MkBundleHeader 1 (replicate 16 7) 0 2 9))); (3, inl 2%nat)].

Lemma bundle_any_order_witness :
  (Reassemble 9 (nth 1 sample_frags []) (run sample_frags (NewBundleReassemblyBuffer 60 0) sample_traffic)).1
  = Ok (Some [1; 2; 3; 4; 5]).
Proof.
  erewrite (proj1 (bundle_any_order sample_random [1; 2; 3; 4; 5] 27 (uuid4 sample_random) sample_frags
    sample_traffic 9 1 (NewBundleReassemblyBuffer 60 0) _ _ _ _ _ _ _)); [reflexivity|].
  intros i Hi. change (length sample_frags) with 3%nat in Hi.
  destruct i as [|[|[|i]]]; [set_solver..|lia].
  Unshelve.
  - split; [reflexivity|]. apply (bool_decide_unpack _). vm_compute. exact I.
  - vm_compute. reflexivity.
  - vm_compute. reflexivity.
  - vm_compute. discriminate.
  - repeat constructor; cbn.
    + intros h. vm_compute. discriminate.
    + intros h. vm_compute. intros [= <-]. discriminate.
  - vm_compute. lia.
  - intros H. specialize (H 1%nat ltac:(vm_compute; lia)). set_solver.
Defined.

(** Whatever datagrams arrive, the buffer stays well formed: at most
    [maxSize] bundles when bounded, every kept bundle incomplete with indices
    below its total; so the "missing fragment" error is unreachable, and
    [Reap] drops exactly the bundles older than [maxAge]. *)
Theorem bundle_buffer_invariant now data rb id :
  bytes_ok data → buffer_ok rb →
  buffer_ok (Reassemble now data rb).2 ∧
  (∀ i, (Reassemble now data rb).1 ≠ Err (MissingFragment i)) ∧
  buffer_ok (Reap now rb).2 ∧
  bundles (Reap now rb).2 !! id =
    match bundles rb !! id with
    | Some st => if decide (maxAge rb < now - createdAt st) then None else Some st
    | None => None
    end.
Proof.
  intros Hd Hok. split; [by apply Reassemble_ok|]. split; [|by auto using Reap_ok, Reap_spec].
  intros i. destruct (UnmarshalBundleHeader data) as [hdr|e] eqn:Hu.
  - destruct (bundle_header_inv data hdr Hd Hu) as [Hwf _].
    rewrite (Reassemble_cases now data rb hdr) by (try done; intros st He;
      destruct (entry_ok now hdr rb st Hwf Hok He); naive_solver lia).
    destruct (entry now hdr rb) as [st|]; [|done]. cbv zeta. repeat case_match; done.
  - unfold Reassemble. rewrite Hu. revert Hu. unfold UnmarshalBundleHeader. repeat case_match; naive_solver.
Qed.

Lemma bundle_buffer_invariant_witness :
  buffer_ok (Reassemble 5 (nth 0 sample_frags []) (NewBundleReassemblyBuffer 60 2)).2.
Proof.
  apply (bundle_buffer_invariant 5 (nth 0 sample_frags []) (NewBundleReassemblyBuffer 60 2) []).
  - apply (bool_decide_unpack _). vm_compute. exact I.
  - split; [apply map_Forall_empty|]. intros _. vm_compute. discriminate.
Defined.

(** The bundle header is exact: [UnmarshalBundleHeader] returns [h] exactly
    when [h] is well formed (version 1, 0 <= index < total) and the data starts
    with its 25-byte encoding. *)
Theorem bundle_header_exact data h :
  bytes_ok data →
  UnmarshalBundleHeader data = Ok h ↔
  header_wf h ∧ ∃ rest, data = MarshalBundleHeader h ++ rest.
Proof.
  intros Hd. split.
  - intros H. destruct (bundle_header_inv data h Hd H) as [Hw E]. eauto.
  - intros [Hw [rest ->]]. by apply bundle_header_app.
Qed.

Lemma bundle_header_exact_witness :
  UnmarshalBundleHeader (MarshalBundleHeader (MkBundleHeader 1 (replicate 16 7) 3 9 700) ++ [1; 2])
  = Ok (MkBundleHeader 1 (replicate 16 7) 3 9 700).
Proof.
  apply (bundle_header_exact (MarshalBundleHeader (MkBundleHeader 1 (replicate 16 7) 3 9 700) ++ [1; 2])).
  - apply (bool_decide_unpack _). vm_compute. exact I.
  - split; [|by eexists]. unfold header_wf. cbn. split_and!; try lia; try done.
    apply (bool_decide_unpack _). vm_compute. exact I.
Defined.

End Bundle.
