(* ===== verification/Fec.v ===== *)
(** Forward error correction, [internal/protocol/fec.go] and
    [internal/protocol/fec_profiles.go].  The Reed-Solomon coder
    ([klauspost/reedsolomon]) is a parameter: the record [Encoder] has the three
    methods the code calls, the class [RSCode] states what its documentation
    promises about them. *)
From S2P Require Import Prelude.

Module Fec.

(** ** The Reed-Solomon coder *)

(** Shards are byte slices; a missing shard is [None]; a method that returns a
    Go error returns [None]. *)
Record Encoder := MkEncoder {
  Encode : list (list Z) → option (list (list Z));
  Verify : list (list Z) → option bool;
  Reconstruct : list (option (list Z)) → option (list (list Z));
}.

Definition erased {A} (l : list (option A)) : nat := (length l - filled l)%nat.

(** [l] is [shards] with some of them missing. *)
Definition erasure_of {A} (l : list (option A)) (shards : list A) : Prop :=
  Forall2 (λ o s, o = None ∨ o = Some s) l shards.

(** The documented contract of an encoder for [k] data and [m] parity shards.
    [Encode] is given the data shards followed by [m] buffers of the same size. *)
Class RSCode (k m : nat) (enc : Encoder) := {
  rs_encode data bufs s :
    length data = k → length bufs = m → (1 ≤ s)%nat →
    Forall (λ x, length x = s) data → Forall (λ x, length x = s) bufs →
    ∃ parity, Encode enc (data ++ bufs) = Some (data ++ parity) ∧ length parity = m ∧
      Forall (λ x, length x = s) parity;
  rs_verify shards parity :
    Encode enc shards = Some parity → Verify enc parity = Some true;
  rs_reconstruct bufs shards l :
    Encode enc bufs = Some shards → erasure_of l shards → (erased l ≤ m)%nat →
    Reconstruct enc l = Some shards;
  rs_nothing_missing shards :
    length shards = (k + m)%nat → Reconstruct enc (map Some shards) = Some shards;
}.

(** ** Encoding *)

Definition FECVersion1 : Z := 1.
Definition FECVersion2 : Z := 2.
Definition fecHeaderLenV1 : nat := 5.
Definition fecHeaderLenV2 : nat := 6.
Definition fecFlagInterleaved : Z := 1.
Definition fecOrigLenTrailer : nat := 4.

Record FECEncodeOpts := MkFECEncodeOpts { Interleave : bool; InterleaveDepth : Z }.

Inductive fec_error :=
| BadDataShards | BadParityShards | TooManyShards | CreateCoder | LengthPrefix | EncodeFailed
| ShardTooLarge | ShortHeader | BadVersion | BadCounts | BadShardSize | ShortV2Header | ShortPayload
| ReconstructFailed | NoLengthPrefix | LengthExceeds.

(** The order in which [FECInterleave] and [FECDeinterleave] visit positions:
    for each [d < depth] every [s*depth + d] below [n]. *)
Definition visit (n depth : nat) : list nat :=
  let stride := ((n + depth - 1) / depth)%nat in
  concat (map (λ d, map (λ s, (s * depth + d)%nat) (seq 0 stride)) (seq 0 depth)).

(** [out[idx] = data[src]; idx++] and [out[dst] = data[idx]; idx++]. *)
Definition gather (data : list Z) (st : list Z * nat) (src : nat) : list Z * nat :=
  (<[st.2 := idx data src]> st.1, S st.2).

Definition scatter (data : list Z) (st : list Z * nat) (dst : nat) : list Z * nat :=
  (<[dst := idx data st.2]> st.1, S st.2).

Definition FECInterleave (data : list Z) (depth : Z) : list Z :=
  if (depth <=? 1) || (length data =? 0)%nat then data
  else
    let n := length data in
    let '(out, i) :=
      foldl (λ st src, if (src <? n)%nat then gather data st src else st)
        (replicate n 0, 0%nat) (visit n (Z.to_nat depth)) in
    take i out.

Definition FECDeinterleave (data : list Z) (depth : Z) : list Z :=
  if (depth <=? 1) || (length data =? 0)%nat then data
  else
    let n := length data in
    let '(out, i) :=
      foldl (λ st dst, if (dst <? n)%nat then scatter data st dst else st)
        (replicate n 0, 0%nat) (visit n (Z.to_nat depth)) in
    take n out.

Definition depth_flags (opt : FECEncodeOpts) : Z :=
  if Interleave opt && (0 <? InterleaveDepth opt) then
    let depthEnc := InterleaveDepth opt - 1 in
    let depthEnc := if depthEnc <? 0 then 0 else depthEnc in
    let depthEnc := if 15 <? depthEnc then 15 else depthEnc in
    Z.lor fecFlagInterleaved (Z.land (u8 (Z.shiftl depthEnc 1)) 30)
  else 0.

(** The original length in front, zero padding to a multiple of [k] behind. *)
Definition fec_pad (data : list Z) (k : nat) : list Z :=
  let prefixed := le_put 4 (u32 (Zlen data)) ++ data in
  let rem := (length prefixed mod k)%nat in
  if (rem =? 0)%nat then prefixed else prefixed ++ replicate (k - rem) 0.

Definition FECEncode (New : nat → nat → option Encoder) (data : list Z)
  (dataShards parityShards : Z) (opts : option FECEncodeOpts) : result fec_error (list Z) :=
  if (dataShards <? 1) || (255 <? dataShards) then Err BadDataShards
  else if (parityShards <? 1) || (255 <? parityShards) then Err BadParityShards
  else if 256 <? dataShards + parityShards then Err TooManyShards
  else
    let opt := default (MkFECEncodeOpts false 0) opts in
    let k := Z.to_nat dataShards in
    let m := Z.to_nat parityShards in
    match New k m with
    | None => Err CreateCoder
    | Some enc =>
        if 4294967295 <? Zlen data then Err LengthPrefix
        else
          let padded := fec_pad data k in
          let shardSize := (length padded / k)%nat in
          let shards := map (λ i, sub (i * shardSize) ((i + 1) * shardSize) padded) (seq 0 k)
                          ++ replicate m (replicate shardSize 0) in
          match Encode enc shards with
          | None => Err EncodeFailed
          | Some shards =>
              if 65535 <? Z.of_nat shardSize then Err ShardTooLarge
              else
                let flags := depth_flags opt in
                let out := [FECVersion2; u8 dataShards; u8 parityShards]
                             ++ le_put 2 (u16 (Z.of_nat shardSize)) ++ [flags] ++ concat shards in
                if negb (Z.land flags fecFlagInterleaved =? 0) then
                  Ok (copy_at fecHeaderLenV2
                        (FECInterleave (drop fecHeaderLenV2 out) (InterleaveDepth opt)) out)
                else Ok out
          end
    end.

(** ** Decoding *)

(** Header length and interleave depth (0 when not interleaved). *)
Definition fec_v2_fields (version : Z) (data : list Z) : result fec_error (nat * Z) :=
  if version =? FECVersion2 then
    if (length data <? fecHeaderLenV2)%nat then Err ShortV2Header
    else
      let flags := idx data 5 in
      if negb (Z.land flags fecFlagInterleaved =? 0)
      then Ok (fecHeaderLenV2, Z.land (Z.shiftr flags 1) 15 + 1)
      else Ok (fecHeaderLenV2, 0)
  else Ok (fecHeaderLenV1, 0).

(** Cutting the shard area, after de-interleaving. *)
Definition fec_shards (data : list Z) (headerLen totalShards shardSize : nat) (depth : Z)
  : list (list Z) :=
  let shardData := sub headerLen (headerLen + totalShards * shardSize) data in
  let shardData := if 0 <? depth then FECDeinterleave shardData depth else shardData in
  map (λ i, sub (i * shardSize) ((i + 1) * shardSize) shardData) (seq 0 totalShards).

(** Joining the data shards and cutting at the original length. *)
Definition fec_strip (k : nat) (shards : list (list Z)) : result fec_error (list Z) :=
  let result := concat (take k shards) in
  if (length result <? fecOrigLenTrailer)%nat then Err NoLengthPrefix
  else
    let origLen := le_get (take fecOrigLenTrailer result) in
    let result := drop fecOrigLenTrailer result in
    if Zlen result <? origLen then Err LengthExceeds
    else Ok (take (Z.to_nat origLen) result).

Definition FECDecode (New : nat → nat → option Encoder) (data : list Z) : result fec_error (list Z) :=
  if (length data <? fecHeaderLenV1)%nat then Err ShortHeader
  else
    let version := idx data 0 in
    if negb (version =? FECVersion1) && negb (version =? FECVersion2) then Err BadVersion
    else
      let k := Z.to_nat (idx data 1) in
      let m := Z.to_nat (idx data 2) in
      let shardSize := Z.to_nat (le_get (sub 3 5 data)) in
      if (k <? 1)%nat || (m <? 1)%nat then Err BadCounts
      else if (shardSize <? 1)%nat then Err BadShardSize
      else
        match fec_v2_fields version data with
        | Err e => Err e
        | Ok (headerLen, depth) =>
            if (length data <? headerLen + (k + m) * shardSize)%nat then Err ShortPayload
            else
              match New k m with
              | None => Err CreateCoder
              | Some enc =>
                  let shards := fec_shards data headerLen (k + m) shardSize depth in
                  match Verify enc shards with
                  | Some true => fec_strip k shards
                  | _ =>
                      match Reconstruct enc (map Some shards) with
                      | None => Err ReconstructFailed
                      | Some shards => fec_strip k shards
                      end
                  end
              end
        end.

(** The shards of [erasedIndices] set to nil; indices out of range are ignored. *)
Definition erase_shards (total : nat) (erasedIndices : list Z) (shards : list (list Z))
  : list (option (list Z)) :=
  foldl (λ l i, if (0 <=? i) && (i <? Z.of_nat total) then <[Z.to_nat i := None]> l else l)
    (map Some shards) erasedIndices.

Definition FECDecodeWithErasures (New : nat → nat → option Encoder) (data : list Z)
  (erasedIndices : list Z) : result fec_error (list Z * Z) :=
  if (length data <? fecHeaderLenV1)%nat then Err ShortHeader
  else
    let version := idx data 0 in
    if negb (version =? FECVersion1) && negb (version =? FECVersion2) then Err BadVersion
    else
      let k := Z.to_nat (idx data 1) in
      let m := Z.to_nat (idx data 2) in
      let shardSize := Z.to_nat (le_get (sub 3 5 data)) in
      if (k <? 1)%nat || (m <? 1)%nat || (shardSize <? 1)%nat then Err BadCounts
      else
        match fec_v2_fields version data with
        | Err e => Err e
        | Ok (headerLen, depth) =>
            if (length data <? headerLen + (k + m) * shardSize)%nat then Err ShortPayload
            else
              match New k m with
              | None => Err CreateCoder
              | Some enc =>
                  let shards := fec_shards data headerLen (k + m) shardSize depth in
                  match Reconstruct enc (erase_shards (k + m) erasedIndices shards) with
                  | None => Err ReconstructFailed
                  | Some shards =>
                      match fec_strip k shards with
                      | Err e => Err e
                      | Ok result => Ok (result, Zlen erasedIndices)
                      end
                  end
              end
        end.

(** ** Interleaving is a permutation of the positions *)

Definition order (n depth : nat) : list nat := List.filter (λ i, (i <? n)%nat) (visit n depth).

Lemma elem_of_visit n depth x :
  x ∈ visit n depth ↔
  ∃ d s, (d < depth)%nat ∧ (s < (n + depth - 1) / depth)%nat ∧ x = (s * depth + d)%nat.
Proof.
  unfold visit. rewrite list_elem_of_In, in_concat. split.
  - intros (l & Hl & Hx). apply in_map_iff in Hl as (d & <- & Hd%in_seq).
    apply in_map_iff in Hx as (s & <- & Hs%in_seq). exists d, s. lia.
  - intros (d & s & Hd & Hs & ->).
    exists (map (λ s, (s * depth + d)%nat) (seq 0 ((n + depth - 1) / depth))).
    split; apply in_map_iff; [exists d|exists s]; (split; [done|apply in_seq; lia]).
Qed.

Lemma visit_NoDup n depth : NoDup (visit n depth).
Proof.
  unfold visit. generalize ((n + depth - 1) / depth)%nat as stride. intros stride.
  assert (∀ ds, NoDup ds → (∀ d, d ∈ ds → (d < depth)%nat) →
    NoDup (concat (map (λ d, map (λ s, (s * depth + d)%nat) (seq 0 stride)) ds))) as H.
  { induction ds as [|d ds IH]; intros Hnd Hlt; [constructor|]. cbn [map concat].
    apply NoDup_cons in Hnd as [Hd Hnd]. assert (d < depth)%nat by (apply Hlt; set_solver).
    apply NoDup_app. split; [|split].
    - apply NoDup_fmap_2; [|apply NoDup_seq]. intros s s' E. nia.
    - intros x Hx Hx'. apply list_elem_of_In, in_map_iff in Hx as (s & <- & _).
      apply list_elem_of_In, in_concat in Hx' as (l & Hl & Hx').
      apply in_map_iff in Hl as (d' & <- & Hd'). apply in_map_iff in Hx' as (s' & E & _).
      apply list_elem_of_In in Hd'. assert (d' < depth)%nat by (apply Hlt; set_solver).
      assert (d = d'); [|subst; done].
      apply (f_equal (λ x, x mod depth)%nat) in E.
      rewrite !(Nat.add_comm (_ * depth)), !Nat.Div0.mod_add, !Nat.mod_small in E by done. done.
    - apply IH; [done|]. intros. apply Hlt. set_solver. }
  apply H; [apply NoDup_seq|]. intros d Hd. apply elem_of_seq in Hd. lia.
Qed.

Lemma order_perm n depth : (1 ≤ depth)%nat → order n depth ≡ₚ seq 0 n.
Proof.
  intros Hd. apply NoDup_Permutation; [|apply NoDup_seq|].
  - unfold order. apply NoDup_ListNoDup, List.NoDup_filter, NoDup_ListNoDup, visit_NoDup.
  - intros x. unfold order. rewrite list_elem_of_In, filter_In, <- list_elem_of_In, elem_of_visit, elem_of_seq.
    rewrite Nat.ltb_lt. split; [lia|]. intros [_ Hx]. split; [|lia].
    exists (x mod depth)%nat, (x / depth)%nat.
    pose proof (Nat.mod_upper_bound x depth ltac:(lia)). pose proof (Nat.div_mod_eq x depth).
    split; [done|]. split; [|lia].
    assert (x / depth < (n - 1) / depth + 1)%nat as Hlt.
    { pose proof (Nat.Div0.div_le_mono x (n - 1) depth ltac:(lia)). lia. }
    replace (n + depth - 1)%nat with (n - 1 + 1 * depth)%nat by lia.
    rewrite Nat.div_add by lia. lia.
Qed.

Lemma foldl_filter {A B} (f : A → B → A) (p : B → bool) l a :
  foldl (λ a b, if p b then f a b else a) a l = foldl f a (List.filter p l).
Proof. revert a. induction l as [|b l IH]; intros a; simpl; [done|]. destruct (p b); apply IH. Qed.

Lemma gather_loop data ixs : ∀ pre,
  foldl (gather data) (pre ++ replicate (length ixs) 0, length pre) ixs
  = (pre ++ map (idx data) ixs, (length pre + length ixs)%nat).
Proof.
  induction ixs as [|x ixs IH]; intros pre; simpl; [by rewrite Nat.add_0_r|].
  unfold gather at 2. cbn [fst snd]. rewrite (insert_eq pre (replicate (length ixs) 0) _ _ 0) by done.
  replace (pre ++ idx data x :: replicate (length ixs) 0)
    with ((pre ++ [idx data x]) ++ replicate (length ixs) 0) by (by rewrite <- app_assoc).
  replace (S (length pre)) with (length (pre ++ [idx data x])) by (rewrite length_app; simpl; lia).
  rewrite IH, <- app_assoc, length_app. simpl. f_equal. lia.
Qed.

Lemma order_length n depth : (1 ≤ depth)%nat → length (order n depth) = n.
Proof. intros Hd. rewrite order_perm by done. apply length_seq. Qed.

Lemma FECInterleave_order data depth :
  1 < depth → FECInterleave data depth = map (idx data) (order (length data) (Z.to_nat depth)).
Proof.
  intros Hd. unfold FECInterleave. rewrite (proj2 (Z.leb_gt depth 1)) by lia. cbn [orb].
  pose proof (order_length (length data) (Z.to_nat depth) ltac:(lia)) as Hl.
  destruct (Nat.eqb_spec (length data) 0) as [E|E].
  { destruct data; [|done]. simpl in *. by apply nil_length_inv in Hl as ->. }
  rewrite foldl_filter. fold (order (length data) (Z.to_nat depth)).
  pose proof (gather_loop data (order (length data) (Z.to_nat depth)) []) as Hloop.
  simpl in Hloop. rewrite Hl in Hloop. rewrite Hloop. apply take_ge. rewrite length_map. lia.
Qed.

(** Writing [data] to the positions [ixs] in turn. *)
Lemma scatter_loop data ixs : ∀ out i0,
  NoDup ixs → Forall (λ x, (x < length out)%nat) ixs →
  let st := foldl (scatter data) (out, i0) ixs in
  length st.1 = length out ∧
  (∀ j x, ixs !! j = Some x → idx st.1 x = idx data (i0 + j)) ∧
  (∀ x, x ∉ ixs → idx st.1 x = idx out x).
Proof.
  induction ixs as [|x ixs IH]; intros out i0 Hnd Hlt; cbv zeta; cbn [foldl].
  - split; [done|]. split; [done|]. done.
  - apply NoDup_cons in Hnd as [Hx Hnd]. apply Forall_cons in Hlt as [Hx' Hlt].
    unfold scatter at 2 4 6. cbn [fst snd].
    destruct (IH (<[x := idx data i0]> out) (S i0) Hnd) as (H1 & H2 & H3).
    { by rewrite length_insert. }
    rewrite length_insert in H1. split; [done|].
    assert (∀ y, idx (<[x := idx data i0]> out) y = if (y =? x)%nat then idx data i0 else idx out y) as Hi.
    { intros y. unfold idx. rewrite !nth_lookup. destruct (Nat.eqb_spec y x) as [->|].
      - by rewrite list_lookup_insert_eq.
      - by rewrite list_lookup_insert_ne. }
    split.
    + intros [|j] y Hy; simpl in Hy.
      * injection Hy as <-. rewrite H3 by done. rewrite Hi, Nat.eqb_refl. f_equal. lia.
      * rewrite (H2 j y Hy). f_equal. lia.
    + intros y Hy. apply not_elem_of_cons in Hy as [? Hy]. rewrite H3, Hi by done.
      by rewrite (proj2 (Nat.eqb_neq y x)).
Qed.

Lemma idx_map_lookup {A} (f : A → Z) l j x : l !! j = Some x → idx (map f l) j = f x.
Proof.
  intros H. apply idx_lookup. change (map f l) with (f <$> l). by rewrite list_lookup_fmap, H.
Qed.

Lemma FECInterleave_length data depth : length (FECInterleave data depth) = length data.
Proof.
  destruct (Z.leb_spec depth 1).
  - unfold FECInterleave. by rewrite (proj2 (Z.leb_le depth 1)).
  - rewrite FECInterleave_order, length_map by lia. apply order_length. lia.
Qed.

Lemma deinterleave_interleave data depth :
  FECDeinterleave (FECInterleave data depth) depth = data.
Proof.
  unfold FECDeinterleave. rewrite FECInterleave_length.
  destruct (Z.leb_spec depth 1); cbn [orb].
  { unfold FECInterleave. by rewrite (proj2 (Z.leb_le depth 1)). }
  destruct (Nat.eqb_spec (length data) 0) as [E|E].
  { unfold FECInterleave. rewrite E, orb_true_r. done. }
  rewrite foldl_filter. fold (order (length data) (Z.to_nat depth)).
  set (ixs := order (length data) (Z.to_nat depth)).
  pose proof (order_perm (length data) (Z.to_nat depth) ltac:(lia)) as Hp. fold ixs in Hp.
  destruct (scatter_loop (FECInterleave data depth) ixs (replicate (length data) 0) 0) as (H1 & H2 & _).
  { rewrite Hp. apply NoDup_seq. }
  { rewrite Hp, length_replicate. apply Forall_forall. intros x Hx%elem_of_seq. lia. }
  destruct (foldl _ _ ixs) as [out i]. cbn [fst] in *. rewrite length_replicate in H1.
  rewrite take_ge by lia. apply (list_eq_same_length _ _ (length data)); [done..|].
  intros x a b Hx Ha Hb. apply idx_lookup in Ha as <-. apply idx_lookup in Hb as <-.
  assert (x ∈ ixs) as Hin by (rewrite Hp; apply elem_of_seq; lia).
  apply list_elem_of_lookup in Hin as [j Hj]. rewrite (H2 j x Hj). cbn [Nat.add].
  rewrite FECInterleave_order by lia. by apply idx_map_lookup.
Qed.

(** ** Shards *)

Lemma shard_chunk {A} s (l : list A) n :
  map (λ i, sub (i * s) ((i + 1) * s) l) (seq 0 n) = map (chunk_at s l) (seq 0 n).
Proof.
  apply map_ext. intros i. rewrite chunk_at_take. unfold sub. do 2 f_equal. lia.
Qed.

Lemma split_concat {A} s (shards : list (list A)) :
  Forall (λ x, length x = s) shards →
  map (λ i, sub (i * s) ((i + 1) * s) (concat shards)) (seq 0 (length shards)) = shards.
Proof.
  intros H. rewrite shard_chunk. induction H as [|x shards Hx _ IH]; [done|].
  cbn [length seq map concat]. f_equal.
  - rewrite chunk_at_take. cbn [Nat.mul]. rewrite drop_0. by apply take_app_length'.
  - etrans; [|exact IH]. rewrite <- (seq_shift (length shards) 0), map_map. apply map_ext. intros i.
    rewrite !chunk_at_take. f_equal. rewrite <- Hx. replace (S i * length x)%nat with (length x + i * length x)%nat by lia.
    rewrite <- drop_drop, drop_app_length. done.
Qed.

Lemma concat_length_uniform {A} s (shards : list (list A)) :
  Forall (λ x, length x = s) shards → length (concat shards) = (length shards * s)%nat.
Proof. induction 1 as [|x l Hx _ IH]; [done|]. simpl. rewrite length_app. lia. Qed.

Lemma fec_pad_shape data k :
  (1 ≤ k)%nat → ∃ z, fec_pad data k = le_put 4 (u32 (Zlen data)) ++ data ++ replicate z 0 ∧
    (length (fec_pad data k) mod k = 0)%nat.
Proof.
  intros Hk. unfold fec_pad. set (pre := le_put 4 (u32 (Zlen data)) ++ data).
  destruct (Nat.eqb_spec (length pre mod k) 0) as [E|E].
  - exists 0%nat. split; [|done]. by rewrite app_nil_r.
  - exists (k - length pre mod k)%nat. split; [unfold pre; by rewrite <- app_assoc|].
    rewrite length_app, length_replicate. pose proof (Nat.mod_upper_bound (length pre) k ltac:(lia)).
    rewrite (Nat.div_mod_eq (length pre) k) at 1.
    replace (k * (length pre / k) + length pre mod k + (k - length pre mod k))%nat
      with ((length pre / k + 1) * k)%nat by lia. apply Nat.Div0.mod_mul.
Qed.

(** Reading back what [fec_pad] prepared. *)
Lemma fec_strip_pad data k shards :
  (1 ≤ k)%nat → Zlen data < 4294967296 → concat (take k shards) = fec_pad data k →
  fec_strip k shards = Ok data.
Proof.
  intros Hk Hd E. unfold fec_strip, fecOrigLenTrailer. rewrite E.
  destruct (fec_pad_shape data k Hk) as (z & -> & _). pose proof (Zlen_nonneg data).
  rewrite (proj2 (Nat.ltb_ge _ _)) by len.
  rewrite (take_app_length' _ _ 4), (drop_app_length' _ _ 4) by len.
  rewrite u32_small, le_get_put_small by (try change (2 ^ _) with 4294967296; lia).
  rewrite (proj2 (Z.ltb_ge _ _)) by (rewrite Zlen_app; pose proof (Zlen_nonneg (replicate z 0)); lia).
  unfold Zlen. by rewrite Nat2Z.id, take_app_length.
Qed.

(** ** What [FECEncode] puts on the wire *)

Definition wire_depth (opts : option FECEncodeOpts) : Z :=
  let opt := default (MkFECEncodeOpts false 0) opts in
  if Interleave opt && (0 <? InterleaveDepth opt) then InterleaveDepth opt else 0.

Definition wire_header (k m s : Z) (opts : option FECEncodeOpts) : list Z :=
  [FECVersion2; k; m] ++ le_put 2 s ++ [depth_flags (default (MkFECEncodeOpts false 0) opts)].

Definition interleave_at (depth : Z) (l : list Z) : list Z :=
  if 0 <? depth then FECInterleave l depth else l.

Lemma depth_flags_spec opts :
  wire_depth opts <= 16 →
  let flags := depth_flags (default (MkFECEncodeOpts false 0) opts) in
  (if negb (Z.land flags fecFlagInterleaved =? 0) then Z.land (Z.shiftr flags 1) 15 + 1 else 0)
  = wire_depth opts.
Proof.
  unfold wire_depth, depth_flags. set (opt := default _ opts).
  destruct (Interleave opt && (0 <? InterleaveDepth opt)) eqn:E; [|done]. zbool.
  generalize dependent (InterleaveDepth opt). intros d Hd H16. cbv zeta.
  rewrite (proj2 (Z.ltb_ge (d - 1) 0)) by lia. rewrite (proj2 (Z.ltb_ge 15 (d - 1))) by lia.
  pose proof (zall_spec 16 (λ e, let flags := Z.lor fecFlagInterleaved (Z.land (u8 (Z.shiftl e 1)) 30) in
    (if negb (Z.land flags fecFlagInterleaved =? 0) then Z.land (Z.shiftr flags 1) 15 + 1 else 0) =? e + 1)
    ltac:(vm_compute; reflexivity) (d - 1) ltac:(lia)) as Hz.
  apply Z.eqb_eq in Hz. cbv zeta in Hz. rewrite Hz. lia.
Qed.

Lemma depth_flags_on opts :
  negb (Z.land (depth_flags (default (MkFECEncodeOpts false 0) opts)) fecFlagInterleaved =? 0)
  = (0 <? wire_depth opts).
Proof.
  unfold wire_depth, depth_flags. set (opt := default _ opts).
  destruct (Interleave opt && (0 <? InterleaveDepth opt)) eqn:E; [|done].
  zbool. rewrite (proj2 (Z.ltb_lt 0 _)) by done. apply negb_true_iff, Z.eqb_neq.
  intros Hz. apply (f_equal (λ z, Z.testbit z 0)) in Hz.
  rewrite Z.land_spec, Z.lor_spec in Hz. cbn in Hz. done.
Qed.

Lemma copy_at_tail {A} (h body body' : list A) :
  length body' = length body → copy_at (length h) body' (h ++ body) = h ++ body'.
Proof.
  intros Hl. rewrite (copy_at_eq h body [] body'); [by rewrite app_nil_r|by rewrite app_nil_r|done|done].
Qed.

Section Coded.
Context (New : nat → nat → option Encoder) (k m : nat) (enc : Encoder).
Hypothesis shard_counts : (1 ≤ k ∧ 1 ≤ m ∧ k + m ≤ 256)%nat.
Hypothesis new_ok : New k m = Some enc.
Context `{!RSCode k m enc}.

Lemma encode_shards data :
  Zlen data < 4294967296 →
  let s := (length (fec_pad data k) / k)%nat in
  ∃ bufs shards, Encode enc bufs = Some shards ∧ length shards = (k + m)%nat ∧
    Forall (λ x, length x = s) shards ∧ concat (take k shards) = fec_pad data k ∧ (1 ≤ s)%nat ∧
    map (λ i, sub (i * s) ((i + 1) * s) (fec_pad data k)) (seq 0 k) ++ replicate m (replicate s 0) = bufs.
Proof using RSCode0 shard_counts.
  intros Hd s. destruct (fec_pad_shape data k ltac:(lia)) as (z & E & Hm).
  assert (length (fec_pad data k) = k * s)%nat as Hl
    by (unfold s; rewrite (Nat.div_mod_eq (length (fec_pad data k)) k) at 1; lia).
  assert (1 ≤ s)%nat as Hs.
  { destruct (decide (s = 0%nat)) as [E0|]; [|lia]. rewrite E0, E in Hl. exfalso. len. }
  set (dat := map (chunk_at s (fec_pad data k)) (seq 0 k)).
  assert (Forall (λ x, length x = s) dat) as Hf.
  { apply Forall_map, Forall_forall. intros i Hi%elem_of_seq. simpl.
    rewrite chunk_at_length, Hl. nia. }
  assert (length dat = k) as Hdl by (unfold dat; by rewrite length_map, length_seq).
  destruct (rs_encode dat (replicate m (replicate s 0)) s) as (parity & He & Hp & Hpf); try done.
  { apply length_replicate. }
  { apply Forall_replicate, length_replicate. }
  eexists _, _. split; [exact He|]. split; [rewrite length_app; lia|].
  split; [by apply Forall_app|]. split.
  - rewrite take_app_length' by done. apply concat_chunks_all. lia.
  - split; [done|]. by rewrite shard_chunk.
Qed.

Lemma FECEncode_wire data opts :
  Zlen data < 4294967296 →
  let s := (length (fec_pad data k) / k)%nat in
  ∃ bufs shards, Encode enc bufs = Some shards ∧ length shards = (k + m)%nat ∧
    Forall (λ x, length x = s) shards ∧ concat (take k shards) = fec_pad data k ∧ (1 ≤ s)%nat ∧
    FECEncode New data (Z.of_nat k) (Z.of_nat m) opts =
      if 65535 <? Z.of_nat s then Err ShardTooLarge
      else Ok (wire_header (Z.of_nat k) (Z.of_nat m) (Z.of_nat s) opts ++
               interleave_at (wire_depth opts) (concat shards)).
Proof using RSCode0 shard_counts new_ok.
  intros Hd s. destruct (encode_shards data Hd) as (bufs & shards & He & Hl & Hf & Hc & Hs & Hb).
  fold s in Hf, Hs, Hb. exists bufs, shards. split_and!; [done..|].
  unfold FECEncode. rewrite !(proj2 (Z.ltb_ge _ _)) by lia. cbn [orb].
  rewrite !Nat2Z.id, new_ok. fold s. rewrite Hb, He.
  destruct (Z.ltb_spec 65535 (Z.of_nat s)); [done|].
  rewrite !u8_small, u16_small by (unfold byte_ok; lia). rewrite depth_flags_on.
  unfold interleave_at.
  assert (∀ body, [FECVersion2; Z.of_nat k; Z.of_nat m] ++ le_put 2 (Z.of_nat s) ++
    [depth_flags (default (MkFECEncodeOpts false 0) opts)] ++ body =
    wire_header (Z.of_nat k) (Z.of_nat m) (Z.of_nat s) opts ++ body) as Hh
    by (intros; unfold wire_header; by rewrite <- !app_assoc).
  rewrite Hh. destruct (Z.ltb_spec 0 (wire_depth opts)) as [Hw|]; [|done].
  change fecHeaderLenV2 with (length (wire_header (Z.of_nat k) (Z.of_nat m) (Z.of_nat s) opts)).
  rewrite drop_app_length. f_equal. rewrite copy_at_tail by apply FECInterleave_length.
  do 2 f_equal. unfold wire_depth in *.
  by destruct (Interleave (default (MkFECEncodeOpts false 0) opts) && (0 <? InterleaveDepth (default (MkFECEncodeOpts false 0) opts))).
Qed.

(** Every field the decoders read from what [FECEncode] wrote. *)
Lemma wire_parse s opts shards rest :
  (1 ≤ s)%nat → Z.of_nat s <= 65535 → wire_depth opts <= 16 →
  length shards = (k + m)%nat → Forall (λ x, length x = s) shards →
  let out := (wire_header (Z.of_nat k) (Z.of_nat m) (Z.of_nat s) opts ++
              interleave_at (wire_depth opts) (concat shards)) ++ rest in
  idx out 0 = FECVersion2 ∧ idx out 1 = Z.of_nat k ∧ idx out 2 = Z.of_nat m ∧
  le_get (sub 3 5 out) = Z.of_nat s ∧ fec_v2_fields FECVersion2 out = Ok (6%nat, wire_depth opts) ∧
  (6 + (k + m) * s ≤ length out)%nat ∧
  fec_shards out 6 (k + m) s (wire_depth opts) = shards.
Proof using shard_counts.
  intros Hs1 Hs Hdep Hl Hf. cbv zeta. pose proof (concat_length_uniform s shards Hf) as Hcl.
  assert (length (interleave_at (wire_depth opts) (concat shards)) = ((k + m) * s)%nat) as Hbl.
  { unfold interleave_at. rewrite Hl in Hcl. destruct (0 <? _); [by rewrite FECInterleave_length|done]. }
  set (body := interleave_at (wire_depth opts) (concat shards)) in *.
  unfold wire_header. rewrite <- !app_assoc. split; [done|]. split; [done|]. split; [done|].
  split; [|split; [|split]].
  - slices. apply le_get_put_small. change (2 ^ _) with 65536. lia.
  - unfold fec_v2_fields, fecHeaderLenV2. rewrite Z.eqb_refl, (proj2 (Nat.ltb_ge _ _)) by len.
    rewrite !app_assoc. rewrite <- !(app_assoc _ body).
    rewrite idx_app_l by len. rewrite idx_app_r by len. cbn [length le_put app Nat.sub].
    change (idx [?x] _) with x. pose proof (depth_flags_spec opts Hdep) as Hd. cbv zeta in Hd.
    destruct (negb _); by rewrite Hd.
  - len.
  - unfold fec_shards.
    assert (sub 6 (6 + (k + m) * s) ([FECVersion2; Z.of_nat k; Z.of_nat m] ++ le_put 2 (Z.of_nat s) ++
      [depth_flags (default (MkFECEncodeOpts false 0) opts)] ++ body ++ rest) = body) as ->.
    { rewrite !app_assoc. rewrite <- !(app_assoc _ body). rewrite sub_app_r by len.
      cbn [length le_put app Nat.sub]. rewrite sub_app_l, sub_all' by lia. done. }
    assert ((if 0 <? wire_depth opts then FECDeinterleave body (wire_depth opts) else body) = concat shards) as ->.
    { unfold body, interleave_at. destruct (0 <? wire_depth opts); [apply deinterleave_interleave|done]. }
    rewrite <- Hl. by apply split_concat.
Qed.

End Coded.

(** ** Erasures *)

Lemma erase_snoc total idxs i shards :
  erase_shards total (idxs ++ [i]) shards =
    if (0 <=? i) && (i <? Z.of_nat total) then <[Z.to_nat i := None]> (erase_shards total idxs shards)
    else erase_shards total idxs shards.
Proof. unfold erase_shards. rewrite foldl_app. done. Qed.

Lemma erase_length total idxs shards : length (erase_shards total idxs shards) = length shards.
Proof.
  induction idxs as [|i idxs IH] using rev_ind; [apply length_map|].
  rewrite erase_snoc. case_if; [by rewrite length_insert|done].
Qed.

Lemma erase_lookup total idxs shards i :
  length shards = total →
  erase_shards total idxs shards !! i =
    (λ s, if decide (Z.of_nat i ∈ idxs) then None else Some s) <$> shards !! i.
Proof.
  intros Ht. induction idxs as [|x idxs IH] using rev_ind.
  - unfold erase_shards. cbn [foldl]. change (map Some shards) with (Some <$> shards).
    rewrite list_lookup_fmap. by destruct (shards !! i).
  - rewrite erase_snoc. destruct (shards !! i) as [s|] eqn:Es; simpl in *.
    + assert (i < total)%nat by (rewrite <- Ht; by eapply lookup_lt_Some).
      destruct (decide (x = Z.of_nat i)) as [->|Hne].
      * rewrite (proj2 (Z.leb_le _ _)), (proj2 (Z.ltb_lt _ _)), Nat2Z.id by lia. cbn [andb].
        rewrite list_lookup_insert_eq by (rewrite erase_length; lia).
        by rewrite decide_True by set_solver.
      * assert (erase_shards total idxs shards !! i =
          Some (if decide (Z.of_nat i ∈ idxs ++ [x]) then None else Some s)) as E.
        { rewrite IH. destruct (decide (Z.of_nat i ∈ idxs)), (decide (Z.of_nat i ∈ idxs ++ [x])); set_solver. }
        case_if; [|done]. zbool. rewrite list_lookup_insert_ne by lia. done.
    + assert (∀ l : list (option (list Z)), length l = total → l !! i = None) as Hn
        by (intros l Hl; apply lookup_ge_None; rewrite Hl, <- Ht; by apply lookup_ge_None).
      apply Hn. case_if; rewrite ?length_insert, erase_length; done.
Qed.

Lemma erase_erasure total idxs shards :
  length shards = total → erasure_of (erase_shards total idxs shards) shards.
Proof.
  intros Ht. apply Forall2_lookup. intros i. rewrite erase_lookup by done.
  destruct (shards !! i); simpl; constructor. case_decide; auto.
Qed.

Lemma filled_insert_None {A} (l : list (option A)) i x :
  l !! i = Some (Some x) → S (filled (<[i := None]> l)) = filled l.
Proof.
  revert i. induction l as [|o l IH]; intros [|i] H; simplify_eq/=; [done|].
  rewrite <- (IH i H). destruct (is_some o); lia.
Qed.

(** As many holes as distinct indices, at most. *)
Lemma erase_count total idxs shards :
  length shards = total →
  (erased (erase_shards total idxs shards) ≤ size (list_to_set idxs : gset Z))%nat.
Proof.
  intros Ht. induction idxs as [|x idxs IH] using rev_ind.
  - unfold erased, erase_shards. cbn [foldl]. change (map Some shards) with (Some <$> shards).
    rewrite filled_fmap, length_fmap. lia.
  - rewrite erase_snoc, list_to_set_app_L. cbn [list_to_set]. rewrite union_empty_r_L.
    assert (size (list_to_set idxs : gset Z) ≤ size (list_to_set idxs ∪ {[x]} : gset Z))%nat
      by (apply subseteq_size; set_solver).
    destruct ((0 <=? x) && (x <? Z.of_nat total)) eqn:E; [|lia]. zbool.
    unfold erased in *. rewrite length_insert.
    destruct (lookup_lt_is_Some_2 shards (Z.to_nat x) ltac:(lia)) as [s Hs].
    pose proof (erase_lookup total idxs shards (Z.to_nat x) Ht) as Hx. rewrite Hs in Hx.
    simpl in Hx. rewrite Z2Nat.id in Hx by lia. destruct (decide (x ∈ idxs)) as [Hin|Hin].
    + rewrite list_insert_id by done. lia.
    + apply filled_insert_None in Hx. rewrite size_union by set_solver. rewrite size_singleton.
      pose proof (filled_le (erase_shards total idxs shards)). lia.
Qed.

(** ** A concrete coder: two data shards and their exclusive or *)

Definition xor_shard (a b : list Z) : list Z := zip_with Z.lxor a b.

Definition xor_encoder : Encoder := {|
  Encode l := match l with
              | [a; b; c] => if (length a =? length b)%nat then Some [a; b; xor_shard a b] else None
              | _ => None
              end;
  Verify l := match l with
              | [a; b; c] => Some (bool_decide (c = xor_shard a b))
              | _ => None
              end;
  Reconstruct l := match l with
                   | [Some a; Some b; Some c] => Some [a; b; c]
                   | [None; Some b; Some c] => Some [xor_shard b c; b; c]
                   | [Some a; None; Some c] => Some [a; xor_shard a c; c]
                   | [Some a; Some b; None] => Some [a; b; xor_shard a b]
                   | _ => None
                   end;
|}.

Definition xor_new (k m : nat) : option Encoder :=
  if (k =? 2)%nat && (m =? 1)%nat then Some xor_encoder else None.

Lemma xor_shard_l a b : length a = length b → xor_shard a (xor_shard a b) = b.
Proof.
  revert b. induction a as [|x a IH]; intros [|y b] Hl; simplify_eq/=; [done|].
  unfold xor_shard in *. simpl. f_equal; [|by apply IH].
  by rewrite <- Z.lxor_assoc, Z.lxor_nilpotent, Z.lxor_0_l.
Qed.

Lemma xor_shard_r a b : length a = length b → xor_shard b (xor_shard a b) = a.
Proof.
  revert b. induction a as [|x a IH]; intros [|y b] Hl; simplify_eq/=; [done|].
  unfold xor_shard in *. simpl. f_equal; [|by apply IH].
  by rewrite (Z.lxor_comm x), <- Z.lxor_assoc, Z.lxor_nilpotent, Z.lxor_0_l.
Qed.

Lemma xor_encode_inv bufs shards :
  Encode xor_encoder bufs = Some shards →
  ∃ a b, length a = length b ∧ shards = [a; b; xor_shard a b].
Proof.
  destruct bufs as [|a [|b [|c [|]]]]; try done. simpl.
  destruct (Nat.eqb_spec (length a) (length b)); [|done]. intros [= <-]. eauto.
Qed.

#[export] Instance xor_code : RSCode 2 1 xor_encoder.
Proof.
  split.
  - intros data bufs s Hd Hb Hs Hdf Hbf.
    destruct data as [|a [|b [|]]]; try done. destruct bufs as [|c [|]]; try done.
    apply Forall_cons in Hdf as [Ha Hdf]. apply Forall_cons in Hdf as [Hb' _].
    exists [xor_shard a b]. simpl. rewrite (proj2 (Nat.eqb_eq _ _)) by lia.
    split; [done|]. split; [done|]. repeat constructor. unfold xor_shard. rewrite length_zip_with. lia.
  - intros shards parity H. apply xor_encode_inv in H as (a & b & _ & ->). simpl.
    by rewrite bool_decide_eq_true_2.
  - intros bufs shards l H He Hm. apply xor_encode_inv in H as (a & b & Hl & ->).
    unfold erasure_of in He. apply Forall2_cons_inv_r in He as (o1 & l1 & H1 & He & ->).
    apply Forall2_cons_inv_r in He as (o2 & l2 & H2 & He & ->).
    apply Forall2_cons_inv_r in He as (o3 & l3 & H3 & He & ->).
    apply Forall2_nil_inv_r in He as ->. unfold erased in Hm.
    destruct H1 as [-> | ->], H2 as [-> | ->], H3 as [-> | ->]; simpl in Hm; try lia; simpl; try done.
    + by rewrite xor_shard_r.
    + by rewrite xor_shard_l.
  - intros shards Hl. destruct shards as [|a [|b [|c [|]]]]; done.
Qed.

(** ** The theorems *)

(** For any coder that keeps the documented contract, a payload whose
    shards fit the 16-bit size field encodes (one whose shards do not is
    refused), with or without interleaving up to the depth the header can
    hold; the encoding decodes to the payload whatever bytes follow it, and
    still does when up to [m] distinct shards are erased. *)
Theorem fec_roundtrip New k m enc `{!RSCode k m enc} data opts rest idxs :
  (1 ≤ k ∧ 1 ≤ m ∧ k + m ≤ 256)%nat → New k m = Some enc →
  Zlen data < 4294967296 → wire_depth opts <= 16 →
  if 65535 <? Z.of_nat (length (fec_pad data k) / k) then
    FECEncode New data (Z.of_nat k) (Z.of_nat m) opts = Err ShardTooLarge
  else
    ∃ out, FECEncode New data (Z.of_nat k) (Z.of_nat m) opts = Ok out ∧
      FECDecode New (out ++ rest) = Ok data ∧
      ((size (list_to_set idxs : gset Z) ≤ m)%nat →
       FECDecodeWithErasures New (out ++ rest) idxs = Ok (data, Zlen idxs)).
Proof.
  intros Hkm Hnew Hd Hdep.
  destruct (FECEncode_wire New k m enc Hkm Hnew data opts Hd)
    as (bufs & shards & He & Hl & Hf & Hc & Hs1 & ->).
  set (s := (length (fec_pad data k) / k)%nat) in *.
  destruct (Z.ltb_spec 65535 (Z.of_nat s)) as [|Hs]; [done|]. eexists; split; [done|].
  destruct (wire_parse k m Hkm s opts shards rest Hs1 Hs Hdep Hl Hf) as (W0 & W1 & W2 & W3 & W4 & W5 & W6).
  set (out := _ ++ rest) in *. clearbody out.
  assert (fec_strip k shards = Ok data) as Hstrip by (apply fec_strip_pad; [lia|done..]).
  split; [|intros Hsz].
  - unfold FECDecode, fecHeaderLenV1. rewrite W0, W1, W2, W3, !Nat2Z.id, W4, Hnew, W6.
    rewrite (proj2 (Nat.ltb_ge (length out) 5)) by lia. cbn [negb Z.eqb FECVersion1 FECVersion2 Pos.eqb andb].
    rewrite !(proj2 (Nat.ltb_ge _ 1)), (proj2 (Nat.ltb_ge (length out) _)) by lia. cbn [orb].
    by rewrite (rs_verify _ _ He).
  - unfold FECDecodeWithErasures, fecHeaderLenV1. rewrite W0, W1, W2, W3, !Nat2Z.id, W4, Hnew, W6.
    rewrite (proj2 (Nat.ltb_ge (length out) 5)) by lia. cbn [negb Z.eqb FECVersion1 FECVersion2 Pos.eqb andb].
    rewrite !(proj2 (Nat.ltb_ge _ 1)), (proj2 (Nat.ltb_ge (length out) _)) by lia. cbn [orb].
    rewrite (rs_reconstruct bufs shards); [by rewrite Hstrip|done|by apply erase_erasure|].
    etrans; [by apply erase_count|done].
Qed.

Lemma fec_roundtrip_witness :
  ∃ out, FECEncode xor_new [1; 2; 3; 4; 5] 2 1 (Some (MkFECEncodeOpts true 4)) = Ok out ∧
    FECDecode xor_new (out ++ [7]) = Ok [1; 2; 3; 4; 5] ∧
    FECDecodeWithErasures xor_new (out ++ [7]) [1; 1] = Ok ([1; 2; 3; 4; 5], 2).
Proof.
  destruct (fec_roundtrip xor_new 2 1 xor_encoder [1; 2; 3; 4; 5] (Some (MkFECEncodeOpts true 4)) [7] [1; 1])
    as (out & H1 & H2 & H3); [lia|reflexivity|reflexivity|vm_compute; discriminate|].
  exists out. split; [exact H1|]. split; [exact H2|]. apply H3. vm_compute. lia.
Defined.

(** Decoding never repairs a corrupted shard: on any data that passes the
    header checks the result is read from the data shards exactly as they
    arrived, whether or not the parity agrees with them. *)
Theorem fec_decode_no_repair New k m enc `{!RSCode k m enc} data s headerLen depth :
  (5 ≤ length data)%nat → idx data 0 = FECVersion1 ∨ idx data 0 = FECVersion2 →
  idx data 1 = Z.of_nat k → idx data 2 = Z.of_nat m → le_get (sub 3 5 data) = Z.of_nat s →
  (1 ≤ k ∧ 1 ≤ m ∧ 1 ≤ s)%nat → New k m = Some enc →
  fec_v2_fields (idx data 0) data = Ok (headerLen, depth) →
  (headerLen + (k + m) * s ≤ length data)%nat →
  FECDecode New data = fec_strip k (fec_shards data headerLen (k + m) s depth).
Proof.
  intros H5 Hv H1 H2 H3 Hkms Hnew Hf Hlen. unfold FECDecode, fecHeaderLenV1.
  rewrite (proj2 (Nat.ltb_ge _ 5)), H1, H2, H3, !Nat2Z.id, Hf, Hnew by done.
  replace (negb (idx data 0 =? FECVersion1) && negb (idx data 0 =? FECVersion2)) with false
    by (destruct Hv as [-> | ->]; done).
  rewrite !(proj2 (Nat.ltb_ge _ 1)), (proj2 (Nat.ltb_ge (length data) _)) by lia. cbn [orb].
  assert (length (fec_shards data headerLen (k + m) s depth) = (k + m)%nat) as Hl
    by (unfold fec_shards; by rewrite length_map, length_seq).
  destruct (Verify enc _) as [[|]|]; [done| |]; by rewrite rs_nothing_missing.
Qed.

(** One flipped payload byte (9 instead of 2) comes out as data. *)
Definition corrupted : list Z := [2; 2; 1; 4; 0; 0; 3; 0; 0; 0; 1; 9; 3; 0; 2; 2; 3; 0].

Lemma fec_decode_no_repair_witness :
  FECEncode xor_new [1; 2; 3] 2 1 None = Ok [2; 2; 1; 4; 0; 0; 3; 0; 0; 0; 1; 2; 3; 0; 2; 2; 3; 0] ∧
  FECDecode xor_new corrupted = Ok [1; 9; 3].
Proof.
  split; [vm_compute; reflexivity|].
  rewrite (fec_decode_no_repair xor_new 2 1 xor_encoder corrupted 4 6 0);
    [reflexivity|vm_compute; lia|right; reflexivity|reflexivity|reflexivity|reflexivity|lia
    |reflexivity|reflexivity|vm_compute; lia].
Defined.

(** An interleave depth above 16 is applied as given but written to the
    header as 16, so the decoder undoes a different permutation: a payload
    encoded at depth 17 does not come back. *)
Theorem fec_deep_interleave_lost :
  ∃ data out, FECEncode xor_new data 2 1 (Some (MkFECEncodeOpts true 17)) = Ok out ∧
    FECDecode xor_new out ≠ Ok data.
Proof.
  exists (map Z.of_nat (seq 0 20)). eexists. split; [vm_compute; reflexivity|].
  vm_compute. discriminate.
Qed.

End Fec.
