(* ===== verification/FecProfiles.v ===== *)
(** Channel profiles for forward error correction: [ParseIntParam] of
    [internal/protocol/fec.go] and [internal/protocol/fec_profiles.go]. *)
From S2P Require Import Prelude Fec.

Module FecProfiles.
Import Fec.

Local Open Scope string_scope.
Local Open Scope Z_scope.

Record FECProfile := MkFECProfile {
  DataShards : Z;
  ParityShards : Z;
  pInterleave : bool;
  pInterleaveDepth : Z;
}.

Definition fecProfiles : gmap string FECProfile :=
  list_to_map [
    ("lora", MkFECProfile 4 2 true 8);
    ("mesh", MkFECProfile 4 2 true 8);
    ("sbd", MkFECProfile 6 2 false 0);
    ("iridium", MkFECProfile 6 2 false 0);
    ("imt", MkFECProfile 8 2 false 0);
    ("iridium_imt", MkFECProfile 8 2 false 0);
    ("ax25", MkFECProfile 4 3 true 16);
    ("tcp", MkFECProfile 0 0 false 0);
    ("mqtt", MkFECProfile 0 0 false 0);
    ("webhook", MkFECProfile 0 0 false 0);
    ("cellular", MkFECProfile 6 2 false 0);
    ("sms", MkFECProfile 4 2 false 0);
    ("zigbee", MkFECProfile 4 2 true 4)].

Definition LookupFECProfile (channelType : string) : option FECProfile := fecProfiles !! channelType.

(** [params[key]]: the empty string when absent. *)
Definition param (params : gmap string string) (key : string) : string :=
  default "" (params !! key).

(** Digits are ASCII, so going over the bytes visits the same digits as going
    over the runes; [v] is a 64-bit [int]. *)
Definition digit_step (v : Z) (c : Ascii.ascii) : Z :=
  let b := Z.of_N (Ascii.N_of_ascii c) in
  if (48 <=? b) && (b <=? 57) then i64 (v * 10 + (b - 48)) else v.

Definition ParseIntParam (params : gmap string string) (key : string) (defVal : Z) : Z :=
  let s := param params key in
  if bool_decide (s = "") then defVal
  else
    let v := foldl digit_step 0 (chars s) in
    if v =? 0 then defVal else v.

Definition profile_params (p : FECProfile) : Z * Z * bool * Z :=
  if DataShards p =? 0 then (0, 0, false, 0)
  else (DataShards p, ParityShards p, pInterleave p, pInterleaveDepth p).

Definition explicit_params (params : gmap string string) : Z * Z * bool * Z :=
  let ds := ParseIntParam params "data_shards" 0 in
  let ps := ParseIntParam params "parity_shards" 0 in
  if (0 <? ds) && (0 <? ps) then
    let il := bool_decide (param params "interleave" = "true") in
    let ild := ParseIntParam params "interleave_depth" 8 in
    let ild := if negb il then 0 else ild in
    (ds, ps, il, ild)
  else
    let ds := if ds =? 0 then 4 else ds in
    let ps := if ps =? 0 then 2 else ps in
    (ds, ps, false, 0).

Definition ResolveFECParams (params : gmap string string) : Z * Z * bool * Z :=
  let profile := param params "profile" in
  if bool_decide (profile = "auto") then
    match fecProfiles !! param params "channel" with
    | Some p => profile_params p
    | None => explicit_params params
    end
  else if bool_decide (profile ≠ "") then
    match fecProfiles !! profile with
    | Some p => profile_params p
    | None => explicit_params params
    end
  else explicit_params params.

Definition AdaptFECProfile (p : FECProfile) (healthScore : Z) : FECProfile :=
  if (DataShards p =? 0) || (ParityShards p =? 0) then p
  else
    let parity :=
      if 80 <? healthScore then ParityShards p
      else if 50 <? healthScore then ParityShards p + 1
      else ParityShards p + 2 in
    let parity := if 255 <? DataShards p + parity then 255 - DataShards p else parity in
    MkFECProfile (DataShards p) parity (pInterleave p) (pInterleaveDepth p).

(** Parameters [FECEncode] accepts and whose depth the header can hold. *)
Definition encodable (p : FECProfile) : Prop :=
  1 <= DataShards p ∧ 1 <= ParityShards p ∧ DataShards p + ParityShards p <= 255 ∧
  0 <= pInterleaveDepth p <= 16.

#[global] Instance encodable_dec p : Decision (encodable p).
Proof. unfold encodable. apply _. Defined.

Lemma table_encodable name p :
  fecProfiles !! name = Some p → (DataShards p = 0 ∧ ParityShards p = 0) ∨ encodable p.
Proof.
  intros H. assert (map_Forall (λ _ p, (DataShards p = 0 ∧ ParityShards p = 0) ∨ encodable p) fecProfiles)
    as Hall by (apply (bool_decide_unpack _); vm_compute; exact I).
  by apply Hall in H.
Qed.

(** Adapting to link health never leaves the range the encoder accepts: an
    encodable profile stays encodable with at least its own parity, healthier
    links never get more parity than sicker ones, "no FEC" stays "no FEC", and
    every profile of the table is one or the other. *)
Theorem adapt_profile_safe name p h h' :
  fecProfiles !! name = Some p → h <= h' →
  if DataShards p =? 0 then AdaptFECProfile p h = p
  else
    encodable (AdaptFECProfile p h) ∧
    DataShards (AdaptFECProfile p h) = DataShards p ∧
    ParityShards p <= ParityShards (AdaptFECProfile p h') <= ParityShards (AdaptFECProfile p h) ∧
    ParityShards (AdaptFECProfile p h) <= ParityShards p + 2.
Proof.
  intros H Hh. unfold AdaptFECProfile. destruct (Z.eqb_spec (DataShards p) 0) as [|Hd]; [done|].
  destruct (table_encodable name p H) as [[? _]|(H1 & H2 & H3 & H4)]; [done|].
  rewrite (proj2 (Z.eqb_neq (ParityShards p) 0)) by lia. cbn [orb]. unfold encodable. cbn.
  destruct (Z.ltb_spec 80 h), (Z.ltb_spec 50 h), (Z.ltb_spec 80 h'), (Z.ltb_spec 50 h');
    repeat match goal with |- context [255 <? ?x] => destruct (Z.ltb_spec 255 x) end; lia.
Qed.

Lemma adapt_profile_safe_witness :
  encodable (AdaptFECProfile (MkFECProfile 4 2 true 8) 40).
Proof.
  exact (proj1 (adapt_profile_safe "lora" (MkFECProfile 4 2 true 8) 40 40
    ltac:(vm_compute; reflexivity) ltac:(lia))).
Defined.

(** A profile name the table knows decides the parameters, whatever
    [data_shards] and [parity_shards] say; explicit values count only without
    a known profile. *)
Theorem profile_beats_explicit params :
  let profile := param params "profile" in
  let name := if decide (profile = "auto") then param params "channel" else profile in
  ResolveFECParams params =
    match LookupFECProfile name with
    | Some p => if decide (profile = "") then explicit_params params else profile_params p
    | None => explicit_params params
    end.
Proof.
  cbv zeta. unfold ResolveFECParams, LookupFECProfile.
  destruct (decide (param params "profile" = "auto")) as [Ha|Ha].
  - rewrite bool_decide_eq_true_2 by done. rewrite Ha. done.
  - rewrite bool_decide_eq_false_2 by done. destruct (decide (param params "profile" = "")) as [He|He].
    + rewrite bool_decide_eq_false_2 by tauto. by destruct (_ !! _).
    + by rewrite bool_decide_eq_true_2 by done.
Qed.

End FecProfiles.
