(* ===== verification/Custody.v ===== *)
(** Custody transfer: [internal/protocol/custody.go] and the custody branches of
    the Reticulum packet handler in [cmd/meshsat-hub/main.go].  Ed25519,
    [crypto/rand] and [time.Now] are arguments.  A channel is a cell of a
    store, because the caller of [RegisterOffer] keeps its own reference. *)
From S2P Require Import Prelude Bundle.

Module Custody.

Definition CustodyOfferType : Z := 22.
Definition CustodyACKType : Z := 23.
Definition custodyOfferHeaderLen : nat := 37.
Definition custodyACKLen : nat := 97.

Record CustodyOffer := MkOffer {
  oCustodyID : list Z;
  oSourceHash : list Z;
  oDeliveryID : Z;
  oPayload : list Z;
}.

Record CustodyACK := MkACK {
  aCustodyID : list Z;
  aAcceptorHash : list Z;
  aSignature : list Z;
}.

Inductive custody_error := TooShort | BadType.

Definition MarshalCustodyOffer (o : CustodyOffer) : list Z :=
  let buf := replicate (custodyOfferHeaderLen + length (oPayload o)) 0 in
  let buf := <[0%nat := CustodyOfferType]> buf in
  let buf := copy_at 1 (take 16 (oCustodyID o)) buf in
  let buf := copy_at 17 (take 16 (oSourceHash o)) buf in
  let buf := copy_at 33 (le_put 4 (oDeliveryID o)) buf in
  copy_at 37 (oPayload o) buf.

Definition UnmarshalCustodyOffer (data : list Z) : result custody_error CustodyOffer :=
  if (length data <? custodyOfferHeaderLen)%nat then Err TooShort
  else if negb (idx data 0 =? CustodyOfferType) then Err BadType
  else Ok (MkOffer (sub 1 17 data) (sub 17 33 data) (le_get (sub 33 37 data))
             (if (custodyOfferHeaderLen <? length data)%nat then drop custodyOfferHeaderLen data else [])).

Definition MarshalCustodyACK (a : CustodyACK) : list Z :=
  let buf := replicate custodyACKLen 0 in
  let buf := <[0%nat := CustodyACKType]> buf in
  let buf := copy_at 1 (take 16 (aCustodyID a)) buf in
  let buf := copy_at 17 (take 16 (aAcceptorHash a)) buf in
  copy_at 33 (take 64 (aSignature a)) buf.

Definition UnmarshalCustodyACK (data : list Z) : result custody_error CustodyACK :=
  if (length data <? custodyACKLen)%nat then Err TooShort
  else if negb (idx data 0 =? CustodyACKType) then Err BadType
  else Ok (MkACK (sub 1 17 data) (sub 17 33 data) (sub 33 97 data)).

(** The signed message: custody id, then acceptor hash. *)
Definition ack_message (custodyID acceptorHash : list Z) : list Z :=
  let msg := replicate 32 0 in
  let msg := copy_at 0 (take 16 custodyID) msg in
  copy_at 16 acceptorHash msg.

(** [copy(ack.Signature[:], sig)] into a zeroed [[64]byte]. *)
Definition SignCustodyACK (Sign : list Z → list Z → list Z) (custodyID acceptorHash privKey : list Z)
  : CustodyACK :=
  let sig := Sign privKey (ack_message custodyID acceptorHash) in
  MkACK custodyID acceptorHash (copy_at 0 sig (replicate 64 0)).

Definition VerifyCustodyACK (Verify : list Z → list Z → list Z → bool) (ack : CustodyACK)
  (pubKey : list Z) : bool :=
  Verify pubKey (ack_message (aCustodyID ack) (aAcceptorHash ack)) (aSignature ack).

(** [random] is what [rand.Read] returned, [None] its error. *)
Definition NewCustodyID (random : option (list Z)) : option (list Z) := Bundle.uuid4 <$> random.

Definition IsCustodyOffer (data : list Z) : bool :=
  (custodyOfferHeaderLen <=? length data)%nat && (idx data 0 =? CustodyOfferType).

Definition IsCustodyACK (data : list Z) : bool :=
  (custodyACKLen <=? length data)%nat && (idx data 0 =? CustodyACKType).

(** ** The manager *)

Inductive CustodyState := CustodyOffered | CustodyAccepted | CustodyExpired.

#[global] Instance CustodyState_eq_dec : EqDecision CustodyState.
Proof. solve_decision. Defined.

(** A channel of capacity one. *)
Record chan := MkChan { chBuf : option CustodyACK; chClosed : bool }.

Record pendingCustody := MkPending {
  offer : CustodyOffer;
  state : CustodyState;
  offeredAt : Z;
  ackCh : nat;
}.

(** The manager with the channels it has made. *)
Record CustodyManager := MkManager {
  pending : gmap (list Z) pendingCustody;
  timeout : Z;
  chans : gmap nat chan;
  nextCh : nat;
}.

Definition NewCustodyManager (ackTimeout : Z) : CustodyManager := MkManager ∅ ackTimeout ∅ 0.

Definition RegisterOffer (now : Z) (o : CustodyOffer) (cm : CustodyManager) : nat * CustodyManager :=
  let ch := nextCh cm in
  (ch, MkManager (<[oCustodyID o := MkPending o CustodyOffered now ch]> (pending cm)) (timeout cm)
         (<[ch := MkChan None false]> (chans cm)) (S ch)).

(** [select { case ch <- ack: default: }]; [None] is the panic on a closed channel. *)
Definition try_send (ch : nat) (ack : CustodyACK) (chans : gmap nat chan) : option (gmap nat chan) :=
  match chans !! ch with
  | None => None
  | Some c =>
      if chClosed c then None
      else match chBuf c with
           | Some _ => Some chans
           | None => Some (<[ch := MkChan (Some ack) false]> chans)
           end
  end.

(** [close(ch)]; closing a closed channel panics. *)
Definition close_chan (ch : nat) (chans : gmap nat chan) : option (gmap nat chan) :=
  match chans !! ch with
  | None => None
  | Some c => if chClosed c then None else Some (<[ch := MkChan (chBuf c) true]> chans)
  end.

Definition HandleACK (ack : CustodyACK) (cm : CustodyManager) : option (bool * CustodyManager) :=
  match pending cm !! aCustodyID ack with
  | None => Some (false, cm)
  | Some p =>
      if decide (state p ≠ CustodyOffered) then Some (false, cm)
      else
        let p' := MkPending (offer p) CustodyAccepted (offeredAt p) (ackCh p) in
        chs ← try_send (ackCh p) ack (chans cm);
        chs ← close_chan (ackCh p) chs;
        Some (true, MkManager (<[aCustodyID ack := p']> (pending cm)) (timeout cm) chs (nextCh cm))
  end.

(** One turn of the loop of [Reap] over the map. *)
Definition reap_entry (now : Z) (acc : Z * CustodyManager) (e : list Z * pendingCustody)
  : option (Z * CustodyManager) :=
  let '(expired, cm) := acc in
  let '(id, p) := e in
  if bool_decide (state p = CustodyOffered) && (timeout cm <? now - offeredAt p) then
    chs ← close_chan (ackCh p) (chans cm);
    Some (expired + 1, MkManager (delete id (pending cm)) (timeout cm) chs (nextCh cm))
  else Some acc.

Definition Reap (now : Z) (cm : CustodyManager) : option (Z * CustodyManager) :=
  foldl (λ acc e, acc ← acc; reap_entry now acc e) (Some (0, cm)) (map_to_list (pending cm)).

Definition PendingCount (cm : CustodyManager) : Z :=
  Z.of_nat (size (filter (λ e, state e.2 = CustodyOffered) (pending cm))).

Definition Clear (cm : CustodyManager) : CustodyManager :=
  MkManager (filter (λ e, state e.2 = CustodyOffered) (pending cm)) (timeout cm) (chans cm) (nextCh cm).

(** ** The packet handler's custody branches *)

(** An offer is answered with a signed ACK when the identity is loaded. *)
Definition on_offer (Sign : list Z → list Z → list Z) (identity : option (list Z * list Z)) (raw : list Z)
  : option (list Z) :=
  match UnmarshalCustodyOffer raw with
  | Err _ => None
  | Ok o =>
      match identity with
      | None => None
      | Some (destHash, privKey) =>
          let acceptorHash := copy_at 0 destHash (replicate 16 0) in
          Some (MarshalCustodyACK (SignCustodyACK Sign (oCustodyID o) acceptorHash privKey))
      end
  end.

Definition on_ack (raw : list Z) (cm : CustodyManager) : option (bool * CustodyManager) :=
  match UnmarshalCustodyACK raw with
  | Err _ => Some (false, cm)
  | Ok ack => HandleACK ack cm
  end.

(** ** Wire forms *)

Definition offer_wf (o : CustodyOffer) : Prop :=
  length (oCustodyID o) = 16%nat ∧ bytes_ok (oCustodyID o) ∧
  length (oSourceHash o) = 16%nat ∧ bytes_ok (oSourceHash o) ∧
  0 <= oDeliveryID o < 4294967296 ∧ bytes_ok (oPayload o).

Definition ack_wf (a : CustodyACK) : Prop :=
  length (aCustodyID a) = 16%nat ∧ bytes_ok (aCustodyID a) ∧
  length (aAcceptorHash a) = 16%nat ∧ bytes_ok (aAcceptorHash a) ∧
  length (aSignature a) = 64%nat ∧ bytes_ok (aSignature a).

Lemma offer_layout o :
  length (oCustodyID o) = 16%nat → length (oSourceHash o) = 16%nat →
  MarshalCustodyOffer o =
    CustodyOfferType :: oCustodyID o ++ oSourceHash o ++ le_put 4 (oDeliveryID o) ++ oPayload o.
Proof.
  destruct o as [id src d pl]. unfold MarshalCustodyOffer. cbn [oCustodyID oSourceHash oDeliveryID oPayload].
  intros Hid Hsrc.
  rewrite (take_ge id), (take_ge src) by lia. change custodyOfferHeaderLen with (1 + (16 + (16 + 4)))%nat.
  rewrite <- !Nat.add_assoc, !replicate_add.
  rewrite (insert_eq [] (replicate 16 0 ++ replicate 16 0 ++ replicate 4 0 ++ replicate (length pl) 0) _ _ 0)
    by done.
  rewrite (copy_at_eq [CustodyOfferType] (replicate 16 0) (replicate 16 0 ++ replicate 4 0 ++
    replicate (length pl) 0) id); [|done|done|by rewrite Hid].
  rewrite (copy_at_eq ([CustodyOfferType] ++ id) (replicate 16 0) (replicate 4 0 ++
    replicate (length pl) 0) src); [|by rewrite <- app_assoc|len|by rewrite Hsrc].
  rewrite (copy_at_eq ([CustodyOfferType] ++ id ++ src) (replicate 4 0) (replicate (length pl) 0) (le_put 4 d));
    [|by rewrite <- !app_assoc|len|done].
  rewrite (copy_at_eq ([CustodyOfferType] ++ id ++ src ++ le_put 4 d) (replicate (length pl) 0) [] pl);
    [|by rewrite <- !app_assoc, app_nil_r|len|len].
  by rewrite app_nil_r, <- !app_assoc.
Qed.

Lemma ack_layout a :
  length (aCustodyID a) = 16%nat → length (aAcceptorHash a) = 16%nat → length (aSignature a) = 64%nat →
  MarshalCustodyACK a = CustodyACKType :: aCustodyID a ++ aAcceptorHash a ++ aSignature a.
Proof.
  destruct a as [id h sg]. unfold MarshalCustodyACK. cbn [aCustodyID aAcceptorHash aSignature].
  intros Hid Hh Hs. rewrite (take_ge sg) by lia.
  rewrite (copy_at_eq (CustodyACKType :: id ++ h) (replicate 64 0) [] sg).
  - by rewrite app_nil_r, !app_comm_cons, <- !app_assoc.
  - rewrite app_nil_r. change custodyACKLen with 97%nat.
    do 16 (destruct id as [|? id]; [done|]). destruct id; [|done].
    do 16 (destruct h as [|? h]; [done|]). destruct h; [|done]. reflexivity.
  - len.
  - by rewrite Hs.
Qed.

Lemma offer_parse o :
  offer_wf o → UnmarshalCustodyOffer (MarshalCustodyOffer o) = Ok o.
Proof.
  intros (Hid & _ & Hsrc & _ & Hd & _). rewrite offer_layout by done.
  destruct o as [id src d pl]. cbn [oCustodyID oSourceHash oDeliveryID oPayload] in *.
  unfold UnmarshalCustodyOffer, custodyOfferHeaderLen. rewrite (proj2 (Nat.ltb_ge _ _)) by len.
  change (idx (CustodyOfferType :: ?x) 0) with CustodyOfferType. cbn [negb Z.eqb CustodyOfferType Pos.eqb].
  change (CustodyOfferType :: ?x) with ([CustodyOfferType] ++ x). f_equal. f_equal.
  - by slices.
  - by slices.
  - slices. apply le_get_put_small. change (2 ^ _) with 4294967296. lia.
  - rewrite !app_assoc. rewrite (drop_app_length' _ _ 37) by len.
    destruct (Nat.ltb_spec 37 (length ((((([CustodyOfferType] ++ id) ++ src) ++ le_put 4 d)) ++ pl))) as [|Hle]; [done|].
    destruct pl; [done|]. exfalso. len.
Qed.

Lemma offer_parse_inv data o :
  bytes_ok data → UnmarshalCustodyOffer data = Ok o → offer_wf o ∧ MarshalCustodyOffer o = data.
Proof.
  intros Hok. unfold UnmarshalCustodyOffer, custodyOfferHeaderLen.
  destruct (Nat.ltb_spec (length data) 37); [done|].
  destruct (Z.eqb_spec (idx data 0) CustodyOfferType) as [Ht|]; [cbn [negb]|done].
  assert ((if (37 <? length data)%nat then drop 37 data else []) = drop 37 data) as ->
    by (destruct (Nat.ltb_spec 37 (length data)); [done|by rewrite drop_ge]).
  intros [= <-]. pose proof (le_get_bound (sub 33 37 data) (bytes_ok_sub _ _ _ Hok)) as B.
  unfold Zlen in B. rewrite sub_length in B by lia. change (2 ^ _) with 4294967296 in B.
  assert (length (sub 1 17 data) = 16%nat) as L1 by (rewrite sub_length; lia).
  assert (length (sub 17 33 data) = 16%nat) as L2 by (rewrite sub_length; lia).
  assert (length (sub 33 37 data) = 4%nat) as L3 by (rewrite sub_length; lia).
  split; [unfold offer_wf; cbn [oCustodyID oSourceHash oDeliveryID oPayload]; split_and!; auto with hub; lia|].
  rewrite offer_layout by done. cbn [oCustodyID oSourceHash oDeliveryID oPayload].
  rewrite le_put_get by auto with hub.
  rewrite <- (drop_0 data) at 5. rewrite (drop_idx data 0) by lia. rewrite Ht. f_equal.
  by rewrite (drop_sub 1 17 data), (drop_sub 17 33 data), (drop_sub 33 37 data) by lia.
Qed.

Lemma ack_parse a rest : ack_wf a → UnmarshalCustodyACK (MarshalCustodyACK a ++ rest) = Ok a.
Proof.
  intros (Hid & _ & Hh & _ & Hs & _). rewrite ack_layout by done.
  destruct a as [id h sg]. cbn [aCustodyID aAcceptorHash aSignature] in *.
  unfold UnmarshalCustodyACK, custodyACKLen. rewrite (proj2 (Nat.ltb_ge _ _)) by len.
  change (idx ((CustodyACKType :: ?x) ++ ?y) 0) with CustodyACKType. cbn [negb Z.eqb CustodyACKType Pos.eqb].
  change (CustodyACKType :: ?x) with ([CustodyACKType] ++ x). rewrite <- !app_assoc. f_equal. f_equal; by slices.
Qed.

Lemma ack_parse_inv data a :
  bytes_ok data → UnmarshalCustodyACK data = Ok a → ack_wf a ∧ data = MarshalCustodyACK a ++ drop 97 data.
Proof.
  intros Hok. unfold UnmarshalCustodyACK, custodyACKLen.
  destruct (Nat.ltb_spec (length data) 97); [done|].
  destruct (Z.eqb_spec (idx data 0) CustodyACKType) as [Ht|]; [cbn [negb]|done]. intros [= <-].
  assert (length (sub 1 17 data) = 16%nat) as L1 by (rewrite sub_length; lia).
  assert (length (sub 17 33 data) = 16%nat) as L2 by (rewrite sub_length; lia).
  assert (length (sub 33 97 data) = 64%nat) as L3 by (rewrite sub_length; lia).
  split; [unfold ack_wf; cbn [aCustodyID aAcceptorHash aSignature]; split_and!; auto with hub|].
  rewrite ack_layout by done. cbn [aCustodyID aAcceptorHash aSignature].
  rewrite <- (drop_0 data) at 1. rewrite (drop_idx data 0) by lia. rewrite Ht. cbn [app]. f_equal.
  rewrite (drop_sub 1 17 data), (drop_sub 17 33 data), (drop_sub 33 97 data) by lia.
  by rewrite <- !app_assoc.
Qed.

(** The custody packets are exact: an offer decodes exactly when it is the
    encoding of a well-formed offer, and an ACK exactly when its first 97 bytes
    are the encoding of a well-formed ACK. *)
Theorem custody_wire_exact data o a :
  bytes_ok data →
  (UnmarshalCustodyOffer data = Ok o ↔ offer_wf o ∧ MarshalCustodyOffer o = data) ∧
  (UnmarshalCustodyACK data = Ok a ↔ ack_wf a ∧ ∃ rest, data = MarshalCustodyACK a ++ rest).
Proof.
  intros Hok. split; split.
  - by apply offer_parse_inv.
  - intros [Hw <-]. by apply offer_parse.
  - intros H. destruct (ack_parse_inv data a Hok H) as [Hw E]. eauto.
  - intros [Hw [rest ->]]. by apply ack_parse.
Qed.

Definition sample_offer : CustodyOffer := MkOffer (replicate 16 1) (replicate 16 2) 77 [9; 8].

Lemma custody_wire_exact_witness :
  UnmarshalCustodyOffer (MarshalCustodyOffer sample_offer) = Ok sample_offer.
Proof.
  apply (custody_wire_exact (MarshalCustodyOffer sample_offer) sample_offer (MkACK [] [] [])).
  - apply (bool_decide_unpack _). vm_compute. exact I.
  - split; [|reflexivity]. unfold offer_wf. cbn. split_and!; try done; try lia;
      apply (bool_decide_unpack _); vm_compute; exact I.
Defined.

(** ** The manager never panics and its channels are used once *)

Definition entry_ok (chs : gmap nat chan) (p : pendingCustody) : Prop :=
  match state p with
  | CustodyOffered => chs !! ackCh p = Some (MkChan None false)
  | CustodyAccepted => ∃ a, chs !! ackCh p = Some (MkChan (Some a) true)
  | CustodyExpired => False
  end.

(** Waiting entries have an open empty channel, accepted ones a closed channel
    with the ACK; no two entries share a channel; new channels are new. *)
Definition inv (cm : CustodyManager) : Prop :=
  (∀ id p, pending cm !! id = Some p → entry_ok (chans cm) p) ∧
  (∀ id1 id2 p1 p2, pending cm !! id1 = Some p1 → pending cm !! id2 = Some p2 →
     ackCh p1 = ackCh p2 → id1 = id2) ∧
  (∀ c, (nextCh cm ≤ c)%nat → chans cm !! c = None).

Lemma entry_ok_chan chs p : entry_ok chs p → is_Some (chs !! ackCh p).
Proof. unfold entry_ok. destruct (state p); [by eauto|intros [a Ha]; by eauto|done]. Qed.

(** An entry does not notice a change to a channel that is not its own. *)
Lemma entry_ok_insert chs p c x : ackCh p ≠ c → entry_ok chs p → entry_ok (<[c := x]> chs) p.
Proof. intros Hne. unfold entry_ok. destruct (state p); by rewrite ?lookup_insert_ne. Qed.

Inductive event := EvRegister (now : Z) (o : CustodyOffer) | EvAck (a : CustodyACK)
                 | EvReap (now : Z) | EvClear.

Definition apply_event (e : event) (cm : CustodyManager) : option CustodyManager :=
  match e with
  | EvRegister now o => Some (RegisterOffer now o cm).2
  | EvAck a => snd <$> HandleACK a cm
  | EvReap now => snd <$> Reap now cm
  | EvClear => Some (Clear cm)
  end.

Lemma register_inv now o cm : inv cm → inv (RegisterOffer now o cm).2.
Proof.
  intros (He & Hi & Hf). unfold RegisterOffer, inv. cbn.
  assert (∀ id p, pending cm !! id = Some p → ackCh p ≠ nextCh cm) as Hne.
  { intros id p Hp E. destruct (entry_ok_chan _ _ (He id p Hp)) as [x Hx]. rewrite E, Hf in Hx; [done|lia]. }
  split_and!.
  - intros id p. rewrite lookup_insert_Some. intros [[<- <-]|[Hid Hp]].
    + unfold entry_ok. cbn. apply lookup_insert_eq.
    + apply entry_ok_insert; [by eapply Hne|by eapply He].
  - intros id1 id2 p1 p2. rewrite !lookup_insert_Some.
    intros [[<- <-]|[H1 Hp1]] [[<- <-]|[H2 Hp2]] E; cbn in E; try done.
    + exfalso. by apply (Hne id2 p2).
    + exfalso. by apply (Hne id1 p1).
    + by eapply Hi.
  - intros c Hc. rewrite lookup_insert_ne by lia. apply Hf. lia.
Qed.

(** What an ACK does: nothing unless its offer is waiting; then it is put in
    the offer's channel, the channel is closed and the offer is accepted. *)
Lemma HandleACK_spec a cm :
  inv cm →
  HandleACK a cm =
    match pending cm !! aCustodyID a with
    | Some p =>
        if decide (state p = CustodyOffered) then
          Some (true, MkManager
            (<[aCustodyID a := MkPending (offer p) CustodyAccepted (offeredAt p) (ackCh p)]> (pending cm))
            (timeout cm) (<[ackCh p := MkChan (Some a) true]> (chans cm)) (nextCh cm))
        else Some (false, cm)
    | None => Some (false, cm)
    end.
Proof.
  intros (He & _). unfold HandleACK. destruct (pending cm !! aCustodyID a) as [p|] eqn:Hp; [|done].
  apply He in Hp. unfold entry_ok in Hp. destruct (state p); cbn in *; [|done..].
  unfold try_send. rewrite Hp. cbn. unfold close_chan. rewrite lookup_insert_eq. cbn.
  by rewrite insert_insert_eq.
Qed.

Lemma ack_inv a cm b cm' : inv cm → HandleACK a cm = Some (b, cm') → inv cm'.
Proof.
  intros Hinv. rewrite HandleACK_spec by done. pose proof Hinv as (He & Hi & Hf).
  destruct (pending cm !! aCustodyID a) as [p|] eqn:Hp; [|by intros [= _ <-]].
  case_decide as Hs; [|by intros [= _ <-]]. intros [= _ <-]. unfold inv. cbn. split_and!.
  - intros id q. rewrite lookup_insert_Some. intros [[<- <-]|[Hid Hq]].
    + unfold entry_ok. cbn. exists a. apply lookup_insert_eq.
    + apply entry_ok_insert; [|by eapply He]. intros E. apply Hid. by eapply Hi.
  - intros id1 id2 p1 p2. rewrite !lookup_insert_Some.
    intros [[<- <-]|[H1 Hp1]] [[<- <-]|[H2 Hp2]] E; cbn in E; [done|by eapply Hi..].
  - intros c Hc. rewrite lookup_insert_ne; [by apply Hf|]. intros <-.
    apply He, entry_ok_chan in Hp as [x Hx]. rewrite Hf in Hx; done.
Qed.

Lemma clear_inv cm : inv cm → inv (Clear cm).
Proof.
  intros (He & Hi & Hf). unfold Clear, inv. cbn. split_and!; [| |done].
  - intros id p. rewrite map_lookup_filter_Some. intros [Hp _]. by eapply He.
  - intros id1 id2 p1 p2. rewrite !map_lookup_filter_Some. intros [? _] [? _]. by eapply Hi.
Qed.

(** The entries [Reap] expires. *)
Definition dead (now t : Z) (e : list Z * pendingCustody) : bool :=
  bool_decide (state e.2 = CustodyOffered) && (t <? now - offeredAt e.2).

Lemma reap_loop now L : ∀ n0 cm,
  (∀ e, e ∈ L → state e.2 = CustodyOffered → chans cm !! ackCh e.2 = Some (MkChan None false)) →
  NoDup ((λ e : list Z * pendingCustody, ackCh e.2) <$> L) →
  foldl (λ acc e, acc ← acc; reap_entry now acc e) (Some (n0, cm)) L =
  let D := List.filter (dead now (timeout cm)) L in
  Some (n0 + Zlen D,
    MkManager (foldl (λ m (e : list Z * pendingCustody), delete e.1 m) (pending cm) D) (timeout cm)
      (foldl (λ m (e : list Z * pendingCustody), <[ackCh e.2 := MkChan None true]> m) (chans cm) D) (nextCh cm)).
Proof.
  induction L as [|[id p] L IH]; intros n0 cm Hch Hnd; cbn [foldl].
  { cbn. rewrite Z.add_0_r. by destruct cm. }
  apply NoDup_cons in Hnd as [Hp Hnd]. cbn [List.filter mbind option_bind]. unfold reap_entry at 2.
  fold (dead now (timeout cm) (id, p)). change (bool_decide (state p = CustodyOffered) && (timeout cm <? now - offeredAt p))
    with (dead now (timeout cm) (id, p)).
  destruct (dead now (timeout cm) (id, p)) eqn:Ed.
  - unfold dead in Ed. apply andb_true_iff in Ed as [Es%bool_decide_eq_true _]. cbn in Es.
    pose proof (Hch (id, p) ltac:(set_solver) Es) as Hc. cbn in Hc.
    unfold close_chan. rewrite Hc. cbn [chClosed chBuf mbind option_bind].
    rewrite IH; [|clear IH|done].
    + cbv zeta. cbn [timeout pending chans nextCh foldl fst snd]. rewrite Zlen_cons.
      do 2 f_equal. lia.
    + intros e He Hs. cbn. rewrite lookup_insert_ne; [apply Hch; [set_solver|done]|].
      intros E. apply Hp. apply list_elem_of_fmap. exists e. done.
  - rewrite IH; [done| |done]. intros e He. apply Hch. set_solver.
Qed.

Lemma delete_all_lookup (D : list (list Z * pendingCustody)) (m : gmap (list Z) pendingCustody) id :
  foldl (λ m (e : list Z * pendingCustody), delete e.1 m) m D !! id =
  if decide (id ∈ D.*1) then None else m !! id.
Proof.
  revert m. induction D as [|e D IH]; intros m; [done|]. cbn [foldl].
  rewrite fmap_cons, IH. destruct (decide (id ∈ D.*1)); [by rewrite decide_True by set_solver|].
  destruct (decide (id = e.1)) as [->|].
  - by rewrite lookup_delete_eq, decide_True by set_solver.
  - by rewrite lookup_delete_ne, decide_False by set_solver.
Qed.

Lemma close_all_lookup (D : list (list Z * pendingCustody)) (m : gmap nat chan) c :
  foldl (λ m (e : list Z * pendingCustody), <[ackCh e.2 := MkChan None true]> m) m D !! c =
  if decide (c ∈ (λ e : list Z * pendingCustody, ackCh e.2) <$> D) then Some (MkChan None true) else m !! c.
Proof.
  revert m. induction D as [|e D IH]; intros m; [done|]. cbn [foldl].
  rewrite fmap_cons, IH. destruct (decide (c ∈ _)); [by rewrite decide_True by set_solver|].
  destruct (decide (c = ackCh e.2)) as [->|].
  - by rewrite lookup_insert_eq, decide_True by set_solver.
  - by rewrite lookup_insert_ne, decide_False by set_solver.
Qed.

Lemma dead_in cm now id p :
  (id, p) ∈ List.filter (dead now (timeout cm)) (map_to_list (pending cm)) ↔
  pending cm !! id = Some p ∧ dead now (timeout cm) (id, p) = true.
Proof. by rewrite list_elem_of_In, filter_In, <- list_elem_of_In, elem_of_map_to_list. Qed.

Lemma custody_reap_spec now cm :
  inv cm →
  ∃ n cm', Reap now cm = Some (n, cm') ∧ timeout cm' = timeout cm ∧ nextCh cm' = nextCh cm ∧
    (∀ id, pending cm' !! id =
       p ← pending cm !! id; if dead now (timeout cm) (id, p) then None else Some p) ∧
    (∀ id p, pending cm !! id = Some p → dead now (timeout cm) (id, p) = true →
       chans cm' !! ackCh p = Some (MkChan None true)) ∧
    (∀ c, chans cm' !! c = chans cm !! c ∨
       ∃ id p, pending cm !! id = Some p ∧ dead now (timeout cm) (id, p) = true ∧ ackCh p = c).
Proof.
  intros (He & Hi & Hf). unfold Reap. rewrite reap_loop.
  2:{ intros [id p] Hin Hs. apply elem_of_map_to_list, He in Hin. unfold entry_ok in Hin. cbn in *.
      by rewrite Hs in Hin. }
  2:{ apply NoDup_fmap_2_strong; [|apply NoDup_map_to_list].
      intros [id1 p1] [id2 p2] H1%elem_of_map_to_list H2%elem_of_map_to_list E. cbn in E.
      pose proof (Hi _ _ _ _ H1 H2 E). by simplify_eq. }
  cbv zeta. set (D := List.filter _ _). eexists _, _. split; [done|]. cbn [timeout nextCh pending chans].
  split; [done|]. split; [done|]. split_and!.
  - intros id. rewrite delete_all_lookup. destruct (pending cm !! id) as [p|] eqn:Hp; simpl.
    + destruct (dead now (timeout cm) (id, p)) eqn:Ed.
      * rewrite decide_True; [done|]. apply list_elem_of_fmap. exists (id, p). split; [done|].
        by apply dead_in.
      * rewrite decide_False; [done|]. intros ([id' p'] & -> & Hin)%list_elem_of_fmap.
        apply dead_in in Hin as [Hp' Ed']. cbn in *. congruence.
    + by case_decide.
  - intros id p Hp Ed. rewrite close_all_lookup, decide_True; [done|].
    apply list_elem_of_fmap. exists (id, p). split; [done|]. by apply dead_in.
  - intros c. rewrite close_all_lookup. case_decide as Hc; [|by left]. right.
    apply list_elem_of_fmap in Hc as ([id p] & -> & Hin). apply dead_in in Hin as [Hp Ed]. eauto.
Qed.

Lemma reap_inv now cm n cm' : inv cm → Reap now cm = Some (n, cm') → inv cm'.
Proof.
  intros Hinv Hr. pose proof Hinv as (He & Hi & Hf).
  destruct (custody_reap_spec now cm Hinv) as (n' & cm'' & Hr' & Ht & Hn & Hp & Hc1 & Hc2).
  rewrite Hr in Hr'. injection Hr' as <- <-.
  assert (∀ id p, pending cm' !! id = Some p →
    pending cm !! id = Some p ∧ dead now (timeout cm) (id, p) = false) as Hold.
  { intros id p H. rewrite Hp in H. destruct (pending cm !! id) as [q|]; [|done]. simpl in H.
    destruct (dead _ _ _) eqn:Ed; [done|]. by simplify_eq. }
  split_and!.
  - intros id p H. apply Hold in H as [H Ed]. pose proof (He id p H) as Hok. unfold entry_ok in *.
    destruct (Hc2 (ackCh p)) as [->|(id' & q & Hq & Edq & E)]; [done|].
    pose proof (Hi _ _ _ _ Hq H E) as ->. congruence.
  - intros id1 id2 p1 p2 [H1 _]%Hold [H2 _]%Hold. by eapply Hi.
  - intros c Hlt. destruct (Hc2 c) as [->|(id' & q & Hq & _ & E)]; [apply Hf; lia|].
    apply He, entry_ok_chan in Hq as [x Hx]. rewrite E, Hf in Hx; [done|lia].
Qed.

(** What may happen to the channel [c] when [e] happens in [cm]. *)
Definition channel_fate (cm : CustodyManager) (e : event) (cm' : CustodyManager) (c : nat) (x : chan) : Prop :=
  chans cm' !! c = Some x ∨
  x = MkChan None false ∧ ∃ id p, pending cm !! id = Some p ∧ state p = CustodyOffered ∧ ackCh p = c ∧
    ((∃ a, e = EvAck a ∧ aCustodyID a = id ∧ chans cm' !! c = Some (MkChan (Some a) true)) ∨
     (∃ now, e = EvReap now ∧ timeout cm < now - offeredAt p ∧
       chans cm' !! c = Some (MkChan None true) ∧ pending cm' !! id = None)).

(** No event makes the manager panic (no send on or second close of a
    closed channel), and every channel is used once: it stays as it is, or it
    was open and empty and its waiting offer was acknowledged (the ACK is
    delivered and the channel closed) or timed out (it is closed empty and the
    offer forgotten). In particular a delivered ACK is never replaced. *)
Theorem custody_channels_once e cm :
  inv cm →
  ∃ cm', apply_event e cm = Some cm' ∧ inv cm' ∧
    ∀ c x, chans cm !! c = Some x → channel_fate cm e cm' c x.
Proof.
  intros Hinv. pose proof Hinv as (He & Hi & Hf). destruct e as [now o|a|now|]; cbn [apply_event].
  - eexists. split; [done|]. split; [by apply register_inv|]. intros c x Hx. left. cbn.
    rewrite lookup_insert_ne; [done|]. intros <-. rewrite Hf in Hx; done.
  - pose proof (HandleACK_spec a cm Hinv) as E. destruct (HandleACK a cm) as [[b cm']|] eqn:Eh; cycle 1.
    { destruct (pending cm !! _); [by case_decide|done]. }
    eexists. split; [done|]. split; [by eapply ack_inv|]. intros c x Hx. cbn.
    destruct (pending cm !! aCustodyID a) as [p|] eqn:Hp; [|simplify_eq; by left].
    case_decide as Hs; [|simplify_eq; by left]. simplify_eq.
    destruct (decide (ackCh p = c)) as [<-|Hne]; [right|left; cbn; by rewrite lookup_insert_ne].
    pose proof (He _ _ Hp) as Hok. unfold entry_ok in Hok. rewrite Hs, Hx in Hok. simplify_eq.
    split; [done|]. exists (aCustodyID a), p. split_and!; [done..|]. left. exists a.
    split_and!; [done..|]. apply lookup_insert_eq.
  - destruct (custody_reap_spec now cm Hinv) as (n & cm' & Hr & Ht & Hn & Hp & Hc1 & Hc2).
    rewrite Hr. eexists. split; [done|]. split; [by eapply reap_inv|]. intros c x Hx. cbn.
    destruct (Hc2 c) as [E|(id & p & Hq & Ed & <-)]; [left; by rewrite E|]. right.
    pose proof (He _ _ Hq) as Hok. pose proof Ed as Ed'. unfold dead in Ed. cbn in Ed.
    apply andb_true_iff in Ed as [Es%bool_decide_eq_true Et%Z.ltb_lt].
    unfold entry_ok in Hok. rewrite Es, Hx in Hok. simplify_eq. split; [done|].
    exists id, p. split_and!; [done..|]. right. exists now. split_and!; [done..| |].
    + by apply (Hc1 id).
    + rewrite Hp, Hq. simpl. by rewrite Ed'.
  - eexists. split; [done|]. split; [by apply clear_inv|]. intros c x Hx. by left.
Qed.

Definition sample_manager : CustodyManager := (RegisterOffer 5 sample_offer (NewCustodyManager 30)).2.

Definition sample_ack : CustodyACK := MkACK (replicate 16 1) (replicate 16 3) (replicate 64 4).

Lemma new_inv t : inv (NewCustodyManager t).
Proof. split_and!; [intros id p|intros id1 id2 p1 p2|intros c _]; cbn; by rewrite lookup_empty. Qed.

Lemma custody_channels_once_witness :
  ∃ cm', apply_event (EvAck sample_ack) sample_manager = Some cm' ∧ inv cm' ∧
    chans cm' !! 0%nat = Some (MkChan (Some sample_ack) true).
Proof.
  destruct (custody_channels_once (EvAck sample_ack) sample_manager) as (cm' & H & Hi & _).
  { apply register_inv, new_inv. }
  exists cm'. split; [exact H|]. split; [exact Hi|].
  revert H. vm_compute. intros [= <-]. reflexivity.
Defined.

(** Whether an ACK is accepted depends on its custody id alone: neither
    the acceptor hash nor the signature is looked at, so any packet with the
    id of a waiting offer accepts it. *)
Theorem custody_ack_unchecked raw cm a p :
  inv cm → UnmarshalCustodyACK raw = Ok a →
  pending cm !! aCustodyID a = Some p → state p = CustodyOffered →
  ∃ cm', on_ack raw cm = Some (true, cm') ∧ chans cm' !! ackCh p = Some (MkChan (Some a) true).
Proof.
  intros Hinv Hu Hp Hs. unfold on_ack. rewrite Hu, HandleACK_spec, Hp by done.
  rewrite decide_True by done. eexists. split; [done|]. apply lookup_insert_eq.
Qed.

Lemma custody_ack_unchecked_witness :
  ∃ cm', on_ack (MarshalCustodyACK (MkACK (replicate 16 1) (replicate 16 0) (replicate 64 0))) sample_manager
    = Some (true, cm').
Proof.
  destruct (custody_ack_unchecked (MarshalCustodyACK (MkACK (replicate 16 1) (replicate 16 0) (replicate 64 0)))
    sample_manager (MkACK (replicate 16 1) (replicate 16 0) (replicate 64 0))
    (MkPending sample_offer CustodyOffered 5 0)) as (cm' & H & _);
    [apply register_inv, new_inv|vm_compute; reflexivity|vm_compute; reflexivity|reflexivity|].
  exists cm'. exact H.
Defined.

(** ** The Hub's answer to an offer *)

Lemma copy_at_full {A} (src buf : list A) : length src = length buf → copy_at 0 src buf = src.
Proof.
  intros Hl. rewrite (copy_at_eq [] buf [] src); [by rewrite app_nil_r|by rewrite app_nil_r|done|done].
Qed.

(** The Hub answers every well-formed offer, when its identity is loaded,
    with an ACK for the offered id, under its own hash, whose signature
    verifies under the Hub's public key; for any signature scheme in which
    what a key signs verifies under its public half. *)
Theorem custody_offer_answered Sign Verify pub destHash privKey o :
  (∀ key msg, length (Sign key msg) = 64%nat ∧ bytes_ok (Sign key msg)) →
  (∀ key msg, Verify (pub key) msg (Sign key msg) = true) →
  length destHash = 16%nat → bytes_ok destHash → offer_wf o →
  ∃ reply ack, on_offer Sign (Some (destHash, privKey)) (MarshalCustodyOffer o) = Some reply ∧
    UnmarshalCustodyACK reply = Ok ack ∧ aCustodyID ack = oCustodyID o ∧
    aAcceptorHash ack = destHash ∧ VerifyCustodyACK Verify ack (pub privKey) = true.
Proof.
  intros Hsig Hver Hdl Hdb Ho. unfold on_offer. rewrite offer_parse by done.
  rewrite copy_at_full by done. unfold SignCustodyACK.
  destruct (Hsig privKey (ack_message (oCustodyID o) destHash)) as [Hl Hb].
  rewrite copy_at_full by (by rewrite length_replicate).
  eexists _, _. split; [done|]. split.
  - rewrite <- (app_nil_r (MarshalCustodyACK _)). apply ack_parse.
    destruct Ho as (? & ? & _). unfold ack_wf. cbn. split_and!; done.
  - cbn. split; [done|]. split; [done|]. apply Hver.
Qed.

(** A signature that repeats the key and the message length is enough to see
    the hypotheses hold together. *)
Lemma custody_offer_answered_witness :
  ∃ reply ack, on_offer (λ _ _, replicate 64 5) (Some (replicate 16 3, [])) (MarshalCustodyOffer sample_offer) = Some reply ∧
    UnmarshalCustodyACK reply = Ok ack ∧ aCustodyID ack = replicate 16 1.
Proof.
  destruct (custody_offer_answered (λ _ _, replicate 64 5) (λ _ _ s, bool_decide (s = replicate 64 5)) (λ k, k)
    (replicate 16 3) [] sample_offer) as (reply & ack & H1 & H2 & H3 & _).
  - intros. split; [reflexivity|]. apply (bool_decide_unpack _). vm_compute. exact I.
  - intros. reflexivity.
  - reflexivity.
  - apply (bool_decide_unpack _). vm_compute. exact I.
  - unfold offer_wf. cbn. split_and!; try done; try lia; apply (bool_decide_unpack _); vm_compute; exact I.
  - exists reply, ack. split; [exact H1|]. split; [exact H2|]. exact H3.
Defined.

End Custody.
