(* ===== verification/Smaz2.v ===== *)
(** SMAZ2 text compression, [internal/compress/smaz2.go] (the Meshtastic table,
    compressor and decompressor) and [internal/compress/smaz2_default.go] (the
    default table, whose coder is a library and hence a parameter). *)
From S2P Require Import Prelude.

Module Smaz2.

Local Open Scope string_scope.
Local Open Scope Z_scope.

Definition meshtasticBigrams : list Z := bytes_of_string
  "intherreheanonesorteattistenntartondalitseediseangoulecomeneriroderaioicliofasetvetasihamaecomceelllcaurlachhidihofonsotacnarssoprrtsassusnoiltsemctgeloeebetrnipeiepancpooldaadviunamutwimoshyoaiewowosfiepttmiopiaweagsuiddoooirspplscaywaigeirylytuulivimabty".

Definition meshtasticWords : list (list Z) := map bytes_of_string
  ["mesh"; "node"; "message"; "channel"; "signal"; "radio"; "frequency"; "power";
   "antenna"; "range"; "gateway"; "relay"; "bridge"; "network"; "packet"; "payload";
   "status"; "battery"; "voltage"; "level"; "percent"; "position"; "latitude"; "longitude";
   "altitude"; "heading"; "speed"; "distance"; "bearing"; "elevation"; "terrain"; "route";
   "satellite"; "iridium"; "modem"; "serial"; "port"; "device"; "sensor"; "timestamp";
   "meshtastic"; "location"; "coordinates"; "waypoint"; "temperature"; "humidity"; "pressure"; "weather";
   "connected"; "offline"; "online"; "update"; "received"; "transmitted"; "error"; "warning";
   "critical"; "enabled"; "disabled"; "configuration"; "settings"; "interface"; "protocol"; "timeout";
   "emergency"; "rescue"; "medical"; "assistance"; "helicopter"; "vehicle"; "boat"; "shelter";
   "water"; "food"; "camp"; "base"; "standing"; "moving"; "stopped"; "request";
   "respond"; "acknowledge"; "confirmed"; "denied"; "approved"; "copy"; "over"; "roger";
   "affirmative"; "negative"; "clear"; "blocked"; "north"; "south"; "east"; "west";
   "success"; "failed"; "pending"; "queued"; "delivered"; "expired"; "forwarded"; "dropped";
   "retry"; "noise"; "interference"; "coverage"; "degrees"; "meters"; "kilometers"; "knots";
   "duration"; "interval"; "threshold"; "maximum"; "minimum"; "average"; "total"; "count";
   "report"; "checksum"; "baud"; "cellular"; "satellite"; "webhook"; "mqtt"; "iridium";
   "that"; "this"; "with"; "from"; "your"; "have"; "more"; "will";
   "home"; "about"; "time"; "they"; "what"; "which"; "their"; "there";
   "only"; "when"; "here"; "also"; "help"; "been"; "would"; "were";
   "some"; "these"; "like"; "than"; "find"; "back"; "just"; "over";
   "into"; "them"; "should"; "then"; "good"; "well"; "where"; "right";
   "high"; "through"; "each"; "very"; "read"; "need"; "many"; "said";
   "does"; "under"; "full"; "part"; "could"; "great"; "send"; "type";
   "because"; "local"; "those"; "using"; "result"; "before"; "make"; "data";
   "area"; "want"; "show"; "even"; "check"; "open"; "today"; "state";
   "both"; "down"; "system"; "three"; "total"; "place"; "without"; "access";
   "think"; "current"; "control"; "change"; "small"; "rate"; "number"; "line";
   "name"; "list"; "work"; "last"; "next"; "used"; "free"; "other";
   "first"; "world"; "after"; "best"; "long"; "based"; "code"; "being";
   "while"; "care"; "same"; "found"; "link"; "text"; "site"; "form";
   "event"; "love"; "main"; "still"; "information"; "service"; "people"; "year";
   "email"; "group"; "detail"; "design"; "board"; "point"; "test"; "track"].

Local Close Scope string_scope.

(** [init]: the index of a word is that of its last occurrence. *)
Definition meshtasticWordIndex : gmap (list Z) nat :=
  foldl (λ m '(i, w), <[w := i]> m) ∅ (zip (seq 0 (length meshtasticWords)) meshtasticWords).

Definition space : Z := 32.

(** The longest word among the prefixes of [s] with a length of [lens], with
    its index; [(0, 0)] when there is none. *)
Definition best_in (index : gmap (list Z) nat) (s : list Z) (lens : list nat) : nat * nat :=
  foldl (λ '(bestLen, bestIdx) n,
    match index !! take n s with
    | Some i => if (bestLen <? n)%nat then (n, i) else (bestLen, bestIdx)
    | None => (bestLen, bestIdx)
    end) (0%nat, 0%nat) lens.

Definition best_word : list Z → list nat → nat * nat := best_in meshtasticWordIndex.

(** The first bigram equal to [b0 b1]. *)
Definition find_bigram (b0 b1 : Z) : option nat :=
  List.find (λ i, (idx meshtasticBigrams (2 * i) =? b0) && (idx meshtasticBigrams (2 * i + 1) =? b1))
    (seq 0 (length meshtasticBigrams / 2)).

(** The compressor's state: the output and the position of the count byte of
    the verbatim run at its end, if one is open ([verbatimStart >= 0]). *)
Record cstate := MkC { dst : list Z; verbatimStart : option nat }.

Definition emit (c : cstate) (bs : list Z) : cstate := MkC (dst c ++ bs) None.

Definition emit_verbatim (c : cstate) (ch : Z) : cstate :=
  let open := match verbatimStart c with
              | Some v => if idx (dst c) v <? 5 then Some v else None
              | None => None
              end in
  match open with
  | Some v =>
      let n := u8 (idx (dst c) v + 1) in
      let d := <[v := n]> (dst c) ++ [ch] in
      MkC d (if n =? 5 then None else Some v)
  | None => MkC (dst c ++ [1; ch]) (Some (length (dst c)))
  end.

(** One turn of the loop at [s[pos:] = rest], non-empty: the new state and the
    number of bytes consumed. *)
Definition compress_step (rest : list Z) (c : cstate) : cstate * nat :=
  let ch := idx rest 0 in
  let '(spLen, spIdx) :=
    if (ch =? space) && (1 <? length rest)%nat
    then best_word (drop 1 rest) (seq 0 (Nat.min 40 (length rest - 1) + 1))
    else (0%nat, 0%nat) in
  if (4 <=? spLen)%nat then (emit c [8; u8 (Z.of_nat spIdx)], (1 + spLen)%nat)
  else
    let maxLen := Nat.min 40 (length rest) in
    let '(bestLen, bestIdx) := best_word rest (seq 4 (maxLen - 3)) in
    if (4 <=? bestLen)%nat then
      if (bestLen <? length rest)%nat && (idx rest bestLen =? space)
      then (emit c [7; u8 (Z.of_nat bestIdx)], (bestLen + 1)%nat)
      else (emit c [6; u8 (Z.of_nat bestIdx)], bestLen)
    else
      match (if (1 <? length rest)%nat then find_bigram ch (idx rest 1) else None) with
      | Some i => (emit c [Z.lor 128 (u8 (Z.of_nat i))], 2%nat)
      | None =>
          if (ch =? 0) || ((9 <=? ch) && (ch <? 128)) then (emit c [ch], 1%nat)
          else (emit_verbatim c ch, 1%nat)
      end.

(** [None]: out of fuel. *)
Fixpoint compress_loop (fuel : nat) (rest : list Z) (c : cstate) : option (list Z) :=
  match rest with
  | [] => Some (dst c)
  | _ =>
      match fuel with
      | O => None
      | S fuel => let '(c, n) := compress_step rest c in compress_loop fuel (drop n rest) c
      end
  end.

(** Every turn consumes a byte, so the input length is fuel enough. *)
Definition compressMeshtastic (s : list Z) : option (list Z) :=
  compress_loop (length s) s (MkC [] None).

Definition Compress (data : list Z) : option (list Z) :=
  if (length data =? 0)%nat then Some [] else compressMeshtastic data.

(** ** Decompression *)

Inductive smaz_error := BigramRange | VerbatimOverflow | EscapeAtEnd | WordRange.

Definition word_at (i : Z) : option (list Z) := meshtasticWords !! Z.to_nat i.

(** One turn at [c[i:] = b :: rest]: what is appended and what is left. *)
Definition decompress_step (b : Z) (rest : list Z) : result smaz_error (list Z * list Z) :=
  if 128 <=? b then
    let i := Z.to_nat (Z.land b 127) in
    if (length meshtasticBigrams <=? i * 2 + 1)%nat then Err BigramRange
    else Ok ([idx meshtasticBigrams (i * 2); idx meshtasticBigrams (i * 2 + 1)], rest)
  else if (1 <=? b) && (b <=? 5) then
    let n := Z.to_nat b in
    if (length rest <? n)%nat then Err VerbatimOverflow
    else Ok (take n rest, drop n rest)
  else if (b =? 6) || (b =? 7) || (b =? 8) then
    match rest with
    | [] => Err EscapeAtEnd
    | i :: rest =>
        match word_at i with
        | None => Err WordRange
        | Some w =>
            Ok (if b =? 6 then w else if b =? 7 then w ++ [space] else [space] ++ w, rest)
        end
    end
  else Ok ([b], rest).

Fixpoint decompress_loop (fuel : nat) (c res : list Z) : option (result smaz_error (list Z)) :=
  match c with
  | [] => Some (Ok res)
  | b :: rest =>
      match fuel with
      | O => None
      | S fuel =>
          match decompress_step b rest with
          | Err e => Some (Err e)
          | Ok (out, rest) => decompress_loop fuel rest (res ++ out)
          end
      end
  end.

Definition decompressMeshtastic (c : list Z) : option (result smaz_error (list Z)) :=
  decompress_loop (length c) c [].

Definition Decompress (data : list Z) : option (result smaz_error (list Z)) :=
  if (length data =? 0)%nat then Some (Ok []) else decompressMeshtastic data.

(** The tables are never unfolded by the proofs below. *)
#[local] Opaque meshtasticBigrams meshtasticWords meshtasticWordIndex.

(** ** Decoding item by item *)

Lemma decompress_step_shrinks b rest out rest' :
  decompress_step b rest = Ok (out, rest') → (length rest' ≤ length rest)%nat.
Proof.
  unfold decompress_step. repeat case_match; intros [= <- <-]; simpl; rewrite ?length_drop; lia.
Qed.

(** Enough fuel is as good as more. *)
Lemma decompress_fuel fuel c res :
  (length c ≤ fuel)%nat → decompress_loop fuel c res = decompress_loop (length c) c res.
Proof.
  revert c res. induction fuel as [fuel IH] using lt_wf_ind. intros c res Hf.
  destruct c as [|b rest]; [by destruct fuel|]. destruct fuel as [|fuel]; simpl in Hf; [lia|].
  cbn [decompress_loop length]. destruct (decompress_step b rest) as [[out rest']|e] eqn:E; [|done].
  apply decompress_step_shrinks in E. rewrite (IH fuel), (IH (length rest)) by lia. done.
Qed.

Lemma decompress_total c res : is_Some (decompress_loop (length c) c res).
Proof.
  revert res. induction c as [c IH] using (induction_ltof1 _ (@length Z)). unfold ltof in IH.
  intros res. destruct c as [|b rest]; [by eexists|]. cbn [decompress_loop length].
  destruct (decompress_step b rest) as [[out rest']|e] eqn:E; [|by eexists].
  apply decompress_step_shrinks in E. rewrite decompress_fuel by done.
  apply IH. simpl. lia.
Qed.

(** [c] decodes to [out] in front of anything. *)
Definition Decodes (c out : list Z) : Prop :=
  ∀ rest res, decompress_loop (length (c ++ rest)) (c ++ rest) res =
              decompress_loop (length rest) rest (res ++ out).

Lemma Decodes_nil : Decodes [] [].
Proof. intros rest res. by rewrite app_nil_r. Qed.

Lemma Decodes_app c1 c2 o1 o2 : Decodes c1 o1 → Decodes c2 o2 → Decodes (c1 ++ c2) (o1 ++ o2).
Proof. intros H1 H2 rest res. by rewrite <- app_assoc, H1, H2, <- app_assoc. Qed.

Lemma Decodes_item b tail out :
  (∀ rest, decompress_step b (tail ++ rest) = Ok (out, rest)) → Decodes (b :: tail) out.
Proof.
  intros H rest res. cbn [app length decompress_loop]. rewrite H. apply decompress_fuel.
  rewrite length_app. lia.
Qed.

Lemma Decodes_decompress c out : Decodes c out → Decompress c = Some (Ok out).
Proof.
  intros H. specialize (H [] []). rewrite app_nil_r in H. simpl in H. unfold Decompress.
  destruct c as [|b c]; [|exact H]. simpl in *. congruence.
Qed.

Lemma Decodes_literal b : b = 0 ∨ 9 <= b < 128 → Decodes [b] [b].
Proof.
  intros Hb. apply Decodes_item. intros rest. unfold decompress_step.
  rewrite (proj2 (Z.leb_gt 128 b)) by lia.
  destruct (Z.leb_spec 1 b), (Z.leb_spec b 5); cbn [andb]; try lia;
    rewrite !(proj2 (Z.eqb_neq b _)) by lia; done.
Qed.

Lemma Decodes_verbatim run :
  (1 ≤ length run ≤ 5)%nat → Decodes (Z.of_nat (length run) :: run) run.
Proof.
  intros Hl. apply Decodes_item. intros rest. unfold decompress_step.
  rewrite (proj2 (Z.leb_gt 128 _)), (proj2 (Z.leb_le 1 _)), (proj2 (Z.leb_le _ 5)) by lia. cbn [andb].
  rewrite Nat2Z.id, (proj2 (Nat.ltb_ge _ _)) by (rewrite length_app; lia).
  by rewrite take_app_length, drop_app_length.
Qed.

Lemma bigrams_length : length meshtasticBigrams = 256%nat.
Proof. vm_compute. reflexivity. Qed.

Lemma words_length : length meshtasticWords = 256%nat.
Proof. vm_compute. reflexivity. Qed.

Lemma bigram_byte i :
  (i < 128)%nat → Z.lor 128 (u8 (Z.of_nat i)) = 128 + Z.of_nat i ∧ Z.land (128 + Z.of_nat i) 127 = Z.of_nat i.
Proof.
  intros Hi. pose proof (zall_spec 128 (λ i, (Z.lor 128 (u8 i) =? 128 + i) && (Z.land (128 + i) 127 =? i))
    ltac:(vm_compute; reflexivity) (Z.of_nat i) ltac:(lia)) as H. cbv beta in H. by zbool.
Qed.

Lemma find_bigram_spec b0 b1 i :
  find_bigram b0 b1 = Some i → Decodes [Z.lor 128 (u8 (Z.of_nat i))] [b0; b1].
Proof.
  unfold find_bigram. rewrite bigrams_length. intros H. apply find_some in H as [Hin H].
  apply in_seq in Hin. change (256 / 2)%nat with 128%nat in Hin. zbool.
  destruct (bigram_byte i ltac:(lia)) as [-> Hl]. apply Decodes_item. intros rest.
  unfold decompress_step. rewrite (proj2 (Z.leb_le 128 _)), Hl, Nat2Z.id, bigrams_length by lia.
  rewrite (proj2 (Nat.leb_gt _ _)) by lia. rewrite (Nat.mul_comm i 2). by subst.
Qed.

(** ** Words *)

Lemma index_loop (words : list (list Z)) : ∀ i0 (m : gmap (list Z) nat) w i,
  foldl (λ m '(i, w), <[w := i]> m) m (zip (seq i0 (length words)) words) !! w = Some i →
  m !! w = Some i ∨ (i0 ≤ i)%nat ∧ words !! (i - i0)%nat = Some w.
Proof.
  induction words as [|x words IH]; intros i0 m w i; cbn [length seq zip_with foldl]; [by left|].
  intros H. apply IH in H as [H|[H1 H2]].
  - apply lookup_insert_Some in H as [[-> ->]|[_ H]]; [|by left]. right. by rewrite Nat.sub_diag.
  - right. split; [lia|]. replace (i - i0)%nat with (S (i - S i0)) by lia. done.
Qed.

Lemma index_word w i :
  meshtasticWordIndex !! w = Some i → word_at (u8 (Z.of_nat i)) = Some w.
Proof.
  intros H. unfold word_at. pose proof (index_loop meshtasticWords 0 ∅ w i) as Hloop.
  change (foldl _ _ _) with meshtasticWordIndex in Hloop. apply Hloop in H as [H|[_ H]].
  - by rewrite lookup_empty in H.
  - rewrite Nat.sub_0_r in H. pose proof H as Hlt. apply lookup_lt_Some in Hlt.
    rewrite words_length in Hlt. rewrite u8_small by (unfold byte_ok; lia). by rewrite Nat2Z.id.
Qed.

Lemma best_in_spec index s lens n i :
  best_in index s lens = (n, i) → n = 0%nat ∨ n ∈ lens ∧ index !! take n s = Some i.
Proof.
  unfold best_in. revert n i. induction lens as [|x lens IH] using rev_ind; intros n i; cbn [foldl].
  - intros [= <- <-]. by left.
  - rewrite foldl_app. cbn [foldl]. destruct (foldl _ _ lens) as [bl bi].
    destruct (IH bl bi eq_refl) as [->|[Hin Hw]];
      destruct (index !! take x s) as [j|] eqn:Ej; try case_if; intros [= <- <-]; set_solver.
Qed.

Lemma best_word_spec s lens n i :
  best_word s lens = (n, i) → n = 0%nat ∨ n ∈ lens ∧ meshtasticWordIndex !! take n s = Some i.
Proof. exact (best_in_spec meshtasticWordIndex s lens n i). Qed.

Lemma Decodes_word e i w :
  word_at i = Some w →
  (e = 6 → Decodes [e; i] w) ∧ (e = 7 → Decodes [e; i] (w ++ [space])) ∧
  (e = 8 → Decodes [e; i] ([space] ++ w)).
Proof.
  intros Hw. split_and!; intros ->; apply Decodes_item; intros rest; unfold decompress_step; simpl;
    by rewrite Hw.
Qed.

(** ** The compressor's invariant *)

(** [c] holds the encoding of [out]; an open run is the last item. *)
Definition cinv (c : cstate) (out : list Z) : Prop :=
  match verbatimStart c with
  | None => Decodes (dst c) out
  | Some v => ∃ pre run out0, dst c = pre ++ Z.of_nat (length run) :: run ∧ v = length pre ∧
      (1 ≤ length run < 5)%nat ∧ Decodes pre out0 ∧ out = out0 ++ run
  end.

Lemma cinv_Decodes c out : cinv c out → Decodes (dst c) out.
Proof.
  unfold cinv. destruct (verbatimStart c) as [v|]; [|done].
  intros (pre & run & out0 & -> & _ & Hl & Hp & ->). apply Decodes_app; [done|].
  apply Decodes_verbatim. lia.
Qed.

Lemma emit_cinv c out bs x : cinv c out → Decodes bs x → cinv (emit c bs) (out ++ x).
Proof. intros Hc Hb. apply cinv_Decodes in Hc. by apply Decodes_app. Qed.

Lemma emit_verbatim_cinv c out ch : cinv c out → cinv (emit_verbatim c ch) (out ++ [ch]).
Proof.
  intros Hc. assert (cinv (MkC (dst c ++ [1; ch]) (Some (length (dst c)))) (out ++ [ch])) as Hnew.
  { exists (dst c), [ch], out. split; [done|]. split; [done|]. split; [simpl; lia|]. split; [by apply cinv_Decodes|done]. }
  unfold emit_verbatim. pose proof Hc as Hc'. unfold cinv in Hc.
  destruct (verbatimStart c) as [v|]; [|done].
  destruct Hc as (pre & run & out0 & Hd & -> & Hl & Hp & ->). rewrite Hd.
  assert (idx (pre ++ Z.of_nat (length run) :: run) (length pre) = Z.of_nat (length run)) as Hidx
    by (rewrite idx_app_r, Nat.sub_diag by lia; done).
  rewrite Hidx, (proj2 (Z.ltb_lt _ 5)) by lia. cbv zeta. rewrite Hidx.
  rewrite u8_small by (unfold byte_ok; lia).
  rewrite (insert_eq pre run _ _ (Z.of_nat (length run))) by done.
  assert (Z.of_nat (length run) + 1 = Z.of_nat (length (run ++ [ch]))) as E
    by (rewrite length_app; simpl; lia).
  rewrite E, <- !app_assoc. cbn [app]. destruct (Z.eqb_spec (Z.of_nat (length (run ++ [ch]))) 5).
  - unfold cinv. cbn. apply Decodes_app; [done|]. apply Decodes_verbatim.
    rewrite length_app in *. simpl in *. lia.
  - exists pre, (run ++ [ch]), out0. split; [done|]. split; [done|].
    split; [rewrite length_app in *; simpl in *; lia|]. split; [done|]. by rewrite app_assoc.
Qed.

Definition step_ok (c : cstate) (out rest : list Z) (r : cstate * nat) : Prop :=
  (1 ≤ r.2 ≤ length rest)%nat ∧ cinv r.1 (out ++ take r.2 rest) ∧
  (length (dst r.1) ≤ length (dst c) + 2 * r.2)%nat.

Lemma emit_step c out bs rest n :
  cinv c out → Decodes bs (take n rest) → (1 ≤ n ≤ length rest)%nat → (length bs ≤ 2 * n)%nat →
  step_ok c out rest (emit c bs, n).
Proof.
  intros Hc Hb Hn Hl. split; [done|]. split; [by apply emit_cinv|]. cbn. rewrite length_app. lia.
Qed.

Lemma emit_verbatim_length c ch : (length (dst (emit_verbatim c ch)) ≤ length (dst c) + 2)%nat.
Proof.
  unfold emit_verbatim. repeat case_match; cbn; rewrite ?length_app, ?length_insert; simpl; lia.
Qed.

Lemma compress_step_ok ch r c out : cinv c out → step_ok c out (ch :: r) (compress_step (ch :: r) c).
Proof.
  intros Hc. unfold compress_step. change (idx (ch :: r) 0) with ch. change (drop 1 (ch :: r)) with r.
  cbn [length]. rewrite Nat.sub_1_r. cbn [Nat.pred].
  destruct (if (ch =? space) && (1 <? S (length r))%nat then _ else _) as [spLen spIdx] eqn:Esp.
  destruct (Nat.leb_spec 4 spLen) as [Hsp|_].
  { destruct (Z.eqb_spec ch space) as [->|]; cbn [andb] in Esp; [|injection Esp; lia].
    destruct (1 <? S (length r))%nat; [|injection Esp; lia].
    apply best_word_spec in Esp as [->|[Hin Hw]]; [lia|]. apply elem_of_seq in Hin.
    apply index_word in Hw. apply emit_step; [done| |simpl; lia..].
    cbn [Nat.add take]. by apply (Decodes_word 8 _ _ Hw). }
  destruct (best_word (ch :: r) (seq 4 _)) as [bestLen bestIdx] eqn:Eb.
  destruct (Nat.leb_spec 4 bestLen) as [Hb|_].
  { apply best_word_spec in Eb as [->|[Hin Hw]]; [lia|]. apply elem_of_seq in Hin.
    apply index_word in Hw.
    destruct (Nat.ltb_spec bestLen (S (length r))) as [Hlt|Hge]; cbn [andb].
    - destruct (Z.eqb_spec (idx (ch :: r) bestLen) space) as [Esp'|].
      + apply emit_step; [done| |simpl; lia..].
        destruct (lookup_lt_is_Some_2 (ch :: r) bestLen ltac:(simpl; lia)) as [x Hx].
        rewrite (idx_lookup _ _ _ Hx) in Esp'. subst x. rewrite Nat.add_1_r, (take_S_r _ _ _ Hx).
        by apply (Decodes_word 7 _ _ Hw).
      + apply emit_step; [done| |simpl; lia..]. by apply (Decodes_word 6 _ _ Hw).
    - apply emit_step; [done| |simpl; lia..]. by apply (Decodes_word 6 _ _ Hw). }
  destruct (if (1 <? S (length r))%nat then find_bigram ch (idx (ch :: r) 1) else None) as [i|] eqn:Ebi.
  { destruct r as [|b1 r]; [done|]. simpl in Ebi. apply find_bigram_spec in Ebi.
    apply emit_step; [done| |simpl; lia..]. exact Ebi. }
  destruct ((ch =? 0) || ((9 <=? ch) && (ch <? 128))) eqn:El.
  - apply emit_step; [done| |simpl; lia..]. apply Decodes_literal.
    apply orb_true_iff in El as [?%Z.eqb_eq|El]; [by left|]. zbool. lia.
  - split; [simpl; lia|]. split; [by apply emit_verbatim_cinv|]. cbn [fst snd].
    pose proof (emit_verbatim_length c ch). lia.
Qed.

Lemma compress_loop_ok fuel : ∀ rest c out,
  (length rest ≤ fuel)%nat → cinv c out →
  ∃ d, compress_loop fuel rest c = Some d ∧ Decodes d (out ++ rest) ∧
    (length d ≤ length (dst c) + 2 * length rest)%nat.
Proof.
  induction fuel as [|fuel IH]; intros rest c out Hf Hc.
  - destruct rest as [|ch r]; [|simpl in Hf; lia]. cbn. eexists; split; [done|].
    rewrite app_nil_r. split; [by apply cinv_Decodes|lia].
  - destruct rest as [|ch r].
    { cbn. eexists; split; [done|]. rewrite app_nil_r. split; [by apply cinv_Decodes|lia]. }
    cbn [compress_loop]. pose proof (compress_step_ok ch r c out Hc) as Hs.
    destruct (compress_step (ch :: r) c) as [c' n]. destruct Hs as (Hn & Hc' & Hl). cbn [fst snd] in *.
    destruct (IH (drop n (ch :: r)) c' (out ++ take n (ch :: r))) as (d & -> & Hd & Hdl);
      [rewrite length_drop; lia|done|].
    eexists; split; [done|]. rewrite <- app_assoc, take_drop in Hd. split; [done|].
    rewrite length_drop in Hdl. lia.
Qed.

Lemma Compress_spec data :
  ∃ d, Compress data = Some d ∧ Decodes d data ∧ (length d ≤ 2 * length data)%nat.
Proof.
  unfold Compress. destruct (Nat.eqb_spec (length data) 0) as [E|E].
  - destruct data; [|done]. eexists; split; [done|]. split; [apply Decodes_nil|simpl; lia].
  - destruct (compress_loop_ok (length data) data (MkC [] None) []) as (d & Hd & H & Hl);
      [done|apply Decodes_nil|]. eexists; split; [exact Hd|]. done.
Qed.

(** The compressor terminates on every input, its output is at most twice
    as long, and decompressing it gives the input back; decompression itself
    terminates on every byte string. *)
Theorem smaz2_roundtrip data :
  (∃ c, Compress data = Some c ∧ (length c ≤ 2 * length data)%nat ∧ Decompress c = Some (Ok data)) ∧
  is_Some (Decompress data).
Proof.
  split.
  - destruct (Compress_spec data) as (d & Hd & H & Hl). exists d. split; [done|].
    split; [done|]. by apply Decodes_decompress.
  - unfold Decompress. case_if; [by eexists|]. apply decompress_total.
Qed.

(** ** The default table *)

Section Default.
(** [smaz2.CompressBytes] and [smaz2.DecompressToBytes]. *)
Context (CompressBytes : list Z → list Z) (DecompressToBytes : list Z → option (list Z)).

Definition reserved (b : Z) : bool := (1 <=? b) && (b <=? 8).

(** The loop: [out], the pending stretch [data[start:i]], and whether [start]
    has moved. *)
Fixpoint default_loop (data pending out : list Z) (moved : bool) : list Z :=
  match data with
  | [] =>
      if negb moved then CompressBytes pending
      else match pending with [] => out | _ => out ++ CompressBytes pending end
  | b :: data =>
      if reserved b then
        let out := match pending with [] => out | _ => out ++ CompressBytes pending end in
        default_loop data [] (out ++ [1; b]) true
      else default_loop data (pending ++ [b]) out moved
  end.

Definition CompressDefault (data : list Z) : list Z :=
  match data with [] => [] | _ => default_loop data [] [] false end.

Definition DecompressDefault (data : list Z) : option (list Z) :=
  match data with [] => Some [] | _ => DecompressToBytes data end.

(** The library reads its own output back, in front of anything, for text
    without the reserved bytes, and reads [0x01 b] as the byte [b]. *)
Hypothesis library_text : ∀ text rest, forallb (λ b, negb (reserved b)) text = true →
  DecompressToBytes (CompressBytes text ++ rest) = (λ o, text ++ o) <$> DecompressToBytes rest.
Hypothesis library_escape : ∀ b rest,
  DecompressToBytes (1 :: b :: rest) = (λ o, b :: o) <$> DecompressToBytes rest.
Hypothesis library_empty : DecompressToBytes [] = Some [].

Lemma library_flush pending out rest dec :
  forallb (λ b, negb (reserved b)) pending = true →
  (∀ r, DecompressToBytes (out ++ r) = (λ o, dec ++ o) <$> DecompressToBytes r) →
  DecompressToBytes ((match pending with [] => out | _ => out ++ CompressBytes pending end) ++ rest)
  = (λ o, (dec ++ pending) ++ o) <$> DecompressToBytes rest.
Proof using library_text.
  intros Hp Hout. destruct pending as [|p ps].
  - rewrite Hout. by rewrite app_nil_r.
  - rewrite <- app_assoc, Hout, library_text by done.
    destruct (DecompressToBytes rest); simpl; [|done]. by rewrite <- app_assoc.
Qed.

Lemma default_loop_ok data : ∀ pending out moved dec,
  forallb (λ b, negb (reserved b)) pending = true →
  (∀ r, DecompressToBytes (out ++ r) = (λ o, dec ++ o) <$> DecompressToBytes r) →
  (moved = false → dec = [] ∧ out = []) →
  DecompressToBytes (default_loop data pending out moved) = Some (dec ++ pending ++ data).
Proof using library_text library_escape library_empty.
  induction data as [|b data IH]; intros pending out moved dec Hp Hout Hm; cbn [default_loop].
  - destruct moved; cbn [negb].
    + rewrite <- (app_nil_r (match pending with [] => _ | _ => _ end)), (library_flush _ _ _ dec) by done.
      rewrite library_empty. simpl. by rewrite !app_nil_r.
    + destruct (Hm eq_refl) as [-> ->]. rewrite <- (app_nil_r (CompressBytes pending)), library_text by done.
      rewrite library_empty. simpl. by rewrite !app_nil_r.
  - destruct (reserved b) eqn:Eb.
    + rewrite (IH [] _ true (dec ++ pending ++ [b])); [by rewrite <- !app_assoc|done| |done].
      intros r. rewrite <- app_assoc, (library_flush _ _ _ dec) by done. cbn [app].
      rewrite library_escape. destruct (DecompressToBytes r); simpl; [|done].
      by rewrite <- !app_assoc.
    + rewrite (IH (pending ++ [b]) out moved dec); [by rewrite <- !app_assoc| |done|done].
      rewrite forallb_app, Hp. simpl. by rewrite Eb.
Qed.

Lemma CompressDefault_nonempty data :
  data ≠ [] → DecompressToBytes (CompressDefault data) = Some data.
Proof using library_text library_escape library_empty.
  intros Hd. unfold CompressDefault. destruct data; [done|].
  rewrite (default_loop_ok _ [] [] false []); [done|done| |done].
  intros r. simpl. by destruct (DecompressToBytes r).
Qed.

End Default.

(** With any default-table coder that reads its own output back for text
    without the bytes 1 to 8 and reads [0x01 b] as [b], [CompressDefault] is
    undone by [DecompressDefault] on every byte string, the bytes 1 to 8
    included. *)
Theorem smaz2_default_roundtrip CompressBytes DecompressToBytes data :
  (∀ text rest, forallb (λ b, negb (reserved b)) text = true →
     DecompressToBytes (CompressBytes text ++ rest) = (λ o, text ++ o) <$> DecompressToBytes rest) →
  (∀ b rest, DecompressToBytes (1 :: b :: rest) = (λ o, b :: o) <$> DecompressToBytes rest) →
  DecompressToBytes [] = Some [] →
  DecompressDefault DecompressToBytes (CompressDefault CompressBytes data) = Some data.
Proof.
  intros H1 H2 H3. destruct data as [|b data]; [done|].
  pose proof (CompressDefault_nonempty _ _ H1 H2 H3 (b :: data) ltac:(done)) as H.
  unfold DecompressDefault. destruct (CompressDefault CompressBytes (b :: data)); [congruence|done].
Qed.

(** The Meshtastic coder is an instance. *)
Definition mesh_compress (text : list Z) : list Z := default [] (Compress text).
Definition mesh_decompress (c : list Z) : option (list Z) :=
  match Decompress c with Some (Ok o) => Some o | _ => None end.

Lemma decompress_acc fuel c res :
  decompress_loop fuel c res =
  (λ r, match r with Ok o => Ok (res ++ o) | Err e => Err e end) <$> decompress_loop fuel c [].
Proof.
  revert c res. induction fuel as [|fuel IH]; intros [|b c] res; simpl; rewrite ?app_nil_r; try done.
  destruct (decompress_step b c) as [[out rest]|e]; [|done]. rewrite (IH rest (res ++ out)), (IH rest out).
  destruct (decompress_loop fuel rest []) as [[o|e]|]; simpl; [|done..]. by rewrite app_assoc.
Qed.

Lemma mesh_decompress_front c out rest :
  Decodes c out → mesh_decompress (c ++ rest) = (λ o, out ++ o) <$> mesh_decompress rest.
Proof.
  intros H. unfold mesh_decompress.
  assert (∀ l, Decompress l = decompress_loop (length l) l []) as Hd
    by (intros l; unfold Decompress; by destruct l).
  rewrite !Hd, H, decompress_acc. cbn [app].
  destruct (decompress_loop (length rest) rest []) as [[o|e]|]; done.
Qed.

Lemma smaz2_default_roundtrip_witness :
  DecompressDefault mesh_decompress (CompressDefault mesh_compress [104; 101; 3; 108; 112]) =
  Some [104; 101; 3; 108; 112].
Proof.
  apply (smaz2_default_roundtrip mesh_compress mesh_decompress).
  - intros text rest _. unfold mesh_compress. destruct (Compress_spec text) as (d & -> & H & _).
    by apply mesh_decompress_front.
  - intros b rest. apply (mesh_decompress_front [1; b] [b]). apply (Decodes_verbatim [b]). simpl. lia.
  - reflexivity.
Defined.

End Smaz2.
