(* ===== verification/Msgpack.v ===== *)
(** The msgpack codec, [internal/msgpack/msgpack.go].  A float is its 64-bit
    pattern; a decoder is the bytes it has left. *)
From S2P Require Import Prelude.

Module Msgpack.

Inductive Value :=
| VNil
| VBool (b : bool)
| VInt (i : Z)
| VUint (u : Z)
| VFloat (bits : Z)
| VStr (s : list Z)
| VBin (b : list Z)
| VArray (a : list Value)
| VMap (m : list (Value * Value))
| VExt (e : list Z).

(** The constructor [Int]: non-negative integers are unsigned values. *)
Definition Int (i : Z) : Value := if 0 <=? i then VUint (u64 i) else VInt i.

Definition AsInt (v : Value) : option Z :=
  match v with
  | VInt i => Some i
  | VUint u => if u <=? 9223372036854775807 then Some (i64 u) else None
  | _ => None
  end.

Definition Get (v : Value) (key : Z) : option Value :=
  match v with
  | VMap m =>
      snd <$> List.find (λ kv : Value * Value, match AsInt (fst kv) with Some k => k =? key | None => false end) m
  | _ => None
  end.

(** ** Encoding *)

Definition pack_uint (u : Z) : list Z :=
  if u <? 128 then [u8 u]
  else if u <? 2 ^ 8 then [204; u8 u]
  else if u <? 2 ^ 16 then 205 :: be_put 2 (u16 u)
  else if u <? 2 ^ 32 then 206 :: be_put 4 (u32 u)
  else 207 :: be_put 8 u.

Definition pack_int (i : Z) : list Z :=
  if 0 <=? i then pack_uint (u64 i)
  else if -32 <=? i then [u8 i]
  else if -128 <=? i then [208; u8 i]
  else if -32768 <=? i then 209 :: be_put 2 (u16 i)
  else if -2147483648 <=? i then 210 :: be_put 4 (u32 i)
  else 211 :: be_put 8 (u64 i).

Definition str_header (n : Z) : list Z :=
  if n <? 32 then [Z.lor 160 (u8 n)]
  else if n <? 2 ^ 8 then [217; u8 n]
  else if n <? 2 ^ 16 then 218 :: be_put 2 (u16 n)
  else 219 :: be_put 4 (u32 n).

Definition bin_header (n : Z) : list Z :=
  if n <? 2 ^ 8 then [196; u8 n]
  else if n <? 2 ^ 16 then 197 :: be_put 2 (u16 n)
  else 198 :: be_put 4 (u32 n).

Definition array_header (n : Z) : list Z :=
  if n <? 16 then [Z.lor 144 (u8 n)]
  else if n <? 2 ^ 16 then 220 :: be_put 2 (u16 n)
  else 221 :: be_put 4 (u32 n).

Definition map_header (n : Z) : list Z :=
  if n <? 16 then [Z.lor 128 (u8 n)]
  else if n <? 2 ^ 16 then 222 :: be_put 2 (u16 n)
  else 223 :: be_put 4 (u32 n).

(** [appendValue out v] is [out ++ Pack v]. *)
Fixpoint Pack (v : Value) : list Z :=
  match v with
  | VNil => [192]
  | VBool b => [if b then 195 else 194]
  | VUint u => pack_uint u
  | VInt i => pack_int i
  | VFloat bits => 203 :: be_put 8 bits
  | VStr s => str_header (Zlen s) ++ s
  | VBin b => bin_header (Zlen b) ++ b
  | VArray a => array_header (Zlen a) ++ concat (map Pack a)
  | VMap m => map_header (Zlen m) ++ concat (map (λ '(k, v), Pack k ++ Pack v) m)
  | VExt e => e
  end.

(** ** Decoding *)

Inductive unpack_error := ErrMsgpack | UnsupportedType (h : Z) | OutOfFuel.

Definition dres (A : Type) : Type := result unpack_error (A * list Z).

Definition need (n : Z) (b : list Z) : dres (list Z) :=
  if Zlen b <? n then Err ErrMsgpack else Ok (take (Z.to_nat n) b, drop (Z.to_nat n) b).

(** [u = u<<8 | uint64(c)] over the bytes, in 64 bits. *)
Definition read_uint (b : list Z) : Z :=
  foldl (λ u c, Z.lor (u64 (Z.shiftl u 8)) c) 0 b.

Definition length_field (size : Z) (b : list Z) : dres Z :=
  match need (Z.shiftl 1 size) b with
  | Err e => Err e
  | Ok (f, b) => let u := read_uint f in if 2 ^ 31 <? u then Err ErrMsgpack else Ok (u, b)
  end.

(** [int64(u<<shift) >> shift] *)
Definition sign_extend (n : Z) (u : Z) : Z :=
  let shift := 64 - 8 * n in
  Z.shiftr (i64 (u64 (Z.shiftl u shift))) shift.

(** [float64(math.Float32frombits(u))] on bit patterns; a NaN is made quiet. *)
Definition f32_to_f64 (u : Z) : Z :=
  let sign := Z.shiftl (Z.shiftr u 31) 63 in
  let e := Z.land (Z.shiftr u 23) 255 in
  let m := Z.land u 8388607 in
  if e =? 255 then
    sign + Z.shiftl 2047 52 + (if m =? 0 then 0 else Z.lor (Z.shiftl m 29) (2 ^ 51))
  else if e =? 0 then
    if m =? 0 then sign
    else
      let k := Z.log2 m in
      sign + Z.shiftl (k - 149 + 1023) 52 + Z.land (Z.shiftl m (52 - k)) (2 ^ 52 - 1)
  else sign + Z.shiftl (e - 127 + 1023) 52 + Z.shiftl m 29.

(** [n] values one after the other; [k] bounds the number of turns. *)
Definition values (value : list Z → dres Value) : nat → Z → list Z → dres (list Value) :=
  fix go k n b :=
    if n <=? 0 then Ok ([], b)
    else
      match k with
      | O => Err OutOfFuel
      | S k =>
          match value b with
          | Err e => Err e
          | Ok (v, b) =>
              match go k (n - 1) b with
              | Err e => Err e
              | Ok (vs, b) => Ok (v :: vs, b)
              end
          end
      end.

Definition entries (value : list Z → dres Value) : nat → Z → list Z → dres (list (Value * Value)) :=
  fix go k n b :=
    if n <=? 0 then Ok ([], b)
    else
      match k with
      | O => Err OutOfFuel
      | S k =>
          match value b with
          | Err e => Err e
          | Ok (key, b) =>
              match value b with
              | Err e => Err e
              | Ok (v, b) =>
                  match go k (n - 1) b with
                  | Err e => Err e
                  | Ok (kvs, b) => Ok ((key, v) :: kvs, b)
                  end
              end
          end
      end.

Definition dmap {A B} (f : A → B) (r : dres A) : dres B :=
  match r with Err e => Err e | Ok (a, b) => Ok (f a, b) end.

Definition with_length {A} (size : Z) (b : list Z) (k : Z → list Z → dres A) : dres A :=
  match length_field size b with Err e => Err e | Ok (n, b) => k n b end.

(** The ext value whose header byte [h] is followed by [n + 1] bytes after [pre]. *)
Definition ext_value (h : Z) (pre : list Z) (n : Z) (b : list Z) : dres Value :=
  dmap (λ raw, VExt (h :: pre ++ raw)) (need (1 + n) b).

(** What the header byte [h] announces; [value] decodes a nested value. *)
Definition dispatch (value : list Z → dres Value) (h : Z) (b : list Z) : dres Value :=
  let array n b := dmap VArray (values value (S (length b)) n b) in
  let mapv n b := dmap VMap (entries value (S (length b)) n b) in
  if h <=? 127 then Ok (VUint h, b)
  else if 224 <=? h then Ok (VInt (i8 h), b)
  else if Z.land h 224 =? 160 then dmap VStr (need (Z.land h 31) b)
  else if Z.land h 240 =? 144 then array (Z.land h 15) b
  else if Z.land h 240 =? 128 then mapv (Z.land h 15) b
  else if h =? 192 then Ok (VNil, b)
  else if h =? 194 then Ok (VBool false, b)
  else if h =? 195 then Ok (VBool true, b)
  else if (196 <=? h) && (h <=? 198) then with_length (h - 196) b (λ n b, dmap VBin (need n b))
  else if h =? 202 then dmap (λ f, VFloat (f32_to_f64 (be_get f))) (need 4 b)
  else if h =? 203 then dmap (λ f, VFloat (be_get f)) (need 8 b)
  else if (204 <=? h) && (h <=? 207) then
    dmap (λ f, VUint (read_uint f)) (need (Z.shiftl 1 (h - 204)) b)
  else if (208 <=? h) && (h <=? 211) then
    let n := Z.shiftl 1 (h - 208) in dmap (λ f, VInt (sign_extend n (read_uint f))) (need n b)
  else if (217 <=? h) && (h <=? 219) then with_length (h - 217) b (λ n b, dmap VStr (need n b))
  else if (220 <=? h) && (h <=? 221) then with_length (h - 220 + 1) b array
  else if (222 <=? h) && (h <=? 223) then with_length (h - 222 + 1) b mapv
  else if (212 <=? h) && (h <=? 216) then ext_value h [] (Z.shiftl 1 (h - 212)) b
  else if (199 <=? h) && (h <=? 201) then
    with_length (h - 199) b (λ n b', ext_value h (take (length b - length b') b) n b')
  else Err (UnsupportedType h).

(** One value; [fuel] bounds the nesting. *)
Fixpoint value (fuel : nat) (b : list Z) : dres Value :=
  match fuel with
  | O => Err OutOfFuel
  | S fuel =>
      match b with
      | [] => Err ErrMsgpack
      | h :: b => dispatch (value fuel) h b
      end
  end.

(** A nested value starts after the byte that opens its container, so the
    number of bytes bounds the nesting. *)
Definition UnpackValue (b : list Z) : result unpack_error (Value * Z) :=
  match value (S (length b)) b with
  | Err e => Err e
  | Ok (v, rest) => Ok (v, Zlen b - Zlen rest)
  end.

Example unpack_examples :
  UnpackValue [130; 1; 161; 97; 2; 146; 192; 208; 251; 9] =
    Ok (VMap [(VUint 1, VStr [97]); (VUint 2, VArray [VNil; VInt (-5)])], 9) ∧
  UnpackValue [221; 0; 0; 1; 0; 192] = Err ErrMsgpack ∧
  UnpackValue [202; 63; 192; 0; 0] = Ok (VFloat (Z.shiftl 1023 52 + 2 ^ 51), 5).
Proof. vm_compute. done. Qed.

(** ** Integers on the wire *)

Lemma le_get_app l1 l2 : le_get (l1 ++ l2) = le_get l1 + 2 ^ (8 * Zlen l1) * le_get l2.
Proof.
  unfold Zlen. induction l1 as [|b l1 IH]; [simpl; lia|].
  cbn [app le_get length]. rewrite pow256_succ, IH. lia.
Qed.

Lemma be_get_cons c b : be_get (c :: b) = c * 2 ^ (8 * Zlen b) + be_get b.
Proof.
  unfold be_get. rewrite reverse_cons, le_get_app. unfold Zlen. rewrite length_reverse. simpl. lia.
Qed.

Lemma lor_shift8 u c : 0 <= u → byte_ok c → Z.lor (Z.shiftl u 8) c = u * 256 + c.
Proof.
  intros Hu Hc. unfold byte_ok in Hc.
  assert (Z.land (Z.shiftl u 8) c = 0) as Hl.
  { apply Z.bits_inj'. intros i Hi. rewrite Z.land_spec, Z.bits_0.
    destruct (Z.ltb_spec i 8); [by rewrite Z.shiftl_spec_low|].
    rewrite (Z.bits_above_log2 c i), andb_false_r; [done|lia|].
    destruct (Z.eq_dec c 0) as [->|]; [simpl; lia|]. apply Z.log2_lt_pow2; [lia|].
    apply Z.lt_le_trans with (2 ^ 8); [simpl; lia|]. apply Z.pow_le_mono_r; lia. }
  rewrite <- Z.lxor_lor by done. rewrite <- Z.add_nocarry_lxor by done.
  rewrite Z.shiftl_mul_pow2 by lia. done.
Qed.

Lemma read_uint_acc b acc :
  bytes_ok b → 0 <= acc → (acc + 1) * 2 ^ (8 * Zlen b) <= 2 ^ 64 →
  foldl (λ u c, Z.lor (u64 (Z.shiftl u 8)) c) acc b = acc * 2 ^ (8 * Zlen b) + be_get b.
Proof.
  intros Hb. revert acc. induction Hb as [|c b Hc Hb IH]; intros acc Ha Hlt; [change (be_get []) with 0; change (2 ^ (8 * Zlen (@nil Z))) with 1; cbn [foldl]; lia|].
  cbn [foldl]. rewrite be_get_cons. unfold Zlen in *. cbn [length] in *. rewrite pow256_succ in Hlt |- *.
  pose proof (Z.pow_pos_nonneg 2 (8 * Z.of_nat (length b)) ltac:(lia) ltac:(lia)) as Hp.
  assert (u64 (Z.shiftl acc 8) = Z.shiftl acc 8) as ->.
  { unfold u64. apply Z.mod_small. rewrite Z.shiftl_mul_pow2 by lia.
    change 18446744073709551616 with (2 ^ 64). change (2 ^ 8) with 256. nia. }
  rewrite lor_shift8 by done. unfold byte_ok in Hc. rewrite IH; [lia|lia|nia].
Qed.

Lemma read_uint_be b : bytes_ok b → (length b ≤ 8)%nat → read_uint b = be_get b.
Proof.
  intros Hb Hl. unfold read_uint. rewrite read_uint_acc; [lia|done|lia|].
  unfold Zlen. rewrite Z.mul_1_l. apply Z.pow_le_mono_r; lia.
Qed.

Lemma read_uint_put n z :
  (n ≤ 8)%nat → 0 <= z < 2 ^ (8 * Z.of_nat n) → read_uint (be_put n z) = z.
Proof.
  intros Hn Hz. rewrite read_uint_be by (rewrite ?be_put_length; auto with hub).
  by apply be_get_put_small.
Qed.

Lemma sign_extend_spec n u :
  1 <= n <= 8 → 0 <= u < 2 ^ (8 * n) → sign_extend n u = sint (8 * n) u.
Proof.
  intros Hn Hu. unfold sign_extend, i64, sint, u64. set (s := 64 - 8 * n).
  assert (2 ^ (8 * n) * 2 ^ s = 2 ^ 64) as E1 by (rewrite <- Z.pow_add_r by lia; f_equal; lia).
  assert (2 ^ (8 * n - 1) * 2 ^ s = 2 ^ 63) as E2 by (rewrite <- Z.pow_add_r by lia; f_equal; lia).
  assert (0 < 2 ^ s) by (apply Z.pow_pos_nonneg; lia).
  assert (0 < 2 ^ (8 * n)) by (apply Z.pow_pos_nonneg; lia).
  rewrite Z.shiftl_mul_pow2 by lia. rewrite (Z.mod_small (u * 2 ^ s))
    by (change 18446744073709551616 with (2 ^ 64); rewrite <- E1; nia).
  change (2 ^ (64 - 1)) with (2 ^ 63). rewrite <- E2, <- E1.
  rewrite <- Z.mul_add_distr_r, Z.mul_mod_distr_r by lia. rewrite <- Z.mul_sub_distr_r.
  rewrite Z.shiftr_div_pow2 by lia. apply Z.div_mul. lia.
Qed.

Lemma need_app n x rest : Zlen x = n → need n (x ++ rest) = Ok (x, rest).
Proof.
  intros <-. unfold need. rewrite Zlen_app. pose proof (Zlen_nonneg rest).
  rewrite (proj2 (Z.ltb_ge _ _)) by lia. unfold Zlen. rewrite Nat2Z.id.
  by rewrite take_app_length, drop_app_length.
Qed.

Lemma need_inv n b x rest : 0 <= n → need n b = Ok (x, rest) → b = x ++ rest ∧ Zlen x = n.
Proof.
  intros Hn. unfold need. destruct (Z.ltb_spec (Zlen b) n); [done|]. intros [= <- <-].
  split; [by rewrite take_drop|]. unfold Zlen in *. rewrite length_take. lia.
Qed.

(** A length field of [2^size] bytes holding [n]. *)
Lemma length_field_app size n rest :
  0 <= size <= 3 → 0 <= n < 2 ^ (8 * 2 ^ size) → n <= 2 ^ 31 →
  length_field size (be_put (Z.to_nat (2 ^ size)) n ++ rest) = Ok (n, rest).
Proof.
  intros Hs Hn H31. unfold length_field. rewrite Z.shiftl_mul_pow2, Z.mul_1_l by lia.
  pose proof (Z.pow_le_mono_r 2 size 3 ltac:(lia) ltac:(lia)). change (2 ^ 3) with 8 in *.
  pose proof (Z.pow_pos_nonneg 2 size ltac:(lia) ltac:(lia)).
  rewrite need_app by (unfold Zlen; rewrite be_put_length; lia).
  rewrite read_uint_put; [|lia|rewrite Z2Nat.id; lia]. cbv zeta.
  by rewrite (proj2 (Z.ltb_ge _ _)).
Qed.

(** ** Values and their normal form *)

Definition ext_ok (e : list Z) : Prop :=
  (∃ h data, 212 <= h <= 216 ∧ e = h :: data ∧ Zlen data = 1 + 2 ^ (h - 212)) ∨
  (∃ h len data, 199 <= h <= 201 ∧ e = h :: len ++ data ∧ Zlen len = 2 ^ (h - 199) ∧
     read_uint len <= 2 ^ 31 ∧ 0 <= read_uint len ∧ Zlen data = 1 + read_uint len).

(** Values with fields in range; a length the decoder accepts. *)
Fixpoint wf (v : Value) : Prop :=
  match v with
  | VNil | VBool _ => True
  | VInt i => - 2 ^ 63 <= i < 2 ^ 63
  | VUint u => 0 <= u < 2 ^ 64
  | VFloat bits => 0 <= bits < 2 ^ 64
  | VStr s | VBin s => Zlen s <= 2 ^ 31
  | VArray a => Zlen a <= 2 ^ 31 ∧ fold_right (λ v P, wf v ∧ P) True a
  | VMap m => Zlen m <= 2 ^ 31 ∧ fold_right (λ '(k, v) P, wf k ∧ wf v ∧ P) True m
  | VExt e => ext_ok e
  end.

(** The decoder reads a non-negative signed value as an unsigned one. *)
Fixpoint norm (v : Value) : Value :=
  match v with
  | VInt i => if 0 <=? i then VUint i else VInt i
  | VArray a => VArray (map norm a)
  | VMap m => VMap (map (λ '(k, v), (norm k, norm v)) m)
  | _ => v
  end.

Definition Value_rect_nested (P : Value → Prop)
  (Hflat : ∀ v, match v with VArray _ | VMap _ => True | _ => P v end)
  (Harr : ∀ a, Forall P a → P (VArray a))
  (Hmap : ∀ m, Forall (λ kv, P kv.1 ∧ P kv.2) m → P (VMap m)) : ∀ v, P v :=
  fix go v :=
    match v with
    | VArray a => Harr a ((fix all l : Forall P l :=
        match l with [] => Forall_nil_2 P | x :: l => Forall_cons_2 P x l (go x) (all l) end) a)
    | VMap m => Hmap m ((fix all l : Forall (λ kv, P kv.1 ∧ P kv.2) l :=
        match l with
        | [] => Forall_nil_2 _
        | (k, x) :: l => Forall_cons_2 _ (k, x) l (conj (go k) (go x)) (all l)
        end) m)
    | v => Hflat v
    end.

Lemma wf_array a : wf (VArray a) ↔ Zlen a <= 2 ^ 31 ∧ Forall wf a.
Proof.
  cbn [wf]. split; intros [Hl H]; (split; [done|]).
  - induction a as [|x a IH]; [constructor|]. destruct H as [Hx H]. constructor; [done|].
    apply IH; [|done]. rewrite Zlen_cons in Hl. lia.
  - induction H as [|x a Hx _ IH]; [done|]. split; [done|]. apply IH. rewrite Zlen_cons in Hl. lia.
Qed.

Lemma wf_map m : wf (VMap m) ↔ Zlen m <= 2 ^ 31 ∧ Forall (λ kv, wf kv.1 ∧ wf kv.2) m.
Proof.
  cbn [wf]. split; intros [Hl H]; (split; [done|]).
  - induction m as [|[k x] m IH]; [constructor|]. destruct H as (Hk & Hx & H). constructor; [done|].
    apply IH; [|done]. rewrite Zlen_cons in Hl. lia.
  - induction H as [|[k x] m [Hk Hx] _ IH]; [done|]. split; [done|]. split; [done|].
    apply IH. rewrite Zlen_cons in Hl. lia.
Qed.

(** ** Reading back each header *)

Lemma fixstr_header n : 0 <= n < 32 →
  let h := Z.lor 160 (u8 n) in
  127 < h < 224 ∧ Z.land h 224 = 160 ∧ Z.land h 31 = n.
Proof.
  intros Hn. pose proof (zall_spec 32 (λ n, let h := Z.lor 160 (u8 n) in
    (127 <? h) && (h <? 224) && (Z.land h 224 =? 160) && (Z.land h 31 =? n))
    ltac:(vm_compute; reflexivity) n Hn) as H. cbv zeta beta in *. zbool. lia.
Qed.

Lemma fixarray_header n : 0 <= n < 16 →
  let h := Z.lor 144 (u8 n) in
  127 < h < 224 ∧ Z.land h 224 ≠ 160 ∧ Z.land h 240 = 144 ∧ Z.land h 15 = n.
Proof.
  intros Hn. pose proof (zall_spec 16 (λ n, let h := Z.lor 144 (u8 n) in
    (127 <? h) && (h <? 224) && negb (Z.land h 224 =? 160) && (Z.land h 240 =? 144) && (Z.land h 15 =? n))
    ltac:(vm_compute; reflexivity) n Hn) as H. cbv zeta beta in *. zbool. lia.
Qed.

Lemma fixmap_header n : 0 <= n < 16 →
  let h := Z.lor 128 (u8 n) in
  127 < h < 224 ∧ Z.land h 224 ≠ 160 ∧ Z.land h 240 ≠ 144 ∧ Z.land h 240 = 128 ∧ Z.land h 15 = n.
Proof.
  intros Hn. pose proof (zall_spec 16 (λ n, let h := Z.lor 128 (u8 n) in
    (127 <? h) && (h <? 224) && negb (Z.land h 224 =? 160) && negb (Z.land h 240 =? 144) &&
    (Z.land h 240 =? 128) && (Z.land h 15 =? n))
    ltac:(vm_compute; reflexivity) n Hn) as H. cbv zeta beta in *. zbool. lia.
Qed.

(** A length field written in [2^size] bytes. *)
Lemma with_length_app {A} size w n rest (k : Z → list Z → dres A) :
  (size = 0 ∧ w = [u8 n] ∧ n < 2 ^ 8 ∨ size = 1 ∧ w = be_put 2 (u16 n) ∧ n < 2 ^ 16 ∨
   size = 2 ∧ w = be_put 4 (u32 n)) →
  0 <= n <= 2 ^ 31 → with_length size (w ++ rest) k = k n rest.
Proof.
  intros Hw Hn. unfold with_length.
  destruct Hw as [(-> & -> & Hlt)|[(-> & -> & Hlt)|(-> & ->)]].
  - change [u8 n] with (be_put (Z.to_nat (2 ^ 0)) n). by rewrite length_field_app by lia.
  - rewrite u16_small by lia. change 2%nat with (Z.to_nat (2 ^ 1)). by rewrite length_field_app by lia.
  - rewrite u32_small by lia. change 4%nat with (Z.to_nat (2 ^ 2)). by rewrite length_field_app by lia.
Qed.

Section Headers.
Context (val : list Z → dres Value).

Lemma dispatch_str n rest s :
  Zlen s = n → n <= 2 ^ 31 →
  ∃ h t, str_header n = h :: t ∧ dispatch val h (t ++ s ++ rest) = Ok (VStr s, rest).
Proof.
  intros Hs Hn. pose proof (Zlen_nonneg s). unfold str_header.
  destruct (Z.ltb_spec n 32); [|destruct (Z.ltb_spec n (2 ^ 8)); [|destruct (Z.ltb_spec n (2 ^ 16))]];
    eexists _, _; (split; [done|]).
  - destruct (fixstr_header n ltac:(lia)) as (H1 & H2 & H3). unfold dispatch.
    rewrite (proj2 (Z.leb_gt _ 127)), (proj2 (Z.leb_gt 224 _)), H2, H3 by lia. cbn [app].
    rewrite Z.eqb_refl, need_app by done. done.
  - change (dispatch val 217 ?x) with (with_length 0 x (λ n b, dmap VStr (need n b))).
    rewrite (with_length_app 0 _ n) by (lia || auto). by rewrite need_app.
  - change (dispatch val 218 ?x) with (with_length 1 x (λ n b, dmap VStr (need n b))).
    rewrite (with_length_app 1 _ n) by (lia || auto). by rewrite need_app.
  - change (dispatch val 219 ?x) with (with_length 2 x (λ n b, dmap VStr (need n b))).
    rewrite (with_length_app 2 _ n) by (lia || auto). by rewrite need_app.
Qed.

Lemma dispatch_bin n rest s :
  Zlen s = n → n <= 2 ^ 31 →
  ∃ h t, bin_header n = h :: t ∧ dispatch val h (t ++ s ++ rest) = Ok (VBin s, rest).
Proof.
  intros Hs Hn. pose proof (Zlen_nonneg s). unfold bin_header.
  destruct (Z.ltb_spec n (2 ^ 8)); [|destruct (Z.ltb_spec n (2 ^ 16))];
    eexists _, _; (split; [done|]).
  - change (dispatch val 196 ?x) with (with_length 0 x (λ n b, dmap VBin (need n b))).
    rewrite (with_length_app 0 _ n) by (lia || auto). by rewrite need_app.
  - change (dispatch val 197 ?x) with (with_length 1 x (λ n b, dmap VBin (need n b))).
    rewrite (with_length_app 1 _ n) by (lia || auto). by rewrite need_app.
  - change (dispatch val 198 ?x) with (with_length 2 x (λ n b, dmap VBin (need n b))).
    rewrite (with_length_app 2 _ n) by (lia || auto). by rewrite need_app.
Qed.

Lemma dispatch_array n rest :
  0 <= n <= 2 ^ 31 →
  ∃ h t, array_header n = h :: t ∧
    dispatch val h (t ++ rest) = dmap VArray (values val (S (length rest)) n rest).
Proof.
  intros Hn. unfold array_header.
  destruct (Z.ltb_spec n 16); [|destruct (Z.ltb_spec n (2 ^ 16))]; eexists _, _; (split; [done|]).
  - destruct (fixarray_header n ltac:(lia)) as (H1 & H2 & H3 & H4). unfold dispatch.
    rewrite (proj2 (Z.leb_gt _ 127)), (proj2 (Z.leb_gt 224 _)), (proj2 (Z.eqb_neq _ 160)), H3, H4 by lia.
    by rewrite Z.eqb_refl.
  - change (dispatch val 220 ?x) with
      (with_length 1 x (λ n b, dmap VArray (values val (S (length b)) n b))).
    by rewrite (with_length_app 1 _ n) by (lia || auto).
  - change (dispatch val 221 ?x) with
      (with_length 2 x (λ n b, dmap VArray (values val (S (length b)) n b))).
    by rewrite (with_length_app 2 _ n) by (lia || auto).
Qed.

Lemma dispatch_map n rest :
  0 <= n <= 2 ^ 31 →
  ∃ h t, map_header n = h :: t ∧
    dispatch val h (t ++ rest) = dmap VMap (entries val (S (length rest)) n rest).
Proof.
  intros Hn. unfold map_header.
  destruct (Z.ltb_spec n 16); [|destruct (Z.ltb_spec n (2 ^ 16))]; eexists _, _; (split; [done|]).
  - destruct (fixmap_header n ltac:(lia)) as (H1 & H2 & H3 & H4 & H5). unfold dispatch.
    rewrite (proj2 (Z.leb_gt _ 127)), (proj2 (Z.leb_gt 224 _)), (proj2 (Z.eqb_neq _ 160)),
      (proj2 (Z.eqb_neq _ 144)), H4, H5 by lia. by rewrite Z.eqb_refl.
  - change (dispatch val 222 ?x) with
      (with_length 1 x (λ n b, dmap VMap (entries val (S (length b)) n b))).
    by rewrite (with_length_app 1 _ n) by (lia || auto).
  - change (dispatch val 223 ?x) with
      (with_length 2 x (λ n b, dmap VMap (entries val (S (length b)) n b))).
    by rewrite (with_length_app 2 _ n) by (lia || auto).
Qed.

(** An integer field of [n] bytes behind its type byte. *)
Lemma uint_field n z rest :
  (n ≤ 8)%nat → 0 <= z < 2 ^ (8 * Z.of_nat n) →
  dmap (λ f, VUint (read_uint f)) (need (Z.of_nat n) (be_put n z ++ rest)) = Ok (VUint z, rest).
Proof.
  intros Hn Hz. rewrite need_app by (unfold Zlen; by rewrite be_put_length). cbn.
  by rewrite read_uint_put.
Qed.

Lemma int_field n f i rest :
  (1 ≤ n ≤ 8)%nat → - 2 ^ (8 * Z.of_nat n - 1) <= i < 2 ^ (8 * Z.of_nat n - 1) →
  length f = n → bytes_ok f → be_get f = i mod 2 ^ (8 * Z.of_nat n) →
  dmap (λ f, VInt (sign_extend (Z.of_nat n) (read_uint f))) (need (Z.of_nat n) (f ++ rest)) = Ok (VInt i, rest).
Proof.
  intros Hn Hi Hl Hb Hf. rewrite need_app by (unfold Zlen; by rewrite Hl). cbn [dmap].
  pose proof (Z.mod_pos_bound i (2 ^ (8 * Z.of_nat n)) ltac:(apply Z.pow_pos_nonneg; lia)).
  rewrite read_uint_be, Hf, sign_extend_spec, sint_wrap by (done || lia). done.
Qed.

Lemma dispatch_uint u rest :
  0 <= u < 2 ^ 64 → ∃ h t, pack_uint u = h :: t ∧ dispatch val h (t ++ rest) = Ok (VUint u, rest).
Proof.
  intros Hu. unfold pack_uint.
  destruct (Z.ltb_spec u 128); [|destruct (Z.ltb_spec u (2 ^ 8)); [|destruct (Z.ltb_spec u (2 ^ 16));
    [|destruct (Z.ltb_spec u (2 ^ 32))]]]; eexists _, _; (split; [done|]).
  - rewrite u8_small by (unfold byte_ok; lia). unfold dispatch. by rewrite (proj2 (Z.leb_le u 127)) by lia.
  - apply (uint_field 1 u rest); [lia|cbn; lia].
  - rewrite u16_small by lia. apply (uint_field 2 u rest); [lia|cbn; lia].
  - rewrite u32_small by lia. apply (uint_field 4 u rest); [lia|cbn; lia].
  - apply (uint_field 8 u rest); [lia|cbn; lia].
Qed.

Lemma dispatch_int i rest :
  - 2 ^ 63 <= i < 0 → ∃ h t, pack_int i = h :: t ∧ dispatch val h (t ++ rest) = Ok (VInt i, rest).
Proof.
  intros Hi. unfold pack_int. rewrite (proj2 (Z.leb_gt 0 i)) by lia.
  destruct (Z.leb_spec (-32) i); [|destruct (Z.leb_spec (-128) i); [|destruct (Z.leb_spec (-32768) i);
    [|destruct (Z.leb_spec (-2147483648) i)]]]; eexists _, _; (split; [done|]).
  - assert (u8 i = i + 256) as -> by (unfold u8; zlia). unfold dispatch.
    rewrite (proj2 (Z.leb_gt _ 127)), (proj2 (Z.leb_le 224 _)) by lia. cbn [app].
    do 3 f_equal. unfold i8, sint. change (2 ^ (8 - 1)) with 128. change (2 ^ 8) with 256. zlia.
  - apply (int_field 1 [u8 i] i rest); [lia|cbn; lia|done|repeat constructor; apply u8_range|].
    change (be_get [u8 i]) with (u8 i + 256 * 0). unfold u8. change (2 ^ (8 * Z.of_nat 1)) with 256. lia.
  - apply (int_field 2 (be_put 2 (u16 i)) i rest); [lia|cbn; lia|done|auto with hub|].
    rewrite be_get_put. unfold u16. change 65536 with (2 ^ (8 * Z.of_nat 2)). by apply Z.mod_mod.
  - apply (int_field 4 (be_put 4 (u32 i)) i rest); [lia|cbn; lia|done|auto with hub|].
    rewrite be_get_put. unfold u32. change 4294967296 with (2 ^ (8 * Z.of_nat 4)). by apply Z.mod_mod.
  - apply (int_field 8 (be_put 8 (u64 i)) i rest); [lia|cbn; lia|done|auto with hub|].
    rewrite be_get_put. unfold u64. change 18446744073709551616 with (2 ^ (8 * Z.of_nat 8)). by apply Z.mod_mod.
Qed.

Lemma dispatch_ext e rest :
  ext_ok e → ∃ h t, e = h :: t ∧ dispatch val h (t ++ rest) = Ok (VExt e, rest).
Proof.
  intros [(h & data & Hh & -> & Hl)|(h & len & data & Hh & -> & Hlen & H31 & H0 & Hl)]; eexists _, _; (split; [done|]).
  - assert (dispatch val h (data ++ rest) = ext_value h [] (Z.shiftl 1 (h - 212)) (data ++ rest)) as ->.
    { assert (h = 212 ∨ h = 213 ∨ h = 214 ∨ h = 215 ∨ h = 216) as Hc by lia.
      destruct Hc as [->|[->|[->|[->| ->]]]]; reflexivity. }
    unfold ext_value. rewrite Z.shiftl_mul_pow2, Z.mul_1_l, need_app by lia. done.
  - assert (dispatch val h ((len ++ data) ++ rest) = with_length (h - 199) ((len ++ data) ++ rest)
      (λ n b', ext_value h (take (length ((len ++ data) ++ rest) - length b') ((len ++ data) ++ rest)) n b')) as ->.
    { assert (h = 199 ∨ h = 200 ∨ h = 201) as Hc by lia. destruct Hc as [->|[->| ->]]; reflexivity. }
    unfold with_length, length_field. rewrite Z.shiftl_mul_pow2, Z.mul_1_l by lia.
    rewrite <- !app_assoc. rewrite need_app by done. cbv zeta.
    rewrite (proj2 (Z.ltb_ge _ _)) by lia. unfold ext_value.
    assert (take (length (len ++ data ++ rest) - length (data ++ rest)) (len ++ data ++ rest) = len) as ->.
    { rewrite (length_app len). replace (_ - _)%nat with (length len) by lia. apply take_app_length. }
    by rewrite need_app.
Qed.

End Headers.

(** ** Round trip *)

Lemma Pack_nonempty v : wf v → (1 ≤ length (Pack v))%nat.
Proof.
  destruct v; cbn [Pack]; intros Hw.
  1,2,5: simpl; lia.
  - unfold pack_int, pack_uint. repeat case_match; simpl; lia.
  - unfold pack_uint. repeat case_match; simpl; lia.
  - rewrite length_app. unfold str_header. repeat case_match; simpl; lia.
  - rewrite length_app. unfold bin_header. repeat case_match; simpl; lia.
  - rewrite length_app. unfold array_header. repeat case_match; simpl; lia.
  - rewrite length_app. unfold map_header. repeat case_match; simpl; lia.
  - destruct Hw as [(h & d & _ & -> & _)|(h & l & d & _ & -> & _)]; simpl; lia.
Qed.

Lemma values_pack val a : ∀ k rest,
  Forall (λ x, wf x ∧ ∀ r, (length (Pack x ++ r) ≤ length (concat (map Pack a) ++ rest))%nat →
    val (Pack x ++ r) = Ok (norm x, r)) a →
  (length a ≤ k)%nat →
  values val k (Zlen a) (concat (map Pack a) ++ rest) = Ok (map norm a, rest).
Proof.
  induction a as [|x a IH]; intros k rest Ha Hk; [by destruct k|].
  apply Forall_cons in Ha as [[Hwx Hx] Ha]. destruct k as [|k]; simpl in Hk; [lia|].
  cbn [values map concat]. rewrite Zlen_cons. pose proof (Zlen_nonneg a).
  rewrite (proj2 (Z.leb_gt _ 0)) by lia. rewrite <- app_assoc.
  rewrite Hx by (cbn [map concat]; by rewrite <- app_assoc).
  replace (1 + Zlen a - 1) with (Zlen a) by lia. fold (values val).
  rewrite IH; [done| |lia]. eapply Forall_impl; [exact Ha|]. cbn beta. intros y [Hy H']. split; [done|].
  intros r Hr. apply H'. cbn [map concat]. rewrite <- app_assoc. rewrite (length_app (Pack x)). lia.
Qed.

Definition pack_entry (kv : Value * Value) : list Z := let '(k, v) := kv in Pack k ++ Pack v.

Lemma entries_pack val m : ∀ k rest,
  Forall (λ kv, (wf kv.1 ∧ ∀ r, (length (Pack kv.1 ++ r) ≤ length (concat (map pack_entry m) ++ rest))%nat →
    val (Pack kv.1 ++ r) = Ok (norm kv.1, r)) ∧
    (wf kv.2 ∧ ∀ r, (length (Pack kv.2 ++ r) ≤ length (concat (map pack_entry m) ++ rest))%nat →
    val (Pack kv.2 ++ r) = Ok (norm kv.2, r))) m →
  (length m ≤ k)%nat →
  entries val k (Zlen m) (concat (map pack_entry m) ++ rest) =
    Ok (map (λ '(k, v), (norm k, norm v)) m, rest).
Proof.
  induction m as [|[x y] m IH]; intros k rest Ha Hk; [by destruct k|].
  apply Forall_cons in Ha as [[[Hwx Hx] [Hwy Hy]] Ha]. destruct k as [|k]; simpl in Hk; [lia|].
  cbn [entries map concat pack_entry fst snd] in *. rewrite Zlen_cons. pose proof (Zlen_nonneg m).
  rewrite (proj2 (Z.leb_gt _ 0)) by lia. rewrite <- !app_assoc in Hx, Hy |- *.
  rewrite Hx by done. rewrite Hy by (rewrite (length_app (Pack x)); lia).
  replace (1 + Zlen m - 1) with (Zlen m) by lia. fold (entries val).
  rewrite IH; [done| |lia]. eapply Forall_impl; [exact Ha|]. cbn beta.
  intros kv [[H1 H1'] [H2 H2']]. rewrite <- !app_assoc in H1', H2'.
  split; (split; [done|]); intros r Hr; [apply H1'|apply H2'];
    rewrite (length_app (Pack x)), (length_app (Pack y)); lia.
Qed.

Lemma concat_count {A B} (f : A → list B) l :
  Forall (λ x, (1 ≤ length (f x))%nat) l → (length l ≤ length (concat (map f l)))%nat.
Proof. induction 1 as [|x l Hx _ IH]; simpl; [lia|]. rewrite length_app. lia. Qed.

Lemma value_pack v : wf v → ∀ fuel rest,
  (length (Pack v ++ rest) < fuel)%nat → value fuel (Pack v ++ rest) = Ok (norm v, rest).
Proof.
  revert v. apply (Value_rect_nested (λ v, wf v → ∀ fuel rest,
    (length (Pack v ++ rest) < fuel)%nat → value fuel (Pack v ++ rest) = Ok (norm v, rest))); [intros v|intros a IH|intros m IH].
  - destruct v; try done; intros Hw fuel rest Hf; (destruct fuel as [|fuel]; [lia|]); cbn [norm].
    + done.
    + by destruct b.
    + cbn [wf] in Hw. destruct (Z.leb_spec 0 i) as [Hi|Hi].
      * cbn [Pack]. unfold pack_int. rewrite (proj2 (Z.leb_le 0 i)) by done.
        assert (u64 i = i) as -> by (unfold u64; apply Z.mod_small; lia).
        destruct (dispatch_uint (value fuel) i rest ltac:(lia)) as (h & t & -> & H). exact H.
      * destruct (dispatch_int (value fuel) i rest ltac:(lia)) as (h & t & E & H).
        cbn [Pack]. rewrite E. exact H.
    + destruct (dispatch_uint (value fuel) u rest Hw) as (h & t & E & H). cbn [Pack]. rewrite E. exact H.
    + cbn [Pack app value]. change (dispatch (value fuel) 203 ?x) with (dmap (λ f, VFloat (be_get f)) (need 8 x)).
      rewrite need_app by done. cbn [dmap]. rewrite be_get_put_small; [done|]. exact Hw.
    + destruct (dispatch_str (value fuel) (Zlen s) rest s eq_refl Hw) as (h & t & E & H).
      cbn [Pack]. rewrite E, <- app_assoc. exact H.
    + destruct (dispatch_bin (value fuel) (Zlen b) rest b eq_refl Hw) as (h & t & E & H).
      cbn [Pack]. rewrite E, <- app_assoc. exact H.
    + destruct (dispatch_ext (value fuel) e rest Hw) as (h & t & E & H). cbn [Pack].
      rewrite E at 1. exact H.
  - intros Hw fuel rest Hf. apply wf_array in Hw as [Hl Hw]. destruct fuel as [|fuel]; [lia|].
    pose proof (Zlen_nonneg a).
    destruct (dispatch_array (value fuel) (Zlen a) (concat (map Pack a) ++ rest) ltac:(lia)) as (h & t & E & H').
    cbn [Pack norm] in *. rewrite E, <- app_assoc in Hf |- *. cbn [app value]. rewrite H'.
    rewrite values_pack; [done| |].
    + rewrite Forall_forall in Hw, IH |- *. intros x Hx. split; [by apply Hw|].
      intros r Hr. apply IH; [done|by apply Hw|]. simpl in Hf. rewrite length_app in Hf. lia.
    + pose proof (concat_count Pack a) as Hc. rewrite length_app.
      etrans; [apply Hc|lia]. eapply Forall_impl; [exact Hw|]. intros x. apply Pack_nonempty.
  - intros Hw fuel rest Hf. apply wf_map in Hw as [Hl Hw]. destruct fuel as [|fuel]; [lia|].
    pose proof (Zlen_nonneg m).
    destruct (dispatch_map (value fuel) (Zlen m) (concat (map pack_entry m) ++ rest) ltac:(lia)) as (h & t & E & H').
    cbn [Pack norm] in *. change (map (λ '(k, v), Pack k ++ Pack v) m) with (map pack_entry m) in *.
    rewrite E, <- app_assoc in Hf |- *. cbn [app value]. rewrite H'.
    simpl in Hf. rewrite length_app in Hf.
    rewrite entries_pack; [done| |].
    + rewrite Forall_forall in Hw, IH |- *. intros kv Hkv.
      destruct (Hw kv Hkv) as [H1 H2], (IH kv Hkv) as [I1 I2].
      split; (split; [done|]); intros r Hr; [apply I1|apply I2]; done || lia.
    + pose proof (concat_count pack_entry m) as Hc. rewrite length_app.
      etrans; [apply Hc|lia]. eapply Forall_impl; [exact Hw|]. intros [k x] [Hk _]. simpl in *.
      rewrite length_app. pose proof (Pack_nonempty k Hk). lia.
Qed.

(** ** Whatever decodes is well formed, and decoding terminates *)

Definition post {A} (P : A → Prop) (r : dres A) (b : list Z) : Prop :=
  match r with
  | Ok (a, b') => (∃ used, b = used ++ b') ∧ P a
  | Err e => e ≠ OutOfFuel
  end.

Lemma post_dmap {A B} (P : A → Prop) (Q : B → Prop) (f : A → B) r b :
  post P r b → (∀ a, P a → Q (f a)) → post Q (dmap f r) b.
Proof. destruct r as [[a b']|e]; [|done]. intros [Hs Ha] H. split; [done|by apply H]. Qed.

Lemma post_need n b :
  0 <= n → bytes_ok b → post (λ x, Zlen x = n ∧ bytes_ok x) (need n b) b.
Proof.
  intros Hn Hb. destruct (need n b) as [[x b']|e] eqn:E.
  - apply need_inv in E as [-> Hx]; [|done]. apply bytes_ok_app in Hb as [? _]. split; eauto.
  - unfold need in E. case_match; by simplify_eq.
Qed.

Lemma read_uint_bound b n :
  bytes_ok b → Zlen b = n → n <= 8 → 0 <= read_uint b < 2 ^ (8 * n).
Proof.
  intros Hb <- Hn. rewrite read_uint_be by (done || unfold Zlen in Hn; lia). by apply be_get_bound.
Qed.

Lemma post_with_length {A} (Q : A → Prop) size b (k : Z → list Z → dres A) :
  0 <= size <= 2 → bytes_ok b →
  (∀ used b', b = used ++ b' → Zlen used = 2 ^ size → bytes_ok used → bytes_ok b' →
     0 <= read_uint used <= 2 ^ 31 → post Q (k (read_uint used) b') b') →
  post Q (with_length size b k) b.
Proof.
  intros Hs Hb Hk. unfold with_length, length_field. rewrite Z.shiftl_mul_pow2, Z.mul_1_l by lia.
  pose proof (Z.pow_pos_nonneg 2 size ltac:(lia) ltac:(lia)) as Hp.
  pose proof (Z.pow_le_mono_r 2 size 2 ltac:(lia) ltac:(lia)) as Hp4. change (2 ^ 2) with 4 in Hp4.
  destruct (need (2 ^ size) b) as [[f b']|e] eqn:E; cycle 1.
  { pose proof (post_need (2 ^ size) b ltac:(lia) Hb) as H. rewrite E in H. exact H. }
  apply need_inv in E as [-> Hf]; [|lia]. apply bytes_ok_app in Hb as [Hbf Hbb]. cbv zeta.
  destruct (Z.ltb_spec (2 ^ 31) (read_uint f)); [done|].
  pose proof (read_uint_bound f (2 ^ size) Hbf Hf ltac:(lia)).
  specialize (Hk f b' eq_refl Hf Hbf Hbb ltac:(lia)).
  destruct (k (read_uint f) b') as [[a b'']|e]; [|done]. destruct Hk as [[u ->] Ha].
  split; [|done]. exists (f ++ u). by rewrite app_assoc.
Qed.

Lemma post_values val L : ∀ k n b,
  (∀ b', bytes_ok b' → (length b' ≤ L)%nat → post wf (val b') b' ∧ ∀ v b'', val b' = Ok (v, b'') → (length b'' < length b')%nat) →
  bytes_ok b → (length b ≤ L)%nat → (length b < k)%nat →
  post (λ vs, Zlen vs = Z.max 0 n ∧ Forall wf vs) (values val k n b) b.
Proof.
  induction k as [|k IH]; intros n b Hval Hb HL Hk; [lia|]. cbn [values].
  destruct (Z.leb_spec n 0).
  { split; [by exists []|]. cbn. split; [|constructor]. unfold Zlen. simpl. lia. }
  destruct (Hval b Hb HL) as [Hp Hlt]. destruct (val b) as [[v b']|e] eqn:E; [|exact Hp].
  destruct Hp as [[u ->] Hw]. specialize (Hlt v b' eq_refl). apply bytes_ok_app in Hb as [_ Hb].
  rewrite length_app in *. fold (values val).
  specialize (IH (n - 1) b' Hval Hb ltac:(lia) ltac:(lia)).
  destruct (values val k (n - 1) b') as [[vs b'']|e]; [|exact IH].
  destruct IH as [[u' ->] [Hl Hf]]. split; [exists (u ++ u'); by rewrite app_assoc|].
  split; [rewrite Zlen_cons; lia|by constructor].
Qed.

Lemma post_entries val L : ∀ k n b,
  (∀ b', bytes_ok b' → (length b' ≤ L)%nat → post wf (val b') b' ∧ ∀ v b'', val b' = Ok (v, b'') → (length b'' < length b')%nat) →
  bytes_ok b → (length b ≤ L)%nat → (length b < k)%nat →
  post (λ vs, Zlen vs = Z.max 0 n ∧ Forall (λ kv, wf kv.1 ∧ wf kv.2) vs) (entries val k n b) b.
Proof.
  induction k as [|k IH]; intros n b Hval Hb HL Hk; [lia|]. cbn [entries].
  destruct (Z.leb_spec n 0).
  { split; [by exists []|]. cbn. split; [|constructor]. unfold Zlen. simpl. lia. }
  destruct (Hval b Hb HL) as [Hp Hlt]. destruct (val b) as [[x b']|e] eqn:E; [|exact Hp].
  destruct Hp as [[u ->] Hw]. specialize (Hlt x b' eq_refl). apply bytes_ok_app in Hb as [_ Hb].
  rewrite length_app in *.
  destruct (Hval b' Hb ltac:(lia)) as [Hp2 Hlt2]. destruct (val b') as [[y b2]|e] eqn:E2; [|exact Hp2].
  destruct Hp2 as [[u2 ->] Hw2]. specialize (Hlt2 y b2 eq_refl). apply bytes_ok_app in Hb as [_ Hb].
  rewrite length_app in *. fold (entries val).
  specialize (IH (n - 1) b2 Hval Hb ltac:(lia) ltac:(lia)).
  destruct (entries val k (n - 1) b2) as [[vs b'']|e]; [|exact IH].
  destruct IH as [[u' ->] [Hl Hf]]. split; [exists (u ++ u2 ++ u'); by rewrite <- !app_assoc|].
  split; [rewrite Zlen_cons; lia|by constructor].
Qed.

Lemma land_small u m n : 0 <= u → 0 <= m < 2 ^ n → 0 <= n → 0 <= Z.land u m < 2 ^ n.
Proof.
  intros Hu Hm Hn. split; [apply Z.land_nonneg; lia|].
  destruct (Z.eq_dec (Z.land u m) 0) as [->|Hne]; [apply Z.pow_pos_nonneg; lia|].
  assert (0 <= Z.land u m) by (apply Z.land_nonneg; lia).
  apply Z.log2_lt_pow2; [lia|]. eapply Z.le_lt_trans; [apply Z.log2_land; lia|].
  destruct (Z.eq_dec m 0) as [->|]; [rewrite Z.land_0_r in Hne; done|].
  eapply Z.le_lt_trans; [apply Z.le_min_r|]. apply Z.log2_lt_pow2; lia.
Qed.

Lemma lor_small a b n : 0 <= a < 2 ^ n → 0 <= b < 2 ^ n → 0 <= n → 0 <= Z.lor a b < 2 ^ n.
Proof.
  intros Ha Hb Hn. assert (0 <= Z.lor a b) by (apply Z.lor_nonneg; lia). split; [done|].
  destruct (Z.eq_dec (Z.lor a b) 0) as [->|Hne]; [lia|]. apply Z.log2_lt_pow2; [lia|].
  rewrite Z.log2_lor by lia. apply Z.max_lub_lt.
  - destruct (Z.eq_dec a 0) as [->|]; [|apply Z.log2_lt_pow2; lia]. simpl.
    destruct (Z.eq_dec n 0) as [->|]; [simpl in *; assert (b = 0) as -> by lia; done|lia].
  - destruct (Z.eq_dec b 0) as [->|]; [|apply Z.log2_lt_pow2; lia]. simpl.
    destruct (Z.eq_dec n 0) as [->|]; [simpl in *; assert (a = 0) as -> by lia; done|lia].
Qed.

Lemma f32_to_f64_range u : 0 <= u < 2 ^ 32 → 0 <= f32_to_f64 u < 2 ^ 64.
Proof.
  intros Hu. unfold f32_to_f64.
  assert (0 <= Z.shiftr u 31 <= 1) as Hs
    by (rewrite Z.shiftr_div_pow2 by lia; split; [apply Z.div_pos; lia|];
        apply Z.lt_succ_r, Z.div_lt_upper_bound; lia).
  assert (0 <= Z.shiftr u 23) as Hu23 by (rewrite Z.shiftr_div_pow2 by lia; apply Z.div_pos; lia).
  pose proof (land_small (Z.shiftr u 23) 255 8 Hu23 ltac:(lia) ltac:(lia)) as He.
  pose proof (land_small u 8388607 23 ltac:(lia) ltac:(lia) ltac:(lia)) as Hm.
  revert Hs He Hm. generalize (Z.shiftr u 31) (Z.land (Z.shiftr u 23) 255) (Z.land u 8388607).
  clear. intros s e m Hs He Hm. rewrite (Z.shiftl_mul_pow2 s 63) by lia.
  change (2 ^ 64) with (2 * 2 ^ 63). change (2 ^ 63) with (2048 * 2 ^ 52).
  destruct (Z.eqb_spec e 255); [|destruct (Z.eqb_spec e 0)].
  - rewrite (Z.shiftl_mul_pow2 2047) by lia. destruct (Z.eqb_spec m 0); [lia|].
    pose proof (lor_small (Z.shiftl m 29) (2 ^ 51) 52) as H.
    rewrite Z.shiftl_mul_pow2 in * by lia. specialize (H ltac:(lia) ltac:(lia) ltac:(lia)). lia.
  - destruct (Z.eqb_spec m 0); [lia|].
    assert (0 <= Z.log2 m < 23) by (split; [apply Z.log2_nonneg|apply Z.log2_lt_pow2; lia]).
    assert (0 <= Z.shiftl m (52 - Z.log2 m)) by (apply Z.shiftl_nonneg; lia).
    pose proof (land_small (Z.shiftl m (52 - Z.log2 m)) (2 ^ 52 - 1) 52 ltac:(lia) ltac:(lia) ltac:(lia)).
    rewrite (Z.shiftl_mul_pow2 (Z.log2 m - 149 + 1023)) by lia. lia.
  - rewrite !Z.shiftl_mul_pow2 by lia. lia.
Qed.

Lemma byte_lands h : byte_ok h →
  0 <= Z.land h 31 < 2 ^ 31 ∧ 0 <= Z.land h 15 < 2 ^ 31 ∧ - 2 ^ 63 <= i8 h < 2 ^ 63.
Proof.
  intros Hh. pose proof (land_small h 31 5). pose proof (land_small h 15 4). unfold byte_ok in Hh.
  split; [lia|]. split; [lia|]. unfold i8, sint. change (2 ^ (8 - 1)) with 128. change (2 ^ 8) with 256. zlia.
Qed.

(** A field of [2^s] bytes, [s <= 3]. *)
Lemma post_uint b s : 0 <= s <= 3 → bytes_ok b →
  post wf (dmap (λ f, VUint (read_uint f)) (need (Z.shiftl 1 s) b)) b.
Proof.
  intros Hs Hb. rewrite Z.shiftl_mul_pow2, Z.mul_1_l by lia.
  pose proof (Z.pow_pos_nonneg 2 s ltac:(lia) ltac:(lia)).
  pose proof (Z.pow_le_mono_r 2 s 3 ltac:(lia) ltac:(lia)) as H8. change (2 ^ 3) with 8 in H8.
  eapply post_dmap; [by apply post_need; [lia|]|]. intros f [Hl Hf].
  pose proof (read_uint_bound f _ Hf Hl H8) as Hr. cbn [wf].
  pose proof (Z.pow_le_mono_r 2 (8 * 2 ^ s) 64 ltac:(lia) ltac:(lia)). lia.
Qed.

Lemma post_int b s : 0 <= s <= 3 → bytes_ok b →
  post wf (dmap (λ f, VInt (sign_extend (Z.shiftl 1 s) (read_uint f))) (need (Z.shiftl 1 s) b)) b.
Proof.
  intros Hs Hb. rewrite Z.shiftl_mul_pow2, Z.mul_1_l by lia.
  pose proof (Z.pow_pos_nonneg 2 s ltac:(lia) ltac:(lia)).
  pose proof (Z.pow_le_mono_r 2 s 3 ltac:(lia) ltac:(lia)) as H8. change (2 ^ 3) with 8 in H8.
  eapply post_dmap; [by apply post_need; [lia|]|]. intros f [Hl Hf].
  pose proof (read_uint_bound f _ Hf Hl H8) as Hr. cbn [wf]. rewrite sign_extend_spec by lia.
  unfold sint. set (w := 8 * 2 ^ s) in *.
  assert (2 ^ w = 2 * 2 ^ (w - 1)) by (rewrite <- Z.pow_succ_r by lia; f_equal; lia).
  pose proof (Z.pow_le_mono_r 2 (w - 1) 63 ltac:(lia) ltac:(lia)).
  pose proof (Z.mod_pos_bound (read_uint f + 2 ^ (w - 1)) (2 ^ w) ltac:(lia)). lia.
Qed.

Lemma post_ext h pre n b :
  0 <= n → bytes_ok b → (∀ raw, Zlen raw = 1 + n → ext_ok (h :: pre ++ raw)) →
  post wf (ext_value h pre n b) b.
Proof.
  intros Hn Hb H. eapply post_dmap; [by apply post_need; [lia|]|]. intros raw [Hl _]. by apply H.
Qed.

Lemma post_dispatch val h b :
  (∀ b', bytes_ok b' → (length b' ≤ length b)%nat →
     post wf (val b') b' ∧ ∀ v b'', val b' = Ok (v, b'') → (length b'' < length b')%nat) →
  byte_ok h → bytes_ok b → post wf (dispatch val h b) b.
Proof.
  intros Hval Hh Hb. destruct (byte_lands h Hh) as (H31 & H15 & Hi8).
  assert (∀ n b', bytes_ok b' → (length b' ≤ length b)%nat → 0 <= n <= 2 ^ 31 →
    post wf (dmap VArray (values val (S (length b')) n b')) b') as Harr.
  { intros n b' Hb' Hl Hn. eapply post_dmap; [eapply (post_values val (length b)); [exact Hval|done|done|lia]|].
    intros a [Ha Hw]. apply wf_array. split; [lia|done]. }
  assert (∀ n b', bytes_ok b' → (length b' ≤ length b)%nat → 0 <= n <= 2 ^ 31 →
    post wf (dmap VMap (entries val (S (length b')) n b')) b') as Hmap.
  { intros n b' Hb' Hl Hn. eapply post_dmap; [eapply (post_entries val (length b)); [exact Hval|done|done|lia]|].
    intros a [Ha Hw]. apply wf_map. split; [lia|done]. }
  assert (∀ n b', bytes_ok b' → 0 <= n <= 2 ^ 31 → post wf (dmap VStr (need n b')) b') as Hstr.
  { intros n b' Hb' Hn. eapply post_dmap; [by apply post_need; [lia|]|]. intros s [Hs _]. cbn [wf]. lia. }
  assert (∀ n b', bytes_ok b' → 0 <= n <= 2 ^ 31 → post wf (dmap VBin (need n b')) b') as Hbin.
  { intros n b' Hb' Hn. eapply post_dmap; [by apply post_need; [lia|]|]. intros s [Hs _]. cbn [wf]. lia. }
  unfold dispatch. unfold byte_ok in Hh.
  repeat (match goal with |- post _ (if ?c then _ else _) _ => destruct c eqn:? end; zbool);
    try (split; [by exists []|done]).
  - split; [by exists []|]. cbn [wf]. lia.
  - apply Hstr; [done|lia].
  - apply Harr; [done|lia|lia].
  - apply Hmap; [done|lia|lia].
  - apply post_with_length; [lia|done|]. intros. by apply Hbin.
  - eapply post_dmap; [by apply post_need; [lia|]|]. intros f [Hl Hf]. cbn [wf].
    apply f32_to_f64_range. pose proof (be_get_bound f Hf) as B. rewrite Hl in B. exact B.
  - eapply post_dmap; [by apply post_need; [lia|]|]. intros f [Hl Hf]. cbn [wf].
    pose proof (be_get_bound f Hf) as B. rewrite Hl in B. exact B.
  - apply post_uint; [lia|done].
  - apply post_int; [lia|done].
  - apply post_with_length; [lia|done|]. intros. by apply Hstr.
  - apply post_with_length; [lia|done|]. intros u b' -> _ _ Hb' Hn. apply Harr; [done|len|lia].
  - apply post_with_length; [lia|done|]. intros u b' -> _ _ Hb' Hn. apply Hmap; [done|len|lia].
  - apply post_ext; [apply Z.shiftl_nonneg; lia|done|]. intros raw Hr. left. exists h, raw.
    rewrite Z.shiftl_mul_pow2, Z.mul_1_l in Hr by lia. split; [lia|]. done.
  - apply post_with_length; [lia|done|]. intros u b' E Hu Hub Hb' Hn. apply post_ext; [lia|done|].
    intros raw Hr. right. exists h, u, raw. split; [lia|]. split_and!; [|done|lia|lia|done].
    do 2 f_equal. rewrite E, length_app. replace (_ - _)%nat with (length u) by lia. apply take_app_length.
  - done.
Qed.

Lemma value_post fuel : ∀ b,
  bytes_ok b → (length b < fuel)%nat →
  post wf (value fuel b) b ∧ ∀ v b', value fuel b = Ok (v, b') → (length b' < length b)%nat.
Proof.
  induction fuel as [|fuel IH]; intros b Hb Hf; [lia|]. destruct b as [|h b]; [done|].
  apply Forall_cons in Hb as [Hh Hb]. simpl in Hf. cbn [value].
  assert (post wf (dispatch (value fuel) h b) b) as Hp
    by (apply post_dispatch; [intros b' Hb' Hl; apply IH; [done|lia]|done..]).
  destruct (dispatch (value fuel) h b) as [[v b']|e]; [|by split].
  destruct Hp as [[u ->] Hw]. split.
  - split; [by exists (h :: u)|done].
  - intros v' b'' [= <- <-]. simpl. rewrite length_app. lia.
Qed.

Lemma norm_pack v : wf v → Pack (norm v) = Pack v.
Proof.
  revert v. apply (Value_rect_nested (λ v, wf v → Pack (norm v) = Pack v)).
  - intros v. destruct v; try done. cbn [norm wf Pack]. intros Hw. destruct (Z.leb_spec 0 i); [|done].
    cbn [Pack]. unfold pack_int. rewrite (proj2 (Z.leb_le 0 i)) by done. f_equal.
    unfold u64. symmetry. apply Z.mod_small. lia.
  - intros a IH Hw. apply wf_array in Hw as [_ Hw]. cbn [norm Pack].
    unfold Zlen. rewrite length_map, map_map. do 2 f_equal. apply map_ext_in. intros x Hx.
    rewrite Forall_forall in IH, Hw. apply list_elem_of_In in Hx. auto.
  - intros m IH Hw. apply wf_map in Hw as [_ Hw]. cbn [norm Pack].
    unfold Zlen. rewrite length_map, map_map. do 2 f_equal. apply map_ext_in. intros [k x] Hx.
    rewrite Forall_forall in IH, Hw. apply list_elem_of_In in Hx.
    destruct (IH _ Hx), (Hw _ Hx). cbn in *. f_equal; auto.
Qed.

(** Every value in range survives the codec: unpacking its encoding,
    whatever follows, gives it back (a non-negative signed integer as an
    unsigned one) with the number of bytes of the encoding. *)
Theorem msgpack_roundtrip v rest :
  wf v → UnpackValue (Pack v ++ rest) = Ok (norm v, Zlen (Pack v)).
Proof.
  intros Hw. unfold UnpackValue. rewrite value_pack by (done || lia).
  rewrite Zlen_app. do 2 f_equal. lia.
Qed.

Definition sample_value : Value := VMap [(VUint 1, VStr [104; 105]); (VInt 200, VArray [VNil; VInt (-40); VBin [7]])].

Lemma msgpack_roundtrip_witness :
  UnpackValue (Pack sample_value ++ [9; 9]) = Ok (norm sample_value, Zlen (Pack sample_value)).
Proof. apply (msgpack_roundtrip sample_value [9; 9]). cbn. unfold Zlen. simpl. lia. Defined.

(** C35: decoding terminates on every byte string, consumes at least one byte
    and at most the input, and re-encoding is stable: the encoding of a decoded
    value decodes to the same encoding, so a hash over the re-encoding does not
    depend on how often the payload has been through the codec. *)
Theorem msgpack_reencode_stable b :
  bytes_ok b →
  match UnpackValue b with
  | Ok (v, n) => 1 <= n <= Zlen b ∧
      ∃ v' n', UnpackValue (Pack v) = Ok (v', n') ∧ Pack v' = Pack v ∧ n' = Zlen (Pack v)
  | Err e => e ≠ OutOfFuel
  end.
Proof.
  intros Hb. unfold UnpackValue at 1.
  destruct (value_post (S (length b)) b Hb ltac:(lia)) as [Hp Hlt].
  destruct (value (S (length b)) b) as [[v b']|e]; [|exact Hp]. destruct Hp as [[u ->] Hw].
  specialize (Hlt v b' eq_refl). rewrite length_app in Hlt. rewrite Zlen_app. unfold Zlen.
  split; [lia|]. exists (norm v), (Zlen (Pack v)). split; [|by rewrite norm_pack].
  unfold UnpackValue. rewrite <- (app_nil_r (Pack v)) at 1 2. rewrite value_pack by (done || lia).
  do 2 f_equal. unfold Zlen. simpl. lia.
Qed.

Lemma msgpack_reencode_stable_witness :
  ∃ v' n', UnpackValue (Pack (VArray [VInt 5])) = Ok (v', n') ∧ Pack v' = Pack (VArray [VInt 5]).
Proof.
  pose proof (msgpack_reencode_stable [145; 208; 5] ltac:(repeat constructor; unfold byte_ok; lia)) as H.
  change (UnpackValue [145; 208; 5]) with (@Ok unpack_error _ (VArray [VInt 5], 3)) in H.
  destruct H as [_ (v' & n' & H1 & H2 & _)]. exists v', n'. split; [exact H1|exact H2].
Defined.

End Msgpack.
