(* ===== verification/Hdlc.v ===== *)
(** HDLC framing of Reticulum packets on TCP, [internal/rnswire/hdlc.go]: escaping, the
    extraction loop and the bounded reader of the public listener.  The reader is
    compared with an automaton that consumes the stream byte by byte; the reader of
    [internal/reticulum] in [HdlcReticulum] shares the escaping, the loop and the
    automaton. *)
From S2P Require Import Prelude.

Module Hdlc.

Definition HDLCFlag : Z := 126.
Definition HDLCEsc : Z := 125.
Definition HDLCEscMask : Z := 32.
Definition HeaderMinSize : nat := 19.

Fixpoint HDLCEscape (data : list Z) : list Z :=
  match data with
  | [] => []
  | b :: data =>
      (if b =? HDLCEsc then [HDLCEsc; Z.lxor HDLCEsc HDLCEscMask]
       else if b =? HDLCFlag then [HDLCEsc; Z.lxor HDLCFlag HDLCEscMask]
       else [b]) ++ HDLCEscape data
  end.

Fixpoint HDLCUnescape (data : list Z) : list Z :=
  match data with
  | [] => []
  | [b] => [b]
  | b :: ((c :: data) as tail) =>
      if b =? HDLCEsc then Z.lxor c HDLCEscMask :: HDLCUnescape data else b :: HDLCUnescape tail
  end.

Definition HDLCFrame (data : list Z) : list Z := [HDLCFlag] ++ HDLCEscape data ++ [HDLCFlag].

(** The index of the first flag. *)
Fixpoint find_flag (l : list Z) : option nat :=
  match l with
  | [] => None
  | b :: l => if b =? HDLCFlag then Some 0%nat else S <$> find_flag l
  end.

(** What the extraction appends for one delimited run of bytes. *)
Definition emit (escaped : list Z) : list (list Z) :=
  if (HeaderMinSize <=? length escaped)%nat then [HDLCUnescape escaped] else [].

(** The extraction loop of [Feed]: the frames, and the partial frame from its
    opening flag, [None] when the buffer holds no flag.  A turn drops at least the
    opening flag, so [fuel] above the buffer's length is enough. *)
Fixpoint extract (fuel : nat) (buf : list Z) : list (list Z) * option (list Z) :=
  match fuel with
  | O => ([], None)
  | S fuel =>
      match find_flag buf with
      | None => ([], None)
      | Some start =>
          match find_flag (drop (S start) buf) with
          | None => ([], Some (drop start buf))
          | Some n =>
              let endp := (start + 1 + n)%nat in
              let '(frames, rest) := extract fuel (drop endp buf) in
              (emit (sub (start + 1) endp buf) ++ frames, rest)
          end
      end
  end.

Definition extract_all (buf : list Z) : list (list Z) * option (list Z) :=
  extract (S (length buf)) buf.

(** ** The stream automaton *)

(** [None] before the first flag, then the bytes since the last one. *)
Definition cursor : Type := option (list Z).

Definition step (cur : cursor) (b : Z) : list (list Z) * cursor :=
  match cur with
  | None => ([], if b =? HDLCFlag then Some [] else None)
  | Some acc => if b =? HDLCFlag then (emit acc, Some []) else ([], Some (acc ++ [b]))
  end.

Fixpoint run (cur : cursor) (l : list Z) : list (list Z) * cursor :=
  match l with
  | [] => ([], cur)
  | b :: l =>
      let '(out, cur) := step cur b in
      let '(outs, cur) := run cur l in (out ++ outs, cur)
  end.

Definition cursor_len (cur : cursor) : nat := match cur with None => 0 | Some acc => length acc end.

(** The longest partial frame on the way. *)
Fixpoint peak (cur : cursor) (l : list Z) : nat :=
  match l with
  | [] => cursor_len cur
  | b :: l => (cursor_len cur `max` peak (step cur b).2 l)%nat
  end.

(** The buffer a reader holds in a state of the automaton. *)
Definition buffer (cur : cursor) : list Z := match cur with None => [] | Some acc => HDLCFlag :: acc end.

Definition flag_free (l : list Z) : Prop := HDLCFlag ∉ l.

Lemma run_app cur a b :
  run cur (a ++ b) = let '(o1, c1) := run cur a in let '(o2, c2) := run c1 b in (o1 ++ o2, c2).
Proof.
  revert cur. induction a as [|x a IH]; intros cur; cbn [app run].
  - by destruct (run cur b).
  - destruct (step cur x) as [o c]. rewrite IH. destruct (run c a) as [o1 c1].
    destruct (run c1 b) as [o2 c2]. by rewrite (assoc_L (++)).
Qed.

Lemma peak_app cur a b : peak cur (a ++ b) = (peak cur a `max` peak (run cur a).2 b)%nat.
Proof.
  revert cur. induction a as [|x a IH]; intros cur; cbn [app run peak].
  - destruct b; cbn [peak run snd]; lia.
  - rewrite IH. destruct (step cur x) as [o c]. cbn [snd].
    destruct (run c a) as [o1 c1]. cbn [snd]. lia.
Qed.

Lemma peak_end cur l : (cursor_len (run cur l).2 ≤ peak cur l)%nat.
Proof.
  revert cur. induction l as [|b l IH]; intros cur; cbn [run peak]; [done|].
  specialize (IH (step cur b).2). destruct (step cur b) as [o c]. cbn [snd] in *.
  destruct (run c l). cbn [snd] in *. lia.
Qed.

Lemma flag_free_cons b l : flag_free (b :: l) ↔ b ≠ HDLCFlag ∧ flag_free l.
Proof. unfold flag_free. rewrite not_elem_of_cons. naive_solver. Qed.

Lemma run_free_none l : flag_free l → run None l = ([], None).
Proof.
  induction l as [|b l IH]; [done|]. intros [Hb Hl]%flag_free_cons.
  cbn [run step]. apply Z.eqb_neq in Hb. rewrite Hb. by rewrite IH.
Qed.

Lemma run_free_some acc l : flag_free l → run (Some acc) l = ([], Some (acc ++ l)).
Proof.
  revert acc. induction l as [|b l IH]; intros acc; [by rewrite app_nil_r|].
  intros [Hb Hl]%flag_free_cons. cbn [run step]. apply Z.eqb_neq in Hb. rewrite Hb.
  rewrite IH by done. by rewrite <-(assoc_L (++)).
Qed.

Lemma peak_free acc l : flag_free l → peak (Some acc) l = (length acc + length l)%nat.
Proof.
  revert acc. induction l as [|b l IH]; intros acc; cbn [peak cursor_len length]; [lia|].
  intros [Hb Hl]%flag_free_cons. cbn [step]. apply Z.eqb_neq in Hb. rewrite Hb. cbn [snd].
  rewrite IH by done. rewrite length_app. simpl. lia.
Qed.

Lemma find_flag_none l : find_flag l = None → flag_free l.
Proof.
  induction l as [|b l IH]; [intros _; apply not_elem_of_nil|]. simpl.
  destruct (Z.eqb_spec b HDLCFlag); [done|]. intros H%fmap_None. apply flag_free_cons. auto.
Qed.

Lemma find_flag_some l i :
  find_flag l = Some i → ∃ pre post, l = pre ++ HDLCFlag :: post ∧ flag_free pre ∧ length pre = i.
Proof.
  revert i. induction l as [|b l IH]; intros i; [done|]. simpl.
  destruct (Z.eqb_spec b HDLCFlag) as [->|Hb].
  - intros [= <-]. exists [], l. split_and!; [done|apply not_elem_of_nil|done].
  - intros (j & Hj & ->)%fmap_Some. destruct (IH j Hj) as (pre & post & -> & Hf & <-).
    exists (b :: pre), post. split_and!; [done| |done]. by apply flag_free_cons.
Qed.

Lemma between_flags pre seg tail (buf := pre ++ HDLCFlag :: seg ++ HDLCFlag :: tail) :
  drop (length pre + 1 + length seg) buf = HDLCFlag :: tail ∧
  sub (length pre + 1) (length pre + 1 + length seg) buf = seg.
Proof.
  unfold sub. replace buf with ((pre ++ [HDLCFlag]) ++ seg ++ HDLCFlag :: tail)
    by by unfold buf; rewrite <-(assoc_L (++)).
  split.
  - rewrite (assoc_L (++)), drop_app_length'; [done|]. rewrite !length_app. simpl. lia.
  - rewrite drop_app_length' by (rewrite length_app; simpl; lia). rewrite take_app_length'; [done|lia].
Qed.

(** The extraction loop computes the automaton's frames and partial frame. *)
Lemma extract_run fuel buf :
  (length buf < fuel)%nat →
  extract fuel buf = let '(frames, cur) := run None buf in
    (frames, match cur with None => None | Some acc => Some (HDLCFlag :: acc) end).
Proof.
  revert buf. induction fuel as [|fuel IH]; intros buf Hlen; [lia|]. cbn [extract].
  destruct (find_flag buf) as [start|] eqn:Hs.
  2: { by rewrite run_free_none by by apply find_flag_none. }
  destruct (find_flag_some _ _ Hs) as (pre & post & -> & Hpre & <-).
  rewrite run_app, run_free_none by done. cbn [run step Z.eqb].
  replace (drop (S (length pre)) (pre ++ HDLCFlag :: post)) with post
    by by rewrite drop_app_ge, Nat.sub_succ_l, Nat.sub_diag by lia.
  replace (HDLCFlag =? HDLCFlag) with true by done.
  destruct (find_flag post) as [n|] eqn:Hn.
  2: { rewrite run_free_some by by apply find_flag_none. by rewrite drop_app_length. }
  destruct (find_flag_some _ _ Hn) as (seg & tail & -> & Hseg & <-).
  destruct (between_flags pre seg tail) as [-> ->].
  rewrite IH by (rewrite !length_app in Hlen; simpl in *; rewrite length_app in Hlen; simpl in *; lia).
  rewrite run_app, run_free_some by done. cbn [run step].
  replace (HDLCFlag =? HDLCFlag) with true by done. cbn [app].
  by destruct (run (Some []) tail).
Qed.

Lemma run_buffer cur : flag_free (default [] cur) → run None (buffer cur) = ([], cur).
Proof.
  destruct cur as [acc|]; [|done]. intros H. cbn [buffer run step default].
  replace (HDLCFlag =? HDLCFlag) with true by done. by rewrite run_free_some.
Qed.

Lemma run_flag_free cur l : flag_free (default [] cur) → flag_free (default [] (run cur l).2).
Proof.
  revert cur. induction l as [|b l IH]; intros cur Hc; [done|]. cbn [run].
  assert (Hs : flag_free (default [] (step cur b).2)).
  { destruct cur as [acc|]; simpl in *; destruct (Z.eqb_spec b HDLCFlag); simpl;
      try apply not_elem_of_nil.
    unfold flag_free in *. rewrite elem_of_app, list_elem_of_singleton. naive_solver. }
  specialize (IH _ Hs). destruct (step cur b) as [o c]. cbn [snd] in *.
  by destruct (run c l).
Qed.

(** A reader whose buffer stands for [cur] extracts what the automaton emits next. *)
Lemma extract_buffer cur data :
  flag_free (default [] cur) →
  extract_all (buffer cur ++ data) = let '(frames, cur') := run cur data in
    (frames, match cur' with None => None | Some acc => Some (HDLCFlag :: acc) end).
Proof.
  intros Hc. unfold extract_all. rewrite extract_run by lia. rewrite run_app, run_buffer by done.
  by destruct (run cur data).
Qed.

(** ** Escaping *)

Lemma unescape_escape data : HDLCUnescape (HDLCEscape data) = data.
Proof.
  induction data as [|b data IH]; [done|]. cbn [HDLCEscape].
  destruct (Z.eqb_spec b HDLCEsc) as [->|Hesc]; [cbn; by rewrite IH|].
  destruct (Z.eqb_spec b HDLCFlag) as [->|Hflag]; [cbn; by rewrite IH|].
  cbn [app]. apply Z.eqb_neq in Hesc. destruct (HDLCEscape data) as [|c t] eqn:He.
  - cbn [HDLCUnescape] in *. by rewrite <-IH.
  - change (HDLCUnescape (b :: c :: t)) with
      (if b =? HDLCEsc then Z.lxor c HDLCEscMask :: HDLCUnescape t else b :: HDLCUnescape (c :: t)).
    by rewrite Hesc, IH.
Qed.

Lemma escape_free data : flag_free (HDLCEscape data).
Proof.
  induction data as [|b data IH]; [apply not_elem_of_nil|]. cbn [HDLCEscape].
  unfold flag_free in *. rewrite elem_of_app. intros [H|H]; [|done]. revert H.
  destruct (Z.eqb_spec b HDLCEsc); [|destruct (Z.eqb_spec b HDLCFlag)];
    rewrite ?elem_of_cons, elem_of_nil; naive_solver.
Qed.

Lemma escape_length data :
  (length data ≤ length (HDLCEscape data))%nat ∧ (length (HDLCEscape data) ≤ 2 * length data)%nat.
Proof.
  induction data as [|b data IH]; [done|]. cbn [HDLCEscape]. rewrite length_app.
  destruct (b =? HDLCEsc), (b =? HDLCFlag); simpl; lia.
Qed.

(** ** A stream of framed packets *)

Lemma emit_nil : emit [] = [].
Proof. done. Qed.

Lemma emit_escape p : (HeaderMinSize ≤ length p)%nat → emit (HDLCEscape p) = [p].
Proof.
  intros H. unfold emit. pose proof (escape_length p) as [? _].
  rewrite (proj2 (Nat.leb_le _ _)) by lia. by rewrite unescape_escape.
Qed.

(** Between frames the automaton is at the start or just after a flag. *)
Definition at_boundary (cur : cursor) : Prop := cur = None ∨ cur = Some [].

Lemma run_frame cur p :
  at_boundary cur → (HeaderMinSize ≤ length p)%nat → run cur (HDLCFrame p) = ([p], Some []).
Proof.
  intros Hc Hp. unfold HDLCFrame. rewrite run_app.
  replace (run cur [HDLCFlag]) with (@nil (list Z), Some (@nil Z))
    by by destruct Hc as [->| ->].
  rewrite run_app, run_free_some by apply escape_free.
  change (run (Some ([] ++ HDLCEscape p)) [HDLCFlag]) with (emit (HDLCEscape p) ++ [], Some (@nil Z)).
  by rewrite emit_escape.
Qed.

Lemma peak_frame cur p :
  at_boundary cur → (peak cur (HDLCFrame p) ≤ 2 * length p)%nat.
Proof.
  intros Hc. unfold HDLCFrame. rewrite !peak_app.
  replace (run cur [HDLCFlag]).2 with (Some (@nil Z)) by by destruct Hc as [->| ->].
  replace (peak cur [HDLCFlag]) with 0%nat by by destruct Hc as [->| ->].
  rewrite peak_free, run_free_some by apply escape_free. cbn [snd].
  pose proof (escape_length p). simpl peak. rewrite ?length_app. simpl length. lia.
Qed.

Lemma run_frames cur pkts :
  at_boundary cur → Forall (λ p, HeaderMinSize ≤ length p)%nat pkts →
  (run cur (concat (HDLCFrame <$> pkts))).1 = pkts.
Proof.
  intros Hc H. revert cur Hc. induction H as [|p pkts Hp _ IH]; intros cur Hc; [done|].
  rewrite fmap_cons. cbn [concat]. rewrite run_app, run_frame by done.
  specialize (IH (Some []) (or_intror eq_refl)). destruct (run (Some []) _). simpl in *. by subst.
Qed.

Lemma peak_frames cur pkts (m : nat) :
  at_boundary cur → Forall (λ p, HeaderMinSize ≤ length p ∧ 2 * length p ≤ m)%nat pkts →
  (peak cur (concat (HDLCFrame <$> pkts)) ≤ m)%nat.
Proof.
  intros Hc H. revert cur Hc. induction H as [|p pkts [Hp Hm] _ IH]; intros cur Hc.
  - destruct Hc as [->| ->]; simpl; lia.
  - rewrite fmap_cons. cbn [concat]. rewrite peak_app, run_frame by done. cbn [snd].
    pose proof (peak_frame cur p Hc). pose proof (IH (Some []) (or_intror eq_refl)). lia.
Qed.

(** ** The reader of [internal/rnswire] *)

Definition HDLCMaxBuffered : Z := 2 * 262144 + 2.

(** The index of the last flag: the downward scan of [Feed], [None] below zero. *)
Definition last_flag (buf : list Z) : option nat :=
  match find_flag (reverse buf) with None => None | Some j => Some (length buf - 1 - j)%nat end.

(** What [Feed] keeps of an oversized buffer. *)
Definition trim (buf : list Z) : list Z :=
  match last_flag buf with
  | None => []
  | Some cut => if HDLCMaxBuffered <? Zlen buf - Z.of_nat cut then [] else drop cut buf
  end.

(** The frames, and the reader's buffer afterwards. *)
Definition Feed (buf data : list Z) : list (list Z) * list Z :=
  let buf := buf ++ data in
  let buf := if HDLCMaxBuffered <? Zlen buf then trim buf else buf in
  let '(frames, rest) := extract_all buf in (frames, default [] rest).

(** The reads of one connection, in order. *)
Fixpoint feed_all (buf : list Z) (chunks : list (list Z)) : list (list Z) * list Z :=
  match chunks with
  | [] => ([], buf)
  | data :: chunks =>
      let '(frames, buf) := Feed buf data in
      let '(more, buf) := feed_all buf chunks in (frames ++ more, buf)
  end.

Lemma buffer_partial cur :
  default [] (match cur with None => None | Some acc => Some (HDLCFlag :: acc) end) = buffer cur.
Proof. by destruct cur. Qed.

Lemma Feed_run cur data :
  flag_free (default [] cur) → Zlen (buffer cur ++ data) <= HDLCMaxBuffered →
  Feed (buffer cur) data = let '(frames, cur') := run cur data in (frames, buffer cur').
Proof.
  intros Hc Hlen. unfold Feed. rewrite (proj2 (Z.ltb_ge _ _)) by done.
  rewrite extract_buffer by done. destruct (run cur data). by rewrite buffer_partial.
Qed.

Lemma trim_shape buf :
  ∃ cur, flag_free (default [] cur) ∧ trim buf = buffer cur ∧ Zlen (buffer cur) <= HDLCMaxBuffered.
Proof.
  assert (Hnil : Zlen (@nil Z) <= HDLCMaxBuffered) by done.
  unfold trim, last_flag. destruct (find_flag (reverse buf)) as [j|] eqn:Hj.
  2: { exists None. split_and!; [apply not_elem_of_nil|done|done]. }
  case_if; [exists None; split_and!; [apply not_elem_of_nil|done|done]|]. zbool.
  destruct (find_flag_some _ _ Hj) as (pre & post & Hrev & Hfree & <-).
  apply (f_equal reverse) in Hrev. rewrite reverse_involutive, reverse_app, reverse_cons in Hrev.
  subst buf. rewrite <-(assoc_L (++)) in *. exists (Some (reverse pre)).
  assert (Hcut : (length (reverse post ++ [HDLCFlag] ++ reverse pre) - 1 - length pre)%nat
                 = length (reverse post)) by (rewrite !length_app, !length_reverse; simpl; lia).
  rewrite Hcut in *. split_and!.
  - unfold flag_free in *. simpl. by rewrite elem_of_reverse.
  - by rewrite drop_app_length.
  - simpl. rewrite Zlen_app in *. unfold Zlen in *. simpl in *. lia.
Qed.

Lemma Feed_oversize buf data :
  HDLCMaxBuffered < Zlen (buf ++ data) →
  ∃ cur, flag_free (default [] cur) ∧ Feed buf data = ([], buffer cur) ∧
    Zlen (buffer cur) <= HDLCMaxBuffered.
Proof.
  intros Hlen. destruct (trim_shape (buf ++ data)) as (cur & Hc & Ht & Hl).
  exists cur. split_and!; [done| |done]. unfold Feed. rewrite (proj2 (Z.ltb_lt _ _)) by done.
  rewrite Ht, <-(app_nil_r (buffer cur)), extract_buffer by done. simpl.
  by rewrite buffer_partial, app_nil_r.
Qed.

Lemma run_buffer_le cur data :
  (length (buffer (run cur data).2) ≤ length (buffer cur ++ data))%nat.
Proof.
  revert cur. induction data as [|b data IH]; intros cur; cbn [run]; [by rewrite app_nil_r|].
  specialize (IH (step cur b).2).
  assert (Hs : (length (buffer (step cur b).2) ≤ length (buffer cur) + 1)%nat).
  { destruct cur; simpl; destruct (b =? HDLCFlag); simpl; rewrite ?length_app; simpl; lia. }
  destruct (step cur b) as [o c]. cbn [snd] in *. destruct (run c data). cbn [snd] in *.
  rewrite length_app in *. simpl. lia.
Qed.

Lemma feed_all_shape cur chunks :
  flag_free (default [] cur) → Zlen (buffer cur) <= HDLCMaxBuffered →
  ∃ frames cur', flag_free (default [] cur') ∧ feed_all (buffer cur) chunks = (frames, buffer cur') ∧
    Zlen (buffer cur') <= HDLCMaxBuffered.
Proof.
  revert cur. induction chunks as [|data chunks IH]; intros cur Hc Hl; [by exists [], cur|].
  cbn [feed_all].
  assert (∃ frames cur', flag_free (default [] cur') ∧ Feed (buffer cur) data = (frames, buffer cur') ∧
            Zlen (buffer cur') <= HDLCMaxBuffered) as (f1 & c1 & H1 & -> & Hl1).
  { destruct (Z_le_gt_dec (Zlen (buffer cur ++ data)) HDLCMaxBuffered) as [Hle|Hgt].
    - rewrite Feed_run by done. pose proof (run_flag_free cur data Hc).
      pose proof (run_buffer_le cur data). destruct (run cur data) as [f c].
      exists f, c. split_and!; [done|done|]. unfold Zlen in *. simpl in *. lia.
    - destruct (Feed_oversize (buffer cur) data) as (c & ?); [lia|]. by exists [], c. }
  destruct (IH c1 H1 Hl1) as (f2 & c2 & H2 & -> & Hl2). by exists (f1 ++ f2), c2.
Qed.

Lemma buffer_len cur : Zlen (buffer cur) <= 1 + Z.of_nat (cursor_len cur).
Proof. destruct cur; unfold Zlen; simpl; lia. Qed.

Lemma feed_all_run c cur chunks :
  flag_free (default [] cur) → Forall (λ data, Zlen data <= c) chunks →
  1 + Z.of_nat (peak cur (concat chunks)) + c <= HDLCMaxBuffered →
  (feed_all (buffer cur) chunks).1 = (run cur (concat chunks)).1.
Proof.
  intros Hc Hch. revert cur Hc. induction Hch as [|data chunks Hd _ IH]; intros cur Hc Hp; [done|].
  cbn [feed_all concat] in *. rewrite peak_app in Hp. rewrite run_app.
  assert (cursor_len cur ≤ peak cur data)%nat by (destruct data; simpl; lia).
  rewrite Feed_run by (done || (rewrite Zlen_app; pose proof (buffer_len cur); lia)).
  pose proof (run_flag_free cur data Hc) as Hc1. destruct (run cur data) as [f1 c1]. cbn [snd] in *.
  specialize (IH c1 Hc1 ltac:(lia)). destruct (feed_all (buffer c1) chunks), (run c1 (concat chunks)).
  simpl in *. by subst.
Qed.

(** C32: the TCP server's reader returns exactly the packets sent, however the
    stream was cut into reads: [pkts] are framed one after the other, [chunks] are
    reads of at most [c] bytes of that stream, and an escaped packet together with
    one read fits the buffer. *)
Theorem hdlc_delivers c pkts chunks :
  Forall (λ p, (HeaderMinSize ≤ length p)%nat ∧ 1 + 2 * Zlen p + c <= HDLCMaxBuffered) pkts →
  Forall (λ data, Zlen data <= c) chunks → 1 + c <= HDLCMaxBuffered →
  concat chunks = concat (HDLCFrame <$> pkts) →
  (feed_all [] chunks).1 = pkts.
Proof.
  intros Hp Hch Hc Hcat.
  assert (Hpk : (peak None (concat chunks) ≤ Z.to_nat (HDLCMaxBuffered - 1 - c))%nat).
  { rewrite Hcat. apply peak_frames; [by left|]. eapply Forall_impl; [exact Hp|].
    intros p [H1 H2]. unfold Zlen in H2. split; [done|lia]. }
  change [] with (buffer None) at 1. rewrite (feed_all_run c); [|apply not_elem_of_nil|done|lia].
  rewrite Hcat. apply run_frames; [by left|]. eapply Forall_impl; [exact Hp|]. by intros p [? _].
Qed.

Lemma hdlc_delivers_witness :
  (feed_all [] (take 9 (HDLCFrame (seqZ 110 20) ++ HDLCFrame (seqZ 120 19))
                :: [drop 9 (HDLCFrame (seqZ 110 20) ++ HDLCFrame (seqZ 120 19))])).1
  = [seqZ 110 20; seqZ 120 19].
Proof.
  apply (hdlc_delivers 65536).
  - repeat constructor; vm_compute; try congruence; lia.
  - repeat constructor; vm_compute; congruence.
  - vm_compute; congruence.
  - vm_compute. reflexivity.
Defined.

(** Whatever a peer sends, the TCP server's reader never holds more than
    [HDLCMaxBuffered] bytes between reads, and it holds no closed frame. *)
Theorem hdlc_bounded chunks :
  let buf := (feed_all [] chunks).2 in
  Zlen buf <= HDLCMaxBuffered ∧ (buf = [] ∨ ∃ acc, buf = HDLCFlag :: acc ∧ HDLCFlag ∉ acc).
Proof.
  destruct (feed_all_shape None chunks) as (f & cur & Hf & He & Hl);
    [apply not_elem_of_nil|done|]. simpl in He. rewrite He. split; [done|].
  destruct cur as [acc|]; [right; by exists acc|by left].
Qed.

(** A read that takes the buffer past [HDLCMaxBuffered] returns no frame, also
    when the buffer and the read hold complete frames that are not oversized. *)
Theorem hdlc_oversize_loses buf data :
  HDLCMaxBuffered < Zlen (buf ++ data) → (Feed buf data).1 = [].
Proof. intros H. by destruct (Feed_oversize buf data H) as (cur & _ & -> & _). Qed.

(** A partial frame of legal size, then a read that closes it and holds a whole packet. *)
Definition lost_partial : list Z := HDLCFlag :: replicate (Z.to_nat 524288) 0.
Definition lost_read : list Z := HDLCFlag :: HDLCFrame (seqZ 0 20).

Lemma hdlc_oversize_loses_witness :
  Zlen lost_partial <= HDLCMaxBuffered ∧ (Feed lost_partial lost_read).1 = [] ∧
  (Feed [] lost_read).1 = [seqZ 0 20].
Proof.
  assert (Hl : Zlen lost_partial = 524289)
    by (unfold Zlen, lost_partial; rewrite length_cons, length_replicate; lia).
  split_and!.
  - rewrite Hl. vm_compute. congruence.
  - apply (hdlc_oversize_loses lost_partial lost_read). rewrite Zlen_app, Hl. vm_compute. reflexivity.
  - vm_compute. reflexivity.
Defined.

End Hdlc.
