(* ===== verification/HdlcReticulum.v ===== *)
(** The frame reader of [internal/reticulum/hdlc.go].  Its escaping and extraction
    loop are those of [Hdlc]; unlike that reader it extracts the frames first and
    bounds only the partial frame that is left. *)
From S2P Require Import Prelude Hdlc.

Module HdlcReticulum.
Import Hdlc.

Definition MaxFrameBufferSize : Z := 16384.

Record HDLCFrameReader := MkReader { buf : list Z; oversizeDrops : Z }.

Definition NewHDLCFrameReader : HDLCFrameReader := MkReader [] 0.

Definition FeedReader (r : HDLCFrameReader) (data : list Z) : list (list Z) * HDLCFrameReader :=
  let '(frames, rest) := extract_all (buf r ++ data) in
  (frames,
   match rest with
   | None => MkReader [] (oversizeDrops r)
   | Some partial =>
       if MaxFrameBufferSize <? Zlen partial then MkReader [] (u64 (oversizeDrops r + 1))
       else MkReader partial (oversizeDrops r)
   end).

(** The reads of one connection, in order. *)
Fixpoint feed_reads (r : HDLCFrameReader) (chunks : list (list Z))
  : list (list Z) * HDLCFrameReader :=
  match chunks with
  | [] => ([], r)
  | data :: chunks =>
      let '(frames, r) := FeedReader r data in
      let '(more, r) := feed_reads r chunks in (frames ++ more, r)
  end.

(** The reader stands for a state of the stream automaton, within the bound. *)
Definition reader_at (cur : cursor) (r : HDLCFrameReader) : Prop :=
  buf r = buffer cur ∧ flag_free (default [] cur) ∧ Zlen (buf r) <= MaxFrameBufferSize.

Lemma FeedReader_run cur r data :
  reader_at cur r →
  FeedReader r data = let '(frames, cur') := run cur data in
    (frames, if MaxFrameBufferSize <? Zlen (buffer cur')
             then MkReader [] (u64 (oversizeDrops r + 1)) else MkReader (buffer cur') (oversizeDrops r)).
Proof.
  intros (Hb & Hf & _). unfold FeedReader. rewrite Hb, extract_buffer by done.
  by destruct (run cur data) as [f [acc|]].
Qed.

Lemma FeedReader_at cur r data :
  reader_at cur r → ∃ cur', reader_at cur' (FeedReader r data).2.
Proof.
  intros H. pose proof (run_flag_free cur data (proj1 (proj2 H))) as Hf.
  rewrite (FeedReader_run cur) by done. destruct (run cur data) as [f c]. cbn [snd] in *.
  case_if; zbool; [exists None|by exists c].
  split_and!; [done|apply not_elem_of_nil|done].
Qed.

Lemma feed_reads_at cur r chunks :
  reader_at cur r → ∃ cur', reader_at cur' (feed_reads r chunks).2.
Proof.
  revert cur r. induction chunks as [|data chunks IH]; intros cur r H; [by exists cur|].
  cbn [feed_reads]. destruct (FeedReader_at cur r data H) as [c1 H1].
  destruct (FeedReader r data) as [f1 r1]. destruct (IH c1 r1 H1) as [c2 H2].
  destruct (feed_reads r1 chunks). by exists c2.
Qed.

Lemma feed_reads_run cur r chunks :
  reader_at cur r → 1 + Z.of_nat (peak cur (concat chunks)) <= MaxFrameBufferSize →
  (feed_reads r chunks).1 = (run cur (concat chunks)).1 ∧
  oversizeDrops (feed_reads r chunks).2 = oversizeDrops r.
Proof.
  revert cur r. induction chunks as [|data chunks IH]; intros cur r H Hp; [done|].
  cbn [feed_reads concat] in *. rewrite peak_app in Hp. rewrite run_app.
  rewrite (FeedReader_run cur) by done.
  pose proof (run_flag_free cur data (proj1 (proj2 H))) as Hf.
  pose proof (peak_end cur data). destruct (run cur data) as [f1 c1]. cbn [snd] in *.
  pose proof (buffer_len c1). rewrite (proj2 (Z.ltb_ge _ _)) by lia.
  destruct (IH c1 (MkReader (buffer c1) (oversizeDrops r))) as [Hframes Hdrops];
    [split_and!; simpl; [done|done|lia]|lia|].
  destruct (feed_reads _ chunks), (run c1 (concat chunks)). simpl in *. by subst.
Qed.

(** The opening flag of a frame closes whatever was buffered. *)
Lemma run_flag cur l :
  (run cur (HDLCFlag :: l)).1 = emit (default [] cur) ++ (run (Some []) l).1.
Proof. destruct cur; cbn; by destruct (run (Some []) l). Qed.

Lemma run_frames_any cur p pkts :
  Forall (λ p, HeaderMinSize ≤ length p)%nat (p :: pkts) →
  (run cur (concat (HDLCFrame <$> p :: pkts))).1 = emit (default [] cur) ++ p :: pkts.
Proof.
  intros H. pose proof (run_frames (Some []) (p :: pkts) (or_intror eq_refl) H) as Hr.
  rewrite fmap_cons in *. change (HDLCFrame p) with (HDLCFlag :: HDLCEscape p ++ [HDLCFlag]) in *. cbn [concat app] in *.
  rewrite run_flag in *. simpl default in Hr. rewrite emit_nil in Hr. by rewrite <-Hr.
Qed.

Lemma peak_flag cur l :
  peak cur (HDLCFlag :: l) = (cursor_len cur `max` peak (Some []) l)%nat.
Proof. by destruct cur. Qed.

Lemma peak_frames_any cur p pkts (m : nat) :
  Forall (λ p, HeaderMinSize ≤ length p ∧ 2 * length p ≤ m)%nat (p :: pkts) →
  (cursor_len cur ≤ m)%nat → (peak cur (concat (HDLCFrame <$> p :: pkts)) ≤ m)%nat.
Proof.
  intros H Hm. pose proof (peak_frames (Some []) (p :: pkts) m (or_intror eq_refl) H) as Hr.
  rewrite fmap_cons in *. change (HDLCFrame p) with (HDLCFlag :: HDLCEscape p ++ [HDLCFlag]) in *. cbn [concat app] in *.
  rewrite peak_flag in *. lia.
Qed.

(** After any bytes a peer has sent ([junk]) the reader holds at most
    [MaxFrameBufferSize] bytes, and from there it delivers a stream of framed
    packets in full, however it is cut into reads: the opening flag closes what was
    buffered, every packet follows in order, and none is counted as oversized. *)
Theorem reticulum_resync junk p pkts chunks :
  Forall (λ p, (HeaderMinSize ≤ length p)%nat ∧ 1 + 2 * Zlen p <= MaxFrameBufferSize) (p :: pkts) →
  concat chunks = concat (HDLCFrame <$> p :: pkts) →
  let r := (feed_reads NewHDLCFrameReader junk).2 in
  Zlen (buf r) <= MaxFrameBufferSize ∧
  (feed_reads r chunks).1 = emit (tail (buf r)) ++ p :: pkts ∧
  oversizeDrops (feed_reads r chunks).2 = oversizeDrops r.
Proof.
  intros Hp Hcat r.
  destruct (feed_reads_at None NewHDLCFrameReader junk) as [cur Hr];
    [split_and!; [done|apply not_elem_of_nil|done]|]. fold r in Hr.
  pose proof Hr as (Hb & _ & Hl). split; [done|].
  assert (Ht : tail (buf r) = default [] cur) by (rewrite Hb; by destruct cur).
  assert (Hcur : (cursor_len cur ≤ Z.to_nat (MaxFrameBufferSize - 1))%nat).
  { rewrite Hb in Hl. destruct cur; simpl in *; [|lia]. rewrite Zlen_cons in Hl. unfold Zlen in Hl. lia. }
  assert (Hpk : (peak cur (concat chunks) ≤ Z.to_nat (MaxFrameBufferSize - 1))%nat).
  { rewrite Hcat. apply peak_frames_any; [|done]. eapply Forall_impl; [exact Hp|].
    intros q [H1 H2]. unfold Zlen in H2. split; [done|lia]. }
  destruct (feed_reads_run cur r chunks Hr) as [-> ->]; [unfold MaxFrameBufferSize in *; lia|].
  rewrite Hcat, Ht, run_frames_any; [done|]. eapply Forall_impl; [exact Hp|]. by intros q [? _].
Qed.

Definition sample_junk : list (list Z) := [[1; 126; 5]; [6]].
Definition sample_stream : list Z := concat (HDLCFrame <$> [seqZ 110 20; seqZ 120 19]).

Lemma reticulum_resync_witness :
  (feed_reads (feed_reads NewHDLCFrameReader sample_junk).2
     [take 9 sample_stream; drop 9 sample_stream]).1 = [seqZ 110 20; seqZ 120 19].
Proof.
  destruct (reticulum_resync sample_junk (seqZ 110 20) [seqZ 120 19]
              [take 9 sample_stream; drop 9 sample_stream]) as (_ & H & _).
  - repeat constructor; vm_compute; try congruence; lia.
  - vm_compute. reflexivity.
  - rewrite H. vm_compute. reflexivity.
Defined.

End HdlcReticulum.
