(* ===== verification/RnsPacket.v ===== *)
(** Reticulum packets: the header codec of [internal/rnswire/packet.go], the packet
    hash and transport rewriting of [packethash.go], and packet proofs ([proof.go]).
    SHA-256 and Ed25519 are arguments. *)
From S2P Require Import Prelude.

Module RnsPacket.

Definition HeaderMinSize : nat := 19.
Definition HeaderMaxSize : nat := 35.
Definition TruncatedHashLen : nat := 16.
Definition FullHashLen : nat := 32.
Definition SignatureLen : nat := 64.
Definition PathfinderM : Z := 128.
Definition HeaderType2 : Z := 1.
Definition TransportTransport : Z := 1.
Definition PacketProof : Z := 3.

Inductive rns_error := ErrTooShort | ErrMaxHops | ErrEmptyData | ErrProofInvalid.

Record Header := MkHeader {
  HeaderType : Z;
  ContextFlag : Z;
  TransportType : Z;
  DestType : Z;
  PacketType : Z;
  Hops : Z;
  TransportID : list Z;
  DestHash : list Z;
  Context : Z;
  Data : list Z;
}.

(** The shifts are on bytes. *)
Definition PackFlags (h : Header) : Z :=
  Z.lor (Z.lor (Z.lor (Z.lor (u8 (Z.shiftl (HeaderType h) 6)) (u8 (Z.shiftl (ContextFlag h) 5)))
    (u8 (Z.shiftl (TransportType h) 4))) (u8 (Z.shiftl (DestType h) 2))) (PacketType h).

(** The five fields of the flags byte: header type, context flag, transport type,
    destination type, packet type. *)
Definition UnpackFlags (flags : Z) : Z * Z * Z * Z * Z :=
  (Z.shiftr (Z.land flags 64) 6, Z.shiftr (Z.land flags 32) 5, Z.shiftr (Z.land flags 16) 4,
   Z.shiftr (Z.land flags 12) 2, Z.land flags 3).

Definition HeaderSize (h : Header) : nat :=
  if HeaderType h =? HeaderType2 then HeaderMaxSize else HeaderMinSize.

Definition MarshalHeader (h : Header) : list Z :=
  [PackFlags h] ++ [Hops h] ++
  (if HeaderType h =? HeaderType2 then TransportID h else []) ++
  DestHash h ++ [Context h] ++ (if (0 <? length (Data h))%nat then Data h else []).

Definition Marshal (h : Header) : list Z := MarshalHeader h.

Definition UnmarshalHeader (data : list Z) : result rns_error Header :=
  if (length data <? HeaderMinSize)%nat then Err ErrTooShort
  else
    let '(ht, cf, tp, dt, pt) := UnpackFlags (idx data 0) in
    let hops := idx data 1 in
    if PathfinderM <=? hops then Err ErrMaxHops
    else
      let pos := 2%nat in
      if (ht =? HeaderType2) && (length data <? HeaderMaxSize)%nat then Err ErrTooShort
      else
        let '(tid, pos) :=
          if ht =? HeaderType2
          then (sub pos (pos + TruncatedHashLen) data, (pos + TruncatedHashLen)%nat)
          else (replicate TruncatedHashLen 0, pos) in
        let dest := sub pos (pos + TruncatedHashLen) data in
        let pos := (pos + TruncatedHashLen)%nat in
        let ctx := idx data pos in
        let pos := S pos in
        if (pos <? length data)%nat
        then Ok (MkHeader ht cf tp dt pt hops tid dest ctx (drop pos data))
        else Err ErrEmptyData.

Definition IncrementHop (h : Header) : bool * Header :=
  if PathfinderM <=? Hops h then (false, h)
  else (true, MkHeader (HeaderType h) (ContextFlag h) (TransportType h) (DestType h) (PacketType h)
                (u8 (Hops h + 1)) (TransportID h) (DestHash h) (Context h) (Data h)).

(** ** Hashing and rewriting in transport *)

Definition is_header2 (raw : list Z) : bool := Z.shiftr (Z.land (idx raw 0) 64) 6 =? HeaderType2.

(** [[]] is Go's [nil]. *)
Definition HashablePart (raw : list Z) : list Z :=
  if (length raw <? 2)%nat then []
  else
    let start := if is_header2 raw then (2 + TruncatedHashLen)%nat else 2%nat in
    if (length raw <? start)%nat then []
    else Z.land (idx raw 0) 15 :: drop start raw.

Definition PacketHash (sha256 : list Z → list Z) (raw : list Z) : list Z := sha256 (HashablePart raw).

Definition TruncatedPacketHash (sha256 : list Z → list Z) (raw : list Z) : list Z :=
  take TruncatedHashLen (PacketHash sha256 raw).

(** The flags byte of the HEADER_2 and of the HEADER_1 form. *)
Definition transport_flags (b : Z) : Z :=
  Z.lor (Z.lor (Z.lor (Z.land b 15) (u8 (Z.shiftl HeaderType2 6)))
    (u8 (Z.shiftl TransportTransport 4))) (Z.land b 32).

Definition stripped_flags (b : Z) : Z := Z.lor (Z.land b 15) (Z.land b 32).

Definition RewriteForTransport (raw transportID : list Z) : list Z :=
  if (length raw <? HeaderMinSize)%nat then raw
  else if is_header2 raw then
    let out := copy_at 2 transportID raw in
    <[0%nat := Z.lor (idx out 0) 16]> out
  else
    [transport_flags (idx raw 0); idx raw 1]
    ++ transportID ++ drop 2 raw.

Definition StripTransport (raw : list Z) : list Z :=
  if (length raw <? HeaderMaxSize)%nat || negb (is_header2 raw) then raw
  else [stripped_flags (idx raw 0); idx raw 1]
       ++ drop (2 + TruncatedHashLen) raw.

(** ** Proofs *)

Definition ImplicitProofLen : nat := SignatureLen.
Definition ExplicitProofLen : nat := FullHashLen + SignatureLen.

(** [Sign] is the identity's signing operation. *)
Definition ImplicitProof (Sign : list Z → list Z) (packetHash : list Z) : list Z := Sign packetHash.

Definition ExplicitProof (Sign : list Z → list Z) (packetHash : list Z) : list Z :=
  packetHash ++ Sign packetHash.

Definition BuildProofPacket (sha256 : list Z → list Z) (provedRaw proofData : list Z) : list Z :=
  Marshal (MkHeader 0 0 0 0 PacketProof 0 (replicate TruncatedHashLen 0)
             (TruncatedPacketHash sha256 provedRaw) 0 proofData).

(** [VerifySignature] of [identity.go]: the lengths are checked first. *)
Definition VerifySignature (Verify : list Z → list Z → list Z → bool) (pubKey data sig : list Z) : bool :=
  if negb (length pubKey =? 32)%nat || negb (length sig =? 64)%nat then false
  else Verify pubKey data sig.

Definition ValidateProof (Verify : list Z → list Z → list Z → bool) (proofData packetHash sigPub : list Z)
  : result rns_error unit :=
  let check sig := if VerifySignature Verify sigPub packetHash sig then Ok tt else Err ErrProofInvalid in
  if (length proofData =? ImplicitProofLen)%nat then check proofData
  else if (length proofData =? ExplicitProofLen)%nat then
    if decide (take FullHashLen proofData = packetHash) then check (drop FullHashLen proofData)
    else Err ErrProofInvalid
  else Err ErrProofInvalid.

(** ** The header codec is exact *)

(** The headers the wire can carry; a HEADER_1 packet has no transport id. *)
Definition header_wf (h : Header) : Prop :=
  0 <= HeaderType h < 2 ∧ 0 <= ContextFlag h < 2 ∧ 0 <= TransportType h < 2 ∧
  0 <= DestType h < 4 ∧ 0 <= PacketType h < 4 ∧ 0 <= Hops h < PathfinderM ∧
  length (TransportID h) = TruncatedHashLen ∧
  (HeaderType h = 0 → TransportID h = replicate TruncatedHashLen 0) ∧
  length (DestHash h) = TruncatedHashLen ∧ (0 < length (Data h))%nat.

Lemma flags_roundtrip h :
  header_wf h →
  UnpackFlags (PackFlags h)
  = (HeaderType h, ContextFlag h, TransportType h, DestType h, PacketType h).
Proof.
  destruct h as [ht cf tp dt pt]. unfold header_wf, PackFlags. cbn [HeaderType ContextFlag TransportType DestType PacketType].
  intros (Hh & Hc & Ht & Hd & Hp & _).
  assert (ht = 0 ∨ ht = 1) as [-> | ->] by lia; assert (cf = 0 ∨ cf = 1) as [-> | ->] by lia;
    assert (tp = 0 ∨ tp = 1) as [-> | ->] by lia;
    assert (dt = 0 ∨ dt = 1 ∨ dt = 2 ∨ dt = 3) as [-> |[-> |[-> | ->]]] by lia;
    assert (pt = 0 ∨ pt = 1 ∨ pt = 2 ∨ pt = 3) as [-> |[-> |[-> | ->]]] by lia; reflexivity.
Qed.

(** What the flags byte determines, for every byte. *)
Lemma flags_byte b :
  byte_ok b →
  let '(ht, cf, tp, dt, pt) := UnpackFlags b in
  0 <= ht < 2 ∧ 0 <= cf < 2 ∧ 0 <= tp < 2 ∧ 0 <= dt < 4 ∧ 0 <= pt < 4 ∧
  PackFlags (MkHeader ht cf tp dt pt 0 [] [] 0 []) = Z.land b 127.
Proof.
  intros Hb. set (p := λ b, let '(ht, cf, tp, dt, pt) := UnpackFlags b in
    bool_decide (0 <= ht < 2 ∧ 0 <= cf < 2 ∧ 0 <= tp < 2 ∧ 0 <= dt < 4 ∧ 0 <= pt < 4 ∧
      PackFlags (MkHeader ht cf tp dt pt 0 [] [] 0 []) = Z.land b 127)).
  assert (Hp : p b = true) by (apply (zall_spec 256); [vm_compute; reflexivity|exact Hb]).
  unfold p in Hp. destruct (UnpackFlags b) as [[[[ht cf] tp] dt] pt].
  by apply bool_decide_eq_true in Hp.
Qed.

Lemma flags_of_header ht cf tp dt pt hops tid dest ctx data :
  PackFlags (MkHeader ht cf tp dt pt hops tid dest ctx data)
  = PackFlags (MkHeader ht cf tp dt pt 0 [] [] 0 []).
Proof. done. Qed.

Lemma marshal_unmarshal h : header_wf h → UnmarshalHeader (MarshalHeader h) = Ok h.
Proof.
  intros Hwf. pose proof (flags_roundtrip h Hwf) as Hflags.
  destruct Hwf as (Hht & _ & _ & _ & _ & Hhops & Htid & Hzero & Hdest & Hdata).
  unfold UnmarshalHeader, MarshalHeader. rewrite (proj2 (Nat.ltb_lt 0 (length (Data h)))) by done.
  unfold PathfinderM, HeaderMinSize, HeaderMaxSize, TruncatedHashLen, HeaderType2 in *.
  rewrite (proj2 (Nat.ltb_ge _ _)) by (case_if; len). cbn [app].
  change (idx (?a :: _) 0) with a. change (idx (_ :: ?a :: _) 1) with a.
  rewrite Hflags. rewrite (proj2 (Z.leb_gt _ _)) by lia.
  destruct (Z.eqb_spec (HeaderType h) 1) as [H1|H1]; cbn [andb].
  - rewrite (proj2 (Nat.ltb_ge _ _)) by len. cbn [app].
    replace (PackFlags h :: Hops h :: TransportID h ++ DestHash h ++ Context h :: Data h)
      with ([PackFlags h; Hops h] ++ TransportID h ++ DestHash h ++ [Context h] ++ Data h) by done.
    rewrite (proj2 (Nat.ltb_lt _ _)) by len. slices.
    rewrite !(assoc_L (++)), drop_app_length' by len. rewrite ?Htid, ?Hdest. by destruct h.
  - assert (H0 : HeaderType h = 0) by lia. cbn [app].
    replace (PackFlags h :: Hops h :: DestHash h ++ Context h :: Data h)
      with ([PackFlags h; Hops h] ++ DestHash h ++ [Context h] ++ Data h) by done.
    rewrite (proj2 (Nat.ltb_lt _ _)) by len. slices.
    rewrite !(assoc_L (++)), drop_app_length' by len. rewrite Hdest, <-(Hzero H0). by destruct h.
Qed.

Lemma unmarshal_marshal raw h :
  bytes_ok raw → UnmarshalHeader raw = Ok h →
  header_wf h ∧ MarshalHeader h = Z.land (idx raw 0) 127 :: drop 1 raw.
Proof.
  intros Hok. unfold UnmarshalHeader.
  destruct (Nat.ltb_spec (length raw) HeaderMinSize) as [|Hmin]; [done|].
  pose proof (flags_byte _ (idx_ok raw 0 Hok)) as Hfl. pose proof (idx_ok raw 1 Hok) as Hh.
  destruct (UnpackFlags (idx raw 0)) as [[[[ht cf] tp] dt] pt].
  destruct Hfl as (Hht & Hcf & Htp & Hdt & Hpt & Hpack).
  destruct (Z.leb_spec PathfinderM (idx raw 1)) as [|Hhops]; [done|].
  unfold byte_ok, HeaderMinSize, HeaderMaxSize, TruncatedHashLen, HeaderType2 in *.
  destruct (Z.eqb_spec ht 1) as [->|Hht0]; cbn [andb].
  - destruct (Nat.ltb_spec (length raw) 35) as [|Hmax]; [done|].
    destruct (Nat.ltb_spec (S (2 + 16 + 16)) (length raw)) as [Hd|]; [|done].
    intros [= <-]. split.
    + unfold header_wf, TruncatedHashLen. simpl. split_and!; try lia; rewrite ?sub_length, ?length_drop; lia.
    + unfold MarshalHeader, HeaderType2. cbn [HeaderType Hops TransportID DestHash Context Data Z.eqb Pos.eqb].
      rewrite flags_of_header, Hpack. rewrite (proj2 (Nat.ltb_lt _ _)) by (rewrite length_drop; lia).
      rewrite (drop_idx raw 1), (drop_sub 2 18 raw), (drop_sub 18 34 raw), (drop_idx raw 34) by lia. done.
  - assert (ht = 0) as -> by lia.
    destruct (Nat.ltb_spec (S (2 + 16)) (length raw)) as [Hd|]; [|done].
    intros [= <-]. split.
    + unfold header_wf, TruncatedHashLen. simpl. split_and!; try lia; try done;
        rewrite ?sub_length, ?length_drop; lia.
    + unfold MarshalHeader, HeaderType2. cbn [HeaderType Hops TransportID DestHash Context Data Z.eqb].
      rewrite flags_of_header, Hpack. rewrite (proj2 (Nat.ltb_lt _ _)) by (rewrite length_drop; lia).
      rewrite (drop_idx raw 1), (drop_sub 2 18 raw), (drop_idx raw 18) by lia. done.
Qed.

(** The parser does not look at bit 7. *)
Lemma unmarshal_bit7 b raw :
  byte_ok b → UnmarshalHeader (b :: raw) = UnmarshalHeader (Z.land b 127 :: raw).
Proof.
  intros Hb. unfold UnmarshalHeader. change (idx (?a :: raw) 0) with a.
  change (idx (?a :: raw) 1) with (idx raw 0).
  assert (UnpackFlags (Z.land b 127) = UnpackFlags b) as ->.
  { set (p := λ b, bool_decide (UnpackFlags (Z.land b 127) = UnpackFlags b)).
    assert (Hp : p b = true) by (apply (zall_spec 256); [vm_compute; reflexivity|exact Hb]).
    by apply bool_decide_eq_true in Hp. }
  by destruct (UnpackFlags b) as [[[[[|[]|] cf] tp] dt] pt].
Qed.

(** The header codec is exact: a packet parses to [h] if and only if [h] is a
    header the wire can carry and the packet is [h]'s encoding, up to the access-code
    bit 7 of the flags byte. *)
Theorem rns_header_exact raw h :
  bytes_ok raw →
  UnmarshalHeader raw = Ok h ↔
  header_wf h ∧ raw ≠ [] ∧ MarshalHeader h = Z.land (idx raw 0) 127 :: drop 1 raw.
Proof.
  intros Hok. split.
  - intros H. destruct (unmarshal_marshal raw h Hok H) as [Hwf Hm]. split_and!; [done| |done].
    by intros ->.
  - intros (Hwf & Hne & Hm). destruct raw as [|b raw]; [done|].
    rewrite <-(marshal_unmarshal h Hwf), Hm. apply unmarshal_bit7.
    apply Forall_cons in Hok. apply Hok.
Qed.

(** A HEADER_2 announce-free data packet. *)
Definition sample_raw : list Z := [80; 3] ++ replicate 16 9 ++ replicate 16 7 ++ [0; 1; 2; 3].

Lemma rns_header_exact_witness :
  UnmarshalHeader sample_raw
  = Ok (MkHeader 1 0 1 0 0 3 (replicate 16 9) (replicate 16 7) 0 [1; 2; 3]).
Proof.
  apply (rns_header_exact sample_raw).
  - repeat constructor; vm_compute; congruence.
  - unfold header_wf. split_and!; try (simpl; lia); vm_compute; congruence.
Defined.

(** ** The packet hash in transport *)

(** What transport nodes do to a packet on its way: insert or replace the transport
    id, strip it, set the hops byte. *)
Inductive transport_step : list Z → list Z → Prop :=
| step_rewrite raw tid :
    length tid = TruncatedHashLen → bytes_ok tid → transport_step raw (RewriteForTransport raw tid)
| step_strip raw : transport_step raw (StripTransport raw)
| step_hops raw hops : byte_ok hops → transport_step raw (<[1%nat := hops]> raw).

(** The flags bytes the rewriting produces. *)
Definition rewritten_ok (b : Z) : Prop :=
  byte_ok (transport_flags b) ∧ byte_ok (stripped_flags b) ∧ byte_ok (Z.lor b 16) ∧
  Z.land (transport_flags b) 15 = Z.land b 15 ∧ Z.land (stripped_flags b) 15 = Z.land b 15 ∧
  Z.land (Z.lor b 16) 15 = Z.land b 15 ∧ Z.land (transport_flags b) 64 = 64 ∧
  Z.land (stripped_flags b) 64 = 0 ∧ Z.land (Z.lor b 16) 64 = Z.land b 64.

#[global] Instance rewritten_ok_dec b : Decision (rewritten_ok b).
Proof. unfold rewritten_ok. apply _. Defined.

Lemma rewrite_flags b : byte_ok b → rewritten_ok b.
Proof.
  intros Hb. set (p := λ b, bool_decide (rewritten_ok b)).
  assert (Hp : p b = true) by (apply (zall_spec 256); [vm_compute; reflexivity|exact Hb]).
  by apply bool_decide_eq_true in Hp.
Qed.

Lemma is_header2_cons f l : Z.land f 64 = 64 → is_header2 (f :: l) = true.
Proof. unfold is_header2. change (idx (f :: l) 0) with f. by intros ->. Qed.

Lemma is_header2_not f l : Z.land f 64 = 0 → is_header2 (f :: l) = false.
Proof. unfold is_header2. change (idx (f :: l) 0) with f. by intros ->. Qed.

Lemma is_header2_flags a b l k : Z.land a 64 = Z.land b 64 → is_header2 (a :: l) = is_header2 (b :: k).
Proof.
  unfold is_header2. change (idx (a :: l) 0) with a. change (idx (b :: k) 0) with b. by intros ->.
Qed.

Lemma hashable_rewrite raw tid :
  bytes_ok raw → length tid = TruncatedHashLen →
  HashablePart (RewriteForTransport raw tid) = HashablePart raw.
Proof.
  intros Hok Htid. unfold RewriteForTransport.
  destruct (Nat.ltb_spec (length raw) HeaderMinSize) as [|Hmin]; [done|].
  unfold HeaderMinSize, TruncatedHashLen in *.
  destruct (rewrite_flags _ (idx_ok raw 0 Hok)) as (_ & _ & _ & Hf & _ & Hr & Hf2 & _ & Hr2).
  destruct raw as [|b [|hops raw]]; simpl in Hmin; try lia.
  change (idx (b :: hops :: raw) 0) with b in *. change (idx (b :: hops :: raw) 1) with hops.
  change (drop 2 (b :: hops :: raw)) with raw. destruct (is_header2 (b :: hops :: raw)) eqn:H2.
  - rewrite (copy_at_eq [b; hops] (take 16 raw) (drop 16 raw) tid).
    2: by rewrite take_drop. 2: done. 2: rewrite length_take; lia.
    change (idx (([b; hops] ++ tid ++ drop 16 raw)) 0) with b.
    change (<[0%nat:=Z.lor b 16]> ([b; hops] ++ tid ++ drop 16 raw))
      with (Z.lor b 16 :: hops :: tid ++ drop 16 raw).
    unfold HashablePart, TruncatedHashLen.
    rewrite (is_header2_flags _ b _ (hops :: raw) Hr2), H2.
    rewrite !(proj2 (Nat.ltb_ge _ _)) by (simpl; rewrite ?length_app; lia).
    change (idx (?a :: _) 0) with a. rewrite Hr. f_equal. cbn [Nat.add skipn].
    by rewrite <-Htid, drop_app_length, Htid.
  - unfold HashablePart, TruncatedHashLen. cbn [app].
    rewrite is_header2_cons, H2 by done.
    rewrite !(proj2 (Nat.ltb_ge _ _)) by (simpl; rewrite ?length_app; lia).
    change (idx (?a :: _) 0) with a. rewrite Hf. f_equal. cbn [Nat.add skipn].
    by rewrite <-Htid, drop_app_length.
Qed.

Lemma hashable_strip raw : bytes_ok raw → HashablePart (StripTransport raw) = HashablePart raw.
Proof.
  intros Hok. unfold StripTransport.
  destruct (Nat.ltb_spec (length raw) HeaderMaxSize) as [|Hmax]; [done|].
  destruct (is_header2 raw) eqn:H2; [|done]. cbn [orb negb app].
  destruct (rewrite_flags _ (idx_ok raw 0 Hok)) as (_ & _ & _ & _ & Hs & _ & _ & Hs2 & _).
  unfold HashablePart, TruncatedHashLen, HeaderMaxSize in *. rewrite H2, is_header2_not by done.
  rewrite !(proj2 (Nat.ltb_ge _ _)) by (simpl; lia).
  change (idx (?a :: _) 0) with a. by rewrite Hs.
Qed.

Lemma hashable_hops raw hops : HashablePart (<[1%nat := hops]> raw) = HashablePart raw.
Proof.
  unfold HashablePart. rewrite length_insert. destruct raw as [|b [|h raw]]; [done..|].
  change (<[1%nat := hops]> (b :: h :: raw)) with (b :: hops :: raw).
  replace (is_header2 (b :: hops :: raw)) with (is_header2 (b :: h :: raw)) by done.
  by destruct (is_header2 (b :: h :: raw)).
Qed.

Lemma transport_step_ok raw raw' :
  transport_step raw raw' → bytes_ok raw → bytes_ok raw' ∧ HashablePart raw' = HashablePart raw.
Proof.
  intros [r tid Htid Htok|r|r hops Hh] Hok; (split;
    [|eauto using hashable_rewrite, hashable_strip, hashable_hops]);
    destruct (rewrite_flags _ (idx_ok _ 0 Hok)) as (Hf & Hs & Hr & _).
  - unfold RewriteForTransport. repeat case_if; [done| |].
    + assert (Hc : bytes_ok (copy_at 2 tid r))
        by (unfold copy_at; rewrite !bytes_ok_app; auto with hub).
      apply Forall_insert; [done|].
      by destruct (rewrite_flags _ (idx_ok _ 0 Hc)) as (_ & _ & ? & _).
    + rewrite !bytes_ok_app. split_and!; [|done|auto with hub].
      by apply Forall_cons; split; [|apply Forall_singleton, idx_ok].
  - unfold StripTransport. case_if; [done|]. rewrite bytes_ok_app. split; [|auto with hub].
    by apply Forall_cons; split; [|apply Forall_singleton, idx_ok].
  - by apply Forall_insert.
Qed.

Lemma rtc_hashable raw raw' :
  bytes_ok raw → rtc transport_step raw raw' → HashablePart raw' = HashablePart raw.
Proof.
  intros Hok Hrtc. induction Hrtc as [|raw raw1 raw2 Hs _ IH]; [done|].
  destruct (transport_step_ok _ _ Hs Hok) as [Hok1 <-]. auto.
Qed.

(** ** Proofs *)

Section Proofs.
Context (sha256 Sign : list Z → list Z) (Verify : list Z → list Z → list Z → bool) (pub : list Z).

(** What the code relies on of SHA-256 and Ed25519: the sizes, and that a signature
    verifies under the signer's key. *)
Context (sha256_length : ∀ m, length (sha256 m) = FullHashLen).
Context (Sign_length : ∀ m, length (Sign m) = SignatureLen).
Context (Verify_Sign : ∀ m, Verify pub m (Sign m) = true).
Context (pub_length : length pub = 32%nat).

Lemma verify_own m : VerifySignature Verify pub m (Sign m) = true.
Proof using Sign_length Verify_Sign pub_length.
  unfold VerifySignature. by rewrite pub_length, Sign_length, Verify_Sign.
Qed.

Lemma implicit_valid hash : ValidateProof Verify (ImplicitProof Sign hash) hash pub = Ok tt.
Proof using Sign_length Verify_Sign pub_length.
  unfold ValidateProof, ImplicitProof, ImplicitProofLen. by rewrite Sign_length, Nat.eqb_refl, verify_own.
Qed.

Lemma explicit_valid hash :
  length hash = FullHashLen → ValidateProof Verify (ExplicitProof Sign hash) hash pub = Ok tt.
Proof using Sign_length Verify_Sign pub_length.
  intros Hl. unfold ValidateProof, ExplicitProof. rewrite length_app, Sign_length, Hl.
  change (FullHashLen + SignatureLen =? ImplicitProofLen)%nat with false.
  change (FullHashLen + SignatureLen =? ExplicitProofLen)%nat with true. cbv iota.
  rewrite <-Hl, take_app_length, drop_app_length, decide_True by done. by rewrite verify_own.
Qed.

Lemma proof_packet_parses raw pd :
  (0 < length pd)%nat →
  ∃ h, UnmarshalHeader (BuildProofPacket sha256 raw pd) = Ok h ∧ PacketType h = PacketProof ∧
    DestHash h = TruncatedPacketHash sha256 raw ∧ Data h = pd.
Proof using sha256_length.
  intros Hpd. eexists. split; [|split_and!].
  - unfold BuildProofPacket, Marshal. apply marshal_unmarshal.
    unfold header_wf, TruncatedPacketHash, PacketHash. simpl. rewrite length_take, sha256_length.
    unfold PathfinderM, PacketProof, TruncatedHashLen, FullHashLen. split_and!; done || lia.
  - done.
  - done.
  - done.
Qed.

(** Delivery proofs work end to end: the receiver of a packet that went through
    any transport rewriting answers with a proof packet, implicit or explicit; it
    parses as a PROOF addressed to the sender's own truncated packet hash, and its
    data validates against the hash of the packet as it was sent. *)
Theorem proof_across_transport raw raw' (explicit : bool) :
  bytes_ok raw → rtc transport_step raw raw' →
  let hash := PacketHash sha256 raw' in
  let pd := if explicit then ExplicitProof Sign hash else ImplicitProof Sign hash in
  ∃ h, UnmarshalHeader (BuildProofPacket sha256 raw' pd) = Ok h ∧ PacketType h = PacketProof ∧
    DestHash h = TruncatedPacketHash sha256 raw ∧
    ValidateProof Verify (Data h) (PacketHash sha256 raw) pub = Ok tt.
Proof using All.
  intros Hok Hrtc hash pd. pose proof (rtc_hashable raw raw' Hok Hrtc) as Hh.
  destruct (proof_packet_parses raw' pd) as (h & H1 & H2 & H3 & H4).
  { unfold pd, ExplicitProof, ImplicitProof. destruct explicit; rewrite ?length_app, Sign_length;
      unfold SignatureLen; lia. }
  exists h. split_and!; [done|done| |].
  - rewrite H3. unfold TruncatedPacketHash, PacketHash. by rewrite Hh.
  - replace (PacketHash sha256 raw) with hash by by unfold hash, PacketHash; rewrite Hh.
    rewrite H4. unfold pd. destruct explicit; [|apply implicit_valid].
    apply explicit_valid, sha256_length.
Qed.

End Proofs.

(** Stand-ins with the sizes of SHA-256 and Ed25519. *)
Definition toy_hash (m : list Z) : list Z := take 32 (m ++ replicate 32 0).
Definition toy_sign (m : list Z) : list Z := take 64 (m ++ replicate 64 1).
Definition toy_verify (pub m sig : list Z) : bool := bool_decide (sig = toy_sign m).

Lemma proof_across_transport_witness :
  ∃ h, UnmarshalHeader (BuildProofPacket toy_hash (StripTransport sample_raw)
         (ExplicitProof toy_sign (PacketHash toy_hash (StripTransport sample_raw)))) = Ok h ∧
    PacketType h = PacketProof ∧ DestHash h = TruncatedPacketHash toy_hash sample_raw ∧
    ValidateProof toy_verify (Data h) (PacketHash toy_hash sample_raw) (replicate 32 5) = Ok tt.
Proof.
  apply (proof_across_transport toy_hash toy_sign toy_verify (replicate 32 5)) with (explicit := true).
  - intros m. unfold toy_hash. rewrite length_take, length_app, length_replicate. unfold FullHashLen. lia.
  - intros m. unfold toy_sign. rewrite length_take, length_app, length_replicate. unfold SignatureLen. lia.
  - intros m. by apply bool_decide_eq_true.
  - reflexivity.
  - repeat constructor; vm_compute; congruence.
  - apply rtc_once, step_strip.
Defined.

End RnsPacket.
