(* ===== verification/RnsCrypto.v ===== *)
(** Reticulum cryptography framing in [internal/rnswire]: key derivation ([hkdf.go]),
    interface access codes ([ifac.go]), tokens ([token.go]) and packet encryption to an
    identity ([encrypt.go]).  The primitives are arguments: SHA-256, Ed25519, the HKDF
    reader of [golang.org/x/crypto], AES-CBC, HMAC-SHA256 and X25519; random bytes are
    passed in.  A panic is [None] around the result. *)
From S2P Require Import Prelude RnsPacket.

Module RnsCrypto.

Definition HMACLen : nat := 32.
Definition BlockSize : nat := 16.
Definition EncryptionPubLen : nat := 32.
Definition DerivedKeyLen : nat := 64.
Definition IFACMinSize : Z := 1.

(** [hkdf_read ikm salt info n] is reading [n] bytes; [None] is its error. *)
Definition hkdf_reader : Type := list Z → list Z → list Z → nat → option (list Z).

Definition HKDF (hkdf_read : hkdf_reader) (length : nat) (ikm salt info : list Z) : option (list Z) :=
  let salt := match salt with [] => replicate 32 0 | _ => salt end in
  hkdf_read ikm salt info length.

(** ** Interface access codes *)

Definition IFACSalt : list Z :=
  [173; 245; 77; 136; 44; 154; 155; 128; 119; 30; 180; 153; 93; 112; 45; 74;
   62; 115; 51; 145; 178; 160; 245; 63; 65; 109; 159; 144; 126; 85; 207; 248].

Record IFAC := MkIFAC { ifac_key : list Z; ifac_size : Z; ifac_signer : list Z }.

Inductive ifac_error := ErrNoName | ErrSize | ErrIFAC.

(** The derived key, from the network name and the passphrase as bytes. *)
Definition IFACKey (hkdf_read : hkdf_reader) (sha256 : list Z → list Z) (netname netkey : list Z)
  : option (list Z) :=
  let origin := match netname with [] => [] | _ => sha256 netname end in
  let origin := match netkey with [] => origin | _ => origin ++ sha256 netkey end in
  HKDF hkdf_read 64 (sha256 origin) IFACSalt [].

Definition NewIFAC (hkdf_read : hkdf_reader) (sha256 NewKeyFromSeed : list Z → list Z)
  (netname netkey : list Z) (size : Z) : option (result ifac_error IFAC) :=
  match netname, netkey with
  | [], [] => Some (Err ErrNoName)
  | _, _ =>
      if (size <? IFACMinSize) || (64 <? size) then Some (Err ErrSize)
      else key ← IFACKey hkdf_read sha256 netname netkey;
           Some (Ok (MkIFAC key size (NewKeyFromSeed (drop 32 key))))
  end.

(** XOR with the mask everywhere but on the tag, bytes [2 .. 2 + size). *)
Definition mask_packet (size : nat) (mask out : list Z) : list Z :=
  imap (λ i b, if (2 <=? i)%nat && (i <? 2 + size)%nat then b else Z.lxor b (idx mask i)) out.

Section Ifac.
Context (hkdf_read : hkdf_reader) (Sign : list Z → list Z → list Z).

(** The tag: the last [size] bytes of the signature. *)
Definition ifac_tag (f : IFAC) (raw : list Z) : list Z :=
  let sig := Sign (ifac_signer f) raw in drop (length sig - Z.to_nat (ifac_size f)) sig.

Definition Wrap (f : IFAC) (raw : list Z) : option (list Z) :=
  if (length raw <? 2)%nat then Some raw
  else
    let size := Z.to_nat (ifac_size f) in
    let ifac := ifac_tag f raw in
    mask ← HKDF hkdf_read (length raw + size) ifac (ifac_key f) [];
    let out := [Z.lor (idx raw 0) 128; idx raw 1] ++ ifac ++ drop 2 raw in
    let out := mask_packet size mask out in
    Some (<[0%nat := Z.lor (idx out 0) 128]> out).

Definition Unwrap (f : IFAC) (raw : list Z) : option (result ifac_error (list Z)) :=
  let size := Z.to_nat (ifac_size f) in
  if (length raw <=? 2 + size)%nat then Some (Err ErrIFAC)
  else if Z.land (idx raw 0) 128 =? 0 then Some (Err ErrIFAC)
  else
    let ifac := sub 2 (2 + size) raw in
    mask ← HKDF hkdf_read (length raw) ifac (ifac_key f) [];
    let unmasked := mask_packet size mask raw in
    let clean := [Z.land (idx unmasked 0) 127; idx unmasked 1] ++ drop (2 + size) unmasked in
    if decide (ifac_tag f clean = ifac) then Some (Ok clean) else Some (Err ErrIFAC).

End Ifac.

Definition HasIFACFlag (raw : list Z) : bool :=
  (0 <? length raw)%nat && negb (Z.land (idx raw 0) 128 =? 0).

(** ** Tokens *)

Record Token := MkToken { signingKey : list Z; encryptionKey : list Z }.

Inductive crypt_error :=
  ErrTokenKeySize | ErrKeySize | ErrShort | ErrHMAC | ErrAlign | ErrPadding | ErrNoKey | ErrBadKey
| ErrRand | ErrDecrypt.

Definition NewToken (key : list Z) : result crypt_error Token :=
  if (length key =? 32)%nat then Ok (MkToken (take 16 key) (drop 16 key))
  else if (length key =? 64)%nat then Ok (MkToken (take 32 key) (drop 32 key))
  else Err ErrTokenKeySize.

(** [aes.NewCipher] accepts keys of 16, 24 and 32 bytes. *)
Definition aes_key_ok (key : list Z) : bool :=
  ((length key =? 16) || (length key =? 24) || (length key =? 32))%nat.

Definition pkcs7 (data : list Z) : list Z :=
  let padLen := (BlockSize - length data mod BlockSize)%nat in
  data ++ replicate padLen (u8 (Z.of_nat padLen)).

Section Tokens.
Context (cbc_encrypt cbc_decrypt : list Z → list Z → list Z → list Z) (hmac : list Z → list Z → list Z).

(** [iv] is what the random source returned, [None] its error. *)
Definition TokenEncrypt (t : Token) (iv : option (list Z)) (data : list Z) : result crypt_error (list Z) :=
  if negb (aes_key_ok (encryptionKey t)) then Err ErrKeySize
  else
    match iv with
    | None => Err ErrRand
    | Some iv =>
        let out := iv ++ cbc_encrypt (encryptionKey t) iv (pkcs7 data) in
        Ok (out ++ hmac (signingKey t) out)
    end.

Definition VerifyHMAC (t : Token) (token : list Z) : bool :=
  if (length token <=? HMACLen)%nat then false
  else
    let cut := (length token - HMACLen)%nat in
    bool_decide (drop cut token = hmac (signingKey t) (take cut token)).

(** The plaintext below the padding. *)
Definition unpad (pt : list Z) : result crypt_error (list Z) :=
  let padLen := idx pt (length pt - 1) in
  if (padLen =? 0) || (Z.of_nat BlockSize <? padLen) || (Zlen pt <? padLen) then Err ErrPadding
  else
    let cut := (length pt - Z.to_nat padLen)%nat in
    if forallb (λ b, b =? padLen) (drop cut pt) then Ok (take cut pt) else Err ErrPadding.

Definition TokenDecrypt (t : Token) (token : list Z) : result crypt_error (list Z) :=
  if (length token <? BlockSize + BlockSize + HMACLen)%nat then Err ErrShort
  else if negb (VerifyHMAC t token) then Err ErrHMAC
  else
    let iv := take BlockSize token in
    let ct := sub BlockSize (length token - HMACLen) token in
    if negb (length ct mod BlockSize =? 0)%nat then Err ErrAlign
    else if negb (aes_key_ok (encryptionKey t)) then Err ErrKeySize
    else unpad (cbc_decrypt (encryptionKey t) iv ct).

End Tokens.

(** ** Encryption to an identity *)

Record Identity := MkIdentity {
  id_encryptionKey : option (list Z);
  id_encryptionPub : option (list Z);
  id_signingPub : list Z;
}.

Section Identities.
Context (hkdf_read : hkdf_reader) (sha256 : list Z → list Z)
  (cbc_encrypt cbc_decrypt : list Z → list Z → list Z → list Z) (hmac : list Z → list Z → list Z)
  (x25519_pub : list Z → list Z) (ecdh : list Z → list Z → option (list Z)).

Definition ComputeIdentityHash (encPub sigPub : list Z) : list Z :=
  take RnsPacket.TruncatedHashLen (sha256 (encPub ++ sigPub)).

(** The random source gives the ephemeral private key and the IV. *)
Definition IdentityEncrypt (id : Identity) (plaintext : list Z) (ratchet eph iv : option (list Z))
  : option (result crypt_error (list Z)) :=
  match id_encryptionPub id, eph with
  | None, _ => Some (Err ErrNoKey)
  | _, None => Some (Err ErrRand)
  | Some encPub, Some eph =>
      let target := default encPub ratchet in
      match ecdh eph target with
      | None => Some (Err ErrBadKey)
      | Some shared =>
          key ← HKDF hkdf_read DerivedKeyLen shared (ComputeIdentityHash encPub (id_signingPub id)) [];
          Some (match NewToken key with
                | Err e => Err e
                | Ok tok =>
                    match TokenEncrypt cbc_encrypt hmac tok iv plaintext with
                    | Err e => Err e
                    | Ok ct => Ok (x25519_pub eph ++ ct)
                    end
                end)
      end
  end.

(** The closure [try] of [Decrypt]; the outer [None] is a panic. *)
Definition try_key (salt peerPub ct prv : list Z) : option (option (list Z)) :=
  match ecdh prv peerPub with
  | None => Some None
  | Some shared =>
      key ← HKDF hkdf_read DerivedKeyLen shared salt [];
      Some (match NewToken key with
            | Err _ => None
            | Ok tok => match TokenDecrypt cbc_decrypt hmac tok ct with Ok pt => Some pt | Err _ => None end
            end)
  end.

(** The loop over the ratchets from index [i]; [NewPrivateKey] refuses other sizes. *)
Fixpoint try_ratchets (salt peerPub ct : list Z) (i : Z) (ratchets : list (list Z))
  : option (option (list Z * Z)) :=
  match ratchets with
  | [] => Some None
  | r :: ratchets =>
      if negb (length r =? 32)%nat then try_ratchets salt peerPub ct (i + 1) ratchets
      else res ← try_key salt peerPub ct r;
           match res with
           | Some pt => Some (Some (pt, i))
           | None => try_ratchets salt peerPub ct (i + 1) ratchets
           end
  end.

Definition IdentityDecrypt (id : Identity) (data : list Z) (ratchetPrivs : list (list Z))
  : option (result crypt_error (list Z * Z)) :=
  match id_encryptionKey id with
  | None => Some (Err ErrNoKey)
  | Some prv =>
      if (length data <=? EncryptionPubLen)%nat then Some (Err ErrShort)
      else
        let peerPub := take EncryptionPubLen data in
        let ct := drop EncryptionPubLen data in
        let salt := ComputeIdentityHash (default [] (id_encryptionPub id)) (id_signingPub id) in
        res ← try_ratchets salt peerPub ct 0 ratchetPrivs;
        match res with
        | Some (pt, i) => Some (Ok (pt, i))
        | None =>
            res ← try_key salt peerPub ct prv;
            Some (match res with Some pt => Ok (pt, -1) | None => Err ErrDecrypt end)
        end
  end.

End Identities.

(** ** Access codes are exact *)

(** XOR of [r] with the mask from offset [k]. *)
Definition xor_from (k : nat) (mask r : list Z) : list Z := imap (λ i b, Z.lxor b (idx mask (k + i))) r.

Lemma xor_from_length k mask r : length (xor_from k mask r) = length r.
Proof. apply length_imap. Qed.

Lemma xor_from_twice k mask r : xor_from k mask (xor_from k mask r) = r.
Proof.
  apply list_eq. intros i. unfold xor_from. rewrite !list_lookup_imap.
  destruct (r !! i); [|done]. simpl. by rewrite Z.lxor_assoc, Z.lxor_nilpotent, Z.lxor_0_r.
Qed.

Lemma xor_from_ok k mask r : bytes_ok mask → bytes_ok r → bytes_ok (xor_from k mask r).
Proof.
  intros Hm Hr. apply Forall_lookup. intros i x. unfold xor_from.
  intros (y & Hy & ->)%list_lookup_imap_Some. apply lxor_byte; [|by apply idx_ok].
  by apply (Forall_lookup_1 _ _ _ _ Hr Hy).
Qed.

(** The mask on a packet laid out as flags, hops, tag and rest. *)
Lemma mask_layout size mask a b t r :
  length t = size →
  mask_packet size mask (a :: b :: t ++ r)
  = Z.lxor a (idx mask 0) :: Z.lxor b (idx mask 1) :: t ++ xor_from (2 + size) mask r.
Proof.
  intros <-. unfold mask_packet. rewrite !imap_cons. do 2 f_equal.
  rewrite imap_app. f_equal; apply list_eq; intros i; unfold xor_from; rewrite !list_lookup_imap.
  - destruct (t !! i) as [x|] eqn:Hx; [|done]. apply lookup_lt_Some in Hx. simpl.
    by rewrite (proj2 (Nat.ltb_lt _ _)) by lia.
  - destruct (r !! i) as [x|]; [|done]. simpl. by rewrite (proj2 (Nat.ltb_ge _ _)) by lia.
Qed.

(** The flags byte under the mask byte [m]: what [Wrap] puts on the wire. *)
Definition wrapped_flag (m c : Z) : Z := Z.lor (Z.lxor (Z.lor c 128) m) 128.

Definition flag_laws (m b : Z) : Prop :=
  byte_ok (Z.land (Z.lxor b m) 127) ∧ Z.land (Z.lxor b m) 127 < 128 ∧
  (Z.land b 128 ≠ 0 → wrapped_flag m (Z.land (Z.lxor b m) 127) = b) ∧
  (b < 128 → Z.land (Z.lxor (wrapped_flag m b) m) 127 = b) ∧
  Z.land (wrapped_flag m b) 128 ≠ 0 ∧ byte_ok (wrapped_flag m b).

#[global] Instance flag_laws_dec m b : Decision (flag_laws m b).
Proof. unfold flag_laws. apply _. Defined.

Lemma flag_laws_all m b : byte_ok m → byte_ok b → flag_laws m b.
Proof.
  intros Hm Hb. set (p := λ m, zall 256 (λ b, bool_decide (flag_laws m b))).
  assert (Hp : p m = true) by (apply (zall_spec 256); [vm_compute; reflexivity|exact Hm]).
  unfold p in Hp. pose proof (zall_spec _ _ Hp b Hb) as Hq. by apply bool_decide_eq_true in Hq.
Qed.

Section IfacExact.
Context (hkdf_read : hkdf_reader) (Sign : list Z → list Z → list Z) (f : IFAC).

(** What the code relies on: an Ed25519 signature is 64 bytes, and reading the key
    stream gives bytes, or fails. *)
Context (Sign_length : ∀ k m, length (Sign k m) = 64%nat).
Context (hkdf_bytes : ∀ ikm salt info n out, hkdf_read ikm salt info n = Some out → bytes_ok out).
Context (size_ok : IFACMinSize <= ifac_size f <= 64).

Let size := Z.to_nat (ifac_size f).

Lemma tag_length m : length (ifac_tag Sign f m) = size.
Proof using Sign_length size_ok.
  unfold ifac_tag, size. rewrite length_drop, Sign_length. lia.
Qed.

(** The wire form of a clean packet. *)
Lemma wrap_layout a b r :
  Wrap hkdf_read Sign f (a :: b :: r) =
  (mask ← HKDF hkdf_read (2 + size + length r) (ifac_tag Sign f (a :: b :: r)) (ifac_key f) [];
   Some (wrapped_flag (idx mask 0) a :: Z.lxor b (idx mask 1)
         :: ifac_tag Sign f (a :: b :: r) ++ xor_from (2 + size) mask r)).
Proof using Sign_length size_ok.
  unfold Wrap. change (length (a :: b :: r) <? 2)%nat with false. cbv iota zeta. fold size.
  replace (length (a :: b :: r) + size)%nat with (2 + size + length r)%nat by (simpl; lia).
  destruct (HKDF _ _ _ _ _) as [mask|]; [|done]. cbn [mbind option_bind app].
  change (idx (a :: b :: r) 0) with a. change (idx (a :: b :: r) 1) with b.
  change (drop 2 (a :: b :: r)) with r. by rewrite mask_layout by apply tag_length.
Qed.

(** What unwrapping a packet laid out as flags, hops, tag and rest does. *)
Lemma unwrap_layout a b t r :
  length t = size → r ≠ [] →
  Unwrap hkdf_read Sign f (a :: b :: t ++ r) =
  if Z.land a 128 =? 0 then Some (Err ErrIFAC)
  else mask ← HKDF hkdf_read (2 + size + length r) t (ifac_key f) [];
       let clean := Z.land (Z.lxor a (idx mask 0)) 127 :: Z.lxor b (idx mask 1)
                    :: xor_from (2 + size) mask r in
       if decide (ifac_tag Sign f clean = t) then Some (Ok clean) else Some (Err ErrIFAC).
Proof using.
  intros Ht Hr. unfold Unwrap. fold size.
  assert (0 < length r)%nat by (destruct r; simpl; [done|lia]).
  replace (length (a :: b :: t ++ r)) with (2 + size + length r)%nat
    by (simpl; rewrite length_app; lia).
  rewrite (proj2 (Nat.leb_gt _ _)) by lia. change (idx (a :: b :: t ++ r) 0) with a.
  case_if; [done|].
  replace (sub 2 (2 + size) (a :: b :: t ++ r)) with t.
  2: { unfold sub. rewrite Nat.add_comm, Nat.add_sub. change (drop 2 (a :: b :: t ++ r)) with (t ++ r).
       by rewrite <-Ht, take_app_length. }
  destruct (HKDF _ _ _ _ _) as [mask|]; [|done]. cbn [mbind option_bind].
  rewrite mask_layout by done. cbn [app]. change (idx (?x :: _) 0) with x.
  change (idx (_ :: ?x :: _) 1) with x.
  replace (drop (2 + size) (Z.lxor a (idx mask 0) :: Z.lxor b (idx mask 1)
             :: t ++ xor_from (2 + size) mask r)) with (xor_from (2 + size) mask r); [done|].
  cbn [Nat.add skipn]. by rewrite <-Ht, drop_app_length.
Qed.

Lemma wrap_unwrap c w :
  bytes_ok c → (2 < length c)%nat → idx c 0 < 128 → Wrap hkdf_read Sign f c = Some w →
  Unwrap hkdf_read Sign f w = Some (Ok c).
Proof using Sign_length hkdf_bytes size_ok.
  intros Hok Hlen Hc. destruct c as [|a [|b r]]; simpl in Hlen; [lia..|].
  change (idx (a :: b :: r) 0) with a in Hc. rewrite wrap_layout.
  destruct (HKDF _ _ _ _ _) as [mask|] eqn:Hmask; [|done]. cbn [mbind option_bind].
  intros [= <-]. rewrite unwrap_layout.
  2: apply tag_length. 2: { destruct r; [simpl in Hlen; lia|done]. }
  rewrite xor_from_length, Hmask. cbn [mbind option_bind].
  assert (Hm : byte_ok (idx mask 0)) by (apply idx_ok, (hkdf_bytes _ _ _ _ _ Hmask)).
  apply Forall_cons in Hok as [Ha _].
  destruct (flag_laws_all _ _ Hm Ha) as (_ & _ & _ & Hback & Hbit & _).
  rewrite (proj2 (Z.eqb_neq _ _)) by done. rewrite Hback by done.
  rewrite Z.lxor_assoc, Z.lxor_nilpotent, Z.lxor_0_r, xor_from_twice. by rewrite decide_True.
Qed.

Lemma unwrap_wrap w c :
  bytes_ok w → Unwrap hkdf_read Sign f w = Some (Ok c) →
  Wrap hkdf_read Sign f c = Some w ∧ (2 < length c)%nat ∧ bytes_ok c ∧ idx c 0 < 128.
Proof using Sign_length hkdf_bytes size_ok.
  intros Hok. destruct (Nat.leb_spec (length w) (2 + size)) as [Hle|Hlen].
  { unfold Unwrap. fold size. by rewrite (proj2 (Nat.leb_le _ _)). }
  destruct w as [|a [|b w]]; simpl in Hlen; [lia..|].
  rewrite <-(take_drop size w) in *. set (t := take size w) in *. set (r := drop size w) in *.
  assert (Ht : length t = size) by (unfold t; rewrite length_take; rewrite length_app in Hlen;
    unfold t, r in Hlen; rewrite length_take, length_drop in Hlen; lia).
  rewrite length_app in Hlen. rewrite unwrap_layout; [|done|intros ->; simpl in Hlen; lia].
  case_if; [done|]. zbool. destruct (HKDF _ _ _ _ _) as [mask|] eqn:Hmask; [|done].
  cbn [mbind option_bind]. case_decide as Htag; [|done].
  match goal with |- Some (Ok ?x) = _ → _ => intros Heq; assert (x = c) as <- by congruence end.
  pose proof (hkdf_bytes _ _ _ _ _ Hmask) as Hmok.
  apply Forall_cons in Hok as [Ha Hok]. apply Forall_cons in Hok as [Hb Hok].
  apply bytes_ok_app in Hok as [_ Hr].
  destruct (flag_laws_all _ _ (idx_ok mask 0 Hmok) Ha) as (Hl1 & Hl2 & Hfwd & _).
  split_and!.
  - rewrite wrap_layout, Htag, xor_from_length, Hmask. cbn [mbind option_bind].
    by rewrite Hfwd, Z.lxor_assoc, Z.lxor_nilpotent, Z.lxor_0_r, xor_from_twice by done.
  - simpl. rewrite xor_from_length. lia.
  - repeat (apply Forall_cons; split); [done|by apply lxor_byte; [|apply idx_ok]|by apply xor_from_ok].
  - exact Hl2.
Qed.

(** C33: access codes are exact: a packet unwraps to [c] if and only if it is the
    wrapping of [c] under the same key, so the peer's packets are recovered byte for
    byte and nothing else, no packet with another tag or another flag byte, is let in. *)
Theorem ifac_exact w c :
  bytes_ok w →
  Unwrap hkdf_read Sign f w = Some (Ok c) ↔
  Wrap hkdf_read Sign f c = Some w ∧ (2 < length c)%nat ∧ bytes_ok c ∧ idx c 0 < 128.
Proof using Sign_length hkdf_bytes size_ok.
  intros Hok. split; [by apply unwrap_wrap|]. intros (H & ? & ? & ?). by apply wrap_unwrap.
Qed.

End IfacExact.

(** A key stream with the limit of HKDF-SHA256, and a signer, of the right sizes. *)
Definition toy_hkdf : hkdf_reader :=
  λ ikm _ _ n, if 255 * 32 <? Z.of_nat n then None else Some (replicate n (u8 (foldr Z.add 90 ikm))).
Definition toy_signer (k m : list Z) : list Z := take 64 (m ++ k ++ replicate 64 17).
Definition sample_ifac : IFAC := MkIFAC [1; 2; 3] 16 [4; 5; 6].
Definition sample_wrapped : list Z := default [] (Wrap toy_hkdf toy_signer sample_ifac [2; 0; 7; 8; 9]).

Lemma toy_hkdf_bytes ikm salt info n out : toy_hkdf ikm salt info n = Some out → bytes_ok out.
Proof.
  unfold toy_hkdf. case_if; [done|]. intros [= <-]. apply Forall_replicate, u8_range.
Qed.

Lemma toy_signer_length k m : length (toy_signer k m) = 64%nat.
Proof. unfold toy_signer. rewrite length_take, !length_app, length_replicate. lia. Qed.

Lemma ifac_exact_witness :
  length sample_wrapped = 21%nat ∧
  Unwrap toy_hkdf toy_signer sample_ifac sample_wrapped = Some (Ok [2; 0; 7; 8; 9]).
Proof.
  split; [reflexivity|].
  apply (ifac_exact toy_hkdf toy_signer sample_ifac toy_signer_length toy_hkdf_bytes).
  - vm_compute. split; congruence.
  - apply (bool_decide_unpack _). vm_compute. exact I.
  - split_and!; [vm_compute; reflexivity|simpl; lia| |done].
    apply (bool_decide_unpack _). vm_compute. exact I.
Defined.

(** A frame of more than 8160 bytes with the access-code bit set makes [Unwrap]
    panic, before any tag was checked and whatever the key: the mask for it is longer
    than HKDF-SHA256 can produce, and [HKDF] panics on that error.  The TCP listener's
    reader returns frames far above that size. *)
Theorem ifac_long_frame_panics (hkdf_read : hkdf_reader) Sign f w :
  (∀ ikm salt info n, 255 * 32 < Z.of_nat n → hkdf_read ikm salt info n = None) →
  IFACMinSize <= ifac_size f <= 64 → 255 * 32 < Zlen w → HasIFACFlag w = true →
  Unwrap hkdf_read Sign f w = None.
Proof.
  intros Hlim Hsize Hlen Hflag. unfold HasIFACFlag in Hflag. zbool. unfold Unwrap, Zlen in *.
  rewrite (proj2 (Nat.leb_gt _ _)) by (unfold IFACMinSize in *; lia).
  rewrite (proj2 (Z.eqb_neq _ _)) by done. unfold HKDF. by rewrite Hlim.
Qed.

(** A frame that any client of the listener can send. *)
Definition long_frame : list Z := 128 :: replicate (Z.to_nat 9000) 0.

Lemma ifac_long_frame_panics_witness :
  Unwrap toy_hkdf toy_signer sample_ifac long_frame = None.
Proof.
  apply (ifac_long_frame_panics toy_hkdf).
  - intros ikm salt info n Hn. unfold toy_hkdf. by rewrite (proj2 (Z.ltb_lt _ _) Hn).
  - vm_compute. split; congruence.
  - vm_compute. reflexivity.
  - reflexivity.
Defined.

(** ** Tokens and packet encryption *)

Lemma pkcs7_length data : (length (pkcs7 data) mod BlockSize = 0 ∧ BlockSize ≤ length (pkcs7 data))%nat.
Proof.
  unfold pkcs7, BlockSize. rewrite length_app, length_replicate.
  pose proof (Nat.mod_upper_bound (length data) 16). pose proof (Nat.div_mod_eq (length data) 16).
  split; [|lia]. apply Nat.Div0.mod_divides. exists (length data / 16 + 1)%nat. lia.
Qed.

Lemma unpad_pkcs7 data : unpad (pkcs7 data) = Ok data.
Proof.
  pose proof (Nat.mod_upper_bound (length data) 16). unfold unpad, pkcs7, BlockSize.
  set (n := (16 - length data mod 16)%nat). assert (1 ≤ n ≤ 16)%nat by lia.
  rewrite u8_small by (unfold byte_ok; lia). rewrite idx_app_r by (rewrite length_app, length_replicate; lia).
  replace (idx (replicate n (Z.of_nat n)) _) with (Z.of_nat n).
  2: { symmetry. apply idx_lookup, lookup_replicate. rewrite length_app, length_replicate. lia. }
  rewrite (proj2 (Z.eqb_neq _ _)), !(proj2 (Z.ltb_ge _ _)) by (rewrite ?Zlen_app; unfold Zlen;
    rewrite ?length_replicate; lia). cbn [orb].
  rewrite length_app, length_replicate, Nat2Z.id, Nat.add_sub, drop_app_length, take_app_length.
  replace (forallb _ _) with true; [done|]. symmetry. apply forallb_forall.
  intros x Hx%list_elem_of_In%elem_of_replicate. destruct Hx as [-> _]. apply Z.eqb_refl.
Qed.

Section EncryptExact.
Context (hkdf_read : hkdf_reader) (sha256 : list Z → list Z)
  (cbc_encrypt cbc_decrypt : list Z → list Z → list Z → list Z) (hmac : list Z → list Z → list Z)
  (x25519_pub : list Z → list Z) (ecdh : list Z → list Z → option (list Z)).

(** What the code relies on: CBC decryption undoes encryption on whole blocks and
    keeps the length, an HMAC-SHA256 tag has 32 bytes, an X25519 public key has 32
    bytes and both ends of an exchange derive the same secret, and HKDF gives a
    64-byte key. *)
Context (cbc_length : ∀ k iv p,
  (length p mod BlockSize = 0)%nat → length (cbc_encrypt k iv p) = length p).
Context (cbc_inverse : ∀ k iv p,
  (length p mod BlockSize = 0)%nat → cbc_decrypt k iv (cbc_encrypt k iv p) = p).
Context (hmac_length : ∀ k m, length (hmac k m) = HMACLen).
Context (pub_length : ∀ k, length k = 32%nat → length (x25519_pub k) = EncryptionPubLen).
Context (ecdh_comm : ∀ a b, length a = 32%nat → length b = 32%nat →
  ecdh a (x25519_pub b) = ecdh b (x25519_pub a)).
Context (hkdf_key : ∀ ikm salt info, ∃ key, hkdf_read ikm salt info DerivedKeyLen = Some key ∧
  length key = DerivedKeyLen).

Lemma token_roundtrip t iv data tok :
  length iv = BlockSize →
  TokenEncrypt cbc_encrypt hmac t (Some iv) data = Ok tok → TokenDecrypt cbc_decrypt hmac t tok = Ok data.
Proof using cbc_length cbc_inverse hmac_length.
  intros Hiv. unfold TokenEncrypt. destruct (aes_key_ok (encryptionKey t)) eqn:Hk; [|done]. cbn [negb].
  pose proof (pkcs7_length data) as [Hmod Hmin].
  set (ct := cbc_encrypt (encryptionKey t) iv (pkcs7 data)).
  assert (Hct : length ct = length (pkcs7 data)) by by apply cbc_length.
  set (tag := hmac (signingKey t) (iv ++ ct)). assert (Htag : length tag = HMACLen) by apply hmac_length.
  intros Htok. assert (tok = (iv ++ ct) ++ tag) as -> by congruence.
  assert (Hlen : length ((iv ++ ct) ++ tag) = (16 + length ct + 32)%nat)
    by (rewrite !length_app, Hiv, Htag; done).
  unfold TokenDecrypt, VerifyHMAC. rewrite Hlen. unfold BlockSize, HMACLen in *.
  rewrite (proj2 (Nat.ltb_ge _ _)), (proj2 (Nat.leb_gt _ _)) by lia.
  rewrite Nat.add_sub.
  rewrite drop_app_length', take_app_length' by (rewrite length_app; lia). fold tag.
  rewrite bool_decide_true by done. cbn [negb].
  rewrite sub_app_l, sub_app_r, sub_all' by (rewrite ?length_app; lia).
  rewrite (proj2 (Nat.eqb_eq _ _)) by (by rewrite Hct). rewrite Hk. cbn [negb].
  rewrite <-(assoc_L (++)), <-Hiv, take_app_length. unfold ct.
  rewrite cbc_inverse by done. apply unpad_pkcs7.
Qed.

Lemma derived_token ikm salt :
  ∃ key tok, HKDF hkdf_read DerivedKeyLen ikm salt [] = Some key ∧ NewToken key = Ok tok ∧
    aes_key_ok (encryptionKey tok) = true.
Proof using hkdf_key.
  unfold HKDF. destruct (hkdf_key ikm (match salt with [] => replicate 32 0 | _ => salt end) [])
    as (key & -> & Hl). exists key. unfold NewToken. rewrite Hl. eexists. split_and!; [done|done|].
  unfold aes_key_ok. simpl encryptionKey. by rewrite length_drop, Hl.
Qed.

(** The right private key opens what was encrypted to its public key. *)
Lemma try_key_opens id encPub pt ratchet eph iv prv data :
  id_encryptionPub id = Some encPub → length iv = BlockSize →
  length eph = 32%nat → length prv = 32%nat →
  default encPub ratchet = x25519_pub prv →
  IdentityEncrypt hkdf_read sha256 cbc_encrypt hmac x25519_pub ecdh id pt ratchet (Some eph) (Some iv)
    = Some (Ok data) →
  ∃ ct, data = x25519_pub eph ++ ct ∧ (0 < length ct)%nat ∧
    try_key hkdf_read cbc_decrypt hmac ecdh (ComputeIdentityHash sha256 encPub (id_signingPub id))
      (x25519_pub eph) ct prv = Some (Some pt).
Proof using cbc_length cbc_inverse hmac_length ecdh_comm hkdf_key.
  intros Hpub Hiv Heph Hprv Htarget. unfold IdentityEncrypt.
  rewrite Hpub, Htarget, (ecdh_comm eph prv) by done.
  unfold try_key. destruct (ecdh prv (x25519_pub eph)) as [shared|]; [|done].
  destruct (derived_token shared (ComputeIdentityHash sha256 encPub (id_signingPub id)))
    as (key & tok & -> & Htok & Haes). cbn [mbind option_bind]. rewrite Htok.
  destruct (TokenEncrypt cbc_encrypt hmac tok (Some iv) pt) as [ct|e] eqn:Henc; [|done].
  intros [= <-]. exists ct. split_and!; [done| |].
  - unfold TokenEncrypt in Henc. rewrite Haes in Henc. injection Henc as <-.
    rewrite !length_app, Hiv. unfold BlockSize. lia.
  - by rewrite (token_roundtrip tok iv pt ct).
Qed.

Lemma try_ratchets_found salt peer ct i before r after pt :
  Forall (λ r', length r' = 32%nat → try_key hkdf_read cbc_decrypt hmac ecdh salt peer ct r' = Some None) before →
  length r = 32%nat → try_key hkdf_read cbc_decrypt hmac ecdh salt peer ct r = Some (Some pt) →
  try_ratchets hkdf_read cbc_decrypt hmac ecdh salt peer ct i (before ++ r :: after)
  = Some (Some (pt, i + Zlen before)).
Proof using.
  intros Hb Hr Hkey. revert i. induction Hb as [|r' before Hr' _ IH]; intros i.
  - cbn [app try_ratchets]. rewrite Hr, Nat.eqb_refl, Hkey. simpl. by rewrite Z.add_0_r.
  - cbn [app try_ratchets]. rewrite Zlen_cons. rewrite IH, Z.add_assoc.
    destruct (Nat.eqb_spec (length r') 32) as [H32|]; [|done]. by rewrite (Hr' H32).
Qed.

(** Packet encryption with ratchets: what [Encrypt] produced for the public key of
    the receiver's ratchet [r] is decrypted by the receiver to the plaintext, with the
    index of [r] in its list, whenever the newer ratchets before it do not open the
    token. *)
Theorem ratchet_roundtrip id encPub prv pt eph iv before r after data
  (salt := ComputeIdentityHash sha256 encPub (id_signingPub id)) :
  id_encryptionKey id = Some prv → id_encryptionPub id = Some encPub →
  length iv = BlockSize → length eph = 32%nat → length r = 32%nat →
  IdentityEncrypt hkdf_read sha256 cbc_encrypt hmac x25519_pub ecdh id pt (Some (x25519_pub r))
    (Some eph) (Some iv) = Some (Ok data) →
  Forall (λ r', length r' = 32%nat →
    try_key hkdf_read cbc_decrypt hmac ecdh salt (x25519_pub eph) (drop EncryptionPubLen data) r'
    = Some None) before →
  IdentityDecrypt hkdf_read sha256 cbc_decrypt hmac ecdh id data (before ++ r :: after)
  = Some (Ok (pt, Zlen before)).
Proof using cbc_length cbc_inverse hmac_length pub_length ecdh_comm hkdf_key.
  intros Hprv Hpub Hiv Heph Hr Henc.
  destruct (try_key_opens id encPub pt (Some (x25519_pub r)) eph iv r data) as (ct & -> & Hct & Hopen);
    [done..|].
  rewrite drop_app_length' by (symmetry; by apply pub_length). intros Hbefore.
  unfold IdentityDecrypt. rewrite Hprv, Hpub.
  change (ComputeIdentityHash sha256 (default [] (Some encPub)) (id_signingPub id)) with salt.
  rewrite (proj2 (Nat.leb_gt _ _)) by (rewrite length_app, pub_length by done; lia).
  rewrite take_app_length', drop_app_length' by (symmetry; by apply pub_length).
  by rewrite (try_ratchets_found _ _ _ 0 before r after pt Hbefore Hr Hopen).
Qed.

End EncryptExact.

(** Stand-ins with the sizes and laws of the primitives. *)
Definition toy_dh (a b : list Z) : option (list Z) := Some [foldr Z.add 0 a * foldr Z.add 0 b].
Definition toy_mac (k m : list Z) : list Z := take 32 (k ++ replicate 32 0).
Definition sample_id : Identity :=
  MkIdentity (Some (replicate 32 3)) (Some (replicate 32 3)) (replicate 32 9).
Definition sample_token : list Z :=
  match IdentityEncrypt toy_hkdf (λ m, m) (λ _ _ p, p) toy_mac (λ k, k) toy_dh sample_id [104; 105]
          (Some (replicate 32 7)) (Some (1 :: replicate 31 0)) (Some (replicate 16 2)) with
  | Some (Ok d) => d
  | _ => []
  end.

Lemma ratchet_roundtrip_witness :
  IdentityDecrypt toy_hkdf (λ m, m) (λ _ _ p, p) toy_mac toy_dh sample_id sample_token
    ([replicate 32 6] ++ replicate 32 7 :: [replicate 32 8]) = Some (Ok ([104; 105], Zlen [replicate 32 6])).
Proof.
  apply (ratchet_roundtrip toy_hkdf (λ m, m) (λ _ _ p, p) (λ _ _ p, p) toy_mac (λ k, k) toy_dh)
    with (encPub := replicate 32 3) (prv := replicate 32 3) (eph := 1 :: replicate 31 0) (iv := replicate 16 2).
  - done.
  - done.
  - intros k m. unfold toy_mac. rewrite length_take, length_app, length_replicate. unfold HMACLen. lia.
  - done.
  - intros a b _ _. unfold toy_dh. by rewrite Z.mul_comm.
  - intros ikm salt info. eexists. split; [reflexivity|]. apply length_replicate.
  - reflexivity.
  - reflexivity.
  - reflexivity.
  - reflexivity.
  - reflexivity.
  - vm_compute. reflexivity.
  - apply Forall_singleton. intros _. vm_compute. reflexivity.
Defined.

End RnsCrypto.
