(* ===== verification/RnsWire.v ===== *)
(** The Reticulum wire formats above the packet header: identities and destination hashes
    ([internal/rnswire/identity.go], [plain.go]), announces ([announce.go]) and the link
    handshake ([rnslink.go]).

    The cryptographic primitives are the fields of [Crypto]; nothing here needs a law of them.
    A fixed-size byte array is a list, a parsed key its bytes. *)
From S2P Require Import Prelude Fields Float64 Msgpack RnsPacket RnsCrypto.
Import Fields Float64 RnsPacket.

Module RnsWire.

(** What the Go standard library and [golang.org/x/crypto] supply. *)
Class Crypto := {
  sha256 : list Z → list Z;
  hkdf_read : RnsCrypto.hkdf_reader;
  ed_from_seed : list Z → list Z;
  ed_public : list Z → list Z;
  ed_sign : list Z → list Z → list Z;
  ed_verify : list Z → list Z → list Z → bool;
  cbc_encrypt : list Z → list Z → list Z → list Z;
  cbc_decrypt : list Z → list Z → list Z → list Z;
  hmac : list Z → list Z → list Z;
  x25519_pub : list Z → list Z;
  ecdh : list Z → list Z → option (list Z);
  bunzip2 : list Z → option (list Z);
}.

(** ** Constants *)

Definition MTU : Z := 500.
Definition NameHashLen : nat := 10.
Definition IdentityKeySize : nat := 64.
Definition EncryptionPubLen : nat := 32.
Definition SigningPubLen : nat := 32.
Definition RatchetKeyLen : nat := 32.
Definition RandomHashLen : nat := 10.
Definition AnnounceCap : Z := 2.
Definition TokenOverhead : Z := 48.
Definition AES128BlockSize : Z := 16.
Definition MDU : Z := MTU - 35 - 1.
Definition EncryptedMDU : Z := (MDU - TokenOverhead - 32) / AES128BlockSize * AES128BlockSize - 1.

Definition PacketData : Z := 0.
Definition PacketAnnounce : Z := 1.
Definition PacketLinkRequest : Z := 2.
Definition DestSingle : Z := 0.
Definition DestGroup : Z := 1.
Definition DestPlain : Z := 2.
Definition DestLink : Z := 3.
Definition TransportBroadcast : Z := 0.
Definition HeaderType1 : Z := 0.

Definition ContextNone : Z := 0.
Definition ContextResource : Z := 1.
Definition ContextResourceAdv : Z := 2.
Definition ContextResourceReq : Z := 3.
Definition ContextResourceHMU : Z := 4.
Definition ContextResourcePRF : Z := 5.
Definition ContextResourceICL : Z := 6.
Definition ContextResourceRCL : Z := 7.
Definition ContextCacheRequest : Z := 8.
Definition ContextRequest : Z := 9.
Definition ContextResponse : Z := 10.
Definition ContextPathResponse : Z := 11.
Definition ContextChannel : Z := 14.
Definition ContextKeepalive : Z := 250.
Definition ContextLinkIdentify : Z := 251.
Definition ContextLinkClose : Z := 252.
Definition ContextLRRTT : Z := 254.
Definition ContextLRProof : Z := 255.

(** ** Identities and destinations *)

Record Identity := MkIdentity {
  encryptionKey : option (list Z);
  encryptionPub : list Z;
  signingKey : option (list Z);
  signingPub : list Z;
}.

(** What [Encrypt] and [Decrypt] of [encrypt.go] use of an identity. *)
Definition crypt_identity (id : Identity) : RnsCrypto.Identity :=
  RnsCrypto.MkIdentity (encryptionKey id) (Some (encryptionPub id)) (signingPub id).

Definition HasPrivateKey (id : Identity) : bool :=
  is_some (encryptionKey id) && is_some (signingKey id).

Definition PublicBytes (id : Identity) : list Z := encryptionPub id ++ signingPub id.

(** [ecdh.X25519().NewPublicKey] takes any 32 bytes. *)
Definition NewPublicKey (b : list Z) : option (list Z) := if (length b =? 32)%nat then Some b else None.

Definition ParsePublicKeys (pub : list Z) : option (list Z * list Z) :=
  if negb (length pub =? IdentityKeySize)%nat then None
  else encPub ← NewPublicKey (take EncryptionPubLen pub); Some (encPub, drop EncryptionPubLen pub).

Definition IdentityFromPublicBytes (pub : list Z) : option Identity :=
  '(encPub, sigPub) ← ParsePublicKeys pub; Some (MkIdentity None encPub None sigPub).

Section Hashes.
Context `{!Crypto}.

Definition ComputeNameHash (name : list Z) : list Z := take NameHashLen (sha256 name).

Definition ComputeDestHash (nameHash identityHash : list Z) : list Z :=
  take TruncatedHashLen (sha256 (nameHash ++ identityHash)).

Definition IdentityHash (id : Identity) : list Z :=
  RnsCrypto.ComputeIdentityHash sha256 (encryptionPub id) (signingPub id).

Definition IdentityDestHash (id : Identity) (appName : list Z) : list Z :=
  ComputeDestHash (ComputeNameHash appName) (IdentityHash id).

Definition PathRequestDestName : list Z := str "rnstransport.path.request".

Definition ComputePlainDestHash (name : list Z) : list Z :=
  take TruncatedHashLen (sha256 (ComputeNameHash name)).

Definition PathRequestDestHash : list Z := ComputePlainDestHash PathRequestDestName.

(** [ed25519.Sign] panics without a private key. *)
Definition Sign (id : Identity) (data : list Z) : option (list Z) :=
  key ← signingKey id; Some (ed_sign key data).

End Hashes.

(** ** Announces *)

Record Announce := MkAnnounce {
  an_DestHash : list Z;
  an_Hops : Z;
  an_ContextFlag : Z;
  an_Context : Z;
  an_PublicKey : list Z;
  an_NameHash : list Z;
  an_Random : list Z;
  an_Ratchet : list Z;
  an_Signature : list Z;
  an_AppData : list Z;
}.

#[export] Instance eta_Announce : Settable Announce := λ a,
  MkAnnounce (an_DestHash a) (an_Hops a) (an_ContextFlag a) (an_Context a) (an_PublicKey a)
    (an_NameHash a) (an_Random a) (an_Ratchet a) (an_Signature a) (an_AppData a).

Definition AnnounceMinPayload : nat := IdentityKeySize + NameHashLen + RandomHashLen + SignatureLen.
Definition AnnounceRatchetPayload : nat := AnnounceMinPayload + RatchetKeyLen.

Definition ratchet_part (a : Announce) : list Z := if an_ContextFlag a =? 0 then [] else an_Ratchet a.

Definition signableBody (a : Announce) : list Z :=
  an_DestHash a ++ an_PublicKey a ++ an_NameHash a ++ an_Random a ++ ratchet_part a ++ an_AppData a.

Definition MarshalPayload (a : Announce) : list Z :=
  an_PublicKey a ++ an_NameHash a ++ an_Random a ++ ratchet_part a ++ an_Signature a ++ an_AppData a.

Definition MarshalPacket (a : Announce) : list Z :=
  Marshal (MkHeader HeaderType1 (an_ContextFlag a) TransportBroadcast DestSingle PacketAnnounce
             (an_Hops a) (replicate TruncatedHashLen 0) (an_DestHash a) (an_Context a) (MarshalPayload a)).

Definition MarshalPacketTransport (a : Announce) (transportID : list Z) (hops context : Z) : list Z :=
  Marshal (MkHeader HeaderType2 (an_ContextFlag a) TransportTransport DestSingle PacketAnnounce
             hops transportID (an_DestHash a) context (MarshalPayload a)).

Definition UnmarshalAnnouncePayload (data destHash : list Z) (hops contextFlag : Z) : option Announce :=
  let minSize := if contextFlag =? 0 then AnnounceMinPayload else AnnounceRatchetPayload in
  if (length data <? minSize)%nat then None
  else
    let pub := take IdentityKeySize data in
    _ ← ParsePublicKeys pub;
    let pos := IdentityKeySize in
    let nameHash := sub pos (pos + NameHashLen) data in
    let pos := (pos + NameHashLen)%nat in
    let random := sub pos (pos + RandomHashLen) data in
    let pos := (pos + RandomHashLen)%nat in
    let '(ratchet, pos) :=
      if contextFlag =? 0 then (replicate RatchetKeyLen 0, pos)
      else (sub pos (pos + RatchetKeyLen) data, (pos + RatchetKeyLen)%nat) in
    let sig := sub pos (pos + SignatureLen) data in
    let pos := (pos + SignatureLen)%nat in
    Some (MkAnnounce destHash hops contextFlag 0 pub nameHash random ratchet sig (drop pos data)).

Section Announces.
Context `{!Crypto}.

(** [now] is [time.Now()] in nanoseconds, [random] the five random bytes; [None] is a panic of
    the signer. *)
Definition NewAnnounce (id : Identity) (appName appData random : list Z) (now : Z) : option Announce :=
  let a := MkAnnounce (IdentityDestHash id appName) 0 0 0 (PublicBytes id) (ComputeNameHash appName)
             (random ++ be_put 5 (now / 1000000000)) (replicate RatchetKeyLen 0) [] appData in
  sig ← Sign id (signableBody a);
  Some (a <| an_Signature := sig |>).

Definition Verify (a : Announce) : bool :=
  match ParsePublicKeys (an_PublicKey a) with
  | None => false
  | Some (encPub, sigPub) =>
      bool_decide (ComputeDestHash (an_NameHash a) (RnsCrypto.ComputeIdentityHash sha256 encPub sigPub)
                   = an_DestHash a) &&
      VerifySignature ed_verify sigPub (signableBody a) (an_Signature a)
  end.

End Announces.

(** ** The link handshake *)

Definition LinkECPubSize : nat := 64.
Definition LinkMTUSize : nat := 3.
Definition LinkModeAES256CBC : Z := 1.
Definition LinkModeDefault : Z := LinkModeAES256CBC.
Definition KeepaliveInitiator : Z := 255.
Definition KeepaliveResponse : Z := 254.

(** Go's division truncates. *)
Definition LinkMDU (mtu : Z) : Z := Z.quot (mtu - 1 - 19 - TokenOverhead) AES128BlockSize * AES128BlockSize - 1.

Definition SignallingBytes (mtu mode : Z) : list Z :=
  let v := Z.lor (u32 (Z.land mtu 0x1FFFFF)) (u32 (Z.shiftl (Z.land (u8 (Z.shiftl mode 5)) 0xE0) 16)) in
  drop 1 (be_put 4 v).

Definition ParseSignalling (s : list Z) : Z * Z :=
  if (length s <? LinkMTUSize)%nat then (MTU, LinkModeDefault)
  else (Z.land (Z.lor (Z.lor (Z.shiftl (idx s 0) 16) (Z.shiftl (idx s 1) 8)) (idx s 2)) 0x1FFFFF,
        Z.shiftr (Z.land (idx s 0) 0xE0) 5).

Record RNSLinkRequest := MkLinkRequest {
  lr_EphPub : list Z;
  lr_EphSigPub : list Z;
  lr_MTU : Z;
  lr_Mode : Z;
  lr_Signalled : bool;
}.

Definition MarshalLinkRequest (lr : RNSLinkRequest) : list Z :=
  lr_EphPub lr ++ lr_EphSigPub lr ++ SignallingBytes (lr_MTU lr) (lr_Mode lr).

Definition UnmarshalRNSLinkRequest (data : list Z) : option RNSLinkRequest :=
  if negb (length data =? LinkECPubSize)%nat && negb (length data =? LinkECPubSize + LinkMTUSize)%nat then None
  else
    pub ← NewPublicKey (take EncryptionPubLen data);
    let signalled := (length data =? LinkECPubSize + LinkMTUSize)%nat in
    let '(mtu, mode) :=
      if signalled then ParseSignalling (drop LinkECPubSize data) else (MTU, LinkModeDefault) in
    if negb (mode =? LinkModeAES256CBC) then None
    else Some (MkLinkRequest pub (sub EncryptionPubLen LinkECPubSize data) mtu mode signalled).

Record RNSLinkProof := MkLinkProof {
  lp_Signature : list Z;
  lp_EphPub : list Z;
  lp_MTU : Z;
  lp_Mode : Z;
  lp_Signalled : bool;
}.

Definition LinkProofSignedData (linkID ephPub identitySigPub : list Z) (mtu mode : Z) : list Z :=
  linkID ++ ephPub ++ identitySigPub ++ SignallingBytes mtu mode.

Definition MarshalLinkProof (lp : RNSLinkProof) : list Z :=
  lp_Signature lp ++ lp_EphPub lp ++ SignallingBytes (lp_MTU lp) (lp_Mode lp).

Definition UnmarshalRNSLinkProof (data : list Z) : option RNSLinkProof :=
  let base := (SignatureLen + EncryptionPubLen)%nat in
  if negb (length data =? base)%nat && negb (length data =? base + LinkMTUSize)%nat then None
  else
    pub ← NewPublicKey (sub SignatureLen base data);
    let signalled := (length data =? base + LinkMTUSize)%nat in
    let '(mtu, mode) := if signalled then ParseSignalling (drop base data) else (MTU, LinkModeDefault) in
    Some (MkLinkProof (take SignatureLen data) pub mtu mode signalled).

(** [RTTData]: msgpack's float64. *)
Definition RTTData (rttSeconds : float64) : list Z := 0xCB :: be_put 8 (f64_bits rttSeconds).

Definition ParseRTTData (b : list Z) : option float64 :=
  match b with
  | [] => None
  | h :: t =>
      if (h =? 0xCB) && (length b =? 9)%nat then Some (f64_of_bits (be_get t))
      else if (h =? 0xCA) && (length b =? 5)%nat then Some (f64_of_bits (Msgpack.f32_to_f64 (be_get t)))
      else if (h <? 0x80) && (length b =? 1)%nat then Some (f64_of_Z h)
      else None
  end.

Section Links.
Context `{!Crypto}.

(** The request's hashable part without the signalling bytes. *)
Definition LinkIDFromRequestPacket (raw : list Z) : option (list Z) :=
  match UnmarshalHeader raw with
  | Err _ => None
  | Ok h =>
      let hashable := HashablePart raw in
      let diff := (length (Data h) - LinkECPubSize)%nat in
      Some (take TruncatedHashLen (sha256 (take (length hashable - diff) hashable)))
  end.

(** [None] is HKDF's panic. *)
Definition DeriveLinkKey (shared linkID : list Z) : option (list Z) :=
  RnsCrypto.HKDF hkdf_read RnsCrypto.DerivedKeyLen shared linkID [].

Definition LinkIdentifyData (id : Identity) (linkID : list Z) : option (list Z) :=
  let pub := PublicBytes id in
  sig ← Sign id (linkID ++ pub);
  Some (pub ++ sig).

Definition ParseLinkIdentify (data linkID : list Z) : option (list Z) :=
  if negb (length data =? IdentityKeySize + SignatureLen)%nat then None
  else
    let pub := take IdentityKeySize data in
    '(_, sigPub) ← ParsePublicKeys pub;
    if VerifySignature ed_verify sigPub (linkID ++ pub) (drop IdentityKeySize data) then Some pub else None.

End Links.

End RnsWire.
