(* ===== verification/RnsState.v ===== *)
(** The state of a Reticulum node ([internal/rns]) and the monad its handlers run in.

    [Node] is the struct of [node.go] with the link manager's tables.  Pointers to links and
    to local destinations are numbers into the heaps [lheap] and [dheap], so that two names of
    one object stay one object; every other pointer of the source is only reached through the
    table that holds it.  Times are nanoseconds.

    A handler maps the environment of the call ([Env]: the clock, the transmitter, random
    bytes, the application's callbacks) and the node to the new node, the calls it made to the
    outside in order ([event]) and its result; [None] is a run-time panic.  Locking is not
    modelled: a handler runs from one state, and reads the clock once. *)
From S2P Require Import Prelude Fields Msgpack RnsPacket RnsCrypto RnsWire.
Import Fields RnsPacket RnsWire.

Module RnsState.

(** ** Time *)

Definition Second : Z := 1000000000.
Definition Millisecond : Z := 1000000.

(** [time.Time{}]. *)
Definition zero_time : Z := -62135596800 * Second.

(** [t.Sub(u)] saturates at the largest durations. *)
Definition time_sub (t u : Z) : Z := Z.max (- 2 ^ 63) (Z.min (2 ^ 63 - 1) (t - u)).

Definition PathfinderR : Z := 1.
Definition PathfinderE : Z := 60 * 60 * 24 * 7.
Definition LocalRebroadcastsMax : Z := 2.
Definition PathRequestTimeoutSec : Z := 15.
Definition ReverseTimeoutSec : Z := 8 * 60.
Definition LinkTimeoutSec : Z := 60 * 60 * 2.
Definition DefaultPerHopTimeoutSec : Z := 6.
Definition KeepaliveMaxSec : Z := 360.
Definition KeepaliveMinSec : Z := 5.
Definition StaleGraceSec : Z := 5.

(** ** Paths and announces *)

Record Packet := MkPacket {
  pk_Raw : list Z;
  pk_Hdr : Header;
  pk_Hash : list Z;
  pk_Iface : list Z;
}.

Definition TruncatedHash (p : Packet) : list Z := take TruncatedHashLen (pk_Hash p).

Record PathEntry := MkPathEntry {
  pe_DestHash : list Z;
  pe_Timestamp : Z;
  pe_NextHop : list Z;
  pe_Hops : Z;
  pe_Expires : Z;
  pe_RandomBlobs : list (list Z);
  pe_Iface : list Z;
  pe_Announce : option Announce;
  pe_PacketHash : list Z;
  pe_Unresponsive : bool;
}.

#[export] Instance eta_PathEntry : Settable PathEntry := λ e,
  MkPathEntry (pe_DestHash e) (pe_Timestamp e) (pe_NextHop e) (pe_Hops e) (pe_Expires e)
    (pe_RandomBlobs e) (pe_Iface e) (pe_Announce e) (pe_PacketHash e) (pe_Unresponsive e).

Record announceEntry := MkAnnounceEntry {
  ae_timestamp : Z;
  ae_retransmitTimeout : Z;
  ae_retries : Z;
  ae_receivedFrom : list Z;
  ae_hops : Z;
  ae_ann : Announce;
  ae_sourceIface : list Z;
  ae_localRebroadcasts : Z;
  ae_blockRebroadcasts : bool;
  ae_attachedIface : list Z;
}.

#[export] Instance eta_announceEntry : Settable announceEntry := λ e,
  MkAnnounceEntry (ae_timestamp e) (ae_retransmitTimeout e) (ae_retries e) (ae_receivedFrom e)
    (ae_hops e) (ae_ann e) (ae_sourceIface e) (ae_localRebroadcasts e) (ae_blockRebroadcasts e)
    (ae_attachedIface e).

(** [aq_timer] is the time the pending timer fires at. *)
Record announceQueueT := MkAnnounceQueue {
  aq_allowedAt : Z;
  aq_pending : list (list Z);
  aq_timer : option Z;
}.

#[export] Instance eta_announceQueue : Settable announceQueueT := λ q,
  MkAnnounceQueue (aq_allowedAt q) (aq_pending q) (aq_timer q).

Record discoveryEntry := MkDiscoveryEntry {
  de_timeout : Z;
  de_requestingIfaces : list (list Z);
  de_engaged : bool;
}.

#[export] Instance eta_discoveryEntry : Settable discoveryEntry := λ d,
  MkDiscoveryEntry (de_timeout d) (de_requestingIfaces d) (de_engaged d).

Record KnownIdentity := MkKnownIdentity {
  ki_DestHash : list Z;
  ki_PublicKey : list Z;
  ki_Identity : option Identity;
  ki_AppData : list Z;
  ki_Ratchet : list Z;
  ki_RatchetAt : Z;
  ki_LastSeen : Z;
}.

#[export] Instance eta_KnownIdentity : Settable KnownIdentity := λ k,
  MkKnownIdentity (ki_DestHash k) (ki_PublicKey k) (ki_Identity k) (ki_AppData k) (ki_Ratchet k)
    (ki_RatchetAt k) (ki_LastSeen k).

(** ** Forwarding *)

Record linkEntry := MkLinkEntry {
  le_timestamp : Z;
  le_nextHop : list Z;
  le_nextHopIface : list Z;
  le_remainingHops : Z;
  le_receivedIface : list Z;
  le_takenHops : Z;
  le_destHash : list Z;
  le_validated : bool;
  le_proofTimeout : Z;
}.

#[export] Instance eta_linkEntry : Settable linkEntry := λ e,
  MkLinkEntry (le_timestamp e) (le_nextHop e) (le_nextHopIface e) (le_remainingHops e)
    (le_receivedIface e) (le_takenHops e) (le_destHash e) (le_validated e) (le_proofTimeout e).

Record reverseEntry := MkReverseEntry {
  re_receivedIface : list Z;
  re_outboundIface : list Z;
  re_timestamp : Z;
}.

(** [rc_link] points to the link a link packet went out on. *)
Record Receipt := MkReceipt {
  rc_Hash : list Z;
  rc_Dest : list Z;
  rc_SentAt : Z;
  rc_Timeout : Z;
  rc_sigPub : option (list Z);
  rc_link : option nat;
}.

Record PaidPolicy := MkPaidPolicy {
  pp_Dests : list (list Z);
  pp_MinInterval : Z;
  pp_Bitrate : Z;
  pp_ExtraHops : Z;
}.

Inductive paidKind := paidAnnounce | paidPathRequest.

#[export] Instance paidKind_eq_dec : EqDecision paidKind.
Proof. solve_decision. Defined.

#[export] Instance paidKind_countable : Countable paidKind.
Proof.
  refine (inj_countable' (λ k, match k with paidAnnounce => true | paidPathRequest => false end)
    (λ b, if b then paidAnnounce else paidPathRequest) _). by intros [].
Defined.

(** ** Local destinations and links *)

(** The callbacks that are left out ([OnPacket], [OnLink], ...) are events.  [d_handlers] are the
    paths with a request handler. *)
Record Destination := MkDestination {
  d_Name : list Z;
  d_Hash : list Z;
  d_Identity : Identity;
  d_AcceptLinks : bool;
  d_ProveAll : bool;
  d_AcceptResources : bool;
  d_ratchets : list (list Z);
  d_handlers : list (list Z);
}.

#[export] Instance eta_Destination : Settable Destination := λ d,
  MkDestination (d_Name d) (d_Hash d) (d_Identity d) (d_AcceptLinks d) (d_ProveAll d)
    (d_AcceptResources d) (d_ratchets d) (d_handlers d).

Inductive LinkState := LinkPending | LinkHandshake | LinkActive | LinkStale | LinkClosed.

#[export] Instance LinkState_eq_dec : EqDecision LinkState.
Proof. solve_decision. Defined.

(** [or_state]: 0 advertised, 1 transferring, 2 awaiting proof, 3 complete, 4 failed. *)
Record OutgoingResource := MkOutgoing {
  or_Hash : list Z;
  or_data : list Z;
  or_parts : list (list Z);
  or_partSent : list bool;
  or_mapHashes : list (list Z);
  or_randomHash : list Z;
  or_expectedProof : list Z;
  or_dataSize : Z;
  or_sentParts : Z;
  or_advRetries : Z;
  or_advSent : Z;
  or_lastActivity : Z;
  or_rtt : Z;
  or_state : Z;
  or_recvMinHeight : Z;
  or_requestID : option (list Z);
  or_isResponse : bool;
}.

#[export] Instance eta_Outgoing : Settable OutgoingResource := λ r,
  MkOutgoing (or_Hash r) (or_data r) (or_parts r) (or_partSent r) (or_mapHashes r) (or_randomHash r)
    (or_expectedProof r) (or_dataSize r) (or_sentParts r) (or_advRetries r) (or_advSent r)
    (or_lastActivity r) (or_rtt r) (or_state r) (or_recvMinHeight r) (or_requestID r) (or_isResponse r).

(** [ir_state]: 0 transferring, 1 assembling, 2 complete, 3 failed. *)
Record IncomingResource := MkIncoming {
  ir_Hash : list Z;
  ir_size : Z;
  ir_dataSize : Z;
  ir_totalParts : Z;
  ir_parts : list (option (list Z));
  ir_hashmap : list (list Z);
  ir_hashmapSet : list bool;
  ir_hashHeight : Z;
  ir_randomHash : list Z;
  ir_compressed : bool;
  ir_received : Z;
  ir_outstanding : Z;
  ir_window : Z;
  ir_windowMax : Z;
  ir_windowMin : Z;
  ir_consecutive : Z;
  ir_waitingHMU : bool;
  ir_retries : Z;
  ir_lastActivity : Z;
  ir_reqSent : Z;
  ir_state : Z;
  ir_requestID : list Z;
  ir_isRequest : bool;
  ir_isResponse : bool;
}.

#[export] Instance eta_Incoming : Settable IncomingResource := λ r,
  MkIncoming (ir_Hash r) (ir_size r) (ir_dataSize r) (ir_totalParts r) (ir_parts r) (ir_hashmap r)
    (ir_hashmapSet r) (ir_hashHeight r) (ir_randomHash r) (ir_compressed r) (ir_received r)
    (ir_outstanding r) (ir_window r) (ir_windowMax r) (ir_windowMin r) (ir_consecutive r)
    (ir_waitingHMU r) (ir_retries r) (ir_lastActivity r) (ir_reqSent r) (ir_state r) (ir_requestID r)
    (ir_isRequest r) (ir_isResponse r).

(** [l_local] points to the destination a peer's link is for; [l_requests] are the ids of the
    outstanding requests. *)
Record Link := MkLink {
  l_ID : list Z;
  l_Dest : list Z;
  l_Initiator : bool;
  l_Iface : list Z;
  l_state : LinkState;
  l_prv : list Z;
  l_sigPrv : list Z;
  l_peerPub : option (list Z);
  l_peerSigPub : option (list Z);
  l_key : list Z;
  l_token : option RnsCrypto.Token;
  l_mtu : Z;
  l_mdu : Z;
  l_rtt : Z;
  l_keepalive : Z;
  l_staleTime : Z;
  l_requestTime : Z;
  l_establishTO : Z;
  l_activatedAt : Z;
  l_lastInbound : Z;
  l_lastOutbound : Z;
  l_lastKeepalive : Z;
  l_lastProof : Z;
  l_staleSince : Z;
  l_expectedHops : Z;
  l_remoteIdent : option (list Z);
  l_local : option nat;
  l_destIdentity : option Identity;
  l_acceptResources : bool;
  l_incoming : gmap (list Z) IncomingResource;
  l_outgoing : gmap (list Z) OutgoingResource;
  l_requests : gset (list Z);
}.

#[export] Instance eta_Link : Settable Link := λ l,
  MkLink (l_ID l) (l_Dest l) (l_Initiator l) (l_Iface l) (l_state l) (l_prv l) (l_sigPrv l) (l_peerPub l)
    (l_peerSigPub l) (l_key l) (l_token l) (l_mtu l) (l_mdu l) (l_rtt l) (l_keepalive l) (l_staleTime l)
    (l_requestTime l) (l_establishTO l) (l_activatedAt l) (l_lastInbound l) (l_lastOutbound l)
    (l_lastKeepalive l) (l_lastProof l) (l_staleSince l) (l_expectedHops l) (l_remoteIdent l) (l_local l)
    (l_destIdentity l) (l_acceptResources l) (l_incoming l) (l_outgoing l) (l_requests l).

(** A request a peer made, as its handler sees it. *)
Record Request := MkRequest {
  rq_Path : list Z;
  rq_PathHash : list Z;
  rq_ID : list Z;
  rq_Data : Msgpack.Value;
  rq_Link : nat;
  rq_RemoteIdentity : option Identity;
  rq_RequestedAt : option Z;
}.

(** ** Counters, calls to the outside, and the node *)

Inductive stat :=
| RxPackets | TxPackets | Dropped | Filtered | AnnouncesRx | AnnouncesTx | Forwarded | LinkTransit
| PathRequestsRx | IFACViolations | PaidTx | PaidSuppressed | LeafRefused.

#[export] Instance stat_eq_dec : EqDecision stat.
Proof. solve_decision. Defined.

Inductive event :=
| Transmit (iface wire : list Z)
| OnPaidCrossing (iface : list Z) (inbound : bool) (dest : list Z) (bytes : Z)
| OnAnnounce (a : Announce) (p : Packet)
| OnPathChanged (dest : list Z) (e : PathEntry)
| OnPacket (dest plain : list Z) (p : Packet)
| OnLink (link : nat)
| OnEstablished (link : nat)
| OnLinkPacket (link : nat) (plain : list Z) (p : Packet)
| OnLinkClosed (link : nat)
| OnIdentified (link : nat) (pub : list Z)
| OnContext (link : nat) (p : Packet)
| OnResource (link : nat) (data : list Z)
| WakeWaiter (w : nat)
| ReceiptDone (hash : list Z) (delivered : bool) (rtt : Z)
| RequestDone (id : list Z) (response : option Msgpack.Value)
| ResourceDone (hash : list Z) (delivered : bool).

Record Node := MkNode {
  identity : Identity;
  idHash : list Z;
  forwardHeader1From : gset (list Z);
  pathTTL : Z;
  crossingCallback : bool;
  dests : gmap (list Z) nat;
  dheap : gmap nat Destination;
  paths : gmap (list Z) PathEntry;
  identities : gmap (list Z) KnownIdentity;
  hashlist : gset (list Z);
  hashlistPrev : gset (list Z);
  announceTable : gmap (list Z) announceEntry;
  heldAnnounces : gmap (list Z) announceEntry;
  announceQueue : gmap (list Z) announceQueueT;
  linkTable : gmap (list Z) linkEntry;
  reverseTable : gmap (list Z) reverseEntry;
  discoveryPRs : gmap (list Z) discoveryEntry;
  prTags : gset (list Z);
  prTagsPrev : gset (list Z);
  inflightPRs : gmap (list Z) Z;
  pathRequests : gmap (list Z) Z;
  pathWaiters : gmap (list Z) (list nat);
  receipts : gmap (list Z) Receipt;
  ifac : gmap (list Z) RnsCrypto.IFAC;
  leaf : gset (list Z);
  paid : gmap (list Z) PaidPolicy;
  paidLast : gmap (list Z * list Z * paidKind) Z;
  crossings : gmap (list Z * list Z * bool) Z;
  lheap : gmap nat Link;
  pendingLinks : gmap (list Z) nat;
  activeLinks : gmap (list Z) nat;
  stats : stat → Z;
  fresh : nat;
  draws : nat;
}.

#[export] Instance eta_Node : Settable Node := λ n,
  MkNode (identity n) (idHash n) (forwardHeader1From n) (pathTTL n) (crossingCallback n) (dests n)
    (dheap n) (paths n) (identities n) (hashlist n) (hashlistPrev n) (announceTable n) (heldAnnounces n)
    (announceQueue n) (linkTable n) (reverseTable n) (discoveryPRs n) (prTags n) (prTagsPrev n)
    (inflightPRs n) (pathRequests n) (pathWaiters n) (receipts n) (ifac n) (leaf n) (paid n) (paidLast n)
    (crossings n) (lheap n) (pendingLinks n) (activeLinks n) (stats n) (fresh n) (draws n).

(** [e_order] is the order in which a [range] over a map visits it; [e_fuel] is how many rounds of
    the one unbounded loop, the search for a resource salt without collisions, are followed. *)
Record Env := MkEnv {
  e_now : Z;
  e_transmit : list Z → list Z → bool;
  e_floodable : list (list Z);
  e_hwmtu : list Z → Z;
  e_bitrate : list Z → Z;
  e_online : option (list Z → bool);
  e_rand : nat → nat → option (list Z);
  e_jitter : Z;
  e_appData : list Z → list Z;
  e_acceptResource : nat → Z → bool;
  e_answer : Request → option Msgpack.Value;
  e_order : ∀ A : Type, list A → list A;
  e_fuel : nat;
}.

(** ** The monad *)

Definition M (A : Type) : Type := Env → Node → option (Node * list event * A).

#[export] Instance M_ret : MRet M := λ A a _ n, Some (n, [], a).

#[export] Instance M_bind : MBind M := λ A B k m e n,
  match m e n with
  | None => None
  | Some (n1, ev1, a) =>
      match k a e n1 with
      | None => None
      | Some (n2, ev2, b) => Some (n2, ev1 ++ ev2, b)
      end
  end.

(** Binding with the computation first, so that the type of [x] is known in [k]. *)
Definition bind {A B} (m : M A) (k : A → M B) : M B := mbind k m.

Notation "'let*' x := m 'in' k" := (bind m (λ x, k))
  (at level 10, x pattern, m at level 100, k at level 200,
   format "'[v' 'let*'  x  :=  m  'in' '//' k ']'").

Definition gets {A} (f : Node → A) : M A := λ _ n, Some (n, [], f n).
Definition asks {A} (f : Env → A) : M A := λ e n, Some (n, [], f e).
Definition modify (f : Node → Node) : M unit := λ _ n, Some (f n, [], tt).
Definition emit (ev : event) : M unit := λ _ n, Some (n, [ev], tt).
Definition panic {A} : M A := λ _ _, None.

(** [None] is a panic. *)
Definition of_option {A} (o : option A) : M A := match o with Some a => mret a | None => panic end.

Definition when (b : bool) (m : M unit) : M unit := if b then m else mret tt.

Fixpoint for_each {A} (body : A → M unit) (l : list A) : M unit :=
  match l with
  | [] => mret tt
  | x :: l => body x ;; for_each body l
  end.

(** [range] over a map: the entries at the start of the loop. *)
Definition range {A} (f : Node → gmap (list Z) A) : M (list (list Z * A)) :=
  let* l := gets (λ n, map_to_list (f n)) in asks (λ e, e_order e _ l).

Definition now : M Z := asks e_now.

Definition count (s : stat) : M unit :=
  modify (λ n, n <| stats ::= λ f x, if decide (x = s) then u64 (f x + 1) else f x |>).

(** A new pointer. *)
Definition alloc : M nat :=
  let* p := gets fresh in modify (λ n, n <| fresh ::= S |>) ;; mret p.

(** [n] random bytes; [None] is the error of the source. *)
Definition draw (n : nat) : M (option (list Z)) :=
  let* k := gets draws in modify (λ n, n <| draws ::= S |>) ;; asks (λ e, e_rand e k n).

(** [rand.Read(b)] with its error ignored. *)
Definition draw_ (n : nat) : M (list Z) := let* r := draw n in mret (default (replicate n 0) r).

Definition stat_zero : stat → Z := λ _, 0.

End RnsState.
