(* ===== verification/RnsLogic.v ===== *)
(** Weakest preconditions for the handlers of a Reticulum node.

    [wp e E m Q n]: run in environment [e] from node [n], the handler [m] makes only calls to the
    outside that satisfy [E], and returns in a state and with a result that satisfy [Q], unless it
    panics.  [keeps e E P m] is the case of an invariant. *)
From S2P Require Import Prelude Fields RnsState.
Import Fields RnsState.

Module RnsLogic.

Definition wp (e : Env) (E : event → Prop) {A} (m : M A) (Q : A → Node → Prop) (n : Node) : Prop :=
  match m e n with
  | None => True
  | Some (n', ev, a) => Forall E ev ∧ Q a n'
  end.

Definition keeps (e : Env) (E : event → Prop) (P : Node → Prop) {A} (m : M A) : Prop :=
  ∀ n, P n → wp e E m (λ _, P) n.

Section Rules.
Context (e : Env) (E : event → Prop).

Lemma wp_mono {A} (m : M A) (Q Q' : A → Node → Prop) n :
  (∀ a n', Q a n' → Q' a n') → wp e E m Q n → wp e E m Q' n.
Proof. unfold wp. destruct (m e n) as [[[n' ev] a]|]; naive_solver. Qed.

Lemma wp_ret {A} (a : A) Q n : Q a n → wp e E (mret a) Q n.
Proof. intros. by split. Qed.

Lemma wp_bind {A B} (m : M A) (k : A → M B) Q n :
  wp e E m (λ a n', wp e E (k a) Q n') n → wp e E (bind m k) Q n.
Proof.
  unfold wp, bind, mbind, M_bind. destruct (m e n) as [[[n1 ev1] a]|]; [|done].
  intros [H1 H]. destruct (k a e n1) as [[[n2 ev2] b]|]; [|done]. destruct H. split; [by apply Forall_app|done].
Qed.

Lemma wp_seq {A B} (m : M A) (k : M B) Q n :
  wp e E m (λ _ n', wp e E k Q n') n → wp e E (m ;; k) Q n.
Proof. apply (wp_bind m (λ _, k)). Qed.

Lemma wp_gets {A} (f : Node → A) Q n : Q (f n) n → wp e E (gets f) Q n.
Proof. intros. by split. Qed.

Lemma wp_asks {A} (f : Env → A) Q n : Q (f e) n → wp e E (asks f) Q n.
Proof. intros. by split. Qed.

Lemma wp_now Q n : Q (e_now e) n → wp e E now Q n.
Proof. apply wp_asks. Qed.

Lemma wp_modify f Q n : Q tt (f n) → wp e E (modify f) Q n.
Proof. intros. by split. Qed.

Lemma wp_emit ev Q n : E ev → Q tt n → wp e E (emit ev) Q n.
Proof. intros. split; [by constructor|done]. Qed.

Lemma wp_panic {A} Q n : wp e E (@panic A) Q n.
Proof. done. Qed.

Lemma wp_of_option {A} (o : option A) (Q : A → Node → Prop) n :
  (∀ a, o = Some a → Q a n) → wp e E (of_option o) Q n.
Proof. intros H. destruct o; [apply wp_ret; by apply H|done]. Qed.

Lemma wp_when b m Q n : (b = true → wp e E m Q n) → (b = false → Q tt n) → wp e E (when b m) Q n.
Proof. destruct b; simpl; intros H1 H2; [by apply H1|]. apply wp_ret. by apply H2. Qed.

Lemma wp_call {A} (P : Node → Prop) (m : M A) Q n :
  keeps e E P m → P n → (∀ a n', P n' → Q a n') → wp e E m Q n.
Proof. intros Hm Hn HQ. eapply wp_mono; [|by apply Hm]. auto. Qed.

Lemma keeps_for_each {A} (P : Node → Prop) (body : A → M unit) l :
  (∀ x, x ∈ l → keeps e E P (body x)) → keeps e E P (for_each body l).
Proof.
  induction l as [|x l IH]; intros Hb n Hn; simpl; [by apply wp_ret|].
  apply wp_seq. apply (wp_call P); [apply Hb; left|done|]. intros _ n' Hn'. apply IH; [|done]. intros y Hy. apply Hb. by right.
Qed.

Lemma keeps_ret {A} (P : Node → Prop) (a : A) : keeps e E P (mret a).
Proof. intros n Hn. by apply wp_ret. Qed.

Lemma keeps_bind {A B} (P : Node → Prop) (m : M A) (k : A → M B) :
  keeps e E P m → (∀ a, keeps e E P (k a)) → keeps e E P (bind m k).
Proof. intros Hm Hk n Hn. apply wp_bind. apply (wp_call P); [done|done|]. intros. by apply Hk. Qed.

Lemma keeps_seq {A B} (P : Node → Prop) (m : M A) (k : M B) :
  keeps e E P m → keeps e E P k → keeps e E P (m ;; k).
Proof. intros Hm Hk. by apply (keeps_bind P m (λ _, k)). Qed.

Lemma keeps_gets {A} (P : Node → Prop) (f : Node → A) : keeps e E P (gets f).
Proof. intros n Hn. by apply wp_gets. Qed.

Lemma keeps_asks {A} (P : Node → Prop) (f : Env → A) : keeps e E P (asks f).
Proof. intros n Hn. by apply wp_asks. Qed.

(** What is known of the state a value was read from. *)
Lemma keeps_bind_gets {A B} (P : Node → Prop) (f : Node → A) (k : A → M B) :
  (∀ n, P n → keeps e E P (k (f n))) → keeps e E P (bind (gets f) k).
Proof. intros H n Hn. apply wp_bind, wp_gets. by apply H. Qed.

(** What is known of a result. *)
Lemma keeps_bind_post {A B} (P : Node → Prop) (R : A → Prop) (m : M A) (k : A → M B) :
  (∀ n, P n → wp e E m (λ a n', R a ∧ P n') n) → (∀ a, R a → keeps e E P (k a)) → keeps e E P (bind m k).
Proof.
  intros Hm Hk n Hn. apply wp_bind. eapply wp_mono; [|by apply Hm]. intros a n' [Ha Hn']. by apply Hk.
Qed.

Lemma keeps_bind_option {A B} (P : Node → Prop) (o : option A) (k : A → M B) :
  (∀ a, o = Some a → keeps e E P (k a)) → keeps e E P (bind (of_option o) k).
Proof. intros H n Hn. apply wp_bind, wp_of_option. intros a Ha. by apply H. Qed.

Lemma keeps_modify (P : Node → Prop) f : (∀ n, P n → P (f n)) → keeps e E P (modify f).
Proof. intros H n Hn. apply wp_modify. by apply H. Qed.

Lemma keeps_emit (P : Node → Prop) ev : E ev → keeps e E P (emit ev).
Proof. intros H n Hn. by apply wp_emit. Qed.

Lemma keeps_panic {A} (P : Node → Prop) : keeps e E P (@panic A).
Proof. done. Qed.

Lemma keeps_of_option {A} (P : Node → Prop) (o : option A) : keeps e E P (of_option o).
Proof. intros n Hn. by apply wp_of_option. Qed.

Lemma keeps_when (P : Node → Prop) b m : (b = true → keeps e E P m) → keeps e E P (when b m).
Proof. intros H n Hn. apply wp_when; [intros ->; by apply H|done]. Qed.

Lemma keeps_range {A} (P : Node → Prop) (f : Node → gmap (list Z) A) : keeps e E P (range f).
Proof. apply keeps_bind; [apply keeps_gets|]. intros. apply keeps_asks. Qed.

(** The ways a conclusion is drawn from [wp] about one run. *)
Lemma wp_elim {A} (m : M A) Q n n' ev a :
  wp e E m Q n → m e n = Some (n', ev, a) → Forall E ev ∧ Q a n'.
Proof. unfold wp. intros H Hm. by rewrite Hm in H. Qed.

End Rules.

Lemma wp_weaken e (E E' : event → Prop) {A} (m : M A) Q n :
  (∀ ev, E ev → E' ev) → wp e E m Q n → wp e E' m Q n.
Proof.
  intros HE. unfold wp. destruct (m e n) as [[[n' ev] a]|]; [|done]. intros [Hev HQ]. split; [|done].
  eapply Forall_impl; [done|]. auto.
Qed.

Lemma keeps_weaken e (E E' : event → Prop) P {A} (m : M A) :
  (∀ ev, E ev → E' ev) → keeps e E P m → keeps e E' P m.
Proof. intros HE Hm n Hn. eapply wp_weaken; [done|]. by apply Hm. Qed.

(** Invariants that do not look at the counters, at the crossings reported, nor at how many random
    numbers were drawn. *)
Class Frame (P : Node → Prop) := {
  frame_stats n f : P n → P (n <| stats ::= f |>);
  frame_crossings n f : P n → P (n <| crossings ::= f |>);
  frame_draws n f : P n → P (n <| draws ::= f |>);
}.

Section Framed.
Context (e : Env) (E : event → Prop) (P : Node → Prop) `{!Frame P}.

Lemma keeps_count s : keeps e E P (count s).
Proof. apply keeps_modify. intros. by apply frame_stats. Qed.

Lemma keeps_draw k : keeps e E P (draw k).
Proof.
  unfold draw. apply keeps_bind; [apply keeps_gets|]. intros i. apply keeps_seq; [|apply keeps_asks].
  apply keeps_modify. intros. by apply frame_draws.
Qed.

End Framed.

(** ** Total correctness

    [twp e m Q n]: the handler returns, and its result, its final state and the calls it makes to the
    outside satisfy [Q]. *)
Definition twp (e : Env) {A} (m : M A) (Q : A → Node → list event → Prop) (n : Node) : Prop :=
  ∃ n' ev a, m e n = Some (n', ev, a) ∧ Q a n' ev.

Section Total.
Context (e : Env).

Lemma twp_mono {A} (m : M A) (Q Q' : A → Node → list event → Prop) n :
  (∀ a n' ev, Q a n' ev → Q' a n' ev) → twp e m Q n → twp e m Q' n.
Proof. intros HQ (n' & ev & a & Hm & Ha). exists n', ev, a. auto. Qed.

Lemma twp_ret {A} (a : A) (Q : A → Node → list event → Prop) n : Q a n [] → twp e (mret a) Q n.
Proof. intros. by exists n, [], a. Qed.

Lemma twp_bind {A B} (m : M A) (k : A → M B) (Q : B → Node → list event → Prop) n :
  twp e m (λ a n1 ev1, twp e (k a) (λ b n2 ev2, Q b n2 (ev1 ++ ev2)) n1) n → twp e (bind m k) Q n.
Proof.
  intros (n1 & ev1 & a & Hm & n2 & ev2 & b & Hk & HQ). exists n2, (ev1 ++ ev2), b.
  unfold bind, mbind, M_bind. by rewrite Hm, Hk.
Qed.

Lemma twp_seq {A B} (m : M A) (k : M B) (Q : B → Node → list event → Prop) n :
  twp e m (λ _ n1 ev1, twp e k (λ b n2 ev2, Q b n2 (ev1 ++ ev2)) n1) n → twp e (m ;; k) Q n.
Proof. apply (twp_bind m (λ _, k)). Qed.

Lemma twp_gets {A} (f : Node → A) (Q : A → Node → list event → Prop) n : Q (f n) n [] → twp e (gets f) Q n.
Proof. intros. by exists n, [], (f n). Qed.

Lemma twp_asks {A} (f : Env → A) (Q : A → Node → list event → Prop) n : Q (f e) n [] → twp e (asks f) Q n.
Proof. intros. by exists n, [], (f e). Qed.

Lemma twp_now (Q : Z → Node → list event → Prop) n : Q (e_now e) n [] → twp e now Q n.
Proof. apply twp_asks. Qed.

Lemma twp_modify f (Q : unit → Node → list event → Prop) n : Q tt (f n) [] → twp e (modify f) Q n.
Proof. intros. by exists (f n), [], tt. Qed.

Lemma twp_emit ev (Q : unit → Node → list event → Prop) n : Q tt n [ev] → twp e (emit ev) Q n.
Proof. intros. by exists n, [ev], tt. Qed.

Lemma twp_of_option {A} (a : A) (Q : A → Node → list event → Prop) n : Q a n [] → twp e (of_option (Some a)) Q n.
Proof. apply twp_ret. Qed.

Lemma twp_draw k (Q : option (list Z) → Node → list event → Prop) n :
  Q (e_rand e (draws n) k) (n <| draws ::= S |>) [] → twp e (draw k) Q n.
Proof. intros HQ. by exists (n <| draws ::= S |>), [], (e_rand e (draws n) k). Qed.

End Total.

(** ** Panics *)

Definition panics (e : Env) {A} (m : M A) (n : Node) : Prop := m e n = None.

Lemma panics_bind e {A B} (m : M A) (k : A → M B) n :
  twp e m (λ a n' _, panics e (k a) n') n → panics e (bind m k) n.
Proof. intros (n' & ev & a & Hm & Hk). unfold panics, bind, mbind, M_bind in *. by rewrite Hm, Hk. Qed.

Lemma panics_seq e {A B} (m : M A) (k : M B) n : twp e m (λ _ n' _, panics e k n') n → panics e (m ;; k) n.
Proof. apply (panics_bind e m (λ _, k)). Qed.

Lemma panics_first e {A B} (m : M A) (k : A → M B) n : panics e m n → panics e (bind m k) n.
Proof. unfold panics, bind, mbind, M_bind. by intros ->. Qed.

(** Nothing but the counters and the crossings differs. *)
Definition only_counts (n n' : Node) : Prop := ∃ s c, n' = n <| stats := s |> <| crossings := c |>.

Lemma only_counts_refl n : only_counts n n.
Proof. exists (stats n), (crossings n). by destruct n. Qed.

Lemma only_counts_trans n n1 n2 : only_counts n n1 → only_counts n1 n2 → only_counts n n2.
Proof. intros (s & c & ->) (s' & c' & ->). by exists s', c'. Qed.

Lemma only_counts_stats n f : only_counts n (n <| stats ::= f |>).
Proof. exists (f (stats n)), (crossings n). by destruct n. Qed.

Create HintDb rns.
#[export] Hint Resolve keeps_ret keeps_gets keeps_asks keeps_panic keeps_of_option keeps_range keeps_count keeps_draw : rns.

#[export] Hint Extern 0 (Frame _) => typeclasses eauto : rns.

(** One step through a handler that keeps an invariant: sequencing, case analysis, and the lemmas
    of the database [rns] for what it calls.  What is left are updates and calls to the outside. *)
Ltac keep1 :=
  match goal with
  | |- keeps _ _ _ (let _ := _ in _) => cbv zeta
  | |- keeps _ _ _ (bind _ _) => apply keeps_bind; [|intros ?]
  | |- keeps _ _ _ (mbind _ _) => apply keeps_seq
  | |- keeps _ _ _ (when _ _) => apply keeps_when; intros ?
  | |- keeps _ _ _ (for_each _ _) => apply keeps_for_each; intros ? ?
  | |- keeps _ _ _ (match ?x with _ => _ end) => destruct x eqn:?
  | |- keeps _ _ _ now => apply keeps_asks
  | |- keeps _ _ _ _ => solve [eauto with rns]
  end.
Ltac keep := repeat keep1.

End RnsLogic.
