(* ===== verification/RnsIface.v ===== *)
(** A Reticulum node's interfaces: creating a node ([internal/rns/node.go]), local destinations
    and known identities, the path table ([paths.go]), leaf interfaces ([leaf.go]), paid links
    ([paidlinks.go]) and transmission. *)
From S2P Require Import Prelude Fields RnsPacket RnsCrypto RnsWire RnsState.
Import Fields RnsPacket RnsWire RnsState.

Module RnsIface.

(** ** The path table *)

Definition Direct (e : PathEntry) : bool :=
  (pe_Hops e <=? 1) || bool_decide (pe_NextHop e = pe_DestHash e).

(** The five timestamp bytes are big-endian. *)
Definition blobTimestamp (b : list Z) : Z :=
  if (length b <? 10)%nat then 0
  else fold_left (λ ts c, Z.lor (Z.shiftl ts 8) c) (sub 5 10 b) 0.

Definition EmittedAt (e : PathEntry) : Z :=
  fold_left (λ best b, let ts := blobTimestamp b in if best <? ts then ts else best) (pe_RandomBlobs e) 0.

Definition Get (dest : list Z) : M (option PathEntry) := gets (λ n, paths n !! dest).

Definition Has (dest : list Z) : M bool :=
  let* e := Get dest in let* t := now in
  mret (match e with Some e => t <? pe_Expires e | None => false end).

(** [PathTable.Hops]. *)
Definition HopsTo (dest : list Z) : M Z :=
  let* e := Get dest in mret (match e with Some e => pe_Hops e | None => -1 end).

Definition NextHopInterface (dest : list Z) : M (list Z) :=
  let* e := Get dest in mret (match e with Some e => pe_Iface e | None => [] end).

Definition Put (e : PathEntry) : M unit := modify (λ n, n <| paths ::= <[pe_DestHash e := e]> |>).

Definition Remove (dest : list Z) : M unit := modify (λ n, n <| paths ::= delete dest |>).

(** [entry.Timestamp = now] on the entry in the table. *)
Definition touch (dest : list Z) : M unit :=
  let* t := now in modify (λ n, n <| paths ::= alter (λ e, e <| pe_Timestamp := t |>) dest |>).

Definition Expire (t : Z) : M unit :=
  modify (λ n, n <| paths ::= filter (λ '(_, e), ¬ pe_Expires e + pathTTL n < t) |>).

(** ** Local destinations and known identities *)

(** A node before it has heard or sent anything; [None] is a refused configuration. *)
Definition New `{!Crypto} (id : option Identity) (forwardFrom : gset (list Z)) (ttl : Z) (callback : bool) : option Node :=
  id ← id;
  if negb (HasPrivateKey id) then None
  else
    let ttl := if ttl <=? 0 then PathfinderE * Second else ttl in
    Some (MkNode id (IdentityHash id) forwardFrom ttl callback ∅ ∅ ∅ ∅ ∅ ∅ ∅ ∅ ∅ ∅ ∅ ∅ ∅ ∅ ∅ ∅ ∅ ∅ ∅ ∅ ∅ ∅ ∅
            ∅ ∅ ∅ stat_zero 0 0).

(** The destination's hash is set from its identity, the node's own when it names none. *)
Definition AddDestination `{!Crypto} (own : bool) (d : Destination) : M nat :=
  let* self := gets identity in
  let id := if own then self else d_Identity d in
  let d := d <| d_Identity := id |> <| d_Hash := IdentityDestHash id (d_Name d) |> in
  let* p := alloc in
  modify (λ n, n <| dheap ::= <[p := d]> |> <| dests ::= <[d_Hash d := p]> |>) ;; mret p.

Definition RemoveDestination (h : list Z) : M unit := modify (λ n, n <| dests ::= delete h |>).

Definition RegisterRequestHandler (d : nat) (path : list Z) : M unit :=
  modify (λ n, n <| dheap ::= alter (λ d, d <| d_handlers ::= λ l, path :: list_difference l [path] |>) d |>).

Definition find_destination (n : Node) (h : list Z) : option (nat * Destination) :=
  p ← dests n !! h; d ← dheap n !! p; Some (p, d).

Definition LocalDestination (h : list Z) : M (option (nat * Destination)) := gets (λ n, find_destination n h).

Definition Recall (dest : list Z) : M (option KnownIdentity) := gets (λ n, identities n !! dest).

Definition new_identity (dest : list Z) : KnownIdentity := MkKnownIdentity dest [] None [] [] zero_time zero_time.

(** [appData] is [None] for [nil]; the result is whether the key parsed. *)
Definition Remember (dest pub : list Z) (appData : option (list Z)) : M bool :=
  match IdentityFromPublicBytes pub with
  | None => mret false
  | Some id =>
      let* t := now in
      modify (λ n, n <| identities ::= λ m,
        let k := default (new_identity dest) (m !! dest) in
        let k := k <| ki_PublicKey := pub |> <| ki_Identity := Some id |> in
        let k := match appData with Some a => k <| ki_AppData := a |> | None => k end in
        <[dest := k <| ki_LastSeen := t |>]> m |>) ;;
      mret true
  end.

Definition SetIFAC (ifaceID : list Z) (f : option RnsCrypto.IFAC) : M unit :=
  modify (λ n, n <| ifac ::= match f with Some f => <[ifaceID := f]> | None => delete ifaceID end |>).

(** ** Leaf interfaces *)

(** Marking or unmarking forgets what is held about the interface. *)
Definition SetLeaf (ifaceID : list Z) (isLeaf : bool) : M unit :=
  let* cur := gets (λ n, bool_decide (ifaceID ∈ leaf n)) in
  if Bool.eqb cur isLeaf then mret tt
  else modify (λ n, n
    <| leaf ::= λ s, if isLeaf then {[ifaceID]} ∪ s else s ∖ {[ifaceID]} |>
    <| linkTable ::= filter (λ '(_, e), ¬ (le_receivedIface e = ifaceID ∨ le_nextHopIface e = ifaceID)) |>
    <| reverseTable ::= filter (λ '(_, e), ¬ (re_receivedIface e = ifaceID ∨ re_outboundIface e = ifaceID)) |>
    <| announceTable ::= filter (λ '(_, e), ¬ (ae_sourceIface e = ifaceID ∨ ae_attachedIface e = ifaceID)) |>
    <| heldAnnounces ::= filter (λ '(_, e), ¬ (ae_sourceIface e = ifaceID ∨ ae_attachedIface e = ifaceID)) |>
    <| discoveryPRs ::= filter (λ '(_, d), ifaceID ∉ de_requestingIfaces d) |>
    <| paths ::= filter (λ '(_, e), pe_Iface e ≠ ifaceID) |>).

Definition IsLeaf (ifaceID : list Z) : M bool := gets (λ n, bool_decide (ifaceID ∈ leaf n)).

Definition crossesLeaf (in_ out : list Z) : M bool :=
  let* b := gets (λ n, bool_decide (in_ ∈ leaf n ∨ out ∈ leaf n)) in
  when b (count LeafRefused) ;; mret b.

Definition withoutLeaves (ifaces : list (list Z)) : M (list (list Z)) :=
  gets (λ n, filter (λ id, id ∉ leaf n) ifaces).

(** ** Paid links *)

Definition DefaultPaidMinInterval : Z := 5 * 60 * Second.
Definition MaxPaidExtraHops : Z := 32.
Definition paidCrossingGap : Z := 60 * Second.

Definition allows (p : PaidPolicy) (dest : list Z) : bool := bool_decide (dest ∈ pp_Dests p).

Definition SetPaidPolicy (ifaceID : list Z) (p : option PaidPolicy) : M unit :=
  let remove := modify (λ n, n <| paid ::= delete ifaceID |>) in
  match p with
  | None => remove
  | Some p =>
      if (length (pp_Dests p) =? 0)%nat then remove
      else
        let interval := if pp_MinInterval p <=? 0 then DefaultPaidMinInterval else pp_MinInterval p in
        modify (λ n, n <| paid ::= <[ifaceID := MkPaidPolicy (pp_Dests p) interval (pp_Bitrate p) (pp_ExtraHops p)]> |>)
  end.

Definition paidBook (ifaceID dest : list Z) (kind : paidKind) (t : Z) : M bool :=
  let* p := gets (λ n, paid n !! ifaceID) in
  match p with
  | None => mret false
  | Some p =>
      let* last := gets (λ n, paidLast n !! (ifaceID, dest, kind)) in
      if match last with Some last => time_sub t last <? pp_MinInterval p | None => false end
      then count PaidSuppressed ;; mret false
      else modify (λ n, n <| paidLast ::= <[(ifaceID, dest, kind) := t]> |>) ;; count PaidTx ;; mret true
  end.

(** Go's order of strings. *)
Fixpoint bytes_leb (a b : list Z) : bool :=
  match a, b with
  | [], _ => true
  | _ :: _, [] => false
  | x :: a, y :: b => (x <? y) || ((x =? y) && bytes_leb a b)
  end.

Definition bytes_le (a b : list Z) : Prop := bytes_leb a b = true.

#[export] Instance bytes_le_dec : RelDecision bytes_le.
Proof. intros a b. unfold Decision, bytes_le. apply bool_eq_dec. Defined.

Definition sort_strings (l : list (list Z)) : list (list Z) := merge_sort bytes_le l.

(** The loop of [paidTake] over the sorted interfaces. *)
Fixpoint paid_take_loop (ids : list (list Z)) (dest : list Z) (kind : paidKind) : M (list (list Z)) :=
  match ids with
  | [] => mret []
  | id :: ids =>
      let* up := asks (λ e, match e_online e with Some f => f id | None => true end) in
      let* t := now in
      let* ok := (if up then paidBook id dest kind t else mret false : M bool) in
      let* rest := paid_take_loop ids dest kind in
      mret (if ok : bool then id :: rest else rest)
  end.

Definition paidTake (dest : list Z) (kind : paidKind) (except : list Z) : M (list (list Z)) :=
  let* ids := gets (λ n, fst <$> filter (λ ip : list Z * PaidPolicy, ip.1 ≠ except ∧ allows ip.2 dest = true) (map_to_list (paid n))) in
  paid_take_loop (sort_strings ids) dest kind.

Definition paidGate (ifaceID dest : list Z) (kind : paidKind) : M bool :=
  let* p := gets (λ n, paid n !! ifaceID) in
  match p with
  | None => mret true
  | Some p =>
      if negb (allows p dest) then count PaidSuppressed ;; mret false
      else let* t := now in paidBook ifaceID dest kind t
  end.

Definition announceBitrate (ifaceID : list Z) : M Z :=
  let* b := asks (λ e, e_bitrate e ifaceID) in
  if 0 <? b then mret b
  else gets (λ n, match paid n !! ifaceID with Some p => pp_Bitrate p | None => 0 end).

Definition paidExtraHops (ifaceID : list Z) : M Z :=
  gets (λ n, match paid n !! ifaceID with Some p => pp_ExtraHops p | None => 0 end).

(** [PaidPolicyJSON], with the destinations already decoded from hex: [None] is one that is not
    32 hex characters. *)
Definition ParsePaidPolicy (dests : list (option (list Z))) (minIntervalSec bitrate extraHops : Z) : option PaidPolicy :=
  if (minIntervalSec <? 0) || (bitrate <? 0) then None
  else if (extraHops <? 0) || (MaxPaidExtraHops <? extraHops) then None
  else
    ds ← mapM (λ d, d ← d; if (length d =? TruncatedHashLen)%nat then Some d else None) dests;
    Some (MkPaidPolicy (reverse (remove_dups (reverse ds))) (i64 (minIntervalSec * Second)) bitrate extraHops).

Definition noteCrossing (ifaceID raw : list Z) (inbound : bool) : M unit :=
  let* cb := gets crossingCallback in
  let* opened := gets (λ n, is_some (paid n !! ifaceID)) in
  if negb cb || negb opened then mret tt
  else
    match UnmarshalHeader raw with
    | Err _ => mret tt
    | Ok h =>
        if negb (PacketType h =? PacketData) || negb (Context h =? ContextNone) then mret tt
        else
          let k := (ifaceID, DestHash h, inbound) in
          let* t := now in
          let* last := gets (λ n, crossings n !! k) in
          if match last with Some last => time_sub t last <? paidCrossingGap | None => false end then mret tt
          else modify (λ n, n <| crossings ::= <[k := t]> |>) ;;
               emit (OnPaidCrossing ifaceID inbound (DestHash h) (Zlen raw))
    end.

Definition CrossesPaidLink (dest : list Z) : M bool :=
  let* iface := NextHopInterface dest in
  if decide (iface = []) then mret false else gets (λ n, is_some (paid n !! iface)).

(** ** Transmission *)

Section Transmission.
Context `{!Crypto}.

(** What the transmitter is given for a packet on an interface; [None] is a panic. *)
Definition on_wire (n : Node) (ifaceID raw : list Z) : option (list Z) :=
  match ifac n !! ifaceID with
  | Some f => RnsCrypto.Wrap hkdf_read ed_sign f raw
  | None => Some raw
  end.

(** The result is whether the transmitter took the packet. *)
Definition transmit (ifaceID raw : list Z) : M bool :=
  count TxPackets ;;
  let* w := gets (λ n, on_wire n ifaceID raw) in
  let* wire := of_option w in
  emit (Transmit ifaceID wire) ;;
  let* ok := asks (λ e, e_transmit e ifaceID wire) in
  when ok (noteCrossing ifaceID raw false) ;; mret ok.

Definition transmit_ (ifaceID raw : list Z) : M unit := transmit ifaceID raw ;; mret tt.

End Transmission.

End RnsIface.
