(* ===== verification/RnsAnnounce.v ===== *)
(** Announces of a Reticulum node ([internal/rns/announce.go]): learning paths, rebroadcasting as
    a transport node, the announce cap of slow interfaces, and announcing local destinations. *)
From S2P Require Import Prelude Fields Float64 RnsPacket RnsCrypto RnsWire RnsState RnsIface.
Import Fields Float64 RnsPacket RnsWire RnsState RnsIface.

Module RnsAnnounce.

Definition maxRandomBlobs : nat := 64.
Definition leafDisplaceGrace : Z := ReverseTimeoutSec * Second.

(** ** When an announce replaces a path *)

Definition containsBlob (blobs : list (list Z)) (b : list Z) : bool := bool_decide (b ∈ blobs).

(** The loop over the blobs of a path that is shorter than the announced one. *)
Fixpoint path_emitted (emitted acc : Z) (blobs : list (list Z)) : Z :=
  match blobs with
  | [] => acc
  | b :: blobs =>
      let ts := blobTimestamp b in
      let acc := if acc <? ts then ts else acc in
      if emitted <=? acc then acc else path_emitted emitted acc blobs
  end.

Definition path_wanted (t hops emitted : Z) (randomBlob : list Z) (existing : option PathEntry) : bool :=
  if negb (hops <? PathfinderM + 1) then false
  else
    match existing with
    | None => true
    | Some e =>
        let blobs := pe_RandomBlobs e in
        if hops <=? pe_Hops e then negb (containsBlob blobs randomBlob) && (EmittedAt e <? emitted)
        else
          let pathEmitted := path_emitted emitted 0 blobs in
          if negb (t <? pe_Expires e) then negb (containsBlob blobs randomBlob)
          else if pathEmitted <? emitted then negb (containsBlob blobs randomBlob)
          else (emitted =? pathEmitted) && pe_Unresponsive e
    end.

(** A leaf's announce against a live path through another interface. *)
Definition leaf_wanted (t emitted : Z) (e : PathEntry) : bool :=
  (EmittedAt e <? emitted) && (negb (Direct e) || (leafDisplaceGrace <=? time_sub t (pe_Timestamp e))).

Definition should_add (n : Node) (t hops emitted : Z) (randomBlob iface dest : list Z) : bool :=
  let existing := paths n !! dest in
  path_wanted t hops emitted randomBlob existing &&
  match existing with
  | Some e =>
      if bool_decide (iface ∈ leaf n) && bool_decide (pe_Iface e ∉ leaf n) && (t <? pe_Expires e)
      then leaf_wanted t emitted e else true
  | None => true
  end.

(** The blobs kept with the path, the newest last. *)
Definition add_blob (blobs : list (list Z)) (b : list Z) : list (list Z) :=
  if containsBlob blobs b then blobs
  else let blobs := blobs ++ [b] in drop (length blobs - maxRandomBlobs) blobs.

(** ** Receiving *)

(** Another node's rebroadcast of an announce that is held for retransmission. *)
Definition note_rebroadcast (dest : list Z) (hops : Z) : M unit :=
  let* t := now in
  let* e := gets (λ n, announceTable n !! dest) in
  match e with
  | None => mret tt
  | Some e =>
      let same := hops - 1 =? ae_hops e in
      let e' := if same then e <| ae_localRebroadcasts ::= Z.add 1 |> else e in
      let gone := same && (0 <? ae_retries e) && (LocalRebroadcastsMax <=? ae_localRebroadcasts e') in
      let gone' := (hops - 1 =? ae_hops e + 1) && (0 <? ae_retries e) && (t <? ae_retransmitTimeout e) in
      modify (λ n, n <| announceTable ::= if gone || gone' then delete dest else <[dest := e']> |>)
  end.

Definition remember_announce (dest : list Z) (ann : Announce) (t : Z) : M unit :=
  modify (λ n, n <| identities ::= λ m,
    let k := default (new_identity dest) (m !! dest) in
    let k := k <| ki_PublicKey := an_PublicKey ann |>
               <| ki_Identity := IdentityFromPublicBytes (an_PublicKey ann) |>
               <| ki_AppData := an_AppData ann |> in
    let k := if an_ContextFlag ann =? 0 then k
             else k <| ki_Ratchet := an_Ratchet ann |> <| ki_RatchetAt := t |> in
    <[dest := k <| ki_LastSeen := t |>]> m |>).

Section Announcing.
Context `{!Crypto}.

(** The interfaces waiting for a path to [dest] get it as a path response. *)
Fixpoint answer_waiting (ifaces : list (list Z)) (dest : list Z) (ann : Announce) (hops : Z) : M unit :=
  match ifaces with
  | [] => mret tt
  | ifc :: ifaces =>
      let* ok := paidGate ifc dest paidAnnounce in
      let* id := gets idHash in
      when ok (transmit_ ifc (MarshalPacketTransport ann id (u8 hops) ContextPathResponse)) ;;
      answer_waiting ifaces dest ann hops
  end.

(** What an accepted announce changes, and what it sets off. *)
Definition learn_path (pkt : Packet) (ann : Announce) (receivedFrom : list Z) (hops : Z) : M unit :=
  let h := pk_Hdr pkt in
  let dest := DestHash h in
  let* t := now in
  let* fromLeaf := IsLeaf (pk_Iface pkt) in
  let* existing := Get dest in
  let blobs := match existing with Some e => pe_RandomBlobs e | None => [] end in
  let* ttl := gets pathTTL in
  let entry := MkPathEntry dest t receivedFrom hops (t + ttl) (add_blob blobs (an_Random ann)) (pk_Iface pkt)
                 (Some ann) (pk_Hash pkt) false in
  let* jitter := asks e_jitter in
  when (negb (Context h =? ContextPathResponse) && negb fromLeaf)
    (modify (λ n, n <| announceTable ::= <[dest := MkAnnounceEntry t (t + jitter) 0 receivedFrom hops ann
                                                     (pk_Iface pkt) 0 false []]> |>)) ;;
  let* d := gets (λ n, if fromLeaf then None else discoveryPRs n !! dest) in
  when (is_some d) (modify (λ n, n <| discoveryPRs ::= delete dest |>)) ;;
  Put entry ;;
  remember_announce dest ann t ;;
  let* waiters := gets (λ n, default [] (pathWaiters n !! dest)) in
  modify (λ n, n <| pathWaiters ::= delete dest |> <| inflightPRs ::= delete dest |>) ;;
  let* answerOn := withoutLeaves (match d with Some d => de_requestingIfaces d | None => [] end) in
  answer_waiting answerOn dest ann hops ;;
  for_each (λ w, emit (WakeWaiter w)) waiters ;;
  emit (OnPathChanged dest entry) ;;
  emit (OnAnnounce ann pkt).

(** The result is the source's [true]: the packet was an announce. *)
Definition handleAnnounce (pkt : Packet) : M bool :=
  let h := pk_Hdr pkt in
  match UnmarshalAnnouncePayload (Data h) (DestHash h) (Hops h) (ContextFlag h) with
  | None => mret true
  | Some ann =>
      if negb (Verify ann) then mret true
      else
        let ann := ann <| an_Context := Context h |> in
        count AnnouncesRx ;;
        let* local := LocalDestination (DestHash h) in
        if is_some local then mret true
        else
          let* t := now in
          let receivedFrom := if HeaderType h =? HeaderType2 then TransportID h else DestHash h in
          let hops := Hops h in
          let emitted := blobTimestamp (an_Random ann) in
          let* fromLeaf := IsLeaf (pk_Iface pkt) in
          when ((HeaderType h =? HeaderType2) && negb fromLeaf) (note_rebroadcast (DestHash h) hops) ;;
          let* add := gets (λ n, should_add n t hops emitted (an_Random ann) (pk_Iface pkt) (DestHash h)) in
          when add (learn_path pkt ann receivedFrom hops) ;;
          mret true
  end.

(** ** The announce cap *)

(** The pause after [len] bytes at [bitrate], in float64 as the source computes it. *)
Definition cap_wait (len : nat) (bitrate : Z) : Z :=
  let txTime := f64_div (f64_of_Z (Z.of_nat len * 8)) (f64_of_Z bitrate) in
  f64_to_int (f64_mul (f64_div txTime (f64_lit AnnounceCap 100)) (f64_of_Z Second)).

Definition sendAnnounceOn (ifaceID raw : list Z) (t : Z) : M unit :=
  let* bitrate := announceBitrate ifaceID in
  if bitrate <=? 0 then transmit_ ifaceID raw
  else
    let wait := cap_wait (length raw) bitrate in
    let* q := gets (λ n, default (MkAnnounceQueue zero_time [] None) (announceQueue n !! ifaceID)) in
    let put q := modify (λ n, n <| announceQueue ::= <[ifaceID := q]> |>) in
    if (length (aq_pending q) =? 0)%nat && (aq_allowedAt q <? t)
    then put (q <| aq_allowedAt := t + wait |>) ;; transmit_ ifaceID raw
    else if (16 <=? length (aq_pending q))%nat then put q
    else
      let* clock := now in
      let q := q <| aq_pending ::= λ l, l ++ [raw] |> in
      put (match aq_timer q with
           | None => q <| aq_timer := Some (clock + Z.max 0 (aq_allowedAt q - clock)) |>
           | Some _ => q
           end).

(** The timer's callback. *)
Definition flushAnnounceQueue (ifaceID : list Z) : M unit :=
  let* t := now in
  let* bitrate := announceBitrate ifaceID in
  let* q := gets (λ n, announceQueue n !! ifaceID) in
  let put q := modify (λ n, n <| announceQueue ::= <[ifaceID := q]> |>) in
  match q with
  | None => mret tt
  | Some q =>
      match aq_pending q with
      | [] => put (q <| aq_timer := None |>)
      | raw :: rest =>
          let allowedAt := if 0 <? bitrate then t + cap_wait (length raw) bitrate else t in
          put (MkAnnounceQueue allowedAt rest
                 (if (length rest =? 0)%nat then None else Some (t + Z.max 0 (allowedAt - t)))) ;;
          transmit_ ifaceID raw
      end
  end.

(** ** Rebroadcasting *)

(** One announce to send: the packet, the interface it is bound to ([None]: all), the destination
    and the interface it came from. *)
Record outgoing_announce := MkOut {
  oa_raw : list Z;
  oa_iface : option (list Z);
  oa_dest : list Z;
  oa_source : list Z;
}.

(** The first loop, on one entry of the table. *)
Definition due_announce (t : Z) (dest : list Z) (e : announceEntry) : M (option outgoing_announce) :=
  let drop_it := modify (λ n, n <| announceTable ::= delete dest |>) in
  if (0 <? ae_retries e) && (LocalRebroadcastsMax <=? ae_retries e) then drop_it ;; mret None
  else if PathfinderR <? ae_retries e then drop_it ;; mret None
  else if ae_retransmitTimeout e <? t then
    let ctx := if ae_blockRebroadcasts e then ContextPathResponse else ContextNone in
    let* id := gets idHash in
    let raw := MarshalPacketTransport (ae_ann e) id (u8 (ae_hops e)) ctx in
    let o := MkOut raw (if decide (ae_attachedIface e = []) then None else Some (ae_attachedIface e)) dest (ae_sourceIface e) in
    let e' := e <| ae_retransmitTimeout := t + 5500 * Millisecond |> <| ae_retries ::= Z.add 1 |> in
    let* held := gets (λ n, heldAnnounces n !! dest) in
    modify (λ n,
      match held with
      | Some h => n <| heldAnnounces ::= delete dest |> <| announceTable ::= <[dest := h]> |>
      | None => n <| announceTable ::= <[dest := e']> |>
      end) ;;
    mret (Some o)
  else mret None.

Fixpoint due_announces (t : Z) (l : list (list Z * announceEntry)) : M (list outgoing_announce) :=
  match l with
  | [] => mret []
  | (dest, e) :: l =>
      let* o := due_announce t dest e in
      let* os := due_announces t l in
      mret (match o with Some o => o :: os | None => os end)
  end.

(** The second loop, on one announce. *)
Definition send_announce (t : Z) (o : outgoing_announce) : M unit :=
  let* ifaces :=
    match oa_iface o with
    | None =>
        let* flood := asks e_floodable in
        let* paid := paidTake (oa_dest o) paidAnnounce (oa_source o) in
        let* ids := withoutLeaves (flood ++ paid) in
        mret (Some ids)
    | Some id =>
        let* isLeaf := IsLeaf id in
        if isLeaf then mret None
        else
          let* ok := paidGate id (oa_dest o) paidAnnounce in
          mret (if ok then Some [id] else None)
    end in
  match ifaces with
  | None => mret tt
  | Some ifaces =>
      for_each (λ id, sendAnnounceOn id (oa_raw o) t) ifaces ;;
      count AnnouncesTx
  end.

Definition processAnnounceTable (t : Z) : M unit :=
  let* l := range announceTable in
  let* out := due_announces t l in
  for_each (send_announce t) out.

(** ** Announcing a local destination *)

(** The result is [false] when the random source failed. *)
Definition AnnounceDest (d : Destination) (ifaceID : list Z) (pathResponse : bool) : M bool :=
  let* appData := asks (λ e, e_appData e (d_Hash d)) in
  let* t := now in
  let* random := draw 5 in
  match random with
  | None => mret false
  | Some random =>
      let* ann := of_option (NewAnnounce (d_Identity d) (d_Name d) appData random t) in
      let ann := if pathResponse then ann <| an_Context := ContextPathResponse |> else ann in
      let raw := MarshalPacket ann in
      if decide (ifaceID = []) then
        let* flood := asks e_floodable in
        let* paid := paidTake (d_Hash d) paidAnnounce [] in
        for_each (λ id, sendAnnounceOn id raw t) (flood ++ paid) ;;
        count AnnouncesTx ;; mret true
      else
        let* ok := paidGate ifaceID (d_Hash d) paidAnnounce in
        if negb ok then mret true
        else sendAnnounceOn ifaceID raw t ;; count AnnouncesTx ;; mret true
  end.

End Announcing.

End RnsAnnounce.
