(* ===== verification/RnsPathReq.v ===== *)
(** Path requests of a Reticulum node ([internal/rns/pathreq.go]).

    [RequestPath] blocks; it is two steps here, [RequestPath] up to the wait and
    [RequestPath_end] after it, the channel being the waiter's number. *)
From S2P Require Import Prelude Fields RnsPacket RnsCrypto RnsWire RnsState RnsIface RnsAnnounce.
Import Fields RnsPacket RnsWire RnsState RnsIface RnsAnnounce.

Module RnsPathReq.

Definition contains (l : list (list Z)) (s : list Z) : bool := bool_decide (s ∈ l).

Definition add_iface (iface : list Z) (d : discoveryEntry) : discoveryEntry :=
  if contains (de_requestingIfaces d) iface then d
  else d <| de_requestingIfaces ::= λ l, l ++ [iface] |>.

Definition resolveInflight (dest : list Z) : M unit := modify (λ n, n <| inflightPRs ::= delete dest |>).

Definition expireDiscovery (t : Z) : M unit :=
  modify (λ n,
    let gone := filter (λ '(_, d), de_timeout d < t) (discoveryPRs n) in
    n <| discoveryPRs ::= filter (λ '(_, d), ¬ de_timeout d < t) |>
      <| inflightPRs ::= λ m, filter (λ '(k, at_), ¬ at_ + PathRequestTimeoutSec * Second < t ∧ gone !! k = None) m |>).

(** The destination, the requestor and the tag of a path request's data; [None] is a request
    without a tag. *)
Definition parse_path_request (data : list Z) : option (list Z * option (list Z) * list Z) :=
  let dest := take TruncatedHashLen data in
  if (length data <? TruncatedHashLen)%nat then None
  else if (2 * TruncatedHashLen <? length data)%nat
  then Some (dest, Some (sub TruncatedHashLen (2 * TruncatedHashLen) data),
             take TruncatedHashLen (drop (2 * TruncatedHashLen) data))
  else if (TruncatedHashLen <? length data)%nat
  then Some (dest, None, take TruncatedHashLen (drop TruncatedHashLen data))
  else None.

(** [copy] into a zeroed array of 16 bytes. *)
Definition pad16 (b : list Z) : list Z := take TruncatedHashLen (b ++ replicate TruncatedHashLen 0).

Section Requests.
Context `{!Crypto}.

Definition sendPathRequest (dest ifaceID tag : list Z) : M unit :=
  let* id := gets idHash in
  transmit_ ifaceID (Marshal (MkHeader HeaderType1 0 TransportBroadcast DestPlain PacketData 0
    (replicate TruncatedHashLen 0) PathRequestDestHash ContextNone (dest ++ id ++ tag))).

(** A request heard on a leaf: answered for a local destination only. *)
Definition leaf_path_request (iface dest : list Z) : M unit :=
  let* local := LocalDestination dest in
  match local with
  | None => count LeafRefused
  | Some (_, d) => AnnounceDest d iface true ;; mret tt
  end.

(** A known path: the announce is queued as a path response. *)
Definition answer_known (iface dest : list Z) (requestor : option (list Z)) (e : PathEntry) (ann : Announce) : M unit :=
  if bool_decide (requestor = Some (pe_NextHop e)) then resolveInflight dest
  else
    let* crosses := crossesLeaf iface (pe_Iface e) in
    if crosses then resolveInflight dest
    else
      let* t := now in
      modify (λ n,
        match announceTable n !! dest with
        | Some held => if ae_blockRebroadcasts held then n else n <| heldAnnounces ::= <[dest := held]> |>
        | None => n
        end) ;;
      modify (λ n, n <| announceTable ::= <[dest := MkAnnounceEntry t (t + 400 * Millisecond) PathfinderR
                                                     (pe_NextHop e) (pe_Hops e) ann [] 0 true iface]> |>) ;;
      resolveInflight dest.

(** An unknown path: searched on every other interface with the same tag. *)
Definition discover (iface dest tag : list Z) : M unit :=
  let* t := now in
  let* d := gets (λ n, discoveryPRs n !! dest) in
  let put d := modify (λ n, n <| discoveryPRs ::= <[dest := add_iface iface d]> |>) in
  match d with
  | Some (MkDiscoveryEntry _ _ true as d) => put d
  | _ =>
      let d := default (MkDiscoveryEntry zero_time [] false) d in
      put (d <| de_timeout := t + PathRequestTimeoutSec * Second |> <| de_engaged := true |>) ;;
      let* flood := asks e_floodable in
      let* paid := paidTake dest paidPathRequest iface in
      let* ids := withoutLeaves (flood ++ paid) in
      for_each (λ id, if decide (id = iface) then mret tt else sendPathRequest dest id (pad16 tag)) ids
  end.

Definition handlePathRequest (pkt : Packet) : M unit :=
  match parse_path_request (Data (pk_Hdr pkt)) with
  | None => mret tt
  | Some (dest, requestor, tag) =>
      let iface := pk_Iface pkt in
      let unique := dest ++ pad16 tag in
      let* seen := gets (λ n, bool_decide (unique ∈ prTags n ∨ unique ∈ prTagsPrev n)) in
      if seen then mret tt
      else
        modify (λ n, n <| prTags ::= union {[unique]} |>) ;;
        count PathRequestsRx ;;
        let* fromLeaf := IsLeaf iface in
        if fromLeaf then leaf_path_request iface dest
        else
          let* t := now in
          let* inflight := gets (λ n, is_some (inflightPRs n !! dest)) in
          if inflight then
            modify (λ n, n <| discoveryPRs ::= λ m,
              let d := default (MkDiscoveryEntry (t + PathRequestTimeoutSec * Second) [] false) (m !! dest) in
              <[dest := add_iface iface d]> m |>)
          else
            modify (λ n, n <| inflightPRs ::= <[dest := t]> |>) ;;
            let* local := LocalDestination dest in
            match local with
            | Some (_, d) => AnnounceDest d iface true ;; resolveInflight dest
            | None =>
                let* e := Get dest in
                match e with
                | Some (MkPathEntry _ _ _ _ _ _ _ (Some ann) _ _ as e) => answer_known iface dest requestor e ann
                | _ => discover iface dest tag
                end
            end
  end.

(** [None]: a path is known; otherwise the waiter that an announce wakes. *)
Definition RequestPath (dest : list Z) : M (option nat) :=
  let* known := Has dest in
  if known then mret None
  else
    let* w := alloc in
    let* t := now in
    modify (λ n, n <| pathWaiters ::= λ m, <[dest := default [] (m !! dest) ++ [w]]> m |>
                   <| pathRequests ::= <[dest := t]> |>) ;;
    let* tag := draw_ TruncatedHashLen in
    let* flood := asks e_floodable in
    let* paid := paidTake dest paidPathRequest [] in
    for_each (λ id, sendPathRequest dest id tag) (flood ++ paid) ;;
    mret (Some w).

(** After a timeout or a cancelled context. *)
Definition RequestPath_end (dest : list Z) (w : nat) : M bool :=
  modify (λ n, n <| pathWaiters ::= alter (λ ws, list_difference ws [w]) dest |>) ;;
  Has dest.

End Requests.

End RnsPathReq.
