(* ===== verification/RnsForward.v ===== *)
(** Packets in transport and packets of the node's own: the link, reverse and path tables of a
    transport node ([internal/rns/transport.go]), local origination ([outbound.go]) and the
    receipts of proven packets ([receipts.go]). *)
From S2P Require Import Prelude Fields RnsPacket RnsCrypto RnsWire RnsState RnsIface.
Import Fields RnsPacket RnsWire RnsState RnsIface.

Module RnsForward.

Section Forwarding.
Context `{!Crypto}.

(** ** In transport *)

(** The link MTU signalled in a link request, clamped to both interfaces, in the forwarded
    packet [out]. *)
Definition clamp_mtu (data out : list Z) (nhMTU phMTU : Z) : list Z :=
  if negb (length data =? LinkECPubSize + LinkMTUSize)%nat then out
  else
    let '(pathMTU, mode) := ParseSignalling (drop LinkECPubSize data) in
    let body := take (length out - LinkMTUSize) out in
    if nhMTU =? 0 then body
    else
      let m := if nhMTU <? pathMTU then nhMTU else pathMTU in
      let m := if (0 <? phMTU) && (phMTU <? m) then phMTU else m in
      if m =? pathMTU then out else body ++ SignallingBytes m mode.

Definition new_link_entry (t : Z) (e : PathEntry) (pkt : Packet) : linkEntry :=
  MkLinkEntry t (pe_NextHop e) (pe_Iface e) (pe_Hops e) (pk_Iface pkt) (Hops (pk_Hdr pkt))
    (DestHash (pk_Hdr pkt)) false (t + DefaultPerHopTimeoutSec * Z.max 1 (pe_Hops e) * Second).

(** [false] when no path is known. *)
Definition forwardTransport (pkt : Packet) : M bool :=
  let h := pk_Hdr pkt in
  let* entry := Get (DestHash h) in
  match entry with
  | None => mret false
  | Some e =>
      let* crosses := crossesLeaf (pk_Iface pkt) (pe_Iface e) in
      if crosses then mret true
      else
        let* t := now in
        let out := if negb (Direct e) then RewriteForTransport (pk_Raw pkt) (pe_NextHop e)
                   else StripTransport (pk_Raw pkt) in
        let out := <[1%nat := Hops h]> out in
        let send out :=
          touch (DestHash h) ;; count Forwarded ;; transmit_ (pe_Iface e) out ;; mret true in
        if PacketType h =? PacketLinkRequest then
          let* nhMTU := asks (λ env, e_hwmtu env (pe_Iface e)) in
          let* phMTU := asks (λ env, e_hwmtu env (pk_Iface pkt)) in
          let out := clamp_mtu (Data h) out nhMTU phMTU in
          match LinkIDFromRequestPacket (pk_Raw pkt) with
          | None => mret true
          | Some linkID =>
              modify (λ n, n <| linkTable ::= <[linkID := new_link_entry t e pkt]> |>) ;; send out
          end
        else
          modify (λ n, n <| reverseTable ::=
            <[TruncatedHash pkt := MkReverseEntry (pk_Iface pkt) (pe_Iface e) t]> |>) ;; send out
  end.

(** The extension for bearers whose peers cannot address a transport. *)
Definition forwardHeader1 (pkt : Packet) : M bool :=
  let h := pk_Hdr pkt in
  let* from := gets (λ n, bool_decide (pk_Iface pkt ∈ forwardHeader1From n)) in
  let* entry := Get (DestHash h) in
  match entry with
  | Some e =>
      if negb from || bool_decide (pe_Iface e = pk_Iface pkt) then mret false
      else
        let* crosses := crossesLeaf (pk_Iface pkt) (pe_Iface e) in
        if crosses then mret true
        else
          let* t := now in
          let out := if negb (Direct e) then RewriteForTransport (pk_Raw pkt) (pe_NextHop e) else pk_Raw pkt in
          let out := <[1%nat := Hops h]> out in
          (if PacketType h =? PacketLinkRequest then
             match LinkIDFromRequestPacket (pk_Raw pkt) with
             | Some linkID => modify (λ n, n <| linkTable ::= <[linkID := new_link_entry t e pkt]> |>)
             | None => mret tt
             end
           else modify (λ n, n <| reverseTable ::=
                  <[TruncatedHash pkt := MkReverseEntry (pk_Iface pkt) (pe_Iface e) t]> |>)) ;;
          count Forwarded ;; transmit_ (pe_Iface e) out ;; mret true
  | None => mret false
  end.

(** The interface a packet of a carried link goes out on. *)
Definition transit_iface (e : linkEntry) (iface : list Z) (hops : Z) : option (list Z) :=
  if decide (le_nextHopIface e = le_receivedIface e) then
    if (hops =? le_remainingHops e) || (hops =? le_takenHops e) then Some (le_nextHopIface e) else None
  else if decide (iface = le_nextHopIface e) then
    if hops =? le_remainingHops e then Some (le_receivedIface e) else None
  else if decide (iface = le_receivedIface e) then
    if hops =? le_takenHops e then Some (le_nextHopIface e) else None
  else None.

Definition linkTransit (pkt : Packet) : M bool :=
  let h := pk_Hdr pkt in
  let* e := gets (λ n, linkTable n !! DestHash h) in
  match e with
  | None => mret false
  | Some e =>
      if negb (le_validated e) then mret true
      else
        match transit_iface e (pk_Iface pkt) (Hops h) with
        | None | Some [] => mret true
        | Some out =>
            let* t := now in
            modify (λ n, n <| hashlist ::= union {[pk_Hash pkt]} |>
                           <| linkTable ::= alter (λ e, e <| le_timestamp := t |>) (DestHash h) |>) ;;
            count LinkTransit ;; transmit_ out (pk_Raw pkt) ;; mret true
        end
  end.

(** Whether a link proof is signed by the destination of the carried link. *)
Definition transit_proof_valid (h : Header) (known : option KnownIdentity) : bool :=
  match UnmarshalRNSLinkProof (Data h), known ≫= ki_Identity with
  | Some lp, Some id =>
      let signed := LinkProofSignedData (DestHash h) (lp_EphPub lp) (signingPub id) (lp_MTU lp) (lp_Mode lp) in
      let signed := if lp_Signalled lp then signed else take (length signed - LinkMTUSize) signed in
      VerifySignature ed_verify (signingPub id) signed (lp_Signature lp)
  | _, _ => false
  end.

(** [false] when the proof is not for a carried link. *)
Definition lrProofTransit (pkt : Packet) : M bool :=
  let h := pk_Hdr pkt in
  let* e := gets (λ n, linkTable n !! DestHash h) in
  match e with
  | None => mret false
  | Some e =>
      if negb (Hops h =? le_remainingHops e) || negb (bool_decide (pk_Iface pkt = le_nextHopIface e)) then mret true
      else
        let* known := gets (λ n, identities n !! le_destHash e) in
        if negb (transit_proof_valid h known) then mret true
        else
          let* t := now in
          modify (λ n, n <| linkTable ::=
            alter (λ e, e <| le_validated := true |> <| le_timestamp := t |>) (DestHash h) |>) ;;
          transmit_ (le_receivedIface e) (pk_Raw pkt) ;; mret true
  end.

Definition proofTransit (pkt : Packet) : M unit :=
  let h := pk_Hdr pkt in
  let* e := gets (λ n, reverseTable n !! DestHash h) in
  match e with
  | None => mret tt
  | Some e =>
      modify (λ n, n <| reverseTable ::= delete (DestHash h) |>) ;;
      if bool_decide (pk_Iface pkt = re_outboundIface e) then transmit_ (re_receivedIface e) (pk_Raw pkt) else mret tt
  end.

Definition link_entry_expired (t : Z) (e : linkEntry) : bool :=
  (negb (le_validated e) && (le_proofTimeout e <? t)) || (le_timestamp e + LinkTimeoutSec * Second <? t).

Definition expireTables (t : Z) : M unit :=
  modify (λ n, n
    <| reverseTable ::= filter (λ '(_, e), ¬ re_timestamp e + ReverseTimeoutSec * Second < t) |>
    <| linkTable ::= filter (λ '(_, e), link_entry_expired t e = false) |>) ;;
  Expire t.

(** ** Receipts *)

Definition addReceipt (r : Receipt) : M unit := modify (λ n, n <| receipts ::= <[rc_Hash r := r]> |>).

(** The outstanding receipts a proof may be for, in the order they are tried. *)
Definition proof_candidates (h : Header) (all : list Receipt) (n : Node) : list Receipt :=
  let data := Data h in
  if (length data =? ExplicitProofLen)%nat then option_list (receipts n !! take FullHashLen data)
  else if (length data =? ImplicitProofLen)%nat then
    reverse (filter (λ r, take TruncatedHashLen (rc_Hash r) = DestHash h) all)
    ++ filter (λ r, rc_Dest r = DestHash h ∨ DestType h = DestLink) all
  else [].

Fixpoint try_receipts (data : list Z) (l : list Receipt) : option Receipt :=
  match l with
  | [] => None
  | r :: l =>
      match rc_sigPub r with
      | None => try_receipts data l
      | Some pub => if is_ok (ValidateProof ed_verify data (rc_Hash r) pub) then Some r else try_receipts data l
      end
  end.

Definition handleReceiptProof (pkt : Packet) : M unit :=
  let h := pk_Hdr pkt in
  let* all := range receipts in
  let* cands := gets (proof_candidates h (snd <$> all)) in
  match try_receipts (Data h) cands with
  | None => mret tt
  | Some r =>
      let* t := now in
      modify (λ n, n <| receipts ::= delete (rc_Hash r) |>) ;;
      (match rc_link r with
       | Some l => modify (λ n, n <| lheap ::= alter (λ l, l <| l_lastProof := t |>) l |>)
       | None => mret tt
       end) ;;
      emit (ReceiptDone (rc_Hash r) true (time_sub t (rc_SentAt r)))
  end.

Definition expireReceipts (t : Z) : M unit :=
  let* all := range receipts in
  let expired := filter (λ r, rc_Timeout r < t) (snd <$> all) in
  modify (λ n, n <| receipts ::= filter (λ '(_, r), ¬ rc_Timeout r < t) |>) ;;
  for_each (λ r, emit (ReceiptDone (rc_Hash r) false 0)) expired.

(** ** Local origination *)

(** The interfaces used; [None] is an error. *)
Definition outbound (raw dest : list Z) (destType : Z) : M (option (list (list Z))) :=
  match UnmarshalHeader raw with
  | Err _ => mret None
  | Ok hdr =>
      let* t := now in
      let* e := Get dest in
      let routed := negb (PacketType hdr =? PacketAnnounce) && negb (destType =? DestPlain) && negb (destType =? DestGroup) in
      match e with
      | Some e =>
          if routed && (t <? pe_Expires e) then
            touch dest ;;
            let* ok := transmit (pe_Iface e) (if negb (Direct e) then RewriteForTransport raw (pe_NextHop e) else raw) in
            mret (if ok then Some [pe_Iface e] else None)
          else
            let* ifaces := asks e_floodable in
            if (length ifaces =? 0)%nat then mret None
            else for_each (λ id, transmit_ id raw) ifaces ;; mret (Some ifaces)
      | None =>
          let* ifaces := asks e_floodable in
          if (length ifaces =? 0)%nat then mret None
          else for_each (λ id, transmit_ id raw) ifaces ;; mret (Some ifaces)
      end
  end.

(** The ratchet key an announce carried, for thirty days. *)
Definition fresh_ratchet (t : Z) (k : KnownIdentity) : option (list Z) :=
  if (length (ki_Ratchet k) =? RatchetKeyLen)%nat && (t <? ki_RatchetAt k + 30 * 24 * 3600 * Second)
  then Some (ki_Ratchet k) else None.

(** [None] is an error; [Some None] a packet sent without a receipt. *)
Definition SendData (dest plaintext : list Z) (wantReceipt : bool) : M (option (option Receipt)) :=
  let* k := Recall dest in
  match k, k ≫= ki_Identity with
  | Some k, Some id =>
      if EncryptedMDU <? Zlen plaintext then mret None
      else
        let* t := now in
        let* eph := draw 32 in
        let* iv := draw 16 in
        let* res := of_option (RnsCrypto.IdentityEncrypt hkdf_read sha256 cbc_encrypt hmac x25519_pub ecdh
                                 (crypt_identity id) plaintext (fresh_ratchet t k) eph iv) in
        match res with
        | Err _ => mret None
        | Ok ct =>
            let raw := Marshal (MkHeader HeaderType1 0 0 DestSingle PacketData 0 (replicate TruncatedHashLen 0)
                                  dest ContextNone ct) in
            let* hops := HopsTo dest in
            let r := MkReceipt (PacketHash sha256 raw) dest t
                       (t + DefaultPerHopTimeoutSec * Z.max 1 hops * Second + 6 * Second)
                       (Some (signingPub id)) None in
            when wantReceipt (addReceipt r) ;;
            let* sent := outbound raw dest DestSingle in
            match sent with
            | Some _ => mret (Some (if wantReceipt then Some r else None))
            | None =>
                when wantReceipt (modify (λ n, n <| receipts ::= delete (rc_Hash r) |>)) ;; mret None
            end
        end
  | _, _ => mret None
  end.

(** The result is whether the packet went out. *)
Definition SendRaw (raw dest : list Z) (destType : Z) : M bool :=
  let* sent := outbound raw dest destType in mret (is_some sent).

End Forwarding.

End RnsForward.
