(* ===== verification/RnsLink.v ===== *)
(** Links of a Reticulum node ([internal/rns/link.go]): the keys and packets of a link, sending,
    tearing down, and the sending half of resources ([resource.go]) and requests ([request.go]). *)
From S2P Require Import Prelude Fields Float64 Msgpack RnsPacket RnsCrypto RnsWire RnsState RnsIface RnsForward.
Import Fields Float64 RnsPacket RnsWire RnsState RnsIface RnsForward.

Module RnsLink.

(** ** One link *)

(** A pointer to a link that is nil panics. *)
Definition link (p : nat) : M Link := let* l := gets (λ n, lheap n !! p) in of_option l.

Definition set_link (p : nat) (f : Link → Link) : M unit := modify (λ n, n <| lheap ::= alter f p |>).

(** [Duration.Seconds]. *)
Definition seconds (d : Z) : float64 :=
  f64_add (f64_of_Z (Z.quot d Second)) (f64_div (f64_of_Z (Z.rem d Second)) (f64_of_Z Second)).

Definition updateKeepalive (l : Link) : Link :=
  let ka := f64_to_int (f64_mul (f64_of_Z (l_rtt l)) (f64_lit (360 * 4) 7)) in
  let ka := if KeepaliveMaxSec * Second <? ka then KeepaliveMaxSec * Second else ka in
  let ka := if ka <? KeepaliveMinSec * Second then KeepaliveMinSec * Second else ka in
  l <| l_keepalive := ka |> <| l_staleTime := 2 * ka |>.

Definition sendable (s : LinkState) : bool :=
  match s with LinkActive | LinkStale => true | _ => false end.

Section Links.
Context `{!Crypto}.

(** [Link.Encrypt]; [None] is its error. *)
Definition LinkEncrypt (l : Link) (plain : list Z) : M (option (list Z)) :=
  match l_token l with
  | None => mret None
  | Some tok =>
      let* iv := draw 16 in
      mret (match RnsCrypto.TokenEncrypt cbc_encrypt hmac tok iv plain with Ok ct => Some ct | Err _ => None end)
  end.

(** [l.token.Encrypt], which panics without a key. *)
Definition token_encrypt (l : Link) (plain : list Z) : M (option (list Z)) :=
  of_option (l_token l) ;; LinkEncrypt l plain.

Definition LinkDecrypt (l : Link) (ct : list Z) : option (list Z) :=
  tok ← l_token l;
  match RnsCrypto.TokenDecrypt cbc_decrypt hmac tok ct with Ok pt => Some pt | Err _ => None end.

Definition link_packet (l : Link) (ptype context : Z) (data : list Z) : list Z :=
  Marshal (MkHeader HeaderType1 0 0 DestLink ptype 0 (replicate TruncatedHashLen 0) (l_ID l) context data).

Definition sendLinkPacket (p : nat) (ptype context : Z) (data : list Z) : M (list Z) :=
  let* l := link p in
  let* t := now in
  let raw := link_packet l ptype context data in
  set_link p (λ l,
    let l := l <| l_lastOutbound := t |> in
    if context =? ContextKeepalive then l <| l_lastKeepalive := t |> else l) ;;
  transmit_ (l_Iface l) raw ;; mret raw.

Definition send_link_packet (p : nat) (ptype context : Z) (data : list Z) : M unit :=
  sendLinkPacket p ptype context data ;; mret tt.

(** Encrypt and send; nothing is sent when encryption fails. *)
Definition send_encrypted (p : nat) (context : Z) (plain : list Z) : M unit :=
  let* l := link p in
  let* ct := LinkEncrypt l plain in
  match ct with
  | Some ct => send_link_packet p PacketData context ct
  | None => mret tt
  end.

(** ** Closing *)

Definition failAllRequests (p : nat) : M unit :=
  let* l := link p in
  let* ids := asks (λ e, e_order e _ (elements (l_requests l))) in
  set_link p (λ l, l <| l_requests := ∅ |>) ;;
  for_each (λ id, emit (RequestDone id None)) ids.

Definition closed (p : nat) : M unit :=
  failAllRequests p ;;
  let* l := link p in
  modify (λ n, n <| activeLinks ::= delete (l_ID l) |> <| pendingLinks ::= delete (l_ID l) |>) ;;
  emit (OnLinkClosed p).

Definition Teardown (p : nat) : M unit :=
  let* l := link p in
  if decide (l_state l = LinkClosed) then mret tt
  else
    (if sendable (l_state l) then
       of_option (l_token l) ;; send_encrypted p ContextLinkClose (l_ID l)
     else mret tt) ;;
    set_link p (λ l, l <| l_state := LinkClosed |>) ;;
    closed p.

(** ** Opening and using a link *)

(** The pointer to the new link, [None] on an error. *)
Definition Initiate (dest : list Z) : M (option nat) :=
  let* k := Recall dest in
  match k ≫= ki_Identity with
  | None => mret None
  | Some id =>
      let* prv := draw 32 in
      match prv with
      | None => mret None
      | Some prv =>
          let* seed := draw 32 in
          match seed with
          | None => mret None
          | Some seed =>
              let sigPrv := ed_from_seed seed in
              let* ifc := NextHopInterface dest in
              let* hw := asks (λ e, if decide (ifc = []) then 0 else e_hwmtu e ifc) in
              let mtu := if (0 <? hw) && (hw <? MTU) then hw else MTU in
              let lr := MkLinkRequest (x25519_pub prv) (ed_public sigPrv) mtu LinkModeAES256CBC true in
              let raw := Marshal (MkHeader HeaderType1 0 0 DestSingle PacketLinkRequest 0
                           (replicate TruncatedHashLen 0) dest ContextNone (MarshalLinkRequest lr)) in
              match LinkIDFromRequestPacket raw with
              | None => mret None
              | Some lid =>
                  let* hops := HopsTo dest in
                  let hops := Z.max 1 hops in
                  let* t := now in
                  let* p := alloc in
                  let l := MkLink lid dest true [] LinkPending prv sigPrv None (Some (signingPub id)) [] None
                             mtu (LinkMDU mtu) 0 (KeepaliveMaxSec * Second) (2 * KeepaliveMaxSec * Second) t
                             (DefaultPerHopTimeoutSec * hops * Second + 6 * Second) zero_time zero_time zero_time
                             zero_time zero_time zero_time hops None None (Some id) false ∅ ∅ ∅ in
                  modify (λ n, n <| lheap ::= <[p := l]> |> <| pendingLinks ::= <[lid := p]> |>) ;;
                  let* ifaces := outbound raw dest DestSingle in
                  match ifaces with
                  | None => modify (λ n, n <| pendingLinks ::= delete lid |>) ;; mret None
                  | Some ifaces =>
                      set_link p (λ l, (match ifaces with [i] => l <| l_Iface := i |> | _ => l end)
                                         <| l_lastOutbound := t |>) ;;
                      mret (Some p)
                  end
              end
          end
      end
  end.

(** Answer a link request for the local destination [dp]. *)
Definition accept (dp : nat) (d : Destination) (pkt : Packet) : M unit :=
  let h := pk_Hdr pkt in
  if negb (d_AcceptLinks d) then mret tt
  else
    match UnmarshalRNSLinkRequest (Data h), LinkIDFromRequestPacket (pk_Raw pkt) with
    | Some lr, Some lid =>
        let* hw := asks (λ e, e_hwmtu e (pk_Iface pkt)) in
        let mtu := if lr_Signalled lr
                   then (if (0 <? hw) && (hw <? lr_MTU lr) then hw else lr_MTU lr)
                   else MTU in
        let* prv := draw 32 in
        match prv ≫= λ prv, pair prv <$> ecdh prv (lr_EphPub lr) with
        | None => mret tt
        | Some (prv, shared) =>
            let* key := of_option (DeriveLinkKey shared lid) in
            let tok := match RnsCrypto.NewToken key with Ok t => Some t | Err _ => None end in
            let* t := now in
            let* p := alloc in
            let l := MkLink lid (d_Hash d) false (pk_Iface pkt) LinkHandshake prv
                       (default [] (signingKey (d_Identity d))) (Some (lr_EphPub lr)) (Some (lr_EphSigPub lr)) key tok
                       mtu (LinkMDU mtu) 0 (KeepaliveMaxSec * Second) (2 * KeepaliveMaxSec * Second) t
                       (DefaultPerHopTimeoutSec * Z.max 1 (Hops h) * Second + 6 * Second) zero_time zero_time t
                       zero_time zero_time zero_time 0 None (Some dp) None (d_AcceptResources d) ∅ ∅ ∅ in
            modify (λ n, n <| lheap ::= <[p := l]> |> <| activeLinks ::= <[lid := p]> |>) ;;
            let signed := LinkProofSignedData lid (x25519_pub prv) (signingPub (d_Identity d)) mtu LinkModeAES256CBC in
            let* sig := of_option (Sign (d_Identity d) signed) in
            let lp := MkLinkProof sig (x25519_pub prv) mtu LinkModeAES256CBC true in
            transmit_ (pk_Iface pkt) (Marshal (MkHeader HeaderType1 0 0 DestLink PacketProof 0
              (replicate TruncatedHashLen 0) lid ContextLRProof (MarshalLinkProof lp)))
        end
    | _, _ => mret tt
    end.

(** Whether a link proof is signed by the destination's identity. *)
Definition proof_signed (l : Link) (id : Identity) (lp : RNSLinkProof) : bool :=
  let signed := LinkProofSignedData (l_ID l) (lp_EphPub lp) (signingPub id) (lp_MTU lp) (lp_Mode lp) in
  let signed := if lp_Signalled lp then signed else take (length signed - LinkMTUSize) signed in
  VerifySignature ed_verify (signingPub id) signed (lp_Signature lp).

(** The proof of one of the node's pending links. *)
Definition handleProof (pkt : Packet) : M unit :=
  let h := pk_Hdr pkt in
  let* p := gets (λ n, pendingLinks n !! DestHash h) in
  match p, UnmarshalRNSLinkProof (Data h) with
  | Some p, Some lp =>
      if negb (lp_Mode lp =? LinkModeAES256CBC) then mret tt
      else
        let* l := link p in
        if negb (bool_decide (l_state l = LinkPending)) then mret tt
        else
          let* id := of_option (l_destIdentity l) in
          if negb (proof_signed l id lp) then mret tt
          else
            match ecdh (l_prv l) (lp_EphPub lp) with
            | None => mret tt
            | Some shared =>
                let* key := of_option (DeriveLinkKey shared (l_ID l)) in
                let* tok := of_option (match RnsCrypto.NewToken key with Ok t => Some t | Err _ => None end) in
                let mtu := if lp_Signalled lp then lp_MTU lp else MTU in
                let* t := now in
                set_link p (λ l, updateKeepalive (l
                  <| l_peerPub := Some (lp_EphPub lp) |> <| l_key := key |> <| l_token := Some tok |>
                  <| l_mtu := mtu |> <| l_mdu := LinkMDU mtu |> <| l_rtt := time_sub t (l_requestTime l) |>
                  <| l_Iface := pk_Iface pkt |> <| l_state := LinkActive |> <| l_activatedAt := t |>
                  <| l_lastProof := t |> <| l_lastInbound := t |>)) ;;
                modify (λ n, n <| pendingLinks ::= delete (l_ID l) |> <| activeLinks ::= <[l_ID l := p]> |>) ;;
                let* l := link p in
                send_encrypted p ContextLRRTT (RTTData (seconds (l_rtt l))) ;;
                emit (OnEstablished p)
            end
  | _, _ => mret tt
  end.

(** The receipt's hash; [None] is an error. *)
Definition Send (p : nat) (plain : list Z) : M (option (list Z)) :=
  let* l := link p in
  if negb (sendable (l_state l)) || (l_mdu l <? Zlen plain) then mret None
  else
    let* ct := token_encrypt l plain in
    match ct with
    | None => mret None
    | Some ct =>
        let* raw := sendLinkPacket p PacketData ContextNone ct in
        let* t := now in
        let r := MkReceipt (PacketHash sha256 raw) (l_ID l) t
                   (t + DefaultPerHopTimeoutSec * Z.max 1 (l_expectedHops l) * Second + 6 * Second)
                   (l_peerSigPub l) (Some p) in
        addReceipt r ;; mret (Some (rc_Hash r))
    end.

(** The result is whether the identification went out. *)
Definition Identify (p : nat) (id : Identity) : M bool :=
  let* l := link p in
  if negb (l_Initiator l) || negb (bool_decide (l_state l = LinkActive)) then mret false
  else
    let* data := of_option (LinkIdentifyData id (l_ID l)) in
    let* ct := token_encrypt l data in
    match ct with
    | None => mret false
    | Some ct => send_link_packet p PacketData ContextLinkIdentify ct ;; mret true
    end.

(** ** Sending resources *)

Definition resourceMapHashLen : nat := 4.
Definition resourceRandomHashLen : nat := 4.
Definition resourceWindow : Z := 4.
Definition resourceWindowMin : Z := 2.
Definition resourceWindowMaxSlow : Z := 10.
Definition resourceWindowMaxFast : Z := 75.
Definition resourceWindowFlex : Z := 4.
Definition resourceMaxAdvRetries : Z := 4.
Definition resourceMaxRetries : Z := 16.
Definition resourceMaxSize : Z := 1024 * 1024 - 1.
Definition resourceHashmapMaxLen : Z := (431 - 134) / 4.
Definition resourceCollisionGuard : Z := 2 * resourceWindowMaxFast + resourceHashmapMaxLen.

Definition mapHash (part random : list Z) : list Z := take resourceMapHashLen (sha256 (part ++ random)).

(** The part size of a link. *)
Definition link_sdu (l : Link) : Z := l_mtu l - 35 - 1.

(** The parts of the loop over the ciphertext, for a positive part size. *)
Definition split_parts (sdu : nat) (enc : list Z) : list (list Z) :=
  map (chunk_at sdu enc) (seq 0 (Z.to_nat ((Zlen enc + Z.of_nat sdu - 1) / Z.of_nat sdu))).

(** Salts are drawn until the part hashes differ.  With a part size of zero they never do; with a
    negative one the slice expression panics. *)
Fixpoint draw_salt (fuel : nat) (sdu : Z) (enc : list Z) : M (list Z) :=
  match fuel with
  | O => panic
  | S fuel =>
      let* random := draw_ resourceRandomHashLen in
      if sdu <? 0 then panic
      else if (sdu =? 0) || negb (bool_decide (NoDup (map (λ part, mapHash part random) (split_parts (Z.to_nat sdu) enc))))
      then draw_salt fuel sdu enc
      else mret random
  end.

(** The map hashes of parts [lo .. hi). *)
Definition hashmap_segment (r : OutgoingResource) (segment : Z) : list Z :=
  let start := segment * resourceHashmapMaxLen in
  let end_ := Z.min ((segment + 1) * resourceHashmapMaxLen) (Zlen (or_parts r)) in
  concat (sub (Z.to_nat start) (Z.to_nat end_) (or_mapHashes r)).

Definition advertisement (r : OutgoingResource) : Msgpack.Value :=
  let q := match or_requestID r with Some id => Msgpack.VBin id | None => Msgpack.VNil end in
  let flags := match or_requestID r with
               | Some _ => if or_isResponse r then Z.lor 1 0x10 else Z.lor 1 0x08
               | None => 1
               end in
  Msgpack.VMap [
    (Msgpack.VStr (str "t"), Msgpack.Int (Zlen (or_data r)));
    (Msgpack.VStr (str "d"), Msgpack.Int (or_dataSize r));
    (Msgpack.VStr (str "n"), Msgpack.Int (Zlen (or_parts r)));
    (Msgpack.VStr (str "h"), Msgpack.VBin (or_Hash r));
    (Msgpack.VStr (str "r"), Msgpack.VBin (or_randomHash r));
    (Msgpack.VStr (str "o"), Msgpack.VBin (or_Hash r));
    (Msgpack.VStr (str "i"), Msgpack.Int 1);
    (Msgpack.VStr (str "l"), Msgpack.Int 1);
    (Msgpack.VStr (str "q"), q);
    (Msgpack.VStr (str "f"), Msgpack.Int flags);
    (Msgpack.VStr (str "m"), Msgpack.VBin (hashmap_segment r 0))].

Definition set_outgoing (p : nat) (hash : list Z) (f : OutgoingResource → OutgoingResource) : M unit :=
  set_link p (λ l, l <| l_outgoing ::= alter f hash |>).

(** A resource that has left the table is complete or failed already. *)
Definition fail (p : nat) (hash : list Z) : M unit :=
  let* l := link p in
  match l_outgoing l !! hash with
  | None => mret tt
  | Some _ =>
      set_link p (λ l, l <| l_outgoing ::= delete hash |>) ;;
      emit (ResourceDone hash false)
  end.

Definition advertise (p : nat) (r : OutgoingResource) : M unit :=
  let* l := link p in
  let* ct := LinkEncrypt l (Msgpack.Pack (advertisement r)) in
  match ct with
  | None => fail p (or_Hash r)
  | Some ct =>
      send_link_packet p PacketData ContextResourceAdv ct ;;
      let* t := now in
      set_outgoing p (or_Hash r) (λ r, r <| or_advSent := t |> <| or_lastActivity := t |>)
  end.

(** The hash of the new resource; [None] is an error. *)
Definition sendResource (p : nat) (payload : list Z) (requestID : option (list Z)) (isResponse : bool)
  : M (option (list Z)) :=
  let* l := link p in
  if negb (sendable (l_state l)) || (resourceMaxSize <? Zlen payload) then mret None
  else
    let* prefix := draw_ resourceRandomHashLen in
    let* enc := LinkEncrypt l (prefix ++ payload) in
    match enc with
    | None => mret None
    | Some enc =>
        let* fuel := asks e_fuel in
        let* random := draw_salt fuel (link_sdu l) enc in
        let hash := sha256 (payload ++ random) in
        let parts := split_parts (Z.to_nat (link_sdu l)) enc in
        let r := MkOutgoing hash enc parts (replicate (length parts) false)
                   (map (λ part, mapHash part random) parts) random (sha256 (payload ++ hash)) (Zlen payload) 0 0
                   zero_time zero_time (l_rtt l) 0 0 requestID isResponse in
        set_link p (λ l, l <| l_outgoing ::= <[hash := r]> |>) ;;
        advertise p r ;; mret (Some hash)
    end.

Definition SendResource (p : nat) (payload : list Z) : M (option (list Z)) := sendResource p payload None false.

(** ** Requests *)

Definition PathHash (path : list Z) : list Z := take TruncatedHashLen (sha256 path).

(** The id of the request; [None] is an error.  The timer that fails it is [RequestTimeout]. *)
Definition RequestOn (p : nat) (path : list Z) (data : Msgpack.Value) : M (option (list Z)) :=
  let* l := link p in
  if negb (sendable (l_state l)) then mret None
  else
    let* t := now in
    let at_ := Msgpack.VFloat (f64_bits (f64_div (f64_of_Z t) (f64_of_Z Second))) in
    let packed := Msgpack.Pack (Msgpack.VArray [at_; Msgpack.VBin (PathHash path); data]) in
    let add id := set_link p (λ l, l <| l_requests ::= union {[id]} |>) in
    if Zlen packed <=? l_mdu l then
      let* ct := token_encrypt l packed in
      match ct with
      | None => mret None
      | Some ct =>
          let* raw := sendLinkPacket p PacketData ContextRequest ct in
          let id := take TruncatedHashLen (PacketHash sha256 raw) in
          add id ;; mret (Some id)
      end
    else
      let id := take TruncatedHashLen (sha256 packed) in
      add id ;;
      let* sent := sendResource p packed (Some id) false in
      match sent with
      | Some _ => mret (Some id)
      | None => set_link p (λ l, l <| l_requests ::= λ s, s ∖ {[id]} |>) ;; mret None
      end.

(** [takeRequest] and the send on the receipt's channel, when the request is still pending. *)
Definition finish_request (p : nat) (id : list Z) (response : option Msgpack.Value) : M unit :=
  let* l := link p in
  if negb (bool_decide (id ∈ l_requests l)) then mret tt
  else
    set_link p (λ l, l <| l_requests ::= λ s, s ∖ {[id]} |>) ;;
    emit (RequestDone id response).

Definition RequestTimeout (p : nat) (id : list Z) : M unit := finish_request p id None.

(** The bytes of a bin value, nil for any other. *)
Definition bin_of (v : Msgpack.Value) : list Z := match v with Msgpack.VBin b => b | _ => [] end.

(** A float, or an integer widened to one, as its bits. *)
Definition AsFloat (v : Msgpack.Value) : option Z :=
  match v with
  | Msgpack.VFloat bits => Some bits
  | Msgpack.VInt i => Some (f64_bits (f64_of_Z i))
  | Msgpack.VUint u => Some (f64_bits (f64_of_Z u))
  | _ => None
  end.

Definition handleRequest (p : nat) (requestID packed : list Z) : M unit :=
  let* l := link p in
  let* d := gets (λ n, l_local l ≫= λ q, dheap n !! q) in
  match d with
  | None => mret tt
  | Some d =>
      if negb (bool_decide (l_state l = LinkActive)) then mret tt
      else
        match Msgpack.UnpackValue packed with
        | Ok (Msgpack.VArray [at_; ph; data], _) =>
            if negb (length (bin_of ph) =? TruncatedHashLen)%nat then mret tt
            else
              match List.find (λ path, bool_decide (PathHash path = bin_of ph)) (d_handlers d) with
              | None => mret tt
              | Some path =>
                  let req := MkRequest path (bin_of ph) requestID data p (l_remoteIdent l ≫= IdentityFromPublicBytes)
                               (AsFloat at_) in
                  let* resp := asks (λ e, e_answer e req) in
                  match resp with
                  | None => mret tt
                  | Some resp =>
                      let packedResp := Msgpack.Pack (Msgpack.VArray [Msgpack.VBin requestID; resp]) in
                      if Zlen packedResp <=? l_mdu l then
                        of_option (l_token l) ;; send_encrypted p ContextResponse packedResp
                      else sendResource p packedResp (Some requestID) true ;; mret tt
                  end
              end
        | _ => mret tt
        end
  end.

Definition handleResponse (p : nat) (packed : list Z) : M unit :=
  match Msgpack.UnpackValue packed with
  | Ok (Msgpack.VArray [id; data], _) =>
      if negb (length (bin_of id) =? TruncatedHashLen)%nat then mret tt
      else finish_request p (bin_of id) (Some data)
  | _ => mret tt
  end.

End Links.

End RnsLink.
