(* ===== verification/RnsResource.v ===== *)
(** Receiving on a link of a Reticulum node: serving and receiving resources
    ([internal/rns/resource.go]), the dispatch of link packets and the watchdogs ([link.go]). *)
From S2P Require Import Prelude Fields Float64 Msgpack RnsPacket RnsCrypto RnsWire RnsState RnsIface RnsForward RnsLink.
Import Fields Float64 RnsPacket RnsWire RnsState RnsIface RnsForward RnsLink.

Module RnsResource.

(** [s[i]] with its bounds check. *)
Definition at_ {A} (l : list A) (i : Z) : option A := if i <? 0 then None else l !! Z.to_nat i.

Section Resources.
Context `{!Crypto}.

(** ** Serving a resource *)

(** The outcome of one request for parts: the packets to send and the hash map update, or a
    sequencing error. *)
Inductive served := Serve (parts : list (list Z)) (hmu : option (list Z)) | ServeError.

Fixpoint chunks4 (fuel : nat) (b : list Z) : list (list Z) :=
  match fuel with
  | O => []
  | S fuel => if (length b <? resourceMapHashLen)%nat then [] else take resourceMapHashLen b :: chunks4 fuel (drop resourceMapHashLen b)
  end.

(** The index after the first part from [i] whose map hash is [lastMap], or the end. *)
Fixpoint height_after (lastMap : list Z) (i : Z) (hashes : list (list Z)) : Z :=
  match hashes with
  | [] => i
  | h :: hashes => if decide (h = lastMap) then i + 1 else height_after lastMap (i + 1) hashes
  end.

(** Marks the wanted parts among those of positions [start .. end_). *)
Definition mark_sent (want : list (list Z)) (start end_ : Z) (r : OutgoingResource) : OutgoingResource :=
  let hit i mh := (start <=? Z.of_nat i) && (Z.of_nat i <? end_) && bool_decide (mh ∈ want) in
  let hits := imap hit (or_mapHashes r) in
  r <| or_partSent := zip_with orb (or_partSent r) hits |>
    <| or_sentParts ::= Z.add (Zlen (filter (λ x, x = (false, true)) (zip (or_partSent r) hits))) |>.

Definition serve (t : Z) (exhausted : bool) (lastMap wanted : list Z) (r : OutgoingResource) : OutgoingResource * served :=
  let r := if or_rtt r =? 0 then r <| or_rtt := time_sub t (or_advSent r) |> else r in
  let r := r <| or_state := 1 |> <| or_lastActivity := t |> in
  let want := chunks4 (length wanted) wanted in
  let start := or_recvMinHeight r in
  let end_ := Z.min (start + resourceCollisionGuard) (Zlen (or_parts r)) in
  let range {A} (l : list A) := sub (Z.to_nat start) (Z.to_nat end_) l in
  let toSend := (filter (λ x, x.1 ∈ want) (zip (range (or_mapHashes r)) (range (or_parts r)))).*2 in
  let r := mark_sent want start end_ r in
  let finish r hmu :=
    (if or_sentParts r =? Zlen (or_parts r) then r <| or_state := 2 |> else r, Serve toSend hmu) in
  if negb exhausted then finish r None
  else
    let idx := height_after lastMap start (range (or_mapHashes r)) in
    let r := r <| or_recvMinHeight := Z.max (idx - 1 - resourceWindowMaxFast) 0 |> in
    if negb (Z.rem idx resourceHashmapMaxLen =? 0) then (r, ServeError)
    else
      let segment := Z.quot idx resourceHashmapMaxLen in
      let hm := hashmap_segment r segment in
      if (length hm =? 0)%nat then (r, ServeError)
      else finish r (Some (or_Hash r ++ Msgpack.Pack (Msgpack.VArray [Msgpack.Int segment; Msgpack.VBin hm]))).

Definition handleResourceRequest (p : nat) (plain : list Z) : M unit :=
  if (length plain <? 1 + FullHashLen)%nat then mret tt
  else
    let exhausted := idx plain 0 =? 255 in
    if exhausted && (length plain <? 1 + resourceMapHashLen + FullHashLen)%nat then mret tt
    else
      let lastMap := if exhausted then sub 1 (1 + resourceMapHashLen) plain else replicate resourceMapHashLen 0 in
      let pad := if exhausted then (1 + resourceMapHashLen)%nat else 1%nat in
      let hash := sub pad (pad + FullHashLen) plain in
      let* l := link p in
      match l_outgoing l !! hash with
      | None => mret tt
      | Some r =>
          let* t := now in
          let '(r, out) := serve t exhausted lastMap (drop (pad + FullHashLen) plain) r in
          set_outgoing p hash (λ _, r) ;;
          match out with
          | ServeError => fail p hash
          | Serve parts hmu =>
              for_each (λ part, send_link_packet p PacketData ContextResource part) parts ;;
              match hmu with
              | Some hmu => send_encrypted p ContextResourceHMU hmu
              | None => mret tt
              end
          end
      end.

Definition handleResourceProof (p : nat) (data : list Z) : M unit :=
  if negb (length data =? 2 * FullHashLen)%nat then mret tt
  else
    let hash := take FullHashLen data in
    let* l := link p in
    match l_outgoing l !! hash with
    | None => mret tt
    | Some r =>
        if negb (bool_decide (drop FullHashLen data = or_expectedProof r)) then mret tt
        else
          let* t := now in
          set_link p (λ l, l <| l_outgoing ::= delete hash |> <| l_lastProof := t |>) ;;
          emit (ResourceDone hash true)
    end.

(** ** Receiving a resource *)

Definition rejectResource (p : nat) (hash : list Z) : M unit := send_encrypted p ContextResourceRCL hash.

(** The loop of [hashmapUpdate] from the [i]-th hash; an index below zero panics. *)
Fixpoint hashmap_loop (hms : list (list Z)) (idx : Z) (r : IncomingResource) : option IncomingResource :=
  match hms with
  | [] => Some r
  | mh :: hms =>
      if ir_totalParts r <=? idx then Some r
      else
        set ← at_ (ir_hashmapSet r) idx;
        let r := if set : bool then r else r <| ir_hashHeight ::= Z.add 1 |> in
        hashmap_loop hms (idx + 1)
          (r <| ir_hashmap ::= <[Z.to_nat idx := mh]> |> <| ir_hashmapSet ::= <[Z.to_nat idx := true]> |>)
  end.

(** [segment * resourceHashmapMaxLen] is an [int]. *)
Definition hashmapUpdate (segment : Z) (hm : list Z) (r : IncomingResource) : option IncomingResource :=
  r ← hashmap_loop (chunks4 (length hm) hm) (i64 (segment * resourceHashmapMaxLen)) r;
  Some (r <| ir_waitingHMU := false |>).

(** The hashes of the next missing parts, at most [window], and whether the hash map ran out. *)
Fixpoint pick_parts (l : list (option (list Z) * bool * list Z)) (window : nat) : list (list Z) * bool :=
  match l, window with
  | [], _ | _, O => ([], false)
  | (Some _, _, _) :: l, _ => pick_parts l window
  | (None, false, _) :: _, _ => ([], true)
  | (None, true, mh) :: l, S window => let '(req, ex) := pick_parts l window in (mh :: req, ex)
  end.

(** The request for the next window; [None] is the panic of a hash map that is still empty. *)
Definition next_request (t : Z) (r : IncomingResource) : option (IncomingResource * list Z) :=
  let rest := drop (Z.to_nat (ir_consecutive r + 1)) (zip (zip (ir_parts r) (ir_hashmapSet r)) (ir_hashmap r)) in
  let '(req, exhausted) := pick_parts rest (Z.to_nat (ir_window r)) in
  let r := r <| ir_outstanding := Zlen req |> <| ir_lastActivity := t |> <| ir_reqSent := t |> in
  if exhausted then
    last ← at_ (ir_hashmap r) (ir_hashHeight r - 1);
    Some (r <| ir_waitingHMU := true |>, 255 :: last ++ ir_Hash r ++ concat req)
  else Some (r, 0 :: ir_Hash r ++ concat req).

Definition set_incoming (p : nat) (hash : list Z) (f : IncomingResource → IncomingResource) : M unit :=
  set_link p (λ l, l <| l_incoming ::= alter f hash |>).

Definition requestNext (p : nat) (hash : list Z) : M unit :=
  let* l := link p in
  match l_incoming l !! hash with
  | None => mret tt
  | Some r =>
      if (1 <=? ir_state r) || ir_waitingHMU r then mret tt
      else
        let* t := now in
        let* next := of_option (next_request t r) in
        set_incoming p hash (λ _, next.1) ;;
        send_encrypted p ContextResourceReq next.2
  end.

(** The value of a string key of an advertisement. *)
Definition adv_get (m : list (Msgpack.Value * Msgpack.Value)) (k : list Z) : Msgpack.Value :=
  match List.find (λ kv : Msgpack.Value * Msgpack.Value, match kv.1 with Msgpack.VStr s => bool_decide (s = k) | _ => false end) m with
  | Some kv => kv.2
  | None => Msgpack.VNil
  end.

Definition adv_int (m : list (Msgpack.Value * Msgpack.Value)) (k : list Z) : Z := default 0 (Msgpack.AsInt (adv_get m k)).

(** [make] of [n] elements of 24 bytes: more than the address space panics. *)
Definition make_ok (n : Z) : bool := n * 24 <=? 2 ^ 48.

Definition handleResourceAdv (p : nat) (plain : list Z) : M unit :=
  match Msgpack.UnpackValue plain with
  | Ok (Msgpack.VMap m, _) =>
      let t := adv_int m (str "t") in
      let d := adv_int m (str "d") in
      let n := adv_int m (str "n") in
      let f := adv_int m (str "f") in
      let segs := adv_int m (str "l") in
      let h := bin_of (adv_get m (str "h")) in
      let rb := bin_of (adv_get m (str "r")) in
      let hm := bin_of (adv_get m (str "m")) in
      if negb (length h =? FullHashLen)%nat || negb (length rb =? resourceRandomHashLen)%nat
         || (n <=? 0) || (t <=? 0) || (3 * resourceMaxSize <? t) then mret tt
      else if (1 <? segs) || negb (Z.land f 0x20 =? 0) then rejectResource p h
      else
        let q := bin_of (adv_get m (str "q")) in
        let isRequest := negb (Z.land f 0x08 =? 0) && (length q =? TruncatedHashLen)%nat in
        let isResponse := negb (Z.land f 0x10 =? 0) && (length q =? TruncatedHashLen)%nat in
        let reqID := take TruncatedHashLen (q ++ replicate TruncatedHashLen 0) in
        let* l := link p in
        let* dest := gets (λ nd, l_local l ≫= λ q, dheap nd !! q) in
        let* ok :=
          if isRequest then
            mret (match dest with
                  | None => false
                  | Some dest => (0 <? length (d_handlers dest))%nat && (d <=? resourceMaxSize)
                  end)
          else if isResponse then mret (bool_decide (reqID ∈ l_requests l))
          else if l_acceptResources l then asks (λ e, e_acceptResource e p d)
          else mret false in
        if negb ok then rejectResource p h
        else if (link_sdu l =? 0) || negb (make_ok n) then panic
        else
          let* clock := now in
          let r := MkIncoming h t d n (replicate (Z.to_nat n) None)
                     (replicate (Z.to_nat n) (replicate resourceMapHashLen 0)) (replicate (Z.to_nat n) false) 0 rb
                     (negb (Z.land f 0x02 =? 0)) 0 0 resourceWindow resourceWindowMaxSlow resourceWindowMin (-1) false 0
                     clock zero_time 0 reqID isRequest isResponse in
          match l_incoming l !! h with
          | Some _ => mret tt
          | None =>
              let* r := of_option (hashmapUpdate 0 hm r) in
              set_link p (λ l, l <| l_incoming ::= <[h := r]> |>) ;;
              requestNext p h
          end
  | _ => mret tt
  end.

(** The resource leaves the table; complete data is a request, a response or the application's. *)
Definition concludeIncoming (p : nat) (r : IncomingResource) (data : option (list Z)) : M unit :=
  set_link p (λ l, l <| l_incoming ::= delete (ir_Hash r) |>) ;;
  match data with
  | None => mret tt
  | Some data =>
      if ir_isRequest r then handleRequest p (take TruncatedHashLen (sha256 data)) data
      else if ir_isResponse r then handleResponse p data
      else emit (OnResource p data)
  end.

(** What the parts decrypt to, when it has the advertised hash. *)
Definition assembled (l : Link) (r : IncomingResource) : option (list Z) :=
  plain ← LinkDecrypt l (concat (default [] <$> ir_parts r));
  if (length plain <? resourceRandomHashLen)%nat then None
  else
    let data := drop resourceRandomHashLen plain in
    data ← (if ir_compressed r then bunzip2 data else Some data);
    if bool_decide (sha256 (data ++ ir_randomHash r) = ir_Hash r) then Some data else None.

Definition assemble (p : nat) (r : IncomingResource) : M unit :=
  let* l := link p in
  match assembled l r with
  | None => concludeIncoming p r None
  | Some data =>
      send_link_packet p PacketProof ContextResourcePRF (ir_Hash r ++ sha256 (data ++ ir_Hash r)) ;;
      concludeIncoming p r (Some data)
  end.

(** The first position of the window that waits for a part with this hash. *)
Fixpoint find_slot (i : nat) (l : list (option (list Z) * bool * list Z)) (mh : list Z) : option nat :=
  match l with
  | [] => None
  | (None, true, h) :: l => if decide (h = mh) then Some i else find_slot (S i) l mh
  | _ :: l => find_slot (S i) l mh
  end.

(** How many parts from the front of the list have arrived. *)
Fixpoint arrived_run (l : list (option (list Z))) : nat :=
  match l with
  | Some _ :: l => S (arrived_run l)
  | _ => 0
  end.

(** Stores a part; [None] when no slot of the window waits for it. *)
Definition store_part (t : Z) (part : list Z) (r : IncomingResource) : option IncomingResource :=
  let start := Z.to_nat (ir_consecutive r + 1) in
  let window := take (Z.to_nat (ir_window r)) (drop start (zip (zip (ir_parts r) (ir_hashmapSet r)) (ir_hashmap r))) in
  i ← find_slot start window (mapHash part (ir_randomHash r));
  let parts := <[i := Some part]> (ir_parts r) in
  Some (r <| ir_parts := parts |> <| ir_received ::= Z.add 1 |> <| ir_outstanding ::= λ o, o - 1 |>
          <| ir_consecutive ::= λ c, c + Z.of_nat (arrived_run (drop start parts)) |>
          <| ir_lastActivity := t |> <| ir_retries := 0 |>).

(** The window grows when all outstanding parts have arrived. *)
Definition grow_window (r : IncomingResource) : IncomingResource :=
  if ir_window r <? ir_windowMax r then
    let r := r <| ir_window ::= Z.add 1 |> in
    if resourceWindowFlex - 1 <? ir_window r - ir_windowMin r then r <| ir_windowMin ::= Z.add 1 |> else r
  else r.

Fixpoint receive_part (p : nat) (part : list Z) (cands : list IncomingResource) : M unit :=
  match cands with
  | [] => mret tt
  | r :: cands =>
      let* t := now in
      if 1 <=? ir_state r then receive_part p part cands
      else
        match store_part t part r with
        | None => receive_part p part cands
        | Some r =>
            let put r := set_incoming p (ir_Hash r) (λ _, r) in
            if ir_received r =? ir_totalParts r then
              let r := r <| ir_state := 1 |> in put r ;; assemble p r
            else if ir_outstanding r <=? 0 then put (grow_window r) ;; requestNext p (ir_Hash r)
            else put r
        end
  end.

Definition receivePart (p : nat) (part : list Z) : M unit :=
  let* l := link p in
  let* cands := asks (λ e, e_order e _ (map_to_list (l_incoming l))) in
  receive_part p part (snd <$> cands).

(** A hash map update of an incoming resource. *)
Definition handleHashmapUpdate (p : nat) (plain : list Z) : M unit :=
  if (length plain <=? FullHashLen)%nat then mret tt
  else
    let hash := take FullHashLen plain in
    let* l := link p in
    match l_incoming l !! hash, Msgpack.UnpackValue (drop FullHashLen plain) with
    | Some r, Ok (Msgpack.VArray [seg; hm], _) =>
        let* r := of_option (hashmapUpdate (default 0 (Msgpack.AsInt seg)) (bin_of hm) r) in
        set_incoming p hash (λ _, r) ;; requestNext p hash
    | _, _ => mret tt
    end.

(** The sender cancelled, or the receiver rejected. *)
Definition handleResourceCancel (p : nat) (plain : list Z) : M unit :=
  if negb (length plain =? FullHashLen)%nat then mret tt
  else
    let* l := link p in
    (match l_incoming l !! plain with Some r => concludeIncoming p r None | None => mret tt end) ;;
    (match l_outgoing l !! plain with Some _ => fail p plain | None => mret tt end).

(** ** The dispatch of link packets *)

Definition handle_lrrtt (p : nat) (state : LinkState) (h : Header) : M unit :=
  let* l := link p in
  if l_Initiator l || negb (bool_decide (state = LinkHandshake)) then mret tt
  else
    match LinkDecrypt l (Data h) ≫= ParseRTTData with
    | None => Teardown p
    | Some rtt =>
        let* t := now in
        set_link p (λ l,
          let measured := time_sub t (l_requestTime l) in
          let rtt := f64_to_int (f64_mul rtt (f64_of_Z Second)) in
          updateKeepalive (l <| l_rtt := if rtt <? measured then measured else rtt |>
            <| l_state := LinkActive |> <| l_activatedAt := t |> <| l_expectedHops := Hops h |>)) ;;
        emit (OnLink p)
    end.

Definition handle_link_data (p : nat) (pkt : Packet) : M unit :=
  let* l := link p in
  match LinkDecrypt l (Data (pk_Hdr pkt)) with
  | None => mret tt
  | Some plain =>
      emit (OnLinkPacket p plain pkt) ;;
      let* d := gets (λ n, l_local l ≫= λ q, dheap n !! q) in
      when (match d with Some d => d_ProveAll d | None => false end)
        (send_link_packet p PacketProof ContextNone (pk_Hash pkt ++ ed_sign (l_sigPrv l) (pk_Hash pkt)))
  end.

Definition handle_identify (p : nat) (h : Header) : M unit :=
  let* l := link p in
  if l_Initiator l then mret tt
  else
    match LinkDecrypt l (Data h) ≫= λ plain, ParseLinkIdentify plain (l_ID l) with
    | None => mret tt
    | Some pub =>
        set_link p (λ l, l <| l_remoteIdent := Some pub |>) ;;
        when (negb (is_some (l_remoteIdent l))) (emit (OnIdentified p pub))
    end.

(** Runs [f] on the decrypted data. *)
Definition with_plain (p : nat) (h : Header) (f : list Z → M unit) : M unit :=
  let* l := link p in
  match LinkDecrypt l (Data h) with
  | Some plain => f plain
  | None => mret tt
  end.

Definition receive (p : nat) (pkt : Packet) : M unit :=
  let h := pk_Hdr pkt in
  let* l := link p in
  if negb (bool_decide (pk_Iface pkt = l_Iface l)) then mret tt
  else
    let* t := now in
    let state := if decide (l_state l = LinkStale) then LinkActive else l_state l in
    set_link p (λ l, l <| l_lastInbound := t |> <| l_state := state |>) ;;
    if PacketType h =? PacketProof then
      when (Context h =? ContextResourcePRF) (handleResourceProof p (Data h))
    else if Context h =? ContextNone then handle_link_data p pkt
    else if Context h =? ContextLRRTT then handle_lrrtt p state h
    else if Context h =? ContextKeepalive then
      when (negb (l_Initiator l) && bool_decide (Data h = [KeepaliveInitiator]) && (l_lastOutbound l + l_keepalive l <=? t))
        (send_link_packet p PacketData ContextKeepalive [KeepaliveResponse])
    else if Context h =? ContextLinkClose then
      with_plain p h (λ plain,
        if bool_decide (plain = l_ID l) && (length plain =? TruncatedHashLen)%nat
        then set_link p (λ l, l <| l_state := LinkClosed |>) ;; closed p
        else mret tt)
    else if Context h =? ContextRequest then with_plain p h (handleRequest p (TruncatedHash pkt))
    else if Context h =? ContextResponse then with_plain p h (handleResponse p)
    else if Context h =? ContextResourceAdv then with_plain p h (handleResourceAdv p)
    else if Context h =? ContextResourceReq then with_plain p h (handleResourceRequest p)
    else if Context h =? ContextResource then receivePart p (Data h)
    else if Context h =? ContextResourceHMU then with_plain p h (handleHashmapUpdate p)
    else if (Context h =? ContextResourceICL) || (Context h =? ContextResourceRCL) then
      with_plain p h (handleResourceCancel p)
    else if Context h =? ContextLinkIdentify then handle_identify p h
    else emit (OnContext p pkt).

(** ** The watchdogs *)

(** [m.All()]: the pending links, then the others. *)
Definition all_links : M (list nat) :=
  let* pending := range pendingLinks in
  let* active := range activeLinks in
  mret (pending.*2 ++ active.*2).

Definition watch_incoming (p : nat) (t rtt : Z) (r : IncomingResource) : M unit :=
  let wait := i64 (i64 (i64 (4 * rtt) + 250 * Millisecond) + ir_retries r * (500 * Millisecond)) in
  let wait := if wait <? 2 * Second then 2 * Second else wait in
  if (ir_state r =? 0) && (ir_lastActivity r + wait <? t) then
    if resourceMaxRetries <=? ir_retries r then concludeIncoming p r None
    else
      set_incoming p (ir_Hash r) (λ r,
        r <| ir_retries ::= Z.add 1 |> <| ir_window ::= λ w, if ir_windowMin r <? w then w - 1 else w |>
          <| ir_waitingHMU := false |> <| ir_lastActivity := t |>) ;;
      requestNext p (ir_Hash r)
  else mret tt.

Definition watch_outgoing (p : nat) (t rtt : Z) (r : OutgoingResource) : M unit :=
  if or_state r =? 0 then
    if or_advSent r + i64 (i64 (6 * rtt) + Second) <? t then
      if resourceMaxAdvRetries <=? or_advRetries r then fail p (or_Hash r)
      else
        set_outgoing p (or_Hash r) (λ r, r <| or_advRetries ::= Z.add 1 |>) ;;
        advertise p r
    else mret tt
  else if (or_state r =? 1) || (or_state r =? 2) then
    if or_lastActivity r + i64 (i64 (i64 (6 * rtt) * resourceMaxRetries) + 10 * Second) <? t then fail p (or_Hash r) else mret tt
  else mret tt.

Definition watch_resources (t : Z) (p : nat) : M unit :=
  let* l := link p in
  let* inc := asks (λ e, e_order e _ (map_to_list (l_incoming l))) in
  let* out := asks (λ e, e_order e _ (map_to_list (l_outgoing l))) in
  let rtt := if l_rtt l <? 100 * Millisecond then 100 * Millisecond else l_rtt l in
  for_each (watch_incoming p t rtt) inc.*2 ;;
  for_each (watch_outgoing p t rtt) out.*2.

Definition resourceWatchdog (t : Z) : M unit :=
  let* all := all_links in for_each (watch_resources t) all.

Definition watch_link (t : Z) (p : nat) : M unit :=
  let* l := link p in
  match l_state l with
  | LinkPending | LinkHandshake =>
      if l_requestTime l + l_establishTO l <? t
      then set_link p (λ l, l <| l_state := LinkClosed |>) ;; closed p
      else mret tt
  | LinkActive =>
      let lastIn := Z.max (Z.max (l_lastInbound l) (l_lastProof l)) (l_activatedAt l) in
      if (lastIn + l_keepalive l <=? t) || (l_lastOutbound l + l_keepalive l <=? t) then
        when (l_Initiator l && (l_lastKeepalive l + l_keepalive l <=? t))
          (send_link_packet p PacketData ContextKeepalive [KeepaliveInitiator]) ;;
        when (lastIn + l_staleTime l <=? t)
          (set_link p (λ l, l <| l_state := LinkStale |> <| l_staleSince := t |>))
      else mret tt
  | LinkStale =>
      let grace := i64 (f64_to_int (f64_mul (f64_of_Z (l_rtt l)) (f64_of_Z 4)) + StaleGraceSec * Second) in
      if l_staleSince l + grace <? t then
        of_option (l_token l) ;;
        send_encrypted p ContextLinkClose (l_ID l) ;;
        set_link p (λ l, l <| l_state := LinkClosed |>) ;; closed p
      else mret tt
  | LinkClosed => mret tt
  end.

Definition watchdog (t : Z) : M unit :=
  resourceWatchdog t ;;
  let* all := all_links in for_each (watch_link t) all.

Definition closeAll : M unit := let* all := all_links in for_each Teardown all.

End Resources.

End RnsResource.
