(* ===== verification/RnsLinkLogic.v ===== *)
(** What every handler of a link does to the rest of the node, once and for all: it talks to the
    outside only through [sendLinkPacket] on its own link and through callbacks, and it changes the
    link only by functions that leave the link's interface alone.

    An invariant [P] and a condition [E] on the calls to the outside that survive these primitives
    survive every handler. *)
From S2P Require Import Prelude Fields Msgpack RnsPacket RnsCrypto RnsWire RnsState RnsLogic RnsIface RnsForward.
From S2P Require Import RnsLink RnsResource.
Import Fields RnsPacket RnsWire RnsState RnsLogic RnsIface RnsForward RnsLink RnsResource.

Module RnsLinkLogic.

Definition is_transmit (ev : event) : bool := match ev with Transmit _ _ => true | _ => false end.

Definition same_iface (f : Link → Link) : Prop := ∀ l, l_Iface (f l) = l_Iface l.

Section Family.
Context `{!Crypto} (e : Env) (E : event → Prop) (P : Node → Prop) (p : nat).
Context (Hquiet : ∀ ev, is_transmit ev = false → E ev).
Context (Hsend : ∀ pt ctx data, pt = PacketData ∨ pt = PacketProof → keeps e E P (sendLinkPacket p pt ctx data)).
Context (Hset : ∀ f, same_iface f → keeps e E P (set_link p f)).
Context (Hdraw : ∀ k, keeps e E P (draw k)).
Context (Hdrop : ∀ id, keeps e E P
  (modify (λ n, n <| activeLinks ::= delete id |> <| pendingLinks ::= delete id |>))).

Local Ltac link_set := apply Hset; intros ?; cbn; repeat case_match; reflexivity.

Local Ltac link_step :=
  first [ apply Hdraw | apply Hdrop | link_set
        | apply Hsend; auto
        | apply keeps_emit, Hquiet; reflexivity ].

Local Ltac go := repeat first [ keep1 | link_step ].

Lemma keeps_link q : keeps e E P (link q).
Proof. unfold link. go. Qed.
Hint Resolve keeps_link : rns.

Lemma keeps_draw_ k : keeps e E P (draw_ k).
Proof using Hdraw. unfold draw_. go. Qed.
Hint Resolve keeps_draw_ : rns.

Lemma keeps_LinkEncrypt l plain : keeps e E P (LinkEncrypt l plain).
Proof using Hdraw. unfold LinkEncrypt. go. Qed.
Hint Resolve keeps_LinkEncrypt : rns.

Lemma keeps_send_link_packet pt ctx data :
  pt = PacketData ∨ pt = PacketProof → keeps e E P (send_link_packet p pt ctx data).
Proof using Hsend. intros. unfold send_link_packet. go; by apply Hsend. Qed.

Hint Extern 1 (keeps _ _ _ (send_link_packet _ _ _ _)) => apply keeps_send_link_packet; auto : rns.

Lemma keeps_send_encrypted ctx plain : keeps e E P (send_encrypted p ctx plain).
Proof using Hsend Hdraw. unfold send_encrypted. go. Qed.
Hint Resolve keeps_send_encrypted : rns.

Lemma keeps_failAllRequests : keeps e E P (failAllRequests p).
Proof using Hquiet Hset. unfold failAllRequests. go. Qed.
Hint Resolve keeps_failAllRequests : rns.

Lemma keeps_closed : keeps e E P (closed p).
Proof using Hquiet Hset Hdrop. unfold closed. go. Qed.
Hint Resolve keeps_closed : rns.

Lemma keeps_Teardown : keeps e E P (Teardown p).
Proof using Hquiet Hsend Hset Hdraw Hdrop. unfold Teardown. go. Qed.
Hint Resolve keeps_Teardown : rns.

Lemma keeps_draw_salt fuel sdu enc : keeps e E P (draw_salt fuel sdu enc).
Proof using Hdraw. induction fuel as [|fuel IH]; simpl; go. Qed.
Hint Resolve keeps_draw_salt : rns.

Lemma keeps_fail hash : keeps e E P (fail p hash).
Proof using Hquiet Hset. unfold fail. go. Qed.
Hint Resolve keeps_fail : rns.

Lemma keeps_set_outgoing hash f : keeps e E P (set_outgoing p hash f).
Proof using Hset. unfold set_outgoing. go. Qed.
Hint Resolve keeps_set_outgoing : rns.

Lemma keeps_advertise r : keeps e E P (advertise p r).
Proof using Hquiet Hsend Hset Hdraw. unfold advertise. go. Qed.
Hint Resolve keeps_advertise : rns.

Lemma keeps_sendResource payload id resp : keeps e E P (sendResource p payload id resp).
Proof using Hquiet Hsend Hset Hdraw. unfold sendResource. go. Qed.
Hint Resolve keeps_sendResource : rns.

Lemma keeps_finish_request id resp : keeps e E P (finish_request p id resp).
Proof using Hquiet Hset. unfold finish_request. go. Qed.
Hint Resolve keeps_finish_request : rns.

Lemma keeps_handleRequest id packed : keeps e E P (handleRequest p id packed).
Proof using Hquiet Hsend Hset Hdraw. unfold handleRequest. go. Qed.
Hint Resolve keeps_handleRequest : rns.

Lemma keeps_handleResponse packed : keeps e E P (handleResponse p packed).
Proof using Hquiet Hset. unfold handleResponse. go. Qed.
Hint Resolve keeps_handleResponse : rns.

Lemma keeps_handleResourceRequest plain : keeps e E P (handleResourceRequest p plain).
Proof using Hquiet Hsend Hset Hdraw. unfold handleResourceRequest. go. Qed.

Lemma keeps_handleResourceProof data : keeps e E P (handleResourceProof p data).
Proof using Hquiet Hset. unfold handleResourceProof. go. Qed.

Lemma keeps_set_incoming hash f : keeps e E P (set_incoming p hash f).
Proof using Hset. unfold set_incoming. go. Qed.
Hint Resolve keeps_set_incoming keeps_handleResourceRequest keeps_handleResourceProof : rns.

Lemma keeps_requestNext hash : keeps e E P (requestNext p hash).
Proof using Hsend Hset Hdraw. unfold requestNext. go. Qed.
Hint Resolve keeps_requestNext : rns.

Lemma keeps_handleResourceAdv plain : keeps e E P (handleResourceAdv p plain).
Proof using Hsend Hset Hdraw. unfold handleResourceAdv, rejectResource. go. Qed.
Hint Resolve keeps_handleResourceAdv : rns.

Lemma keeps_concludeIncoming r data : keeps e E P (concludeIncoming p r data).
Proof using Hquiet Hsend Hset Hdraw. unfold concludeIncoming. go. Qed.
Hint Resolve keeps_concludeIncoming : rns.

Lemma keeps_assemble r : keeps e E P (assemble p r).
Proof using Hquiet Hsend Hset Hdraw. unfold assemble. go. Qed.
Hint Resolve keeps_assemble : rns.

Lemma keeps_receive_part part cands : keeps e E P (receive_part p part cands).
Proof using Hquiet Hsend Hset Hdraw. induction cands as [|r cands IH]; simpl; go. Qed.

Lemma keeps_receivePart part : keeps e E P (receivePart p part).
Proof using Hquiet Hsend Hset Hdraw. unfold receivePart. go. apply keeps_receive_part. Qed.

Lemma keeps_handleHashmapUpdate plain : keeps e E P (handleHashmapUpdate p plain).
Proof using Hsend Hset Hdraw. unfold handleHashmapUpdate. go. Qed.

Lemma keeps_handleResourceCancel plain : keeps e E P (handleResourceCancel p plain).
Proof using Hquiet Hsend Hset Hdraw. unfold handleResourceCancel. go. Qed.

Lemma keeps_handle_lrrtt st h : keeps e E P (handle_lrrtt p st h).
Proof using Hquiet Hsend Hset Hdraw Hdrop. unfold handle_lrrtt. go. Qed.

Lemma keeps_handle_link_data pkt : keeps e E P (handle_link_data p pkt).
Proof using Hquiet Hsend. unfold handle_link_data. go. Qed.

Lemma keeps_handle_identify h : keeps e E P (handle_identify p h).
Proof using Hquiet Hset. unfold handle_identify. go. Qed.

Lemma keeps_with_plain h f : (∀ plain, keeps e E P (f plain)) → keeps e E P (with_plain p h f).
Proof. intros. unfold with_plain. go. Qed.

Hint Resolve keeps_receivePart keeps_handleHashmapUpdate keeps_handleResourceCancel keeps_handle_lrrtt
  keeps_handle_link_data keeps_handle_identify : rns.

(** What follows the interface check of [receive]. *)
Lemma keeps_receive pkt : keeps e E P (receive p pkt).
Proof using Hquiet Hsend Hset Hdraw Hdrop. unfold receive. go; apply keeps_with_plain; intros; go. Qed.

Lemma keeps_watch_incoming t rtt r : keeps e E P (watch_incoming p t rtt r).
Proof using Hquiet Hsend Hset Hdraw. unfold watch_incoming. go. Qed.

Lemma keeps_watch_outgoing t rtt r : keeps e E P (watch_outgoing p t rtt r).
Proof using Hquiet Hsend Hset Hdraw. unfold watch_outgoing. go. Qed.
Hint Resolve keeps_watch_incoming keeps_watch_outgoing : rns.

Lemma keeps_watch_resources t : keeps e E P (watch_resources t p).
Proof using Hquiet Hsend Hset Hdraw. unfold watch_resources. go. Qed.

Lemma keeps_watch_link t : keeps e E P (watch_link t p).
Proof using Hquiet Hsend Hset Hdraw Hdrop. unfold watch_link. go. Qed.

End Family.

End RnsLinkLogic.
