(* ===== verification/RnsInbound.v ===== *)
(** The dispatch of received packets and the periodic jobs of a Reticulum node
    ([internal/rns/node.go]), and the node as a state machine: every operation its owner and the
    network can perform on it ([op]), and the states they reach. *)
From S2P Require Import Prelude Fields Msgpack RnsPacket RnsCrypto RnsWire RnsState RnsIface RnsAnnounce RnsPathReq.
From S2P Require Import RnsForward RnsLink RnsResource.
Import Fields RnsPacket RnsWire RnsState RnsIface RnsAnnounce RnsPathReq RnsForward RnsLink RnsResource.

Module RnsInbound.

Section Inbound.
Context `{!Crypto}.

(** ** Filtering *)

Definition unfiltered_context (c : Z) : bool :=
  (c =? ContextKeepalive) || (c =? ContextResourceReq) || (c =? ContextResourcePRF) || (c =? ContextResource)
  || (c =? ContextCacheRequest) || (c =? ContextChannel).

Definition packetFilter (n : Node) (pkt : Packet) : bool :=
  let h := pk_Hdr pkt in
  if (HeaderType h =? HeaderType2) && negb (PacketType h =? PacketAnnounce) && negb (bool_decide (TransportID h = idHash n))
  then false
  else if unfiltered_context (Context h) then true
  else if (DestType h =? DestPlain) || (DestType h =? DestGroup) then
    negb (PacketType h =? PacketAnnounce) && (Hops h <=? 1)
  else
    negb (bool_decide (pk_Hash pkt ∈ hashlist n ∨ pk_Hash pkt ∈ hashlistPrev n))
    || ((PacketType h =? PacketAnnounce) && (DestType h =? DestSingle)).

(** ** Local delivery *)

Definition prove (d : Destination) (pkt : Packet) : M unit :=
  let* sig := of_option (Sign (d_Identity d) (pk_Hash pkt)) in
  transmit_ (pk_Iface pkt) (BuildProofPacket sha256 (pk_Raw pkt) sig).

Definition deliverLocal (d : Destination) (pkt : Packet) : M unit :=
  let h := pk_Hdr pkt in
  if negb (Context h =? ContextNone) then mret tt
  else
    let* res := of_option (RnsCrypto.IdentityDecrypt hkdf_read sha256 cbc_decrypt hmac ecdh
                             (crypt_identity (d_Identity d)) (Data h) (d_ratchets d)) in
    match res with
    | Err _ => mret tt
    | Ok (plain, _) => emit (OnPacket (d_Hash d) plain pkt) ;; when (d_ProveAll d) (prove d pkt)
    end.

(** ** Dispatch *)

Definition active (id : list Z) : M (option nat) := gets (λ n, activeLinks n !! id).

(** The switch on the packet type. *)
Definition dispatch (pkt : Packet) : M bool :=
  let h := pk_Hdr pkt in
  let to_link :=
    let* l := active (DestHash h) in
    match l with
    | Some p => receive p pkt ;; mret true
    | None => mret false
    end in
  if PacketType h =? PacketAnnounce then handleAnnounce pkt
  else if PacketType h =? PacketLinkRequest then
    if negb (DestType h =? DestSingle) then mret true
    else
      let* d := LocalDestination (DestHash h) in
      match d with
      | Some (dp, d) => accept dp d pkt ;; mret true
      | None => forwardHeader1 pkt
      end
  else if PacketType h =? PacketData then
    if DestType h =? DestLink then to_link
    else if DestType h =? DestPlain then
      if bool_decide (DestHash h = PathRequestDestHash) then handlePathRequest pkt ;; mret true else mret false
    else if DestType h =? DestSingle then
      let* d := LocalDestination (DestHash h) in
      match d with
      | Some (_, d) => deliverLocal d pkt ;; mret true
      | None => forwardHeader1 pkt
      end
    else mret false
  else if PacketType h =? PacketProof then
    if Context h =? ContextLRProof then
      let* transit := lrProofTransit pkt in
      if transit then mret true else handleProof pkt ;; mret true
    else if Context h =? ContextResourcePRF then to_link
    else proofTransit pkt ;; handleReceiptProof pkt ;; mret true
  else mret false.

(** After the filter: transport first, then links in transit, then the switch. *)
Definition route (pkt : Packet) : M bool :=
  let h := pk_Hdr pkt in
  let* self := gets idHash in
  let* done :=
    if (HeaderType h =? HeaderType2) && negb (PacketType h =? PacketAnnounce) then
      if negb (bool_decide (TransportID h = self)) then mret true
      else
        let* forwarded := forwardTransport pkt in
        mret (forwarded || negb (PacketType h =? PacketLinkRequest))
    else mret false in
  if done then mret true
  else
    let* transit :=
      if negb (PacketType h =? PacketAnnounce) && negb (PacketType h =? PacketLinkRequest) && negb (Context h =? ContextLRProof)
      then linkTransit pkt else mret false in
    if transit then mret true else dispatch pkt.

(** The header of a packet that a node of before MESHSAT-1548 addressed through its own
    destination is stripped. *)
Definition unwrap_own (n : Node) (raw : list Z) (h : Header) : list Z * Header :=
  if (HeaderType h =? HeaderType2) && negb (PacketType h =? PacketAnnounce)
     && bool_decide (TransportID h = DestHash h) && negb (bool_decide (TransportID h = idHash n))
     && is_some (find_destination n (DestHash h))
  then match UnmarshalHeader (StripTransport raw) with
       | Ok h' => (StripTransport raw, h')
       | Err _ => (raw, h)
       end
  else (raw, h).

(** [hdr.Hops++] and the extra hops of a paid link. *)
Definition count_hops (hops extra : Z) : Z :=
  let hops := if (0 <? extra) && (hops + 1 + extra <=? 255) then u8 (hops + extra) else hops in
  u8 (hops + 1).

Definition with_hops (hops : Z) (pkt : Packet) : Packet :=
  let h := pk_Hdr pkt in
  MkPacket (<[1%nat := hops]> (pk_Raw pkt))
    (MkHeader (HeaderType h) (ContextFlag h) (TransportType h) (DestType h) (PacketType h) hops (TransportID h)
       (DestHash h) (Context h) (Data h))
    (pk_Hash pkt) (pk_Iface pkt).

(** Whether the packet's hash goes into the hash list. *)
Definition remembered (n : Node) (h : Header) : bool :=
  negb (is_some (linkTable n !! DestHash h)) && (negb (PacketType h =? PacketProof) || negb (Context h =? ContextLRProof)).

(** A packet whose access code has been checked and removed. *)
Definition inbound_clean (raw ifaceID : list Z) : M bool :=
  match UnmarshalHeader raw with
  | Err _ => mret false
  | Ok h =>
      let* own := gets (λ n, unwrap_own n raw h) in
      let '(raw, h) := own in
      noteCrossing ifaceID raw true ;;
      let pkt := MkPacket raw h (PacketHash sha256 raw) ifaceID in
      count RxPackets ;;
      let* pass := gets (λ n, packetFilter n pkt) in
      if negb pass then count Filtered ;; mret true
      else
        let* extra := paidExtraHops ifaceID in
        let pkt := with_hops (count_hops (Hops h) extra) pkt in
        modify (λ n, if remembered n h then n <| hashlist ::= union {[pk_Hash pkt]} |> else n) ;;
        route pkt
  end.

Definition Inbound (raw ifaceID : list Z) : M bool :=
  if (length raw <? HeaderMinSize)%nat then mret false
  else
    let* f := gets (λ n, ifac n !! ifaceID) in
    match f with
    | Some f =>
        let* res := of_option (RnsCrypto.Unwrap hkdf_read ed_sign f raw) in
        match res with
        | Ok clean => inbound_clean clean ifaceID
        | Err _ => count IFACViolations ;; mret true
        end
    | None =>
        if RnsCrypto.HasIFACFlag raw then count IFACViolations ;; mret true
        else inbound_clean raw ifaceID
    end.

(** ** Periodic jobs *)

Definition jobs : M unit :=
  let* t := now in
  processAnnounceTable t ;;
  expireTables t ;;
  expireReceipts t ;;
  expireDiscovery t ;;
  watchdog t ;;
  modify (λ n, if (50000 <? size (hashlist n))%nat
               then n <| hashlistPrev := hashlist n |> <| hashlist := ∅ |> else n) ;;
  modify (λ n, if (20000 <? size (prTags n))%nat
               then n <| prTagsPrev := prTags n |> <| prTags := ∅ |> else n).

(** ** The node as a state machine *)

(** [SendContext] of [link.go]. *)
Definition SendContext (p : nat) (ptype context : Z) (data : list Z) : M unit := send_link_packet p ptype context data.

Inductive op :=
| ReceivePacket (raw iface : list Z)
| Tick
| AnnounceTimer (iface : list Z)
| AnnounceOp (dest : nat) (iface : list Z) (pathResponse : bool)
| RequestPathOp (dest : list Z)
| RequestPathEndOp (dest : list Z) (w : nat)
| SendDataOp (dest plain : list Z) (receipt : bool)
| SendRawOp (raw dest : list Z) (destType : Z)
| InitiateOp (dest : list Z)
| SendOp (link : nat) (plain : list Z)
| SendContextOp (link : nat) (ptype context : Z) (data : list Z)
| IdentifyOp (link : nat) (id : Identity)
| TeardownOp (link : nat)
| CloseAllOp
| SendResourceOp (link : nat) (payload : list Z)
| RequestOp (link : nat) (path : list Z) (data : Msgpack.Value)
| RequestTimeoutOp (link : nat) (id : list Z)
| AcceptResourcesOp (link : nat) (on : bool)
| SetLeafOp (iface : list Z) (on : bool)
| SetPaidPolicyOp (iface : list Z) (p : option PaidPolicy)
| SetIFACOp (iface : list Z) (f : option RnsCrypto.IFAC)
| AddDestinationOp (own : bool) (d : Destination)
| RemoveDestinationOp (h : list Z)
| RegisterHandlerOp (d : nat) (path : list Z)
| RememberOp (dest pub : list Z) (appData : option (list Z))
| RemovePathOp (dest : list Z).

Definition void {A} (m : M A) : M unit := let* _ := m in mret tt.

Definition perform (o : op) : M unit :=
  match o with
  | ReceivePacket raw iface => void (Inbound raw iface)
  | Tick => jobs
  | AnnounceTimer iface => flushAnnounceQueue iface
  | AnnounceOp dp iface pr =>
      let* d := gets (λ n, dheap n !! dp) in
      match d with Some d => void (AnnounceDest d iface pr) | None => mret tt end
  | RequestPathOp dest => void (RequestPath dest)
  | RequestPathEndOp dest w => void (RequestPath_end dest w)
  | SendDataOp dest plain r => void (SendData dest plain r)
  | SendRawOp raw dest dt => void (SendRaw raw dest dt)
  | InitiateOp dest => void (Initiate dest)
  | SendOp p plain => void (Send p plain)
  | SendContextOp p pt ctx data => SendContext p pt ctx data
  | IdentifyOp p id => void (Identify p id)
  | TeardownOp p => Teardown p
  | CloseAllOp => closeAll
  | SendResourceOp p payload => void (SendResource p payload)
  | RequestOp p path data => void (RequestOn p path data)
  | RequestTimeoutOp p id => RequestTimeout p id
  | AcceptResourcesOp p on => set_link p (λ l, l <| l_acceptResources := on |>)
  | SetLeafOp iface on => SetLeaf iface on
  | SetPaidPolicyOp iface p => SetPaidPolicy iface p
  | SetIFACOp iface f => SetIFAC iface f
  | AddDestinationOp own d => void (AddDestination own d)
  | RemoveDestinationOp h => RemoveDestination h
  | RegisterHandlerOp d path => RegisterRequestHandler d path
  | RememberOp dest pub app => void (Remember dest pub app)
  | RemovePathOp dest => Remove dest
  end.

(** One operation in one environment, without a panic. *)
Definition step (e : Env) (o : op) (n n' : Node) (ev : list event) : Prop := perform o e n = Some (n', ev, tt).

(** The nodes of a history of operations whose steps satisfy [ok]. *)
Inductive reached (ok : Env → op → Node → Prop) : Node → Prop :=
| reached_new id from ttl cb n : New id from ttl cb = Some n → reached ok n
| reached_step e o n n' ev : reached ok n → ok e o n → step e o n n' ev → reached ok n'.

End Inbound.

End RnsInbound.
