(* ===== verification/RnsTables.v ===== *)
(** What the operations of a node do to its routing tables, once and for all.

    The tables are the paths, the announces held for rebroadcast, the known identities and the hash
    list.  An invariant of these tables that survives the few primitives that change them survives
    every operation of the node. *)
From S2P Require Import Prelude Fields Msgpack RnsPacket RnsCrypto RnsWire RnsState RnsLogic RnsIface RnsAnnounce.
From S2P Require Import RnsPathReq RnsForward RnsLink RnsResource RnsLinkLogic RnsInbound.
Import Fields RnsPacket RnsWire RnsState RnsLogic RnsIface RnsAnnounce RnsPathReq RnsForward RnsLink RnsResource
  RnsLinkLogic RnsInbound.

Module RnsTables.

Abbreviation any := (λ _ : event, True).

Definition tables (n : Node) :=
  (paths n, announceTable n, heldAnnounces n, identities n, hashlist n, hashlistPrev n, pathTTL n).

(** [P] is a property of the tables. *)
Class Tabular (P : Node → Prop) := tabular n n' : tables n = tables n' → P n → P n'.

#[export] Instance tabular_frame P : Tabular P → Frame P.
Proof. intros HP. split; intros n f; by apply HP. Qed.

Lemma keeps_void {A} e E P (m : M A) : keeps e E P m → keeps e E P (void m).
Proof. intros Hm. apply keeps_bind; [done|]. intros. apply keeps_ret. Qed.

Section Tables.
Context {HC : Crypto} (e : Env) (P : Node → Prop) {HT : Tabular P}.

Lemma keeps_untouched (f : Node → Node) : (∀ n, tables (f n) = tables n) → keeps e any P (modify f).
Proof using HT. intros Hf. apply keeps_modify. intros n. by apply tabular. Qed.

Local Ltac untouched := apply keeps_untouched; intros ?; repeat case_match; reflexivity.
Local Ltac go := repeat first [ keep1 | untouched | by apply keeps_emit ].

(** ** Sending *)

Lemma keeps_tab_transmit j raw : keeps e any P (transmit j raw).
Proof using HT. unfold transmit, noteCrossing. go. Qed.

Lemma keeps_tab_transmit_ j raw : keeps e any P (transmit_ j raw).
Proof using HT. unfold transmit_. go. apply keeps_tab_transmit. Qed.

Lemma keeps_tab_set p f : keeps e any P (set_link p f).
Proof using HT. unfold set_link. untouched. Qed.
Hint Resolve keeps_tab_transmit keeps_tab_transmit_ keeps_tab_set : rns.

Lemma keeps_tab_send p pt ctx data : keeps e any P (sendLinkPacket p pt ctx data).
Proof using HT. unfold sendLinkPacket, link. go. Qed.

Lemma keeps_tab_drop id : keeps e any P (modify (λ n, n <| activeLinks ::= delete id |> <| pendingLinks ::= delete id |>)).
Proof using HT. untouched. Qed.

Lemma keeps_tab_paidBook j dest k t : keeps e any P (paidBook j dest k t).
Proof using HT. unfold paidBook. go. Qed.
Hint Resolve keeps_tab_send keeps_tab_drop keeps_tab_paidBook : rns.

Lemma keeps_tab_paidGate j dest k : keeps e any P (paidGate j dest k).
Proof using HT. unfold paidGate. go. Qed.

Lemma keeps_tab_paid_take_loop ids dest k : keeps e any P (paid_take_loop ids dest k).
Proof using HT. induction ids; simpl; go. Qed.

Lemma keeps_tab_paidTake dest k except : keeps e any P (paidTake dest k except).
Proof using HT. unfold paidTake. go. apply keeps_tab_paid_take_loop. Qed.

Lemma keeps_tab_sendAnnounceOn id raw t : keeps e any P (sendAnnounceOn id raw t).
Proof using HT. unfold sendAnnounceOn, announceBitrate. go. Qed.
Hint Resolve keeps_tab_paidGate keeps_tab_paidTake keeps_tab_sendAnnounceOn : rns.

Lemma keeps_tab_flush id : keeps e any P (flushAnnounceQueue id).
Proof using HT. unfold flushAnnounceQueue, announceBitrate. go. Qed.

Lemma keeps_tab_AnnounceDest d id pr : keeps e any P (AnnounceDest d id pr).
Proof using HT. unfold AnnounceDest. go. Qed.

Lemma keeps_tab_sendPathRequest dest id tag : keeps e any P (sendPathRequest dest id tag).
Proof using HT. unfold sendPathRequest. go. Qed.

Lemma keeps_tab_resolve dest : keeps e any P (resolveInflight dest).
Proof using HT. unfold resolveInflight. go. Qed.
Hint Resolve keeps_tab_AnnounceDest keeps_tab_sendPathRequest keeps_tab_resolve : rns.

Lemma keeps_tab_send_announce t o : keeps e any P (send_announce t o).
Proof using HT. unfold send_announce, IsLeaf, withoutLeaves. go. Qed.

(** ** Operations that change no table *)

Lemma keeps_tab_RequestPath dest : keeps e any P (RequestPath dest).
Proof using HT. unfold RequestPath, Has, Get, alloc, draw_. go. Qed.

Local Ltac family l := apply l; intros; eauto with rns.

Lemma keeps_tab_Send p plain : keeps e any P (Send p plain).
Proof using HT. unfold Send, token_encrypt, link, addReceipt. go. family keeps_LinkEncrypt. Qed.

Lemma keeps_tab_Identify p id : keeps e any P (Identify p id).
Proof using HT. unfold Identify, token_encrypt, link. go; [family keeps_LinkEncrypt|unfold send_link_packet; go]. Qed.

Lemma keeps_tab_RequestOn p path data : keeps e any P (RequestOn p path data).
Proof using HT. unfold RequestOn, token_encrypt, link. go; [family keeps_LinkEncrypt|]. family keeps_sendResource. Qed.

Lemma keeps_tab_watchdog t : keeps e any P (watchdog t).
Proof using HT.
  unfold watchdog, resourceWatchdog, all_links. go; [family keeps_watch_resources|family keeps_watch_link].
Qed.

(** ** The primitives that do *)

Context (Htouch : ∀ dest, keeps e any P (touch dest)).

Lemma keeps_tab_outbound raw dest dt : keeps e any P (outbound raw dest dt).
Proof using HT Htouch. unfold outbound, Get. go. Qed.
Hint Resolve keeps_tab_outbound : rns.

Lemma keeps_tab_SendData dest plain r : keeps e any P (SendData dest plain r).
Proof using HT Htouch. unfold SendData, Recall, HopsTo, Get, addReceipt. go. Qed.

Lemma keeps_tab_Initiate dest : keeps e any P (Initiate dest).
Proof using HT Htouch. unfold Initiate, Recall, NextHopInterface, HopsTo, Get, alloc. go. Qed.

(** Operations other than receiving a packet, the periodic jobs and the four that edit a table. *)
Definition table_op (o : op) : bool :=
  match o with ReceivePacket _ _ | Tick | SetLeafOp _ _ | RememberOp _ _ _ | RemovePathOp _ => true | _ => false end.

Lemma keeps_tab_op o : table_op o = false → keeps e any P (perform o).
Proof using HT Htouch.
  destruct o; intros Ho; try discriminate Ho; unfold perform, void.
  - apply keeps_tab_flush.
  - go.
  - go. apply keeps_tab_RequestPath.
  - unfold RequestPath_end, Has, Get. go.
  - go. apply keeps_tab_SendData.
  - unfold SendRaw. go.
  - go. apply keeps_tab_Initiate.
  - go. apply keeps_tab_Send.
  - unfold SendContext, send_link_packet. go.
  - go. apply keeps_tab_Identify.
  - family keeps_Teardown.
  - unfold closeAll, all_links. go. family keeps_Teardown.
  - unfold SendResource. go. family keeps_sendResource.
  - go. apply keeps_tab_RequestOn.
  - unfold RequestTimeout. family keeps_finish_request.
  - go.
  - unfold SetPaidPolicy. go.
  - unfold SetIFAC. go.
  - unfold AddDestination, alloc. go.
  - unfold RemoveDestination. go.
  - unfold RegisterRequestHandler. go.
Qed.

(** ** Receiving *)

Context (Hhash : ∀ h n, P n → P (n <| hashlist ::= union {[h]} |>)).
Context (Hannounce : ∀ pkt, keeps e any P (handleAnnounce pkt)).
Context (Hanswer : ∀ iface dest r en ann n, P n → paths n !! dest = Some en → pe_Announce en = Some ann →
  keeps e any P (answer_known iface dest r en ann)).

Lemma keeps_tab_forwardTransport pkt : keeps e any P (forwardTransport pkt).
Proof using HT Htouch. unfold forwardTransport, Get, crossesLeaf. go. Qed.

Lemma keeps_tab_forwardHeader1 pkt : keeps e any P (forwardHeader1 pkt).
Proof using HT Htouch. unfold forwardHeader1, Get, crossesLeaf. go. Qed.

Lemma keeps_tab_linkTransit pkt : keeps e any P (linkTransit pkt).
Proof using HT Hhash.
  unfold linkTransit. go. apply keeps_modify. intros n Hn. eapply tabular; [|by apply Hhash]. reflexivity.
Qed.

Lemma keeps_tab_lrProofTransit pkt : keeps e any P (lrProofTransit pkt).
Proof using HT. unfold lrProofTransit. go. Qed.

Lemma keeps_tab_proofTransit pkt : keeps e any P (proofTransit pkt).
Proof using HT. unfold proofTransit. go. Qed.

Lemma keeps_tab_handleReceiptProof pkt : keeps e any P (handleReceiptProof pkt).
Proof using HT. unfold handleReceiptProof. go. Qed.

Lemma keeps_tab_deliverLocal d pkt : keeps e any P (deliverLocal d pkt).
Proof using HT. unfold deliverLocal, prove. go. Qed.

Lemma keeps_tab_accept dp d pkt : keeps e any P (accept dp d pkt).
Proof using HT. unfold accept, alloc. go. Qed.

Lemma keeps_tab_receive p pkt : keeps e any P (receive p pkt).
Proof using HT. family keeps_receive. Qed.

Lemma keeps_tab_handleProof pkt : keeps e any P (handleProof pkt).
Proof using HT. unfold handleProof, link. go. family keeps_send_encrypted. Qed.

Lemma keeps_tab_discover iface dest tag : keeps e any P (discover iface dest tag).
Proof using HT. unfold discover, withoutLeaves. go. Qed.

Lemma keeps_tab_leaf_request iface dest : keeps e any P (leaf_path_request iface dest).
Proof using HT. unfold leaf_path_request, LocalDestination. go. Qed.
Hint Resolve keeps_tab_discover keeps_tab_leaf_request : rns.

Lemma keeps_tab_answer iface dest r tag :
  keeps e any P (let* e := Get dest in
    match e with
    | Some (MkPathEntry _ _ _ _ _ _ _ (Some ann) _ _ as e) => answer_known iface dest r e ann
    | _ => discover iface dest tag
    end).
Proof using HT Hanswer.
  apply keeps_bind_gets. intros n Hn. destruct (paths n !! dest) as [en|] eqn:Hen; [|go].
  destruct en as [? ? ? ? ? ? ? [ann|] ? ?]; [|go]. by eapply Hanswer.
Qed.

Lemma keeps_tab_handlePathRequest pkt : keeps e any P (handlePathRequest pkt).
Proof using HT Hanswer.
  unfold handlePathRequest, IsLeaf, LocalDestination.
  repeat first [ apply keeps_tab_answer | keep1 | untouched ].
Qed.
Hint Resolve keeps_tab_accept keeps_tab_forwardHeader1 keeps_tab_receive keeps_tab_handlePathRequest
  keeps_tab_deliverLocal keeps_tab_lrProofTransit keeps_tab_handleProof keeps_tab_proofTransit
  keeps_tab_handleReceiptProof keeps_tab_forwardTransport keeps_tab_linkTransit : rns.

Lemma keeps_tab_dispatch pkt : keeps e any P (dispatch pkt).
Proof using HT Htouch Hannounce Hanswer. unfold dispatch, LocalDestination, active. go. Qed.
Hint Resolve keeps_tab_dispatch : rns.

Lemma keeps_tab_route pkt : keeps e any P (route pkt).
Proof using HT Htouch Hhash Hannounce Hanswer. unfold route. go. Qed.

Lemma keeps_tab_inbound_clean raw iface : keeps e any P (inbound_clean raw iface).
Proof using HT Htouch Hhash Hannounce Hanswer.
  unfold inbound_clean, noteCrossing, paidExtraHops. go; [|apply keeps_tab_route].
  apply keeps_modify. intros n Hn. case_match; [by apply Hhash|done].
Qed.

Lemma keeps_tab_Inbound raw iface : keeps e any P (Inbound raw iface).
Proof using HT Htouch Hhash Hannounce Hanswer. unfold Inbound. go; apply keeps_tab_inbound_clean. Qed.

(** ** Periodic jobs *)

Context (Hdue : ∀ t, keeps e any P (processAnnounceTable t)).
Context (Hexpire : ∀ t, keeps e any P (Expire t)).
Context (Hrotate : ∀ n, (50000 < size (hashlist n))%nat → P n → P (n <| hashlistPrev := hashlist n |> <| hashlist := ∅ |>)).

Lemma keeps_tab_jobs : keeps e any P jobs.
Proof using HT Hdue Hexpire Hrotate.
  unfold jobs, expireTables, expireReceipts, expireDiscovery. go.
  - apply keeps_tab_watchdog.
  - apply keeps_modify. intros n Hn. case_match eqn:Hf; [by apply Hrotate; [apply Nat.ltb_lt|]|done].
Qed.

End Tables.

End RnsTables.
