(* ===== verification/RnsToy.v ===== *)
(** A small instance of the primitives with the sizes and laws of the real ones, and environments,
    for evaluating the node on concrete packets. *)
From S2P Require Import Prelude Fields Msgpack RnsPacket RnsCrypto RnsWire RnsState RnsIface RnsInbound.
Import Fields RnsPacket RnsWire RnsState RnsIface RnsInbound.

Module RnsToy.

(** 32 bytes of a polynomial hash of 32 bits. *)
Definition toy_hash (m : list Z) : list Z :=
  let h := foldl (λ a b, Z.land (a * 33 + b + 1) 4294967295) 5381 m in
  let w := (λ k, Z.land (Z.shiftr h k) 255) <$> [0; 8; 16; 24] in
  w ++ w ++ w ++ w ++ w ++ w ++ w ++ w.

Definition toy_ed_sign (k m : list Z) : list Z := take 32 k ++ toy_hash m.
Definition toy_ed_verify (pub m sig : list Z) : bool := bool_decide (sig = pub ++ toy_hash m).

#[export] Instance toy : Crypto := {
  sha256 := toy_hash;
  hkdf_read := RnsCrypto.toy_hkdf;
  ed_from_seed s := s ++ s;
  ed_public k := take 32 k;
  ed_sign := toy_ed_sign;
  ed_verify := toy_ed_verify;
  cbc_encrypt := λ _ _ p, p;
  cbc_decrypt := λ _ _ p, p;
  hmac := RnsCrypto.toy_mac;
  x25519_pub k := k;
  ecdh := RnsCrypto.toy_dh;
  bunzip2 := Some;
}.

Definition toy_identity (k : Z) : Identity :=
  MkIdentity (Some (replicate 32 k)) (replicate 32 k) (Some (replicate 64 (k + 1))) (replicate 32 (k + 1)).

(** All interfaces in [flood] are up and take what they are given; the random source yields the
    number of the draw. *)
Definition toy_env (t : Z) (flood : list (list Z)) : Env :=
  MkEnv t (λ _ _, true) flood (λ _, 0) (λ _, 0) None (λ k n, Some (replicate n (Z.of_nat k mod 256))) 0 (λ _, [])
    (λ _ _, true) (λ _, None) (λ _ l, l) 3.

Definition new_node (k : Z) : Node :=
  default (MkNode (toy_identity k) [] ∅ 0 false ∅ ∅ ∅ ∅ ∅ ∅ ∅ ∅ ∅ ∅ ∅ ∅ ∅ ∅ ∅ ∅ ∅ ∅ ∅ ∅ ∅ ∅ ∅ ∅ ∅ ∅ stat_zero 0 0)
    (New (Some (toy_identity k)) ∅ 0 false).

(** Runs operations, each in its environment; [None] is a panic. *)
Fixpoint play (l : list (Env * op)) (n : Node) : option (Node * list event) :=
  match l with
  | [] => Some (n, [])
  | (e, o) :: l =>
      match perform o e n with
      | None => None
      | Some (n1, ev1, _) =>
          match play l n1 with
          | None => None
          | Some (n2, ev2) => Some (n2, ev1 ++ ev2)
          end
      end
  end.

(** The state after [l], for evaluation. *)
Definition after (l : list (Env * op)) (n : Node) : Node := match play l n with Some (n', _) => n' | None => n end.
Definition events_of (l : list (Env * op)) (n : Node) : list event := match play l n with Some (_, ev) => ev | None => [] end.

Lemma reached_new_node ok k : reached ok (new_node k).
Proof. eapply (reached_new ok (Some (toy_identity k)) ∅ 0 false). reflexivity. Qed.

(** [ok] holds at every step of a history. *)
Fixpoint along (ok : Env → op → Node → Prop) (l : list (Env * op)) (n : Node) : Prop :=
  match l with
  | [] => True
  | (e, o) :: l => ok e o n ∧ match perform o e n with Some (n1, _, _) => along ok l n1 | None => True end
  end.

Lemma reached_play ok l : ∀ n n' ev, reached ok n → along ok l n → play l n = Some (n', ev) → reached ok n'.
Proof.
  induction l as [|[e o] l IH]; intros n n' ev Hn Hok Hp; simpl in Hp; [by simplify_eq|].
  destruct Hok as [Hok Hl]. destruct (perform o e n) as [[[n1 ev1] []]|] eqn:Hs; [|done].
  destruct (play l n1) as [[n2 ev2]|] eqn:Hp2; [|done]. simplify_eq.
  apply (IH n1 n' ev2); [|done|done]. by apply (reached_step _ e o n n1 ev1).
Qed.

Lemma reached_after ok l n : reached ok n → along ok l n → is_some (play l n) = true → reached ok (after l n).
Proof.
  intros Hn Hl Hp. unfold after. destruct (play l n) as [[n' ev]|] eqn:Heq; [|done]. by eapply reached_play.
Qed.

(** One operation that does not panic, for evaluation. *)
Definition next (e : Env) (o : op) (n : Node) : Node := match perform o e n with Some (n', _, _) => n' | None => n end.
Definition emits (e : Env) (o : op) (n : Node) : list event := match perform o e n with Some (_, ev, _) => ev | None => [] end.

Lemma op_runs e o n : is_some (perform o e n) = true → step e o n (next e o n) (emits e o n).
Proof. unfold step, next, emits. by destruct (perform o e n) as [[[n' ev] []]|]. Qed.

(** ** Three nodes on one radio channel

    [far] announces a destination; [relay] hears it, and [near] hears only [relay]. *)
Definition wan : list Z := str "mesh0".
Definition lan : list Z := str "tcp-ws7".

(** At second [t]. *)
Definition at_ (t : Z) : Env := toy_env (t * Second) [wan; lan].

Definition sent (out : list Z) (ev : list event) : list (list Z) :=
  omap (λ e, match e with Transmit o w => if decide (o = out) then Some w else None | _ => None end) ev.

(** The last packet a history puts on the radio channel. *)
Definition said (l : list (Env * op)) (n : Node) : list Z := default [] (last (sent wan (events_of l n))).

Definition inbox : Destination := MkDestination (str "lxmf.delivery") [] (toy_identity 9) true true true [] [].
Definition inbox_hash : list Z := IdentityDestHash (toy_identity 9) (str "lxmf.delivery").

Definition far_up : list (Env * op) := [(at_ 1000, AddDestinationOp true inbox); (at_ 1000, AnnounceOp 0 [] false)].
Definition announce_far : list Z := Eval vm_compute in said far_up (new_node 9).

(** The relay serves a leaf as well. *)
Definition relay_up : list (Env * op) :=
  [(at_ 1000, SetLeafOp lan true); (at_ 1001, ReceivePacket announce_far wan); (at_ 1003, Tick)].
Definition announce_relay : list Z := Eval vm_compute in said relay_up (new_node 7).

Definition near_up : list (Env * op) := [(at_ 1003, ReceivePacket announce_relay wan); (at_ 1004, InitiateOp inbox_hash)].
Definition request_near : list Z := Eval vm_compute in said near_up (new_node 5).

Definition relay_link : list (Env * op) := relay_up ++ [(at_ 1004, ReceivePacket request_near wan)].
Definition request_relay : list Z := Eval vm_compute in said relay_link (new_node 7).

Definition far_link : list (Env * op) := far_up ++ [(at_ 1005, ReceivePacket request_relay wan)].
Definition proof_far : list Z := Eval vm_compute in said far_link (new_node 9).

Definition relay_proof : list (Env * op) := relay_link ++ [(at_ 1006, ReceivePacket proof_far wan)].
Definition proof_relay : list Z := Eval vm_compute in said relay_proof (new_node 7).

Definition near_link : list (Env * op) := near_up ++ [(at_ 1007, ReceivePacket proof_relay wan)].
Definition rtt_near : list Z := Eval vm_compute in said near_link (new_node 5).

Definition relay_rtt : list (Env * op) := relay_proof ++ [(at_ 1008, ReceivePacket rtt_near wan)].
Definition rtt_relay : list Z := Eval vm_compute in said relay_rtt (new_node 7).

Definition far_open : list (Env * op) := far_link ++ [(at_ 1009, ReceivePacket rtt_relay wan)].

End RnsToy.
