(* ===== verification/RnsLeaf.v ===== *)
(** Leaf interfaces are isolated: a node never relays into or out of one. *)
From S2P Require Import Prelude Fields Msgpack RnsPacket RnsCrypto RnsWire RnsState RnsLogic RnsIface RnsAnnounce.
From S2P Require Import RnsPathReq RnsForward RnsLink RnsResource RnsLinkLogic RnsInbound RnsToy.
Import Fields RnsPacket RnsWire RnsState RnsLogic RnsIface RnsAnnounce RnsPathReq RnsForward RnsLink RnsResource
  RnsLinkLogic RnsInbound RnsToy.

Module RnsLeaf.

(** ** The invariant *)

(** No entry of the forwarding tables has a leaf at either end, and what waits for the announce cap
    of a leaf is not in transport. *)
Definition apart (L : gset (list Z)) (lf : gset (list Z)) (lt : gmap (list Z) linkEntry)
  (rt : gmap (list Z) reverseEntry) (aq : gmap (list Z) announceQueueT) : Prop :=
  lf = L ∧
  (∀ id en, lt !! id = Some en → le_receivedIface en ∉ L ∧ le_nextHopIface en ∉ L) ∧
  (∀ id en, rt !! id = Some en → re_receivedIface en ∉ L ∧ re_outboundIface en ∉ L) ∧
  (∀ i q, aq !! i = Some q → i ∈ L → Forall (λ raw, is_header2 raw = false) (aq_pending q)).

Definition isolated (L : gset (list Z)) (F : gmap (list Z) RnsCrypto.IFAC) (n : Node) : Prop :=
  apart L (leaf n) (linkTable n) (reverseTable n) (announceQueue n) ∧ ifac n = F.

(** Every carried link has two different interfaces. *)
Definition no_hairpin (n : Node) : Prop :=
  ∀ id en, linkTable n !! id = Some en → le_nextHopIface en ≠ le_receivedIface en.

(** While a packet from interface [i] is handled; [hp] says whether it is known that no link is
    carried on one interface. *)
Definition handling (L : gset (list Z)) (F : gmap (list Z) RnsCrypto.IFAC) (i : list Z) (hp : Prop) (n : Node) : Prop :=
  isolated L F n ∧ (hp → i ∈ L → no_hairpin n).

#[local] Instance isolated_frame L F : Frame (isolated L F).
Proof. split; intros n f H; exact H. Qed.

#[local] Instance handling_frame L F i hp : Frame (handling L F i hp).
Proof. split; intros n f H; exact H. Qed.

(** ** Transmission under a frame *)

Section Sending.
Context {HC : Crypto} (e : Env) (E : event → Prop) (P : Node → Prop) `{!Frame P}.
Context (Hquiet : ∀ ev, is_transmit ev = false → E ev).

Lemma keeps_noteCrossing i raw b : keeps e E P (noteCrossing i raw b).
Proof using All.
  unfold noteCrossing. keep; [|by apply keeps_emit, Hquiet].
  apply keeps_modify. intros. by apply frame_crossings.
Qed.

Lemma keeps_transmit i raw :
  (∀ n w, P n → on_wire n i raw = Some w → E (Transmit i w)) → keeps e E P (transmit i raw).
Proof using All.
  intros HE. unfold transmit. apply keeps_seq; [eauto with rns|]. apply keeps_bind_gets. intros n Hn.
  apply keeps_bind_option. intros w Hw. apply keeps_seq; [apply keeps_emit; by eapply HE|].
  keep. apply keeps_noteCrossing.
Qed.

Lemma keeps_transmit_ i raw :
  (∀ n w, P n → on_wire n i raw = Some w → E (Transmit i w)) → keeps e E P (transmit_ i raw).
Proof using All. intros HE. unfold transmit_. keep. by apply keeps_transmit. Qed.

End Sending.

(** ** Announces and the announce cap *)

Section Announces.
Context {HC : Crypto} (e : Env) (E : event → Prop) (L : gset (list Z)) (F : gmap (list Z) RnsCrypto.IFAC) (i : list Z)
  (hp : Prop).
Abbreviation P := (handling L F i hp).
Context (Hquiet : ∀ ev, is_transmit ev = false → E ev).

Lemma keeps_queue id q :
  (id ∈ L → Forall (λ raw, is_header2 raw = false) (aq_pending q)) →
  keeps e E P (modify (λ n, n <| announceQueue ::= <[id := q]> |>)).
Proof.
  intros Hq. apply keeps_modify. intros n [[(Hl & Hlt & Hrt & Haq) HF] Hh].
  split; [split; [|exact HF]|exact Hh]. split; [exact Hl|split; [exact Hlt|split; [exact Hrt|]]].
  intros j q'. cbn. destruct (decide (j = id)) as [->|]; [|rewrite lookup_insert_ne by done; by apply Haq].
  rewrite lookup_insert_eq. intros [= <-]. done.
Qed.

Lemma queue_of n id :
  P n → id ∈ L →
  Forall (λ raw, is_header2 raw = false) (aq_pending (default (MkAnnounceQueue zero_time [] None) (announceQueue n !! id))).
Proof. intros [[(_ & _ & _ & Haq) _] _] Hid. destruct (announceQueue n !! id) eqn:Hq; [by eapply Haq|constructor]. Qed.

(** An announce goes out, or into a queue where it may wait. *)
Lemma keeps_sendAnnounceOn id raw t :
  (∀ n w, P n → on_wire n id raw = Some w → E (Transmit id w)) →
  (id ∈ L → is_header2 raw = false) → keeps e E P (sendAnnounceOn id raw t).
Proof using Hquiet.
  intros HE Hown. unfold sendAnnounceOn. apply keeps_bind; [unfold announceBitrate; keep|]. intros bitrate.
  destruct (bitrate <=? 0); [by apply keeps_transmit_|]. cbv zeta. apply keeps_bind_gets. intros n Hn.
  pose proof (queue_of n id Hn) as Hq. set (q := default _ _) in *. keep; try (by apply keeps_transmit_);
    apply keeps_queue; try done; intros Hid; cbn; repeat case_match; cbn; apply Forall_app; auto.
Qed.

Lemma own_announce_header1 a : an_ContextFlag a = 0 → is_header2 (MarshalPacket a) = false.
Proof. intros Ha. unfold is_header2, MarshalPacket, Marshal, MarshalHeader, PackFlags. cbn. by rewrite Ha. Qed.

Lemma keeps_paidBook j dest k t : keeps e E P (paidBook j dest k t).
Proof. unfold paidBook. keep. apply keeps_modify. intros n H. exact H. Qed.
Hint Resolve keeps_paidBook : rns.

Lemma keeps_paidGate j dest k : keeps e E P (paidGate j dest k).
Proof. unfold paidGate. keep. Qed.

Lemma keeps_paid_take_loop ids dest k : keeps e E P (paid_take_loop ids dest k).
Proof. induction ids as [|id ids IH]; simpl; keep. Qed.

Lemma keeps_paidTake dest k except : keeps e E P (paidTake dest k except).
Proof. unfold paidTake. keep. apply keeps_paid_take_loop. Qed.
Hint Resolve keeps_paidGate keeps_paidTake : rns.

Lemma keeps_announce_on d id pr :
  id ≠ [] → (∀ w, E (Transmit id w)) → keeps e E P (AnnounceDest d id pr).
Proof using Hquiet.
  intros Hid HE. unfold AnnounceDest. keep1; [keep|]. keep1; [keep|]. keep1; [keep|].
  destruct a1 as [random|]; [|keep]. apply keeps_bind_option. intros ann Hann.
  unfold NewAnnounce in Hann. apply bind_Some in Hann as (sig & _ & [= <-]).
  cbv zeta. rewrite decide_False by done. keep.
  apply keeps_sendAnnounceOn; [done|]. intros _. apply own_announce_header1. by destruct pr.
Qed.

(** ** Handling one packet *)

Definition relays (ev : event) : Prop :=
  match ev with Transmit o _ => o = i ∨ (i ∉ L ∧ o ∉ L) | _ => True end.

Context (HE : ∀ ev, relays ev → E ev).

Lemma transmit_back w : E (Transmit i w).
Proof using HE. apply HE. by left. Qed.

Lemma transmit_on o w : i ∉ L → o ∉ L → E (Transmit o w).
Proof using HE. intros. apply HE. by right. Qed.

Lemma leaf_of n : P n → leaf n = L.
Proof. by intros [[[Hl _] _] _]. Qed.

Lemma keeps_bind_IsLeaf {B} j (k : bool → M B) :
  (j ∈ L → keeps e E P (k true)) → (j ∉ L → keeps e E P (k false)) → keeps e E P (bind (IsLeaf j) k).
Proof.
  intros H1 H2. apply keeps_bind_gets. intros n Hn. rewrite (leaf_of n Hn). by case_bool_decide; [apply H1|apply H2].
Qed.

Lemma keeps_bind_crosses {B} o (k : bool → M B) :
  keeps e E P (k true) → (i ∉ L → o ∉ L → keeps e E P (k false)) → keeps e E P (bind (crossesLeaf i o) k).
Proof.
  intros H1 H2. intros n Hn. unfold crossesLeaf. apply wp_bind, wp_bind, wp_gets. rewrite (leaf_of n Hn).
  case_bool_decide as Hd.
  - apply wp_seq, wp_modify, wp_ret. by apply H1.
  - apply wp_seq, wp_ret, wp_ret. apply H2; [tauto|tauto|done].
Qed.

Lemma keeps_bind_withoutLeaves {B} l (k : list (list Z) → M B) :
  (∀ l', (∀ o, o ∈ l' → o ∉ L ∧ o ∈ l) → keeps e E P (k l')) → keeps e E P (bind (withoutLeaves l) k).
Proof.
  intros Hk. apply keeps_bind_gets. intros n Hn. rewrite (leaf_of n Hn). apply Hk. intros o Ho.
  by apply list_elem_of_filter in Ho.
Qed.

Lemma keeps_sendPathRequest dest o tag : i ∉ L → o ∉ L → keeps e E P (sendPathRequest dest o tag).
Proof using Hquiet HE. intros. unfold sendPathRequest. keep. apply keeps_transmit_; [apply _|done|]. intros. by apply transmit_on. Qed.

(** Updates of the tables the invariant does not look at. *)
Local Ltac untouched := apply keeps_modify; let n := fresh in let Hn := fresh in intros n Hn; repeat case_match; exact Hn.
Local Ltac go1 :=
  lazymatch goal with
  | |- keeps _ _ _ (bind (IsLeaf _) _) => apply keeps_bind_IsLeaf; intros ?
  | |- keeps _ _ _ (bind (crossesLeaf _ _) _) => apply keeps_bind_crosses; [|intros ? ?]
  | |- keeps _ _ _ (bind (withoutLeaves _) _) => apply keeps_bind_withoutLeaves; intros ? ?
  | |- keeps _ _ _ (bind (gets _) _) => apply keeps_bind_gets; intros ? ?
  | |- keeps _ _ _ (modify _) => untouched
  | |- keeps _ _ _ (emit _) => by apply keeps_emit, Hquiet
  | |- _ => keep1
  end.
Local Ltac go := repeat go1.

Lemma keeps_answer_waiting l dest ann hops :
  i ∉ L → (∀ o, o ∈ l → o ∉ L) → keeps e E P (answer_waiting l dest ann hops).
Proof using Hquiet HE.
  intros Hi. induction l as [|o l IH]; intros Hl; simpl; [keep|].
  keep; [apply keeps_transmit_; [apply _|done|]; intros; apply transmit_on; [done|apply Hl; left]|].
  apply IH. intros. apply Hl. by right.
Qed.

Lemma keeps_learn_path pkt ann from hops :
  pk_Iface pkt = i → keeps e E P (learn_path pkt ann from hops).
Proof using Hquiet HE.
  intros Hi. unfold learn_path, Put, remember_announce, Get. rewrite Hi. go; cbn in *.
  - destruct l' as [|o l']; [simpl; go|]. set_solver.
  - apply keeps_answer_waiting; [done|]. naive_solver.
Qed.

Lemma keeps_handleAnnounce pkt : pk_Iface pkt = i → keeps e E P (handleAnnounce pkt).
Proof using Hquiet HE.
  intros Hi. unfold handleAnnounce, LocalDestination, note_rebroadcast. go; by apply keeps_learn_path.
Qed.

Lemma keeps_discover dest tag : i ∉ L → keeps e E P (discover i dest tag).
Proof using Hquiet HE.
  intros Hi. unfold discover. go; (apply keeps_sendPathRequest; [done|]); naive_solver.
Qed.

Lemma keeps_handlePathRequest pkt : pk_Iface pkt = i → i ≠ [] → keeps e E P (handlePathRequest pkt).
Proof using Hquiet HE.
  intros Hi Hne. unfold handlePathRequest, LocalDestination, Get, resolveInflight, leaf_path_request. rewrite Hi.
  assert (∀ d, keeps e E P (AnnounceDest d i true)) as Ha.
  { intros d. apply keeps_announce_on; [done|]. apply transmit_back. }
  go; try apply Ha; try (by apply keeps_discover).
  unfold answer_known, resolveInflight. go.
Qed.

(** A new entry of a forwarding table has its ends off the leaves. *)
Lemma keeps_link_entry id en :
  i ∉ L → le_receivedIface en ∉ L → le_nextHopIface en ∉ L →
  keeps e E P (modify (λ n, n <| linkTable ::= <[id := en]> |>)).
Proof.
  intros Hi H1 H2. apply keeps_modify. intros n [[(Hl & Hlt & Hrt & Haq) HF] Hh].
  split; [split; [|exact HF]|done]. split; [exact Hl|split; [|split; [exact Hrt|exact Haq]]].
  intros j en'. cbn. destruct (decide (j = id)) as [->|]; [|rewrite lookup_insert_ne by done; by apply Hlt].
  rewrite lookup_insert_eq. by intros [= <-].
Qed.

Lemma keeps_reverse_entry id en :
  re_receivedIface en ∉ L → re_outboundIface en ∉ L →
  keeps e E P (modify (λ n, n <| reverseTable ::= <[id := en]> |>)).
Proof.
  intros H1 H2. apply keeps_modify. intros n [[(Hl & Hlt & Hrt & Haq) HF] Hh].
  split; [split; [|exact HF]|exact Hh]. split; [exact Hl|split; [exact Hlt|split; [|exact Haq]]].
  intros j en'. cbn. destruct (decide (j = id)) as [->|]; [|rewrite lookup_insert_ne by done; by apply Hrt].
  rewrite lookup_insert_eq. by intros [= <-].
Qed.

(** What forwarding writes and sends, once both interfaces are known to be no leaves. *)
Local Ltac forwarded :=
  first [ apply keeps_transmit_; [apply _|done|]; intros; by apply transmit_on
        | apply keeps_link_entry; cbn; congruence
        | apply keeps_reverse_entry; cbn; congruence ].

Lemma keeps_forwardTransport pkt : pk_Iface pkt = i → keeps e E P (forwardTransport pkt).
Proof using Hquiet HE.
  intros Hi. unfold forwardTransport, Get, touch. rewrite Hi. repeat first [go1 | forwarded].
Qed.

Lemma keeps_forwardHeader1 pkt : pk_Iface pkt = i → keeps e E P (forwardHeader1 pkt).
Proof using Hquiet HE.
  intros Hi. unfold forwardHeader1, Get. rewrite Hi. repeat first [go1 | forwarded].
Qed.

Lemma transit_off_leaf n id en o hops :
  hp → P n → linkTable n !! id = Some en → transit_iface en i hops = Some o → i ∉ L ∧ o ∉ L.
Proof.
  intros Hhp' [[(_ & Hlt & _) _] Hh] Hen Ho. destruct (Hlt _ _ Hen) as [H1 H2]. unfold transit_iface in Ho.
  destruct (decide (i ∈ L)) as [Hi|Hi].
  - specialize (Hh Hhp' Hi _ _ Hen). repeat case_decide; repeat case_match; congruence.
  - split; [done|]. repeat case_decide; repeat case_match; congruence.
Qed.

Lemma keeps_alter_link f id :
  (∀ en, le_receivedIface (f en) = le_receivedIface en ∧ le_nextHopIface (f en) = le_nextHopIface en) →
  ∀ n, P n → P (n <| linkTable ::= alter f id |>).
Proof.
  intros Hf n [[(Hl & Hlt & Hrt & Haq) HF] Hh].
  assert (∀ j en, alter f id (linkTable n) !! j = Some en → ∃ en', linkTable n !! j = Some en' ∧
            le_receivedIface en = le_receivedIface en' ∧ le_nextHopIface en = le_nextHopIface en') as Ha.
  { intros j en. destruct (decide (j = id)) as [->|]; [|rewrite lookup_alter_ne by done; eauto].
    rewrite lookup_alter_eq. intros (en' & ? & ->)%fmap_Some. exists en'. split; [done|]. apply Hf. }
  split; [split; [|exact HF]|].
  - split; [exact Hl|split; [|split; [exact Hrt|exact Haq]]]. intros j en (en' & Hen' & -> & ->)%Ha. by apply (Hlt j).
  - intros Hhp' Hi j en (en' & Hen' & -> & ->)%Ha. by apply (Hh Hhp' Hi j).
Qed.

Context (Hhp : hp ∨ ∀ ev, E ev).

Lemma keeps_linkTransit pkt : pk_Iface pkt = i → keeps e E P (linkTransit pkt).
Proof using Hquiet HE Hhp.
  intros Hi. unfold linkTransit. rewrite Hi. apply keeps_bind_gets. intros n Hn.
  destruct (linkTable n !! _) as [en|] eqn:Hen; [|go]. case_match; [go|].
  destruct (transit_iface en i _) as [o|] eqn:Ho; [|go].
  assert (∀ w, E (Transmit o w)) as Htx.
  { destruct Hhp as [Hhp'|Hall]; [|done]. destruct (transit_off_leaf _ _ _ _ _ Hhp' Hn Hen Ho). intros. by apply transmit_on. }
  destruct o as [|x o]; [go|]. go1; [go|]. go1; [|go1; [go|]; go1; [|go]; by apply keeps_transmit_; [apply _|..]].
  apply keeps_modify. intros n' Hn'. apply keeps_alter_link; [done|]. exact Hn'.
Qed.

Lemma keeps_lrProofTransit pkt : pk_Iface pkt = i → keeps e E P (lrProofTransit pkt).
Proof using Hquiet HE.
  intros Hi. unfold lrProofTransit. rewrite Hi. apply keeps_bind_gets. intros n Hn.
  destruct (linkTable n !! _) as [en|] eqn:Hen; [|go]. case_match eqn:Hg; [go|].
  apply orb_false_iff in Hg as [_ Hg]. apply negb_false_iff, bool_decide_eq_true in Hg.
  destruct Hn as [[(_ & Hlt & _) _] _]. destruct (Hlt _ _ Hen). assert (i ∉ L) by congruence.
  go; [|forwarded]. apply keeps_modify. intros n' Hn'. by apply keeps_alter_link.
Qed.

Lemma keeps_proofTransit pkt : pk_Iface pkt = i → keeps e E P (proofTransit pkt).
Proof using Hquiet HE.
  intros Hi. unfold proofTransit. rewrite Hi. apply keeps_bind_gets. intros n Hn.
  destruct (reverseTable n !! _) as [en|] eqn:Hen; [|go].
  destruct Hn as [[(_ & _ & Hrt & _) _] _]. destruct (Hrt _ _ Hen) as [H1 H2].
  go1.
  - apply keeps_modify. intros n' [[(Hl' & Hlt' & Hrt' & Haq') HF'] Hh'].
    split; [split; [|exact HF']|exact Hh']. split; [exact Hl'|split; [exact Hlt'|split; [|exact Haq']]].
    intros j en'. cbn. intros [_ Hj]%lookup_delete_Some. by eapply Hrt'.
  - case_bool_decide; [|go]. assert (i ∉ L) by congruence. forwarded.
Qed.

Lemma keeps_handleReceiptProof pkt : keeps e E P (handleReceiptProof pkt).
Proof using Hquiet. unfold handleReceiptProof. go. Qed.

Lemma keeps_deliverLocal d pkt : pk_Iface pkt = i → keeps e E P (deliverLocal d pkt).
Proof using Hquiet HE.
  intros Hi. unfold deliverLocal, prove. rewrite Hi. go.
  apply keeps_transmit_; [apply _|done|]. intros. apply transmit_back.
Qed.

Lemma keeps_accept dp d pkt : pk_Iface pkt = i → keeps e E P (accept dp d pkt).
Proof using Hquiet HE.
  intros Hi. unfold accept, alloc. rewrite Hi. go.
  apply keeps_transmit_; [apply _|done|]. intros. apply transmit_back.
Qed.

(** ** The node's own links *)

Definition via (p : nat) (n : Node) : Prop := P n ∧ ∀ l, lheap n !! p = Some l → l_Iface l = i.

#[local] Instance via_frame p : Frame (via p).
Proof. split; intros n f H; exact H. Qed.

Lemma via_set p f n : same_iface f → via p n → via p (n <| lheap ::= alter f p |>).
Proof.
  intros Hf [Hn Hp]. split; [exact Hn|]. cbn. intros l. rewrite lookup_alter_eq.
  intros (l' & Hl' & ->)%fmap_Some. rewrite Hf. by apply Hp.
Qed.

Lemma keeps_set_via p f : same_iface f → keeps e E (via p) (set_link p f).
Proof. intros Hf. apply keeps_modify. intros n. by apply via_set. Qed.

(** A value read from the heap is of the link's interface. *)
Lemma keeps_bind_link {B} p (k : Link → M B) :
  (∀ l, l_Iface l = i → keeps e E (via p) (k l)) → keeps e E (via p) (bind (link p) k).
Proof.
  intros Hk n Hn. unfold link. apply wp_bind, wp_bind, wp_gets, wp_of_option. intros l Hl. apply Hk; [|done].
  by apply Hn.
Qed.

Lemma keeps_send_via p pt ctx data : keeps e E (via p) (sendLinkPacket p pt ctx data).
Proof using Hquiet HE.
  unfold sendLinkPacket. apply keeps_bind_link. intros l Hl. keep.
  - apply keeps_set_via. intros l'. cbn. by case_match.
  - rewrite Hl. apply keeps_transmit_; [apply _|done|]. intros. apply transmit_back.
Qed.

Lemma keeps_drop_via p id :
  keeps e E (via p) (modify (λ n, n <| activeLinks ::= delete id |> <| pendingLinks ::= delete id |>)).
Proof. apply keeps_modify. intros n H. exact H. Qed.

Lemma keeps_receive_via p pkt : keeps e E (via p) (receive p pkt).
Proof using Hquiet HE.
  apply keeps_receive; [done| | | |]; intros.
  - apply keeps_send_via.
  - by apply keeps_set_via.
  - eauto with rns.
  - apply keeps_drop_via.
Qed.

Lemma keeps_receive_packet p pkt : pk_Iface pkt = i → keeps e E P (receive p pkt).
Proof using Hquiet HE.
  intros Hi n Hn. destruct (lheap n !! p) as [l|] eqn:Hl.
  - destruct (decide (l_Iface l = i)) as [Hli|Hli].
    + eapply wp_mono; [|apply keeps_receive_via]; [by intros _ n' []|]. split; [done|]. intros l'. rewrite Hl. by intros [= <-].
    + unfold receive. apply wp_bind. unfold link. apply wp_bind, wp_gets, wp_of_option. rewrite Hl. intros ? [= <-].
      rewrite bool_decide_eq_false_2 by congruence. by apply wp_ret.
  - unfold receive. apply wp_bind. unfold link. apply wp_bind, wp_gets. rewrite Hl. done.
Qed.

(** A link that is moved to the packet's interface. *)
Lemma keeps_adopt {B} p f (k : M B) :
  (∀ l, l_Iface (f l) = i) → keeps e E (via p) k → keeps e E P (set_link p f ;; k).
Proof.
  intros Hf Hk n Hn. apply wp_seq, wp_modify. eapply wp_mono; [|apply Hk]; [by intros b n' []|].
  split; [exact Hn|]. cbn. intros l. rewrite lookup_alter_eq. by intros (l' & _ & ->)%fmap_Some.
Qed.

Lemma keeps_handleProof pkt : pk_Iface pkt = i → keeps e E P (handleProof pkt).
Proof using Hquiet HE.
  intros Hi. unfold handleProof, link. rewrite Hi. cbv zeta. go1. case_match; [|go]. case_match; [|go].
  do 5 (go1; [go|]). go1; [|go]. do 3 (go1; [go|]).
  apply keeps_adopt; [done|]. keep.
  - apply keeps_modify. intros n' H'. exact H'.
  - apply keeps_send_encrypted; intros; [apply keeps_send_via|eauto with rns].
  - by apply keeps_emit, Hquiet.
Qed.

Hint Resolve keeps_handleAnnounce keeps_accept keeps_forwardHeader1 keeps_receive_packet keeps_handlePathRequest
  keeps_deliverLocal keeps_lrProofTransit keeps_handleProof keeps_proofTransit keeps_handleReceiptProof
  keeps_forwardTransport keeps_linkTransit : rns.

Lemma keeps_dispatch pkt : pk_Iface pkt = i → i ≠ [] → keeps e E P (dispatch pkt).
Proof using Hquiet HE Hhp. intros Hi Hne. unfold dispatch, LocalDestination, active. go. Qed.

Lemma keeps_route pkt : pk_Iface pkt = i → i ≠ [] → keeps e E P (route pkt).
Proof using Hquiet HE Hhp. intros Hi Hne. unfold route. go. by apply keeps_dispatch. Qed.

Lemma keeps_Inbound raw : i ≠ [] → keeps e E P (Inbound raw i).
Proof using Hquiet HE Hhp.
  intros Hne. unfold Inbound, inbound_clean, paidExtraHops.
  go; first [ apply keeps_noteCrossing; [apply _|done] | by apply keeps_route ].
Qed.

End Announces.

(** ** Jobs and timers *)

Section Own.
Context {HC : Crypto} (e : Env) (L : gset (list Z)) (F : gmap (list Z) RnsCrypto.IFAC) (i : list Z) (Hi : i ∉ L)
  (hp : Prop).
Abbreviation P := (handling L F i hp).

(** What goes out on a leaf is not in transport. *)
Definition own (ev : event) : Prop :=
  match ev with
  | Transmit o w => o ∈ L → ∃ n raw, ifac n = F ∧ on_wire n o raw = Some w ∧ is_header2 raw = false
  | _ => True
  end.

Lemma own_not_sent ev : is_transmit ev = false → own ev.
Proof. by destruct ev. Qed.

Lemma own_header1 n o raw w : P n → on_wire n o raw = Some w → is_header2 raw = false → own (Transmit o w).
Proof. intros [[_ HF] _] Hw Hraw _. by exists n, raw. Qed.

Local Ltac untouched := apply keeps_modify; let n := fresh in let Hn := fresh in intros n Hn; repeat case_match; exact Hn.
Local Ltac go := repeat first [ keep1 | untouched | by apply keeps_emit, own_not_sent ].

Lemma keeps_due_announces t l : keeps e own P (due_announces t l).
Proof. induction l as [|[dest en] l IH]; simpl; go. unfold due_announce. go. Qed.

Lemma keeps_send_announce t o : keeps e own P (send_announce t o).
Proof.
  assert (∀ id raw, id ∉ L → keeps e own P (sendAnnounceOn id raw t)) as Hsend.
  { intros id raw Hid. apply keeps_sendAnnounceOn; [apply own_not_sent| |done]. intros n w _ _ ?. done. }
  unfold send_announce.
  apply (keeps_bind_post _ _ _ (λ ids, match ids with Some ids => Forall (λ id, id ∉ L) ids | None => True end)).
  - destruct (oa_iface o) as [id|]; intros n Hn.
    + apply wp_bind, wp_gets. rewrite (leaf_of _ _ _ _ _ Hn). case_bool_decide as Hid; [by apply wp_ret|].
      apply wp_bind. eapply wp_call; [apply keeps_paidGate|done|]. intros ok n' Hn'. apply wp_ret.
      destruct ok; [|done]. split; [|done]. by constructor.
    + apply wp_bind, wp_asks, wp_bind. eapply wp_call; [apply keeps_paidTake|done|].
      intros ids n' Hn'. apply wp_bind, wp_gets, wp_ret. rewrite (leaf_of _ _ _ _ _ Hn'). split; [|done].
      apply Forall_forall. intros id Hid. by apply list_elem_of_filter in Hid as [? _].
  - intros [ids|] Hids; go. apply Hsend. rewrite Forall_forall in Hids. by apply Hids.
Qed.

Lemma keeps_processAnnounceTable t : keeps e own P (processAnnounceTable t).
Proof.
  unfold processAnnounceTable. keep1; [keep|]. keep1; [apply keeps_due_announces|]. go. apply keeps_send_announce.
Qed.

Lemma keeps_expireTables t : keeps e own P (expireTables t).
Proof.
  unfold expireTables, Expire. keep1; [|untouched].
  apply keeps_modify. intros n [[(Hl & Hlt & Hrt & Haq) HF] Hh].
  split; [split; [|exact HF]|done]. split; [exact Hl|split; [|split; [|exact Haq]]].
  - intros id en. cbn. intros [Hen _]%map_lookup_filter_Some. by apply (Hlt id).
  - intros id en. cbn. intros [Hen _]%map_lookup_filter_Some. by apply (Hrt id).
Qed.

Lemma link_packet_header1 l pt ctx data :
  pt = PacketData ∨ pt = PacketProof → is_header2 (link_packet l pt ctx data) = false.
Proof. by intros [-> | ->]. Qed.

Lemma keeps_send_own p pt ctx data :
  pt = PacketData ∨ pt = PacketProof → keeps e own P (sendLinkPacket p pt ctx data).
Proof.
  intros Hpt. unfold sendLinkPacket, set_link, link. go.
  apply keeps_transmit_; [apply _|apply own_not_sent|]. intros n w Hn Hw. eapply own_header1; [done|done|].
  by apply link_packet_header1.
Qed.

Lemma keeps_watchdog t : keeps e own P (watchdog t).
Proof.
  assert (∀ f p, keeps e own P (set_link p f)) by (intros; untouched).
  assert (∀ id, keeps e own P (modify (λ n, n <| activeLinks ::= delete id |> <| pendingLinks ::= delete id |>)))
    by (intros; untouched).
  unfold watchdog, resourceWatchdog, all_links. go.
  - apply keeps_watch_resources; eauto using own_not_sent, keeps_send_own with rns.
  - apply keeps_watch_link; eauto using own_not_sent, keeps_send_own with rns.
Qed.

Lemma keeps_jobs : keeps e own P jobs.
Proof.
  unfold jobs. keep1; [keep|]. keep1; [apply keeps_processAnnounceTable|]. keep1; [apply keeps_expireTables|].
  keep1; [unfold expireReceipts; go|]. keep1; [unfold expireDiscovery; go|]. keep1; [apply keeps_watchdog|]. go.
Qed.

Lemma keeps_flush id : keeps e own P (flushAnnounceQueue id).
Proof.
  unfold flushAnnounceQueue, announceBitrate. keep1; [keep|]. keep1; [keep|]. apply keeps_bind_gets. intros n Hn.
  destruct (announceQueue n !! id) as [q|] eqn:Hq; [|go].
  assert (id ∈ L → Forall (λ raw, is_header2 raw = false) (aq_pending q)) as Hown.
  { intros Hid. destruct Hn as [[(_ & _ & _ & Haq) _] _]. by eapply Haq. }
  destruct (aq_pending q) as [|raw rest] eqn:Hp; [apply keeps_queue; cbn; by rewrite Hp|].
  keep1; [apply keeps_queue; cbn; intros Hid; apply Hown in Hid; by apply Forall_cons in Hid as [_ ?]|].
  apply keeps_transmit_; [apply _|apply own_not_sent|]. intros n' w Hn' Hw Hid. eapply own_header1; [done|done| |done].
  apply Hown in Hid. by apply Forall_cons in Hid as [? _].
Qed.

End Own.

(** ** Every operation keeps the invariant *)

Section Operations.
Context {HC : Crypto} (e : Env) (L : gset (list Z)) (F : gmap (list Z) RnsCrypto.IFAC) (i : list Z) (hp : Prop).
Abbreviation P := (handling L F i hp).
Abbreviation any := (λ _ : event, True).

Local Ltac untouched := apply keeps_modify; let n := fresh in let Hn := fresh in intros n Hn; repeat case_match; exact Hn.
Local Ltac go := repeat first [ keep1 | untouched | by apply keeps_emit ].

Lemma any_quiet ev : is_transmit ev = false → any ev.
Proof. done. Qed.

Lemma keeps_any_transmit j raw : keeps e any P (transmit j raw).
Proof. by apply keeps_transmit; [apply _|..]. Qed.

Lemma keeps_any_transmit_ j raw : keeps e any P (transmit_ j raw).
Proof. by apply keeps_transmit_; [apply _|..]. Qed.

Lemma keeps_any_set p f : keeps e any P (set_link p f).
Proof. untouched. Qed.

Lemma keeps_any_send p pt ctx data : keeps e any P (sendLinkPacket p pt ctx data).
Proof. unfold sendLinkPacket, link. go. apply keeps_any_transmit_. Qed.

Lemma keeps_any_drop id : keeps e any P (modify (λ n, n <| activeLinks ::= delete id |> <| pendingLinks ::= delete id |>)).
Proof. untouched. Qed.

Hint Resolve keeps_any_transmit keeps_any_transmit_ keeps_any_set keeps_any_send keeps_any_drop keeps_paidGate keeps_paidTake : rns.

Lemma keeps_any_AnnounceDest d id pr : keeps e any P (AnnounceDest d id pr).
Proof.
  unfold AnnounceDest. keep1; [keep|]. keep1; [keep|]. keep1; [keep|].
  destruct a1 as [random|]; [|keep]. apply keeps_bind_option. intros ann Hann.
  unfold NewAnnounce in Hann. apply bind_Some in Hann as (sig & _ & [= <-]).
  assert (∀ id a t, an_ContextFlag a = 0 → keeps e any P (sendAnnounceOn id (MarshalPacket a) t)) as Hs.
  { intros id' a' t Ha. apply keeps_sendAnnounceOn; [done|done|]. intros _. by apply own_announce_header1. }
  go; apply Hs; by destruct pr.
Qed.

Lemma keeps_any_RequestPath dest : keeps e any P (RequestPath dest).
Proof. unfold RequestPath, Has, Get, alloc, draw_, sendPathRequest. go. Qed.

Lemma keeps_any_outbound raw dest dt : keeps e any P (outbound raw dest dt).
Proof. unfold outbound, Get, touch. go. Qed.
Hint Resolve keeps_any_outbound : rns.

Lemma keeps_any_SendData dest plain r : keeps e any P (SendData dest plain r).
Proof. unfold SendData, Recall, HopsTo, Get, addReceipt. go. Qed.

Lemma keeps_any_Initiate dest : keeps e any P (Initiate dest).
Proof. unfold Initiate, Recall, NextHopInterface, HopsTo, Get, alloc. go. Qed.

Local Ltac family l := apply l; eauto using any_quiet with rns.

Lemma keeps_any_Send p plain : keeps e any P (Send p plain).
Proof. unfold Send, token_encrypt, link, addReceipt. go. family keeps_LinkEncrypt. Qed.

Lemma keeps_any_Identify p id : keeps e any P (Identify p id).
Proof.
  unfold Identify, token_encrypt, link. go; [family keeps_LinkEncrypt|unfold send_link_packet; go].
Qed.

Lemma keeps_any_RequestOn p path data : keeps e any P (RequestOn p path data).
Proof.
  unfold RequestOn, token_encrypt, link. go; [family keeps_LinkEncrypt|]. family keeps_sendResource.
Qed.

(** Everything but marking an interface and setting an access code. *)
Definition plain_op (o : op) : bool := match o with SetLeafOp _ _ | SetIFACOp _ _ | ReceivePacket _ _ | Tick | AnnounceTimer _ => false | _ => true end.

Lemma keeps_op o : plain_op o = true → keeps e any P (perform o).
Proof.
  destruct o; intros Ho; try discriminate Ho; unfold perform, void.
  - go. apply keeps_any_AnnounceDest.
  - go. apply keeps_any_RequestPath.
  - unfold RequestPath_end, Has, Get. go.
  - go. apply keeps_any_SendData.
  - unfold SendRaw. go.
  - go. apply keeps_any_Initiate.
  - go. apply keeps_any_Send.
  - unfold SendContext, send_link_packet. go.
  - go. apply keeps_any_Identify.
  - family keeps_Teardown.
  - unfold closeAll, all_links. go. family keeps_Teardown.
  - unfold SendResource. go. family keeps_sendResource.
  - go. apply keeps_any_RequestOn.
  - unfold RequestTimeout. family keeps_finish_request.
  - go.
  - unfold SetPaidPolicy. go.
  - unfold AddDestination, alloc. go.
  - unfold RemoveDestination. go.
  - unfold RegisterRequestHandler. go.
  - unfold Remember. go.
  - unfold Remove. go.
Qed.

End Operations.

(** ** Isolation *)

Section Isolation.
Context {HC : Crypto}.

(** Interfaces have names, and one is marked while no announce waits for it. *)
Definition leaf_ready (e : Env) (o : op) (n : Node) : Prop :=
  match o with
  | SetLeafOp iface true => match announceQueue n !! iface with Some q => aq_pending q = [] | None => True end
  | ReceivePacket _ iface => iface ≠ []
  | _ => True
  end.

Abbreviation kept n := (isolated (leaf n) (ifac n) n).

Lemma kept_of_handling L F i hp n : handling L F i hp n → kept n.
Proof. intros [[Ha HF] _]. destruct (Ha) as [<- _]. by rewrite HF. Qed.

Lemma handling_of_kept n i : kept n → handling (leaf n) (ifac n) i False n.
Proof. by split. Qed.

Lemma kept_SetLeaf e iface on n n' ev a :
  kept n → leaf_ready e (SetLeafOp iface on) n → SetLeaf iface on e n = Some (n', ev, a) → kept n'.
Proof.
  intros [(_ & Hlt & Hrt & Haq) _] Hq Hs. cbv [SetLeaf bind gets mbind M_bind modify mret M_ret] in Hs.
  destruct (eqb (bool_decide (iface ∈ leaf n)) on); cbn in Hs; simplify_eq; [by split; [split|]|].
  assert (∀ j, j ∉ leaf n → j ≠ iface → j ∉ (if on then {[iface]} ∪ leaf n else leaf n ∖ {[iface]})) as Hout.
  { intros j ??. destruct on; set_solver. }
  split; [|done]. split; [done|]. cbn. split_and!.
  - intros id en [Hen Hne]%map_lookup_filter_Some. cbn in Hne. destruct (Hlt _ _ Hen). split; apply Hout; tauto.
  - intros id en [Hen Hne]%map_lookup_filter_Some. cbn in Hne. destruct (Hrt _ _ Hen). split; apply Hout; tauto.
  - intros j q Hj Hin. destruct (decide (j = iface)) as [->|].
    + destruct on; [|set_solver]. cbn in Hq. rewrite Hj in Hq. rewrite Hq. constructor.
    + apply (Haq j q Hj). destruct on; set_solver.
Qed.

Lemma kept_of_keeps {A} e n (m : M A) i hp n' ev a :
  keeps e (λ _, True) (handling (leaf n) (ifac n) i hp) m → kept n → (hp → i ∈ leaf n → no_hairpin n) →
  m e n = Some (n', ev, a) → kept n'.
Proof.
  intros Hm Hn Hh Hr. destruct (wp_elim _ _ _ _ _ _ _ _ (Hm n (conj Hn Hh)) Hr) as [_ Hn']. by apply kept_of_handling in Hn'.
Qed.

Lemma kept_step e o n n' ev : kept n → leaf_ready e o n → step e o n n' ev → kept n'.
Proof.
  intros Hn Hr Hs. unfold step in Hs. destruct (plain_op o) eqn:Hp.
  { eapply (kept_of_keeps _ n _ [] False); [by apply keeps_op|done|done|done]. }
  pose proof (is_fresh (leaf n)) as Hi. destruct o; try discriminate Hp; cbn [perform] in Hs.
  - eapply (kept_of_keeps _ n _ iface False); [|done|done|exact Hs].
    apply keeps_bind; [|intros; apply keeps_ret]. apply keeps_Inbound; [done|done|by right|done].
  - eapply (kept_of_keeps _ n _ (base.fresh (leaf n)) False); [|done|done|exact Hs].
    eapply keeps_weaken; [|by apply keeps_jobs]. done.
  - eapply (kept_of_keeps _ n _ (base.fresh (leaf n)) False); [|done|done|exact Hs].
    eapply keeps_weaken; [|by apply keeps_flush]. done.
  - by eapply kept_SetLeaf.
  - unfold SetIFAC, modify in Hs. injection Hs as <- <-. split; [exact (proj1 Hn)|reflexivity].
Qed.

Lemma kept_reached n : reached leaf_ready n → kept n.
Proof.
  induction 1 as [id from ttl cb n Hnew|]; [|by eapply kept_step].
  apply bind_Some in Hnew as (i & _ & Hnew). destruct (negb _); [done|]. cbv zeta in Hnew. injection Hnew as <-. split; [|done]. split; [done|]. split_and!; intros ?? Hl; cbn in Hl; by apply lookup_empty_Some in Hl.
Qed.

Lemma on_wire_ifac n n' o raw : ifac n = ifac n' → on_wire n o raw = on_wire n' o raw.
Proof. unfold on_wire. by intros ->. Qed.

(** What one operation may put on an interface. *)
Definition carried (o : op) (n : Node) (ev : event) : Prop :=
  match ev with
  | Transmit out w =>
      match o with
      | ReceivePacket _ iface => (iface ∈ leaf n → no_hairpin n) → out = iface ∨ (iface ∉ leaf n ∧ out ∉ leaf n)
      | Tick | AnnounceTimer _ => out ∈ leaf n → ∃ raw, on_wire n out raw = Some w ∧ is_header2 raw = false
      | _ => True
      end
  | _ => True
  end.

Lemma carried_own n ev o : own (leaf n) (ifac n) ev → (o = Tick ∨ ∃ i, o = AnnounceTimer i) → carried o n ev.
Proof.
  intros Hev Ho. destruct ev as [out w| | | | | | | | | | | | | | |]; try done.
  assert (out ∈ leaf n → ∃ raw, on_wire n out raw = Some w ∧ is_header2 raw = false) by
    (intros Hin; destruct (Hev Hin) as (n' & raw & HF & Hw & Hraw); exists raw; by rewrite <- (on_wire_ifac n' n)).
  by destruct Ho as [->|[i ->]].
Qed.


End Isolation.

(** ** On the nodes of [RnsToy] *)

Definition relay : Node := after relay_up (new_node 7).

Lemma relay_leaf_reached : reached leaf_ready relay.
Proof.
  apply reached_after; [apply reached_new_node| |vm_compute; reflexivity].
  vm_compute. split_and!; done.
Qed.

Lemma in_leaf i n : bool_decide (i ∈ leaf n) = true → i ∈ leaf n.
Proof. apply bool_decide_eq_true_1. Qed.


Definition relay_linked : Node := after relay_proof (new_node 7).

Lemma relay_linked_reached : reached leaf_ready relay_linked.
Proof.
  apply reached_after; [apply reached_new_node| |vm_compute; reflexivity].
  vm_compute. split_and!; done.
Qed.


(** [lan] at 1000 bit/s. *)
Definition slow (t : Z) : Env :=
  MkEnv (t * Second) (λ _ _, true) [wan; lan] (λ _, 0) (λ i, if decide (i = lan) then 1000 else 0) None
    (λ k n, Some (replicate n (Z.of_nat k mod 256))) 0 (λ _, []) (λ _ _, true) (λ _, None) (λ _ l, l) 3.

Definition far_other : list (Env * op) :=
  [(at_ 1000, AddDestinationOp true (inbox <| d_Name := str "nomadnetwork.node" |>)); (at_ 1000, AnnounceOp 0 [] false)].
Definition announce_other : list Z := Eval vm_compute in said far_other (new_node 9).

Definition relay_slow : list (Env * op) :=
  [(slow 1001, ReceivePacket announce_far wan); (slow 1001, ReceivePacket announce_other wan); (slow 1003, Tick);
   (slow 1004, SetLeafOp lan true)].

(** The announces that wait for the cap of an interface outlive its marking as a leaf: they then go
    out on it, in transport. *)
Theorem leaf_queue_survives :
  let n := after relay_slow (new_node 7) in
  reached (λ _ _ _, True) n ∧ lan ∈ leaf n ∧
  ∃ n' ev raw, step (slow 1100) (AnnounceTimer lan) n n' ev ∧ sent lan ev = [raw] ∧ is_header2 raw = true.
Proof.
  cbv zeta. split; [apply reached_after; [apply reached_new_node|vm_compute; tauto|vm_compute; reflexivity]|].
  split; [apply (in_leaf lan); vm_compute; reflexivity|].
  exists (next (slow 1100) (AnnounceTimer lan) (after relay_slow (new_node 7))),
    (emits (slow 1100) (AnnounceTimer lan) (after relay_slow (new_node 7))),
    (default [] (head (sent lan (emits (slow 1100) (AnnounceTimer lan) (after relay_slow (new_node 7)))))).
  split; [apply op_runs; vm_compute; reflexivity|split; vm_compute; reflexivity].
Qed.

End RnsLeaf.
