(* ===== verification/RnsPaths.v ===== *)
(** Where a node's paths come from: every path, every announce it relays and every identity it
    encrypts to is vouched for by a signature of the key the destination is the hash of, and a live
    path is replaced only on the word of a strictly newer announce. *)
From S2P Require Import Prelude Fields RnsPacket RnsCrypto RnsWire RnsState RnsLogic RnsIface RnsAnnounce RnsPathReq.
From S2P Require Import RnsForward RnsLink RnsResource RnsLinkLogic RnsInbound RnsTables RnsToy.
Import Fields RnsPacket RnsWire RnsState RnsLogic RnsIface RnsAnnounce RnsPathReq RnsForward RnsLink RnsResource
  RnsLinkLogic RnsInbound RnsTables RnsToy.

Module RnsPaths.

(** ** Emission stamps *)

Lemma fold_best_lt (f : list Z → Z) l : ∀ acc x,
  fold_left (λ best b, if best <? f b then f b else best) l acc < x ↔ acc < x ∧ Forall (λ b, f b < x) l.
Proof.
  induction l as [|b l IH]; intros acc x; simpl; [by rewrite Forall_nil; tauto|].
  rewrite IH, Forall_cons. destruct (Z.ltb_spec acc (f b)); split; intros (?&?); split_and?; try tauto; try lia; naive_solver lia.
Qed.

Lemma EmittedAt_lt e x : EmittedAt e < x ↔ 0 < x ∧ Forall (λ b, blobTimestamp b < x) (pe_RandomBlobs e).
Proof. apply fold_best_lt. Qed.

Lemma EmittedAt_blob e b : b ∈ pe_RandomBlobs e → blobTimestamp b ≤ EmittedAt e.
Proof.
  intros Hb. destruct (Z.le_gt_cases (blobTimestamp b) (EmittedAt e)) as [|Hlt]; [done|].
  apply EmittedAt_lt in Hlt as [_ Hall]. rewrite Forall_forall in Hall. specialize (Hall b Hb). lia.
Qed.

Lemma path_emitted_lt emitted blobs : ∀ acc,
  path_emitted emitted acc blobs < emitted → acc < emitted ∧ Forall (λ b, blobTimestamp b < emitted) blobs.
Proof.
  induction blobs as [|b blobs IH]; intros acc; simpl; [by split|].
  destruct (Z.leb_spec emitted (if acc <? blobTimestamp b then blobTimestamp b else acc)) as [Hle|Hlt]; [lia|].
  intros [_ Hall]%IH. destruct (Z.ltb_spec acc (blobTimestamp b)); split; try constructor; auto; lia.
Qed.

Lemma add_blob_in blobs b : b ∈ add_blob blobs b.
Proof.
  unfold add_blob, containsBlob. case_bool_decide; [done|]. cbv zeta. rewrite drop_app_le.
  - apply elem_of_app. right. apply list_elem_of_here.
  - rewrite length_app. unfold maxRandomBlobs. simpl. lia.
Qed.

(** A live path gives way only to a strictly newer announce. *)
Lemma path_wanted_newer t hops emitted b p :
  path_wanted t hops emitted b (Some p) = true → pe_Unresponsive p = false → t < pe_Expires p → EmittedAt p < emitted.
Proof.
  unfold path_wanted. intros Hw Hu Hlive. destruct (negb _); [done|]. destruct (hops <=? pe_Hops p).
  { apply andb_true_iff in Hw as [_ Hw]. lia. }
  rewrite (proj2 (Z.ltb_lt _ _) Hlive), Hu in Hw. simpl in Hw.
  destruct (Z.ltb_spec (path_emitted emitted 0 (pe_RandomBlobs p)) emitted) as [Hlt|]; [|by rewrite andb_false_r in Hw].
  by apply EmittedAt_lt, path_emitted_lt.
Qed.

Section Paths.
Context {HC : Crypto}.

(** ** The invariant *)

(** The announce is signed by the key of which its destination is a hash, and is for [d]. *)
Definition vouched (d : list Z) (a : Announce) : Prop := Verify a = true ∧ an_DestHash a = d.

Definition good_path (d : list Z) (p : PathEntry) : Prop :=
  pe_DestHash p = d ∧ pe_Unresponsive p = false ∧
  ∃ a, pe_Announce p = Some a ∧ vouched d a ∧ an_Random a ∈ pe_RandomBlobs p.

(** The destination is a hash of the identity. *)
Definition good_identity (d : list Z) (k : KnownIdentity) : Prop :=
  ∀ id, ki_Identity k = Some id → ∃ name, d = ComputeDestHash name (IdentityHash id).

Definition sound (n : Node) : Prop :=
  map_Forall good_path (paths n) ∧
  map_Forall (λ d a, vouched d (ae_ann a)) (announceTable n) ∧
  map_Forall (λ d a, vouched d (ae_ann a)) (heldAnnounces n) ∧
  map_Forall good_identity (identities n) ∧
  0 < pathTTL n.

(** [p'] has taken the place of [p], which was live at [t]: it is the same path, used since, or a
    strictly newer one. *)
Definition succeeds (t : Z) (p p' : PathEntry) : Prop :=
  t < pe_Expires p →
  t < pe_Expires p' ∧ ((∃ x, p' = p <| pe_Timestamp := x |>) ∨ EmittedAt p < EmittedAt p').

Definition tracks (t : Z) (M : gmap (list Z) PathEntry) (n : Node) : Prop :=
  sound n ∧ ∀ d p, M !! d = Some p → ∃ p', paths n !! d = Some p' ∧ succeeds t p p'.

#[local] Instance tracks_tabular t M : Tabular (tracks t M).
Proof.
  intros n n' Heq. injection Heq as Hp Ha Hh Hi _ _ Ht. unfold tracks, sound. by rewrite Hp, Ha, Hh, Hi, Ht.
Qed.

Lemma succeeds_refl t p : succeeds t p p.
Proof. intros Hl. split; [done|]. left. exists (pe_Timestamp p). by destruct p. Qed.

Lemma succeeds_trans t p p1 p2 : succeeds t p p1 → succeeds t p1 p2 → succeeds t p p2.
Proof.
  intros H1 H2 Hl. destruct (H1 Hl) as [Hl1 [[x ->]|Hlt]]; destruct (H2 Hl1) as [Hl2 [[y ->]|Hlt2]]; split; try done.
  - left. by exists y.
  - by right.
  - right. exact Hlt.
  - right. lia.
Qed.

Lemma tracks_succeed (t : Z) (M : gmap (list Z) PathEntry) (n : Node) (d : list Z) (p p' : PathEntry) (f : gmap (list Z) PathEntry → gmap (list Z) PathEntry) :
  tracks t M n → f (paths n) = <[d := p']> (paths n) → paths n !! d = Some p → good_path d p' → succeeds t p p' →
  tracks t M (n <| paths ::= f |>).
Proof.
  intros [(Hp & Ha & Hh & Hi & Ht) HM] Hf Hd Hgood Hsucc.
  split; [split_and!; try done; cbn; rewrite Hf; by apply map_Forall_insert_2|].
  cbn. rewrite Hf. intros d0 p0 H0. destruct (HM d0 p0 H0) as (p1 & Hp1 & Hs1).
  destruct (decide (d0 = d)) as [->|]; [|rewrite lookup_insert_ne by done; eauto].
  rewrite lookup_insert_eq. exists p'. split; [done|]. simplify_eq. by eapply succeeds_trans.
Qed.

Lemma keeps_touch e t M dest : keeps e any (tracks t M) (touch dest).
Proof.
  unfold touch. keep1; [keep|]. apply keeps_modify. intros n Hn. destruct (paths n !! dest) as [p|] eqn:Hp.
  - eapply (tracks_succeed t M n dest p); [done| |done| |].
    + apply map_eq. intros d. destruct (decide (d = dest)) as [->|].
      * by rewrite lookup_alter_eq, lookup_insert_eq, Hp.
      * by rewrite lookup_alter_ne, lookup_insert_ne.
    + destruct Hn as [(Hpaths & _) _]. exact (Hpaths dest p Hp).
    + intros Hl. split; [done|]. by left; eexists.
  - eapply tabular; [|exact Hn]. unfold tables. cbn. f_equal. f_equal. f_equal. f_equal. f_equal. f_equal.
    symmetry. apply map_eq. intros d. destruct (decide (d = dest)) as [->|]; [|by rewrite lookup_alter_ne].
    by rewrite lookup_alter_eq, Hp.
Qed.

(** ** Learning a path *)

(** While the paths are still those of [n0]. *)
Definition before (t : Z) (M : gmap (list Z) PathEntry) (n0 n : Node) : Prop :=
  tracks t M n ∧ paths n = paths n0 ∧ pathTTL n = pathTTL n0.

#[local] Instance before_tabular t M n0 : Tabular (before t M n0).
Proof.
  intros n n' Heq (Hn & Hp & Ht). split; [by eapply tabular|]. injection Heq as Hp' _ _ _ _ _ Ht'. split; congruence.
Qed.

Lemma tracks_announceTable t M n f :
  tracks t M n → map_Forall (λ d a, vouched d (ae_ann a)) (f (announceTable n)) → tracks t M (n <| announceTable ::= f |>).
Proof. intros [(? & ? & ? & ? & ?) ?] Hf. by split; [split_and!|]. Qed.

Lemma tracks_vouched t M n : tracks t M n → map_Forall (λ d a, vouched d (ae_ann a)) (announceTable n).
Proof. by intros [(_ & ? & _) _]. Qed.

Lemma keeps_note_rebroadcast e t M dest hops : keeps e any (tracks t M) (note_rebroadcast dest hops).
Proof.
  unfold note_rebroadcast. keep1; [keep|]. apply keeps_bind_gets. intros n Hn.
  destruct (announceTable n !! dest) as [en|] eqn:Hen; [|keep]. pose proof (tracks_vouched _ _ _ Hn dest en Hen).
  cbv zeta. apply keeps_modify. intros n' Hn'. apply tracks_announceTable; [done|]. apply tracks_vouched in Hn'.
  case_match; [by apply map_Forall_delete|]. apply map_Forall_insert_2; [|done]. by case_match.
Qed.

Lemma vouched_identity ann d id :
  vouched d ann → IdentityFromPublicBytes (an_PublicKey ann) = Some id → ∃ name, d = ComputeDestHash name (IdentityHash id).
Proof.
  intros [Hv <-]. unfold IdentityFromPublicBytes. unfold Verify in Hv.
  destruct (ParsePublicKeys (an_PublicKey ann)) as [[enc sig]|]; [|done]. intros [= <-].
  apply andb_true_iff in Hv as [Hv%bool_decide_eq_true _]. by exists (an_NameHash ann).
Qed.

Lemma keeps_remember_announce e t M dest ann now :
  vouched dest ann → keeps e any (tracks t M) (remember_announce dest ann now).
Proof.
  intros Hv. apply keeps_modify. intros n [(? & ? & ? & Hi & ?) ?]. split; [|done]. split_and!; try done.
  cbn. apply map_Forall_insert_2; [|done]. intros id Hid. apply (vouched_identity ann); [done|].
  revert Hid. by case_match.
Qed.

Local Ltac untouched := apply keeps_untouched; [apply _|]; intros ?; repeat case_match; reflexivity.
Local Ltac go := repeat first [ keep1 | untouched | by apply keeps_emit ].

Lemma keeps_track_waiting e t M ifaces dest ann hops : keeps e any (tracks t M) (answer_waiting ifaces dest ann hops).
Proof.
  induction ifaces as [|i ifaces IH]; simpl; [go|]. keep1; [apply keeps_tab_paidGate; apply _|].
  go. apply keeps_tab_transmit_. apply _.
Qed.

(** The entry an accepted announce puts in the table. *)
Lemma tracks_put e M n (entry : PathEntry) ann :
  tracks (e_now e) M n → pe_Announce entry = Some ann → vouched (pe_DestHash entry) ann →
  an_Random ann ∈ pe_RandomBlobs entry → pe_Unresponsive entry = false → pe_Expires entry = e_now e + pathTTL n →
  (∀ p, paths n !! pe_DestHash entry = Some p → e_now e < pe_Expires p → EmittedAt p < blobTimestamp (an_Random ann)) →
  tracks (e_now e) M (n <| paths ::= <[pe_DestHash entry := entry]> |>).
Proof.
  intros Hn Ha Hv Hb Hu Hx Hnew. assert (good_path (pe_DestHash entry) entry) as Hg by (by split_and!; eauto).
  destruct (paths n !! pe_DestHash entry) as [p|] eqn:Hp.
  - apply (tracks_succeed _ M n (pe_DestHash entry) p entry); try done. intros Hl. split.
    + destruct Hn as [(_ & _ & _ & _ & ?) _]. lia.
    + right. apply EmittedAt_blob in Hb. specialize (Hnew p eq_refl Hl). lia.
  - destruct Hn as [(HP & ? & ? & ? & ?) HM]. split; [split_and!; try done; cbn; by apply map_Forall_insert_2|].
    cbn. intros d p0 (p1 & Hp1 & Hs)%HM. exists p1. split; [|done]. rewrite lookup_insert_ne; [done|]. congruence.
Qed.

Lemma wp_learn_path e M n pkt ann from hops :
  tracks (e_now e) M n → vouched (DestHash (pk_Hdr pkt)) ann →
  should_add n (e_now e) hops (blobTimestamp (an_Random ann)) (an_Random ann) (pk_Iface pkt) (DestHash (pk_Hdr pkt)) = true →
  wp e any (learn_path pkt ann from hops) (λ _, tracks (e_now e) M) n.
Proof.
  intros Hn Hv Hadd. unfold learn_path, IsLeaf, Get. cbv zeta.
  apply wp_bind, wp_now, wp_bind, wp_gets, wp_bind, wp_gets, wp_bind, wp_gets, wp_bind, wp_asks, wp_seq.
  eapply (wp_call _ _ (before (e_now e) M n)); [|by split_and!|intros _ n1 Hn1].
  { apply keeps_when. intros _. apply keeps_modify. intros n1 (Hn1 & ? & ?). split; [|done].
    apply tracks_announceTable; [done|]. apply map_Forall_insert_2; [done|]. by eapply tracks_vouched. }
  apply wp_bind, wp_gets, wp_seq.
  eapply (wp_call _ _ (before (e_now e) M n)); [go|done|intros _ n2 (Hn2 & Hp2 & Ht2)].
  apply wp_seq, wp_modify. eapply (wp_call _ _ (tracks (e_now e) M)); [| |done].
  - unfold withoutLeaves. keep1; [by apply keeps_remember_announce|]. go; first [apply keeps_track_waiting|go].
  - apply (tracks_put _ _ _ _ ann); try done.
    + apply add_blob_in.
    + cbn. by rewrite Ht2.
    + cbn. rewrite Hp2. intros p Hp. apply andb_true_iff in Hadd as [Hw _]. rewrite Hp in Hw.
      eapply path_wanted_newer; [done|]. destruct Hn as [(Hg & _) _]. by destruct (Hg _ _ Hp) as (_ & ? & _).
Qed.

Lemma unmarshal_dest data dest hops flag a : UnmarshalAnnouncePayload data dest hops flag = Some a → an_DestHash a = dest.
Proof.
  unfold UnmarshalAnnouncePayload. case_match; [done|]. intros (? & _ & Ha)%bind_Some. case_match. by simplify_eq.
Qed.

Lemma keeps_track_announce e M pkt : keeps e any (tracks (e_now e) M) (handleAnnounce pkt).
Proof.
  intros n Hn. unfold handleAnnounce, LocalDestination, IsLeaf. cbv zeta.
  destruct (UnmarshalAnnouncePayload _ _ _ _) as [ann|] eqn:Hann; [|by apply wp_ret].
  apply unmarshal_dest in Hann. destruct (Verify ann) eqn:Hv; [|by apply wp_ret]. simpl negb. cbv iota.
  apply wp_seq. eapply (wp_call _ _ (tracks (e_now e) M)); [eauto with rns|done|intros _ n1 Hn1].
  apply wp_bind, wp_gets. destruct (is_some _); [by apply wp_ret|]. apply wp_bind, wp_now, wp_bind, wp_gets, wp_seq.
  eapply (wp_call _ _ (tracks (e_now e) M)); [|exact Hn1|intros _ n2 Hn2].
  { go. apply keeps_note_rebroadcast. }
  apply wp_bind, wp_gets, wp_seq, wp_when; intros Hadd; [|by apply wp_ret].
  eapply wp_mono; [|by apply wp_learn_path]. intros a n3 Hn3. by apply wp_ret.
Qed.

Lemma keeps_track_answer e t M iface dest r en ann n :
  tracks t M n → paths n !! dest = Some en → pe_Announce en = Some ann → keeps e any (tracks t M) (answer_known iface dest r en ann).
Proof.
  intros [(Hg & _) _] Hen Hann. destruct (Hg _ _ Hen) as (_ & _ & a & Ha & Hv & _). simplify_eq.
  unfold answer_known, crossesLeaf, resolveInflight. go; apply keeps_modify; intros n' Hn'.
  - destruct (announceTable n' !! dest) as [held|] eqn:Hheld; [|done]. case_match; [done|].
    destruct Hn' as [(? & Ht & Hh & ? & ?) ?]. split; [|done]. split_and!; try done.
    cbn. apply map_Forall_insert_2; [|done]. exact (Ht _ _ Hheld).
  - apply tracks_announceTable; [done|]. apply map_Forall_insert_2; [done|]. by eapply tracks_vouched.
Qed.

Lemma keeps_track_Inbound e M raw iface : keeps e any (tracks (e_now e) M) (Inbound raw iface).
Proof.
  apply keeps_tab_Inbound; [apply _|intros; apply keeps_touch| |apply keeps_track_announce|by apply keeps_track_answer].
  intros h n [(? & ? & ? & ? & ?) ?]. by split; [split_and!|].
Qed.

(** ** Every operation *)

(** A map is ranged over in some order; and what the application says of an identity is true. *)
Definition paths_ready (e : Env) (o : op) (n : Node) : Prop :=
  (∀ A (l : list A), e_order e A l ≡ₚ l) ∧
  match o with
  | RememberOp dest pub _ =>
      ∀ id, IdentityFromPublicBytes pub = Some id → ∃ name, dest = ComputeDestHash name (IdentityHash id)
  | _ => True
  end.

Abbreviation kept := (tracks 0 ∅).

Lemma kept_sound n : sound n → kept n.
Proof. intros Hn. split; [done|]. intros d p. by rewrite lookup_empty. Qed.

Lemma keeps_due e t dest en : vouched dest (ae_ann en) → keeps e any kept (due_announce t dest en).
Proof.
  intros Hv. unfold due_announce. cbv zeta.
  assert (keeps e any kept (modify (λ n, n <| announceTable ::= delete dest |>))).
  { apply keeps_modify. intros n Hn. apply tracks_announceTable; [done|]. by eapply map_Forall_delete, tracks_vouched. }
  keep1; [keep|]. keep1; [keep|]. keep1; [|keep]. keep1; [keep|]. apply keeps_bind_gets. intros n [(_ & _ & Hh & _) _].
  keep1; [|keep]. apply keeps_modify. intros n' Hn'. destruct (heldAnnounces n !! dest) as [h|] eqn:Hheld.
  - destruct Hn' as [(? & ? & ? & ? & ?) ?]. split; [|done]. split_and!; try done; cbn; [|by apply map_Forall_delete].
    apply map_Forall_insert_2; [exact (Hh _ _ Hheld)|done].
  - apply tracks_announceTable; [done|]. apply map_Forall_insert_2; [done|]. by eapply tracks_vouched.
Qed.

Lemma keeps_due_all e t l :
  Forall (λ '(d, a), vouched d (ae_ann a)) l → keeps e any kept (due_announces t l).
Proof. induction 1 as [|[d a] l Hv _ IH]; simpl; [keep|]. keep1; [by apply keeps_due|]. keep. Qed.

Lemma keeps_process e t : (∀ A (l : list A), e_order e A l ≡ₚ l) → keeps e any kept (processAnnounceTable t).
Proof.
  intros Ho. unfold processAnnounceTable.
  apply (keeps_bind_post _ _ _ (Forall (λ '(d, a), vouched d (ae_ann a)))).
  - intros n Hn. unfold range. apply wp_bind, wp_gets, wp_asks. split; [|done]. rewrite Ho.
    apply Forall_forall. intros [d a] Hin. apply (tracks_vouched _ _ _ Hn d a). by apply elem_of_map_to_list.
  - intros l Hl. keep1; [by apply keeps_due_all|]. keep. apply keeps_tab_send_announce. apply _.
Qed.

Lemma map_Forall_sub {A} (Q : list Z → A → Prop) (m m' : gmap (list Z) A) : m' ⊆ m → map_Forall Q m → map_Forall Q m'.
Proof. intros Hs HQ i x Hi. apply HQ. by eapply lookup_weaken. Qed.

(** Forgetting paths and announces. *)
Lemma kept_sub (n n' : Node) :
  kept n → paths n' ⊆ paths n → announceTable n' ⊆ announceTable n → heldAnnounces n' ⊆ heldAnnounces n →
  identities n' = identities n → pathTTL n' = pathTTL n → kept n'.
Proof.
  intros [(? & ? & ? & ? & ?) _] Hp Ha Hh Hi Ht. apply kept_sound. unfold sound. rewrite Hi, Ht.
  split_and!; [by eapply map_Forall_sub..|done|done].
Qed.

Lemma keeps_SetLeaf e iface on : keeps e any kept (SetLeaf iface on).
Proof.
  unfold SetLeaf. keep1; [keep|]. keep1; [keep|]. apply keeps_modify. intros n Hn.
  apply (kept_sub n); try done; apply map_filter_subseteq.
Qed.

Lemma keeps_Remember e dest pub app :
  (∀ id, IdentityFromPublicBytes pub = Some id → ∃ name, dest = ComputeDestHash name (IdentityHash id)) →
  keeps e any kept (Remember dest pub app).
Proof.
  intros Hid. unfold Remember. destruct (IdentityFromPublicBytes pub) as [id|]; [|keep]. keep1; [keep|]. keep1; [|keep].
  apply keeps_modify. intros n [(? & ? & ? & ? & ?) ?]. split; [|done]. split_and!; try done.
  cbn. apply map_Forall_insert_2; [|done]. intros id' Hid'. apply Hid. destruct app; exact Hid'.
Qed.

Lemma keeps_track_jobs e : (∀ A (l : list A), e_order e A l ≡ₚ l) → keeps e any kept jobs.
Proof.
  intros Ho. apply keeps_tab_jobs; [apply _|intros; by apply keeps_process| |].
  - intros t. apply keeps_modify. intros n Hn. apply (kept_sub n); try done. apply map_filter_subseteq.
  - intros n _ [(? & ? & ? & ? & ?) ?]. by split; [split_and!|].
Qed.

Lemma sound_step e o n n' ev : sound n → paths_ready e o n → step e o n n' ev → sound n'.
Proof.
  intros Hn [Ho Hr] Hs. destruct (table_op o) eqn:Hop.
  - destruct o; try discriminate Hop; unfold step in Hs; cbn [perform] in Hs.
    + eapply (wp_elim _ any _ (λ _, tracks (e_now e) ∅)) in Hs as [_ [? _]]; [done|].
      apply (keeps_void _ _ (tracks (e_now e) ∅)); [apply keeps_track_Inbound|by split].
    + eapply (wp_elim _ any _ (λ _, kept)) in Hs as [_ [? _]]; [done|]. by apply keeps_track_jobs, kept_sound.
    + eapply (wp_elim _ any _ (λ _, kept)) in Hs as [_ [? _]]; [done|]. by apply keeps_SetLeaf, kept_sound.
    + eapply (wp_elim _ any _ (λ _, kept)) in Hs as [_ [? _]]; [done|].
      apply (keeps_void _ _ kept); [by apply keeps_Remember|by apply kept_sound].
    + eapply (wp_elim _ any _ (λ _, kept)) in Hs as [_ [? _]]; [done|]. apply keeps_modify; [|by apply kept_sound].
      intros m Hm. apply (kept_sub m); try done. apply delete_subseteq.
  - eapply (wp_elim _ any _ (λ _, kept)) in Hs as [_ [? _]]; [done|].
    apply keeps_tab_op; [apply _|intros; apply keeps_touch|done|by apply kept_sound].
Qed.

Lemma sound_reached n : reached paths_ready n → sound n.
Proof.
  induction 1 as [id from ttl cb n Hnew|]; [|by eapply sound_step].
  apply bind_Some in Hnew as (i & _ & Hnew). destruct (negb _); [done|]. cbv zeta in Hnew. injection Hnew as <-.
  split_and!; [apply map_Forall_empty..|]. cbn. destruct (Z.leb_spec ttl 0); [reflexivity|lia].
Qed.

(** ** What the node believes *)


(** C20: A packet cannot take a live path away, nor replace it on an old announce: after any packet the
    path is still there, is still live, and is either the same path or one whose emission stamp is
    strictly larger. *)
Theorem live_path_replaced_by_newer e raw iface n n' ev d p :
  reached paths_ready n → step e (ReceivePacket raw iface) n n' ev → paths n !! d = Some p → e_now e < pe_Expires p →
  ∃ p', paths n' !! d = Some p' ∧ e_now e < pe_Expires p' ∧
    ((∃ x, p' = p <| pe_Timestamp := x |>) ∨ EmittedAt p < EmittedAt p').
Proof.
  intros Hn%sound_reached Hs Hd Hl. unfold step in Hs. cbn [perform] in Hs.
  eapply (wp_elim _ any _ (λ _, tracks (e_now e) (paths n))) in Hs as [_ [_ HM]].
  - destruct (HM d p Hd) as (p' & Hp' & Hsucc). destruct (Hsucc Hl). eauto.
  - apply (keeps_void _ _ (tracks (e_now e) (paths n))); [apply keeps_track_Inbound|].
    split; [done|]. intros d0 p0 H0. exists p0. split; [done|apply succeeds_refl].
Qed.

End Paths.

(** ** On the nodes of [RnsToy] *)

Definition relay : Node := after relay_up (new_node 7).

Lemma relay_paths_reached : reached paths_ready relay.
Proof.
  apply reached_after; [apply reached_new_node| |vm_compute; reflexivity].
  vm_compute. split_and!; done.
Qed.

Definition relay_path : PathEntry :=
  default (MkPathEntry [] 0 [] 0 0 [] [] None [] false) (paths relay !! inbox_hash).

Lemma relay_path_known : paths relay !! inbox_hash = Some relay_path.
Proof. vm_compute. reflexivity. Qed.


(** [far] announces again. *)
Definition announce_again : list Z :=
  Eval vm_compute in said (far_up ++ [(at_ 1100, AnnounceOp 0 [] false)]) (new_node 9).

Lemma live_path_witness :
  let n' := next (at_ 1101) (ReceivePacket announce_again wan) relay in
  EmittedAt <$> paths relay !! inbox_hash = Some 1000 ∧ EmittedAt <$> paths n' !! inbox_hash = Some 1100 ∧
  ∃ p', paths n' !! inbox_hash = Some p' ∧ 1101 * Second < pe_Expires p' ∧
    ((∃ x, p' = relay_path <| pe_Timestamp := x |>) ∨ EmittedAt relay_path < EmittedAt p').
Proof.
  cbv zeta. split; [vm_compute; reflexivity|split; [vm_compute; reflexivity|]].
  apply (live_path_replaced_by_newer (at_ 1101) announce_again wan relay _ (emits (at_ 1101) (ReceivePacket announce_again wan) relay)).
  - exact relay_paths_reached.
  - apply op_runs. vm_compute. reflexivity.
  - exact relay_path_known.
  - vm_compute. reflexivity.
Defined.

End RnsPaths.
