(* ===== verification/RnsOnce.v ===== *)
(** A node handles a packet once: copies of it that arrive later, on any interface and by any route,
    are dropped. *)
From S2P Require Import Prelude Fields Msgpack RnsPacket RnsCrypto RnsWire RnsState RnsLogic RnsIface RnsAnnounce.
From S2P Require Import RnsPathReq RnsForward RnsLink RnsResource RnsLinkLogic RnsInbound RnsTables RnsToy.
Import Fields RnsPacket RnsWire RnsState RnsLogic RnsIface RnsAnnounce RnsPathReq RnsForward RnsLink RnsResource
  RnsLinkLogic RnsInbound RnsTables RnsToy.

Module RnsOnce.

Section Once.
Context {HC : Crypto}.

(** ** The hash list *)

Definition seen (h : list Z) (n : Node) : Prop := h ∈ hashlist n ∨ h ∈ hashlistPrev n.

#[local] Instance seen_tabular h : Tabular (seen h).
Proof. intros n n' Heq. injection Heq as _ _ _ _ Hh Hp _. unfold seen. by rewrite Hh, Hp. Qed.

Local Ltac untouched := apply keeps_modify; let n := fresh in let Hn := fresh in intros n Hn; repeat case_match; exact Hn.
Local Ltac go := repeat first [ keep1 | untouched | by apply keeps_emit ].

Lemma keeps_seen_waiting e h ifaces dest ann hops : keeps e any (seen h) (answer_waiting ifaces dest ann hops).
Proof.
  induction ifaces; simpl; [go|]. keep1; [apply keeps_tab_paidGate; apply _|]. go. apply keeps_tab_transmit_. apply _.
Qed.

Lemma keeps_seen_announce e h pkt : keeps e any (seen h) (handleAnnounce pkt).
Proof.
  unfold handleAnnounce, LocalDestination, IsLeaf, note_rebroadcast, learn_path, Get, Put, remember_announce, withoutLeaves.
  go. apply keeps_seen_waiting.
Qed.

Lemma seen_add h h' n : seen h n → seen h (n <| hashlist ::= union {[h']} |>).
Proof. intros [Hn|Hn]; [left; cbn; set_solver|by right]. Qed.

Lemma keeps_seen_touch e h dest : keeps e any (seen h) (touch dest).
Proof. unfold touch. go. Qed.

Lemma keeps_seen_answer e h iface dest r en ann : keeps e any (seen h) (answer_known iface dest r en ann).
Proof. unfold answer_known, crossesLeaf, resolveInflight. go. Qed.
Hint Resolve seen_add keeps_seen_touch keeps_seen_answer keeps_seen_announce : rns.

Lemma keeps_seen_route e h pkt : keeps e any (seen h) (route pkt).
Proof. apply keeps_tab_route; eauto with rns typeclass_instances. Qed.

Lemma keeps_seen_Inbound e h raw iface : keeps e any (seen h) (Inbound raw iface).
Proof. apply keeps_tab_Inbound; eauto with rns typeclass_instances. Qed.

(** The hash list is rotated out at 50000 packets only. *)
Definition not_full (e : Env) (o : op) (n : Node) : Prop :=
  match o with Tick => (size (hashlist n) <= 50000)%nat | _ => True end.

Definition roomy (h : list Z) (n : Node) : Prop := seen h n ∧ (size (hashlist n) <= 50000)%nat.

#[local] Instance roomy_tabular h : Tabular (roomy h).
Proof. intros n n' Heq [Hs Hr]. split; [by eapply tabular|]. injection Heq as _ _ _ _ Hh _ _. by rewrite <- Hh. Qed.

Lemma keeps_roomy_jobs e h : keeps e any (roomy h) jobs.
Proof.
  apply keeps_tab_jobs; [apply _| | |].
  - intros t. unfold processAnnounceTable. go; [|apply keeps_tab_send_announce; apply _].
    match goal with |- keeps _ _ _ (due_announces _ ?l) => induction l as [|[d a'] l IH] end; simpl; go.
    unfold due_announce. go.
  - intros t. unfold Expire. go.
  - intros n Hf [_ Hr]. lia.
Qed.

Lemma seen_step e o h n n' ev : seen h n → not_full e o n → step e o n n' ev → seen h n'.
Proof.
  intros Hn Hok Hs. unfold step in Hs. destruct (table_op o) eqn:Hop.
  - destruct o; try discriminate Hop; cbn [perform] in Hs.
    + eapply (wp_elim _ any _ (λ _, seen h)) in Hs as [_ ?]; [done|]. by apply keeps_void; [apply keeps_seen_Inbound|].
    + eapply (wp_elim _ any _ (λ _, roomy h)) in Hs as [_ [? _]]; [done|]. by apply keeps_roomy_jobs.
    + eapply (wp_elim _ any _ (λ _, seen h)) in Hs as [_ ?]; [done|].
      assert (keeps e any (seen h) (SetLeaf iface on)) as Hk by (unfold SetLeaf; go). by apply Hk.
    + eapply (wp_elim _ any _ (λ _, seen h)) in Hs as [_ ?]; [done|].
      assert (keeps e any (seen h) (Remember dest pub appData)) as Hk by (unfold Remember; go). by apply keeps_void.
    + eapply (wp_elim _ any _ (λ _, seen h)) in Hs as [_ ?]; [done|]. by apply keeps_modify.
  - eapply (wp_elim _ any _ (λ _, seen h)) in Hs as [_ ?]; [done|].
    apply keeps_tab_op; [apply _|eauto with rns|done|done].
Qed.

(** ** Reading a packet *)

(** The packet is read with header [h] on an interface without an access code. *)
Definition reads (n : Node) (raw iface : list Z) (h : Header) : Prop :=
  UnmarshalHeader raw = Ok h ∧ ifac n !! iface = None ∧ RnsCrypto.HasIFACFlag raw = false ∧ unwrap_own n raw h = (raw, h).

(** The kinds of packet the hash list is for: not the contexts of a running link transfer, not
    broadcasts, and not announces. *)
Definition deduplicated (h : Header) : bool :=
  negb (unfiltered_context (Context h)) && negb (DestType h =? DestPlain) && negb (DestType h =? DestGroup)
  && negb ((PacketType h =? PacketAnnounce) && (DestType h =? DestSingle)).

(** A packet that this node is to handle. *)
Definition ours (n : Node) (h : Header) : bool :=
  negb (HeaderType h =? HeaderType2) || (PacketType h =? PacketAnnounce) || bool_decide (TransportID h = idHash n).

Definition crossing_only (ev : event) : Prop := match ev with OnPaidCrossing _ _ _ _ => True | _ => False end.

Lemma filter_seen n raw iface h :
  deduplicated h = true → seen (PacketHash sha256 raw) n → packetFilter n (MkPacket raw h (PacketHash sha256 raw) iface) = false.
Proof.
  intros Hd Hs. unfold deduplicated in Hd. apply andb_true_iff in Hd as [Hd Ha].
  apply andb_true_iff in Hd as [Hd Hg]. apply andb_true_iff in Hd as [Hu Hp].
  unfold packetFilter. cbn. case_match; [done|]. rewrite (proj1 (negb_true_iff _) Hu), (proj1 (negb_true_iff _) Hp).
  rewrite (proj1 (negb_true_iff _) Hg), (proj1 (negb_true_iff _) Ha). cbn. by rewrite bool_decide_eq_true_2.
Qed.

Lemma filter_unseen n raw iface h :
  deduplicated h = true → ours n h = true → packetFilter n (MkPacket raw h (PacketHash sha256 raw) iface) = false →
  seen (PacketHash sha256 raw) n.
Proof.
  intros Hd Ho. unfold deduplicated in Hd. apply andb_true_iff in Hd as [Hd Ha].
  apply andb_true_iff in Hd as [Hd Hg]. apply andb_true_iff in Hd as [Hu Hp].
  unfold packetFilter. cbn. unfold ours in Ho.
  rewrite (proj1 (negb_true_iff _) Hu), (proj1 (negb_true_iff _) Hp), (proj1 (negb_true_iff _) Hg), (proj1 (negb_true_iff _) Ha). cbn.
  destruct (HeaderType h =? HeaderType2), (PacketType h =? PacketAnnounce), (bool_decide (TransportID h = idHash n)); try done;
    cbn; rewrite orb_false_r, negb_false_iff; apply bool_decide_eq_true_1.
Qed.

(** Into the pipeline. *)
Lemma wp_Inbound_reads e E (Q : bool → Node → Prop) raw iface h n :
  reads n raw iface h → wp e E (inbound_clean raw iface) Q n → wp e E (Inbound raw iface) Q n.
Proof.
  intros (Hh & Hi & Hf & _) Hwp. unfold Inbound.
  destruct (length raw <? HeaderMinSize)%nat eqn:Hl; [unfold UnmarshalHeader in Hh; by rewrite Hl in Hh|].
  apply wp_bind, wp_gets. by rewrite Hi, Hf.
Qed.

Lemma wp_noteCrossing e iface raw b n : wp e crossing_only (noteCrossing iface raw b) (λ _ n', only_counts n n') n.
Proof.
  pose proof (only_counts_refl n).
  unfold noteCrossing. apply wp_bind, wp_gets, wp_bind, wp_gets. case_match; [by apply wp_ret|].
  case_match; [|by apply wp_ret]. case_match; [by apply wp_ret|]. cbv zeta.
  apply wp_bind, wp_now, wp_bind, wp_gets. case_match; [by apply wp_ret|].
  apply wp_seq, wp_modify, wp_emit; [done|]. by eexists (stats n), _; destruct n.
Qed.

(** A copy of a packet that was seen is dropped. *)
Lemma wp_dropped e raw iface h n :
  reads n raw iface h → deduplicated h = true → seen (PacketHash sha256 raw) n →
  wp e crossing_only (Inbound raw iface) (λ _ n', only_counts n n') n.
Proof.
  intros Hr Hd Hs. apply (wp_Inbound_reads _ _ _ _ _ h); [done|]. destruct Hr as (Hh & _ & _ & Hu).
  unfold inbound_clean. rewrite Hh. apply wp_bind, wp_gets. rewrite Hu. apply wp_seq.
  eapply wp_mono; [|apply wp_noteCrossing]. intros u n1 Hn1. apply wp_seq, wp_modify, wp_bind, wp_gets.
  rewrite filter_seen; [|done|destruct Hn1 as (s & c & ->); exact Hs]. apply wp_seq, wp_modify, wp_ret.
  eapply only_counts_trans; [exact Hn1|]. eapply only_counts_trans; apply only_counts_stats.
Qed.

(** A packet that is handled is seen afterwards. *)
Lemma wp_handled e raw iface h n :
  reads n raw iface h → deduplicated h = true → ours n h = true → remembered n h = true →
  wp e any (Inbound raw iface) (λ _, seen (PacketHash sha256 raw)) n.
Proof.
  intros Hr Hd Ho Hm. apply (wp_Inbound_reads _ _ _ _ _ h); [done|]. destruct Hr as (Hh & _ & _ & Hu).
  unfold inbound_clean. rewrite Hh. apply wp_bind, wp_gets. rewrite Hu. apply wp_seq.
  eapply wp_mono; [|eapply wp_weaken; [|apply wp_noteCrossing]; done]. intros u n1 (s & c & ->).
  apply wp_seq, wp_modify, wp_bind, wp_gets. set (n2 := _ <| stats ::= _ |>).
  destruct (packetFilter n2 _) eqn:Hf; simpl negb; cbv iota.
  - unfold paidExtraHops. apply wp_bind. eapply (wp_call _ _ (λ n, remembered n h = true)); [keep|exact Hm|].
    intros extra n3 Hn3. apply wp_seq, wp_modify. rewrite Hn3. apply keeps_seen_route. left. cbn. set_solver.
  - apply wp_seq, wp_modify, wp_ret. eapply (tabular n2); [reflexivity|]. by eapply (filter_unseen n2 raw iface h).
Qed.

(** Later states, with room in the hash list. *)
Definition later : relation Node := rtc (λ n n', ∃ e o ev, not_full e o n ∧ step e o n n' ev).

Lemma seen_later h n n' : later n n' → seen h n → seen h n'.
Proof. induction 1 as [|n n1 n2 (e & o & ev & Hok & Hs) _ IH]; [done|]. intros Hn. apply IH. by eapply seen_step. Qed.


End Once.

(** ** On the nodes of [RnsToy] *)

(** [near] sends a packet through the relay; the relay hears it again from its leaf, after two more
    hops. *)
Definition note_near : list Z :=
  Eval vm_compute in said [(at_ 1003, ReceivePacket announce_relay wan); (at_ 1004, SendDataOp inbox_hash (str "hi") false)] (new_node 5).
Definition note_echo : list Z := Eval vm_compute in <[1%nat := 2]> note_near.

Definition header_of (raw : list Z) : Header :=
  match UnmarshalHeader raw with Ok h => h | Err _ => MkHeader 0 0 0 0 0 0 [] [] 0 [] end.

Definition relay : Node := after relay_up (new_node 7).
Definition relay_after : Node := next (at_ 1005) (ReceivePacket note_near wan) relay.


End RnsOnce.
