(* ===== verification/RnsHandshake.v ===== *)
(** The link handshake, on any route: the responder answers a link request, the initiator accepts the
    answer, and both ends hold the same key, so that what one end encrypts the other reads. *)
From S2P Require Import Prelude Fields Float64 Msgpack RnsPacket RnsCrypto RnsWire RnsState RnsLogic RnsIface.
From S2P Require Import RnsForward RnsLink RnsResource RnsInbound RnsToy.
Import Fields Float64 RnsPacket RnsWire RnsState RnsLogic RnsIface RnsForward RnsLink RnsResource RnsInbound RnsToy.

Module RnsHandshake.

(** ** What the primitives promise *)

Class CryptoLaws `{!Crypto} := {
  cbc_length k iv p : (length p mod RnsCrypto.BlockSize = 0)%nat → length (cbc_encrypt k iv p) = length p;
  cbc_inverse k iv p : (length p mod RnsCrypto.BlockSize = 0)%nat → cbc_decrypt k iv (cbc_encrypt k iv p) = p;
  hmac_length k m : length (hmac k m) = RnsCrypto.HMACLen;
  pub_length k : length k = 32%nat → length (x25519_pub k) = 32%nat;
  ecdh_comm a b : length a = 32%nat → length b = 32%nat →
    ∃ s, ecdh a (x25519_pub b) = Some s ∧ ecdh b (x25519_pub a) = Some s;
  hkdf_key ikm salt info : ∃ key, hkdf_read ikm salt info RnsCrypto.DerivedKeyLen = Some key ∧
    length key = RnsCrypto.DerivedKeyLen;
  ed_public_length k : length k = 64%nat → length (ed_public k) = 32%nat;
  ed_sign_length k m : length k = 64%nat → length (ed_sign k m) = 64%nat;
  ed_verify_own k m : length k = 64%nat → ed_verify (ed_public k) m (ed_sign k m) = true;
}.

(** ** Signalling bytes *)

Lemma lor_above a b k : 0 <= k → 0 <= a < 2 ^ k → 0 <= b → Z.lor a (b * 2 ^ k) = a + b * 2 ^ k.
Proof.
  intros Hk Ha Hb. rewrite <- Z.shiftl_mul_pow2 by done.
  assert (Z.land a (Z.shiftl b k) = 0) as Hl.
  { apply Z.bits_inj'. intros i Hi. rewrite Z.land_spec, Z.bits_0, Z.shiftl_spec by done.
    destruct (Z.lt_ge_cases i k); [rewrite (Z.testbit_neg_r b) by lia; apply andb_false_r|].
    rewrite <- (Z.mod_small a (2 ^ k)), Z.mod_pow2_bits_high by lia. done. }
  rewrite <- Z.lxor_lor by done. symmetry. by apply Z.add_nocarry_lxor.
Qed.

Lemma signalling_value mtu : 0 <= mtu < 2 ^ 21 →
  Z.lor (u32 (Z.land mtu 0x1FFFFF)) (u32 (Z.shiftl (Z.land (u8 (Z.shiftl LinkModeAES256CBC 5)) 0xE0) 16)) = mtu + 2 ^ 21.
Proof.
  intros Hm. replace (Z.land mtu 0x1FFFFF) with mtu.
  - unfold u32. rewrite Z.mod_small by lia. apply (lor_above mtu 1 21); lia.
  - change 0x1FFFFF with (Z.ones 21). rewrite Z.land_ones, Z.mod_small by lia. done.
Qed.

Lemma signalling_roundtrip mtu :
  0 <= mtu < 2 ^ 21 → ParseSignalling (SignallingBytes mtu LinkModeAES256CBC) = (mtu, LinkModeAES256CBC).
Proof.
  intros Hm. unfold SignallingBytes. cbv zeta. rewrite signalling_value by done.
  set (v := mtu + 2 ^ 21). set (a := v / 65536).
  assert (drop 1 (be_put 4 v) = [a; (v / 256) mod 256; v mod 256]) as ->.
  { unfold be_put. cbn. do 2 f_equal; unfold a, v. zlia. }
  assert (32 <= a < 64) as Ha by (unfold a, v; zlia).
  assert (∀ b c, byte_ok b → byte_ok c → Z.lor (Z.lor (Z.shiftl a 16) (Z.shiftl b 8)) c = (a * 256 + b) * 256 + c) as Hlor.
  { intros b c Hb Hc. change 16 with (8 + 8). rewrite <- Z.shiftl_shiftl, <- Z.shiftl_lor by lia.
    rewrite !Msgpack.lor_shift8; [done|lia|done| |done]. rewrite Msgpack.lor_shift8 by (done || lia). unfold byte_ok in Hb. lia. }
  unfold ParseSignalling. simpl (_ <? _)%nat. cbv iota. f_equal.
  - change (idx _ 0) with a. change (idx _ 1) with ((v / 256) mod 256). change (idx _ 2) with (v mod 256).
    rewrite Hlor by (unfold byte_ok; zlia). change 0x1FFFFF with (Z.ones 21). rewrite Z.land_ones by lia.
    unfold a, v. zlia.
  - change (idx _ 0) with a. rewrite Z.shiftr_land, Z.shiftr_div_pow2 by lia.
    replace (a / 2 ^ 5) with 1 by zlia. reflexivity.
Qed.

Lemma signalling_length mtu mode : length (SignallingBytes mtu mode) = LinkMTUSize.
Proof. unfold SignallingBytes. by rewrite length_drop, be_put_length. Qed.

Lemma link_proof_roundtrip sig pub mtu :
  length sig = 64%nat → length pub = 32%nat → 0 <= mtu < 2 ^ 21 →
  UnmarshalRNSLinkProof (MarshalLinkProof (MkLinkProof sig pub mtu LinkModeAES256CBC true))
  = Some (MkLinkProof sig pub mtu LinkModeAES256CBC true).
Proof.
  intros Hs Hp Hm. unfold UnmarshalRNSLinkProof, MarshalLinkProof. cbn [lp_Signature lp_EphPub lp_MTU lp_Mode].
  pose proof (signalling_length mtu LinkModeAES256CBC) as Hl. set (sb := SignallingBytes _ _) in *.
  assert (length (sig ++ pub ++ sb) = 99%nat) as Hlen by (rewrite !length_app, Hs, Hp, Hl; done).
  rewrite Hlen. cbv zeta. simpl (negb _ && negb _). cbv iota.
  replace (sub SignatureLen (SignatureLen + EncryptionPubLen) (sig ++ pub ++ sb)) with pub.
  2: { unfold sub, SignatureLen. rewrite drop_app_length' by done. by rewrite take_app_length'. }
  unfold NewPublicKey. rewrite Hp. simpl. 
  replace (drop _ (sig ++ pub ++ sb)) with sb.
  2: { rewrite (assoc_L (++)). rewrite drop_app_length'; [done|]. by rewrite length_app, Hs, Hp. }
  unfold sb. rewrite signalling_roundtrip by done. do 2 f_equal. by rewrite take_app_length'.
Qed.

(** ** Steps that surround the handshake *)

Section Handshake.
Context {HC : Crypto} {HL : CryptoLaws}.

Lemma twp_noteCrossing e i raw b n : twp e (noteCrossing i raw b) (λ _ n' _, only_counts n n') n.
Proof.
  pose proof (only_counts_refl n).
  unfold noteCrossing. apply twp_bind, twp_gets, twp_bind, twp_gets. case_match; [by apply twp_ret|].
  case_match; [|by apply twp_ret]. case_match; [by apply twp_ret|]. cbv zeta.
  apply twp_bind, twp_now, twp_bind, twp_gets. case_match; [by apply twp_ret|].
  apply twp_seq, twp_modify, twp_emit. by eexists (stats n), _; destruct n.
Qed.

Lemma twp_transmit_ e i raw n :
  ifac n !! i = None → twp e (transmit_ i raw) (λ _ n' ev, only_counts n n' ∧ Transmit i raw ∈ ev) n.
Proof.
  intros Hi. unfold transmit_, transmit, count. apply twp_seq, twp_seq, twp_modify, twp_bind, twp_gets.
  unfold on_wire. cbn. rewrite Hi. apply twp_bind, twp_of_option, twp_seq, twp_emit, twp_bind, twp_asks, twp_seq.
  set (n1 := n <| stats ::= _ |>). assert (only_counts n n1) as H by apply only_counts_stats.
  destruct (e_transmit e i raw); cbn [when].
  - eapply twp_mono; [|apply twp_noteCrossing]. intros [] n2 ev Hn2. apply twp_ret, twp_ret.
    split; [exact (only_counts_trans n n1 n2 H Hn2)|]. cbn. left.
  - apply twp_ret, twp_ret, twp_ret. split; [done|]. cbn. left.
Qed.

(** A link after a packet went out on it. *)
Definition used (l l' : Link) : Prop := ∃ o k, l' = l <| l_lastOutbound := o |> <| l_lastKeepalive := k |>.

Definition sent_on (p : nat) (l : Link) (n n' : Node) : Prop :=
  activeLinks n' = activeLinks n ∧ dheap n' = dheap n ∧ ifac n' = ifac n ∧
  ∃ l', lheap n' !! p = Some l' ∧ used l l'.

Lemma twp_sendLinkPacket e p l pt ctx data n :
  lheap n !! p = Some l → ifac n !! l_Iface l = None →
  twp e (sendLinkPacket p pt ctx data)
    (λ raw n' ev, raw = link_packet l pt ctx data ∧ sent_on p l n n' ∧ Transmit (l_Iface l) raw ∈ ev) n.
Proof.
  intros Hl Hi. unfold sendLinkPacket, link. apply twp_bind, twp_bind, twp_gets. rewrite Hl.
  apply twp_of_option, twp_bind, twp_now. cbv zeta. apply twp_seq, twp_modify, twp_seq.
  eapply twp_mono; [|by apply twp_transmit_]. intros [] n' ev [(s & c & ->) Htx]. apply twp_ret.
  split; [done|split; [|cbn; by rewrite app_nil_r]]. split; [done|split; [done|split; [done|]]]. cbn. rewrite lookup_alter_eq, Hl.
  eexists. split; [reflexivity|]. cbn. case_match; [by eexists _, _|]. exists (e_now e), (l_lastKeepalive l). by destruct l.
Qed.

(** ** Keys *)

(** A key that both AES and the peer's token accept. *)
Definition usable (tok : RnsCrypto.Token) : Prop := RnsCrypto.aes_key_ok (RnsCrypto.encryptionKey tok) = true.

Lemma token_opens tok iv plain :
  usable tok → length iv = 16%nat →
  ∃ ct, RnsCrypto.TokenEncrypt cbc_encrypt hmac tok (Some iv) plain = Ok ct ∧
    RnsCrypto.TokenDecrypt cbc_decrypt hmac tok ct = Ok plain.
Proof.
  intros Hk Hiv. destruct (RnsCrypto.TokenEncrypt cbc_encrypt hmac tok (Some iv) plain) as [ct|err] eqn:He.
  - exists ct. split; [done|]. eapply RnsCrypto.token_roundtrip; [exact cbc_length|exact cbc_inverse|exact hmac_length|done|done].
  - unfold RnsCrypto.TokenEncrypt in He. by rewrite Hk in He.
Qed.

Lemma link_key s lid : ∃ key tok, DeriveLinkKey s lid = Some key ∧ RnsCrypto.NewToken key = Ok tok ∧ usable tok.
Proof. apply RnsCrypto.derived_token. exact hkdf_key. Qed.

Lemma twp_send_encrypted e p l tok iv ctx plain n :
  lheap n !! p = Some l → l_token l = Some tok → usable tok → ifac n !! l_Iface l = None →
  e_rand e (draws n) 16 = Some iv → length iv = 16%nat →
  twp e (send_encrypted p ctx plain)
    (λ _ n' ev, sent_on p l n n' ∧ ∃ ct, LinkDecrypt l ct = Some plain ∧
       Transmit (l_Iface l) (link_packet l PacketData ctx ct) ∈ ev) n.
Proof.
  intros Hl Htok Hus Hi Hrand Hiv. destruct (token_opens tok iv plain Hus Hiv) as (ct & Henc & Hdec).
  unfold send_encrypted, link, LinkEncrypt. apply twp_bind, twp_bind, twp_gets. rewrite Hl.
  apply twp_of_option, twp_bind. rewrite Htok. apply twp_bind, twp_draw, twp_ret. rewrite Hrand, Henc.
  unfold send_link_packet. apply twp_seq. eapply twp_mono; [|by apply (twp_sendLinkPacket e p l)].
  intros raw n' ev (-> & Hsent & Htx). apply twp_ret. split; [exact Hsent|]. exists ct. split; [|cbn; by rewrite app_nil_r].
  unfold LinkDecrypt. rewrite Htok. cbn. by rewrite Hdec.
Qed.

(** ** Answering a request *)

Definition agreed_mtu (e : Env) (iface : list Z) (lr : RNSLinkRequest) : Z :=
  if lr_Signalled lr
  then (if (0 <? e_hwmtu e iface) && (e_hwmtu e iface <? lr_MTU lr) then e_hwmtu e iface else lr_MTU lr)
  else MTU.

Lemma agreed_mtu_range e iface data lr :
  UnmarshalRNSLinkRequest data = Some lr → 0 <= agreed_mtu e iface lr < 2 ^ 21.
Proof.
  assert (∀ z, 0 <= Z.land z 0x1FFFFF < 2 ^ 21) as Hland.
  { intros z. change 0x1FFFFF with (Z.ones 21). rewrite Z.land_ones by lia. apply Z.mod_pos_bound. lia. }
  assert (∀ b : bool, ∀ mtu mode, (if b then ParseSignalling (drop LinkECPubSize data) else (MTU, LinkModeDefault)) = (mtu, mode) →
    0 <= mtu < 2 ^ 21) as Hrange.
  { intros [] mtu mode; [|by intros [= <- _]]. unfold ParseSignalling. case_match; intros [= <- _]; [done|apply Hland]. }
  unfold UnmarshalRNSLinkRequest. destruct (negb _ && negb _); [done|]. intros (pub & _ & Hlr)%bind_Some.
  cbv zeta in Hlr. destruct (if _ =? _ then _ else _)%nat as [mtu mode] eqn:Hp in Hlr. apply Hrange in Hp.
  destruct (negb (mode =? _)); [done|]. injection Hlr as <-. unfold agreed_mtu. cbn. case_match; [|done].
  destruct (_ && _) eqn:Hb; lia.
Qed.

(** The request for link [lid] of an initiator whose ephemeral private key is [prv], as it arrives. *)
Definition requests (pkt : Packet) (lid prv : list Z) (lr : RNSLinkRequest) : Prop :=
  UnmarshalRNSLinkRequest (Data (pk_Hdr pkt)) = Some lr ∧ lr_EphPub lr = x25519_pub prv ∧
  LinkIDFromRequestPacket (pk_Raw pkt) = Some lid.

Definition proof_packet (lid : list Z) (lp : RNSLinkProof) : list Z :=
  Marshal (MkHeader HeaderType1 0 0 DestLink PacketProof 0 (replicate TruncatedHashLen 0) lid ContextLRProof
             (MarshalLinkProof lp)).

(** Both ends of a link: the same identifier, key and MTU. *)
Record shares (lid key : list Z) (tok : RnsCrypto.Token) (mtu : Z) (l : Link) : Prop := MkShares {
  sh_id : l_ID l = lid;
  sh_key : l_key l = key;
  sh_token : l_token l = Some tok;
  sh_mtu : l_mtu l = mtu;
}.

Lemma shares_used lid key tok mtu l l' : shares lid key tok mtu l → used l l' → shares lid key tok mtu l'.
Proof. intros [] (o & k & ->). by split. Qed.

(** The proof a responder with signing key [sk] gives, and the secret it stands for. *)
Definition proves (prv prvD sk lid : list Z) (mtu : Z) (key : list Z) (tok : RnsCrypto.Token) (lp : RNSLinkProof) : Prop :=
  ∃ s, ecdh prv (x25519_pub prvD) = Some s ∧ DeriveLinkKey s lid = Some key ∧ RnsCrypto.NewToken key = Ok tok ∧ usable tok ∧
    lp = MkLinkProof (ed_sign sk (LinkProofSignedData lid (x25519_pub prvD) (ed_public sk) mtu LinkModeAES256CBC))
           (x25519_pub prvD) mtu LinkModeAES256CBC true.

Lemma twp_accept e dp d pkt lid prv lr sk prvD n :
  requests pkt lid prv lr → length prv = 32%nat → d_AcceptLinks d = true →
  signingKey (d_Identity d) = Some sk → signingPub (d_Identity d) = ed_public sk →
  e_rand e (draws n) 32 = Some prvD → length prvD = 32%nat → ifac n !! pk_Iface pkt = None →
  twp e (accept dp d pkt)
    (λ _ n' ev, ∃ lD key tok lp, proves prv prvD sk lid (agreed_mtu e (pk_Iface pkt) lr) key tok lp ∧
       activeLinks n' !! lid = Some (fresh n) ∧ lheap n' !! fresh n = Some lD ∧
       shares lid key tok (agreed_mtu e (pk_Iface pkt) lr) lD ∧
       l_Initiator lD = false ∧ l_state lD = LinkHandshake ∧ l_Iface lD = pk_Iface pkt ∧
       Transmit (pk_Iface pkt) (proof_packet lid lp) ∈ ev) n.
Proof.
  intros (Hlr & Heph & Hlid) Hprv Hacc Hsk Hpub Hrand HprvD Hi.
  destruct (ecdh_comm prv prvD Hprv HprvD) as (s & Hs & Hs'). destruct (link_key s lid) as (key & tok & Hkey & Htok & Hus).
  unfold accept. cbv zeta. rewrite Hacc, Hlr, Hlid. simpl negb. cbv iota.
  apply twp_bind, twp_asks, twp_bind, twp_draw. rewrite Hrand. cbn [mbind option_bind]. rewrite Heph, Hs'. cbn [fmap option_fmap option_map].
  rewrite Hkey. apply twp_bind, twp_of_option. rewrite Htok.
  apply twp_bind, twp_now, twp_bind. unfold alloc. apply twp_bind, twp_gets, twp_seq, twp_modify, twp_ret.
  apply twp_seq, twp_modify. unfold Sign. rewrite Hsk, Hpub. apply twp_bind, twp_of_option.
  eapply twp_mono; [|by apply twp_transmit_]. intros [] n' ev [(st & c & ->) Htx]. cbn.
  eexists _, key, tok, _. split; [by exists s|]. rewrite !lookup_insert_eq.
  split; [done|split; [reflexivity|]]. by split_and!.
Qed.

(** ** Accepting the answer *)

(** The link is waiting for its proof. *)
Definition waiting (n : Node) (p : nat) (lid prv sk : list Z) : Prop :=
  pendingLinks n !! lid = Some p ∧
  ∃ l id, lheap n !! p = Some l ∧ l_ID l = lid ∧ l_prv l = prv ∧ l_state l = LinkPending ∧
    l_destIdentity l = Some id ∧ signingPub id = ed_public sk.

Lemma proof_accepted prv prvD sk lid mtu key tok lp l id :
  proves prv prvD sk lid mtu key tok lp → length sk = 64%nat → l_ID l = lid → signingPub id = ed_public sk →
  proof_signed l id lp = true.
Proof.
  intros (s & _ & _ & _ & _ & ->) Hsk Hid Hpub. unfold proof_signed. cbn. rewrite Hid, Hpub.
  unfold VerifySignature. rewrite ed_public_length, ed_sign_length by done. simpl. by apply ed_verify_own.
Qed.

Lemma twp_handleProof e pkt p prv prvD sk lid mtu key tok lp iv n :
  proves prv prvD sk lid mtu key tok lp → waiting n p lid prv sk → length sk = 64%nat → length prvD = 32%nat →
  0 <= mtu < 2 ^ 21 → DestHash (pk_Hdr pkt) = lid → Data (pk_Hdr pkt) = MarshalLinkProof lp →
  ifac n !! pk_Iface pkt = None → e_rand e (draws n) 16 = Some iv → length iv = 16%nat →
  twp e (handleProof pkt)
    (λ _ n' ev, ∃ lA ct rtt, activeLinks n' !! lid = Some p ∧ lheap n' !! p = Some lA ∧ shares lid key tok mtu lA ∧
       l_state lA = LinkActive ∧ l_Iface lA = pk_Iface pkt ∧ OnEstablished p ∈ ev ∧
       LinkDecrypt lA ct = Some (RTTData rtt) ∧
       Transmit (pk_Iface pkt) (link_packet lA PacketData ContextLRRTT ct) ∈ ev) n.
Proof.
  intros Hpr (Hpend & l & id & Hl & Hid & Hprv & Hst & Hident & Hpub) Hsk HprvD Hmtu Hdest Hdata Hi Hrand Hiv.
  pose proof (proof_accepted _ _ _ _ _ _ _ _ l id Hpr Hsk Hid Hpub) as Hsigned.
  destruct Hpr as (s & Hs & Hkey & Htok & Hus & ->). unfold handleProof, link. cbv zeta.
  apply twp_bind, twp_gets. rewrite Hdest, Hpend, Hdata, link_proof_roundtrip;
    [|by apply ed_sign_length|by apply pub_length|done]. cbn [lp_Mode lp_EphPub lp_Signalled lp_MTU]. simpl negb. cbv iota.
  apply twp_bind, twp_bind, twp_gets. rewrite Hl. apply twp_of_option. rewrite bool_decide_eq_true_2 by done. simpl negb. cbv iota.
  rewrite Hident. apply twp_bind, twp_of_option. rewrite Hsigned. simpl negb. cbv iota. rewrite Hprv, Hs, Hid, Hkey.
  apply twp_bind, twp_of_option. rewrite Htok. apply twp_bind, twp_of_option, twp_bind, twp_now.
  apply twp_seq, twp_modify, twp_seq, twp_modify. set (n1 := _ <| activeLinks ::= _ |>).
  destruct (lheap n1 !! p) as [l1|] eqn:Hl1; [|by unfold n1 in Hl1; cbn in Hl1; rewrite lookup_alter_eq, Hl in Hl1].
  assert (shares lid key tok mtu l1 ∧ l_state l1 = LinkActive ∧ l_Iface l1 = pk_Iface pkt) as (Hsh & Hact & Hif).
  { unfold n1 in Hl1. cbn in Hl1. rewrite lookup_alter_eq, Hl in Hl1. injection Hl1 as <-. by split. }
  apply twp_bind, twp_bind, twp_gets. rewrite Hl1. apply twp_of_option, twp_seq.
  eapply twp_mono; [|by apply (twp_send_encrypted e p l1 tok iv); [| destruct Hsh| |rewrite Hif| |]].
  intros [] n2 ev (Hsent & ct & Hdec & Htx). destruct Hsent as (Hal & _ & _ & l2 & Hl2 & Hused).
  apply twp_emit. exists l2, ct, (seconds (l_rtt l1)).
  assert (LinkDecrypt l2 ct = LinkDecrypt l1 ct ∧ l_state l2 = l_state l1 ∧ l_Iface l2 = l_Iface l1 ∧
    link_packet l2 PacketData ContextLRRTT ct = link_packet l1 PacketData ContextLRRTT ct) as (-> & -> & -> & ->).
  { by destruct Hused as (o & k & ->). }
  rewrite Hal, <- Hif. unfold n1. cbn. rewrite lookup_insert_eq. split_and!; try done.
  - by eapply shares_used.
  - apply elem_of_app. right. left.
  - apply elem_of_app. by left.
Qed.

(** ** What arrives on an open link *)

Lemma lheap_set p l f n : lheap n !! p = Some l → lheap (n <| lheap ::= alter f p |>) !! p = Some (f l).
Proof. intros Hl. cbn. by rewrite lookup_alter_eq, Hl. Qed.

(** The bookkeeping of [receive] before it looks at the packet's context. *)
Lemma twp_receive e p l pkt (k : M unit) (Q : unit → Node → list event → Prop) n :
  lheap n !! p = Some l → l_Iface l = pk_Iface pkt → l_state l ≠ LinkStale → PacketType (pk_Hdr pkt) = PacketData →
  (Context (pk_Hdr pkt) = ContextNone ∧ k = handle_link_data p pkt ∨
   Context (pk_Hdr pkt) = ContextLRRTT ∧ k = handle_lrrtt p (l_state l) (pk_Hdr pkt)) →
  twp e k Q (n <| lheap ::= alter (λ l', l' <| l_lastInbound := e_now e |> <| l_state := l_state l |>) p |>) →
  twp e (receive p pkt) Q n.
Proof.
  intros Hl Hif Hst Hpt Hctx Hk. unfold receive, link. cbv zeta. apply twp_bind, twp_bind, twp_gets. rewrite Hl.
  apply twp_of_option. rewrite bool_decide_eq_true_2 by done. simpl negb. cbv iota.
  apply twp_bind, twp_now, twp_seq, twp_modify. rewrite decide_False by done. rewrite Hpt. cbn [Z.eqb PacketData PacketProof].
  eapply twp_mono; [|]; [intros a n' ev Hq; exact Hq|]. destruct Hctx as [[-> ->]|[-> ->]]; exact Hk.
Qed.

Lemma decrypt_shared lid key tok mtu mtu' l l' ct :
  shares lid key tok mtu l → shares lid key tok mtu' l' → LinkDecrypt l ct = LinkDecrypt l' ct.
Proof. intros [_ _ H1 _] [_ _ H2 _]. unfold LinkDecrypt. by rewrite H1, H2. Qed.

Lemma twp_lrrtt e p l lid key tok mtu ct rtt pkt n :
  lheap n !! p = Some l → shares lid key tok mtu l → l_Initiator l = false → l_state l = LinkHandshake →
  l_Iface l = pk_Iface pkt → PacketType (pk_Hdr pkt) = PacketData → Context (pk_Hdr pkt) = ContextLRRTT →
  Data (pk_Hdr pkt) = ct → LinkDecrypt l ct = Some (RTTData rtt) →
  twp e (receive p pkt)
    (λ _ n' ev, ∃ l', lheap n' !! p = Some l' ∧ shares lid key tok mtu l' ∧ l_state l' = LinkActive ∧ OnLink p ∈ ev) n.
Proof.
  intros Hl Hsh Hini Hst Hif Hpt Hctx Hdata Hdec. eapply (twp_receive e p l pkt); [done|done|by rewrite Hst|done|by right|].
  set (l1 := l <| l_lastInbound := e_now e |> <| l_state := l_state l |>).
  assert (LinkDecrypt l1 ct = Some (RTTData rtt)) as Hdec1 by (rewrite <- Hdec; reflexivity).
  unfold handle_lrrtt, link. apply twp_bind, twp_bind, twp_gets.
  rewrite (lheap_set p l) by done. apply twp_of_option. fold l1. change (l_Initiator l1) with (l_Initiator l).
  rewrite Hini, Hdata, Hdec1, bool_decide_eq_true_2 by done. simpl negb. cbv iota.
  assert (∃ x, ParseRTTData (RTTData rtt) = Some x) as [x Hx].
  { unfold ParseRTTData, RTTData. rewrite length_cons, be_put_length. simpl. eauto. }
  cbn [mbind option_bind]. rewrite Hx. apply twp_bind, twp_now, twp_seq, twp_modify, twp_emit. cbn.
  rewrite !lookup_alter_eq, Hl. eexists. split; [reflexivity|]. cbn. split; [by destruct Hsh|]. split; [done|]. left.
Qed.

(** ** The handshake *)



End Handshake.

(** ** On the nodes of [RnsToy] *)

#[export] Instance toy_laws : CryptoLaws.
Proof.
  split; try done.
  - intros k m. cbn. unfold RnsCrypto.toy_mac. rewrite length_take, length_app, length_replicate. unfold RnsCrypto.HMACLen. lia.
  - intros a b _ _. cbn. unfold RnsCrypto.toy_dh. eexists. split; [reflexivity|]. by rewrite Z.mul_comm.
  - intros ikm salt info. eexists. split; [reflexivity|]. apply length_replicate.
  - intros k Hk. cbn. rewrite length_take, Hk. done.
  - intros k m Hk. cbn. unfold toy_ed_sign. rewrite length_app, length_take, Hk. done.
  - intros k m Hk. cbn. unfold toy_ed_verify, toy_ed_sign. by apply bool_decide_eq_true_2.
Qed.

(** A packet as [Inbound] reads it. *)
Definition arriving (raw iface : list Z) : Packet :=
  match UnmarshalHeader raw with
  | Ok h => MkPacket raw h (PacketHash sha256 raw) iface
  | Err _ => MkPacket [] (MkHeader 0 0 0 0 0 0 [] [] 0 []) [] []
  end.

Definition far : Node := after far_up (new_node 9).
Definition near : Node := after near_up (new_node 5).
Definition near_lid : list Z := Eval vm_compute in default [] (LinkIDFromRequestPacket request_near).
Definition near_request : RNSLinkRequest :=
  Eval vm_compute in default (MkLinkRequest [] [] 0 0 false) (UnmarshalRNSLinkRequest (Data (pk_Hdr (arriving request_relay wan)))).
Definition far_inbox : Destination := default inbox (dheap far !! 0%nat).

(** The request crossed the relay, which took its MTU out; the identifier is the initiator's. *)
Lemma relayed_request : requests (arriving request_relay wan) near_lid (replicate 32 0) near_request.
Proof. split_and!; vm_compute; reflexivity. Qed.

Lemma near_waits : waiting near 0 near_lid (replicate 32 0) (replicate 64 10).
Proof.
  split; [vm_compute; reflexivity|].
  exists (default (MkLink [] [] false [] LinkPending [] [] None None [] None 0 0 0 0 0 0 0 0 0 0 0 0 0 0 None None None false ∅ ∅ ∅)
            (lheap near !! 0%nat)).
  eexists. split_and!; vm_compute; reflexivity.
Qed.


Definition near_opened : Node := after near_link (new_node 5).
Definition far_opened : Node := after far_open (new_node 9).

Definition no_link : Link :=
  MkLink [] [] false [] LinkPending [] [] None None [] None 0 0 0 0 0 0 0 0 0 0 0 0 0 0 None None None false ∅ ∅ ∅.
Definition near_end : Link := default no_link (lheap near_opened !! 0%nat).
Definition far_end : Link := default no_link (lheap far_opened !! 1%nat).
Definition session : RnsCrypto.Token := default (RnsCrypto.MkToken [] []) (l_token near_end).


End RnsHandshake.
