(* ===== verification/RnsPanic.v ===== *)
(** One packet of a peer that stops the node: an advertisement with an empty hash map. *)
From S2P Require Import Prelude Fields Msgpack RnsPacket RnsCrypto RnsWire RnsState RnsLogic RnsIface RnsForward.
From S2P Require Import RnsLink RnsResource RnsInbound RnsToy RnsHandshake.
Import Fields RnsPacket RnsWire RnsState RnsLogic RnsIface RnsForward RnsLink RnsResource RnsInbound RnsToy RnsHandshake.

Module RnsPanic.

(** A resource of one byte in one part, and no hash of that part. *)
Definition adv_hash : list Z := replicate 32 0.

Definition bare_map : list (Msgpack.Value * Msgpack.Value) :=
  [(Msgpack.VStr (str "t"), Msgpack.VUint 1); (Msgpack.VStr (str "d"), Msgpack.VUint 1);
   (Msgpack.VStr (str "n"), Msgpack.VUint 1); (Msgpack.VStr (str "f"), Msgpack.VUint 1);
   (Msgpack.VStr (str "l"), Msgpack.VUint 1); (Msgpack.VStr (str "h"), Msgpack.VBin adv_hash);
   (Msgpack.VStr (str "r"), Msgpack.VBin [1; 2; 3; 4]); (Msgpack.VStr (str "m"), Msgpack.VBin [])].

Definition bare_advertisement : list Z := Msgpack.Pack (Msgpack.VMap bare_map).

Lemma bare_unpacks : Msgpack.UnpackValue bare_advertisement = Ok (Msgpack.VMap bare_map, Zlen bare_advertisement).
Proof. vm_compute. reflexivity. Qed.

Section Panic.
Context {HC : Crypto} {HL : CryptoLaws}.

Lemma bare_panics e p l n :
  lheap n !! p = Some l → l_acceptResources l = true → e_acceptResource e p 1 = true → link_sdu l ≠ 0 →
  l_incoming l !! adv_hash = None → panics e (handleResourceAdv p bare_advertisement) n.
Proof.
  intros Hl Hacc Hyes Hsdu Hnew. unfold handleResourceAdv, link. rewrite bare_unpacks. cbv zeta.
  change (bin_of (adv_get bare_map (str "h"))) with adv_hash. change (bin_of (adv_get bare_map (str "m"))) with ([] : list Z).
  change (adv_int bare_map (str "d")) with 1.
  apply panics_bind, twp_bind, twp_gets. rewrite Hl. apply twp_of_option, panics_bind, twp_gets, panics_bind.
  rewrite Hacc. apply (twp_asks e (λ e, e_acceptResource e p 1)). rewrite Hyes.
  rewrite (proj2 (Z.eqb_neq _ _) Hsdu), Hnew. simpl negb. cbv iota.
  apply panics_bind, twp_now, panics_bind. set (r := MkIncoming _ _ _ _ _ _ _ _ _ _ _ _ _ _ _ _ _ _ _ _ _ _ _ _).
  change (hashmapUpdate 0 [] r) with (Some (r <| ir_waitingHMU := false |>)). apply twp_of_option, panics_seq, twp_modify.
  unfold requestNext, link. apply panics_bind, twp_bind, twp_gets. rewrite (lheap_set p l) by done. apply twp_of_option.
  set (l1 := l <| l_incoming ::= _ |>).
  assert (l_incoming l1 !! adv_hash = Some (r <| ir_waitingHMU := false |>)) as -> by apply lookup_insert_eq.
  simpl orb. cbv iota. apply panics_bind, twp_now, panics_first. reflexivity.
Qed.

(** C39: Any peer on a link that accepts resources can make the node panic, whatever the node's state: one
    encrypted advertisement of a one-byte resource without a hash is enough. *)
Theorem bare_advertisement_panics e p l tok iv n :
  lheap n !! p = Some l → l_token l = Some tok → usable tok → length iv = 16%nat →
  l_acceptResources l = true → e_acceptResource e p 1 = true → link_sdu l ≠ 0 → l_incoming l !! adv_hash = None →
  ∃ ct, RnsCrypto.TokenEncrypt cbc_encrypt hmac tok (Some iv) bare_advertisement = Ok ct ∧
    ∀ pkt, Data (pk_Hdr pkt) = ct → PacketType (pk_Hdr pkt) = PacketData → Context (pk_Hdr pkt) = ContextResourceAdv →
      pk_Iface pkt = l_Iface l → receive p pkt e n = None.
Proof.
  intros Hl Htok Hus Hiv Hacc Hyes Hsdu Hnew. destruct (token_opens tok iv bare_advertisement Hus Hiv) as (ct & Henc & Hdec).
  exists ct. split; [done|]. intros pkt Hdata Hpt Hctx Hif. apply (panics_bind e); unfold link. apply twp_bind, twp_gets.
  rewrite Hl. apply twp_of_option. rewrite bool_decide_eq_true_2 by done. simpl negb. cbv iota.
  apply panics_bind, twp_now, panics_seq, twp_modify. rewrite Hpt, Hctx.
  set (l1 := l <| l_lastInbound := e_now e |> <| l_state := if decide (l_state l = LinkStale) then LinkActive else l_state l |>).
  set (n1 := n <| lheap ::= _ |>). assert (lheap n1 !! p = Some l1) as Hl1 by by apply (lheap_set p l).
  assert (LinkDecrypt l1 ct = Some bare_advertisement) as Hd1.
  { unfold LinkDecrypt. change (l_token l1) with (l_token l). rewrite Htok. cbn. by rewrite Hdec. }
  change (panics e (with_plain p (pk_Hdr pkt) (handleResourceAdv p)) n1). unfold with_plain, link.
  apply panics_bind, twp_bind, twp_gets. rewrite Hl1. apply twp_of_option. rewrite Hdata, Hd1.
  by apply (bare_panics e p l1).
Qed.

End Panic.

(** [near] stops [far]. *)
Definition far_fuse : list Z :=
  match RnsCrypto.TokenEncrypt cbc_encrypt hmac session (Some (replicate 16 0)) bare_advertisement with
  | Ok ct => link_packet near_end PacketData ContextResourceAdv ct
  | Err _ => []
  end.

Lemma bare_advertisement_witness :
  perform (ReceivePacket far_fuse wan) (at_ 1010) far_opened = None ∧
  ∃ ct, ∀ pkt, Data (pk_Hdr pkt) = ct → PacketType (pk_Hdr pkt) = PacketData → Context (pk_Hdr pkt) = ContextResourceAdv →
    pk_Iface pkt = wan → receive 1 pkt (at_ 1010) far_opened = None.
Proof.
  split; [vm_compute; reflexivity|].
  destruct (bare_advertisement_panics (at_ 1010) 1 far_end session (replicate 16 0) far_opened) as (ct & _ & Hct).
  - vm_compute. reflexivity.
  - vm_compute. reflexivity.
  - vm_compute. reflexivity.
  - reflexivity.
  - vm_compute. reflexivity.
  - reflexivity.
  - vm_compute. discriminate.
  - vm_compute. reflexivity.
  - exists ct. intros pkt H1 H2 H3 H4. apply Hct; [done..|]. rewrite H4. vm_compute. reflexivity.
Defined.

End RnsPanic.
