(* ===== verification/Calendar.v ===== *)
(** Go's calendar: the civil date of a day number, fixed-width decimals, and that both can be
    read back, so that a formatted time names one instant. *)
From S2P Require Import Prelude.

Module Calendar.

Definition pad2 (n : Z) : string := (if n <? 10 then "0" else "") +:+ pretty n.

Definition pad4 (n : Z) : string :=
  (if n <? 10 then "000" else if n <? 100 then "00" else if n <? 1000 then "0" else "") +:+ pretty n.

(** Year, month and day of a day number, 0 being 1 January of year 1. *)
Definition civil (days : Z) : Z * Z * Z :=
  let z := days + 306 in
  let era := z / 146097 in
  let doe := z - era * 146097 in
  let yoe := (doe - doe / 1460 + doe / 36524 - doe / 146096) / 365 in
  let doy := doe - (365 * yoe + yoe / 4 - yoe / 100) in
  let mp := (5 * doy + 2) / 153 in
  let m := if mp <? 10 then mp + 3 else mp - 9 in
  (yoe + era * 400 + (if m <=? 2 then 1 else 0), m, doy - (153 * mp + 2) / 5 + 1).

(** [n] in [k] decimal digits. *)
Fixpoint digits (k : nat) (n : Z) : list Z :=
  match k with
  | O => []
  | S k => digits k (n / 10) ++ [48 + n mod 10]
  end.

(** ** The date names the day *)

(** The year of a day of the 400-year era, and the first day of a year. *)
Definition year_of (doe : Z) : Z := (doe - doe / 1460 + doe / 36524 - doe / 146096) / 365.
Definition first_day (y : Z) : Z := 365 * y + y / 4 - y / 100.

(** [f] holds at [n] numbers from [x] on. *)
Fixpoint all_from (n : nat) (x : Z) (f : Z → bool) : bool :=
  match n with O => true | S n => f x && all_from n (x + 1) f end.

Lemma all_from_spec n x f y : all_from n x f = true → x <= y < x + Z.of_nat n → f y = true.
Proof.
  revert x. induction n as [|n IH]; intros x; [lia|]. cbn [all_from]. intros [H1 H2]%andb_true_iff Hy.
  destruct (decide (y = x)) as [->|]; [done|]. apply (IH (x + 1)); [done|lia].
Qed.

Lemma year_of_mono a b : 0 <= a <= b → b < 146096 → year_of a <= year_of b.
Proof.
  intros H Hb. unfold year_of. apply Z.div_le_mono; [lia|].
  rewrite (Z.div_small a 146096), (Z.div_small b 146096) by lia.
  assert (a / 36524 <= b / 36524) by (apply Z.div_le_mono; lia).
  assert (b / 1460 - a / 1460 <= b - a) by (Z.to_euclidean_division_equations; lia). lia.
Qed.

(** The first and the last day of each year of the era. *)
Definition year_ends (y : Z) : bool :=
  (year_of (first_day y) =? y) && (year_of (first_day (y + 1) - 1) =? y) && (first_day (y + 1) <=? first_day y + 366).

Lemma year_ends_all y : 0 <= y < 400 → year_ends y = true.
Proof. intros Hy. apply (all_from_spec 400 0 year_ends); [by vm_compute|lia]. Qed.

Lemma year_found k doe : 0 <= k → 0 <= doe < first_day k → ∃ y, 0 <= y < k ∧ first_day y <= doe < first_day (y + 1).
Proof.
  intros Hk. revert k Hk.
  apply (natlike_ind (λ k, 0 <= doe < first_day k → ∃ y, 0 <= y < k ∧ first_day y <= doe < first_day (y + 1))).
  { change (first_day 0) with 0. lia. }
  intros k Hk IH Hd. unfold Z.succ in *. destruct (decide (doe < first_day k)) as [Hlt|Hge].
  - destruct IH as (y & ? & ?); [lia|]. exists y. lia.
  - exists k. lia.
Qed.

(** The day of the year starts at 0 and is below 366. *)
Lemma era_year doe : 0 <= doe < 146097 → 0 <= year_of doe < 400 ∧ 0 <= doe - first_day (year_of doe) < 366.
Proof.
  intros Hd. destruct (decide (doe = 146096)) as [->|Hne]; [by vm_compute|].
  destruct (year_found 400 doe) as (y & Hy & Hlo & Hhi); [lia|change (first_day 400) with 146096; lia|].
  pose proof (year_ends_all y Hy) as He. unfold year_ends in He. rewrite !andb_true_iff, !Z.eqb_eq, Z.leb_le in He.
  destruct He as [[He1 He2] He3].
  assert (first_day (y + 1) <= 146096).
  { assert (y + 1 <= 400) as H4 by lia. unfold first_day. Z.to_euclidean_division_equations. lia. }
  assert (0 <= first_day y) by (unfold first_day; Z.to_euclidean_division_equations; lia).
  pose proof (year_of_mono (first_day y) doe). pose proof (year_of_mono doe (first_day (y + 1) - 1)).
  assert (year_of doe = y) as -> by lia. lia.
Qed.

Lemma civil_inj a b : civil a = civil b → a = b.
Proof.
  unfold civil. cbv zeta.
  set (ea := (a + 306) / 146097). set (eb := (b + 306) / 146097).
  set (da := (a + 306) - ea * 146097). set (db := (b + 306) - eb * 146097).
  assert (0 <= da < 146097) as [Hya Hoa]%era_year by (unfold da, ea; Z.to_euclidean_division_equations; lia).
  assert (0 <= db < 146097) as [Hyb Hob]%era_year by (unfold db, eb; Z.to_euclidean_division_equations; lia).
  unfold first_day in Hoa, Hob. fold (year_of da) (year_of db). intros H.
  set (oa := da - (365 * year_of da + year_of da / 4 - year_of da / 100)) in *.
  set (ob := db - (365 * year_of db + year_of db / 4 - year_of db / 100)) in *.
  assert (0 <= (5 * oa + 2) / 153 <= 11) as Hma by (Z.to_euclidean_division_equations; lia).
  assert (0 <= (5 * ob + 2) / 153 <= 11) as Hmb by (Z.to_euclidean_division_equations; lia).
  set (ma := (5 * oa + 2) / 153) in *. set (mb := (5 * ob + 2) / 153) in *.
  injection H as Hy Hm Hd.
  assert (ma = mb) as Em by (destruct (Z.ltb_spec ma 10), (Z.ltb_spec mb 10); lia).
  assert (year_of da = year_of db ∧ ea = eb) as [Ey Ee] by (rewrite Hm in Hy; lia).
  assert (oa = ob) as Eo by (rewrite Em in Hd; lia). unfold oa, ob in Eo. rewrite Ey in Eo. unfold da, db in Eo. lia.
Qed.

Lemma civil_bounds days y m d : civil days = (y, m, d) → 1 <= m <= 12 ∧ 1 <= d <= 31.
Proof.
  unfold civil. cbv zeta. set (e := (days + 306) / 146097). set (doe := (days + 306) - e * 146097).
  assert (0 <= doe < 146097) as [Hy Ho]%era_year by (unfold doe, e; Z.to_euclidean_division_equations; lia).
  unfold first_day in Ho. fold (year_of doe). set (o := doe - _) in *. intros [= _ <- <-].
  assert (0 <= (5 * o + 2) / 153 <= 11) as Hm by (Z.to_euclidean_division_equations; lia).
  split; [destruct (Z.ltb_spec ((5 * o + 2) / 153) 10); lia|]. clearbody o. clear -Ho. Z.to_euclidean_division_equations. lia.
Qed.

(** ** The digits name the number *)

Lemma digits_length k n : length (digits k n) = k.
Proof. revert n. induction k as [|k IH]; intros n; cbn; [done|]. rewrite length_app, IH. cbn. lia. Qed.

Lemma digits_inj k a b :
  0 <= a < 10 ^ Z.of_nat k → 0 <= b < 10 ^ Z.of_nat k → digits k a = digits k b → a = b.
Proof.
  revert a b. induction k as [|k IH]; intros a b Ha Hb; [cbn in *; lia|]. cbn [digits].
  intros [H1 H2]%app_inj_tail. rewrite Nat2Z.inj_succ, Z.pow_succ_r in Ha, Hb by lia.
  assert (a / 10 = b / 10).
  { apply IH; [| |done]; split; try (apply Z.div_pos; lia); apply Z.div_lt_upper_bound; lia. }
  pose proof (Z.div_mod a 10). pose proof (Z.div_mod b 10). lia.
Qed.

End Calendar.
