(* ===== verification/Sha.v ===== *)
(** SHA-1 and SHA-256 (FIPS 180-4), the two digests of Go's [crypto/sha1] and
    [crypto/sha256] that identities are derived from, on lists of bytes. *)
From S2P Require Import Prelude.

Module Sha.

Definition rotl (n x : Z) : Z := Z.lor (u32 (Z.shiftl x n)) (Z.shiftr x (32 - n)).
Definition rotr (n x : Z) : Z := rotl (32 - n) x.
Definition add32 (x y : Z) : Z := u32 (x + y).
Definition lnot32 (x : Z) : Z := Z.lxor x 4294967295.

(** The message with its padding: a one bit, zeros, and the length in bits. *)
Definition padded (m : list Z) : list Z :=
  let n := Zlen m in
  m ++ [128] ++ replicate (Z.to_nat ((55 - n) mod 64)) 0 ++ be_put 8 (8 * n).

Fixpoint words (fuel : nat) (l : list Z) : list Z :=
  match fuel, l with
  | S fuel, a :: b :: c :: d :: l => be_get [a; b; c; d] :: words fuel l
  | _, _ => []
  end.

(** [block] folded over the 64-byte blocks. *)
Fixpoint blocks {T} (fuel : nat) (block : T → list Z → T) (l : list Z) (s : T) : T :=
  match fuel, l with
  | S fuel, _ :: _ => blocks fuel block (drop 64 l) (block s (words 16 (take 64 l)))
  | _, _ => s
  end.

Definition digest {T} (block : T → list Z → T) (init : T) (m : list Z) : T :=
  blocks (S (length m)) block (padded m) init.

(** The message schedule, newest word first. *)
Fixpoint schedule (n : nat) (grow : list Z → Z) (w : list Z) : list Z :=
  match n with O => w | S n => schedule n grow (grow w :: w) end.

Definition at_ (w : list Z) (i : nat) : Z := nth i w 0.

(** ** SHA-256 *)

Definition K256 : list Z :=
  [1116352408; 1899447441; 3049323471; 3921009573; 961987163; 1508970993; 2453635748; 2870763221;
   3624381080; 310598401; 607225278; 1426881987; 1925078388; 2162078206; 2614888103; 3248222580;
   3835390401; 4022224774; 264347078; 604807628; 770255983; 1249150122; 1555081692; 1996064986;
   2554220882; 2821834349; 2952996808; 3210313671; 3336571891; 3584528711; 113926993; 338241895;
   666307205; 773529912; 1294757372; 1396182291; 1695183700; 1986661051; 2177026350; 2456956037;
   2730485921; 2820302411; 3259730800; 3345764771; 3516065817; 3600352804; 4094571909; 275423344;
   430227734; 506948616; 659060556; 883997877; 958139571; 1322822218; 1537002063; 1747873779;
   1955562222; 2024104815; 2227730452; 2361852424; 2428436474; 2756734187; 3204031479; 3329325298].

Definition H256 : list Z :=
  [1779033703; 3144134277; 1013904242; 2773480762; 1359893119; 2600822924; 528734635; 1541459225].

Definition grow256 (w : list Z) : Z :=
  let x := at_ w 14 in let y := at_ w 1 in
  let s0 := Z.lxor (Z.lxor (rotr 7 x) (rotr 18 x)) (Z.shiftr x 3) in
  let s1 := Z.lxor (Z.lxor (rotr 17 y) (rotr 19 y)) (Z.shiftr y 10) in
  add32 (add32 (at_ w 15) s0) (add32 (at_ w 6) s1).

Definition round256 (s : list Z) (kw : Z * Z) : list Z :=
  match s with
  | [a; b; c; d; e; f; g; h] =>
      let S1 := Z.lxor (Z.lxor (rotr 6 e) (rotr 11 e)) (rotr 25 e) in
      let ch := Z.lxor (Z.land e f) (Z.land (lnot32 e) g) in
      let t1 := add32 (add32 (add32 h S1) (add32 ch (fst kw))) (snd kw) in
      let S0 := Z.lxor (Z.lxor (rotr 2 a) (rotr 13 a)) (rotr 22 a) in
      let maj := Z.lxor (Z.lxor (Z.land a b) (Z.land a c)) (Z.land b c) in
      [add32 t1 (add32 S0 maj); a; b; c; add32 d t1; e; f; g]
  | _ => s
  end.

Definition block256 (s w : list Z) : list Z :=
  let ws := reverse (schedule 48 grow256 (reverse w)) in
  zip_with add32 s (foldl round256 s (zip K256 ws)).

(** [sha256.Sum256] *)
Definition sha256 (m : list Z) : list Z := digest block256 H256 m ≫= be_put 4.

(** ** SHA-1 *)

Definition H1 : list Z := [1732584193; 4023233417; 2562383102; 271733878; 3285377520].

Definition grow1 (w : list Z) : Z := rotl 1 (Z.lxor (Z.lxor (at_ w 2) (at_ w 7)) (Z.lxor (at_ w 13) (at_ w 15))).

Definition f1 (t : nat) (b c d : Z) : Z * Z :=
  if (t <? 20)%nat then (Z.lxor (Z.land b c) (Z.land (lnot32 b) d), 1518500249)
  else if (t <? 40)%nat then (Z.lxor (Z.lxor b c) d, 1859775393)
  else if (t <? 60)%nat then (Z.lxor (Z.lxor (Z.land b c) (Z.land b d)) (Z.land c d), 2400959708)
  else (Z.lxor (Z.lxor b c) d, 3395469782).

Definition round1 (s : list Z) (tw : nat * Z) : list Z :=
  match s with
  | [a; b; c; d; e] =>
      let '(f, k) := f1 (fst tw) b c d in
      [add32 (add32 (rotl 5 a) f) (add32 (add32 e k) (snd tw)); a; rotl 30 b; c; d]
  | _ => s
  end.

Definition block1 (s w : list Z) : list Z :=
  let ws := reverse (schedule 64 grow1 (reverse w)) in
  zip_with add32 s (foldl round1 s (zip (seq 0 80) ws)).

(** [sha1.Sum] *)
Definition sha1 (m : list Z) : list Z := digest block1 H1 m ≫= be_put 4.

(** ** The examples of the standard, and the sizes *)

Lemma sha256_abc : be_get (sha256 (str "abc"))
  = 0xba7816bf8f01cfea414140de5dae2223b00361a396177a9cb410ff61f20015ad.
Proof. vm_compute. reflexivity. Qed.

Lemma sha256_two_blocks : be_get (sha256 (str "abcdbcdecdefdefgefghfghighijhijkijkljklmklmnlmnomnopnopq"))
  = 0x248d6a61d20638b8e5c026930c3e6039a33ce45964ff2167f6ecedd419db06c1.
Proof. vm_compute. reflexivity. Qed.

Lemma sha1_abc : be_get (sha1 (str "abc")) = 0xa9993e364706816aba3e25717850c26c9cd0d89d.
Proof. vm_compute. reflexivity. Qed.

Lemma sha1_two_blocks : be_get (sha1 (str "abcdbcdecdefdefgefghfghighijhijkijkljklmklmnlmnomnopnopq"))
  = 0x84983e441c3bd26ebaae4aa1f95129e5e54670f1.
Proof. vm_compute. reflexivity. Qed.

Lemma blocks_length (block : list Z → list Z → list Z) n fuel : (∀ s w, length s = n → length (block s w) = n) →
  ∀ l s, length s = n → length (blocks fuel block l s) = n.
Proof. intros Hb. induction fuel as [|fuel IH]; intros l s Hs; [done|]. cbn. destruct l; [done|]. apply IH. auto. Qed.

Lemma round256_length s kw : length (round256 s kw) = length s.
Proof. do 9 (destruct s as [|? s]; [done|]). done. Qed.

Lemma sha256_length m : length (sha256 m) = 32%nat.
Proof.
  unfold sha256. assert (H : length (digest block256 H256 m) = 8%nat).
  { apply blocks_length; [|done]. intros s w Hs. unfold block256. rewrite length_zip_with.
    assert (Hf : ∀ l t, length (foldl round256 t l) = length t).
    { induction l as [|kw l IH]; intros t; [done|]. cbn. by rewrite IH, round256_length. }
    rewrite Hf. lia. }
  revert H. generalize (digest block256 H256 m) as l. intros l H.
  do 8 (destruct l as [|? l]; [done|]). destruct l; done.
Qed.

Lemma sha256_ok m : bytes_ok (sha256 m).
Proof.
  unfold sha256. generalize (digest block256 H256 m). intros l.
  induction l as [|x l IH]; [constructor|]. rewrite bind_cons. apply bytes_ok_app. split; [apply be_put_ok|done].
Qed.

End Sha.
