(* ===== verification/Hubmsg.v ===== *)
(** The Hub's message route [internal/hubmsg]: identities ([ids.go]), the content
    digest's preimage ([digest.go]) and the reducer of an operation's evidence
    ([reducer.go]).  Strings are byte lists, in Go's order.  SHA-1 and the random source
    are arguments; the maps the code ranges over are finite maps and sets, so the
    iteration order does not appear. *)
From S2P Require Import Prelude.

Module Hubmsg.

(** ** Identities *)

Definition hex_digit (v : Z) : Z := if v <? 10 then 48 + v else 87 + v.

Definition hex_value (c : Z) : option Z :=
  if (48 <=? c) && (c <=? 57) then Some (c - 48)
  else if (97 <=? c) && (c <=? 102) then Some (c - 87)
  else if (65 <=? c) && (c <=? 70) then Some (c - 55)
  else None.

Fixpoint hex_encode (b : list Z) : list Z :=
  match b with
  | [] => []
  | x :: b => hex_digit (Z.shiftr x 4) :: hex_digit (Z.land x 15) :: hex_encode b
  end.

Fixpoint hex_decode (s : list Z) : option (list Z) :=
  match s with
  | [] => Some []
  | [_] => None
  | c :: d :: s =>
      h ← hex_value c; l ← hex_value d; b ← hex_decode s; Some (Z.lor (Z.shiftl h 4) l :: b)
  end.

Definition is_upper (c : Z) : bool := (65 <=? c) && (c <=? 90).

(** [strings.ToLower(hexs) != hexs]; a byte outside ASCII fails the decoding below. *)
Definition not_lower (s : list Z) : bool := existsb is_upper s.

Definition parseCanonical (s : list Z) : option (list Z) :=
  if negb (length s =? 36)%nat || negb (idx s 8 =? 45) || negb (idx s 13 =? 45)
     || negb (idx s 18 =? 45) || negb (idx s 23 =? 45) then None
  else
    let hexs := sub 0 8 s ++ sub 9 13 s ++ sub 14 18 s ++ sub 19 23 s ++ sub 24 36 s in
    if not_lower hexs then None else hex_decode hexs.

Definition format (b : list Z) : list Z :=
  let h := hex_encode b in
  sub 0 8 h ++ [45] ++ sub 8 12 h ++ [45] ++ sub 12 16 h ++ [45] ++ sub 16 20 h ++ [45] ++ sub 20 32 h.

Definition ValidV7 (s : list Z) : bool :=
  match parseCanonical s with
  | None => false
  | Some b => (Z.shiftr (idx b 8) 6 =? 2) && (Z.shiftr (idx b 6) 4 =? 7)
  end.

Definition TimeOfV7 (b : list Z) : Z := i64 (be_get ([0; 0] ++ sub 0 6 b)).

Definition Namespace : list Z := str "a389cf74-e475-53d9-b656-d994a485fe0a".

(** The version and variant bits of a UUID. *)
Definition set_version (v : Z) (b : list Z) : list Z :=
  let b := <[6%nat := Z.lor v (Z.land (idx b 6) 15)]> b in
  <[8%nat := Z.lor 128 (Z.land (idx b 8) 63)]> b.

Definition UUIDv5 (sha1 : list Z → list Z) (name : list Z) : list Z :=
  let ns := default (replicate 16 0) (parseCanonical Namespace) in
  format (set_version 80 (take 16 (sha1 (ns ++ name)))).

(** [random] are the ten bytes read from the random source. *)
Definition NewV7 (nowMs : Z) (random : list Z) : list Z :=
  let ms := be_put 8 (Z.max nowMs 0) in
  format (set_version 112 (sub 2 8 ms ++ random)).

Record IDContext := MkContext { Sender : list Z; Name : list Z; BridgeID : list Z; RunStartMs : Z }.

(** [strconv.FormatInt] of a non-negative number. *)
Definition FormatInt (n : Z) : list Z := bytes_of_string (pretty (Z.to_N n)).

Definition IDValid (sha1 : list Z → list Z) (s : list Z) (field : string) (c : IDContext) : bool :=
  match parseCanonical s with
  | None => false
  | Some b =>
      if negb (Z.shiftr (idx b 8) 6 =? 2) then false
      else if Z.shiftr (idx b 6) 4 =? 7 then
        if String.eqb field "sos_id" then (0 <=? RunStartMs c) && (TimeOfV7 b =? RunStartMs c)
        else true
      else if Z.shiftr (idx b 6) 4 =? 5 then
        if String.eqb field "mid" && bool_decide (Sender c = str "hub") && negb (bool_decide (Name c = []))
        then bool_decide (UUIDv5 sha1 (Name c) = s)
        else if String.eqb field "sos_id" && negb (bool_decide (BridgeID c = [])) && (0 <=? RunStartMs c)
        then bool_decide (UUIDv5 sha1 (BridgeID c ++ [58] ++ FormatInt (RunStartMs c)) = s)
        else false
      else false
  end.

Definition SOSIDValid (sha1 : list Z → list Z) (sosID bridgeID : list Z) (runStartMs : Z) : bool :=
  IDValid sha1 sosID "sos_id" (MkContext [] [] bridgeID runStartMs).

(** ** The content digest's preimage *)

Definition ContentTag : list Z := str "meshsat.content/1".

Inductive digest_error := ErrMid | ErrNegative | ErrField.

(** The loop over the fields: a 4-byte big-endian length, then the bytes. *)
Fixpoint preimage_fields (out : list Z) (fields : list (list Z)) : result digest_error (list Z) :=
  match fields with
  | [] => Ok out
  | f :: fields =>
      if 4294967295 <? Zlen f then Err ErrField
      else preimage_fields (out ++ be_put 4 (u32 (Zlen f)) ++ f) fields
  end.

Definition ContentPreimage (mid recipient contentType : list Z) (midExpiresAt : Z) (body : list Z)
  : result digest_error (list Z) :=
  match parseCanonical mid with
  | None => Err ErrMid
  | Some m =>
      if midExpiresAt <? 0 then Err ErrNegative
      else preimage_fields [] [ContentTag; m; recipient; contentType; be_put 8 midExpiresAt; body]
  end.

(** ** The reducer *)

Record Event := MkEvent {
  V : Z;
  Source : list Z;
  eOpID : list Z;
  eMid : list Z;
  eRecipient : list Z;
  EventID : list Z;
  Rev : Z;
  Class_ : list Z;
  Kind : list Z;
  Reason : list Z;
  Authority : list Z;
  Scope_ : list Z;
  Detail : list Z;
  At : list Z;
}.

Record Operation := MkOperation { OpID : list Z; Mid : list Z; Recipient : list Z }.

Record Projection := MkProjection {
  State : list Z;
  Conflict : bool;
  FailedReasons : list (list Z);
  Evidence : list (list Z);
  Rejected : list (list Z);
}.

#[global] Instance Event_eq_dec : EqDecision Event.
Proof. solve_decision. Defined.

#[global] Instance Projection_eq_dec : EqDecision Projection.
Proof. solve_decision. Defined.

Definition allowedKinds : list (list Z * list Z * list Z) :=
  [(str "hub_broker_puback", str "accepted", str "local");
   (str "hub_forwarded", str "forwarded", str "hub");
   (str "recipient_app_stored", str "completed", str "recipient");
   (str "recipient_refused", str "failed", str "recipient");
   (str "recipient_refused", str "expired", str "recipient");
   (str "hub_refused", str "failed", str "hub");
   (str "hub_expired", str "expired", str "hub");
   (str "hub_unknown", str "unknown", str "hub");
   (str "recipient_busy", str "unknown", str "recipient")].

(** The zero value of a missing key is the empty string. *)
Definition SourceOf (authority : list Z) : list Z :=
  if decide (authority = str "local") then str "local"
  else if decide (authority = str "hub") then str "status_topic"
  else if decide (authority = str "recipient") then str "status_topic"
  else [].

Definition ProjectionOrder : list (list Z) :=
  [str "completed"; str "failed"; str "expired"; str "forwarded"; str "unknown"; str "accepted";
   str "pending"].

Definition Valid (op : Operation) (e : Event) : bool :=
  bool_decide (eOpID e = OpID op) && bool_decide (eMid e = Mid op)
  && bool_decide (eRecipient e = Recipient op)
  && bool_decide ((Kind e, Class_ e, Authority e) ∈ allowedKinds)
  && negb (bool_decide (SourceOf (Authority e) = []))
  && bool_decide (SourceOf (Authority e) = Source e) && ValidV7 (EventID e).

(** The order of [sort.Strings]: by bytes, a prefix first. *)
Fixpoint bytes_leb (a b : list Z) : bool :=
  match a, b with
  | [], _ => true
  | _ :: _, [] => false
  | x :: a, y :: b => (x <? y) || ((x =? y) && bytes_leb a b)
  end.

Definition bytes_le (a b : list Z) : Prop := bytes_leb a b = true.

#[global] Instance bytes_le_dec : RelDecision bytes_le.
Proof. intros a b. unfold bytes_le. apply _. Defined.

Definition sort_strings (s : gset (list Z)) : list (list Z) := merge_sort bytes_le (elements s).

(** The first loop: the valid events by id, the first one of an id, and the ids refused. *)
Definition collect (op : Operation) (acc : gmap (list Z) Event * gset (list Z)) (e : Event)
  : gmap (list Z) Event * gset (list Z) :=
  let '(held, rejected) := acc in
  if Valid op e then
    (match held !! EventID e with Some _ => held | None => <[EventID e := e]> held end, rejected)
  else (held, {[EventID e]} ∪ rejected).

Definition events_of (held : gmap (list Z) Event) : list Event := (map_to_list held).*2.

Definition classes (held : gmap (list Z) Event) : gset (list Z) :=
  list_to_set (Class_ <$> events_of held).

Definition failing (e : Event) : bool :=
  (bool_decide (Class_ e = str "failed") || bool_decide (Class_ e = str "expired"))
  && negb (bool_decide (Reason e = [])).

Definition reasons (held : gmap (list Z) Event) : gset (list Z) :=
  list_to_set (Reason <$> filter (λ e, failing e = true) (events_of held)).

(** The first class of [ProjectionOrder] present. *)
Fixpoint strongest (present : gset (list Z)) (order : list (list Z)) : list Z :=
  match order with
  | [] => str "pending"
  | c :: order => if decide (c ∈ present) then c else strongest present order
  end.

Definition Reduce (op : Operation) (events : list Event) : Projection :=
  let '(held, rejected) := foldl (collect op) (∅, ∅) events in
  let present := classes held in
  MkProjection (strongest present ProjectionOrder)
    (bool_decide (str "completed" ∈ present) && bool_decide (str "failed" ∈ present))
    (sort_strings (reasons held)) (sort_strings (dom held)) (sort_strings (rejected ∖ dom held)).

(** ** What the reducer computes *)

Definition matches (op : Operation) (id : list Z) (e : Event) : bool :=
  Valid op e && bool_decide (EventID e = id).

Lemma collect_held op events held rejected id :
  (foldl (collect op) (held, rejected) events).1 !! id
  = match held !! id with Some e => Some e | None => List.find (matches op id) events end.
Proof.
  revert held rejected. induction events as [|e events IH]; intros held rejected; cbn [foldl List.find].
  - simpl. by destruct (held !! id).
  - destruct (collect op (held, rejected) e) as [h r] eqn:Hc. rewrite IH.
    unfold collect in Hc. unfold matches at 2. destruct (Valid op e); injection Hc as <- <-; [|done].
    cbn [andb]. destruct (decide (EventID e = id)) as [<-|Hne].
    + rewrite bool_decide_true by done. destruct (held !! EventID e) as [e'|] eqn:Hh.
      * by rewrite Hh.
      * by rewrite lookup_insert_eq.
    + rewrite bool_decide_false by done. destruct (held !! EventID e); [done|].
      by rewrite lookup_insert_ne.
Qed.

Lemma collect_rejected op events held rejected id :
  id ∈ (foldl (collect op) (held, rejected) events).2 ↔
  id ∈ rejected ∨ ∃ e, e ∈ events ∧ Valid op e = false ∧ EventID e = id.
Proof.
  revert held rejected. induction events as [|e events IH]; intros held rejected; cbn [foldl].
  - set_solver.
  - destruct (collect op (held, rejected) e) as [h r] eqn:Hc. rewrite IH. unfold collect in Hc.
    destruct (Valid op e) eqn:Hv; injection Hc as <- <-.
    + set_unfold. naive_solver congruence.
    + set_unfold. naive_solver.
Qed.

(** No two different valid events of the operation share an id. *)
Definition consistent (op : Operation) (events : list Event) : Prop :=
  ∀ e e', e ∈ events → e' ∈ events → Valid op e = true → Valid op e' = true →
    EventID e = EventID e' → e = e'.

Lemma matches_true op id e : matches op id e = true ↔ Valid op e = true ∧ EventID e = id.
Proof. unfold matches. rewrite andb_true_iff, bool_decide_eq_true. done. Qed.

Lemma find_matches op events id e :
  consistent op events →
  List.find (matches op id) events = Some e ↔ e ∈ events ∧ Valid op e = true ∧ EventID e = id.
Proof.
  intros Hc. split.
  - intros [Hin Hm]%List.find_some. by rewrite list_elem_of_In, <-matches_true.
  - intros (Hin & Hv & Hid). destruct (List.find (matches op id) events) as [e'|] eqn:Hf.
    + apply List.find_some in Hf as [Hin'%list_elem_of_In [Hv' Hid']%matches_true].
      f_equal. apply Hc; congruence.
    + pose proof (List.find_none _ _ Hf e (proj1 (list_elem_of_In _ _) Hin)) as Hm.
      by rewrite (proj2 (matches_true op id e)) in Hm.
Qed.

(** What the reducer holds after its first loop. *)
Lemma held_lookup op events id e :
  consistent op events →
  (foldl (collect op) (∅, ∅) events).1 !! id = Some e ↔ e ∈ events ∧ Valid op e = true ∧ EventID e = id.
Proof. intros Hc. rewrite collect_held, lookup_empty. by apply find_matches. Qed.

Lemma elem_of_events_of held e : e ∈ events_of held ↔ ∃ id, held !! id = Some e.
Proof.
  unfold events_of. rewrite list_elem_of_fmap. setoid_rewrite <-elem_of_map_to_list.
  split; [intros ([i x] & -> & H); by exists i|intros (i & H); by exists (i, e)].
Qed.

Lemma held_events op events e :
  consistent op events →
  e ∈ events_of (foldl (collect op) (∅, ∅) events).1 ↔ e ∈ events ∧ Valid op e = true.
Proof.
  intros Hc. rewrite elem_of_events_of. setoid_rewrite held_lookup; [|done]. naive_solver.
Qed.

Lemma strongest_spec present order c :
  strongest present order = c →
  (c ∈ order ∧ c ∈ present ∧ ∃ before after, order = before ++ c :: after ∧ ∀ d, d ∈ before → d ∉ present) ∨
  (c = str "pending" ∧ ∀ d, d ∈ order → d ∉ present).
Proof.
  induction order as [|d order IH]; cbn [strongest].
  - intros <-. right. split; [done|set_solver].
  - case_decide as Hd.
    + intros <-. left. split_and!; [set_solver|done|]. exists [], order. split; [done|set_solver].
    + intros [(H1 & H2 & before & after & -> & H3)|(-> & H)]%IH.
      * left. split_and!; [set_solver|done|]. exists (d :: before), after. split; [done|set_solver].
      * right. split; [done|set_solver].
Qed.

(** ** Sorting *)

Lemma bytes_leb_refl a : bytes_leb a a = true.
Proof. induction a as [|x a IH]; simpl; [done|]. by rewrite Z.eqb_refl, IH, orb_true_r. Qed.

#[global] Instance bytes_le_total : Total bytes_le.
Proof.
  intros a. unfold bytes_le. induction a as [|x a IH]; intros [|y b]; simpl; auto.
  destruct (Z.ltb_spec x y), (Z.ltb_spec y x); auto. assert (x = y) as -> by lia.
  rewrite Z.eqb_refl. destruct (IH b); auto.
Qed.

#[global] Instance bytes_le_trans : Transitive bytes_le.
Proof.
  intros a. unfold bytes_le. induction a as [|x a IH]; intros [|y b] [|z c]; simpl; try done.
  rewrite !orb_true_iff, !andb_true_iff, !Z.ltb_lt, !Z.eqb_eq. intros [?|[-> Hab]] [?|[-> Hbc]]; [left; lia..|].
  right. split; [done|]. by apply (IH b).
Qed.

#[global] Instance bytes_le_antisymm : AntiSymm (=) bytes_le.
Proof.
  intros a. unfold bytes_le. induction a as [|x a IH]; intros [|y b]; simpl; try done.
  rewrite !orb_true_iff, !andb_true_iff, !Z.ltb_lt, !Z.eqb_eq. intros [?|[-> Hab]] [?|[? Hba]]; try lia.
  f_equal. by apply IH.
Qed.

Lemma elem_of_sort s x : x ∈ sort_strings s ↔ x ∈ s.
Proof. unfold sort_strings. rewrite (merge_sort_Permutation bytes_le (elements s)). apply elem_of_elements. Qed.

Lemma sort_sorted s : Sorted bytes_le (sort_strings s) ∧ NoDup (sort_strings s).
Proof.
  split; [apply Sorted_merge_sort, _|].
  unfold sort_strings. rewrite (merge_sort_Permutation bytes_le (elements s)). apply NoDup_elements.
Qed.

(** Every allowed class is ranked. *)
Lemma valid_class_ranked op e : Valid op e = true → Class_ e ∈ ProjectionOrder ∧ Class_ e ≠ str "pending".
Proof.
  intros Hv. assert (Hk : (Kind e, Class_ e, Authority e) ∈ allowedKinds).
  { unfold Valid in Hv. zbool. by eapply bool_decide_eq_true_1. }
  assert (Hall : Forall (λ k, bool_decide (k.1.2 ∈ ProjectionOrder ∧ k.1.2 ≠ str "pending")) allowedKinds)
    by (repeat constructor).
  rewrite Forall_forall in Hall. specialize (Hall _ Hk). by apply bool_decide_unpack in Hall.
Qed.

Lemma present_held op events c :
  consistent op events →
  c ∈ classes (foldl (collect op) (∅, ∅) events).1 ↔ ∃ e, e ∈ events ∧ Valid op e = true ∧ Class_ e = c.
Proof.
  intros Hc. unfold classes. rewrite elem_of_list_to_set, list_elem_of_fmap.
  setoid_rewrite held_events; [|done]. naive_solver.
Qed.

Lemma dom_held op events id :
  consistent op events →
  id ∈ dom (foldl (collect op) (∅, ∅) events).1 ↔ ∃ e, e ∈ events ∧ Valid op e = true ∧ EventID e = id.
Proof.
  intros Hc. rewrite elem_of_dom. unfold is_Some. by setoid_rewrite held_lookup.
Qed.

(** The state against the classes present. *)
Lemma state_spec op (events : list Event) present (c := strongest present ProjectionOrder) :
  (∀ d, d ∈ present ↔ ∃ e, e ∈ events ∧ Valid op e = true ∧ Class_ e = d) →
  c = str "pending" ∧ (∀ e, e ∈ events → Valid op e = false) ∨
  (∃ e, e ∈ events ∧ Valid op e = true ∧ Class_ e = c) ∧
  ∃ before after, ProjectionOrder = before ++ c :: after ∧
    ∀ e, e ∈ events → Valid op e = true → Class_ e ∉ before.
Proof.
  intros Hp. destruct (strongest_spec present ProjectionOrder c eq_refl)
    as [(_ & Hin & before & after & Ho & Hb)|(Hc & Hn)].
  - right. split; [by apply Hp|]. exists before, after. split; [done|].
    intros e He Hv Hbe. apply (Hb _ Hbe), Hp. by exists e.
  - left. split; [done|]. intros e He. destruct (Valid op e) eqn:Hv; [|done].
    destruct (Hn (Class_ e)); [by apply (valid_class_ranked op e)|]. apply Hp. by exists e.
Qed.

(** The reducer computes the set union of the valid events, when no two different
    valid events share an id: the state is the strongest class among them and pending
    only without any; a conflict is completed and failed together; the reasons are those
    of the failed and expired events; evidence and rejected ids are what was held and
    what only invalid events named, each sorted and without repetitions. *)
Theorem reduce_union op events (p := Reduce op events) :
  consistent op events →
  (State p = str "pending" ∧ (∀ e, e ∈ events → Valid op e = false) ∨
   (∃ e, e ∈ events ∧ Valid op e = true ∧ Class_ e = State p) ∧
   ∃ before after, ProjectionOrder = before ++ State p :: after ∧
     ∀ e, e ∈ events → Valid op e = true → Class_ e ∉ before) ∧
  (Conflict p = true ↔
   (∃ e, e ∈ events ∧ Valid op e = true ∧ Class_ e = str "completed") ∧
   (∃ e, e ∈ events ∧ Valid op e = true ∧ Class_ e = str "failed")) ∧
  (∀ r, r ∈ FailedReasons p ↔ ∃ e, e ∈ events ∧ Valid op e = true ∧ failing e = true ∧ Reason e = r) ∧
  (∀ id, id ∈ Evidence p ↔ ∃ e, e ∈ events ∧ Valid op e = true ∧ EventID e = id) ∧
  (∀ id, id ∈ Rejected p ↔
    (∃ e, e ∈ events ∧ Valid op e = false ∧ EventID e = id) ∧
    ∀ e, e ∈ events → EventID e = id → Valid op e = false) ∧
  Forall (λ l, Sorted bytes_le l ∧ NoDup l) [FailedReasons p; Evidence p; Rejected p].
Proof.
  intros Hc. unfold p, Reduce. pose proof (held_events op events) as He.
  pose proof (dom_held op events) as Hd. pose proof (collect_rejected op events ∅ ∅) as Hr.
  pose proof (present_held op events) as Hp.
  destruct (foldl (collect op) (∅, ∅) events) as [held rejected]. cbn [fst snd] in *.
  cbn [State Conflict FailedReasons Evidence Rejected]. split_and!.
  - apply state_spec. intros d. by apply Hp.
  - rewrite andb_true_iff, !bool_decide_eq_true, !Hp by done. done.
  - intros r. rewrite elem_of_sort. unfold reasons.
    rewrite elem_of_list_to_set, list_elem_of_fmap. setoid_rewrite list_elem_of_filter.
    setoid_rewrite He; [|done]. naive_solver.
  - intros id. rewrite elem_of_sort. by apply Hd.
  - intros id. rewrite elem_of_sort, elem_of_difference, Hr, Hd by done. split.
    + intros [[?|?] Hn]; [set_solver|]. split; [done|]. intros e Hin Hid.
      destruct (Valid op e) eqn:Hv; [|done]. destruct Hn. by exists e.
    + intros [? Hn]. split; [by right|]. intros (e & Hin & Hv & Hid). rewrite Hn in Hv by done. done.
  - repeat constructor; apply sort_sorted.
Qed.


Definition sample_op : Operation := MkOperation (str "o") (str "m") (str "r").
Definition sample_uuid : list Z := str "01890a5d-ac96-774b-bcce-b302099a8057".
Definition sample_uuid2 : list Z := str "01890a5d-ac96-774b-bcce-b302099a8058".
Definition sample_done : Event :=
  MkEvent 1 (str "status_topic") (str "o") (str "m") (str "r") sample_uuid 1 (str "completed")
    (str "recipient_app_stored") [] (str "recipient") [] [] [].
Definition sample_failed : Event :=
  MkEvent 1 (str "status_topic") (str "o") (str "m") (str "r") sample_uuid 1 (str "failed")
    (str "hub_refused") (str "full") (str "hub") [] [] [].
Definition sample_sent : Event :=
  MkEvent 1 (str "status_topic") (str "o") (str "m") (str "r") sample_uuid2 1 (str "forwarded")
    (str "hub_forwarded") [] (str "hub") [] [] [].

Lemma sample_consistent : consistent sample_op [sample_done; sample_sent].
Proof.
  intros e e' He He' _ _. rewrite !elem_of_cons, elem_of_nil in *.
  destruct He as [->|[->|[]]], He' as [->|[->|[]]]; try done; vm_compute; intros; congruence.
Qed.


Lemma reduce_union_witness :
  ∃ e, e ∈ [sample_done; sample_sent] ∧ Valid sample_op e = true ∧
    EventID e = sample_uuid ∧ sample_uuid ∈ Evidence (Reduce sample_op [sample_done; sample_sent]).
Proof.
  destruct (reduce_union sample_op [sample_done; sample_sent] sample_consistent)
    as (_ & _ & _ & He & _).
  exists sample_done. split_and!; [constructor|vm_compute; reflexivity|reflexivity|].
  apply (proj2 (He sample_uuid)). exists sample_done.
  split_and!; [constructor|vm_compute; reflexivity|reflexivity].
Defined.

(** The condition is needed: of two valid events with one id the first one counts. *)
Theorem reduce_first_wins :
  Valid sample_op sample_done = true ∧ Valid sample_op sample_failed = true ∧
  Reduce sample_op [sample_done; sample_failed] ≠ Reduce sample_op [sample_failed; sample_done].
Proof.
  split_and!; [vm_compute; reflexivity..|].
  intros H. apply (f_equal State) in H. vm_compute in H. discriminate.
Qed.

(** ** Identity texts *)

Lemma hex_value_digit c v : is_upper c = false → hex_value c = Some v → 0 <= v < 16 ∧ hex_digit v = c.
Proof.
  unfold is_upper, hex_value, hex_digit. intros Hu.
  destruct (Z.leb_spec 48 c), (Z.leb_spec c 57), (Z.leb_spec 97 c), (Z.leb_spec c 102),
    (Z.leb_spec 65 c), (Z.leb_spec c 70), (Z.leb_spec c 90); cbn [andb] in *; try done; try lia;
    intros [= <-]; (split; [lia|]); case_if; zbool; lia.
Qed.

Definition nibble_laws (x : Z) : Prop :=
  hex_value (hex_digit (Z.shiftr x 4)) = Some (Z.shiftr x 4) ∧
  hex_value (hex_digit (Z.land x 15)) = Some (Z.land x 15) ∧
  is_upper (hex_digit (Z.shiftr x 4)) = false ∧ is_upper (hex_digit (Z.land x 15)) = false ∧
  Z.lor (Z.shiftl (Z.shiftr x 4) 4) (Z.land x 15) = x.

#[global] Instance nibble_laws_dec x : Decision (nibble_laws x).
Proof. unfold nibble_laws. apply _. Defined.

Lemma nibble_laws_all x : byte_ok x → nibble_laws x.
Proof.
  intros Hx. set (p := λ x, bool_decide (nibble_laws x)).
  assert (Hp : p x = true) by (apply (zall_spec 256); [vm_compute; reflexivity|exact Hx]).
  by apply bool_decide_eq_true in Hp.
Qed.

Definition join_laws (h l : Z) : Prop :=
  byte_ok (Z.lor (Z.shiftl h 4) l) ∧ Z.shiftr (Z.lor (Z.shiftl h 4) l) 4 = h ∧
  Z.land (Z.lor (Z.shiftl h 4) l) 15 = l.

#[global] Instance join_laws_dec h l : Decision (join_laws h l).
Proof. unfold join_laws. apply _. Defined.

Lemma join_laws_all h l : 0 <= h < 16 → 0 <= l < 16 → join_laws h l.
Proof.
  intros Hh Hl. set (p := λ h, zall 16 (λ l, bool_decide (join_laws h l))).
  assert (Hp : p h = true) by (apply (zall_spec 16); [vm_compute; reflexivity|exact Hh]).
  unfold p in Hp. pose proof (zall_spec _ _ Hp l Hl) as Hq. by apply bool_decide_eq_true in Hq.
Qed.

Lemma hex_decode_encode b : bytes_ok b → hex_decode (hex_encode b) = Some b ∧ not_lower (hex_encode b) = false.
Proof.
  induction 1 as [|x b Hx _ [IH1 IH2]]; [done|]. cbn [hex_encode hex_decode not_lower existsb].
  destruct (nibble_laws_all x Hx) as (-> & -> & -> & -> & Hj). unfold not_lower in IH2.
  rewrite IH1, IH2. simpl. by rewrite Hj.
Qed.

Lemma hex_encode_length b : length (hex_encode b) = (2 * length b)%nat.
Proof. induction b as [|x b IH]; simpl; lia. Qed.

Lemma hex_encode_decode n h b :
  (length h ≤ n)%nat → not_lower h = false → hex_decode h = Some b → h = hex_encode b ∧ bytes_ok b.
Proof.
  unfold not_lower. revert h b. induction n as [|n IH]; intros h b Hlen; destruct h as [|c [|d h]];
    simpl in Hlen; try lia; cbn [existsb hex_decode].
  1, 2: intros _ [= <-]; split; [done|constructor].
  - done.
  - rewrite !orb_false_iff. intros (Hc & Hd & Hh).
    destruct (hex_value c) as [v|] eqn:Hv; [|done]. destruct (hex_value d) as [w|] eqn:Hw; [|done].
    destruct (hex_decode h) as [t|] eqn:Ht; [|done]. simpl. intros [= <-].
    destruct (hex_value_digit c v Hc Hv) as [? <-], (hex_value_digit d w Hd Hw) as [? <-].
    destruct (join_laws_all v w) as (? & H1 & H2); [done..|].
    destruct (IH h t) as [-> ?]; [lia|done..|].
    cbn [hex_encode]. rewrite H1, H2. split; [done|by constructor].
Qed.

(** The text with its dashes, from the five groups. *)
Definition dashed (p1 p2 p3 p4 p5 : list Z) : list Z :=
  p1 ++ [45] ++ p2 ++ [45] ++ p3 ++ [45] ++ p4 ++ [45] ++ p5.

Lemma text_groups s :
  length s = 36%nat → idx s 8 = 45 → idx s 13 = 45 → idx s 18 = 45 → idx s 23 = 45 →
  s = dashed (sub 0 8 s) (sub 9 13 s) (sub 14 18 s) (sub 19 23 s) (sub 24 36 s).
Proof.
  intros Hlen H1 H2 H3 H4. unfold dashed. rewrite <-(drop_0 s) at 1.
  rewrite (drop_sub 0 8), (drop_idx s 8), (drop_sub 9 13), (drop_idx s 13), (drop_sub 14 18),
    (drop_idx s 18), (drop_sub 19 23), (drop_idx s 23), (drop_sub 24 36), (drop_ge s 36) by lia.
  by rewrite H1, H2, H3, H4, app_nil_r.
Qed.

Lemma hex_groups (h : list Z) :
  length h = 32%nat → h = sub 0 8 h ++ sub 8 12 h ++ sub 12 16 h ++ sub 16 20 h ++ sub 20 32 h.
Proof.
  intros Hlen. rewrite <-(drop_0 h) at 1.
  by rewrite (drop_sub 0 8), (drop_sub 8 12), (drop_sub 12 16), (drop_sub 16 20), (drop_sub 20 32),
    (drop_ge h 32), app_nil_r by lia.
Qed.

Lemma parse_dashed p1 p2 p3 p4 p5 :
  length p1 = 8%nat → length p2 = 4%nat → length p3 = 4%nat → length p4 = 4%nat → length p5 = 12%nat →
  parseCanonical (dashed p1 p2 p3 p4 p5) =
  if not_lower (p1 ++ p2 ++ p3 ++ p4 ++ p5) then None else hex_decode (p1 ++ p2 ++ p3 ++ p4 ++ p5).
Proof.
  intros H1 H2 H3 H4 H5. unfold parseCanonical.
  assert (Hlen : length (dashed p1 p2 p3 p4 p5) = 36%nat) by (unfold dashed; len).
  rewrite Hlen. unfold dashed. slices. rewrite ?H1, ?H2, ?H3, ?H4. done.
Qed.

Lemma parse_format b :
  length b = 16%nat → bytes_ok b → parseCanonical (format b) = Some b.
Proof.
  intros Hlen Hok. unfold format. set (h := hex_encode b).
  assert (Hh : length h = 32%nat) by (unfold h; rewrite hex_encode_length; lia).
  fold (dashed (sub 0 8 h) (sub 8 12 h) (sub 12 16 h) (sub 16 20 h) (sub 20 32 h)).
  rewrite parse_dashed by (rewrite sub_length; lia). rewrite <-hex_groups by done.
  destruct (hex_decode_encode b Hok) as [Hd Hn]. unfold h. by rewrite Hn, Hd.
Qed.

Lemma sub_five p1 p2 p3 p4 p5 (h := p1 ++ p2 ++ p3 ++ p4 ++ p5) :
  length p1 = 8%nat → length p2 = 4%nat → length p3 = 4%nat → length p4 = 4%nat → length p5 = 12%nat →
  dashed (sub 0 8 h) (sub 8 12 h) (sub 12 16 h) (sub 16 20 h) (sub 20 32 h) = dashed p1 p2 p3 p4 p5.
Proof. intros H1 H2 H3 H4 H5. unfold h. by slices. Qed.

Lemma format_parse s b :
  parseCanonical s = Some b → length b = 16%nat ∧ bytes_ok b ∧ s = format b.
Proof.
  intros Hp. pose proof Hp as Hp'. unfold parseCanonical in Hp.
  destruct (negb (length s =? 36)%nat || _ || _ || _ || _) eqn:Hc; [done|]. zbool.
  match goal with H : (length s =? 36)%nat = true |- _ => apply Nat.eqb_eq in H; rename H into Hlen end.
  set (hexs := _ ++ _ ++ _ ++ _ ++ _) in Hp. destruct (not_lower hexs) eqn:Hl; [done|].
  assert (Hh : length hexs = 32%nat) by (unfold hexs; rewrite !length_app, !sub_length; lia).
  destruct (hex_encode_decode 32 hexs b) as [He Hok]; [lia|done..|].
  assert (Hb : length b = 16%nat) by (rewrite He, hex_encode_length in Hh; lia).
  split_and!; [done|done|]. unfold format. rewrite <-He. rewrite (text_groups s) at 1 by done.
  symmetry. apply sub_five; rewrite sub_length; lia.
Qed.

(** Identity texts are canonical: a string parses to 16 bytes if and only if it is
    their formatted text, so every id has one text and every text one id. *)
Theorem uuid_text_exact s b :
  parseCanonical s = Some b ↔ length b = 16%nat ∧ bytes_ok b ∧ s = format b.
Proof. split; [apply format_parse|]. intros (? & ? & ->). by apply parse_format. Qed.

(** ** The preimage *)

Definition field_bytes (f : list Z) : list Z := be_put 4 (u32 (Zlen f)) ++ f.

Lemma preimage_fields_spec out fields r :
  preimage_fields out fields = Ok r →
  r = out ++ concat (field_bytes <$> fields) ∧ Forall (λ f, Zlen f <= 4294967295) fields.
Proof.
  revert out. induction fields as [|f fields IH]; intros out; cbn [preimage_fields].
  - intros [= <-]. by rewrite app_nil_r.
  - case_if; [done|]. zbool. intros [-> Hf]%IH. rewrite fmap_cons. cbn [concat].
    split; [by rewrite <-!(assoc_L (++))|by constructor].
Qed.

(** A length-prefixed field is read back from the front of any continuation. *)
Lemma field_bytes_inj f g r q :
  Zlen f <= 4294967295 → Zlen g <= 4294967295 →
  field_bytes f ++ r = field_bytes g ++ q → f = g ∧ r = q.
Proof.
  intros Hf Hg. unfold field_bytes. rewrite <-!(assoc_L (++)). intros H.
  pose proof (Zlen_nonneg f). pose proof (Zlen_nonneg g).
  apply app_inj_1 in H as [Hn H]; [|by rewrite !be_put_length].
  apply (f_equal be_get) in Hn.
  rewrite !u32_small, !be_get_put_small in Hn by (simpl; lia).
  apply app_inj_1; [unfold Zlen in Hn; lia|done].
Qed.

Lemma fields_inj fs gs :
  length fs = length gs → Forall (λ f, Zlen f <= 4294967295) fs → Forall (λ f, Zlen f <= 4294967295) gs →
  concat (field_bytes <$> fs) = concat (field_bytes <$> gs) → fs = gs.
Proof.
  revert gs. induction fs as [|f fs IH]; intros [|g gs] Hlen Hf Hg; try done.
  apply Forall_cons in Hf as [Hf Hfs], Hg as [Hg Hgs]. rewrite !fmap_cons. cbn [concat].
  intros [-> H]%field_bytes_inj; [|done..]. f_equal. apply IH; auto.
Qed.

(** The content digest commits to every field: two contents with the same preimage
    have the same mid, recipient, content type, expiry and body. *)
Theorem content_preimage_injective mid mid' rcpt rcpt' ctype ctype' exp exp' body body' p :
  exp < 2 ^ 63 → exp' < 2 ^ 63 →
  ContentPreimage mid rcpt ctype exp body = Ok p → ContentPreimage mid' rcpt' ctype' exp' body' = Ok p →
  mid = mid' ∧ rcpt = rcpt' ∧ ctype = ctype' ∧ exp = exp' ∧ body = body'.
Proof.
  intros He He'. unfold ContentPreimage.
  destruct (parseCanonical mid) as [m|] eqn:Hm; [|done].
  destruct (parseCanonical mid') as [m'|] eqn:Hm'; [|done].
  destruct (Z.ltb_spec exp 0); [done|]. destruct (Z.ltb_spec exp' 0); [done|].
  intros [-> Hf]%preimage_fields_spec [Heq Hf']%preimage_fields_spec.
  apply (app_inv_head []), fields_inj in Heq; [|done..].
  assert (m = m' ∧ rcpt = rcpt' ∧ ctype = ctype' ∧ be_put 8 exp = be_put 8 exp' ∧ body = body')
    as (-> & -> & -> & Hexp & ->) by (split_and!; congruence).
  apply (f_equal be_get) in Hexp. rewrite !be_get_put_small in Hexp by (simpl; lia).
  destruct (format_parse _ _ Hm) as (_ & _ & ->), (format_parse _ _ Hm') as (_ & _ & ->). done.
Qed.

Lemma content_preimage_injective_witness :
  ∃ p, ContentPreimage sample_uuid (str "r") (str "text") 5 [1; 2] = Ok p ∧
    ∀ body', ContentPreimage sample_uuid (str "r") (str "text") 5 body' = Ok p → [1; 2] = body'.
Proof.
  exists (match ContentPreimage sample_uuid (str "r") (str "text") 5 [1; 2] with Ok p => p | Err _ => [] end).
  split; [vm_compute; reflexivity|]. intros body' H.
  apply (content_preimage_injective sample_uuid sample_uuid (str "r") (str "r") (str "text") (str "text")
           5 5 [1; 2] body' (match ContentPreimage sample_uuid (str "r") (str "text") 5 [1; 2] with
                             | Ok p => p | Err _ => [] end)).
  - reflexivity.
  - reflexivity.
  - vm_compute. reflexivity.
  - exact H.
Defined.

(** ** Ids of version 7 *)

Definition v7_laws (x : Z) : Prop :=
  byte_ok (Z.lor 112 (Z.land x 15)) ∧ Z.shiftr (Z.lor 112 (Z.land x 15)) 4 = 7 ∧
  byte_ok (Z.lor 128 (Z.land x 63)) ∧ Z.shiftr (Z.lor 128 (Z.land x 63)) 6 = 2.

#[global] Instance v7_laws_dec x : Decision (v7_laws x).
Proof. unfold v7_laws. apply _. Defined.

Lemma v7_laws_all x : byte_ok x → v7_laws x.
Proof.
  intros Hx. set (p := λ x, bool_decide (v7_laws x)).
  assert (Hp : p x = true) by (apply (zall_spec 256); [vm_compute; reflexivity|exact Hx]).
  by apply bool_decide_eq_true in Hp.
Qed.

Lemma idx_insert_eq (l : list Z) i x : (i < length l)%nat → idx (<[i := x]> l) i = x.
Proof. intros H. apply idx_lookup. by rewrite list_lookup_insert_eq. Qed.

Lemma idx_insert_ne (l : list Z) i j x : i ≠ j → idx (<[i := x]> l) j = idx l j.
Proof. intros H. unfold idx. rewrite !nth_lookup. by rewrite list_lookup_insert_ne. Qed.

Lemma set_version7 b (c := set_version 112 b) :
  length b = 16%nat → bytes_ok b →
  length c = 16%nat ∧ bytes_ok c ∧ sub 0 6 c = sub 0 6 b ∧
  Z.shiftr (idx c 6) 4 = 7 ∧ Z.shiftr (idx c 8) 6 = 2.
Proof.
  intros Hl Hb. unfold c, set_version.
  destruct (v7_laws_all _ (idx_ok b 6 Hb)) as (H6 & Hv & _).
  rewrite (idx_insert_ne b 6 8) by lia.
  destruct (v7_laws_all _ (idx_ok b 8 Hb)) as (_ & _ & H8 & Hr).
  split_and!.
  - by rewrite !length_insert.
  - by apply Forall_insert; [apply Forall_insert|].
  - by rewrite !take_sub, !take_insert_ge by lia.
  - rewrite idx_insert_ne, idx_insert_eq by lia. done.
  - rewrite idx_insert_eq by (rewrite length_insert; lia). done.
Qed.

(** The six time bytes hold a 48-bit number. *)
Lemma time_bytes ms :
  0 <= ms < 2 ^ 48 → be_get ([0; 0] ++ sub 2 8 (be_put 8 ms)) = ms.
Proof.
  intros Hms. pose proof (be_put_length 8 ms) as Hl. pose proof (be_get_put_small 8 ms) as Hg.
  assert (Hz : sub 0 2 (be_put 8 ms) = [0; 0]).
  { unfold be_put, le_put, sub. simpl. repeat f_equal; unfold u8; zlia. }
  rewrite <-Hz. transitivity (be_get (be_put 8 ms)); [f_equal|apply Hg; simpl; lia].
Qed.

(** An SOS id names its run: an id made for the time [ms] is a valid version-7 id,
    and it is accepted with a run start if and only if that is [ms], whatever the bridge. *)
Theorem sos_id_names_run (sha1 : list Z → list Z) ms random bridge ms' :
  0 <= ms < 2 ^ 48 → length random = 10%nat → bytes_ok random →
  ValidV7 (NewV7 ms random) = true ∧
  (SOSIDValid sha1 (NewV7 ms random) bridge ms' = true ↔ ms' = ms).
Proof.
  intros Hms Hr Hrok. unfold NewV7. rewrite Z.max_l by lia.
  set (b := sub 2 8 (be_put 8 ms) ++ random).
  assert (Hb6 : length (sub 2 8 (be_put 8 ms)) = 6%nat) by (apply sub_length; rewrite be_put_length; lia).
  assert (Hb : length b = 16%nat) by (unfold b; rewrite length_app; lia).
  assert (Hok : bytes_ok b) by (unfold b; apply bytes_ok_app; auto with hub).
  destruct (set_version7 b Hb Hok) as (Hl & Hc & Htime & Hver & Hvar).
  unfold SOSIDValid, IDValid, ValidV7. rewrite parse_format by done. rewrite Hver, Hvar. cbn [Z.eqb Pos.eqb].
  split; [done|]. simpl. unfold TimeOfV7. rewrite Htime.
  replace (sub 0 6 b) with (sub 2 8 (be_put 8 ms)) by (unfold b; by rewrite sub_app_l, (sub_all 6) by lia).
  rewrite time_bytes by done.
  rewrite i64_id by lia.
  rewrite andb_true_iff, Z.leb_le, Z.eqb_eq. lia.
Qed.

Lemma sos_id_names_run_witness :
  SOSIDValid (λ l, l) (NewV7 1700000000000 (replicate 10 255)) (str "br") 1700000000000 = true.
Proof.
  apply (sos_id_names_run (λ l, l) 1700000000000 (replicate 10 255) (str "br") 1700000000000).
  - vm_compute. split; congruence.
  - reflexivity.
  - repeat constructor; vm_compute; congruence.
  - reflexivity.
Defined.

End Hubmsg.
