(* ===== verification/Oob.v ===== *)
(** Out-of-band management frames [internal/oob]: the binary frame codec ([frame.go])
    over AES-GCM, which is an argument, and the replay window ([replay.go]). *)
From S2P Require Import Prelude.

Module Oob.

Definition Magic : Z := 79.
Definition Version : Z := 1.
Definition FlagEnc : Z := 1.
Definition FlagReply : Z := 2.
Definition FlagNoReply : Z := 4.
Definition FlagExpiry : Z := 8.
Definition ExpiryLen : nat := 4.
Definition HeaderLen : nat := 9.
Definition TagLen : nat := 16.
Definition MinFrameLen : nat := HeaderLen + TagLen.
Definition MaxArgs : nat := 73.
Definition MaxFrameLen : nat := HeaderLen + MaxArgs + TagLen.
Definition KeyLen : nat := 32.

Inductive Direction := DirRequest | DirReply.
Inductive Role := RoleIssuer | RoleImporter.

Definition Other (r : Role) : Role :=
  match r with RoleIssuer => RoleImporter | RoleImporter => RoleIssuer end.

Definition dir_byte (d : Direction) : Z := match d with DirRequest => 0 | DirReply => 1 end.
Definition role_byte (r : Role) : Z := match r with RoleIssuer => 0 | RoleImporter => 1 end.

Record Frame := MkFrame {
  fEnc : bool;
  fReply : bool;
  fNoReply : bool;
  fPeerID : Z;
  fCounter : Z;
  fCmd : Z;
  fArgs : list Z;
  fExpiresAt : Z;
}.

Record OobHeader := MkOobHeader { hFlags : Z; hPeerID : Z; hCounter : Z; hCmd : Z; hBodyLen : Z }.

Definition hEnc (h : OobHeader) : bool := negb (Z.land (hFlags h) FlagEnc =? 0).
Definition hReply (h : OobHeader) : bool := negb (Z.land (hFlags h) FlagReply =? 0).
Definition hNoReply (h : OobHeader) : bool := negb (Z.land (hFlags h) FlagNoReply =? 0).
Definition HasExpiry (h : OobHeader) : bool := negb (Z.land (hFlags h) FlagExpiry =? 0).
Definition VersionNibble (h : OobHeader) : Z := Z.shiftr (hFlags h) 4.

Inductive oob_error :=
  ErrTooShort | ErrTooLong | ErrBadMagic | ErrBadVersion | ErrBadKey | ErrBadPeer | ErrBadCounter
| ErrArgsLen | ErrAuth | ErrBadExpiry.

Definition ParseHeader (wire : list Z) : result oob_error OobHeader :=
  if (length wire <? MinFrameLen)%nat then Err ErrTooShort
  else if (MaxFrameLen <? length wire)%nat then Err ErrTooLong
  else if negb (idx wire 0 =? Magic) then Err ErrBadMagic
  else
    let h := MkOobHeader (idx wire 1) (be_get (sub 2 4 wire)) (be_get (sub 4 8 wire)) (idx wire 8)
               (Zlen wire - Z.of_nat HeaderLen - Z.of_nat TagLen) in
    if negb (VersionNibble h =? Version) then Err ErrBadVersion else Ok h.

Definition Nonce (peerID : Z) (senderRole : Role) (dir : Direction) (counter : Z) : list Z :=
  be_put 2 peerID ++ [Z.lor (u8 (Z.shiftl (role_byte senderRole) 1)) (dir_byte dir)]
  ++ be_put 4 counter ++ replicate 5 0.

Definition flags_of (f : Frame) : Z :=
  let flags := u8 (Z.shiftl Version 4) in
  let flags := if fEnc f then Z.lor flags FlagEnc else flags in
  let flags := if fReply f then Z.lor flags FlagReply else flags in
  let flags := if fNoReply f then Z.lor flags FlagNoReply else flags in
  if negb (fExpiresAt f =? 0) then Z.lor flags FlagExpiry else flags.

Definition header_bytes (f : Frame) : list Z :=
  [Magic; flags_of f] ++ be_put 2 (fPeerID f) ++ be_put 4 (fCounter f) ++ [fCmd f].

(** The arguments, behind the expiry field when there is one. *)
Definition body_of (f : Frame) : list Z :=
  if negb (fExpiresAt f =? 0) then be_put ExpiryLen (fExpiresAt f) ++ fArgs f else fArgs f.

Section Codec.
(** AES-256-GCM: key, nonce, plaintext or ciphertext with tag, additional data. *)
Context (gcm_seal : list Z → list Z → list Z → list Z → list Z)
  (gcm_open : list Z → list Z → list Z → list Z → option (list Z)).

Definition Seal (f : Frame) (key : list Z) (senderRole : Role) : result oob_error (list Z) :=
  if fPeerID f =? 0 then Err ErrBadPeer
  else if fCounter f =? 0 then Err ErrBadCounter
  else
    let body := body_of f in
    if (MaxArgs <? length body)%nat then Err ErrArgsLen
    else if negb (length key =? KeyLen)%nat then Err ErrBadKey
    else
      let hdr := header_bytes f in
      let dir := if fReply f then DirReply else DirRequest in
      let nonce := Nonce (fPeerID f) senderRole dir (fCounter f) in
      if fEnc f then Ok (hdr ++ gcm_seal key nonce body hdr)
      else Ok (hdr ++ body ++ gcm_seal key nonce [] (hdr ++ body)).

(** The verified body: decrypted, or in the clear under its tag. *)
Definition open_body (h : OobHeader) (wire key nonce : list Z) : option (list Z) :=
  let hdr := take HeaderLen wire in
  if hEnc h then gcm_open key nonce (drop HeaderLen wire) hdr
  else
    let clear := sub HeaderLen (length wire - TagLen) wire in
    let tag := drop (length wire - TagLen) wire in
    match gcm_open key nonce tag (hdr ++ clear) with Some _ => Some clear | None => None end.

Definition Open (wire key : list Z) (senderRole : Role) : result oob_error Frame :=
  match ParseHeader wire with
  | Err e => Err e
  | Ok h =>
      if hPeerID h =? 0 then Err ErrBadPeer
      else if hCounter h =? 0 then Err ErrBadCounter
      else if negb (length key =? KeyLen)%nat then Err ErrBadKey
      else
        let dir := if hReply h then DirReply else DirRequest in
        let nonce := Nonce (hPeerID h) senderRole dir (hCounter h) in
        let frame args expires :=
          MkFrame (hEnc h) (hReply h) (hNoReply h) (hPeerID h) (hCounter h) (hCmd h) args expires in
        match open_body h wire key nonce with
        | None => Err ErrAuth
        | Some body =>
            if HasExpiry h then
              if (length body <? ExpiryLen)%nat then Err ErrBadExpiry
              else
                let expires := be_get (take ExpiryLen body) in
                if expires =? 0 then Err ErrBadExpiry
                else Ok (frame (drop ExpiryLen body) expires)
            else Ok (frame body 0)
        end
  end.

End Codec.

(** ** The replay window *)

Record Window := MkWindow { high : Z; bits : Z }.

Definition Accept (counter : Z) (w : Window) : bool * Window :=
  if counter =? 0 then (false, w)
  else if high w <? counter then
    let shift := counter - high w in
    let b := if 64 <=? shift then 0 else u64 (Z.shiftl (bits w) shift) in
    (true, MkWindow counter (Z.lor b 1))
  else
    let diff := high w - counter in
    if 64 <=? diff then (false, w)
    else if negb (Z.land (bits w) (u64 (Z.shiftl 1 diff)) =? 0) then (false, w)
    else (true, MkWindow (high w) (Z.lor (bits w) (u64 (Z.shiftl 1 diff)))).

(** The answers to a sequence of counters. *)
Fixpoint accept_all (w : Window) (counters : list Z) : list bool * Window :=
  match counters with
  | [] => ([], w)
  | c :: counters =>
      let '(ok, w) := Accept c w in
      let '(oks, w) := accept_all w counters in (ok :: oks, w)
  end.

(** ** The window against a set of seen counters *)

(** The specification: a counter is fresh when it is not zero, was not accepted before,
    and is less than 64 below the highest accepted one. *)
Definition spec_accept (seen : gset Z) (top c : Z) : bool :=
  negb (c =? 0) && bool_decide (c ∉ seen) && (top - c <? 64).

Fixpoint spec_all (seen : gset Z) (top : Z) (counters : list Z) : list bool :=
  match counters with
  | [] => []
  | c :: counters =>
      if spec_accept seen top c then true :: spec_all ({[c]} ∪ seen) (Z.max top c) counters
      else false :: spec_all seen top counters
  end.

(** [w] stands for the accepted counters [seen]. *)
Definition window_rep (w : Window) (seen : gset Z) : Prop :=
  0 <= high w ∧ (∀ c, c ∈ seen → 0 < c <= high w) ∧
  ∀ i, 0 <= i < 64 → Z.testbit (bits w) i = bool_decide (high w - i ∈ seen).

Lemma u64_testbit z i : 0 <= i < 64 → Z.testbit (u64 z) i = Z.testbit z i.
Proof.
  intros Hi. unfold u64. change 18446744073709551616 with (2 ^ 64). apply Z.mod_pow2_bits_low. lia.
Qed.

Lemma one_bit d i : 0 <= d < 64 → 0 <= i < 64 → Z.testbit (u64 (Z.shiftl 1 d)) i = (i =? d).
Proof.
  intros Hd Hi. rewrite u64_testbit by done. rewrite Z.shiftl_mul_pow2, Z.mul_1_l by lia.
  rewrite Z.pow2_bits_eqb by lia. apply Z.eqb_sym.
Qed.

(** The mask test reads one bit. *)
Lemma land_one_bit b d : 0 <= d < 64 → negb (Z.land b (u64 (Z.shiftl 1 d)) =? 0) = Z.testbit b d.
Proof.
  intros Hd. destruct (Z.testbit b d) eqn:Hb.
  - apply negb_true_iff, Z.eqb_neq. intros H0. assert (Z.testbit 0 d = true) as Hc; [|by rewrite Z.bits_0 in Hc].
    rewrite <-H0, Z.land_spec, Hb, one_bit, Z.eqb_refl by lia. done.
  - apply negb_false_iff, Z.eqb_eq, Z.bits_inj'. intros i Hi. rewrite Z.land_spec, Z.bits_0.
    assert (Hu : u64 (Z.shiftl 1 d) = 2 ^ d).
    { unfold u64. rewrite Z.shiftl_mul_pow2, Z.mul_1_l by lia. apply Z.mod_small.
      split; [apply Z.pow_nonneg; lia|]. change 18446744073709551616 with (2 ^ 64).
      apply Z.pow_lt_mono_r; lia. }
    rewrite Hu, Z.pow2_bits_eqb by lia. destruct (Z.eqb_spec d i) as [<-|]; [by rewrite Hb|].
    apply andb_false_r.
Qed.

Lemma accept_new_high w seen c :
  window_rep w seen → high w < c →
  window_rep (MkWindow c (Z.lor (if 64 <=? c - high w then 0 else u64 (Z.shiftl (bits w) (c - high w))) 1))
    ({[c]} ∪ seen).
Proof.
  intros (Hh & Hs & Hb) Hc. split_and!; simpl; [lia| |].
  - intros x [->%elem_of_singleton|Hx%Hs]%elem_of_union; lia.
  - intros i Hi. rewrite Z.lor_spec. destruct (decide (i = 0)) as [->|Hi0].
    { rewrite orb_true_r, Z.sub_0_r. symmetry. apply bool_decide_eq_true. set_solver. }
    replace (Z.testbit 1 i) with false by (symmetry; apply (Z.bits_above_log2 1); simpl; lia).
    rewrite orb_false_r.
    assert (Hmem : c - i ∈ ({[c]} ∪ seen : gset Z) ↔ c - i ∈ seen).
    { rewrite elem_of_union, elem_of_singleton. split; [intros [?|?]; [lia|done]|by right]. }
    rewrite (bool_decide_ext _ _ Hmem). case_if; zbool.
    + rewrite Z.bits_0. symmetry. apply bool_decide_eq_false. intros Hin%Hs. lia.
    + rewrite u64_testbit by done. rewrite Z.shiftl_spec by lia.
      destruct (Z.leb_spec (c - high w) i) as [Hle|Hlt].
      * rewrite Hb by lia. by replace (high w - (i - (c - high w))) with (c - i) by lia.
      * rewrite Z.testbit_neg_r by lia. symmetry. apply bool_decide_eq_false. intros Hin%Hs. lia.
Qed.

Lemma accept_within w seen c :
  window_rep w seen → 0 < c <= high w → high w - c < 64 →
  window_rep (MkWindow (high w) (Z.lor (bits w) (u64 (Z.shiftl 1 (high w - c))))) ({[c]} ∪ seen).
Proof.
  intros (Hh & Hs & Hb) Hc Hd. split_and!; simpl; [lia| |].
  - intros x [->%elem_of_singleton|Hx%Hs]%elem_of_union; lia.
  - intros i Hi. rewrite Z.lor_spec, Hb, one_bit by lia.
    destruct (Z.eqb_spec i (high w - c)) as [->|Hne].
    + rewrite orb_true_r. symmetry. apply bool_decide_eq_true.
      replace (high w - (high w - c)) with c by lia. set_solver.
    + rewrite orb_false_r. apply bool_decide_ext. rewrite elem_of_union, elem_of_singleton.
      split; [by right|]. intros [?|?]; [lia|done].
Qed.

(** One step of the window is one step of the specification. *)
Lemma accept_refines w seen c :
  window_rep w seen → 0 <= c →
  (Accept c w).1 = spec_accept seen (high w) c ∧
  high (Accept c w).2 = (if spec_accept seen (high w) c then Z.max (high w) c else high w) ∧
  window_rep (Accept c w).2 (if spec_accept seen (high w) c then {[c]} ∪ seen else seen).
Proof.
  intros Hrep Hc. pose proof Hrep as (Hh & Hs & Hb). unfold Accept, spec_accept.
  destruct (Z.eqb_spec c 0) as [->|Hc0]; [done|]. cbn [negb andb].
  destruct (Z.ltb_spec (high w) c) as [Hlt|Hge].
  - rewrite bool_decide_true by (intros Hin%Hs; lia). rewrite (proj2 (Z.ltb_lt _ 64)) by lia.
    cbn [andb fst snd]. split_and!; [done|simpl; lia|]. by apply accept_new_high.
  - destruct (Z.leb_spec 64 (high w - c)) as [Hfar|Hnear].
    { rewrite (proj2 (Z.ltb_ge _ 64)), andb_false_r by lia. done. }
    rewrite (proj2 (Z.ltb_lt _ 64)), andb_true_r by lia.
    rewrite land_one_bit, Hb by lia. replace (high w - (high w - c)) with c by lia.
    destruct (decide (c ∈ seen)) as [Hin|Hout].
    + rewrite bool_decide_true, bool_decide_false by naive_solver. done.
    + rewrite bool_decide_false, bool_decide_true by done. cbn [fst snd high].
      split_and!; [done|lia|]. apply accept_within; [done|lia|lia].
Qed.

(** The counters answered with [true]. *)
Fixpoint picked (counters : list Z) (oks : list bool) : list Z :=
  match counters, oks with
  | c :: counters, ok :: oks => if ok then c :: picked counters oks else picked counters oks
  | _, _ => []
  end.

Lemma accept_all_refines w seen counters :
  window_rep w seen → Forall (λ c, 0 <= c) counters →
  (accept_all w counters).1 = spec_all seen (high w) counters.
Proof.
  intros Hrep Hc. revert w seen Hrep. induction Hc as [|c counters Hc _ IH]; intros w seen Hrep; [done|].
  cbn [accept_all spec_all]. destruct (accept_refines w seen c Hrep Hc) as (H1 & H2 & H3).
  destruct (Accept c w) as [ok w1]. cbn [fst snd] in *. subst ok. specialize (IH w1 _ H3).
  rewrite H2 in IH. destruct (accept_all w1 counters) as [oks w2]. simpl in *. subst oks.
  by destruct (spec_accept seen (high w) c).
Qed.

Lemma spec_picked seen top counters :
  NoDup (picked counters (spec_all seen top counters)) ∧
  ∀ c, c ∈ picked counters (spec_all seen top counters) → c ∉ seen.
Proof.
  revert seen top. induction counters as [|c counters IH]; intros seen top.
  { split; [constructor|set_solver]. }
  cbn [spec_all]. destruct (spec_accept seen top c) eqn:Hs; cbn [picked]; [|apply IH].
  destruct (IH ({[c]} ∪ seen) (Z.max top c)) as [Hnd Hdis].
  assert (Hc : c ∉ seen) by (unfold spec_accept in Hs; zbool; by eapply bool_decide_eq_true_1).
  split; [constructor; [|done]|].
  - intros Hin%Hdis. set_solver.
  - intros x [->|Hx%Hdis]%elem_of_cons; [done|set_solver].
Qed.

(** C17: the 64-bit window implements the set of accepted counters: from a state that
    stands for [seen] (a new window, or one restored from its stored form) it accepts a
    counter exactly when it is not zero, was never accepted before and is less than 64
    below the highest; so no frame is acted on twice, in whatever order frames arrive. *)
Theorem replay_window_refines w seen counters :
  window_rep w seen → Forall (λ c, 0 <= c < 2 ^ 32) counters →
  (accept_all w counters).1 = spec_all seen (high w) counters ∧
  NoDup (picked counters (accept_all w counters).1) ∧
  ∀ c, c ∈ picked counters (accept_all w counters).1 → c ∉ seen.
Proof.
  intros Hrep Hc. rewrite (accept_all_refines w seen); [split; [done|apply spec_picked]|done|].
  eapply Forall_impl; [exact Hc|]. simpl. lia.
Qed.

Lemma replay_window_refines_witness :
  picked [5; 3; 5; 200; 137; 136; 3; 200] (accept_all (MkWindow 0 0) [5; 3; 5; 200; 137; 136; 3; 200]).1
  = [5; 3; 200; 137] ∧
  (accept_all (MkWindow 0 0) [5; 3; 5; 200; 137; 136; 3; 200]).1
  = spec_all ∅ 0 [5; 3; 5; 200; 137; 136; 3; 200].
Proof.
  split; [vm_compute; reflexivity|].
  apply (replay_window_refines (MkWindow 0 0) ∅).
  - split_and!; [done|set_solver|]. intros i _. simpl. by rewrite Z.bits_0, bool_decide_false by set_solver.
  - repeat constructor; vm_compute; congruence.
Defined.

(** ** The frame codec is exact *)

Definition frame_wf (f : Frame) : Prop :=
  0 <= fPeerID f < 2 ^ 16 ∧ 0 <= fCounter f < 2 ^ 32 ∧ byte_ok (fCmd f) ∧
  bytes_ok (fArgs f) ∧ 0 <= fExpiresAt f < 2 ^ 32.

#[global] Instance frame_wf_dec f : Decision (frame_wf f).
Proof. unfold frame_wf. apply _. Defined.

(** The flags byte of a frame carries its four flags and the version. *)
Lemma flags_of_bits f h :
  hFlags h = flags_of f →
  hEnc h = fEnc f ∧ hReply h = fReply f ∧ hNoReply h = fNoReply f ∧
  HasExpiry h = negb (fExpiresAt f =? 0) ∧ VersionNibble h = Version.
Proof.
  unfold hEnc, hReply, hNoReply, HasExpiry, VersionNibble, flags_of. intros ->.
  by destruct (fEnc f), (fReply f), (fNoReply f), (negb (fExpiresAt f =? 0)).
Qed.

(** A byte of version 1 is the flags byte of the flags it carries. *)
Definition flag_byte_law (b : Z) : Prop :=
  Z.shiftr b 4 = Version →
  b = flags_of (MkFrame (negb (Z.land b FlagEnc =? 0)) (negb (Z.land b FlagReply =? 0))
                  (negb (Z.land b FlagNoReply =? 0)) 0 0 0 []
                  (if negb (Z.land b FlagExpiry =? 0) then 1 else 0)).

#[global] Instance flag_byte_law_dec b : Decision (flag_byte_law b).
Proof. unfold flag_byte_law. apply _. Defined.

Lemma flag_byte_all b : byte_ok b → flag_byte_law b.
Proof.
  intros Hb. set (p := λ b, bool_decide (flag_byte_law b)).
  assert (Hp : p b = true) by (apply (zall_spec 256); [vm_compute; reflexivity|exact Hb]).
  by apply bool_decide_eq_true in Hp.
Qed.

Lemma header_length f : length (header_bytes f) = HeaderLen.
Proof. unfold header_bytes. by rewrite !length_app, !be_put_length. Qed.

(** What the parser reads from a frame's header. *)
Lemma parse_header_app f rest :
  frame_wf f → (TagLen ≤ length rest ≤ MaxArgs + TagLen)%nat →
  ParseHeader (header_bytes f ++ rest) =
    Ok (MkOobHeader (flags_of f) (fPeerID f) (fCounter f) (fCmd f) (Zlen rest - Z.of_nat TagLen)).
Proof.
  intros (Hp & Hc & _) Hrest. unfold ParseHeader.
  assert (Hl : length (header_bytes f ++ rest) = (9 + length rest)%nat)
    by (rewrite length_app, header_length; done).
  assert (Hz : Zlen (header_bytes f ++ rest) = 9 + Zlen rest) by (unfold Zlen; lia).
  rewrite Hl, Hz. unfold MinFrameLen, MaxFrameLen, HeaderLen, TagLen, MaxArgs in *.
  rewrite !(proj2 (Nat.ltb_ge _ _)) by lia.
  destruct (flags_of_bits f (MkOobHeader (flags_of f) 0 0 0 0) eq_refl) as (_ & _ & _ & _ & Hv).
  unfold VersionNibble in *. cbn [hFlags] in *.
  replace (idx (header_bytes f ++ rest) 0) with Magic by done.
  replace (idx (header_bytes f ++ rest) 1) with (flags_of f) by done. rewrite Hv.
  change (negb (Magic =? Magic)) with false. change (negb (Version =? Version)) with false. cbv iota.
  unfold header_bytes. rewrite <-!(assoc_L (++)). slices. rewrite !be_put_length.
  rewrite !be_get_put_small by (simpl; lia). do 2 f_equal. lia.
Qed.

Lemma header_cut (wire : list Z) :
  (9 ≤ length wire)%nat →
  [idx wire 0; idx wire 1] ++ sub 2 4 wire ++ sub 4 8 wire ++ [idx wire 8] = take HeaderLen wire.
Proof.
  intros Hl. apply (app_inv_tail (drop 9 wire)). unfold HeaderLen. rewrite take_drop.
  rewrite <-!(assoc_L (++)). cbn [app].
  rewrite <-(drop_idx wire 8), <-(drop_sub 4 8), <-(drop_sub 2 4) by lia.
  rewrite <-(drop_idx wire 1), <-(drop_idx wire 0) by lia. done.
Qed.

(** The fields [Open] fills in from the verified body. *)
Lemma open_fields h (body : list Z) f
  (frame := MkFrame (hEnc h) (hReply h) (hNoReply h) (hPeerID h) (hCounter h) (hCmd h)) :
  bytes_ok body →
  (if HasExpiry h then
     if (length body <? ExpiryLen)%nat then Err ErrBadExpiry
     else if be_get (take ExpiryLen body) =? 0 then Err ErrBadExpiry
          else Ok (frame (drop ExpiryLen body) (be_get (take ExpiryLen body)))
   else Ok (frame body 0)) = Ok f →
  ∃ args expires, f = frame args expires ∧ negb (expires =? 0) = HasExpiry h ∧ bytes_ok args ∧
    0 <= expires < 2 ^ 32 ∧ body_of f = body.
Proof.
  intros Hok. destruct (HasExpiry h).
  - destruct (Nat.ltb_spec (length body) ExpiryLen) as [|Hlen]; [done|].
    destruct (Z.eqb_spec (be_get (take ExpiryLen body)) 0) as [|Hne]; [done|].
    intros Hf. exists (drop ExpiryLen body), (be_get (take ExpiryLen body)).
    assert (f = frame (drop ExpiryLen body) (be_get (take ExpiryLen body))) as -> by congruence.
    assert (Ht : length (take ExpiryLen body) = ExpiryLen) by (rewrite length_take; lia).
    pose proof (be_get_bound (take ExpiryLen body) ltac:(auto with hub)) as Hbd.
    unfold Zlen in Hbd. rewrite Ht in Hbd.
    apply Z.eqb_neq in Hne as Hne'. split_and!; [done|by rewrite Hne'|auto with hub|apply Hbd..|].
    unfold body_of, frame. cbn [fExpiresAt fArgs]. rewrite Hne'. cbn [negb].
    rewrite be_put_get by auto with hub. apply take_drop.
  - intros Hf. exists body, 0. assert (f = frame body 0) as -> by congruence. by split_and!.
Qed.

Lemma body_bytes f : frame_wf f → bytes_ok (body_of f).
Proof.
  intros (_ & _ & _ & Ha & _). unfold body_of. case_if; [|done]. apply bytes_ok_app. auto with hub.
Qed.

Section Exact.
Context (gcm_seal : list Z → list Z → list Z → list Z → list Z)
  (gcm_open : list Z → list Z → list Z → list Z → option (list Z)).

(** What the code relies on of AES-GCM: sealing adds a 16-byte tag, and opening
    succeeds with a plaintext exactly on what sealing those bytes gives. *)
Context (gcm_length : ∀ k n p a, length (gcm_seal k n p a) = (length p + TagLen)%nat).
Context (gcm_exact : ∀ k n c p a, gcm_open k n c a = Some p ↔ gcm_seal k n p a = c ∧ bytes_ok p).

Lemma open_body_sealed f h key nonce tail :
  frame_wf f → hEnc h = fEnc f →
  tail = (if fEnc f then gcm_seal key nonce (body_of f) (header_bytes f)
          else body_of f ++ gcm_seal key nonce [] (header_bytes f ++ body_of f)) →
  open_body gcm_open h (header_bytes f ++ tail) key nonce = Some (body_of f).
Proof using gcm_length gcm_exact.
  intros Hwf He ->. pose proof (body_bytes f Hwf). unfold open_body. rewrite He, <-(header_length f), take_app_length, drop_app_length.
  destruct (fEnc f); [by apply gcm_exact|]. set (tag := gcm_seal _ _ _ _).
  assert (Ht : length tag = TagLen) by (unfold tag; by rewrite gcm_length).
  assert (Hcut : (length (header_bytes f ++ body_of f ++ tag) - TagLen)%nat
                 = length (header_bytes f ++ body_of f)) by (rewrite !length_app, Ht; lia).
  rewrite Hcut, (assoc_L (++)), drop_app_length. unfold sub. rewrite length_app.
  rewrite <-(assoc_L (++)), drop_app_length, Nat.add_comm, Nat.add_sub, take_app_length.
  by rewrite (proj2 (gcm_exact key nonce tag [] _)) by (split; [done|constructor]).
Qed.

Lemma seal_open f key role wire :
  frame_wf f → Seal gcm_seal f key role = Ok wire → Open gcm_open wire key role = Ok f.
Proof using gcm_length gcm_exact.
  intros Hwf. unfold Seal. destruct (Z.eqb_spec (fPeerID f) 0); [done|].
  destruct (Z.eqb_spec (fCounter f) 0); [done|].
  destruct (Nat.ltb_spec MaxArgs (length (body_of f))) as [|Hbody]; [done|].
  destruct (length key =? KeyLen)%nat eqn:Hk; [|done]. cbn [negb].
  set (nonce := Nonce _ _ _ _). set (tail := if fEnc f then gcm_seal key nonce (body_of f) (header_bytes f)
    else body_of f ++ gcm_seal key nonce [] (header_bytes f ++ body_of f)).
  intros Hw. assert (wire = header_bytes f ++ tail) as -> by (unfold tail; destruct (fEnc f); congruence).
  assert (Htail : length tail = (length (body_of f) + TagLen)%nat)
    by (unfold tail; destruct (fEnc f); rewrite ?length_app, gcm_length; simpl; lia).
  unfold Open. rewrite parse_header_app by (done || lia). cbn [hPeerID hCounter hCmd].
  rewrite !(proj2 (Z.eqb_neq _ _)) by done. rewrite Hk. cbn [negb].
  set (h := MkOobHeader _ _ _ _ _).
  destruct (flags_of_bits f h eq_refl) as (He & Hr & Hn & Hx & _). rewrite Hr.
  rewrite (open_body_sealed f h key) by done. rewrite Hx, He, Hn. clear h He Hr Hn Hx.
  clear tail Htail Hw. clearbody nonce. unfold body_of in *.
  destruct (Z.eqb_spec (fExpiresAt f) 0) as [H0|H0]; cbn [negb].
  - destruct f; simpl in *. by subst.
  - destruct Hwf as (_ & _ & _ & _ & Hexp). rewrite length_app, be_put_length.
    rewrite (proj2 (Nat.ltb_ge _ _)) by lia.
    rewrite take_app_length', drop_app_length' by (by rewrite be_put_length).
    rewrite be_get_put_small by (unfold ExpiryLen; simpl; lia).
    rewrite (proj2 (Z.eqb_neq _ _)) by done. by destruct f.
Qed.

(** What a parsed header says about the wire. *)
Lemma parse_header_inv wire h :
  bytes_ok wire → ParseHeader wire = Ok h →
  (MinFrameLen ≤ length wire ≤ MaxFrameLen)%nat ∧ 0 <= hPeerID h < 2 ^ 16 ∧ 0 <= hCounter h < 2 ^ 32 ∧
  byte_ok (hCmd h) ∧
  ∀ args expires, negb (expires =? 0) = HasExpiry h →
    header_bytes (MkFrame (hEnc h) (hReply h) (hNoReply h) (hPeerID h) (hCounter h) (hCmd h) args expires)
    = take HeaderLen wire.
Proof using.
  intros Hok. unfold ParseHeader.
  destruct (Nat.ltb_spec (length wire) MinFrameLen) as [|Hmin]; [done|].
  destruct (Nat.ltb_spec MaxFrameLen (length wire)) as [|Hmax]; [done|].
  destruct (Z.eqb_spec (idx wire 0) Magic) as [Hm|]; [|done]. cbn [negb].
  set (h0 := MkOobHeader _ _ _ _ _). destruct (Z.eqb_spec (VersionNibble h0) Version) as [Hv|]; [|done].
  cbn [negb]. intros Hh. assert (h = h0) as -> by congruence.
  assert (H2 : length (sub 2 4 wire) = 2%nat) by (apply sub_length; unfold MinFrameLen, HeaderLen, TagLen in *; lia).
  assert (H4 : length (sub 4 8 wire) = 4%nat) by (apply sub_length; unfold MinFrameLen, HeaderLen, TagLen in *; lia).
  pose proof (be_get_bound (sub 2 4 wire) ltac:(auto with hub)) as B2.
  pose proof (be_get_bound (sub 4 8 wire) ltac:(auto with hub)) as B4.
  unfold Zlen in B2, B4. rewrite H2 in B2. rewrite H4 in B4.
  split; [done|]. split; [exact B2|]. split; [exact B4|]. split; [apply idx_ok, Hok|].
  intros args expires Hexp. unfold header_bytes. cbn [fPeerID fCounter fCmd h0 hPeerID hCounter hCmd].
  rewrite !be_put_get by auto with hub.
  assert (Hfl : flags_of (MkFrame (hEnc h0) (hReply h0) (hNoReply h0) (be_get (sub 2 4 wire))
    (be_get (sub 4 8 wire)) (idx wire 8) args expires) = idx wire 1).
  { rewrite (flag_byte_all (idx wire 1) (idx_ok wire 1 Hok) Hv) at 1. unfold flags_of.
    cbn [fEnc fReply fNoReply fExpiresAt]. rewrite Hexp. unfold HasExpiry. cbn [hFlags h0].
    by destruct (negb (Z.land (idx wire 1) FlagExpiry =? 0)). }
  rewrite Hfl, <-Hm. apply header_cut. unfold MinFrameLen, HeaderLen, TagLen in *. lia.
Qed.

Lemma open_body_inv h wire key nonce body :
  (MinFrameLen ≤ length wire ≤ MaxFrameLen)%nat → bytes_ok wire →
  open_body gcm_open h wire key nonce = Some body →
  bytes_ok body ∧ (length body ≤ MaxArgs)%nat ∧
  wire = take HeaderLen wire ++
    (if hEnc h then gcm_seal key nonce body (take HeaderLen wire)
     else body ++ gcm_seal key nonce [] (take HeaderLen wire ++ body)).
Proof using gcm_length gcm_exact.
  intros Hlen Hok. unfold open_body. unfold MinFrameLen, MaxFrameLen in Hlen. destruct (hEnc h).
  - intros Ho. apply gcm_exact in Ho as [Ho Hpb]. split_and!; [done| |].
    + apply (f_equal length) in Ho. rewrite gcm_length, length_drop in Ho. lia.
    + by rewrite Ho, take_drop.
  - set (clear := sub _ _ _). set (tag := drop _ _). destruct (gcm_open key nonce tag _) as [p|] eqn:Ho; [|done].
    intros [= <-]. apply gcm_exact in Ho as [Ho _].
    assert (Hp : p = []).
    { apply length_zero_iff_nil. apply (f_equal length) in Ho. rewrite gcm_length in Ho.
      unfold tag in Ho. rewrite length_drop in Ho. unfold TagLen in *. lia. }
    subst p. assert (Hcl : length clear = (length wire - TagLen - HeaderLen)%nat)
      by (unfold clear; apply sub_length; lia).
    split_and!; [unfold clear; auto with hub|lia|]. rewrite Ho. unfold clear, tag.
    rewrite <-(drop_sub HeaderLen) by lia. by rewrite take_drop.
Qed.

Lemma open_seal f key role wire :
  bytes_ok wire → Open gcm_open wire key role = Ok f → frame_wf f ∧ Seal gcm_seal f key role = Ok wire.
Proof using gcm_length gcm_exact.
  intros Hok. unfold Open. destruct (ParseHeader wire) as [h|] eqn:Hh; [|done].
  destruct (parse_header_inv wire h Hok Hh) as (Hlen & Hp & Hc & Hcmd & Hhdr).
  destruct (Z.eqb_spec (hPeerID h) 0) as [|Hp0]; [done|].
  destruct (Z.eqb_spec (hCounter h) 0) as [|Hc0]; [done|].
  destruct (length key =? KeyLen)%nat eqn:Hk; [|done]. cbn [negb]. set (nonce := Nonce _ _ _ _).
  destruct (open_body gcm_open h wire key nonce) as [body|] eqn:Hb; [|done].
  destruct (open_body_inv h wire key nonce body Hlen Hok Hb) as (Hbok & Hbl & Hwire).
  intros Hf. assert (∃ args expires, f = MkFrame (hEnc h) (hReply h) (hNoReply h) (hPeerID h) (hCounter h)
    (hCmd h) args expires ∧ negb (expires =? 0) = HasExpiry h ∧ bytes_ok args ∧ 0 <= expires < 2 ^ 32 ∧
    body_of f = body) as (args & expires & -> & Hx & Haok & Hexp & Hbody)
    by (by apply open_fields).
  split; [exact (conj Hp (conj Hc (conj Hcmd (conj Haok Hexp))))|]. unfold Seal. cbn [fPeerID fCounter fEnc fReply].
  rewrite !(proj2 (Z.eqb_neq _ _)) by done. rewrite Hbody, (proj2 (Nat.ltb_ge _ _)), Hk by done.
  cbn [negb]. rewrite (Hhdr args expires Hx). fold nonce.
  transitivity (@Ok oob_error _ (take HeaderLen wire ++
    (if hEnc h then gcm_seal key nonce body (take HeaderLen wire)
     else body ++ gcm_seal key nonce [] (take HeaderLen wire ++ body)))).
  - by destruct (hEnc h).
  - by rewrite <-Hwire.
Qed.

(** Management frames are exact: a receiver that shares the key opens a wire frame
    to [f] if and only if [f] is in range and the wire is what sealing [f] under the
    sender's role gives, so every command arrives as it was sent, expiry included, and
    nothing that was not sealed with the key is accepted. *)
Theorem oob_frame_exact f key role wire :
  bytes_ok wire →
  Open gcm_open wire key role = Ok f ↔ frame_wf f ∧ Seal gcm_seal f key role = Ok wire.
Proof using gcm_length gcm_exact.
  intros Hok. split; [by apply open_seal|]. intros [Hwf Hs]. by apply seal_open.
Qed.

End Exact.

(** A stand-in with the laws of AES-GCM: the plaintext and a tag made of key, nonce and
    data. *)
Definition toy_tag (k n p a : list Z) : list Z :=
  take 16 (u8 (foldr Z.add 0 (k ++ n ++ p ++ a)) :: replicate 16 0).
Definition toy_seal (k n p a : list Z) : list Z := p ++ toy_tag k n p a.
Definition toy_open (k n c a : list Z) : option (list Z) :=
  let p := take (length c - 16) c in
  if decide (toy_seal k n p a = c ∧ bytes_ok p) then Some p else None.

Lemma toy_seal_length k n p a : length (toy_seal k n p a) = (length p + TagLen)%nat.
Proof. unfold toy_seal. by rewrite length_app. Qed.

Lemma toy_exact k n c p a : toy_open k n c a = Some p ↔ toy_seal k n p a = c ∧ bytes_ok p.
Proof.
  unfold toy_open. split.
  - case_decide as Hd; [|done]. by intros [= <-].
  - intros [<- Hp]. rewrite toy_seal_length. unfold TagLen. rewrite Nat.add_sub.
    replace (take (length p) (toy_seal k n p a)) with p by (unfold toy_seal; by rewrite take_app_length).
    by rewrite decide_True.
Qed.

Definition sample_frame : Frame := MkFrame true false true 513 7 3 [10; 20; 30] 1800000000.
Definition sample_key : list Z := seqZ 1 32.
Definition sample_wire : list Z :=
  match Seal toy_seal sample_frame sample_key RoleIssuer with Ok w => w | Err _ => [] end.

Lemma oob_frame_exact_witness :
  length sample_wire = 32%nat ∧ Open toy_open sample_wire sample_key RoleIssuer = Ok sample_frame.
Proof.
  split; [vm_compute; reflexivity|].
  apply (oob_frame_exact toy_seal toy_open toy_seal_length toy_exact).
  - apply (bool_decide_unpack _). vm_compute. exact I.
  - split; [|vm_compute; reflexivity]. apply (bool_decide_unpack _). vm_compute. exact I.
Defined.

End Oob.
