(* ===== verification/RateLimit.v ===== *)
(** The per-device send limiter of [internal/ratelimit/limiter.go]: token bucket, daily
    and monthly caps, overrides and the tenant-scoped keys.  One reading of the clock
    serves an operation, in nanoseconds; the formatted day and month are arguments.
    Counters the source reaches through pointers are entries of the maps.  Metrics and
    logs are left out; an alert is part of the answer. *)
From S2P Require Import Prelude Float64.

Module RateLimit.
Import Float64.

Record Caps := MkCaps { Daily : Z; Monthly : Z }.

Record tokenBucket := MkBucket {
  bTenantID : list Z;
  bDeviceID : list Z;
  tokens : float64;
  bMaxTokens : float64;
  bRefillRate : float64;
  lastRefill : Z;
}.

(** [dailyCounter] and [monthlyCounter]: a count and the day or month it is for. *)
Record counter := MkCounter { count : Z; period : list Z }.

Record DeviceLimiter := MkLimiter {
  buckets : gmap (list Z) tokenBucket;
  maxTokens : float64;
  refillRate : float64;
  dailyCap : Z;
  daily : gmap (list Z) counter;
  monthlyCap : Z;
  monthly : gmap (list Z) counter;
  caps : option (list Z → Caps);
}.

Definition NewDeviceLimiter (maxTokens refillRate : float64) (dailyCap monthlyCap : Z) : DeviceLimiter :=
  MkLimiter ∅ maxTokens refillRate dailyCap ∅ monthlyCap ∅ None.

Definition SetCapResolver (r : list Z → Caps) (l : DeviceLimiter) : DeviceLimiter :=
  MkLimiter (buckets l) (maxTokens l) (refillRate l) (dailyCap l) (daily l) (monthlyCap l) (monthly l) (Some r).

Definition capsFor (tenantID : list Z) (l : DeviceLimiter) : Caps :=
  match caps l with
  | None => MkCaps (dailyCap l) (monthlyCap l)
  | Some resolve =>
      let got := resolve tenantID in
      MkCaps (if 0 <? Daily got then Daily got else dailyCap l)
        (if 0 <? Monthly got then Monthly got else monthlyCap l)
  end.

(** ** Keys *)

Definition upper_hex (v : Z) : Z := if v <? 10 then 48 + v else 55 + v.

(** The bytes [url.QueryEscape] keeps: letters, digits and [- _ . ~]. *)
Definition unreserved (b : Z) : bool :=
  ((65 <=? b) && (b <=? 90)) || ((97 <=? b) && (b <=? 122)) || ((48 <=? b) && (b <=? 57))
  || (b =? 45) || (b =? 95) || (b =? 46) || (b =? 126).

Definition escape_byte (b : Z) : list Z :=
  if unreserved b then [b]
  else if b =? 32 then [43]
  else [37; upper_hex (Z.shiftr b 4); upper_hex (Z.land b 15)].

Definition QueryEscape (s : list Z) : list Z := concat (escape_byte <$> s).

Definition scope (tenantID deviceID : list Z) : list Z :=
  QueryEscape tenantID ++ [58] ++ QueryEscape deviceID.

(** ** Overrides *)

Definition SetOverride (now duration : Z) (tenantID deviceID : list Z) (m : gmap (list Z) Z)
  : gmap (list Z) Z := <[scope tenantID deviceID := now + duration]> m.

Definition ClearOverride (tenantID deviceID : list Z) (m : gmap (list Z) Z) : gmap (list Z) Z :=
  delete (scope tenantID deviceID) m.

Definition isOverridden (now : Z) (tenantID deviceID : list Z) (m : gmap (list Z) Z) : bool :=
  match m !! scope tenantID deviceID with Some exp => now <? exp | None => false end.

(** ** The limiter *)

(** [Duration.Seconds]. *)
Definition seconds (d : Z) : float64 :=
  f64_add (f64_of_Z (Z.quot d 1000000000))
    (f64_div (f64_of_Z (Z.rem d 1000000000)) (f64_of_Z 1000000000)).

Definition refill (now : Z) (b : tokenBucket) : tokenBucket :=
  let t := f64_add (tokens b) (f64_mul (seconds (now - lastRefill b)) (bRefillRate b)) in
  let t := if f64_ltb (bMaxTokens b) t then bMaxTokens b else t in
  MkBucket (bTenantID b) (bDeviceID b) t (bMaxTokens b) (bRefillRate b) now.

Definition getBucket (now : Z) (tenantID deviceID : list Z) (l : DeviceLimiter) : tokenBucket :=
  default (MkBucket tenantID deviceID (maxTokens l) (maxTokens l) (refillRate l) now)
    (buckets l !! scope tenantID deviceID).

(** [getDaily] and [getMonthly]; a new counter is for the current period. *)
Definition getCounter (m : gmap (list Z) counter) (key now_period : list Z) : counter :=
  default (MkCounter 0 now_period) (m !! key).

(** The reset of a counter of an earlier period. *)
Definition roll (now_period : list Z) (c : counter) : counter :=
  if decide (period c ≠ now_period) then MkCounter 0 now_period else c.

Definition spend (b : tokenBucket) : tokenBucket :=
  MkBucket (bTenantID b) (bDeviceID b) (f64_sub (tokens b) (f64_of_Z 1)) (bMaxTokens b) (bRefillRate b)
    (lastRefill b).

Definition bump (m : gmap (list Z) counter) (key now_period : list Z) : gmap (list Z) counter :=
  let c := getCounter m key now_period in <[key := MkCounter (count c + 1) (period c)]> m.

Definition set_daily (m : gmap (list Z) counter) (l : DeviceLimiter) : DeviceLimiter :=
  MkLimiter (buckets l) (maxTokens l) (refillRate l) (dailyCap l) m (monthlyCap l) (monthly l) (caps l).
Definition set_monthly (m : gmap (list Z) counter) (l : DeviceLimiter) : DeviceLimiter :=
  MkLimiter (buckets l) (maxTokens l) (refillRate l) (dailyCap l) (daily l) (monthlyCap l) m (caps l).
Definition set_buckets (m : gmap (list Z) tokenBucket) (l : DeviceLimiter) : DeviceLimiter :=
  MkLimiter m (maxTokens l) (refillRate l) (dailyCap l) (daily l) (monthlyCap l) (monthly l) (caps l).

Inductive alert := MonthlyCapExceeded (n : Z) | DailyCapExceeded (n : Z) | Throttled.

Section Allow.
Context (date_of month_of : Z → list Z).

(** The cap check of one period: the rolled counter is stored; [Some n] denies. *)
Definition check_cap (cap : Z) (key now_period : list Z) (m : gmap (list Z) counter)
  : option Z * gmap (list Z) counter :=
  if 0 <? cap then
    let c := roll now_period (getCounter m key now_period) in
    (if cap <=? count c then Some (count c) else None, <[key := c]> m)
  else (None, m).

Definition Allow (now : Z) (overrides : gmap (list Z) Z) (tenantID deviceID : list Z) (isSOS : bool)
  (l : DeviceLimiter) : bool * option alert * DeviceLimiter :=
  if isSOS then (true, None, l)
  else if isOverridden now tenantID deviceID overrides then (true, None, l)
  else
    let key := scope tenantID deviceID in
    let c := capsFor tenantID l in
    let '(over, m) := check_cap (Monthly c) key (month_of now) (monthly l) in
    let l := set_monthly m l in
    match over with
    | Some n => (false, Some (MonthlyCapExceeded n), l)
    | None =>
        let '(over, m) := check_cap (Daily c) key (date_of now) (daily l) in
        let l := set_daily m l in
        match over with
        | Some n => (false, Some (DailyCapExceeded n), l)
        | None =>
            let b := refill now (getBucket now tenantID deviceID l) in
            let l := set_buckets (<[key := b]> (buckets l)) l in
            if f64_ltb (tokens b) (f64_of_Z 1) then (false, Some Throttled, l)
            else
              let l := set_buckets (<[key := spend b]> (buckets l)) l in
              let l := if 0 <? Daily c then set_daily (bump (daily l) key (date_of now)) l else l in
              let l := if 0 <? Monthly c then set_monthly (bump (monthly l) key (month_of now)) l else l in
              (true, None, l)
        end
    end.

End Allow.

(** ** Keys are injective *)

Definition unhex (c : Z) : Z := if c <? 58 then c - 48 else c - 55.

(** Reading back one escaped byte from the front. *)
Definition unescape_one (s : list Z) : option (Z * list Z) :=
  match s with
  | [] => None
  | 37 :: h :: l :: s => Some (Z.lor (Z.shiftl (unhex h) 4) (unhex l), s)
  | 43 :: s => Some (32, s)
  | b :: s => Some (b, s)
  end.

Definition escape_law (b : Z) : Prop :=
  unescape_one (escape_byte b) = Some (b, []) ∧ 58 ∉ escape_byte b ∧ escape_byte b ≠ [].

#[global] Instance escape_law_dec b : Decision (escape_law b).
Proof. unfold escape_law. apply _. Defined.

Lemma escape_law_all b : byte_ok b → escape_law b.
Proof.
  intros Hb. set (p := λ b, bool_decide (escape_law b)).
  assert (Hp : p b = true) by (apply (zall_spec 256); [vm_compute; reflexivity|exact Hb]).
  by apply bool_decide_eq_true in Hp.
Qed.

(** The escaping of one byte is read back whatever follows. *)
Lemma unescape_app b rest : byte_ok b → unescape_one (escape_byte b ++ rest) = Some (b, rest).
Proof.
  intros Hb. destruct (escape_law_all b Hb) as (Hu & _ & _). revert Hu. unfold escape_byte.
  destruct (unreserved b) eqn:Hun; [|destruct (Z.eqb_spec b 32) as [->|]; [done|]].
  - assert (b ≠ 37 ∧ b ≠ 43) as [H37 H43] by (split; intros ->; done). intros _. cbn [app unescape_one].
    repeat (case_match; try done); congruence.
  - cbn [app unescape_one]. intros [= ->]. done.
Qed.

Lemma QueryEscape_inj s t : bytes_ok s → bytes_ok t → QueryEscape s = QueryEscape t → s = t.
Proof.
  unfold QueryEscape. intros Hs. revert t. induction Hs as [|b s Hb _ IH]; intros t Ht Heq.
  - destruct Ht as [|c t Hc _]; [done|]. rewrite fmap_cons in Heq. cbn [concat] in Heq.
    destruct (escape_law_all c Hc) as (_ & _ & Hne). by destruct (escape_byte c).
  - destruct Ht as [|c t Hc Ht]; rewrite ?fmap_cons in Heq; cbn [concat] in Heq.
    { destruct (escape_law_all b Hb) as (_ & _ & Hne). by destruct (escape_byte b). }
    apply (f_equal unescape_one) in Heq. rewrite !unescape_app in Heq by done.
    assert (b = c) as -> by congruence. f_equal. apply IH; [done|congruence].
Qed.

Lemma QueryEscape_no_colon s : bytes_ok s → 58 ∉ QueryEscape s.
Proof.
  unfold QueryEscape. induction 1 as [|b s Hb _ IH]; [apply not_elem_of_nil|].
  rewrite fmap_cons. cbn [concat]. destruct (escape_law_all b Hb) as (_ & Hc & _).
  rewrite elem_of_app. by intros [?|?].
Qed.

Lemma scope_inj t d t' d' :
  bytes_ok t → bytes_ok d → bytes_ok t' → bytes_ok d' → scope t d = scope t' d' → t = t' ∧ d = d'.
Proof.
  intros Ht Hd Ht' Hd'. unfold scope. cbn [app].
  intros [H1 H2]%split_at_last; [|by apply QueryEscape_no_colon..].
  split; by apply QueryEscape_inj.
Qed.

(** ** The answer depends on the device's own entries only *)

(** The limiters agree on the configuration and on the entries under [key]. *)
Definition agree (key : list Z) (l l' : DeviceLimiter) : Prop :=
  maxTokens l = maxTokens l' ∧ refillRate l = refillRate l' ∧ dailyCap l = dailyCap l' ∧
  monthlyCap l = monthlyCap l' ∧ caps l = caps l' ∧
  buckets l !! key = buckets l' !! key ∧ daily l !! key = daily l' !! key ∧
  monthly l !! key = monthly l' !! key.

Lemma check_cap_local cap key p m m' :
  m !! key = m' !! key → (check_cap cap key p m).1 = (check_cap cap key p m').1.
Proof. intros H. unfold check_cap, getCounter. rewrite H. by destruct (0 <? cap). Qed.

Section Properties.
Context (date_of month_of : Z → list Z).

Lemma allow_local now ov t d sos l l' :
  agree (scope t d) l l' →
  (Allow date_of month_of now ov t d sos l).1 = (Allow date_of month_of now ov t d sos l').1.
Proof using.
  intros (H1 & H2 & H3 & H4 & H5 & Hb & Hd & Hm). unfold Allow.
  destruct sos; [done|]. destruct (isOverridden now t d ov); [done|].
  assert (capsFor t l = capsFor t l') as -> by (unfold capsFor; by rewrite H3, H4, H5).
  pose proof (check_cap_local (Monthly (capsFor t l')) (scope t d) (month_of now) _ _ Hm) as Hcm.
  pose proof (check_cap_local (Daily (capsFor t l')) (scope t d) (date_of now) _ _ Hd) as Hcd.
  destruct (check_cap _ _ (month_of now) (monthly l)) as [o m], (check_cap _ _ (month_of now) (monthly l')) as [o' m'].
  simpl in Hcm. subst o'. destruct o; [done|]. cbn [set_monthly daily].
  destruct (check_cap _ _ (date_of now) (daily l)) as [o2 m2], (check_cap _ _ (date_of now) (daily l')) as [o2' m2'].
  simpl in Hcd. subst o2'. destruct o2; [done|].
  unfold getBucket. cbn [set_daily set_monthly buckets maxTokens refillRate]. rewrite Hb, H1, H2.
  by case_if.
Qed.

Lemma check_cap_other cap key key' p m : key' ≠ key → (check_cap cap key p m).2 !! key' = m !! key'.
Proof using. intros H. unfold check_cap. case_if; [|done]. cbn [snd]. by rewrite lookup_insert_ne. Qed.

Lemma allow_agree now ov t d sos l key' :
  key' ≠ scope t d → agree key' (Allow date_of month_of now ov t d sos l).2 l.
Proof using.
  intros Hne. unfold Allow. destruct sos; [by split_and!|]. destruct (isOverridden now t d ov); [by split_and!|].
  pose proof (check_cap_other (Monthly (capsFor t l)) _ _ (month_of now) (monthly l) Hne) as Hm.
  pose proof (check_cap_other (Daily (capsFor t l)) _ _ (date_of now) (daily l) Hne) as Hd.
  destruct (check_cap _ _ (month_of now) (monthly l)) as [o m]. cbn [snd] in Hm.
  destruct o; [by split_and!|]. cbn [set_monthly daily].
  destruct (check_cap _ _ (date_of now) (daily l)) as [o2 m2]. cbn [snd] in Hd.
  destruct o2; [by split_and!|]. case_if; [split_and!; simpl; rewrite ?lookup_insert_ne; done|].
  destruct (0 <? Daily _), (0 <? Monthly _); split_and!; simpl; unfold bump;
    rewrite ?lookup_insert_ne; done.
Qed.

(** Tenants and devices are isolated: an operation for one device, a send of any
    kind or an override, changes neither the answer nor the exemption of a device with
    another id or of another tenant, whatever bytes the ids hold. *)
Theorem limiter_isolated now now' duration ov t d sos t' d' sos' l :
  bytes_ok t → bytes_ok d → bytes_ok t' → bytes_ok d' → (t, d) ≠ (t', d') →
  (Allow date_of month_of now' ov t' d' sos' (Allow date_of month_of now ov t d sos l).2).1
  = (Allow date_of month_of now' ov t' d' sos' l).1 ∧
  isOverridden now' t' d' (SetOverride now duration t d ov) = isOverridden now' t' d' ov ∧
  isOverridden now' t' d' (ClearOverride t d ov) = isOverridden now' t' d' ov.
Proof using.
  intros Ht Hd Ht' Hd' Hne.
  assert (Hk : scope t' d' ≠ scope t d) by (intros [-> ->]%scope_inj; done).
  split_and!.
  - by apply allow_local, allow_agree.
  - unfold isOverridden, SetOverride. by rewrite lookup_insert_ne.
  - unfold isOverridden, ClearOverride. by rewrite lookup_delete_ne.
Qed.

End Properties.

(** ** The caps hold *)

(** What a device has used of the period [p]. *)
Definition used (m : gmap (list Z) counter) (key p : list Z) : Z := count (roll p (getCounter m key p)).

(** A send that the caps apply to. *)
Definition metered (now : Z) (ov : gmap (list Z) Z) (t d : list Z) (sos : bool) : bool :=
  negb sos && negb (isOverridden now t d ov).

Lemma roll_period p c : period (roll p c) = p.
Proof. unfold roll. case_decide as H; [done|]. by destruct (decide (period c = p)). Qed.

Lemma roll_same p c : period c = p → roll p c = c.
Proof. intros H. unfold roll. by rewrite decide_False by naive_solver. Qed.

Lemma used_insert m key p c : period c = p → used (<[key := c]> m) key p = count c.
Proof. intros H. unfold used, getCounter. rewrite lookup_insert_eq. simpl. by rewrite roll_same. Qed.

Lemma used_agree m m' key p : m !! key = m' !! key → used m key p = used m' key p.
Proof. intros H. unfold used, getCounter. by rewrite H. Qed.

(** A passed check leaves a counter of the current period, below the cap. *)
Lemma check_cap_used cap key p m :
  0 < cap →
  used (check_cap cap key p m).2 key p = used m key p ∧
  ((check_cap cap key p m).1 = None → used m key p < cap ∧
   ∃ c, (check_cap cap key p m).2 !! key = Some c ∧ period c = p ∧ count c = used m key p).
Proof.
  intros Hcap. unfold check_cap. rewrite (proj2 (Z.ltb_lt _ _)) by done. cbn [fst snd]. split.
  - rewrite used_insert by apply roll_period. done.
  - unfold used. case_if; [done|]. zbool. intros _. split; [done|].
    eexists. rewrite lookup_insert_eq. split_and!; [done|apply roll_period|done].
Qed.

Lemma bump_used m key p c :
  m !! key = Some c → period c = p → used (bump m key p) key p = count c + 1.
Proof.
  intros Hc Hp. unfold bump, getCounter. rewrite Hc. cbn [default]. by rewrite used_insert.
Qed.

Section CapProofs.
Context (date_of month_of : Z → list Z).

Notation allow := (Allow date_of month_of).

(** The effect of one call on the day's and the month's use of its device. *)
Lemma allow_used now ov t d sos l (key := scope t d) (c := capsFor t l) (r := allow now ov t d sos l)
  (sent := r.1.1 && metered now ov t d sos) :
  (0 < Daily c → used (daily r.2) key (date_of now) = used (daily l) key (date_of now) + Z.b2z sent ∧
    (sent = true → used (daily l) key (date_of now) < Daily c)) ∧
  (0 < Monthly c → used (monthly r.2) key (month_of now) = used (monthly l) key (month_of now) + Z.b2z sent ∧
    (sent = true → used (monthly l) key (month_of now) < Monthly c)).
Proof using.
  unfold sent, r, metered, Allow. fold key c. destruct sos; [simpl; lia|].
  destruct (isOverridden now t d ov); [simpl; lia|]. cbn [negb andb].
  pose proof (check_cap_used (Monthly c) key (month_of now) (monthly l)) as Hm.
  pose proof (check_cap_used (Daily c) key (date_of now) (daily l)) as Hd.
  destruct (check_cap (Monthly c) key (month_of now) (monthly l)) as [o m]. cbn [fst snd] in Hm.
  destruct o as [n|]; [simpl; split; intros Hc; [lia|destruct (Hm Hc); split; [lia|done]]|].
  cbn [set_monthly daily].
  destruct (check_cap (Daily c) key (date_of now) (daily l)) as [o2 m2]. cbn [fst snd] in Hd.
  destruct o2 as [n|].
  { simpl. split; intros Hc; [destruct (Hd Hc)|destruct (Hm Hc)]; (split; [lia|done]). }
  case_if; simpl.
  { split; intros Hc; [destruct (Hd Hc)|destruct (Hm Hc)]; (split; [lia|done]). }
  split; intros Hc.
  - destruct (Hd Hc) as [_ (Hlt & c0 & Hl & Hp & Hn)]; [done|]. split; [|done].
    rewrite (proj2 (Z.ltb_lt _ _) Hc). destruct (0 <? Monthly c); simpl; rewrite (bump_used _ _ _ c0); lia || done.
  - destruct (Hm Hc) as [_ (Hlt & c0 & Hl & Hp & Hn)]; [done|]. split; [|done].
    rewrite (proj2 (Z.ltb_lt _ _) Hc). destruct (0 <? Daily c); simpl; rewrite (bump_used _ _ _ c0); lia || done.
Qed.

(** One call of [Allow] with the overrides in force. *)
Record call := MkCall {
  cNow : Z;
  cOverrides : gmap (list Z) Z;
  cTenant : list Z;
  cDevice : list Z;
  cSOS : bool;
}.

Definition do_call (c : call) (l : DeviceLimiter) : bool * option alert * DeviceLimiter :=
  allow (cNow c) (cOverrides c) (cTenant c) (cDevice c) (cSOS c) l.

(** The number of metered sends of a device that a sequence of calls lets through. *)
Fixpoint sends (t d : list Z) (calls : list call) (l : DeviceLimiter) : Z :=
  match calls with
  | [] => 0
  | c :: calls =>
      let r := do_call c l in
      Z.b2z (r.1.1 && metered (cNow c) (cOverrides c) (cTenant c) (cDevice c) (cSOS c)
             && bool_decide (cTenant c = t ∧ cDevice c = d))
      + sends t d calls r.2
  end.

Definition call_ok (c : call) : Prop := bytes_ok (cTenant c) ∧ bytes_ok (cDevice c).

Lemma allow_config now ov t d sos l t' : capsFor t' (allow now ov t d sos l).2 = capsFor t' l.
Proof using.
  unfold Allow. destruct sos; [done|]. destruct (isOverridden now t d ov); [done|].
  destruct (check_cap _ _ (month_of now) (monthly l)) as [[n|] m]; [done|]. cbn [set_monthly daily].
  destruct (check_cap _ _ (date_of now) (daily l)) as [[n|] m2]; [done|].
  case_if; [done|]. by destruct (0 <? Daily _), (0 <? Monthly _).
Qed.

(** A call moves one device's use of the period [p] by what it lets through, below the
    cap, and no other device's. *)
Lemma call_used (field : DeviceLimiter → gmap (list Z) counter) (period_of : Z → list Z) (cap : Caps → Z)
  t d p c l (r := do_call c l)
  (sent := r.1.1 && metered (cNow c) (cOverrides c) (cTenant c) (cDevice c) (cSOS c)
           && bool_decide (cTenant c = t ∧ cDevice c = d)) :
  (field, period_of, cap) = (daily, date_of, Daily) ∨ (field, period_of, cap) = (monthly, month_of, Monthly) →
  bytes_ok t → bytes_ok d → call_ok c → period_of (cNow c) = p → 0 < cap (capsFor t l) →
  used (field r.2) (scope t d) p = used (field l) (scope t d) p + Z.b2z sent ∧
  (sent = true → used (field l) (scope t d) p < cap (capsFor t l)).
Proof using.
  intros Hf Ht Hd [Hct Hcd] Hp Hcap. unfold sent.
  destruct (decide (cTenant c = t ∧ cDevice c = d)) as [Heq|Hne].
  - rewrite bool_decide_true, andb_true_r by done. destruct Heq as [<- <-]. subst p.
    destruct (allow_used (cNow c) (cOverrides c) (cTenant c) (cDevice c) (cSOS c) l) as [Hday Hmonth].
    destruct Hf as [[= -> -> ->]|[= -> -> ->]]; auto.
  - rewrite bool_decide_false, andb_false_r by done. split; [|done].
    assert (Hk : scope t d ≠ scope (cTenant c) (cDevice c)).
    { intros [-> ->]%scope_inj; [by apply Hne|done..]. }
    destruct (allow_agree date_of month_of (cNow c) (cOverrides c) (cTenant c) (cDevice c) (cSOS c) l _ Hk)
      as (_ & _ & _ & _ & _ & _ & Hday & Hmonth).
    cbn [Z.b2z]. rewrite Z.add_0_r. apply used_agree.
    by destruct Hf as [[= -> -> ->]|[= -> -> ->]].
Qed.

Lemma sends_bound field period_of cap t d p calls l :
  (field, period_of, cap) = (daily, date_of, Daily) ∨ (field, period_of, cap) = (monthly, month_of, Monthly) →
  bytes_ok t → bytes_ok d → Forall (λ c, call_ok c ∧ period_of (cNow c) = p) calls → 0 < cap (capsFor t l) →
  sends t d calls l <= Z.max 0 (cap (capsFor t l) - used (field l) (scope t d) p).
Proof using.
  intros Hf Ht Hd Hcalls. revert l. induction Hcalls as [|c calls [Hc Hp] _ IH]; intros l Hcap; cbn [sends]; [lia|].
  destruct (call_used field period_of cap t d p c l Hf Ht Hd Hc Hp Hcap) as [Hu Hlt].
  assert (Hcfg : capsFor t (do_call c l).2 = capsFor t l) by apply allow_config.
  specialize (IH (do_call c l).2). rewrite Hcfg in IH. specialize (IH Hcap).
  destruct (_ && bool_decide _) eqn:Hs; cbn [Z.b2z] in *; [specialize (Hlt eq_refl)|]; lia.
Qed.

(** The send caps hold: over any sequence of calls within one day (one month), for
    any devices, with SOS messages and overrides in between, a device gets through at
    most what its tenant's daily (monthly) cap leaves of the period. *)
Theorem send_caps_respected t d p calls l :
  bytes_ok t → bytes_ok d → Forall call_ok calls →
  (0 < Daily (capsFor t l) → Forall (λ c, date_of (cNow c) = p) calls →
    sends t d calls l <= Z.max 0 (Daily (capsFor t l) - used (daily l) (scope t d) p)) ∧
  (0 < Monthly (capsFor t l) → Forall (λ c, month_of (cNow c) = p) calls →
    sends t d calls l <= Z.max 0 (Monthly (capsFor t l) - used (monthly l) (scope t d) p)).
Proof using.
  intros Ht Hd Hok. split; intros Hcap Hp.
  - apply (sends_bound daily date_of Daily); [by left|done|done| |done]. by apply Forall_and.
  - apply (sends_bound monthly month_of Monthly); [by right|done|done| |done]. by apply Forall_and.
Qed.

End CapProofs.

Definition sample_limiter : DeviceLimiter := NewDeviceLimiter (f64_of_Z 10) (f64_of_Z 1) 2 100.
Definition sample_call (t d : list Z) (sos : bool) : call := MkCall 5 ∅ t d sos.
Definition sample_calls : list call :=
  [sample_call [97] [98; 58; 99] false; sample_call [97; 58; 98] [99] false; sample_call [97] [98; 58; 99] true;
   sample_call [97] [98; 58; 99] false; sample_call [97] [98; 58; 99] false].

Lemma send_caps_respected_witness :
  sends (λ _, [1]) (λ _, [2]) [97] [98; 58; 99] sample_calls sample_limiter = 2 ∧
  sends (λ _, [1]) (λ _, [2]) [97] [98; 58; 99] sample_calls sample_limiter <= 2.
Proof.
  split; [vm_compute; reflexivity|].
  destruct (send_caps_respected (λ _, [1]) (λ _, [2]) [97] [98; 58; 99] [1] sample_calls sample_limiter) as [H _].
  - repeat constructor; vm_compute; congruence.
  - repeat constructor; vm_compute; congruence.
  - repeat constructor; vm_compute; congruence.
  - apply H; [reflexivity|]. repeat constructor.
Defined.

Lemma limiter_isolated_witness :
  isOverridden 6 [97; 58; 98] [99] (SetOverride 5 10 [97] [98; 58; 99] ∅) = false.
Proof.
  destruct (limiter_isolated (λ _, [1]) (λ _, [2]) 5 6 10 ∅ [97] [98; 58; 99] false [97; 58; 98] [99] false
              sample_limiter) as (_ & H & _).
  - repeat constructor; vm_compute; congruence.
  - repeat constructor; vm_compute; congruence.
  - repeat constructor; vm_compute; congruence.
  - repeat constructor; vm_compute; congruence.
  - congruence.
  - rewrite H. reflexivity.
Defined.

End RateLimit.
