(* ===== verification/Text.v ===== *)
(** Go's [strings.TrimSpace], [ToLower], [ToUpper], [Split] and [Join] on UTF-8 bytes.  [TrimSpace] knows every
    Unicode space; [ToLower] and [ToUpper] change ASCII letters and the characters whose image
    is ASCII, which is all that a comparison with an ASCII name can depend on. *)
From S2P Require Import Prelude.

Module Text.

(** The UTF-8 forms of the characters [unicode.IsSpace] accepts. *)
Definition spaces : list (list Z) :=
  [[9]; [10]; [11]; [12]; [13]; [32]; [194; 133]; [194; 160]; [225; 154; 128]]
  ++ ((λ b, [226; 128; b]) <$> [128; 129; 130; 131; 132; 133; 134; 135; 136; 137; 138; 168; 169; 175])
  ++ [[226; 129; 159]; [227; 128; 128]].

Definition strip_prefix (p l : list Z) : option (list Z) :=
  if decide (take (length p) l = p) then Some (drop (length p) l) else None.

(** Strips one of [ps] as often as one fits; a strip shortens the list, so its length is
    enough fuel. *)
Fixpoint strip (fuel : nat) (ps : list (list Z)) (l : list Z) : list Z :=
  match fuel with
  | O => l
  | S fuel =>
      match head (omap (λ p, strip_prefix p l) ps) with
      | Some rest => strip fuel ps rest
      | None => l
      end
  end.

Definition TrimSpace (l : list Z) : list Z :=
  let l := strip (length l) spaces l in
  reverse (strip (length l) (reverse <$> spaces) (reverse l)).

Definition lower (b : Z) : Z := if (65 <=? b) && (b <=? 90) then b + 32 else b.
Definition upper (b : Z) : Z := if (97 <=? b) && (b <=? 122) then b - 32 else b.

(** The dotted capital I and the Kelvin sign have ASCII lower cases. *)
Fixpoint ToLower (l : list Z) : list Z :=
  match l with
  | 196 :: 176 :: l => 105 :: ToLower l
  | 226 :: 132 :: 170 :: l => 107 :: ToLower l
  | b :: l => lower b :: ToLower l
  | [] => []
  end.

(** The dotless i and the long s have ASCII upper cases. *)
Fixpoint ToUpper (l : list Z) : list Z :=
  match l with
  | 196 :: 177 :: l => 73 :: ToUpper l
  | 197 :: 191 :: l => 83 :: ToUpper l
  | b :: l => upper b :: ToUpper l
  | [] => []
  end.


(** [strings.Split] and [strings.Join] with a separator of one byte. *)
Fixpoint split_on (sep : Z) (l : list Z) : list (list Z) :=
  match l with
  | [] => [[]]
  | c :: l =>
      if c =? sep then [] :: split_on sep l
      else match split_on sep l with p :: ps => (c :: p) :: ps | [] => [[c]] end
  end.

Fixpoint join_with (sep : Z) (ps : list (list Z)) : list Z :=
  match ps with
  | [] => []
  | [p] => p
  | p :: ps => p ++ [sep] ++ join_with sep ps
  end.

(** [strings.Join] with a separator of any length. *)
Fixpoint join_str (sep : list Z) (ps : list (list Z)) : list Z :=
  match ps with
  | [] => []
  | [p] => p
  | p :: ps => p ++ sep ++ join_str sep ps
  end.

Lemma split_on_nonempty sep l : split_on sep l ≠ [].
Proof. destruct l as [|c l]; [done|]. cbn. case_match; [done|]. by case_match. Qed.

Lemma join_split sep l : join_with sep (split_on sep l) = l.
Proof.
  induction l as [|c l IH]; [done|]. cbn [split_on]. destruct (Z.eqb_spec c sep) as [->|].
  - destruct (split_on sep l) as [|p ps] eqn:E; [by apply split_on_nonempty in E|]. cbn in *. by rewrite IH.
  - destruct (split_on sep l) as [|p ps] eqn:E; [by apply split_on_nonempty in E|].
    destruct ps; cbn in *; by rewrite IH.
Qed.

Lemma split_on_free sep l : sep ∉ l → split_on sep l = [l].
Proof.
  induction l as [|c l IH]; [done|]. rewrite not_elem_of_cons. intros [Hc Hl]. cbn.
  destruct (Z.eqb_spec c sep); [congruence|]. by rewrite IH.
Qed.

(** Splitting at a separator splits both sides. *)
Lemma split_on_app sep l k : split_on sep (l ++ sep :: k) = split_on sep l ++ split_on sep k.
Proof.
  induction l as [|c l IH]; cbn.
  - by rewrite Z.eqb_refl.
  - rewrite IH. case_match; [done|]. destruct (split_on sep l) as [|p ps] eqn:E; [by apply split_on_nonempty in E|]. done.
Qed.

End Text.
