(* ===== verification/Strconv.v ===== *)
(** Decimal numbers as Go reads and writes them ([strconv.FormatInt], [strconv.ParseInt] in base
    10), [strings.Cut], and money as text, [internal/invoiceninja/money.go]. *)
From S2P Require Import Prelude Text Hubmsg.

Module Strconv.
Import Text.

Notation bytes := (list Z).

Definition FormatInt (n : Z) : bytes := if n <? 0 then 45 :: Hubmsg.FormatInt (- n) else Hubmsg.FormatInt n.

Definition digit (b : Z) : bool := (48 <=? b) && (b <=? 57).

Definition value (acc : Z) (l : bytes) : Z := foldl (λ v b, v * 10 + (b - 48)) acc l.

(** [None] for a syntax or a range error. *)
Definition ParseInt (s : bytes) (bits : Z) : option Z :=
  let '(neg, s) := match s with 45 :: s => (true, s) | 43 :: s => (false, s) | _ => (false, s) end in
  if bool_decide (s = []) || negb (forallb digit s) then None
  else
    let n := value 0 s in
    let cutoff := 2 ^ (bits - 1) in
    if (neg : bool) then if cutoff <? n then None else Some (- n) else if cutoff <=? n then None else Some n.

(** [strings.Cut] at one byte. *)
Fixpoint Cut (sep : Z) (l : bytes) : option (bytes * bytes) :=
  match l with
  | [] => None
  | b :: l => if b =? sep then Some ([], l) else match Cut sep l with Some (x, y) => Some (b :: x, y) | None => None end
  end.

(** ** Reading back what was written *)

Lemma pretty_char_value x : (x < 10)%N → Z.of_N (Ascii.N_of_ascii (pretty_N_char x)) = 48 + Z.of_N x.
Proof.
  intros Hx. assert (∃ k : nat, x = N.of_nat k ∧ (k < 10)%nat) as (k & -> & Hk) by (exists (N.to_nat x); lia).
  do 10 (destruct k as [|k]; [done|]). lia.
Qed.

Lemma bytes_cons c s : bytes_of_string (String c s) = Z.of_N (Ascii.N_of_ascii c) :: bytes_of_string s.
Proof. done. Qed.

(** What is in front of [s] reads as [x]. *)
Lemma pretty_go_value x s : value 0 (bytes_of_string (pretty_N_go x s)) = value (Z.of_N x) (bytes_of_string s) ∧
  (forallb digit (bytes_of_string s) = true → forallb digit (bytes_of_string (pretty_N_go x s)) = true).
Proof.
  revert s. induction (N.lt_wf_0 x) as [x _ IH]; intros s.
  assert (x = 0 ∨ 0 < x)%N as [->|Hx] by lia; [by rewrite pretty_N_go_0|].
  rewrite pretty_N_go_step by done. pose proof (N.mod_lt x 10 ltac:(done)) as Hm.
  destruct (IH (x / 10)%N (N.div_lt x 10 Hx ltac:(done)) (String (pretty_N_char (x mod 10)) s)) as [IH1 IH2].
  rewrite bytes_cons, pretty_char_value in IH1, IH2 by done. split.
  - rewrite IH1. cbn. f_equal. pose proof (N.div_mod x 10 ltac:(done)) as Hd. lia.
  - intros Hs. apply IH2. cbn. rewrite Hs. unfold digit. apply andb_true_iff; split; [|done]. apply andb_true_iff.
    clear -Hm. revert Hm. generalize (x mod 10)%N. intros y Hy. split; apply Z.leb_le; lia.
Qed.

Lemma pretty_go_nonempty x s : bytes_of_string s ≠ [] → bytes_of_string (pretty_N_go x s) ≠ [].
Proof.
  revert s. induction (N.lt_wf_0 x) as [x _ IH]; intros s Hs.
  assert (x = 0 ∨ 0 < x)%N as [->|Hx] by lia; [by rewrite pretty_N_go_0|].
  rewrite pretty_N_go_step by done. apply IH; [apply N.div_lt; lia|done].
Qed.

Lemma pretty_digits x : let l := bytes_of_string (pretty x) in
  value 0 l = Z.of_N x ∧ forallb digit l = true ∧ l ≠ [].
Proof.
  cbn. unfold pretty, pretty_N. case_decide as E; [by subst|]. destruct (pretty_go_value x "") as [H1 H2].
  split; [done|]. split; [by apply H2|]. rewrite pretty_N_go_step by lia. by apply pretty_go_nonempty.
Qed.

Lemma FormatInt_digits n : 0 <= n → value 0 (Hubmsg.FormatInt n) = n ∧ forallb digit (Hubmsg.FormatInt n) = true ∧ Hubmsg.FormatInt n ≠ [].
Proof. intros Hn. destruct (pretty_digits (Z.to_N n)) as (H1 & H2 & H3). unfold Hubmsg.FormatInt. rewrite H1. split; [lia|done]. Qed.

(** Digits start with neither sign. *)
Lemma ParseInt_digits s bits : forallb digit s = true → s ≠ [] →
  ParseInt s bits = if 2 ^ (bits - 1) <=? value 0 s then None else Some (value 0 s).
Proof.
  intros Hd Hs. unfold ParseInt. destruct s as [|b s]; [done|].
  assert (digit b = true) as Hb by (cbn in Hd; by apply andb_true_iff in Hd as [? _]).
  assert (b ≠ 45 ∧ b ≠ 43) as [H1 H2] by (unfold digit in Hb; apply andb_true_iff in Hb as [?%Z.leb_le ?%Z.leb_le]; lia).
  assert ((match b :: s with 45 :: s => (true, s) | 43 :: s => (false, s) | _ => (false, b :: s) end) = (false, b :: s)) as ->.
  { destruct b as [|p|p]; try done. do 6 (destruct p as [p|p|]; try done). }
  rewrite Hd. done.
Qed.

Lemma ParseInt_FormatInt n bits : 0 <= n < 2 ^ (bits - 1) → ParseInt (Hubmsg.FormatInt n) bits = Some n.
Proof.
  intros Hn. destruct (FormatInt_digits n) as (H1 & H2 & H3); [lia|]. rewrite ParseInt_digits, H1 by done.
  by replace (2 ^ (bits - 1) <=? n) with false by (symmetry; apply Z.leb_gt; lia).
Qed.

Lemma Cut_app sep l k : sep ∉ l → Cut sep (l ++ sep :: k) = Some (l, k).
Proof.
  induction l as [|b l IH]; cbn; [by rewrite Z.eqb_refl|]. rewrite not_elem_of_cons. intros [Hb Hl].
  destruct (Z.eqb_spec b sep); [congruence|]. by rewrite IH.
Qed.

Lemma digits_free c l : forallb digit l = true → digit c = false → c ∉ l.
Proof. intros Hl Hc Hin. rewrite forallb_forall in Hl. rewrite (Hl c) in Hc; [done|by apply list_elem_of_In]. Qed.

(** ** [TrimSpace] of visible ASCII *)

Definition visible (b : Z) : bool := (33 <=? b) && (b <=? 126).

Lemma no_space_first ps b l : Forall (λ p, match p with c :: _ => visible c = false | [] => False end) ps →
  visible b = true → ∀ fuel, strip fuel ps (b :: l) = b :: l.
Proof.
  intros Hps Hb [|fuel]; [done|]. cbn. replace (head (omap (λ p, strip_prefix p (b :: l)) ps)) with (@None (list Z)); [done|].
  symmetry. induction Hps as [|p ps Hp _ IH]; [done|]. cbn. unfold strip_prefix at 1. destruct p as [|c p]; [done|].
  case_decide as E; [|done]. cbn in E. injection E as -> _. congruence.
Qed.

Lemma TrimSpace_visible l : forallb visible l = true → TrimSpace l = l.
Proof.
  intros Hl. unfold TrimSpace. destruct l as [|b l]; [done|].
  assert (Hstrip : ∀ ps b l, Forall (λ p, match p with c :: _ => visible c = false | [] => False end) ps →
    forallb visible (b :: l) = true → strip (length (b :: l)) ps (b :: l) = b :: l).
  { intros ps c k Hps Hk. apply no_space_first; [done|]. cbn in Hk. by apply andb_true_iff in Hk as [? _]. }
  rewrite Hstrip; [|repeat constructor|done].
  assert (forallb visible (reverse (b :: l)) = true) as Hr.
  { rewrite forallb_forall in Hl |- *. intros x Hx. apply Hl. apply list_elem_of_In. apply list_elem_of_In in Hx. by rewrite elem_of_reverse in Hx. }
  rewrite <- (length_reverse (b :: l)). destruct (reverse (b :: l)) as [|c k] eqn:E.
  { apply (f_equal reverse) in E. by rewrite reverse_involutive in E. }
  rewrite Hstrip; [|repeat constructor|done]. by rewrite <- E, reverse_involutive.
Qed.

(** ** Money *)

Definition minorUnits : Z := 100.

Definition TrimPrefix (p s : bytes) : bytes := default s (strip_prefix p s).

(** [amount.String]; the negation of an [int64] can wrap around. *)
Definition String_amount (a : Z) : bytes :=
  let '(v, sign) := if a <? 0 then (i64 (- a), str "-") else (a, []) in
  sign ++ FormatInt (Z.quot v minorUnits) ++ str "." ++ TrimPrefix (str "1") (FormatInt (minorUnits + Z.rem v minorUnits)).

Definition count (b : Z) (s : bytes) : nat := length (List.filter (λ x, x =? b) s).
Definition contains (b : Z) (s : bytes) : bool := existsb (λ x, x =? b) s.

(** [strings.Replace(s, ",", ".", 1)] *)
Fixpoint comma_to_dot (s : bytes) : bytes :=
  match s with [] => [] | b :: s => if b =? 44 then 46 :: s else b :: comma_to_dot s end.

(** The two digits after the point. *)
Definition cents_digits (frac : option bytes) : option bytes :=
  match frac with
  | None => Some (str "00")
  | Some [] => None
  | Some [d] => Some [d; 48]
  | Some [d; e] => Some [d; e]
  | _ => None
  end.

Definition ParseAmount (s : bytes) : option Z :=
  let s := TrimSpace s in
  if bool_decide (s = []) then None
  else
    let s := if (count 44 s =? 1)%nat && negb (contains 46 s) then comma_to_dot s else s in
    let neg := bool_decide (head s = Some 45) in
    let s := TrimPrefix (str "+") (TrimPrefix (str "-") s) in
    let '(whole, frac) := match Cut 46 s with Some (w, f) => (w, Some f) | None => (s, None) end in
    if bool_decide (whole = []) || existsb (λ b, contains b s) [44; 43; 45; 32] then None
    else
      frac ← cents_digits frac;
      w ← ParseInt whole 63;
      f ← ParseInt frac 32;
      let total := i64 (w * minorUnits + f) in
      Some (if neg then i64 (- total) else total).

(** The two digits [amount.String] writes after the point. *)
Lemma cents_written r : 0 <= r < 100 → let l := TrimPrefix (str "1") (FormatInt (minorUnits + r)) in
  cents_digits (Some l) = Some l ∧ forallb digit l = true ∧ ParseInt l 32 = Some r.
Proof.
  intros Hr. assert (∃ k : nat, r = Z.of_nat k ∧ (k < 100)%nat) as (k & -> & Hk) by (exists (Z.to_nat r); lia).
  do 100 (destruct k as [|k]; [by vm_compute|]). lia.
Qed.

Lemma digits_visible l : forallb digit l = true → forallb visible l = true.
Proof.
  rewrite !forallb_forall. intros Hl x Hx. specialize (Hl x Hx). unfold digit, visible in *.
  apply andb_true_iff in Hl as [?%Z.leb_le ?%Z.leb_le]. apply andb_true_iff. split; apply Z.leb_le; lia.
Qed.

Lemma contains_free b l : b ∉ l → contains b l = false.
Proof.
  intros Hl. apply not_true_iff_false. intros (x & Hx & E%Z.eqb_eq)%existsb_exists. subst x. by apply Hl, list_elem_of_In.
Qed.

Lemma TrimPrefix_other b c l : b ≠ c → TrimPrefix [b] (c :: l) = c :: l.
Proof. intros Hb. unfold TrimPrefix, strip_prefix. cbn. case_decide as E; [injection E; congruence|done]. Qed.

Lemma TrimPrefix_same b l : TrimPrefix [b] (b :: l) = l.
Proof. unfold TrimPrefix, strip_prefix. cbn. by rewrite decide_True. Qed.

Section Written.
Context (w c : bytes).
Hypothesis Hw : forallb digit w = true.
Hypothesis Hn : w ≠ [].
Hypothesis Hc : forallb digit c = true.

Notation s := (w ++ str "." ++ c).

Lemma written_free b : digit b = false → b ≠ 46 → b ∉ s.
Proof using Hw Hc.
  intros Hb H46 Hin. apply elem_of_app in Hin as [Hin|Hin]; [by eapply digits_free in Hin|].
  apply elem_of_cons in Hin as [->|Hin]; [done|]. by eapply digits_free in Hin.
Qed.

Lemma written_first : ∃ b l, s = b :: l ∧ digit b = true.
Proof using Hw Hn.
  destruct w as [|b l] eqn:E; [done|]. exists b, (l ++ str "." ++ c). split; [done|]. cbn in Hw. by apply andb_true_iff in Hw as [? _].
Qed.

Lemma written_visible : forallb visible s = true.
Proof using Hw Hc. by rewrite !forallb_app, (digits_visible w Hw), (digits_visible c Hc). Qed.

Lemma written_unsigned : TrimPrefix (str "+") (TrimPrefix (str "-") s) = s.
Proof using Hw Hn.
  destruct written_first as (b & l & -> & Hb). unfold digit in Hb. apply andb_true_iff in Hb as [?%Z.leb_le _].
  change (str "-") with [45]. change (str "+") with [43]. by rewrite !TrimPrefix_other by lia.
Qed.

Lemma written_cut : Cut 46 s = Some (w, c).
Proof using Hw. apply (Cut_app 46 w c). by eapply digits_free. Qed.

Lemma written_plain : existsb (λ b, contains b s) [44; 43; 45; 32] = false.
Proof using Hw Hc. cbn. rewrite !contains_free; [done|by apply written_free..]. Qed.

End Written.

Lemma no_commas s : 44 ∉ s → (count 44 s =? 1)%nat = false.
Proof.
  intros Hs. unfold count. replace (List.filter (λ x, x =? 44) s) with (@nil Z); [done|]. symmetry.
  induction s as [|x s IH]; [done|]. rewrite not_elem_of_cons in Hs. destruct Hs as [Hx Hs].
  cbn. destruct (Z.eqb_spec x 44); [congruence|]. by apply IH.
Qed.

(** What [ParseAmount] makes of an amount that [String] wrote without its sign. *)
Lemma parse_written v : 0 <= v < 2 ^ 63 →
  ∃ w c, FormatInt (Z.quot v minorUnits) = w ∧ TrimPrefix (str "1") (FormatInt (minorUnits + Z.rem v minorUnits)) = c ∧
    forallb digit w = true ∧ w ≠ [] ∧ forallb digit c = true ∧ cents_digits (Some c) = Some c ∧
    ∃ q r, ParseInt w 63 = Some q ∧ ParseInt c 32 = Some r ∧ q * minorUnits + r = v.
Proof.
  intros Hv. rewrite Z.quot_div_nonneg, Z.rem_mod_nonneg by (unfold minorUnits; lia).
  assert (0 <= v / minorUnits < 2 ^ 62) as Hq by (unfold minorUnits; split; [apply Z.div_pos; lia|apply Z.div_lt_upper_bound; lia]).
  assert (0 <= v mod minorUnits < 100) as Hr by (apply Z.mod_pos_bound; done).
  destruct (cents_written _ Hr) as (C1 & C2 & C3). destruct (FormatInt_digits (v / minorUnits)) as (F1 & F2 & F3); [lia|].
  assert (FormatInt (v / minorUnits) = Hubmsg.FormatInt (v / minorUnits)) as ->.
  { unfold FormatInt. by replace (v / minorUnits <? 0) with false by (symmetry; apply Z.ltb_ge; lia). }
  eexists _, _. do 6 (split; [done|]). exists (v / minorUnits), (v mod minorUnits).
  split; [apply ParseInt_FormatInt; done|]. split; [done|]. pose proof (Z.div_mod v minorUnits ltac:(done)). lia.
Qed.

(** Every amount is read back as it was written. *)
Theorem amount_round_trip v : - 2 ^ 63 < v < 2 ^ 63 → ParseAmount (String_amount v) = Some v.
Proof.
  intros Hv. unfold String_amount. destruct (Z.ltb_spec v 0) as [Hneg|Hpos].
  - rewrite i64_id by lia. destruct (parse_written (- v)) as (w & c & -> & -> & Hw & Hn & Hc & Hcd & q & r & Eq & Er & Ev); [lia|].
    unfold ParseAmount. rewrite TrimSpace_visible by (rewrite forallb_app, written_visible; done).
    rewrite bool_decide_false by done.
    rewrite no_commas by (change (str "-" ++ ?l) with (45 :: l); rewrite not_elem_of_cons; split; [done|by apply written_free]).
    cbn [andb]. change (str "-" ++ ?l) with (45 :: l). change (str "-") with [45]. rewrite TrimPrefix_same.
    destruct (written_first w c Hw Hn) as (b & l & E & Hb).
    assert (TrimPrefix (str "+") (w ++ str "." ++ c) = w ++ str "." ++ c) as ->.
    { rewrite E. change (str "+") with [43]. apply TrimPrefix_other. unfold digit in Hb. apply andb_true_iff in Hb as [?%Z.leb_le _]. lia. }
    rewrite written_cut by done. rewrite bool_decide_false, written_plain by done. cbn [orb]. rewrite Hcd. cbn. rewrite Eq. cbn. rewrite Er. cbn.
    rewrite Ev, (i64_id (- v)), i64_id, bool_decide_true by (done || lia). f_equal. lia.
  - destruct (parse_written v) as (w & c & -> & -> & Hw & Hn & Hc & Hcd & q & r & Eq & Er & Ev); [lia|].
    unfold ParseAmount. cbn [app]. rewrite TrimSpace_visible by (by rewrite written_visible).
    destruct (written_first w c Hw Hn) as (b & l & E & Hb).
    rewrite bool_decide_false by (by rewrite E). rewrite no_commas by (by apply written_free). cbn [andb].
    assert (head (w ++ str "." ++ c) ≠ Some 45) as Hh by (rewrite E; cbn; by intros [= ->]).
    rewrite (bool_decide_false _ Hh), written_unsigned, written_cut by done.
    rewrite bool_decide_false, written_plain by done. cbn [orb].
    rewrite Hcd. cbn. rewrite Eq. cbn. rewrite Er. cbn. by rewrite Ev, i64_id by lia.
Qed.

Lemma amount_round_trip_witness : ParseAmount (String_amount (- 905)) = Some (- 905).
Proof. apply (amount_round_trip (- 905)). lia. Defined.

(** An amount too large for its type comes out negative. *)
Theorem amount_wraps : ParseAmount (str "92233720368547758.08") = Some (- 2 ^ 63).
Proof. by vm_compute. Qed.

End Strconv.
