(* ===== verification/Plans.v ===== *)
(** The plan table of [internal/plans/plans.go] and the registration gate of
    [internal/quota/quota.go].  The package-level table is explicit state.  What the store
    counts and the plan lookup are arguments. *)
From S2P Require Import Prelude Text.

Module Plans.
Import Text.

Definition Free : list Z := str "free".
Definition Crew : list Z := str "crew".
Definition Fleet : list Z := str "fleet".
Definition Custom : list Z := str "custom".
Definition Beta : list Z := str "beta".

Definition Unlimited : Z := -1.

Record Limits := MkLimits { Devices : Z; TAKUsers : Z; DailyCap : Z; MonthlyCap : Z }.

Notation table := (gmap (list Z) Limits).

Definition defaults : table :=
  <[Free := MkLimits 4 4 0 0]> (<[Crew := MkLimits 24 12 0 0]> (<[Fleet := MkLimits 100 40 0 0]>
    (<[Custom := MkLimits Unlimited 100 0 0]> (<[Beta := MkLimits Unlimited 100 0 0]> ∅)))).

Definition Normalise (plan : list Z) : list Z :=
  let p := ToLower (TrimSpace plan) in
  if decide (p = []) then Free else p.

Definition SetSendCaps (plan : list Z) (daily monthly : Z) (tbl : table) : table * bool :=
  let plan := Normalise plan in
  match tbl !! plan with
  | None => (tbl, false)
  | Some l =>
      (<[plan := MkLimits (Devices l) (TAKUsers l) (if 0 <? daily then daily else DailyCap l)
                   (if 0 <? monthly then monthly else MonthlyCap l)]> tbl, true)
  end.

Definition SetLimit (plan : list Z) (devices : Z) (tbl : table) : table * bool :=
  let plan := Normalise plan in
  match tbl !! plan with
  | None => (tbl, false)
  | Some l => (<[plan := MkLimits devices (TAKUsers l) (DailyCap l) (MonthlyCap l)]> tbl, true)
  end.

Definition SetTAKUserLimit (plan : list Z) (takUsers : Z) (tbl : table) : table * bool :=
  let plan := Normalise plan in
  match tbl !! plan with
  | None => (tbl, false)
  | Some l => (<[plan := MkLimits (Devices l) takUsers (DailyCap l) (MonthlyCap l)]> tbl, true)
  end.

Definition Known (plan : list Z) (tbl : table) : bool := is_some (tbl !! Normalise plan).

Definition zero_limits : Limits := MkLimits 0 0 0 0.

(** A missing map entry reads as the zero value. *)
Definition For (plan : list Z) (tbl : table) : Limits :=
  match tbl !! Normalise plan with
  | Some l => l
  | None => default zero_limits (tbl !! Free)
  end.

Definition SendCaps (plan : list Z) (floorDaily floorMonthly : Z) (tbl : table) : Z * Z :=
  let l := For plan tbl in
  (if DailyCap l <? floorDaily then floorDaily else DailyCap l,
   if MonthlyCap l <? floorMonthly then floorMonthly else MonthlyCap l).

Definition AllowsAnother (plan : list Z) (current : Z) (tbl : table) : bool :=
  let l := For plan tbl in (Devices l =? Unlimited) || (current <? Devices l).

Definition AllowsAnotherTAKUser (plan : list Z) (current : Z) (tbl : table) : bool :=
  let l := For plan tbl in (TAKUsers l =? Unlimited) || (current <? TAKUsers l).

(** ** The table *)

(** The start-up configuration: the setters, in any order. *)
Inductive setting :=
| PlanDeviceLimit (plan : list Z) (devices : Z)
| PlanSendCap (plan : list Z) (daily monthly : Z)
| PlanTAKUserLimit (plan : list Z) (takUsers : Z).

Definition apply_setting (s : setting) (tbl : table) : table * bool :=
  match s with
  | PlanDeviceLimit p n => SetLimit p n tbl
  | PlanSendCap p d m => SetSendCaps p d m tbl
  | PlanTAKUserLimit p n => SetTAKUserLimit p n tbl
  end.

Definition setting_plan (s : setting) : list Z :=
  match s with PlanDeviceLimit p _ | PlanSendCap p _ _ | PlanTAKUserLimit p _ => p end.

Definition configured (ss : list setting) : table := foldl (λ t s, fst (apply_setting s t)) defaults ss.

(** The well-formed tables: exactly the five plans, with send caps that are not negative. *)
Definition table_ok (tbl : table) : Prop :=
  (dom tbl : gset (list Z)) = dom defaults ∧ map_Forall (λ _ l, 0 <= DailyCap l ∧ 0 <= MonthlyCap l) tbl.

(** Fields a setting leaves alone. *)
Definition keeps (s : setting) (l l' : Limits) : Prop :=
  match s with
  | PlanDeviceLimit _ n => l' = MkLimits n (TAKUsers l) (DailyCap l) (MonthlyCap l)
  | PlanTAKUserLimit _ n => l' = MkLimits (Devices l) n (DailyCap l) (MonthlyCap l)
  | PlanSendCap _ _ _ => Devices l' = Devices l ∧ TAKUsers l' = TAKUsers l
  end.

Lemma defaults_ok : table_ok defaults.
Proof.
  split; [done|]. unfold defaults. repeat apply map_Forall_insert_2; try (cbn; lia). apply map_Forall_empty.
Qed.

Lemma setting_step s tbl : table_ok tbl →
  match tbl !! Normalise (setting_plan s) with
  | None => apply_setting s tbl = (tbl, false)
  | Some l => ∃ l', apply_setting s tbl = (<[Normalise (setting_plan s) := l']> tbl, true) ∧ keeps s l l'
                ∧ 0 <= DailyCap l' ∧ 0 <= MonthlyCap l'
  end.
Proof.
  intros [_ Hall]. destruct s as [p n|p d m|p n]; cbn; unfold SetLimit, SetSendCaps, SetTAKUserLimit;
    destruct (tbl !! Normalise p) as [l|] eqn:E; try done; destruct (Hall _ _ E) as [Hd Hm];
    eexists; (split; [done|]); cbn; (split; [done|]); [lia| |lia].
  split; case_if; zbool; lia.
Qed.

Lemma setting_ok s tbl : table_ok tbl → table_ok (fst (apply_setting s tbl)).
Proof.
  intros Hok. pose proof (setting_step s tbl Hok) as H.
  destruct (tbl !! Normalise (setting_plan s)) as [l|] eqn:E; [|by rewrite H].
  destruct H as (l' & -> & _ & Hl'). destruct Hok as [Hd Hall]. split; cbn [fst].
  - apply elem_of_dom_2 in E. rewrite dom_insert_L, <- Hd. set_solver.
  - by apply map_Forall_insert_2.
Qed.

Lemma configured_ok ss : table_ok (configured ss).
Proof.
  unfold configured. generalize defaults_ok. generalize defaults as tbl.
  induction ss as [|s ss IH]; intros tbl Hok; [done|]. cbn. by apply IH, setting_ok.
Qed.

(** The plan table keeps its type through every configuration: it holds exactly the five
    plans with non-negative send caps; a setting of an unknown plan is refused and changes
    nothing; a setting of a known plan changes that plan only, and in it only the meter it
    is for; and an unknown plan is treated as the free one. *)
Theorem plan_table_typed ss s (tbl := configured ss) :
  table_ok tbl
  ∧ (if Known (setting_plan s) tbl
     then ∃ l l', tbl !! Normalise (setting_plan s) = Some l ∧ keeps s l l'
            ∧ apply_setting s tbl = (<[Normalise (setting_plan s) := l']> tbl, true)
     else apply_setting s tbl = (tbl, false))
  ∧ ∀ plan, Known plan tbl = false → Some (For plan tbl) = tbl !! Free.
Proof.
  pose proof (configured_ok ss) as Hok. fold tbl in Hok. split; [done|]. split.
  - pose proof (setting_step s tbl Hok) as H. unfold Known.
    destruct (tbl !! Normalise (setting_plan s)) as [l|] eqn:E; [|done].
    destruct H as (l' & H1 & H2 & _). by exists l, l'.
  - intros plan. unfold Known, For. destruct (tbl !! Normalise plan); [done|]. intros _.
    assert (is_Some (tbl !! Free)) as [l ->]; [|done].
    apply elem_of_dom. rewrite (proj1 Hok). apply elem_of_dom. by eexists.
Qed.

End Plans.

Module Quota.
Import Plans.

(** What a [Checker] reaches: nothing without a store; no plan lookup without one.  The
    answers are those for the tenant asked about, [None] for an error. *)
Record Checker := MkChecker {
  has_store : bool;
  plan : option (option (list Z));
  CountBillableDevices : option Z;
  CountBridges : option Z;
  CountTAKUsers : option Z;
}.

Record Usage := MkUsage {
  uPlan : list Z;
  uDevices : Z;
  uBridges : Z;
  Used : Z;
  Limit : Z;
  Remaining : Z;
  OverLimit : bool;
}.

Record TAKUsage := MkTAKUsage {
  tPlan : list Z;
  Users : Z;
  tLimit : Z;
  tRemaining : Z;
  tOverLimit : bool;
}.

(** The plan a report is made for: free unless a lookup says otherwise. *)
Definition report_plan (q : Checker) : option (list Z) :=
  match plan q with
  | None => Some Free
  | Some None => None
  | Some (Some p) => Some (Normalise p)
  end.

(** The standing against a ceiling: remaining and over. *)
Definition standing (limit used : Z) : Z * bool :=
  if limit =? Unlimited then (Unlimited, false)
  else if 0 <? limit - used then (limit - used, false) else (0, limit <? used).

(** The report and whether an error came with it. *)
Definition usage (q : Checker) (tbl : table) : Usage * bool :=
  let u := MkUsage Free 0 0 0 Unlimited Unlimited false in
  if negb (has_store q) then (u, false)
  else
    match report_plan q with
    | None => (u, true)
    | Some p =>
        let u := MkUsage p 0 0 0 Unlimited Unlimited false in
        match CountBillableDevices q, CountBridges q with
        | Some devices, Some bridges =>
            let limit := Devices (For p tbl) in
            let '(remaining, over) := standing limit (devices + bridges) in
            (MkUsage p devices bridges (devices + bridges) limit remaining over, false)
        | _, _ => (u, true)
        end
    end.

Definition tak_usage (q : Checker) (tbl : table) : TAKUsage * bool :=
  let u := MkTAKUsage Free 0 Unlimited Unlimited false in
  if negb (has_store q) then (u, false)
  else
    match report_plan q with
    | None => (u, true)
    | Some p =>
        match CountTAKUsers q with
        | Some n =>
            let limit := TAKUsers (For p tbl) in
            let '(remaining, over) := standing limit n in
            (MkTAKUsage p n limit remaining over, false)
        | None => (MkTAKUsage p 0 Unlimited Unlimited false, true)
        end
    end.

(** [%d] *)
Definition show (n : Z) : list Z := bytes_of_string (pretty n).

Definition AllowAnother (q : Checker) (tbl : table) : bool * list Z :=
  if negb (has_store q) then (true, [])
  else
    let '(u, err) := usage q tbl in
    if err then (true, [])
    else if AllowsAnother (uPlan u) (Used u) tbl then (true, [])
    else (false, str "the " ++ uPlan u ++ str " plan covers " ++ show (Limit u)
                 ++ str " devices and bridges together, and you have " ++ show (Used u)
                 ++ str ". Remove one, or move up a plan to add more.").

Definition AllowsTAKUser (q : Checker) (tbl : table) : bool * list Z :=
  if negb (has_store q) then (true, [])
  else
    let '(u, err) := tak_usage q tbl in
    if err then (true, [])
    else if AllowsAnotherTAKUser (tPlan u) (Users u) tbl then (true, [])
    else (false, str "the " ++ tPlan u ++ str " plan covers " ++ show (tLimit u)
                 ++ str " TAK accounts and you have " ++ show (Users u)
                 ++ str ". Remove one, or move up a plan to add more.").

(** A count succeeded against a known plan. *)
Definition metered (q : Checker) (used limit : Z) (tbl : table) : Prop :=
  ∃ p d b, has_store q = true ∧ report_plan q = Some p ∧ CountBillableDevices q = Some d
    ∧ CountBridges q = Some b ∧ used = d + b ∧ limit = Devices (For p tbl).

Lemma standing_spec limit used : limit ≠ Unlimited →
  standing limit used = (Z.max 0 (limit - used), limit <? used).
Proof.
  intros Hl. unfold standing. case_if; zbool; [done|]. case_if; zbool.
  - rewrite Z.max_r by lia. f_equal. symmetry. apply Z.ltb_ge. lia.
  - by rewrite Z.max_l by lia.
Qed.

(** The registration gate refuses exactly the tenants that are at their ceiling: it says no
    only when the plan and both counts could be read, the plan has a ceiling and devices plus
    bridges have reached it; any failure to read lets the registration pass.  The report says
    the same: nothing remains exactly when the gate is shut, what remains is never negative,
    and over means more than the ceiling. *)
Theorem quota_gate_exact q tbl :
  ((AllowAnother q tbl).1 = false ↔
     ∃ used limit, metered q used limit tbl ∧ limit ≠ Unlimited ∧ limit <= used)
  ∧ ∀ used limit, metered q used limit tbl →
      let u := (usage q tbl).1 in
      (usage q tbl).2 = false ∧ Used u = used ∧ Limit u = limit
      ∧ (Remaining u = 0 ↔ (AllowAnother q tbl).1 = false)
      ∧ (limit ≠ Unlimited → 0 <= Remaining u ∧ Remaining u = Z.max 0 (limit - used)
                             ∧ (OverLimit u = true ↔ limit < used)).
Proof.
  assert (Hm : ∀ used limit, metered q used limit tbl →
    (∃ p d b, usage q tbl = (MkUsage p d b used limit (standing limit used).1 (standing limit used).2, false))
    ∧ (AllowAnother q tbl).1 = (limit =? Unlimited) || (used <? limit)).
  { intros used limit (p & d & b & Hs & Hp & Hd & Hb & -> & ->).
    unfold AllowAnother, usage. rewrite Hs, Hp, Hd, Hb. cbn -[For standing].
    destruct (standing (Devices (For p tbl)) (d + b)) as [r o]. split; [by eexists _, _, _|].
    cbn -[For]. unfold AllowsAnother. by destruct (_ || _). }
  split.
  - split.
    + intros H. assert (∃ used limit, metered q used limit tbl) as (used & limit & HM).
      { unfold AllowAnother, usage, metered in *. destruct (has_store q); [|done]. cbn -[For standing] in H.
        destruct (report_plan q) as [p|]; [|done]. destruct (CountBillableDevices q) as [d|]; [|done].
        destruct (CountBridges q) as [b|]; [|done]. by exists (d + b), (Devices (For p tbl)), p, d, b. }
      exists used, limit. destruct (Hm used limit HM) as [_ Ha]. rewrite Ha in H. split; [done|].
      apply orb_false_iff in H as [H1%Z.eqb_neq H2%Z.ltb_ge]. done.
    + intros (used & limit & HM & Hne & Hle). destruct (Hm used limit HM) as [_ ->].
      apply orb_false_iff. split; [by apply Z.eqb_neq|by apply Z.ltb_ge].
  - intros used limit HM. destruct (Hm used limit HM) as [(p & d & b & ->) ->]. cbn -[standing].
    split; [done|]. split; [done|]. split; [done|]. split.
    + destruct (decide (limit = Unlimited)) as [->|Hne]; [done|]. rewrite standing_spec by done. cbn.
      rewrite orb_false_iff, Z.eqb_neq, Z.ltb_ge. lia.
    + intros Hne. rewrite standing_spec by done. cbn. rewrite Z.ltb_lt. lia.
Qed.

(** ** Witnesses *)

Lemma plan_table_typed_witness :
  Some (For (str "gold") (configured [PlanDeviceLimit (str " FREE ") 9])) = Some (MkLimits 9 4 0 0).
Proof.
  destruct (plan_table_typed [PlanDeviceLimit (str " FREE ") 9] (PlanTAKUserLimit (str "gold") 3)) as (_ & _ & H).
  etransitivity; [apply (H (str "gold")); vm_compute; reflexivity|vm_compute; reflexivity].
Defined.

Definition sample_checker : Checker := MkChecker true (Some (Some (str "crew"))) (Some 20) (Some 5) (Some 1).

Lemma quota_gate_exact_witness :
  metered sample_checker 25 24 defaults ∧ Remaining (usage sample_checker defaults).1 = 0.
Proof.
  assert (HM : metered sample_checker 25 24 defaults).
  { exists (str "crew"), 20, 5. split_and!; vm_compute; reflexivity. }
  split; [exact HM|].
  destruct (proj2 (quota_gate_exact sample_checker defaults) 25 24 HM) as (_ & _ & _ & Hr & _).
  apply Hr. vm_compute. reflexivity.
Defined.

End Quota.
