(* ===== verification/Budget.v ===== *)
(** The send budget around the limiter: the usage reports of [internal/ratelimit/limiter.go]
    and the cached per-tenant caps of [internal/ratelimit/caps.go], on top of [RateLimit] and
    the plan table of [Plans].  The store's tenant lookup is an argument ([None] for an error
    or no row).  A nil resolver or store is an option. *)
From S2P Require Import Prelude Float64 RateLimit Plans.

Module Budget.
Import Float64 RateLimit.

(** ** Usage reports *)

Record DeviceUsage := MkUsage {
  DeviceID : list Z;
  TokensLeft : float64;
  MaxTokens : float64;
  DailySent : Z;
  DailyCap : Z;
  MonthlySent : Z;
  MonthlyCap : Z;
  isThrottled : bool;
  OverrideUntil : option Z;
}.

Section Usage.
Context (date_of month_of : Z → list Z).

(** [throttled] of [Usage] and [AllUsage]. *)
Definition throttled (b : tokenBucket) (c : Caps) (dc mc : counter) : bool :=
  f64_ltb (tokens b) (f64_of_Z 1)
  || ((0 <? Daily c) && (Daily c <=? count dc)) || ((0 <? Monthly c) && (Monthly c <=? count mc)).

(** The refilled bucket and rolled counters of a device, which a report stores back. *)
Definition current (now : Z) (tenantID deviceID : list Z) (l : DeviceLimiter) : tokenBucket * counter * counter :=
  let key := scope tenantID deviceID in
  (refill now (getBucket now tenantID deviceID l),
   roll (date_of now) (getCounter (daily l) key (date_of now)),
   roll (month_of now) (getCounter (monthly l) key (month_of now))).

Definition store_back (tenantID deviceID : list Z) (cur : tokenBucket * counter * counter) (l : DeviceLimiter) : DeviceLimiter :=
  let key := scope tenantID deviceID in
  let '(b, dc, mc) := cur in
  set_monthly (<[key := mc]> (monthly l)) (set_daily (<[key := dc]> (daily l)) (set_buckets (<[key := b]> (buckets l)) l)).

Definition report (deviceID : list Z) (c : Caps) (cur : tokenBucket * counter * counter) (until : option Z) : DeviceUsage :=
  let '(b, dc, mc) := cur in
  MkUsage deviceID (tokens b) (bMaxTokens b) (count dc) (Daily c) (count mc) (Monthly c) (throttled b c dc mc) until.

Definition Usage (now : Z) (overrides : gmap (list Z) Z) (tenantID deviceID : list Z) (l : DeviceLimiter) : DeviceUsage * DeviceLimiter :=
  let cur := current now tenantID deviceID l in
  let until := match overrides !! scope tenantID deviceID with
               | Some exp => if now <? exp then Some exp else None
               | None => None
               end in
  (report deviceID (capsFor tenantID l) cur until, store_back tenantID deviceID cur l).

(** The range over the buckets, in some order. *)
Definition AllUsage (now : Z) (tenantID : list Z) (l : DeviceLimiter) : list DeviceUsage * DeviceLimiter :=
  let c := capsFor tenantID l in
  foldl (λ acc kb,
    if decide (bTenantID (snd kb) = tenantID) then
      let id := bDeviceID (snd kb) in
      let cur := current now tenantID id (snd acc) in
      (fst acc ++ [report id c cur None], store_back tenantID id cur (snd acc))
    else acc) ([], l) (map_to_list (buckets l)).

Lemma check_cap_denies cap key p m :
  is_some (check_cap cap key p m).1 = (0 <? cap) && (cap <=? count (roll p (getCounter m key p))).
Proof using. unfold check_cap. by destruct (0 <? cap); cbn; [case_if|]. Qed.

(** The usage report tells what the limiter will do: a device without an exemption is
    reported as throttled exactly when a send of it would be refused at that moment, and the
    counts reported are those the caps are checked against. *)
Theorem usage_predicts_allow now overrides t d l :
  isOverridden now t d overrides = false →
  let u := (Usage now overrides t d l).1 in
  isThrottled u = negb (Allow date_of month_of now overrides t d false l).1.1
  ∧ OverrideUntil u = None ∧ DailyCap u = Daily (capsFor t l) ∧ MonthlyCap u = Monthly (capsFor t l)
  ∧ DailySent u = used (daily l) (scope t d) (date_of now)
  ∧ MonthlySent u = used (monthly l) (scope t d) (month_of now).
Proof using.
  intros Ho. cbn zeta. split.
  - unfold Usage, report, current, Allow, throttled. rewrite Ho. cbn -[check_cap getBucket refill capsFor].
    pose proof (check_cap_denies (Monthly (capsFor t l)) (scope t d) (month_of now) (monthly l)) as Hm.
    pose proof (check_cap_denies (Daily (capsFor t l)) (scope t d) (date_of now) (daily l)) as Hd.
    rewrite <- Hm, <- Hd. destruct (check_cap (Monthly _) _ _ _) as [[n|] m]; cbn -[check_cap getBucket refill capsFor].
    { by rewrite orb_true_r. }
    destruct (check_cap (Daily _) _ _ _) as [[n|] m']; cbn -[getBucket refill capsFor].
    { by rewrite orb_true_r. }
    rewrite !orb_false_r.
    change (getBucket now t d (set_daily m' (set_monthly m l))) with (getBucket now t d l).
    by destruct (f64_ltb _ _).
  - split; [|done]. unfold Usage, report, current. cbn. unfold isOverridden in Ho.
    destruct (overrides !! scope t d); [by rewrite Ho|done].
Qed.

End Usage.

(** ** The tenant's caps *)

Record Tenant := MkTenant { Plan : list Z; RatelimitDailyCap : Z; RatelimitMonthlyCap : Z }.

Record capEntry := MkEntry { eCaps : Caps; at_ : Z }.

Record PlanCaps := MkPlanCaps {
  floorDaily : Z;
  floorMonthly : Z;
  ttl : Z;
  cache : gmap (list Z) capEntry;
}.

Definition NewPlanCaps (fd fm ttl : Z) : PlanCaps :=
  MkPlanCaps fd fm (if ttl <=? 0 then 30000000000 else ttl) ∅.

Notation tenant_lookup := (option (list Z → option Tenant)).

Definition lookup (st : tenant_lookup) (tbl : gmap (list Z) Plans.Limits) (tenantID : list Z) (p : PlanCaps) : Caps :=
  let floor := MkCaps (floorDaily p) (floorMonthly p) in
  match st with
  | None => floor
  | Some GetTenant =>
      match GetTenant tenantID with
      | None => floor
      | Some t =>
          let '(daily, monthly) := Plans.SendCaps (Plan t) (floorDaily p) (floorMonthly p) tbl in
          MkCaps (if 0 <? RatelimitDailyCap t then RatelimitDailyCap t else daily)
            (if 0 <? RatelimitMonthlyCap t then RatelimitMonthlyCap t else monthly)
      end
  end.

Definition Resolve (st : tenant_lookup) (tbl : gmap (list Z) Plans.Limits) (now : Z) (tenantID : list Z) (p : PlanCaps) : Caps * PlanCaps :=
  if decide (tenantID = []) then (MkCaps 0 0, p)
  else
    let caps := lookup st tbl tenantID p in
    let fresh := (caps, MkPlanCaps (floorDaily p) (floorMonthly p) (ttl p)
                          (<[tenantID := MkEntry caps now]> (cache p))) in
    match cache p !! tenantID with
    | Some e => if now - at_ e <? ttl p then (eCaps e, p) else fresh
    | None => fresh
    end.

Definition ForgetTenant (tenantID : list Z) (p : PlanCaps) : PlanCaps :=
  if decide (tenantID = []) then p
  else MkPlanCaps (floorDaily p) (floorMonthly p) (ttl p) (delete tenantID (cache p)).

(** The caps the limiter applies with the resolver installed. *)
Definition caps_in_force (st : tenant_lookup) (tbl : gmap (list Z) Plans.Limits) (now : Z) (p : PlanCaps) (tenantID : list Z) (l : DeviceLimiter) : Caps :=
  capsFor tenantID (SetCapResolver (λ t, (Resolve st tbl now t p).1) l).

(** What happens to the cache: a resolution, against the store of the moment, or a change of a
    tenant announced. *)
Inductive event :=
| EResolve (st : tenant_lookup) (now : Z) (tenantID : list Z)
| EForget (tenantID : list Z).

Definition handle (tbl : gmap (list Z) Plans.Limits) (e : event) (p : PlanCaps) : PlanCaps :=
  match e with
  | EResolve st now t => (Resolve st tbl now t p).2
  | EForget t => ForgetTenant t p
  end.

Definition handle_all (tbl : gmap (list Z) Plans.Limits) (es : list event) (p : PlanCaps) : PlanCaps :=
  foldl (λ p e, handle tbl e p) p es.

(** A cached answer was looked up by a resolution, and nothing was announced since. *)
Definition cached_from (tbl : gmap (list Z) Plans.Limits) (p0 : PlanCaps) (es : list event) (t : list Z) (e : capEntry) : Prop :=
  t ≠ [] ∧ ∃ es1 st es2, es = es1 ++ EResolve st (at_ e) t :: es2 ∧ eCaps e = lookup st tbl t p0 ∧ EForget t ∉ es2.

Lemma lookup_config st tbl t p q : floorDaily p = floorDaily q → floorMonthly p = floorMonthly q →
  lookup st tbl t p = lookup st tbl t q.
Proof. unfold lookup. by intros -> ->. Qed.

Lemma handle_config tbl e p : floorDaily (handle tbl e p) = floorDaily p
  ∧ floorMonthly (handle tbl e p) = floorMonthly p ∧ ttl (handle tbl e p) = ttl p.
Proof.
  destruct e as [st now t|t]; cbn; unfold Resolve, ForgetTenant; repeat case_match; done.
Qed.

Lemma cache_provenance tbl p0 es : cache p0 = ∅ →
  let p := handle_all tbl es p0 in
  floorDaily p = floorDaily p0 ∧ floorMonthly p = floorMonthly p0 ∧ ttl p = ttl p0
  ∧ ∀ t e, cache p !! t = Some e → cached_from tbl p0 es t e.
Proof.
  intros H0. induction es as [|ev es IH] using rev_ind; cbn zeta; [cbn; split_and!; try done; intros t e; by rewrite H0|].
  cbn zeta in IH. unfold handle_all in *. rewrite foldl_app. cbn [foldl].
  set (p := foldl _ p0 es) in *. destruct IH as (Hd & Hm & Ht & Hc).
  destruct (handle_config tbl ev p) as (-> & -> & ->). split_and!; [done|done|done|].
  intros t e He.
  assert (Hold : cache p !! t = Some e → ev ≠ EForget t → cached_from tbl p0 (es ++ [ev]) t e).
  { intros (Hnt & es1 & st & es2 & -> & H1 & H2)%Hc Hne. split; [done|]. exists es1, st, (es2 ++ [ev]).
    rewrite <- app_assoc. split_and!; [done|done|]. rewrite elem_of_app, list_elem_of_singleton. naive_solver. }
  destruct ev as [st now t'|t']; cbn in He.
  - assert (cache (Resolve st tbl now t' p).2 = cache p
      ∨ t' ≠ [] ∧ (Resolve st tbl now t' p).2 = MkPlanCaps (floorDaily p) (floorMonthly p) (ttl p)
           (<[t' := MkEntry (lookup st tbl t' p) now]> (cache p))) as [E|[Hnt E]].
    { unfold Resolve. repeat case_match; auto. }
    + rewrite E in He. by apply Hold.
    + rewrite E in He. cbn in He. destruct (decide (t' = t)) as [->|Hne].
      * rewrite lookup_insert_eq in He. injection He as <-. split; [done|]. exists es, st, []. cbn.
        split_and!; [done|by apply lookup_config|apply not_elem_of_nil].
      * rewrite lookup_insert_ne in He by done. by apply Hold.
  - unfold ForgetTenant in He. case_decide as Hn.
    + destruct (decide (t' = t)) as [->|Hne]; [|apply Hold; [done|congruence]].
      by destruct (Hc _ _ He).
    + cbn in He. apply lookup_delete_Some in He as [Hne He]. apply Hold; [done|congruence].
Qed.

(** Where a resolved answer comes from. *)
Lemma plan_caps_resolved fd fm life tbl es st now t (p0 := NewPlanCaps fd fm life) : t ≠ [] →
  let p := handle_all tbl es p0 in
  (Resolve st tbl now t p).1 = lookup st tbl t p0
  ∨ ∃ es1 st' then_ es2, es = es1 ++ EResolve st' then_ t :: es2 ∧ EForget t ∉ es2
      ∧ now - then_ < ttl p0 ∧ (Resolve st tbl now t p).1 = lookup st' tbl t p0.
Proof.
  intros Hnt. cbn zeta. destruct (cache_provenance tbl p0 es eq_refl) as (Hd & Hm & Ht & Hc).
  set (p := handle_all tbl es p0) in *. unfold Resolve. rewrite decide_False by done.
  rewrite (lookup_config st tbl t p p0) by done.
  destruct (cache p !! t) as [e|] eqn:E; [|by left]. case_if; [|by left]. zbool. right.
  destruct (Hc t e E) as (_ & es1 & st' & es2 & -> & H1 & H2). rewrite Ht in *.
  by exists es1, st', (at_ e), es2.
Qed.

(** A cached budget is never older than the time to live, nor than the last announced
    change: whatever resolutions and announcements went before, the caps resolved for a
    tenant are those of the store as it is now, or as a resolution read it less than a time
    to live ago with no change of the tenant announced since. *)
Theorem plan_caps_fresh fd fm life tbl es st now t (p0 := NewPlanCaps fd fm life) : t ≠ [] →
  let p := handle_all tbl es p0 in
  (Resolve st tbl now t p).1 = lookup st tbl t p0
  ∨ ∃ es1 st' then_ es2, es = es1 ++ EResolve st' then_ t :: es2 ∧ EForget t ∉ es2
      ∧ now - then_ < ttl p0 ∧ (Resolve st tbl now t p).1 = lookup st' tbl t p0.
Proof. apply plan_caps_resolved. Qed.

(** ** A plan never takes delivery away *)

(** In the stores seen, the tenant has no number of its own. *)
Definition no_own_number (t : list Z) (st : tenant_lookup) : Prop :=
  ∀ get tn, st = Some get → get t = Some tn → RatelimitDailyCap tn <= 0 ∧ RatelimitMonthlyCap tn <= 0.

Definition store_of (e : event) : tenant_lookup := match e with EResolve st _ _ => st | EForget _ => None end.

Lemma lookup_floor st tbl t p : no_own_number t st →
  floorDaily p <= Daily (lookup st tbl t p) ∧ floorMonthly p <= Monthly (lookup st tbl t p).
Proof.
  intros Hown. unfold lookup. destruct st as [get|]; [|cbn; lia]. destruct (get t) as [tn|] eqn:E; [|cbn; lia].
  destruct (Hown get tn eq_refl E) as [H1 H2]. unfold Plans.SendCaps. cbn -[Plans.For].
  replace (0 <? RatelimitDailyCap tn) with false by (symmetry; by apply Z.ltb_ge).
  replace (0 <? RatelimitMonthlyCap tn) with false by (symmetry; by apply Z.ltb_ge).
  split; case_if; zbool; lia.
Qed.

(** A plan can raise a tenant's send budget and never lower it: with platform caps set,
    under every configuration of the plans and every history of the cache, a tenant without
    a number of its own is held to no less than the platform's daily and monthly cap,
    whatever its plan is or lapses to and whatever fails. *)
Theorem plan_never_lowers ss life es st now t l :
  0 < dailyCap l → 0 < monthlyCap l → t ≠ [] →
  Forall (λ e, no_own_number t (store_of e)) es → no_own_number t st →
  let tbl := Plans.configured ss in
  let p := handle_all tbl es (NewPlanCaps (dailyCap l) (monthlyCap l) life) in
  dailyCap l <= Daily (caps_in_force st tbl now p t l)
  ∧ monthlyCap l <= Monthly (caps_in_force st tbl now p t l).
Proof.
  intros Hd Hm Hnt Hes Hst. cbn zeta. set (tbl := Plans.configured ss).
  assert (Hf : ∀ st, no_own_number t st →
    dailyCap l <= Daily (lookup st tbl t (NewPlanCaps (dailyCap l) (monthlyCap l) life))
    ∧ monthlyCap l <= Monthly (lookup st tbl t (NewPlanCaps (dailyCap l) (monthlyCap l) life))).
  { intros st' H. by apply (lookup_floor st' tbl t (NewPlanCaps (dailyCap l) (monthlyCap l) life)). }
  unfold caps_in_force, capsFor, SetCapResolver. cbn -[Resolve handle_all NewPlanCaps].
  destruct (plan_caps_resolved (dailyCap l) (monthlyCap l) life tbl es st now t Hnt) as [->|(es1 & st' & then_ & es2 & -> & _ & _ & ->)].
  - destruct (Hf st Hst). split; case_if; zbool; lia.
  - apply Forall_app in Hes as [_ [Hst' _]%Forall_cons]. destruct (Hf st' Hst'). split; case_if; zbool; lia.
Qed.

(** The floor of [plan_never_lowers] needs a platform cap: where the platform sets none
    (zero, which the limiter reads as unlimited), a plan given a cap lowers the budget of the
    tenants on it from unlimited to that cap, and they get more by letting the plan lapse. *)
Theorem plan_cap_lowers_unlimited (n : Z) : 0 < n →
  let tbl := Plans.configured [Plans.PlanSendCap Plans.Fleet n n] in
  let on plan := Some (λ _ : list Z, Some (MkTenant plan 0 0)) in
  ∀ l t, dailyCap l = 0 → monthlyCap l = 0 → t ≠ [] →
  caps_in_force (on Plans.Fleet) tbl 0 (NewPlanCaps 0 0 0) t l = MkCaps n n
  ∧ caps_in_force (on Plans.Free) tbl 0 (NewPlanCaps 0 0 0) t l = MkCaps 0 0.
Proof.
  intros Hn tbl on l t Hd Hm Ht.
  assert (Hpos : (0 <? n) = true) by (by apply Z.ltb_lt).
  assert (Hneg : (n <? 0) = false) by (apply Z.ltb_ge; lia).
  assert (Hfleet : Plans.For Plans.Fleet tbl = Plans.MkLimits 100 40 n n).
  { unfold tbl, Plans.configured, Plans.apply_setting, Plans.SetSendCaps. cbn [foldl fst]. rewrite Hpos.
    vm_compute. reflexivity. }
  assert (Hfree : Plans.For Plans.Free tbl = Plans.MkLimits 4 4 0 0).
  { unfold tbl, Plans.configured, Plans.apply_setting, Plans.SetSendCaps. cbn [foldl fst]. rewrite Hpos.
    vm_compute. reflexivity. }
  assert (Hres : ∀ st, (Resolve st tbl 0 t (NewPlanCaps 0 0 0)).1 = lookup st tbl t (NewPlanCaps 0 0 0)).
  { intros st. unfold Resolve. by rewrite decide_False. }
  unfold caps_in_force, capsFor, SetCapResolver. cbn [caps dailyCap monthlyCap]. rewrite !Hres, Hd, Hm.
  unfold lookup, on, Plans.SendCaps. cbn [Plan]. rewrite Hfleet, Hfree. cbn -[Z.ltb]. rewrite Hneg.
  change (0 <? 0) with false. cbn -[Z.ltb]. rewrite Hpos. split; reflexivity.
Qed.

(** ** Witnesses *)

Definition shop : tenant_lookup := Some (λ _, Some (MkTenant (str "Crew ") 0 0)).

Lemma plan_caps_fresh_witness :
  let p := handle_all Plans.defaults [EResolve shop 5 [1]] (NewPlanCaps 100 2000 0) in
  (Resolve None Plans.defaults 9 [1] p).1 = lookup None Plans.defaults [1] (NewPlanCaps 100 2000 0)
  ∨ ∃ es1 st' then_ es2, [EResolve shop 5 [1]] = es1 ++ EResolve st' then_ [1] :: es2 ∧ EForget [1] ∉ es2
      ∧ 9 - then_ < 30000000000 ∧ (Resolve None Plans.defaults 9 [1] p).1
         = lookup st' Plans.defaults [1] (NewPlanCaps 100 2000 0).
Proof. apply (plan_caps_fresh 100 2000 0 Plans.defaults [EResolve shop 5 [1]] None 9 [1]). discriminate. Defined.

Lemma plan_never_lowers_witness :
  let p := handle_all (Plans.configured [Plans.PlanSendCap Plans.Crew 50 9000]) [EResolve shop 5 [1]] (NewPlanCaps 2 100 7) in
  2 <= Daily (caps_in_force shop (Plans.configured [Plans.PlanSendCap Plans.Crew 50 9000]) 9 p [1] sample_limiter)
  ∧ 100 <= Monthly (caps_in_force shop (Plans.configured [Plans.PlanSendCap Plans.Crew 50 9000]) 9 p [1] sample_limiter).
Proof.
  assert (H : no_own_number [1] shop).
  { intros get tn [= <-] [= <-]. cbn. lia. }
  apply (plan_never_lowers [Plans.PlanSendCap Plans.Crew 50 9000] 7 [EResolve shop 5 [1]] shop 9 [1] sample_limiter).
  - reflexivity.
  - reflexivity.
  - discriminate.
  - constructor; [exact H|constructor].
  - exact H.
Defined.

Lemma plan_cap_lowers_unlimited_witness :
  Daily (caps_in_force (Some (λ _, Some (MkTenant Plans.Fleet 0 0)))
           (Plans.configured [Plans.PlanSendCap Plans.Fleet 50 50]) 0 (NewPlanCaps 0 0 0) [1]
           (NewDeviceLimiter (f64_of_Z 10) (f64_of_Z 1) 0 0)) = 50.
Proof.
  destruct (plan_cap_lowers_unlimited 50 eq_refl (NewDeviceLimiter (f64_of_Z 10) (f64_of_Z 1) 0 0) [1])
    as [H _]; [reflexivity|reflexivity|discriminate|]. rewrite H. reflexivity.
Defined.

Lemma usage_predicts_allow_witness :
  isThrottled (Usage (λ _, [1]) (λ _, [2]) 5 ∅ [97] [98] sample_limiter).1 = false.
Proof.
  destruct (usage_predicts_allow (λ _, [1]) (λ _, [2]) 5 ∅ [97] [98] sample_limiter) as [H _]; [reflexivity|].
  rewrite H. vm_compute. reflexivity.
Defined.

End Budget.
