(* ===== verification/Vat.v ===== *)
(** The VAT rules of [internal/vat/vat.go] and the country codes of [country.go]: the decision from the buyer's country and the
    net amount behind a gross one, in 64-bit integers with a [float64] rate.  The [Reason] of a
    refusal quotes the country; a non-ASCII letter in it keeps its case here (see [Text]). *)
From S2P Require Import Prelude Float64 Text.

Module Vat.
Import Float64 Text.

Record Decision := MkDecision {
  Charge : bool;
  Reason : list Z;
  Basis : list Z;
  OutsideScope : bool;
}.

Definition euVATArea : list (list Z) :=
  bytes_of_string <$>
    ["AT"; "BE"; "BG"; "HR"; "CY"; "CZ"; "DK"; "EE"; "FI"; "FR"; "DE"; "GR"; "EL"; "HU"; "IE"; "IT";
     "LV"; "LT"; "LU"; "MT"; "NL"; "PL"; "PT"; "RO"; "SK"; "SI"; "ES"; "SE"]%string.

Definition Home : list Z := str "NL".

Definition code (country : list Z) : list Z := ToUpper (TrimSpace country).

Definition For (country : list Z) : Decision :=
  let c := code country in
  if decide (c = []) then
    MkDecision false (str "no country on file for this buyer, so the VAT treatment cannot be decided. "
                      ++ str "Set the tenant's billing country and requeue.") [] false
  else if decide (c = Home) then MkDecision true [] (str "domestic supply, Dutch VAT") false
  else if decide (c ∈ euVATArea) then
    MkDecision true [] (str "EU consumer, Dutch VAT under the Article 59c EUR 10 000 threshold") false
  else
    MkDecision false (str "buyer is outside the EU (" ++ c
                      ++ str "), so EU VAT does not apply and this receipt "
                      ++ str "cannot be issued at the Dutch rate. Issue it by hand, or decide the treatment first.") [] false.

Definition ForDonation : Decision :=
  MkDecision false [] (str "voluntary contribution with no counter-performance, outside the scope of BTW") true.

(** The codes of [country.go]: ISO 3166-1, and Greece's VAT prefix. *)
Definition byAlpha2 : list (list Z) :=
  bytes_of_string <$>
    ["EL";
     "AF"; "AX"; "AL"; "DZ"; "AS"; "AD"; "AO"; "AI"; "AQ"; "AG"; "AR"; "AM"; "AW"; "AU";
     "AT"; "AZ"; "BS"; "BH"; "BD"; "BB"; "BY"; "BE"; "BZ"; "BJ"; "BM"; "BT"; "BO"; "BQ";
     "BA"; "BW"; "BV"; "BR"; "IO"; "BN"; "BG"; "BF"; "BI"; "CV"; "KH"; "CM"; "CA"; "KY";
     "CF"; "TD"; "CL"; "CN"; "CX"; "CC"; "CO"; "KM"; "CG"; "CD"; "CK"; "CR"; "CI"; "HR";
     "CU"; "CW"; "CY"; "CZ"; "DK"; "DJ"; "DM"; "DO"; "EC"; "EG"; "SV"; "GQ"; "ER"; "EE";
     "SZ"; "ET"; "FK"; "FO"; "FJ"; "FI"; "FR"; "GF"; "PF"; "TF"; "GA"; "GM"; "GE"; "DE";
     "GH"; "GI"; "GR"; "GL"; "GD"; "GP"; "GU"; "GT"; "GG"; "GN"; "GW"; "GY"; "HT"; "HM";
     "VA"; "HN"; "HK"; "HU"; "IS"; "IN"; "ID"; "IR"; "IQ"; "IE"; "IM"; "IL"; "IT"; "JM";
     "JP"; "JE"; "JO"; "KZ"; "KE"; "KI"; "KP"; "KR"; "KW"; "KG"; "LA"; "LV"; "LB"; "LS";
     "LR"; "LY"; "LI"; "LT"; "LU"; "MO"; "MG"; "MW"; "MY"; "MV"; "ML"; "MT"; "MH"; "MQ";
     "MR"; "MU"; "YT"; "MX"; "FM"; "MD"; "MC"; "MN"; "ME"; "MS"; "MA"; "MZ"; "MM"; "NA";
     "NR"; "NP"; "NL"; "NC"; "NZ"; "NI"; "NE"; "NG"; "NU"; "NF"; "MK"; "MP"; "NO"; "OM";
     "PK"; "PW"; "PS"; "PA"; "PG"; "PY"; "PE"; "PH"; "PN"; "PL"; "PT"; "PR"; "QA"; "RE";
     "RO"; "RU"; "RW"; "BL"; "SH"; "KN"; "LC"; "MF"; "PM"; "VC"; "WS"; "SM"; "ST"; "SA";
     "SN"; "RS"; "SC"; "SL"; "SG"; "SX"; "SK"; "SI"; "SB"; "SO"; "ZA"; "GS"; "SS"; "ES";
     "LK"; "SD"; "SR"; "SJ"; "SE"; "CH"; "SY"; "TW"; "TJ"; "TZ"; "TH"; "TL"; "TG"; "TK";
     "TO"; "TT"; "TN"; "TR"; "TM"; "TC"; "TV"; "UG"; "UA"; "AE"; "GB"; "US"; "UM"; "UY";
     "UZ"; "VU"; "VE"; "VN"; "VG"; "VI"; "WF"; "EH"; "YE"; "ZM"; "ZW"]%string.

Definition IsAlpha2 (s : list Z) : bool :=
  (length s =? 2)%nat && bool_decide (ToUpper s ∈ byAlpha2).

Definition InEU (country : list Z) : bool := bool_decide (code country ∈ euVATArea).

Definition CountsTowardThreshold (country : list Z) : bool :=
  let c := code country in bool_decide (c ≠ Home) && bool_decide (c ∈ euVATArea).

Definition Threshold : Z := 1000000.

(** [int64(ratePercent*100 + 0.5)] *)
Definition basis_points (ratePercent : float64) : Z :=
  f64_to_int (f64_add (f64_mul ratePercent (f64_of_Z 100)) (f64_lit 1 2)).

Definition NetOfInclusive (grossCents : Z) (ratePercent : float64) : Z :=
  if f64_leb ratePercent (f64_of_Z 0) || f64_leb (f64_of_Z 100) ratePercent then grossCents
  else
    let basis := basis_points ratePercent in
    let num := i64 (grossCents * 10000) in
    let den := i64 (10000 + basis) in
    let neg := num <? 0 in
    let num := if neg then i64 (- num) else num in
    let out := i64 (num + Z.quot den 2) ÷ den in
    if neg then i64 (- out) else out.

(** ** The decision *)

(** The three questions about a country agree: VAT is charged exactly in the EU, which is
    exactly where a supply counts toward the threshold unless it is domestic; a charge has a
    basis and no reason, a refusal a reason and no basis; and a donation is neither charged
    nor parked, whatever the country. *)
Theorem vat_decision country :
  Charge (For country) = InEU country
  ∧ CountsTowardThreshold country = Charge (For country) && bool_decide (code country ≠ Home)
  ∧ (Charge (For country) = true ↔ Reason (For country) = []) ∧ (Charge (For country) = true ↔ Basis (For country) ≠ [])
  ∧ OutsideScope (For country) = false
  ∧ Charge ForDonation = false ∧ Reason ForDonation = [] ∧ OutsideScope ForDonation = true.
Proof.
  assert (Hh : Home ∈ euVATArea) by (apply (bool_decide_unpack _); vm_compute; exact I).
  assert (He : [] ∉ euVATArea) by (apply (bool_decide_unpack _); vm_compute; exact I).
  unfold InEU, CountsTowardThreshold, For. cbv zeta.
  destruct (decide (code country = [])) as [->|Hn]; [by rewrite (bool_decide_false ([] ∈ euVATArea)), andb_false_r by done|].
  destruct (decide (code country = Home)) as [->|Hd].
  { rewrite (bool_decide_true (Home ∈ euVATArea)) by done. by rewrite bool_decide_false by (by intros H). }
  rewrite (bool_decide_true (code country ≠ Home)) by done.
  destruct (decide (code country ∈ euVATArea)); [by rewrite bool_decide_true|by rewrite bool_decide_false].
Qed.

(** ** The net amount *)

(** A rate of [n] tenths of a percent, as a decimal literal is read. *)
Definition rate (n : Z) : float64 := f64_lit n 10.

Definition rate_ok (n : Z) : bool :=
  (n <? 1) || ((basis_points (rate n) =? 10 * n)
               && negb (f64_leb (rate n) (f64_of_Z 0)) && negb (f64_leb (f64_of_Z 100) (rate n))).

Lemma rates_ok : zall 1000 rate_ok = true.
Proof. vm_cast_no_check (eq_refl true). Qed.

Lemma rate_exact n : 1 <= n <= 999 →
  basis_points (rate n) = 10 * n ∧ f64_leb (rate n) (f64_of_Z 0) = false ∧ f64_leb (f64_of_Z 100) (rate n) = false.
Proof.
  intros Hn. assert (Hp : rate_ok n = true) by (apply (zall_spec _ _ rates_ok); lia).
  unfold rate_ok in Hp. replace (n <? 1) with false in Hp by (symmetry; apply Z.ltb_ge; lia).
  apply andb_true_iff in Hp as [[H1%Z.eqb_eq H2%negb_true_iff]%andb_true_iff H3%negb_true_iff]. done.
Qed.

(** The nearest quotient of a non-negative numerator, halves up. *)
Definition nearest (num den : Z) : Z := (num + den `div` 2) `div` den.

Lemma nearest_spec a den : 0 <= a → 10000 < den →
  let q := nearest (a * 10000) den in
  2 * (q * den - a * 10000) <= den ∧ - den < 2 * (q * den - a * 10000) ∧ 0 <= q <= a.
Proof.
  intros Ha Hd q. subst q. unfold nearest.
  assert (Hh : 2 * (den `div` 2) <= den < 2 * (den `div` 2) + 2) by zlia.
  pose proof (Z_div_mod_eq_full (a * 10000 + den `div` 2) den).
  pose proof (Z.mod_pos_bound (a * 10000 + den `div` 2) den).
  set (q := (a * 10000 + den `div` 2) `div` den) in *. nia.
Qed.

Lemma net_nearest gross n : 1 <= n <= 999 → Z.abs gross <= 900000000000000 →
  NetOfInclusive gross (rate n) = Z.sgn gross * nearest (Z.abs gross * 10000) (10000 + 10 * n).
Proof.
  intros Hn Hg. destruct (rate_exact n Hn) as (Hb & H1 & H2).
  unfold NetOfInclusive, nearest. rewrite Hb, H1, H2. cbn [orb]. cbv zeta.
  set (den := 10000 + 10 * n). set (a := Z.abs gross).
  assert (Hq : 0 <= nearest (a * 10000) den <= a) by (apply nearest_spec; lia). unfold nearest in Hq.
  assert (Hh : 0 <= den `div` 2 < den) by zlia.
  rewrite (i64_id (gross * 10000)), (i64_id den) by lia.
  rewrite (Z.quot_div_nonneg den 2) by lia.
  destruct (Z.ltb_spec (gross * 10000) 0).
  - rewrite (i64_id (- (gross * 10000))) by lia. replace (- (gross * 10000)) with (a * 10000) by lia.
    rewrite (i64_id (a * 10000 + _)), Z.quot_div_nonneg, i64_id by lia. lia.
  - replace (gross * 10000) with (a * 10000) by lia.
    rewrite (i64_id (a * 10000 + _)), Z.quot_div_nonneg by lia. lia.
Qed.

(** The net amount is the exact quotient rounded to the nearest cent, halves away from
    zero, for every rate of at most one decimal between 0.1 and 99.9 percent and every
    amount up to nine hundred trillion cents: the [float64] rate loses nothing and nothing
    overflows.  The net never exceeds the gross and is odd in it. *)
Theorem net_of_inclusive_rounds gross n : 1 <= n <= 999 → Z.abs gross <= 900000000000000 →
  let net := NetOfInclusive gross (rate n) in
  let err := gross * 10000 - net * (10000 + 10 * n) in
  2 * Z.abs err <= 10000 + 10 * n
  ∧ (2 * Z.abs err = 10000 + 10 * n → Z.abs (gross * 10000) < Z.abs (net * (10000 + 10 * n)))
  ∧ Z.abs net <= Z.abs gross ∧ NetOfInclusive (- gross) (rate n) = - net.
Proof.
  intros Hn Hg net err. subst err net. rewrite !net_nearest, Z.abs_opp, Z.sgn_opp by lia.
  set (a := Z.abs gross). set (den := 10000 + 10 * n). set (q := nearest (a * 10000) den).
  assert (Hq : 2 * (q * den - a * 10000) <= den ∧ - den < 2 * (q * den - a * 10000) ∧ 0 <= q <= a)
    by (apply nearest_spec; lia).
  destruct (Z.lt_trichotomy gross 0) as [?|[->|?]].
  - rewrite (Z.sgn_neg gross) by done. nia.
  - cbn. nia.
  - rewrite (Z.sgn_pos gross) by done. nia.
Qed.

Lemma net_of_inclusive_rounds_witness :
  1 <= 210 <= 999 ∧ Z.abs 900 <= 900000000000000 ∧ NetOfInclusive 900 (rate 210) = 744
  ∧ NetOfInclusive (-900) (rate 210) = -744.
Proof.
  assert (H1 : 1 <= 210 <= 999) by lia. assert (H2 : Z.abs 900 <= 900000000000000) by lia.
  destruct (net_of_inclusive_rounds 900 210 H1 H2) as (_ & _ & _ & H).
  split; [exact H1|]. split; [exact H2|]. split; [vm_compute; reflexivity|]. etransitivity; [exact H|]. vm_compute. reflexivity.
Defined.

End Vat.
