(* ===== verification/SqlTable.v ===== *)
(** Tables of the SQLite store ([internal/store/sqlite]).  A table is the list of its rows;
    [UPDATE] maps over it, [SELECT] filters it, [INSERT] checks the primary key.  Times are
    nanoseconds since Go's zero time, and a column holds them as the store writes them: whole
    seconds, the empty text ([None]) for the zero time. *)
From S2P Require Import Prelude.

Module SqlTable.

Definition second : Z := 1000000000.
Definition minute : Z := 60 * second.

Definition fmtTime (t : Z) : option Z := if t =? 0 then None else Some (t / second).

Definition parseTime (s : option Z) : Z := match s with None => 0 | Some n => n * second end.

(** [UPDATE .. SET f WHERE p]: the table and the number of rows affected. *)
Definition sql_update {R} (p : R → bool) (f : R → R) (t : list R) : list R * nat :=
  ((λ r, if p r then f r else r) <$> t, length (List.filter p t)).

(** ** Lemmas *)

Lemma skey_fmt t : default 0 (fmtTime t) = t / second.
Proof. unfold fmtTime; destruct (Z.eqb_spec t 0) as [->|]; done. Qed.

Lemma fmt_parse s : s ≠ Some 0 → fmtTime (parseTime s) = s.
Proof.
  destruct s as [n|]; [|done]; intros Hn; unfold fmtTime, parseTime, second.
  destruct (Z.eqb_spec (n * 1000000000) 0); [assert (n = 0) by lia; congruence|].
  f_equal; apply Z.div_mul; lia.
Qed.

Lemma filter_filter_length {R} (p q : R → bool) t : (∀ s, p s = true → q s = true) →
  length (List.filter p (List.filter q t)) = length (List.filter p t).
Proof.
  intros H. induction t as [|s t IH]; [done|]. cbn. destruct (q s) eqn:Eq; cbn.
  - destruct (p s); cbn; by rewrite IH.
  - destruct (p s) eqn:Ep; [|done]. apply H in Ep. congruence.
Qed.

#[export] Instance bool_filter_perm {R} (p : R → bool) : Proper ((≡ₚ) ==> (≡ₚ)) (List.filter p).
Proof.
  intros l k H. induction H as [|x l k _ IH|x y l|l k m _ IH1 _ IH2]; cbn; [done| | |by etransitivity].
  - destruct (p x); [by apply perm_skip|done].
  - destruct (p x), (p y); try done. apply perm_swap.
Qed.

Lemma filter_none {R} (p : R → bool) t : Forall (λ s, p s = false) t → List.filter p t = [].
Proof. induction 1 as [|s t Hs _ IH]; [done|]; cbn; by rewrite Hs. Qed.

Lemma update_none {R} (p : R → bool) f t :
  Forall (λ s, p s = false) t → (λ r, if p r then f r else r) <$> t = t.
Proof. induction 1 as [|s t Hs _ IH]; [done|]; cbn; by rewrite Hs, IH. Qed.

Lemma head_filter {R} (p : R → bool) t r : head (List.filter p t) = Some r → r ∈ t ∧ p r = true.
Proof.
  intros H. assert (r ∈ List.filter p t) as Hin.
  { destruct (List.filter p t); [done|]. injection H as ->. left. }
  apply list_elem_of_In, List.filter_In in Hin as [Hin Hp]. by apply list_elem_of_In in Hin.
Qed.

Lemma filter_split {R} (p : R → bool) t1 r t2 :
  Forall (λ s, p s = false) t1 → Forall (λ s, p s = false) t2 → p r = true →
  List.filter p (t1 ++ r :: t2) = [r].
Proof.
  intros H1 H2 Hr. by rewrite List.filter_app, (filter_none _ t1 H1); cbn; rewrite Hr, filter_none.
Qed.

Lemma filter_sublist {R} (p : R → bool) t : List.filter p t `sublist_of` t.
Proof.
  induction t as [|r t IH]; [constructor|]. cbn.
  destruct (p r); [by apply sublist_skip|by apply sublist_cons].
Qed.

Lemma sql_update_split {R} (p : R → bool) f t1 r t2 :
  Forall (λ s, p s = false) t1 → Forall (λ s, p s = false) t2 → p r = true →
  sql_update p f (t1 ++ r :: t2) = (t1 ++ f r :: t2, 1%nat).
Proof.
  intros H1 H2 Hr. unfold sql_update. rewrite (filter_split _ _ _ _ H1 H2 Hr).
  rewrite fmap_app, fmap_cons, Hr. by rewrite (update_none _ _ t1 H1), (update_none _ _ t2 H2).
Qed.

End SqlTable.
