(* ===== verification/Effects.v ===== *)
(** Programs that call outside services, and a rely-guarantee logic for many of them at once.

    A program is a tree of calls; what a call does to the world is a relation, so that an
    answer may depend on faults, clocks and random ids.  [pool] interleaves programs of several
    kinds call by call, and programs may stop for ever at any point.  [pool_invariant] reduces
    an invariant of all interleavings to one obligation per kind of program. *)
From S2P Require Import Prelude.

Module Effects.

Section Programs.
Context {call : Type → Type}.

Inductive prog (R : Type) : Type :=
| Ret (r : R)
| Do {X : Type} (c : call X) (k : X → prog R).

Fixpoint pbind {A B} (f : A → prog B) (p : prog A) : prog B :=
  match p with
  | Ret _ a => f a
  | Do _ c k => Do _ c (λ x, pbind f (k x))
  end.

Definition perform {X} (c : call X) : prog X := Do _ c (Ret _).

(** [for _, x := range l { body(x) }] *)
Fixpoint for_each {A} (body : A → prog unit) (l : list A) : prog unit :=
  match l with
  | [] => Ret _ tt
  | x :: l => pbind (λ _, for_each body l) (body x)
  end.

End Programs.
Arguments prog : clear implicits.
Arguments Ret {call R} r.
Arguments Do {call R X} c k.

#[export] Instance prog_ret {call} : MRet (prog call) := @Ret call.
#[export] Instance prog_bind {call} : MBind (prog call) := @pbind call.

(** [if err != nil { return err }] after a call. *)
Definition try {call E A B} (p : prog call (result E A)) (k : A → prog call (result E B)) : prog call (result E B) :=
  r ← p; match r with Ok a => k a | Err e => Ret (Err e) end.

Notation "'try!' x := p 'in' k" := (try p (λ x, k))
  (at level 10, x pattern, p at level 100, k at level 200,
   format "'[v' 'try!'  x  :=  p  'in' '//' k ']'").

(** ** One program *)

Section Logic.
Context {call : Type → Type} {W : Type} (act : ∀ X, call X → W → W → X → Prop).
Context (I : W → Prop) (rely guar : W → W → Prop).

(** Between its calls the world changes as [rely] allows; then every call keeps [I], changes
    the world as [guar] allows, and the result satisfies [Q].  The program may stop anywhere. *)
Fixpoint safe {R} (p : prog call R) (Q : R → W → Prop) (w : W) : Prop :=
  I w ∧
  match p with
  | Ret r => Q r w
  | Do c k => ∀ w1 w2 x, rely w w1 → I w1 → act _ c w1 w2 x → guar w1 w2 ∧ safe (k x) Q w2
  end.

Lemma safe_inv {R} (p : prog call R) Q w : safe p Q w → I w.
Proof. by destruct p; intros []. Qed.

Lemma safe_mono {R} (p : prog call R) : ∀ (Q Q' : R → W → Prop) w,
  (∀ r w, I w → Q r w → Q' r w) → safe p Q w → safe p Q' w.
Proof.
  induction p as [r|X c k IH]; cbn; intros Q Q' w HQ [Hw H]; (split; [done|]); [by apply HQ|].
  intros w1 w2 x Hr Hi Ha. destruct (H w1 w2 x Hr Hi Ha). split; [done|]. by eapply IH.
Qed.

Lemma safe_bind {A B} (p : prog call A) (f : A → prog call B) : ∀ Q w,
  safe p (λ a w, safe (f a) Q w) w → safe (a ← p; f a) Q w.
Proof.
  induction p as [r|X c k IH]; cbn; intros Q w [Hw H]; [done|]. split; [done|].
  intros w1 w2 x Hr Hi Ha. destruct (H w1 w2 x Hr Hi Ha). split; [done|]. by apply IH.
Qed.

Lemma safe_try {E A B} (p : prog call (result E A)) (k : A → prog call (result E B)) Q w :
  safe p (λ x w, match x with Ok a => safe (k a) Q w | Err e => Q (Err e) w end) w → safe (try p k) Q w.
Proof. intros Hp. apply safe_bind. eapply safe_mono; [|exact Hp]. by intros [a|e]. Qed.

Lemma safe_perform {X} (c : call X) (Q : X → W → Prop) w :
  I w →
  (∀ w1 w2 x, rely w w1 → I w1 → act _ c w1 w2 x → guar w1 w2 ∧ I w2 ∧ Q x w2) →
  safe (perform c) Q w.
Proof. intros Hw H. split; [done|]. intros w1 w2 x Hr Hi Ha. by apply H. Qed.

Lemma safe_for_each {A} (body : A → prog call unit) (P : list A → W → Prop) l w :
  (∀ x l w, P (x :: l) w → safe (body x) (λ _ w', P l w') w) → I w → P l w →
  safe (for_each body l) (λ _ w', P [] w') w.
Proof.
  intros Hb. revert w. induction l as [|x l IH]; intros w Hw HP; [done|].
  apply safe_bind. eapply safe_mono; [|by apply Hb]. intros [] w' Hi Hl. by apply IH.
Qed.

Lemma safe_rely {R} (p : prog call R) w w' :
  Transitive rely → safe p (λ _ _, True) w → rely w w' → I w' → safe p (λ _ _, True) w'.
Proof.
  intros HT. destruct p as [r|X c k]; cbn; intros [Hw H] Hr Hi; (split; [done|]); [done|].
  intros w1 w2 x Hr' Hi' Ha. apply (H w1 w2 x); [by etransitivity|done|done].
Qed.

(** Every call of the program satisfies [P]. *)
Fixpoint always {R} (P : ∀ X, call X → Prop) (p : prog call R) : Prop :=
  match p with
  | Ret _ => True
  | Do c k => P _ c ∧ ∀ x, always P (k x)
  end.

Lemma prog_always_bind {A B} (P : ∀ X, call X → Prop) (p : prog call A) (f : A → prog call B) :
  always P p → (∀ a, always P (f a)) → always P (x ← p; f x).
Proof. induction p as [|X c k IH]; cbn; [auto|]. intros [Hc Hk] Hf. split; [done|]. intros x. by apply IH. Qed.

Lemma prog_always_for_each {A} (P : ∀ X, call X → Prop) (body : A → prog call unit) l :
  (∀ a, always P (body a)) → always P (for_each body l).
Proof. intros H. induction l; [done|]. by apply prog_always_bind. Qed.

Lemma always_try {E A B} (P : ∀ X, call X → Prop) (p : prog call (result E A)) (k : A → prog call (result E B)) :
  always P p → (∀ a, always P (k a)) → always P (try p k).
Proof. intros Hp Hk. apply prog_always_bind; [done|]. intros [a|e]; [apply Hk|done]. Qed.

(** A program whose every call keeps the invariant on its own. *)
Lemma safe_always {R} (P : ∀ X, call X → Prop) (p : prog call R) :
  (∀ X (c : call X) w1 w2 x, P X c → I w1 → act X c w1 w2 x → guar w1 w2 ∧ I w2) →
  always P p → ∀ w, I w → safe p (λ _ _, True) w.
Proof.
  intros Hstep. induction p as [r|X c k IH]; intros Hp w Hw; [done|]. destruct Hp as [Hc Hk].
  split; [done|]. intros w1 w2 x _ Hi Ha. destruct (Hstep X c w1 w2 x Hc Hi Ha).
  split; [done|]. by apply IH.
Qed.

End Logic.

(** Proves [always] of a program by walking through its calls; [walks] has the lemmas on
    programs it uses. *)
Create HintDb walks.
Ltac walk :=
  repeat first
    [ solve [auto 1 with walks nocore]
    | match goal with
      | |- always _ (mbind _ _) => apply prog_always_bind
      | |- always _ (pbind _ _) => apply prog_always_bind
      | |- always _ (try _ _) => apply always_try
      | |- always _ (for_each _ _) => apply prog_always_for_each
      end
    | done
    | progress cbn
    | match goal with
      | |- _ ∧ _ => split
      | |- ∀ _, _ => intros
      | |- context [match ?x with _ => _ end] => destruct x
      end ].

(** ** Many programs *)

Section Pool.
Context {call : Type → Type} {W K R : Type} `{!EqDecision K}.
Context (act : ∀ X, call X → W → W → X → Prop).

(** [start k p]: a program [p] of kind [k] may be started; of an exclusive kind at most one
    runs at a time. *)
Context (exclusive : K → bool) (start : K → prog call R → Prop) (outside : W → W → Prop).

Record pool := MkPool { world_of : W; running : list (K * prog call R) }.

Inductive step : pool → pool → Prop :=
| step_start k p w l : start k p → (exclusive k = true → k ∉ fst <$> l) →
    step (MkPool w l) (MkPool w (l ++ [(k, p)]))
| step_call k X (c : call X) f w w' x l1 l2 : act X c w w' x →
    step (MkPool w (l1 ++ (k, Do c f) :: l2)) (MkPool w' (l1 ++ (k, f x) :: l2))
| step_stop t w l1 l2 : step (MkPool w (l1 ++ t :: l2)) (MkPool w (l1 ++ l2))
| step_outside w w' l : outside w w' → step (MkPool w l) (MkPool w' l).

Context (I : W → Prop) (rely guar : K → W → W → Prop).
Hypothesis rely_trans : ∀ k, Transitive (rely k).
Hypothesis starts_safe : ∀ k p w, start k p → I w → safe act I (rely k) (guar k) p (λ _ _, True) w.
Hypothesis compatible : ∀ k k' w w', I w → I w' → guar k w w' → k ≠ k' ∨ exclusive k = false → rely k' w w'.
Hypothesis outside_ok : ∀ w w', I w → outside w w' → I w' ∧ ∀ k, rely k w w'.
Hypothesis rely_refl : ∀ k w, rely k w w.

(** Every running program is safe from here, and exclusive kinds run once. *)
Definition pool_ok (s : pool) : Prop :=
  I (world_of s) ∧
  Forall (λ t, safe act I (rely t.1) (guar t.1) t.2 (λ _ _, True) (world_of s)) (running s) ∧
  ∀ i j k p q, running s !! i = Some (k, p) → running s !! j = Some (k, q) → exclusive k = true → i = j.

Lemma lookup_other {A} (l1 l2 : list A) x i y :
  (l1 ++ x :: l2) !! i = Some y → i ≠ length l1 → y ∈ l1 ∨ y ∈ l2.
Proof.
  intros H Hi. destruct (decide (i < length l1)%nat).
  - left. rewrite lookup_app_l in H by lia. by eapply list_elem_of_lookup_2.
  - right. rewrite lookup_app_r in H by lia.
    destruct (i - length l1)%nat as [|m] eqn:E; [lia|]. by eapply list_elem_of_lookup_2.
Qed.

Lemma pool_start_ok w l k p : start k p → (exclusive k = true → k ∉ fst <$> l) →
  pool_ok (MkPool w l) → pool_ok (MkPool w (l ++ [(k, p)])).
Proof using EqDecision0 starts_safe.
  intros Hs Hx (Hw & Hl & Hu). split; [done|]. cbn in *. split.
  { apply Forall_app. split; [done|]. apply Forall_singleton. by apply starts_safe. }
  assert (Hno : ∀ i q, (l ++ [(k, p)]) !! i = Some (k, q) → exclusive k = true → i = length l).
  { intros i q Hi He. destruct (decide (i = length l)); [done|].
    apply lookup_other in Hi as [Hi|Hi]; [|by apply elem_of_nil in Hi|done].
    destruct (Hx He). apply list_elem_of_fmap. by exists (k, q). }
  intros i j k' p' q' Hi Hj He.
  destruct (decide (k' = k)) as [->|Hk]; [by rewrite (Hno i p' Hi He), (Hno j q' Hj He)|].
  assert (∀ n r, (l ++ [(k, p)]) !! n = Some (k', r) → l !! n = Some (k', r)) as Hin.
  { intros n r Hn. apply lookup_app_Some in Hn as [?|[Hn1 Hn2]]; [done|].
    apply list_lookup_singleton_Some in Hn2 as [_ [=]]; congruence. }
  eapply Hu; eauto.
Qed.

Lemma call_ok w w' k X (c : call X) f x l1 l2 : act X c w w' x →
  pool_ok (MkPool w (l1 ++ (k, Do c f) :: l2)) → pool_ok (MkPool w' (l1 ++ (k, f x) :: l2)).
Proof using EqDecision0 rely_trans compatible rely_refl.
  intros Ha (Hw & Hl & Hu). cbn in *. apply Forall_app in Hl as [H1 [[_ Hc] H2]%Forall_cons].
  destruct (Hc w w' x (rely_refl k w) Hw Ha) as [Hg Hs]. pose proof (safe_inv _ _ _ _ _ _ _ Hs) as Hw'.
  assert (Hoth : ∀ k' q, (k', q) ∈ l1 ∨ (k', q) ∈ l2 →
    safe act I (rely k') (guar k') q (λ _ _, True) w → safe act I (rely k') (guar k') q (λ _ _, True) w').
  { intros k' q Hin Hq. eapply safe_rely; [apply rely_trans|done| |done].
    apply (compatible k); [done..|]. destruct (decide (k = k')) as [<-|]; [|by left]. right.
    destruct (exclusive k) eqn:He; [|done]. exfalso.
    destruct Hin as [Hin|Hin]; apply list_elem_of_lookup in Hin as [i Hi].
    - assert (i = length l1) as ->; [|by apply lookup_lt_Some in Hi; lia].
      apply (Hu i (length l1) k q (Do c f)); [by apply lookup_app_l_Some|by rewrite list_lookup_middle|done].
    - assert ((length l1 + S i)%nat = length l1); [|lia].
      apply (Hu (length l1 + S i)%nat (length l1) k q (Do c f)); [|by rewrite list_lookup_middle|done].
      rewrite lookup_app_r by lia. by replace (length l1 + S i - length l1)%nat with (S i) by lia. }
  split; [done|]. cbn. split.
  - rewrite Forall_app, Forall_cons, !Forall_forall. rewrite Forall_forall in H1, H2.
    split; [|split; [done|]]; intros [k' q] Hin; (apply Hoth; [auto|]); [by apply H1|by apply H2].
  - assert (Hkeep : ∀ i k' q, (l1 ++ (k, f x) :: l2) !! i = Some (k', q) →
      ∃ q', (l1 ++ (k, Do c f) :: l2) !! i = Some (k', q')).
    { intros i k' q Hi. destruct (decide (i = length l1)) as [->|Hne].
      - rewrite list_lookup_middle in Hi by done. injection Hi as <- _. eexists. by apply list_lookup_middle.
      - exists q. rewrite <- Hi. destruct (decide (i < length l1)%nat).
        + by rewrite !lookup_app_l by lia.
        + rewrite !lookup_app_r by lia. by destruct (i - length l1)%nat eqn:E; [lia|]. }
    intros i j k' p q Hi Hj He. apply Hkeep in Hi as [? Hi], Hj as [? Hj]. eapply Hu; eauto.
Qed.

Lemma stop_ok w t l1 l2 : pool_ok (MkPool w (l1 ++ t :: l2)) → pool_ok (MkPool w (l1 ++ l2)).
Proof using.
  intros (Hw & Hl & Hu). cbn in *. split; [done|]. cbn. split.
  { apply Forall_app in Hl as [? [_ ?]%Forall_cons]. by apply Forall_app. }
  set (up := λ i, if decide (i < length l1)%nat then i else S i).
  assert (Hup : ∀ i y, (l1 ++ l2) !! i = Some y → (l1 ++ t :: l2) !! up i = Some y).
  { intros i y Hi. unfold up. case_decide.
    - by rewrite lookup_app_l in Hi |- * by lia.
    - rewrite lookup_app_r in Hi |- * by lia. by replace (S i - length l1)%nat with (S (i - length l1)) by lia. }
  intros i j k p q Hi Hj He. specialize (Hu (up i) (up j) k p q (Hup _ _ Hi) (Hup _ _ Hj) He).
  revert Hu. unfold up. repeat case_decide; lia.
Qed.

Theorem pool_invariant s s' : pool_ok s → rtc step s s' → pool_ok s'.
Proof using EqDecision0 rely_trans starts_safe compatible outside_ok rely_refl.
  intros Hok Hr. induction Hr as [s|s t u Hst _ IH]; [done|]. apply IH. clear IH u.
  destruct Hst as [k p w l Hs Hx|k X c f w w' x l1 l2 Ha|t w l1 l2|w w' l Ho].
  - by apply pool_start_ok.
  - by eapply call_ok.
  - by eapply stop_ok.
  - destruct Hok as (Hw & Hl & Hu). destruct (outside_ok w w' Hw Ho) as [Hw' Hrel].
    split; [done|]. split; [|done]. cbn in *. eapply Forall_impl; [done|]. intros [k p] Hp.
    by eapply safe_rely.
Qed.

End Pool.

End Effects.
