(* ===== verification/Books.v ===== *)
(** The billing system the Hub keeps its books in.  It is Invoice Ninja, a separate server that
    is not part of the repository: [BillingSystem] states what [internal/invoiceninja] relies
    on, as its comments describe it, and [reference_books] is a small system that meets it.

    Amounts are in cents.  The server sends them as decimal numbers, which the client only
    compares; a tax rate is in percent. *)
From S2P Require Import Prelude.

Module Books.

Notation bytes := (list Z).

Record payment := MkPayment { pID : bytes; pAmount : Z; pRefunded : Z }.

(** An invoice or a credit note.  [dFor] is not part of it: it is the row of the outbox the
    request was made for, kept to state which documents a payment caused. *)
Record doc := MkDoc {
  dFor : bytes;
  dClient : bytes;
  dNumber : bytes;
  dStatus : Z;
  dTotal : Z;
  dTaxRate : Z;
  dBalance : Z;
  dPayments : list payment;
}.

(** The one line of a new document and the day it is dated, in days since 1 January of year 1. *)
Record line := MkLine {
  lClient : bytes;
  lDay : Z;
  lProduct : bytes;
  lNotes : bytes;
  lCost : Z;
  lTaxName : bytes;
  lTaxRate : Z;
}.

Record customer := MkCustomer { cName : bytes; cIDNumber : bytes; cCountryID : bytes; cEmail : bytes }.

Inductive filter := ByEmail (email : bytes) | ByIDNumber (ref : bytes).

Definition statusDraft : Z := 1.
Definition statusSent : Z := 2.

(** Born a draft, with no number and nothing owed. *)
Definition draft (for_ : bytes) (l : line) : doc :=
  MkDoc for_ (lClient l) [] statusDraft (lCost l) (lTaxRate l) 0 [].

(** A number is assigned on sending, and only then. *)
Definition send (n : bytes) (d : doc) : doc :=
  if dStatus d =? statusDraft
  then MkDoc (dFor d) (dClient d) n statusSent (dTotal d) (dTaxRate d) (dTotal d) (dPayments d)
  else d.

Definition pay (p : bytes) (amount : Z) (d : doc) : doc :=
  MkDoc (dFor d) (dClient d) (dNumber d) (dStatus d) (dTotal d) (dTaxRate d) (dBalance d - amount)
    (dPayments d ++ [MkPayment p amount 0]).

(** Giving money back reopens what is owed. *)
Definition refund (p : bytes) (amount : Z) (d : doc) : doc :=
  MkDoc (dFor d) (dClient d) (dNumber d) (dStatus d) (dTotal d) (dTaxRate d) (dBalance d + amount)
    ((λ q, if bool_decide (pID q = p) then MkPayment p (pAmount q) (pRefunded q + amount) else q) <$> dPayments d).

Definition refundable (p : bytes) (amount : Z) (d : doc) : bool :=
  existsb (λ q, bool_decide (pID q = p) && (pRefunded q + amount <=? pAmount q)) (dPayments d).

(** A payment of zero on the invoice that draws on the credit note. *)
Definition settle (p : bytes) (amount : Z) (d : doc) : doc :=
  MkDoc (dFor d) (dClient d) (dNumber d) (dStatus d) (dTotal d) (dTaxRate d) (dBalance d - amount)
    (dPayments d ++ [MkPayment p 0 0]).

Definition draw (amount : Z) (d : doc) : doc :=
  MkDoc (dFor d) (dClient d) (dNumber d) (dStatus d) (dTotal d) (dTaxRate d) (dBalance d - amount) (dPayments d).

Class BillingSystem := {
  books : Type;
  invoices : books → gmap bytes doc;
  credits : books → gmap bytes doc;
  clients : books → filter → list (bytes * bytes);
  create_client : books → customer → option (books * bytes);
  create_invoice : books → bytes → line → books * bytes;
  send_invoice : books → bytes → books;
  pay_invoice : books → bytes → Z → books;
  create_credit : books → bytes → line → books * bytes;
  send_credit : books → bytes → books;
  refund_payment : books → bytes → bytes → Z → option books;
  apply_credit : books → bytes → bytes → Z → books;

  create_client_docs b c b' i : create_client b c = Some (b', i) →
    i ≠ [] ∧ invoices b' = invoices b ∧ credits b' = credits b;
  create_invoice_doc b g l b' i : create_invoice b g l = (b', i) →
    i ≠ [] ∧ invoices b !! i = None ∧ invoices b' = <[i := draft g l]> (invoices b) ∧
    credits b' = credits b;
  send_invoice_doc b i d : invoices b !! i = Some d → ∃ n, n ≠ [] ∧
    (∀ j d', invoices b !! j = Some d' → dNumber d' ≠ n) ∧
    invoices (send_invoice b i) = <[i := send n d]> (invoices b) ∧
    credits (send_invoice b i) = credits b;
  send_invoice_none b i : invoices b !! i = None →
    invoices (send_invoice b i) = invoices b ∧ credits (send_invoice b i) = credits b;
  pay_invoice_doc b i a d : invoices b !! i = Some d → ∃ p,
    (∀ j d' q, invoices b !! j = Some d' → q ∈ dPayments d' → pID q ≠ p) ∧
    invoices (pay_invoice b i a) = <[i := pay p a d]> (invoices b) ∧
    credits (pay_invoice b i a) = credits b;
  pay_invoice_none b i a : invoices b !! i = None →
    invoices (pay_invoice b i a) = invoices b ∧ credits (pay_invoice b i a) = credits b;
  create_credit_doc b g l b' i : create_credit b g l = (b', i) →
    i ≠ [] ∧ credits b !! i = None ∧ credits b' = <[i := draft g l]> (credits b) ∧
    invoices b' = invoices b;
  send_credit_doc b i d : credits b !! i = Some d → ∃ n, n ≠ [] ∧
    (∀ j d', credits b !! j = Some d' → dNumber d' ≠ n) ∧
    credits (send_credit b i) = <[i := send n d]> (credits b) ∧
    invoices (send_credit b i) = invoices b;
  send_credit_none b i : credits b !! i = None →
    credits (send_credit b i) = credits b ∧ invoices (send_credit b i) = invoices b;
  refund_payment_doc b p i a d : invoices b !! i = Some d →
    if refundable p a d
    then ∃ b', refund_payment b p i a = Some b' ∧
         invoices b' = <[i := refund p a d]> (invoices b) ∧ credits b' = credits b
    else refund_payment b p i a = None;
  refund_payment_none b p i a : invoices b !! i = None → refund_payment b p i a = None;
  apply_credit_docs b i c a di dc : invoices b !! i = Some di → credits b !! c = Some dc → ∃ p,
    (∀ j d' q, invoices b !! j = Some d' → q ∈ dPayments d' → pID q ≠ p) ∧
    invoices (apply_credit b i c a) = <[i := settle p a di]> (invoices b) ∧
    credits (apply_credit b i c a) = <[c := draw a dc]> (credits b);
  apply_credit_none b i c a : invoices b !! i = None ∨ credits b !! c = None →
    invoices (apply_credit b i c a) = invoices b ∧ credits (apply_credit b i c a) = credits b;
}.

(** ** A system that meets the interface *)

Record ref_books := MkRefBooks {
  ref_invoices : gmap bytes doc;
  ref_credits : gmap bytes doc;
  ref_clients : list (bytes * customer);
}.

(** Longer than everything in [l], so not in it. *)
Definition longer (l : list bytes) : bytes := replicate (S (max_list (length <$> l))) 49.

Lemma longer_fresh l x : x ∈ l → x ≠ longer l.
Proof.
  intros Hx E. assert (length x <= max_list (length <$> l))%nat.
  { apply max_list_elem_of_le. by apply list_elem_of_fmap_2. }
  rewrite E in H. unfold longer in H at 1. rewrite length_replicate in H. lia.
Qed.

Lemma longer_new l : longer l ≠ [].
Proof. done. Qed.

Definition new_key {A} (m : gmap bytes A) : bytes := longer (map_to_list m).*1.
Definition new_number (m : gmap bytes doc) : bytes := longer (dNumber <$> (map_to_list m).*2).
Definition new_payment (m : gmap bytes doc) : bytes :=
  longer (d ← (map_to_list m).*2; pID <$> dPayments d).

Lemma new_key_fresh {A} (m : gmap bytes A) : m !! new_key m = None.
Proof.
  destruct (m !! new_key m) as [x|] eqn:E; [|done]. exfalso.
  apply elem_of_map_to_list in E. eapply (longer_fresh _ (new_key m)); [|done].
  by apply (list_elem_of_fmap_2 fst) in E.
Qed.

Lemma new_number_fresh m j d : m !! j = Some d → dNumber d ≠ new_number m.
Proof.
  intros E%elem_of_map_to_list. apply longer_fresh. apply list_elem_of_fmap_2.
  by apply (list_elem_of_fmap_2 snd) in E.
Qed.

Lemma new_payment_fresh m j d q : m !! j = Some d → q ∈ dPayments d → pID q ≠ new_payment m.
Proof.
  intros E%elem_of_map_to_list Hq. apply longer_fresh. apply list_elem_of_bind. exists d.
  split; [by apply list_elem_of_fmap_2|by apply (list_elem_of_fmap_2 snd) in E].
Qed.

Definition with_invoice (b : ref_books) (i : bytes) (f : doc → doc) : ref_books :=
  MkRefBooks (alter f i (ref_invoices b)) (ref_credits b) (ref_clients b).
Definition with_credit (b : ref_books) (i : bytes) (f : doc → doc) : ref_books :=
  MkRefBooks (ref_invoices b) (alter f i (ref_credits b)) (ref_clients b).

Definition ref_match (f : filter) (c : customer) : bool :=
  match f with
  | ByEmail e => bool_decide (cEmail c = e)
  | ByIDNumber r => bool_decide (cIDNumber c = r)
  end.

Lemma alter_is_insert (m : gmap bytes doc) i f d : m !! i = Some d → alter f i m = <[i := f d]> m.
Proof. intros E. apply map_eq. intros j. destruct (decide (i = j)) as [<-|]; by simplify_map_eq. Qed.

Lemma alter_missing (m : gmap bytes doc) i f : m !! i = None → alter f i m = m.
Proof. intros E. apply map_eq. intros j. destruct (decide (i = j)) as [<-|]; by simplify_map_eq. Qed.

#[export, refine] Instance reference_books : BillingSystem := {|
  books := ref_books;
  invoices := ref_invoices;
  credits := ref_credits;
  clients b f := (λ c, (c.1, cIDNumber c.2)) <$> List.filter (λ c, ref_match f c.2) (ref_clients b);
  create_client b c :=
    if existsb (λ k, bool_decide (cIDNumber k.2 = cIDNumber c)) (ref_clients b) then None
    else let i := longer (ref_clients b).*1 in
         Some (MkRefBooks (ref_invoices b) (ref_credits b) (ref_clients b ++ [(i, c)]), i);
  create_invoice b g l :=
    let i := new_key (ref_invoices b) in
    (MkRefBooks (<[i := draft g l]> (ref_invoices b)) (ref_credits b) (ref_clients b), i);
  send_invoice b i := with_invoice b i (send (new_number (ref_invoices b)));
  pay_invoice b i a := with_invoice b i (pay (new_payment (ref_invoices b)) a);
  create_credit b g l :=
    let i := new_key (ref_credits b) in
    (MkRefBooks (ref_invoices b) (<[i := draft g l]> (ref_credits b)) (ref_clients b), i);
  send_credit b i := with_credit b i (send (new_number (ref_credits b)));
  refund_payment b p i a :=
    match ref_invoices b !! i with
    | Some d => if refundable p a d then Some (with_invoice b i (refund p a)) else None
    | None => None
    end;
  apply_credit b i c a :=
    match ref_invoices b !! i, ref_credits b !! c with
    | Some _, Some _ => with_credit (with_invoice b i (settle (new_payment (ref_invoices b)) a)) c (draw a)
    | _, _ => b
    end;
|}.
Proof.
  all: cbn; intros.
  - case_match; simplify_eq. done.
  - simplify_eq. split; [done|]. split; [apply new_key_fresh|done].
  - eexists. split; [apply longer_new|]. split; [intros j d' Hj; by eapply new_number_fresh|].
    split; [by apply alter_is_insert|done].
  - by rewrite alter_missing.
  - eexists. split; [intros j d' q Hj Hq; by eapply new_payment_fresh|]. split; [by apply alter_is_insert|done].
  - by rewrite alter_missing.
  - simplify_eq. split; [done|]. split; [apply new_key_fresh|done].
  - eexists. split; [apply longer_new|]. split; [intros j d' Hj; by eapply new_number_fresh|].
    split; [by apply alter_is_insert|done].
  - by rewrite alter_missing.
  - rewrite H. destruct (refundable p a d); [|done]. eexists. split; [done|]. split; [by apply alter_is_insert|done].
  - by rewrite H.
  - rewrite H, H0. eexists. split; [intros j d' q Hj Hq; by eapply new_payment_fresh|].
    split; by apply alter_is_insert.
  - destruct H as [-> | ->]; [done|]. by destruct (ref_invoices b !! i).
Defined.

End Books.
