(* ===== verification/BillStore.v ===== *)
(** The billing tables of the SQLite store ([internal/store/sqlite/receipts.go], [refunds.go],
    [tenants.go]).

    Tables and columns are as in [SqlTable]; a struct read from a row is the row, its times the
    whole seconds of the columns.  A column that holds an error's text holds the error.  The
    settings of a tenant that no billing code reads are carried along as [tSettings]. *)
From S2P Require Import Prelude Text Vat Hubmsg SqlTable Books.

Module BillStore.
Import Text SqlTable Books.

Inductive error :=
| NoError
| ErrNoRows
| ErrNotFound
| ErrDB
| ErrBillingCountry
| ErrNotConfigured
| ErrWrongCurrency
| ErrBadAmount
| ErrInvoiceGone
| ErrNoTenant
| ErrAPI (status : Z)
| ErrNet
| ErrNew (text : bytes)
| Wrap (text : bytes) (e : error).

#[export] Instance error_eq : EqDecision error.
Proof. solve_decision. Defined.

(** [errors.Is] for the errors that carry nothing. *)
Fixpoint errors_Is (e target : error) : bool :=
  bool_decide (e = target) || match e with Wrap _ e => errors_Is e target | _ => false end.

(** [errors.As] for [*invoiceninja.Error]. *)
Fixpoint api_status (e : error) : option Z :=
  match e with ErrAPI s => Some s | Wrap _ e => api_status e | _ => None end.

(** ** Columns *)

(** [a < b] and [a <= b] on time columns, as texts. *)
Definition col_ltb (a b : option Z) : bool :=
  match a, b with
  | None, Some _ => true
  | Some x, Some y => x <? y
  | _, None => false
  end.
Definition col_leb (a b : option Z) : bool := negb (col_ltb b a).

(** A time of day from seconds since 1970, as seconds since 1 January of year 1. *)
Definition unix (sec : Z) : Z := sec + 62135596800.

Definition day : Z := 86400 * second.
Definition Period : Z := 32 * day.

Definition opt_time (c : option Z) : option Z := (λ s, s * second) <$> c.

(** ** Receipts *)

Inductive status := Pending | Issued | Blocked.

#[export] Instance status_eq : EqDecision status.
Proof. solve_decision. Defined.

(** The columns of a receipt that no statement updates. *)
Record ReceiptFacts := MkFacts {
  rID : bytes;
  rTenantID : bytes;
  DeliveryKey : bytes;
  TransactionID : bytes;
  rCountry : bytes;
  rEmail : bytes;
  rName : bytes;
  rAmountCents : Z;
  rCurrency : bytes;
  rPlan : bytes;
  rTierName : bytes;
  PaidAt : option Z;
  rCreatedAt : option Z;
}.

Record Receipt := MkReceipt {
  facts :> ReceiptFacts;
  rStatus : status;
  rAttempts : Z;
  rLastError : error;
  rNextAttemptAt : option Z;
  InvoiceNumber : bytes;
  InvoiceRef : bytes;
  PaymentRef : bytes;
  rIssuedAt : option Z;
  rUpdatedAt : option Z;
  rLeasedUntil : option Z;
}.

(** A receipt to insert: its facts with [CreatedAt] and an empty id to be filled in. *)
Definition with_id_created (f : ReceiptFacts) (id : bytes) (now : option Z) : ReceiptFacts :=
  MkFacts id (rTenantID f) (DeliveryKey f) (TransactionID f) (rCountry f) (rEmail f) (rName f)
    (rAmountCents f) (rCurrency f) (rPlan f) (rTierName f) (PaidAt f) now.

(** [INSERT OR IGNORE]: both the id and the delivery key are unique. *)
Definition CreateReceipt (f : ReceiptFacts) (next : option Z) (newID : bytes) (now : Z) (t : list Receipt)
  : result error (list Receipt * bool) :=
  if bool_decide (DeliveryKey f = []) then Err (ErrNew (str "receipt: delivery key is required"))
  else
    let id := if bool_decide (rID f = []) then newID else rID f in
    let row := MkReceipt (with_id_created f id (fmtTime now)) Pending 0 NoError
                 (match next with Some n => Some n | None => fmtTime now end)
                 [] [] [] None (fmtTime now) None in
    if existsb (λ r : Receipt, bool_decide (rID r = id) || bool_decide (DeliveryKey r = DeliveryKey f)) t
    then Ok (t, false) else Ok (t ++ [row], true).

Definition GetReceiptByKey (key : bytes) (t : list Receipt) : option Receipt :=
  head (List.filter (λ r : Receipt, bool_decide (DeliveryKey r = key)) t).

Definition GetReceipt (id : bytes) (t : list Receipt) : option Receipt :=
  head (List.filter (λ r : Receipt, bool_decide (rID r = id)) t).

Definition GetReceiptByPaymentRef (ref : bytes) (t : list Receipt) : option Receipt :=
  if bool_decide (ref = []) then None
  else head (List.filter (λ r, bool_decide (PaymentRef r = ref)) t).

(** [ORDER BY created_at, id] *)
Definition by_created (c d : option Z) (i j : bytes) : Prop :=
  col_ltb c d = true ∨ c = d ∧ Hubmsg.bytes_le i j.

#[export] Instance by_created_dec c d i j : Decision (by_created c d i j).
Proof. unfold by_created. apply _. Defined.

Definition receipt_order (r s : Receipt) : Prop := by_created (rCreatedAt r) (rCreatedAt s) (rID r) (rID s).

#[export] Instance receipt_order_dec : RelDecision receipt_order.
Proof. intros r s. unfold receipt_order. apply _. Defined.

Definition due_receipt (now : option Z) (r : Receipt) : bool :=
  bool_decide (rStatus r = Pending) && col_leb (rNextAttemptAt r) now && col_ltb (rLeasedUntil r) now.

Definition ListDueReceipts (now : Z) (limit : nat) (t : list Receipt) : list Receipt :=
  take (if (limit =? 0)%nat then 50%nat else limit)
    (merge_sort receipt_order (List.filter (due_receipt (fmtTime now)) t)).

Definition SetReceiptPaymentRef (key ref : bytes) (now : Z) (t : list Receipt) : list Receipt :=
  fst (sql_update (λ r : Receipt, bool_decide (DeliveryKey r = key))
    (λ r, MkReceipt (facts r) (rStatus r) (rAttempts r) (rLastError r) (rNextAttemptAt r)
            (InvoiceNumber r) (InvoiceRef r) ref (rIssuedAt r) (fmtTime now) (rLeasedUntil r)) t).

Definition has_rid (id : bytes) (r : Receipt) : bool := bool_decide (rID r = id).

Definition SetReceiptInvoice (id ref : bytes) (now : Z) (t : list Receipt) : list Receipt :=
  fst (sql_update (has_rid id)
    (λ r, MkReceipt (facts r) (rStatus r) (rAttempts r) (rLastError r) (rNextAttemptAt r)
            (InvoiceNumber r) ref (PaymentRef r) (rIssuedAt r) (fmtTime now) (rLeasedUntil r)) t).

Definition MarkReceiptIssued (id number ref : bytes) (at_ now : Z) (t : list Receipt) : list Receipt :=
  fst (sql_update (has_rid id)
    (λ r, MkReceipt (facts r) Issued (rAttempts r) NoError (rNextAttemptAt r)
            number ref (PaymentRef r) (fmtTime at_) (fmtTime now) (rLeasedUntil r)) t).

Definition MarkReceiptAttempt (id : bytes) (e : error) (next now : Z) (t : list Receipt) : list Receipt :=
  fst (sql_update (has_rid id)
    (λ r, MkReceipt (facts r) (rStatus r) (rAttempts r + 1) e (fmtTime next)
            (InvoiceNumber r) (InvoiceRef r) (PaymentRef r) (rIssuedAt r) (fmtTime now) (rLeasedUntil r)) t).

Definition BlockReceipt (id : bytes) (reason : error) (now : Z) (t : list Receipt) : list Receipt :=
  fst (sql_update (λ r, has_rid id r && negb (bool_decide (rStatus r = Issued)))
    (λ r, MkReceipt (facts r) Blocked (rAttempts r) reason (rNextAttemptAt r)
            (InvoiceNumber r) (InvoiceRef r) (PaymentRef r) (rIssuedAt r) (fmtTime now) (rLeasedUntil r)) t).

Definition RequeueReceipt (id : bytes) (at_ now : Z) (t : list Receipt) : list Receipt * result error unit :=
  let '(t', n) := sql_update (λ r, has_rid id r && bool_decide (rStatus r = Blocked))
    (λ r, MkReceipt (facts r) Pending (rAttempts r) NoError (fmtTime at_)
            (InvoiceNumber r) (InvoiceRef r) (PaymentRef r) (rIssuedAt r) (fmtTime now) (rLeasedUntil r)) t in
  (t', if (n =? 0)%nat then Err ErrNotFound else Ok tt).

Definition ClaimReceipt (id : bytes) (until now : Z) (t : list Receipt) : list Receipt * bool :=
  let '(t', n) := sql_update (λ r, has_rid id r && col_ltb (rLeasedUntil r) (fmtTime now))
    (λ r, MkReceipt (facts r) (rStatus r) (rAttempts r) (rLastError r) (rNextAttemptAt r)
            (InvoiceNumber r) (InvoiceRef r) (PaymentRef r) (rIssuedAt r) (fmtTime now) (fmtTime until)) t in
  (t', (n =? 1)%nat).

Definition ReleaseReceipt (id : bytes) (t : list Receipt) : list Receipt :=
  fst (sql_update (has_rid id)
    (λ r, MkReceipt (facts r) (rStatus r) (rAttempts r) (rLastError r) (rNextAttemptAt r)
            (InvoiceNumber r) (InvoiceRef r) (PaymentRef r) (rIssuedAt r) (rUpdatedAt r) None) t).

(** ** Refunds *)

(** The columns of a refund that no statement updates. *)
Record RefundFacts := MkRefundFacts {
  fID : bytes;
  fTenantID : bytes;
  fReceiptID : bytes;
  fAmountCents : Z;
  fCurrency : bytes;
  fCountry : bytes;
  fReason : bytes;
  fRequestedBy : bytes;
  RefundedAt : option Z;
  fCreatedAt : option Z;
}.

Record Refund := MkRefund {
  refund_facts :> RefundFacts;
  fStatus : status;
  fAttempts : Z;
  fLastError : error;
  fNextAttemptAt : option Z;
  CreditNumber : bytes;
  CreditRef : bytes;
  fIssuedAt : option Z;
  fUpdatedAt : option Z;
  fLeasedUntil : option Z;
}.

Definition CreateRefund (f : RefundFacts) (newID : bytes) (now : Z) (t : list Refund)
  : result error (list Refund * bool) :=
  if bool_decide (fReceiptID f = []) then Err (ErrNew (str "refund: receipt id is required"))
  else
    let id := if bool_decide (fID f = []) then newID else fID f in
    let facts := MkRefundFacts id (fTenantID f) (fReceiptID f) (fAmountCents f) (fCurrency f) (fCountry f)
                   (fReason f) (fRequestedBy f)
                   (match RefundedAt f with Some n => Some n | None => fmtTime now end) (fmtTime now) in
    let row := MkRefund facts Pending 0 NoError (fmtTime now) [] [] None (fmtTime now) None in
    if existsb (λ r : Refund, bool_decide (fID r = id) || bool_decide (fReceiptID r = fReceiptID f)) t
    then Ok (t, false) else Ok (t ++ [row], true).

Definition refund_order (r s : Refund) : Prop := by_created (fCreatedAt r) (fCreatedAt s) (fID r) (fID s).

#[export] Instance refund_order_dec : RelDecision refund_order.
Proof. intros r s. unfold refund_order. apply _. Defined.

Definition due_refund (now : option Z) (r : Refund) : bool :=
  bool_decide (fStatus r = Pending) && col_leb (fNextAttemptAt r) now && col_ltb (fLeasedUntil r) now.

Definition ListDueRefunds (now : Z) (limit : nat) (t : list Refund) : list Refund :=
  take (if (limit =? 0)%nat then 50%nat else limit)
    (merge_sort refund_order (List.filter (due_refund (fmtTime now)) t)).

Definition has_fid (id : bytes) (r : Refund) : bool := bool_decide (fID r = id).

Definition SetRefundCredit (id ref : bytes) (now : Z) (t : list Refund) : list Refund :=
  fst (sql_update (has_fid id)
    (λ r, MkRefund (refund_facts r) (fStatus r) (fAttempts r) (fLastError r) (fNextAttemptAt r)
            (CreditNumber r) ref (fIssuedAt r) (fmtTime now) (fLeasedUntil r)) t).

Definition MarkRefundIssued (id number ref : bytes) (at_ now : Z) (t : list Refund) : list Refund :=
  fst (sql_update (has_fid id)
    (λ r, MkRefund (refund_facts r) Issued (fAttempts r) NoError (fNextAttemptAt r)
            number ref (fmtTime at_) (fmtTime now) (fLeasedUntil r)) t).

Definition MarkRefundAttempt (id : bytes) (e : error) (next now : Z) (t : list Refund) : list Refund :=
  fst (sql_update (has_fid id)
    (λ r, MkRefund (refund_facts r) (fStatus r) (fAttempts r + 1) e (fmtTime next)
            (CreditNumber r) (CreditRef r) (fIssuedAt r) (fmtTime now) (fLeasedUntil r)) t).

Definition BlockRefund (id : bytes) (reason : error) (now : Z) (t : list Refund) : list Refund :=
  fst (sql_update (has_fid id)
    (λ r, MkRefund (refund_facts r) Blocked (fAttempts r) reason (fNextAttemptAt r)
            (CreditNumber r) (CreditRef r) (fIssuedAt r) (fmtTime now) (fLeasedUntil r)) t).

Definition RequeueRefund (id : bytes) (at_ now : Z) (t : list Refund) : list Refund * result error unit :=
  let '(t', n) := sql_update (λ r, has_fid id r && bool_decide (fStatus r = Blocked))
    (λ r, MkRefund (refund_facts r) Pending (fAttempts r) NoError (fmtTime at_)
            (CreditNumber r) (CreditRef r) (fIssuedAt r) (fmtTime now) (fLeasedUntil r)) t in
  (t', if (n =? 0)%nat then Err ErrNotFound else Ok tt).

Definition DeleteRefund (id : bytes) (t : list Refund) : list Refund * result error unit :=
  let p := λ r, has_fid id r && negb (bool_decide (fStatus r = Issued)) && bool_decide (CreditRef r = []) in
  (List.filter (λ r, negb (p r)) t, if existsb p t then Ok tt else Err ErrNotFound).

Definition ClaimRefund (id : bytes) (until now : Z) (t : list Refund) : list Refund * bool :=
  let '(t', n) := sql_update (λ r, has_fid id r && col_ltb (fLeasedUntil r) (fmtTime now))
    (λ r, MkRefund (refund_facts r) (fStatus r) (fAttempts r) (fLastError r) (fNextAttemptAt r)
            (CreditNumber r) (CreditRef r) (fIssuedAt r) (fmtTime now) (fmtTime until)) t in
  (t', (n =? 1)%nat).

Definition ReleaseRefund (id : bytes) (t : list Refund) : list Refund :=
  fst (sql_update (has_fid id)
    (λ r, MkRefund (refund_facts r) (fStatus r) (fAttempts r) (fLastError r) (fNextAttemptAt r)
            (CreditNumber r) (CreditRef r) (fIssuedAt r) (fUpdatedAt r) None) t).

(** ** Tenants *)

Record Tenant := MkTenant {
  tID : bytes;
  tOwnerUserID : bytes;
  tPlan : bytes;
  tStatus : bytes;
  tDeletedAt : option Z;
  PlanExpiresAt : option Z;
  LapseWarnedAt : option Z;
  BillingCountry : bytes;
  BillingCountryEvidence : bytes;
  StripeCustomerID : bytes;
  StripeSubscriptionID : bytes;
  tSettings : list bytes;
  tCreatedAt : option Z;
  tUpdatedAt : option Z;
}.

Definition DefaultTenantID : bytes := str "default".
Definition DonationPlan : bytes := str "donation".

Definition CheckBillingCountry (t : Tenant) : bool :=
  bool_decide (BillingCountry t = []) || Vat.IsAlpha2 (BillingCountry t).

Definition GetTenant (id : bytes) (t : list Tenant) : option Tenant :=
  head (List.filter (λ r, bool_decide (tID r = id)) t).

Definition TenantByStripeCustomer (customer : bytes) (t : list Tenant) : option Tenant :=
  if bool_decide (TrimSpace customer = []) then None
  else head (List.filter (λ r, bool_decide (StripeCustomerID r = customer)) t).

Definition tenant_order (r s : Tenant) : Prop := by_created (tCreatedAt r) (tCreatedAt s) (tID r) (tID s).

#[export] Instance tenant_order_dec : RelDecision tenant_order.
Proof. intros r s. unfold tenant_order. apply _. Defined.

Definition ListTenants (t : list Tenant) : list Tenant := merge_sort tenant_order t.

(** Every column but the id and the creation time is written back. *)
Definition UpdateTenant (x : Tenant) (now : Z) (t : list Tenant) : result error (list Tenant) :=
  if CheckBillingCountry x
  then Ok (fst (sql_update (λ r, bool_decide (tID r = tID x))
         (λ r, MkTenant (tID r) (tOwnerUserID x) (tPlan x) (tStatus x) (tDeletedAt x) (PlanExpiresAt x)
                 (LapseWarnedAt x) (BillingCountry x) (BillingCountryEvidence x) (StripeCustomerID x)
                 (StripeSubscriptionID x) (tSettings x) (tCreatedAt r) (fmtTime now)) t))
  else Err ErrBillingCountry.

(** The event ids applied so far. *)
Definition ApplyStripeEvent (id : bytes) (t : list bytes) : result error (list bytes * bool) :=
  if bool_decide (TrimSpace id = []) then Err (ErrNew (str "sqlite: a Stripe event id is required"))
  else if existsb (λ x, bool_decide (x = id)) t then Ok (t, false) else Ok (t ++ [id], true).

Record user := MkUser { uTenantID : bytes; uID : bytes; uEmail : bytes; uName : bytes }.

Definition GetUserByID (tenantID id : bytes) (t : list user) : option user :=
  head (List.filter (λ u, bool_decide (uTenantID u = tenantID) && bool_decide (uID u = id)) t).

End BillStore.
