(* ===== verification/BillWorld.v ===== *)
(** What the billing programs act on: the tables of [BillStore], the billing system of [Books],
    mail, the audit log and the tenant cache, with the calls the programs make and what a call
    does.  A call may fail before or after it took effect.  Letters are kept before they are
    rendered, audit lines without their detail. *)
From S2P Require Import Prelude SqlTable Books BillStore Effects.

Module BillWorld.
Import SqlTable Books BillStore Effects.

(** The messages of [internal/mail] these programs send; amounts as cents, currency and country. *)
Inductive letter :=
| LapseWarning (name plan : bytes) (expires : Z)
| Lapsed (name was : bytes) (ended : Z)
| DonationReceipt (name : bytes) (cents : Z) (currency country number : bytes)
| Refunded (name : bytes) (cents : Z) (currency country credit invoice : bytes) (planEnds : option Z)
| RefundedNoDocument (name : bytes) (cents : Z) (currency country : bytes) (planEnds : option Z)
| PlanChanged (name plan : bytes) (expires : Z)
| PaymentFailed (name plan : bytes) (cents : Z) (currency country : bytes) (retryAt ends : option Z).

(** [attached] is the id of the document whose PDF goes with it. *)
Record mail := MkMail { mTo : bytes; mLetter : letter; attached : option bytes }.

(** What the client reads of an invoice or a credit note. *)
Record invoice := MkInvoice {
  iID : bytes;
  iNumber : bytes;
  iClientID : bytes;
  iStatusID : Z;
  iBalance : Z;
}.

Record invoiceEnvelope := MkEnvelope { einvoice :> invoice; eAmount : Z; ePayments : list payment }.

Definition view (i : bytes) (d : doc) : invoice := MkInvoice i (dNumber d) (dClient d) (dStatus d) (dBalance d).

Definition view_payments (i : bytes) (d : doc) : invoiceEnvelope := MkEnvelope (view i d) (dTotal d) (dPayments d).

(** The calls.  Two arguments are not part of them: for [CCreateInvoice] and [CCreateCredit] see
    [Books.dFor]; [refund] of [CUpdateTenant] is the refund that shortens the tenant's plan, and
    [shortened] lists the refunds that have. *)
Inductive call : Type → Type :=
| CListTenants : call (result error (list Tenant))
| CGetTenant (id : bytes) : call (result error Tenant)
| CTenantByStripeCustomer (customer : bytes) : call (result error Tenant)
| CUpdateTenant (t : Tenant) (refund : bytes) : call (result error unit)
| CApplyStripeEvent (id : bytes) : call (result error bool)
| CGetUserByID (tenantID id : bytes) : call (result error user)
| CCreateReceipt (f : ReceiptFacts) (next : option Z) : call (result error bool)
| CGetReceiptByKey (key : bytes) : call (result error Receipt)
| CGetReceipt (id : bytes) : call (result error Receipt)
| CGetReceiptByPaymentRef (ref : bytes) : call (result error Receipt)
| CListDueReceipts (now : Z) (limit : nat) : call (result error (list Receipt))
| CSetReceiptPaymentRef (key ref : bytes) : call (result error unit)
| CSetReceiptInvoice (id ref : bytes) : call (result error unit)
| CMarkReceiptIssued (id number ref : bytes) (at_ : Z) : call (result error unit)
| CMarkReceiptAttempt (id : bytes) (e : error) (next : Z) : call (result error unit)
| CBlockReceipt (id : bytes) (reason : error) : call (result error unit)
| CRequeueReceipt (id : bytes) (at_ : Z) : call (result error unit)
| CClaimReceipt (id : bytes) (until : Z) : call (result error bool)
| CReleaseReceipt (id : bytes) : call (result error unit)
| CCreateRefund (f : RefundFacts) : call (result error bool)
| CListDueRefunds (now : Z) (limit : nat) : call (result error (list Refund))
| CSetRefundCredit (id ref : bytes) : call (result error unit)
| CMarkRefundIssued (id number ref : bytes) (at_ : Z) : call (result error unit)
| CMarkRefundAttempt (id : bytes) (e : error) (next : Z) : call (result error unit)
| CBlockRefund (id : bytes) (reason : error) : call (result error unit)
| CRequeueRefund (id : bytes) (at_ : Z) : call (result error unit)
| CDeleteRefund (id : bytes) : call (result error unit)
| CClaimRefund (id : bytes) (until : Z) : call (result error bool)
| CReleaseRefund (id : bytes) : call (result error unit)
| CGetInvoice (id : bytes) : call (result error invoice)
| CInvoiceWithPayments (id : bytes) : call (result error invoiceEnvelope)
| CFindClients (f : filter) : call (result error (list (bytes * bytes)))
| CCreateClient (c : customer) : call (result error bytes)
| CCreateInvoice (for_ : bytes) (l : line) : call (result error invoice)
| CMarkSent (id : bytes) : call (result error (list invoice))
| CRecordPayment (client invoice : bytes) (cents day : Z) (reference : bytes) (emailReceipt : bool) : call (result error unit)
| CGetCredit (id : bytes) : call (result error invoice)
| CCreateCredit (for_ : bytes) (l : line) : call (result error invoice)
| CMarkCreditSent (id : bytes) : call (result error (list invoice))
| CRefundPayment (payment invoice : bytes) (cents day : Z) : call (result error unit)
| CApplyCredit (client invoice credit : bytes) (cents day : Z) : call (result error unit)
| CDocumentPDF (credit : bool) (id : bytes) : call (result error unit)
| CMail (m : mail) : call (result error unit)
| CAudit (tenantID action : bytes) : call (result error unit)
| CForget (tenantID : bytes) : call unit
| CXid : call bytes
| CCtxErr : call bool
| CNow : call Z.

(** A call goes through, is lost before it takes effect, or its reply is lost after.  A lost
    call to the billing system comes back as a status or as no answer. *)
Inductive fault := NoFault | CallLost (status : option Z) | ReplyLost (status : option Z).

(** The billing system answers 404 only for what it does not have, and failures are failures. *)
Definition fault_ok (f : fault) : Prop :=
  match f with
  | CallLost (Some s) | ReplyLost (Some s) => s ≠ 404 ∧ (s < 200 ∨ 299 < s)
  | _ => True
  end.

Section World.
Context `{BillingSystem}.

Record world := MkWorld {
  tenants : list Tenant;
  users : list user;
  receipts : list Receipt;
  refunds : list Refund;
  stripe_events : list bytes;
  ledger : books;
  mails : list mail;
  audited : list (bytes * bytes);
  forgotten : list bytes;
  shortened : list bytes;
}.

Definition set_tenants (x : list Tenant) (w : world) : world :=
  MkWorld x (users w) (receipts w) (refunds w) (stripe_events w) (ledger w) (mails w) (audited w) (forgotten w) (shortened w).
Definition set_receipts (x : list Receipt) (w : world) : world :=
  MkWorld (tenants w) (users w) x (refunds w) (stripe_events w) (ledger w) (mails w) (audited w) (forgotten w) (shortened w).
Definition set_refunds (x : list Refund) (w : world) : world :=
  MkWorld (tenants w) (users w) (receipts w) x (stripe_events w) (ledger w) (mails w) (audited w) (forgotten w) (shortened w).
Definition set_events (x : list bytes) (w : world) : world :=
  MkWorld (tenants w) (users w) (receipts w) (refunds w) x (ledger w) (mails w) (audited w) (forgotten w) (shortened w).
Definition set_ledger (x : books) (w : world) : world :=
  MkWorld (tenants w) (users w) (receipts w) (refunds w) (stripe_events w) x (mails w) (audited w) (forgotten w) (shortened w).
Definition set_mails (x : list mail) (w : world) : world :=
  MkWorld (tenants w) (users w) (receipts w) (refunds w) (stripe_events w) (ledger w) x (audited w) (forgotten w) (shortened w).
Definition set_audited (x : list (bytes * bytes)) (w : world) : world :=
  MkWorld (tenants w) (users w) (receipts w) (refunds w) (stripe_events w) (ledger w) (mails w) x (forgotten w) (shortened w).
Definition set_forgotten (x : list bytes) (w : world) : world :=
  MkWorld (tenants w) (users w) (receipts w) (refunds w) (stripe_events w) (ledger w) (mails w) (audited w) x (shortened w).
Definition set_shortened (x : list bytes) (w : world) : world :=
  MkWorld (tenants w) (users w) (receipts w) (refunds w) (stripe_events w) (ledger w) (mails w) (audited w) (forgotten w) x.

Definition lost_with (db : bool) (s : option Z) : error :=
  if db then ErrDB else match s with Some n => ErrAPI n | None => ErrNet end.

(** The answer [x] and the world [w'] of a call made in [w]; [db] for the store and the mail. *)
Definition reply {X} (db : bool) (f : fault) (w w' : world) (x : result error X) : world * result error X :=
  match f with
  | NoFault => (w', x)
  | CallLost s => (w, Err (lost_with db s))
  | ReplyLost s => (w', Err (lost_with db s))
  end.

Definition found {X} (e : error) (o : option X) : result error X :=
  match o with Some x => Ok x | None => Err e end.

Definition handle {X} (f : fault) (now : Z) (newID : bytes) (c : call X) (w : world) : world * X :=
  match c with
  | CListTenants => reply true f w w (Ok (ListTenants (tenants w)))
  | CGetTenant id => reply true f w w (found ErrNoRows (GetTenant id (tenants w)))
  | CTenantByStripeCustomer c => reply true f w w (found ErrNoRows (TenantByStripeCustomer c (tenants w)))
  | CUpdateTenant t r =>
      match UpdateTenant t now (tenants w) with
      | Ok ts =>
          let w' := set_tenants ts w in
          reply true f w (if bool_decide (r = []) then w' else set_shortened (shortened w ++ [r]) w') (Ok tt)
      | Err e => reply true f w w (Err e)
      end
  | CApplyStripeEvent id =>
      match ApplyStripeEvent id (stripe_events w) with
      | Ok (es, applied) => reply true f w (set_events es w) (Ok applied)
      | Err e => reply true f w w (Err e)
      end
  | CGetUserByID t id => reply true f w w (found ErrNoRows (GetUserByID t id (users w)))
  | CCreateReceipt r next =>
      match CreateReceipt r next newID now (receipts w) with
      | Ok (rs, created) => reply true f w (set_receipts rs w) (Ok created)
      | Err e => reply true f w w (Err e)
      end
  | CGetReceiptByKey key => reply true f w w (found ErrNotFound (GetReceiptByKey key (receipts w)))
  | CGetReceipt id => reply true f w w (found ErrNotFound (GetReceipt id (receipts w)))
  | CGetReceiptByPaymentRef ref => reply true f w w (found ErrNotFound (GetReceiptByPaymentRef ref (receipts w)))
  | CListDueReceipts n limit => reply true f w w (Ok (ListDueReceipts n limit (receipts w)))
  | CSetReceiptPaymentRef key ref =>
      reply true f w (set_receipts (SetReceiptPaymentRef key ref now (receipts w)) w) (Ok tt)
  | CSetReceiptInvoice id ref => reply true f w (set_receipts (SetReceiptInvoice id ref now (receipts w)) w) (Ok tt)
  | CMarkReceiptIssued id number ref at_ =>
      reply true f w (set_receipts (MarkReceiptIssued id number ref at_ now (receipts w)) w) (Ok tt)
  | CMarkReceiptAttempt id e next =>
      reply true f w (set_receipts (MarkReceiptAttempt id e next now (receipts w)) w) (Ok tt)
  | CBlockReceipt id reason => reply true f w (set_receipts (BlockReceipt id reason now (receipts w)) w) (Ok tt)
  | CRequeueReceipt id at_ =>
      let p := RequeueReceipt id at_ now (receipts w) in reply true f w (set_receipts (fst p) w) (snd p)
  | CClaimReceipt id until =>
      let p := ClaimReceipt id until now (receipts w) in reply true f w (set_receipts (fst p) w) (Ok (snd p))
  | CReleaseReceipt id => reply true f w (set_receipts (ReleaseReceipt id (receipts w)) w) (Ok tt)
  | CCreateRefund r =>
      match CreateRefund r newID now (refunds w) with
      | Ok (rs, created) => reply true f w (set_refunds rs w) (Ok created)
      | Err e => reply true f w w (Err e)
      end
  | CListDueRefunds n limit => reply true f w w (Ok (ListDueRefunds n limit (refunds w)))
  | CSetRefundCredit id ref => reply true f w (set_refunds (SetRefundCredit id ref now (refunds w)) w) (Ok tt)
  | CMarkRefundIssued id number ref at_ =>
      reply true f w (set_refunds (MarkRefundIssued id number ref at_ now (refunds w)) w) (Ok tt)
  | CMarkRefundAttempt id e next =>
      reply true f w (set_refunds (MarkRefundAttempt id e next now (refunds w)) w) (Ok tt)
  | CBlockRefund id reason => reply true f w (set_refunds (BlockRefund id reason now (refunds w)) w) (Ok tt)
  | CRequeueRefund id at_ =>
      let p := RequeueRefund id at_ now (refunds w) in reply true f w (set_refunds (fst p) w) (snd p)
  | CDeleteRefund id => let p := DeleteRefund id (refunds w) in reply true f w (set_refunds (fst p) w) (snd p)
  | CClaimRefund id until =>
      let p := ClaimRefund id until now (refunds w) in reply true f w (set_refunds (fst p) w) (Ok (snd p))
  | CReleaseRefund id => reply true f w (set_refunds (ReleaseRefund id (refunds w)) w) (Ok tt)
  | CGetInvoice id => reply false f w w (found (ErrAPI 404) (view id <$> invoices (ledger w) !! id))
  | CInvoiceWithPayments id => reply false f w w (found (ErrAPI 404) (view_payments id <$> invoices (ledger w) !! id))
  | CFindClients q => reply false f w w (Ok (clients (ledger w) q))
  | CCreateClient c =>
      match create_client (ledger w) c with
      | Some (b, i) => reply false f w (set_ledger b w) (Ok i)
      | None => reply false f w w (Err (ErrAPI 422))
      end
  | CCreateInvoice g l =>
      let p := create_invoice (ledger w) g l in
      reply false f w (set_ledger (fst p) w) (Ok (view (snd p) (draft g l)))
  | CMarkSent id =>
      let b := send_invoice (ledger w) id in
      reply false f w (set_ledger b w) (Ok (option_list (view id <$> invoices b !! id)))
  | CRecordPayment _ id cents _ _ _ => reply false f w (set_ledger (pay_invoice (ledger w) id cents) w) (Ok tt)
  | CGetCredit id => reply false f w w (found (ErrAPI 404) (view id <$> credits (ledger w) !! id))
  | CCreateCredit g l =>
      let p := create_credit (ledger w) g l in
      reply false f w (set_ledger (fst p) w) (Ok (view (snd p) (draft g l)))
  | CMarkCreditSent id =>
      let b := send_credit (ledger w) id in
      reply false f w (set_ledger b w) (Ok (option_list (view id <$> credits b !! id)))
  | CRefundPayment p id cents _ =>
      match refund_payment (ledger w) p id cents with
      | Some b => reply false f w (set_ledger b w) (Ok tt)
      | None => reply false f w w (Err (ErrAPI 422))
      end
  | CApplyCredit _ id credit cents _ =>
      reply false f w (set_ledger (apply_credit (ledger w) id credit cents) w) (Ok tt)
  | CDocumentPDF _ _ => reply false f w w (Ok tt)
  | CMail m => reply true f w (set_mails (mails w ++ [m]) w) (Ok tt)
  | CAudit t a => reply true f w (set_audited (audited w ++ [(t, a)]) w) (Ok tt)
  | CForget t => (set_forgotten (forgotten w ++ [t]) w, tt)
  | CXid => (w, newID)
  | CCtxErr => (w, match f with NoFault => false | _ => true end)
  | CNow => (w, now)
  end.

(** A call at any time, with any new id and any fault. *)
Definition act (X : Type) (c : call X) (w w' : world) (x : X) : Prop :=
  ∃ f now newID, fault_ok f ∧ handle f now newID c w = (w', x).

(** A program alone: the faults and the times of its calls, one by one; no fault and the last
    time when the list runs out.  [newID] is every id that is drawn. *)
Fixpoint run {R} (script : list (fault * Z)) (now : Z) (newID : bytes) (p : prog call R) (w : world) : world * R :=
  match p with
  | Ret r => (w, r)
  | Do c k =>
      let '(f, now, script) := match script with [] => (NoFault, now, []) | (f, t) :: s => (f, t, s) end in
      let '(w', x) := handle f now newID c w in run script now newID (k x) w'
  end.

Lemma bill_run_bind {A B} now id (p : prog call A) (f : A → prog call B) w :
  run [] now id (a ← p; f a) w = (let '(w', a) := run [] now id p w in run [] now id (f a) w').
Proof.
  revert w; induction p as [a|X c k IH]; intros w; [done|].
  cbn; destruct (handle NoFault now id c w) as [w' x]; apply IH.
Qed.

End World.

End BillWorld.
