(* ===== verification/InvoiceNinja.v ===== *)
(** The client of the billing system, [internal/invoiceninja/client.go] and [credits.go]: one
    receipt or one credit note, resumable after any failure.  JSON and HTTP are left out: a
    request is its call, an answer that is not 2xx is [ErrAPI].  Amounts are in cents on both
    sides, so [toCents] is the identity. *)
From S2P Require Import Prelude Text SqlTable Books BillStore Effects BillWorld.

Module InvoiceNinja.
Import Text SqlTable Books BillStore Effects BillWorld.

Notation prog := (Effects.prog call).

Record Client := MkClient {
  configured : bool;
  TaxName : bytes;
  TaxRate : Z;
  CountryID : bytes;
  Currency : bytes;
}.

Definition New (baseURL token : bytes) : Client :=
  MkClient (negb (bool_decide (baseURL = [])) && negb (bool_decide (token = [])))
    (str "BTW 21") 21 (str "528") (str "EUR").

(** [qFor] is not part of the request: see [Books.dFor]. *)
Record Request := MkRequest {
  qFor : bytes;
  CustomerRef : bytes;
  qName : bytes;
  qEmail : bytes;
  CountryCode : bytes;
  qAmountCents : Z;
  qCurrency : bytes;
  ProductKey : bytes;
  Description : bytes;
  TaxExempt : bool;
  SuppressReceiptEmail : bool;
  qPaidAt : option Z;
  Reference : bytes;
  ExistingInvoiceID : bytes;
  OnInvoiceCreated : bytes → prog (result error unit);
}.

Record Result := MkResult { InvoiceID : bytes; ResultNumber : bytes }.

(** [strings.EqualFold] with a text that has no k or s, whose other foldings are not ASCII. *)
Definition EqualFold (a b : bytes) : bool := bool_decide (ToLower a = ToLower b).

(** [Format("2006-01-02")], as the day it names. *)
Definition date (t : option Z) : Z := default 0 t / 86400.

Definition isoNumeric : list (bytes * bytes) :=
  prod_map bytes_of_string bytes_of_string <$>
    [("AT", "040"); ("BE", "056"); ("BG", "100"); ("HR", "191"); ("CY", "196"); ("CZ", "203");
     ("DK", "208"); ("EE", "233"); ("FI", "246"); ("FR", "250"); ("DE", "276"); ("GR", "300");
     ("EL", "300"); ("HU", "348"); ("IE", "372"); ("IT", "380"); ("LV", "428"); ("LT", "440");
     ("LU", "442"); ("MT", "470"); ("NL", "528"); ("PL", "616"); ("PT", "620"); ("RO", "642");
     ("SK", "703"); ("SI", "705"); ("ES", "724"); ("SE", "752")]%string.

Section Calls.
Context (c : Client).

Definition countryIDFor (alpha2 : bytes) : bytes :=
  match List.find (λ p, bool_decide (p.1 = ToUpper (TrimSpace alpha2))) isoNumeric with
  | Some p => p.2
  | None => CountryID c
  end.

(** The first match with an id and, when [wantRef] is set, with exactly that id number. *)
Definition pick_customer (wantRef : bytes) (l : list (bytes * bytes)) : bytes :=
  match List.find (λ d, negb (bool_decide (d.1 = [])) &&
                        (bool_decide (wantRef = []) || bool_decide (d.2 = wantRef))) l with
  | Some d => d.1
  | None => []
  end.

Definition findCustomer (q : filter) (wantRef : bytes) : prog (result error bytes) :=
  try! l := perform (CFindClients q) in
  Ret (Ok (pick_customer wantRef (take 2 l))).

Definition ensureCustomer (req : Request) : prog (result error bytes) :=
  try! id := findCustomer (ByEmail (qEmail req)) [] in
  if negb (bool_decide (id = [])) then Ret (Ok id)
  else
    let ref := TrimSpace (CustomerRef req) in
    try! id := (if bool_decide (ref = []) then Ret (Ok []) else findCustomer (ByIDNumber ref) ref) in
    if negb (bool_decide (id = [])) then Ret (Ok id)
    else
      let name := if bool_decide (qName req = []) then qEmail req else qName req in
      try! id := perform (CCreateClient (MkCustomer name (CustomerRef req) (countryIDFor (CountryCode req)) (qEmail req))) in
      if bool_decide (id = []) then Ret (Err (ErrNew (str "invoiceninja: customer created without an id")))
      else Ret (Ok id).

Definition create (req : Request) : prog (result error invoice) :=
  try! clientID := ensureCustomer req in
  let taxName := if TaxExempt req then [] else TaxName c in
  let taxRate := if TaxExempt req then 0 else TaxRate c in
  try! inv := perform (CCreateInvoice (qFor req)
                (MkLine clientID (date (qPaidAt req)) (ProductKey req) (Description req) (qAmountCents req) taxName taxRate)) in
  if bool_decide (iID inv = []) then Ret (Err (ErrNew (str "invoiceninja: invoice created without an id")))
  else
    r ← OnInvoiceCreated req (iID inv);
    match r with
    | Err e => Ret (Err (Wrap (str "invoiceninja: recording the new invoice failed, stopping before it is sent") e))
    | Ok _ => Ret (Ok inv)
    end.

Definition resumeOrCreate (req : Request) : prog (result error invoice) :=
  if bool_decide (ExistingInvoiceID req = []) then create req
  else
    r ← perform (CGetInvoice (ExistingInvoiceID req));
    match r with
    | Ok inv => Ret (Ok inv)
    | Err e => if bool_decide (api_status e = Some 404) then create req else Ret (Err e)
    end.

Definition markSent (invoiceID : bytes) : prog (result error invoice) :=
  try! l := perform (CMarkSent invoiceID) in
  match l with
  | [] => Ret (Err (ErrNew (str "invoiceninja: mark_sent returned no invoice")))
  | inv :: _ =>
      if bool_decide (iNumber inv = []) then Ret (Err (ErrNew (str "invoiceninja: invoice was sent but has no number")))
      else Ret (Ok inv)
  end.

Definition recordPayment (clientID invoiceID : bytes) (req : Request) : prog (result error unit) :=
  perform (CRecordPayment clientID invoiceID (qAmountCents req) (date (qPaidAt req)) (Reference req)
             (negb (SuppressReceiptEmail req))).

Definition wrong_currency (currency : bytes) : bool :=
  negb (bool_decide (currency = [])) && negb (EqualFold currency (Currency c)).

Definition IssueReceipt (req : Request) : prog (result error Result) :=
  if negb (configured c) then Ret (Err ErrNotConfigured)
  else if wrong_currency (qCurrency req) then Ret (Err (Wrap (qCurrency req) ErrWrongCurrency))
  else if bool_decide (qEmail req = []) then Ret (Err (ErrNew (str "invoiceninja: no email address to send the receipt to")))
  else if qAmountCents req <=? 0 then Ret (Err (Wrap [] ErrBadAmount))
  else
    try! inv := resumeOrCreate req in
    try! inv := (if iStatusID inv =? statusDraft then markSent (iID inv) else Ret (Ok inv)) in
    try! _ := (if 0 <? iBalance inv then recordPayment (iClientID inv) (iID inv) req else Ret (Ok tt)) in
    Ret (Ok (MkResult (iID inv) (iNumber inv))).

(** ** Credit notes *)

Record CreditRequest := MkCreditRequest {
  nFor : bytes;
  nInvoiceID : bytes;
  nAmountCents : Z;
  nCurrency : bytes;
  nProductKey : bytes;
  nDescription : bytes;
  nRefundedAt : option Z;
  ExistingCreditID : bytes;
  OnCreditCreated : bytes → prog (result error unit);
}.

Record CreditResult := MkCreditResult { CreditID : bytes; ResultCredit : bytes; ResultInvoice : bytes }.

Definition invoiceWithPayments (id : bytes) : prog (result error invoiceEnvelope) :=
  r ← perform (CInvoiceWithPayments id);
  match r with
  | Err e => Ret (Err (if bool_decide (api_status e = Some 404) then ErrInvoiceGone else e))
  | Ok inv => Ret (if bool_decide (iID (einvoice inv) = []) then Err ErrInvoiceGone else Ok inv)
  end.

Definition refundablePayment (inv : invoiceEnvelope) (cents : Z) : option payment :=
  List.find (λ p, cents <=? pAmount p - pRefunded p) (ePayments inv).

Definition credit_notes (req : CreditRequest) (number : bytes) : bytes :=
  if bool_decide (number = []) then nDescription req
  else str "Refund of invoice " ++ number ++ str " -- " ++ nDescription req.

Definition createCredit (req : CreditRequest) (inv : invoiceEnvelope) : prog (result error invoice) :=
  try! credit := perform (CCreateCredit (nFor req)
       (MkLine (iClientID inv) (date (nRefundedAt req)) (nProductKey req) (credit_notes req (iNumber inv))
          (nAmountCents req) (TaxName c) (TaxRate c))) in
  if bool_decide (iID credit = []) then Ret (Err (ErrNew (str "invoiceninja: credit created without an id")))
  else
    r ← OnCreditCreated req (iID credit);
    match r with
    | Err e => Ret (Err (Wrap (str "invoiceninja: recording the new credit note failed, stopping before it is sent") e))
    | Ok _ => Ret (Ok credit)
    end.

Definition resumeOrCreateCredit (req : CreditRequest) (inv : invoiceEnvelope) : prog (result error invoice) :=
  if bool_decide (ExistingCreditID req = []) then createCredit req inv
  else
    r ← perform (CGetCredit (ExistingCreditID req));
    match r with
    | Ok credit => Ret (Ok credit)
    | Err e => if bool_decide (api_status e = Some 404) then createCredit req inv else Ret (Err e)
    end.

Definition markCreditSent (creditID : bytes) : prog (result error invoice) :=
  try! l := perform (CMarkCreditSent creditID) in
  match l with
  | [] => Ret (Err (ErrNew (str "invoiceninja: mark_sent returned no credit note")))
  | credit :: _ =>
      if bool_decide (iNumber credit = []) then Ret (Err (ErrNew (str "invoiceninja: credit note was sent but has no number")))
      else Ret (Ok credit)
  end.

Definition refundPayment (paymentID : bytes) (req : CreditRequest) (invoiceID : bytes) : prog (result error unit) :=
  perform (CRefundPayment paymentID invoiceID (nAmountCents req) (date (nRefundedAt req))).

Definition applyCredit (inv : invoiceEnvelope) (credit : invoice) (req : CreditRequest) : prog (result error unit) :=
  let cents := nAmountCents req in
  let cents := if iBalance inv <? cents then iBalance inv else cents in
  let cents := if iBalance credit <? cents then iBalance credit else cents in
  if cents <=? 0 then Ret (Ok tt)
  else perform (CApplyCredit (iClientID inv) (iID inv) (iID credit) cents (date (nRefundedAt req))).

Definition IssueCreditNote (req : CreditRequest) : prog (result error CreditResult) :=
  if negb (configured c) then Ret (Err ErrNotConfigured)
  else if bool_decide (nInvoiceID req = []) then Ret (Err (ErrNew (str "invoiceninja: no invoice to credit")))
  else if wrong_currency (nCurrency req) then Ret (Err (Wrap (nCurrency req) ErrWrongCurrency))
  else if nAmountCents req <=? 0 then Ret (Err (Wrap [] ErrBadAmount))
  else
    try! inv := invoiceWithPayments (nInvoiceID req) in
    if eAmount inv <? nAmountCents req then Ret (Err (ErrNew (str "invoiceninja: refund is more than invoice")))
    else
      try! credit := resumeOrCreateCredit req inv in
      try! credit := (if iStatusID credit =? statusDraft then markCreditSent (iID credit) else Ret (Ok credit)) in
      try! inv := (match refundablePayment inv (nAmountCents req) with
                   | Some p => try! _ := refundPayment (pID p) req (iID inv) in invoiceWithPayments (nInvoiceID req)
                   | None => Ret (Ok inv)
                   end) in
      try! _ := (if (0 <? iBalance inv) && (0 <? iBalance credit) then applyCredit inv credit req else Ret (Ok tt)) in
      Ret (Ok (MkCreditResult (iID credit) (iNumber credit) (iNumber inv))).

End Calls.

End InvoiceNinja.
