(* ===== verification/Receipts.v ===== *)
(** The receipts outbox and the lapse of paid plans, [internal/billing/receipts.go] and
    [lapse.go], as programs over [BillWorld].  The backlog gauges and the log lines are left
    out. *)
From S2P Require Import Prelude Text Plans Vat SqlTable Books BillStore Effects BillWorld InvoiceNinja.

Module Receipts.
Import Text SqlTable Books BillStore Effects BillWorld InvoiceNinja.

Definition receiptLease : Z := 5 * minute.
Definition maxBackoff : Z := 60 * minute.

Fixpoint backoff_loop (n : nat) (d : Z) : Z :=
  match n with
  | O => d
  | S n => if d <? maxBackoff then backoff_loop n (d * 2) else d
  end.

Definition backoff (attempts : Z) : Z :=
  let d := backoff_loop (Z.to_nat attempts) minute in
  if maxBackoff <? d then maxBackoff else d.

(** [strings.ToUpper] of the first byte: a lone byte that is not ASCII becomes U+FFFD. *)
Definition upper_first (plan : bytes) : bytes :=
  match plan with
  | [] => []
  | b :: rest => (if b <? 128 then [upper b] else [239; 191; 189]) ++ rest
  end.

Definition productKey (plan : bytes) : bytes :=
  if bool_decide (plan = []) then str "MeshSat Hub subscription"
  else if bool_decide (plan = DonationPlan) then str "MeshSat Hub support"
  else str "MeshSat Hub " ++ upper_first plan.

Definition description (plan tierName : bytes) : bytes :=
  if bool_decide (plan = DonationPlan) then str "Support for MeshSat Hub"
  else
    let name := if bool_decide (tierName = []) then plan else tierName in
    if bool_decide (name = []) then str "MeshSat Hub subscription, one month"
    else str "MeshSat Hub subscription, " ++ name ++ str ", one month".

(** Errors the billing system will give again. *)
Definition Retryable (status : Z) : bool := (500 <=? status) || (status =? 429) || (status =? 408).

Definition final_api (e : error) : bool :=
  match api_status e with Some s => negb (Retryable s) | None => false end.

(** [store], [issuer], and whether the mailer with the document fetcher and the audit log are set. *)
Record ReceiptJob := MkReceiptJob {
  issuer : Client;
  hasMail : bool;
  hasAudit : bool;
}.

Definition audit (on : bool) (tenantID action : bytes) : prog unit :=
  if on then _ ← perform (CAudit tenantID action); Ret tt else Ret tt.

Definition SendOrLog (to : bytes) (m : letter) : prog unit :=
  _ ← perform (CMail (MkMail to m None)); Ret tt.

Section Job.
Context (j : ReceiptJob).

Definition block (r : Receipt) (reason : error) : prog unit :=
  _ ← perform (CBlockReceipt (rID r) reason); Ret tt.

Definition notifyDonor (r : Receipt) (res : Result) : prog unit :=
  let msg := DonationReceipt (rName r) (rAmountCents r) (rCurrency r) (rCountry r) (ResultNumber res) in
  pdf ← perform (CDocumentPDF false (InvoiceID res));
  match pdf with
  | Err _ => SendOrLog (rEmail r) msg
  | Ok _ => _ ← perform (CMail (MkMail (rEmail r) msg (Some (InvoiceID res)))); Ret tt
  end.

Definition decision (r : Receipt) : Vat.Decision :=
  if bool_decide (rPlan r = DonationPlan) then Vat.ForDonation else Vat.For (rCountry r).

Definition request (r : Receipt) : Request :=
  MkRequest (rID r) (rTenantID r) (rName r) (rEmail r) (rCountry r) (rAmountCents r) (rCurrency r)
    (productKey (rPlan r)) (description (rPlan r) (rTierName r)) (Vat.OutsideScope (decision r))
    (bool_decide (rPlan r = DonationPlan) && hasMail j) (PaidAt r) (TransactionID r) (InvoiceRef r)
    (λ invoiceID, perform (CSetReceiptInvoice (rID r) invoiceID)).

Definition failed (r : Receipt) (e : error) : prog unit :=
  if errors_Is e ErrWrongCurrency || errors_Is e ErrBadAmount then block r e
  else if final_api e then block r e
  else
    now ← perform CNow;
    _ ← perform (CMarkReceiptAttempt (rID r) e (now + backoff (rAttempts r)));
    Ret tt.

Definition issue (r : Receipt) : prog unit :=
  if bool_decide (rEmail r = []) then block r (ErrNew (str "no email address to send the receipt to"))
  else
    let v := decision r in
    if negb (Vat.Charge v) && negb (Vat.OutsideScope v) then block r (ErrNew (Vat.Reason v))
    else
      res ← IssueReceipt (issuer j) (request r);
      match res with
      | Err e => failed r e
      | Ok res =>
          now ← perform CNow;
          marked ← perform (CMarkReceiptIssued (rID r) (ResultNumber res) (InvoiceID res) now);
          match marked with
          | Err _ => Ret tt
          | Ok _ =>
              _ ← (if bool_decide (rPlan r = DonationPlan) && hasMail j then notifyDonor r res else Ret tt);
              audit (hasAudit j) (rTenantID r) (str "receipt_issued")
          end
      end.

Definition drain_one (now : Z) (r : Receipt) : prog unit :=
  won ← perform (CClaimReceipt (rID r) (now + receiptLease));
  match won with
  | Ok true => _ ← issue r; _ ← perform (CReleaseReceipt (rID r)); Ret tt
  | _ => Ret tt
  end.

Fixpoint drain (now : Z) (due : list Receipt) : prog unit :=
  match due with
  | [] => Ret tt
  | r :: due =>
      stopped ← perform CCtxErr;
      if (stopped : bool) then Ret tt else _ ← drain_one now r; drain now due
  end.

Definition Once : prog unit :=
  now ← perform CNow;
  due ← perform (CListDueReceipts now 25);
  match due with
  | Err _ => Ret tt
  | Ok due => drain now due
  end.

End Job.

(** ** Lapse *)

Record LapseJob := MkLapseJob {
  lMail : bool;
  lUsers : bool;
  lAudit : bool;
  lForget : bool;
  warnAt : Z;
}.

(** [SetMailer] with a relay. *)
Definition warn_window : Z := 3 * day.

Section Lapse.
Context (j : LapseJob).

Definition owner (t : Tenant) : prog (option user) :=
  if negb (lUsers j) || bool_decide (tOwnerUserID t = []) then Ret None
  else
    u ← perform (CGetUserByID (tID t) (tOwnerUserID t));
    Ret (match u with Ok u => Some u | Err _ => None end).

Definition ownerEmail (t : Tenant) : prog bytes :=
  u ← owner t; Ret (match u with Some u => ToLower (TrimSpace (uEmail u)) | None => [] end).

Definition ownerName (t : Tenant) : prog bytes :=
  u ← owner t; Ret (match u with Some u => uName u | None => [] end).

Definition forget (tenantID : bytes) : prog unit :=
  if lForget j then perform (CForget tenantID) else Ret tt.

Definition set_plan (plan : bytes) (expires : option Z) (t : Tenant) : Tenant :=
  MkTenant (tID t) (tOwnerUserID t) plan (tStatus t) (tDeletedAt t) expires (LapseWarnedAt t)
    (BillingCountry t) (BillingCountryEvidence t) (StripeCustomerID t) (StripeSubscriptionID t)
    (tSettings t) (tCreatedAt t) (tUpdatedAt t).

Definition set_warned (warned : option Z) (t : Tenant) : Tenant :=
  MkTenant (tID t) (tOwnerUserID t) (tPlan t) (tStatus t) (tDeletedAt t) (PlanExpiresAt t) warned
    (BillingCountry t) (BillingCountryEvidence t) (StripeCustomerID t) (StripeSubscriptionID t)
    (tSettings t) (tCreatedAt t) (tUpdatedAt t).

Definition warn (t : Tenant) (now : Z) : prog unit :=
  match PlanExpiresAt t with
  | None => Ret tt
  | Some expires =>
      if negb (lMail j) || (warnAt j <=? 0) then Ret tt
      else if bool_decide (Plans.Normalise (tPlan t) = Plans.Free) then Ret tt
      else if bool_decide (tDeletedAt t ≠ None) || bool_decide (tID t = DefaultTenantID) then Ret tt
      else if warnAt j <? expires * second - now then Ret tt
      else if match LapseWarnedAt t with Some w => expires <=? w | None => false end then Ret tt
      else
        to ← ownerEmail t;
        if bool_decide (to = []) then Ret tt
        else
          name ← ownerName t;
          _ ← SendOrLog to (LapseWarning name (tPlan t) (expires * second));
          _ ← perform (CUpdateTenant (set_warned (fmtTime now) t) []);
          Ret tt
  end.

Definition lapse (t : Tenant) (ended : Z) : prog unit :=
  let was := tPlan t in
  let t := set_plan Plans.Free None t in
  r ← perform (CUpdateTenant t []);
  match r with
  | Err _ => Ret tt
  | Ok _ =>
      _ ← forget (tID t);
      _ ← (if lMail j
           then to ← ownerEmail t;
                if bool_decide (to = []) then Ret tt
                else name ← ownerName t; SendOrLog to (Lapsed name was (ended * second))
           else Ret tt);
      audit (lAudit j) (tID t) (str "subscription_lapsed")
  end.

Definition lapse_one (now : Z) (t : Tenant) : prog unit :=
  match PlanExpiresAt t with
  | None => Ret tt
  | Some expires =>
      if now <? expires * second then warn t now
      else if bool_decide (tDeletedAt t ≠ None) || bool_decide (tID t = DefaultTenantID) then Ret tt
      else if bool_decide (Plans.Normalise (tPlan t) = Plans.Free)
      then _ ← perform (CUpdateTenant (set_plan (tPlan t) None t) []); Ret tt
      else lapse t expires
  end.

Definition LapseOnce : prog unit :=
  now ← perform CNow;
  ts ← perform CListTenants;
  match ts with
  | Err _ => Ret tt
  | Ok ts => for_each (lapse_one now) ts
  end.

End Lapse.

End Receipts.
