(* ===== verification/Refunds.v ===== *)
(** The refunds outbox, [internal/refunds/refunds.go], as programs over [BillWorld].  Log lines
    are left out. *)
From S2P Require Import Prelude Text SqlTable Books BillStore Effects BillWorld InvoiceNinja Receipts.

Module Refunds.
Import Text SqlTable Books BillStore Effects BillWorld InvoiceNinja.

Definition refundLease : Z := 10 * minute.

Record Job := MkJob {
  issuer : Client;
  hasMail : bool;
  hasAudit : bool;
  hasForget : bool;
}.

Section Job.
Context (j : Job).

Definition retry (r : Refund) (cause : error) : prog unit :=
  now ← perform CNow;
  _ ← perform (CMarkRefundAttempt (fID r) cause (now + Receipts.backoff (fAttempts r)));
  Ret tt.

Definition block (r : Refund) (reason : error) : prog unit :=
  _ ← perform (CBlockRefund (fID r) reason); Ret tt.

Definition audit (tenantID action : bytes) : prog unit := Receipts.audit (hasAudit j) tenantID action.

(** The plan's new end in seconds, [None] when it was not moved. *)
Definition reversePlan (r : Refund) (receipt : Receipt) : prog (option Z) :=
  if bool_decide (rPlan receipt = DonationPlan) then Ret None
  else if fAmountCents r <? rAmountCents receipt then Ret None
  else
    t ← perform (CGetTenant (fTenantID r));
    match t with
    | Err _ => Ret None
    | Ok t =>
        match PlanExpiresAt t with
        | None => Ret None
        | Some expires =>
            let ends := expires - Period / second in
            u ← perform (CUpdateTenant (Receipts.set_plan (tPlan t) (fmtTime (ends * second)) t) (fID r));
            match u with
            | Err _ => Ret None
            | Ok _ =>
                _ ← (if hasForget j then perform (CForget (tID t)) else Ret tt);
                _ ← audit (tID t) (str "plan_period_reversed");
                Ret (Some ends)
            end
        end
    end.

Definition notify (r : Refund) (receipt : Receipt) (res : CreditResult) (planEnds : option Z) : prog unit :=
  if negb (hasMail j) || bool_decide (rEmail receipt = []) then Ret tt
  else
    let msg := Refunded (rName receipt) (fAmountCents r) (fCurrency r) (fCountry r) (ResultCredit res)
                 (ResultInvoice res) planEnds in
    pdf ← perform (CDocumentPDF true (CreditID res));
    match pdf with
    | Err _ => Receipts.SendOrLog (rEmail receipt) msg
    | Ok _ => _ ← perform (CMail (MkMail (rEmail receipt) msg (Some (CreditID res)))); Ret tt
    end.

Definition refunded_early : error :=
  ErrNew (str "the payment was refunded before any invoice was issued, so no document is owed").

(** The refund is recorded before the period is taken back. *)
Definition close_rest (r : Refund) (receipt : Receipt) : prog unit :=
  now ← perform CNow;
  m ← perform (CMarkRefundIssued (fID r) [] [] now);
  match m with
  | Err e => retry r (Wrap (str "recording the refund") e)
  | Ok _ =>
      planEnds ← reversePlan r receipt;
      _ ← audit (fTenantID r) (str "refund_credited");
      if hasMail j && negb (bool_decide (rEmail receipt = []))
      then Receipts.SendOrLog (rEmail receipt)
             (RefundedNoDocument (rName receipt) (fAmountCents r) (fCurrency r) (fCountry r) planEnds)
      else Ret tt
  end.

Definition closeWithoutDocument (r : Refund) : prog unit :=
  fresh ← perform (CGetReceipt (fReceiptID r));
  match fresh with
  | Err e => retry r (Wrap (str "re-reading the payment") e)
  | Ok receipt =>
      if negb (bool_decide (InvoiceRef receipt = []))
      then retry r (ErrNew (str "an invoice was issued between reads; taking the credit note path"))
      else
        b ← (if bool_decide (rStatus receipt = Blocked) then Ret (Ok tt)
             else perform (CBlockReceipt (rID receipt) refunded_early));
        match b with
        | Err e => retry r (Wrap (str "cancelling the receipt") e)
        | Ok _ => close_rest r receipt
        end
  end.

Definition request (r : Refund) (receipt : Receipt) : CreditRequest :=
  MkCreditRequest (fID r) (InvoiceRef receipt) (fAmountCents r) (fCurrency r)
    (Receipts.productKey (rPlan receipt)) (Receipts.description (rPlan receipt) (rTierName receipt))
    (RefundedAt r) (CreditRef r) (λ creditID, perform (CSetRefundCredit (fID r) creditID)).

Definition failed (r : Refund) (e : error) : prog unit :=
  if errors_Is e ErrInvoiceGone || errors_Is e ErrWrongCurrency || errors_Is e ErrBadAmount then block r e
  else if Receipts.final_api e then block r e
  else retry r e.

Definition credited (r : Refund) (receipt : Receipt) (res : CreditResult) : prog unit :=
  now ← perform CNow;
  m ← perform (CMarkRefundIssued (fID r) (ResultCredit res) (CreditID res) now);
  match m with
  | Err _ => Ret tt
  | Ok _ =>
      planEnds ← reversePlan r receipt;
      _ ← audit (fTenantID r) (str "refund_credited");
      notify r receipt res planEnds
  end.

Definition issue (r : Refund) : prog unit :=
  receipt ← perform (CGetReceipt (fReceiptID r));
  match receipt with
  | Err e =>
      if errors_Is e ErrNotFound
      then block r (ErrNew (str "the payment this refund reverses is no longer in the database"))
      else retry r e
  | Ok receipt =>
      if bool_decide (InvoiceRef receipt = []) then closeWithoutDocument r
      else
        res ← IssueCreditNote (issuer j) (request r receipt);
        match res with
        | Err e => failed r e
        | Ok res => credited r receipt res
        end
  end.

Definition drain_one (now : Z) (r : Refund) : prog unit :=
  won ← perform (CClaimRefund (fID r) (now + refundLease));
  match won with
  | Ok true => _ ← issue r; _ ← perform (CReleaseRefund (fID r)); Ret tt
  | _ => Ret tt
  end.

Fixpoint drain (now : Z) (due : list Refund) : prog unit :=
  match due with
  | [] => Ret tt
  | r :: due =>
      stopped ← perform CCtxErr;
      if (stopped : bool) then Ret tt else _ ← drain_one now r; drain now due
  end.

Definition Once : prog unit :=
  now ← perform CNow;
  due ← perform (CListDueRefunds now 25);
  match due with
  | Err _ => Ret tt
  | Ok due => drain now due
  end.

End Job.

End Refunds.
