(* ===== verification/StripeSignature.v ===== *)
(** The signature of a webhook delivery, [internal/stripe/signature.go], with Go's
    [crypto/hmac].  Times are in nanoseconds since 1 January of year 1; a difference of times is
    taken as exact, which Go's is within 292 years. *)
From S2P Require Import Prelude Text Sha Hubmsg Strconv SqlTable BillStore.

Module StripeSignature.
Import Text Strconv SqlTable BillStore.

(** HMAC with SHA-256: keys longer than a block are hashed, shorter ones padded. *)
Definition hmac_sha256 (key msg : bytes) : bytes :=
  let key := if (64 <? length key)%nat then Sha.sha256 key else key in
  let key := key ++ replicate (64 - length key) 0 in
  Sha.sha256 ((Z.lxor 92 <$> key) ++ Sha.sha256 ((Z.lxor 54 <$> key) ++ msg)).

Definition tolerance : Z := 5 * minute.

(** The loop over the parts: the last timestamp and every v1 signature. *)
Fixpoint parse_parts (parts : list bytes) (ts : Z) (sigs : list bytes) : option (Z * list bytes) :=
  match parts with
  | [] => Some (ts, sigs)
  | part :: parts =>
      match Cut 61 (TrimSpace part) with
      | None => parse_parts parts ts sigs
      | Some (k, v) =>
          if bool_decide (k = str "t")
          then match ParseInt v 64 with None => None | Some sec => parse_parts parts (i64 (unix sec)) sigs end
          else if bool_decide (k = str "v1") then parse_parts parts ts (sigs ++ [v])
          else parse_parts parts ts sigs
      end
  end.

(** The timestamp in seconds since year 1, [0] for none, and the signatures. *)
Definition parseSignatureHeader (h : bytes) : option (Z * list bytes) :=
  if bool_decide (TrimSpace h = []) then None
  else
    match parse_parts (split_on 44 h) 0 [] with
    | None => None
    | Some (ts, sigs) => if ts =? 0 then None else if bool_decide (sigs = []) then None else Some (ts, sigs)
    end.

Inductive refusal := NotConfigured | BadSignature.

(** What is signed: the timestamp as a number, a full stop and the body. *)
Definition signed (ts : Z) (body : bytes) : bytes := FormatInt (i64 (ts - unix 0)) ++ str "." ++ body.

Definition VerifySignature (header body secret : bytes) (now : Z) : result refusal unit :=
  if bool_decide (secret = []) then Err NotConfigured
  else
    match parseSignatureHeader header with
    | None => Err BadSignature
    | Some (ts, sigs) =>
        let d := now - ts * second in
        if (tolerance <? d) || (d <? - tolerance) then Err BadSignature
        else
          let want := hmac_sha256 secret (signed ts body) in
          if existsb (λ s, bool_decide (Hubmsg.hex_decode s = Some want)) sigs then Ok tt else Err BadSignature
    end.

(** The header Stripe sends. *)
Definition header_for (sec : Z) (body secret : bytes) : bytes :=
  str "t=" ++ FormatInt sec ++ str ",v1=" ++ Hubmsg.hex_encode (hmac_sha256 secret (signed (unix sec) body)).

(** ** What the parser finds *)

Definition part_is (h k v : bytes) : Prop := ∃ part, part ∈ split_on 44 h ∧ Cut 61 (TrimSpace part) = Some (k, v).

Lemma parse_parts_from parts : ∀ ts sigs ts' sigs', parse_parts parts ts sigs = Some (ts', sigs') →
  (ts' = ts ∨ ∃ part v sec, part ∈ parts ∧ Cut 61 (TrimSpace part) = Some (str "t", v) ∧ ParseInt v 64 = Some sec ∧ ts' = i64 (unix sec)) ∧
  ∀ s, s ∈ sigs' → s ∈ sigs ∨ ∃ part, part ∈ parts ∧ Cut 61 (TrimSpace part) = Some (str "v1", s).
Proof.
  induction parts as [|part parts IH]; intros ts sigs ts' sigs' E; cbn [parse_parts] in E.
  { injection E as <- <-. auto. }
  assert (Hmore : ∀ ts0 sigs0, parse_parts parts ts0 sigs0 = Some (ts', sigs') →
    (ts' = ts0 ∨ ∃ p v sec, p ∈ part :: parts ∧ Cut 61 (TrimSpace p) = Some (str "t", v) ∧ ParseInt v 64 = Some sec ∧ ts' = i64 (unix sec)) ∧
    ∀ s, s ∈ sigs' → s ∈ sigs0 ∨ ∃ p, p ∈ part :: parts ∧ Cut 61 (TrimSpace p) = Some (str "v1", s)).
  { intros ts0 sigs0 E0. destruct (IH _ _ _ _ E0) as [H1 H2]. split.
    - destruct H1 as [H1|(p & v & sec & Hp & H1)]; [by left|]. right. exists p, v, sec. split; [by right|done].
    - intros s Hs. destruct (H2 s Hs) as [?|(p & Hp & H3)]; [by left|]. right. exists p. split; [by right|done]. }
  destruct (Cut 61 (TrimSpace part)) as [[k v]|] eqn:Ec; [|by apply Hmore].
  case_bool_decide as Ek; [|case_bool_decide as Ek1; [|by apply Hmore]].
  - destruct (ParseInt v 64) as [sec|] eqn:Ep; [|done]. destruct (Hmore _ _ E) as [H1 H2]. split; [|done].
    right. destruct H1 as [->|H1]; [|done]. exists part, v, sec. subst k. split; [by left|done].
  - destruct (Hmore _ _ E) as [H1 H2]. split; [done|]. intros s Hs. destruct (H2 s Hs) as [[Hin|Hin]%elem_of_app|Hp]; [by left| |by right].
    apply list_elem_of_singleton in Hin as ->. right. exists part. subst k. split; [by left|done].
Qed.

(** C30: An accepted delivery names a time within five minutes of now and carries the signature of
    that time and its body under the secret. *)
Theorem accepted_is_signed header body secret now : VerifySignature header body secret now = Ok tt →
  secret ≠ [] ∧ ∃ v sec s, part_is header (str "t") v ∧ ParseInt v 64 = Some sec ∧ part_is header (str "v1") s ∧
    Z.abs (now - i64 (unix sec) * second) <= tolerance ∧
    Hubmsg.hex_decode s = Some (hmac_sha256 secret (signed (i64 (unix sec)) body)).
Proof.
  unfold VerifySignature. case_bool_decide as Es; [done|]. unfold parseSignatureHeader. case_bool_decide; [done|].
  destruct (parse_parts _ _ _) as [[ts sigs]|] eqn:Ep; [|done]. destruct (Z.eqb_spec ts 0) as [|Hts]; [done|].
  case_bool_decide; [done|]. destruct (_ || _) eqn:Ed; [done|]. destruct (existsb _ sigs) eqn:Ee; [|done]. intros _.
  apply orb_false_iff in Ed as [E1%Z.ltb_ge E2%Z.ltb_ge].
  apply existsb_exists in Ee as (s & Hs%list_elem_of_In & Hh%bool_decide_eq_true).
  destruct (parse_parts_from _ _ _ _ _ Ep) as [[?|(part & v & sec & Hp & Hc & Hv & ->)] H2]; [done|].
  destruct (H2 s Hs) as [Hn|(part' & Hp' & Hc')]; [by apply not_elem_of_nil in Hn|].
  split; [done|]. exists v, sec, s. split; [by exists part|]. split; [done|]. split; [by exists part'|]. split; [|done]. lia.
Qed.

(** ** What Stripe sends is accepted *)

Lemma hex_visible b : bytes_ok b → forallb visible (Hubmsg.hex_encode b) = true ∧ 44 ∉ Hubmsg.hex_encode b.
Proof.
  induction 1 as [|x b Hx _ [IH1 IH2]]; [split; [done|apply not_elem_of_nil]|]. cbn.
  assert (Hd : ∀ d, 0 <= d < 16 → visible (Hubmsg.hex_digit d) = true ∧ Hubmsg.hex_digit d ≠ 44).
  { intros d Hdr. unfold Hubmsg.hex_digit, visible. destruct (Z.ltb_spec d 10); (split; [|lia]); apply andb_true_iff; split; apply Z.leb_le; lia. }
  assert (0 <= Z.shiftr x 4 < 16) as H1 by (unfold byte_ok in Hx; rewrite Z.shiftr_div_pow2 by lia; split; [apply Z.div_pos; lia|apply Z.div_lt_upper_bound; lia]).
  assert (0 <= Z.land x 15 < 16) as H2 by (change 15 with (Z.ones 4); rewrite Z.land_ones by lia; by apply Z.mod_pos_bound).
  destruct (Hd _ H1) as [-> N1], (Hd _ H2) as [-> N2]. rewrite IH1. split; [done|]. rewrite !not_elem_of_cons. auto.
Qed.

Lemma hmac_ok key msg : bytes_ok (hmac_sha256 key msg).
Proof. apply Sha.sha256_ok. Qed.

Theorem sent_is_accepted sec body secret now : 0 <= sec < 2 ^ 62 → secret ≠ [] →
  Z.abs (now - unix sec * second) <= tolerance → VerifySignature (header_for sec body secret) body secret now = Ok tt.
Proof.
  intros Hsec Hs Hnow. unfold VerifySignature. rewrite bool_decide_false by done.
  destruct (FormatInt_digits sec) as (F1 & F2 & F3); [lia|].
  assert (EF : FormatInt sec = Hubmsg.FormatInt sec).
  { unfold FormatInt. by replace (sec <? 0) with false by (symmetry; apply Z.ltb_ge; lia). }
  set (mac := hmac_sha256 secret (signed (unix sec) body)).
  destruct (hex_visible mac (hmac_ok _ _)) as [V1 V2].
  assert (Hparts : split_on 44 (header_for sec body secret) = [str "t=" ++ FormatInt sec; str "v1=" ++ Hubmsg.hex_encode mac]).
  { unfold header_for. fold mac. change (str ",v1=" ++ ?l) with (44 :: str "v1=" ++ l). rewrite app_assoc, split_on_app, !split_on_free; [done| |].
    - change (str "v1=") with [118; 49; 61]. rewrite !elem_of_app, !elem_of_cons. intros [[?|[?|[?|?%not_elem_of_nil]]]|?]; done.
    - change (str "t=") with [116; 61]. rewrite EF, !elem_of_app, !elem_of_cons. intros [[?|[?|?%not_elem_of_nil]]|Hin]; try done.
      by eapply digits_free in Hin. }
  assert (P1 : forallb visible (str "t=" ++ FormatInt sec) = true) by (by rewrite forallb_app, EF, (digits_visible _ F2)).
  assert (P2 : forallb visible (str "v1=" ++ Hubmsg.hex_encode mac) = true) by (by rewrite forallb_app, V1).
  assert (Hu : i64 (unix sec) = unix sec) by (apply i64_id; unfold unix; lia).
  assert (Hp : parseSignatureHeader (header_for sec body secret) = Some (unix sec, [Hubmsg.hex_encode mac])).
  { unfold parseSignatureHeader. rewrite bool_decide_false, Hparts.
    2: { rewrite TrimSpace_visible; [done|]. unfold header_for. fold mac. rewrite app_assoc, forallb_app, P1.
         change (str ",v1=" ++ ?l) with (44 :: str "v1=" ++ l). cbn [forallb andb]. by rewrite P2. }
    cbn [parse_parts]. rewrite !TrimSpace_visible by done.
    change (str "t=" ++ FormatInt sec) with (str "t" ++ 61 :: FormatInt sec).
    change (str "v1=" ++ Hubmsg.hex_encode mac) with (str "v1" ++ 61 :: Hubmsg.hex_encode mac).
    rewrite !Cut_app by (vm_compute; set_solver). rewrite EF, ParseInt_FormatInt by lia. rewrite Hu.
    generalize (Hubmsg.hex_encode mac). intros hx.
    rewrite (bool_decide_true (str "t" = str "t")) by done. rewrite (bool_decide_false (str "v1" = str "t")) by done.
    rewrite (bool_decide_true (str "v1" = str "v1")), bool_decide_false by done.
    destruct (Z.eqb_spec (unix sec) 0); [unfold unix in *; lia|done]. }
  rewrite Hp. replace ((tolerance <? now - unix sec * second) || (now - unix sec * second <? - tolerance)) with false.
  2: { symmetry. apply orb_false_iff. split; apply Z.ltb_ge; lia. }
  cbn [existsb]. fold mac. rewrite (proj1 (Hubmsg.hex_decode_encode mac (hmac_ok _ _))), bool_decide_true by done. done.
Qed.

Lemma accepted_is_signed_witness :
  let h := header_for 1755000000 (str "{}") (str "whsec") in
  ∃ v sec, part_is h (str "t") v ∧ ParseInt v 64 = Some sec.
Proof.
  destruct (accepted_is_signed (header_for 1755000000 (str "{}") (str "whsec")) (str "{}") (str "whsec") (unix 1755000000 * second))
    as (_ & v & sec & s & H1 & H2 & _).
  - vm_compute. reflexivity.
  - by exists v, sec.
Defined.

Lemma sent_is_accepted_witness :
  VerifySignature (header_for 1755000000 (str "{}") (str "whsec")) (str "{}") (str "whsec") (unix 1755000100 * second) = Ok tt.
Proof. apply (sent_is_accepted 1755000000); [lia|done|vm_compute; discriminate]. Defined.

End StripeSignature.
