(* ===== verification/Stripe.v ===== *)
(** The payment provider's webhook, [internal/stripe]: [apply.go], [events.go], [tiers.go] and
    the answer of [webhook.go], as programs over [BillWorld].  Events are taken decoded; what does
    not decode is [None].  The signature check is in [StripeSignature].  Metrics, log lines and
    the warnings about missing fields are left out. *)
From S2P Require Import Prelude Text Plans SqlTable Books BillStore Effects BillWorld InvoiceNinja Receipts.

Module Stripe.
Import Text SqlTable Books BillStore Effects BillWorld.

Notation prog := (Effects.prog call).

(** ** Events *)

Record checkoutSession := MkSession {
  csID : bytes;
  csCustomer : bytes;
  csPaymentIntent : bytes;
  csMode : bytes;
  csAmountTotal : Z;
  csCurrency : bytes;
  csCustomerEmail : bytes;
  csMetadata : gmap bytes bytes;
  csDetailsEmail : bytes;
  csDetailsName : bytes;
  csDetailsCountry : bytes;
}.

Definition cs_email (s : checkoutSession) : bytes :=
  let e := TrimSpace (csDetailsEmail s) in
  if negb (bool_decide (e = [])) then e else TrimSpace (csCustomerEmail s).

Definition cs_country (s : checkoutSession) : bytes := ToUpper (TrimSpace (csDetailsCountry s)).

Record subscription := MkSubscription {
  sID : bytes;
  sCustomer : bytes;
  sStatus : bytes;
  sCurrentPeriodEnd : Z;
  sMetadata : gmap bytes bytes;
  sItems : list (bytes * Z);
}.

Definition sub_priceID (s : subscription) : bytes :=
  match sItems s with [] => [] | (price, _) :: _ => price end.

(** In seconds since 1970; [None] for the zero time. *)
Definition periodEnd (s : subscription) : option Z :=
  let end_ := match sItems s with
              | (_, e) :: _ => if e =? 0 then sCurrentPeriodEnd s else e
              | [] => sCurrentPeriodEnd s
              end in
  if end_ =? 0 then None else Some end_.

Definition live (s : subscription) : bool :=
  bool_decide (sStatus s ∈ bytes_of_string <$> ["active"; "trialing"; "past_due"; "unpaid"]%string).

Record invoice := MkInvoice {
  ivID : bytes;
  ivCustomer : bytes;
  ivMetadata : gmap bytes bytes;
  ivAmountPaid : Z;
  ivAmountDue : Z;
  ivNextPaymentAttempt : Z;
  ivCurrency : bytes;
  ivCustomerEmail : bytes;
  ivCustomerName : bytes;
  ivCreated : Z;
  ivCountry : bytes;
  ivLines : list (bytes * bytes);
}.

Definition iv_country (i : invoice) : bytes := ToUpper (TrimSpace (ivCountry i)).

(** The price of the first line: [pricing.price_details.price], else [price.id]. *)
Definition iv_priceID (i : invoice) : bytes :=
  match ivLines i with
  | [] => []
  | (price, details) :: _ =>
      let p := TrimSpace details in if negb (bool_decide (p = [])) then p else price
  end.

Record invoicePayment := MkInvoicePayment { ipInvoice : bytes; ipStatus : bytes; ipPaymentIntent : bytes }.

Record charge := MkCharge {
  chID : bytes;
  chInvoice : bytes;
  chPaymentIntent : bytes;
  chAmountRefunded : Z;
  chCurrency : bytes;
}.

(** [data.object] by the event's type. *)
Inductive object :=
| CheckoutCompleted (o : option checkoutSession)
| SubscriptionChanged (deleted : bool) (o : option subscription)
| InvoicePaid (o : option invoice)
| InvoiceFailed (o : option invoice)
| InvoicePaymentPaid (o : option invoicePayment)
| ChargeRefunded (o : option charge)
| OtherEvent.

Record Event := MkEvent { eID : bytes; eCreated : Z; eData : object }.

(** ** Prices *)

Definition sellable (plan : bytes) : bool := bool_decide (plan = Plans.Crew) || bool_decide (plan = Plans.Fleet).

Definition SetPrices (m : list (bytes * bytes)) : gmap bytes bytes :=
  foldl (λ prices e,
    let p := Plans.Normalise e.2 in
    if sellable p then <[TrimSpace e.1 := p]> prices else prices) ∅ m.

Record Handler := MkHandler {
  prices : gmap bytes bytes;
  hReceipts : bool;
  hRefunds : bool;
  hMail : bool;
  hUsers : bool;
  hAudit : bool;
  hForget : bool;
}.

Definition grace : Z := 3 * day.

Definition firstNonEmpty (a b : bytes) : bytes :=
  if negb (bool_decide (TrimSpace a = [])) then a
  else if negb (bool_decide (TrimSpace b = [])) then b else [].

Definition tierName (plan : bytes) : bytes :=
  if bool_decide (plan = Plans.Crew) then str "Crew"
  else if bool_decide (plan = Plans.Fleet) then str "Fleet" else [].

Definition invoiceKey (invoiceID : bytes) : bytes :=
  if bool_decide (TrimSpace invoiceID = []) then [] else str "stripe:inv:" ++ invoiceID.

Definition donationKey (paymentIntent sessionID : bytes) : bytes :=
  let pi := TrimSpace paymentIntent in
  let s := TrimSpace sessionID in
  if negb (bool_decide (pi = [])) then str "stripe:pi:" ++ pi
  else if negb (bool_decide (s = [])) then str "stripe:cs:" ++ s else [].

Definition isOneOffPayment (cs : checkoutSession) : bool :=
  bool_decide (csMode cs = str "payment") && (0 <? csAmountTotal cs).

Definition isAnonymousDonation (cs : checkoutSession) : bool :=
  isOneOffPayment cs && bool_decide (default [] (csMetadata cs !! str "kind") = str "donation").

Definition bind_customer (customer country evidence : bytes) (t : Tenant) : Tenant :=
  MkTenant (tID t) (tOwnerUserID t) (tPlan t) (tStatus t) (tDeletedAt t) (PlanExpiresAt t) (LapseWarnedAt t)
    country evidence customer (StripeSubscriptionID t) (tSettings t) (tCreatedAt t) (tUpdatedAt t).

Definition grant (plan : bytes) (expires : option Z) (subscription customer : bytes) (t : Tenant) : Tenant :=
  MkTenant (tID t) (tOwnerUserID t) plan (tStatus t) (tDeletedAt t) expires None
    (BillingCountry t) (BillingCountryEvidence t) customer subscription (tSettings t) (tCreatedAt t) (tUpdatedAt t).

Definition end_plan (t : Tenant) : Tenant :=
  MkTenant (tID t) (tOwnerUserID t) Plans.Free (tStatus t) (tDeletedAt t) None (LapseWarnedAt t)
    (BillingCountry t) (BillingCountryEvidence t) (StripeCustomerID t) [] (tSettings t) (tCreatedAt t) (tUpdatedAt t).

(** ** What each event does *)

Section Handler.
Context (h : Handler).

Definition planFor (priceID : bytes) : bytes := default [] (prices h !! TrimSpace priceID).

Definition log (tenantID action : bytes) : prog unit := Receipts.audit (hAudit h) tenantID action.

Definition recordUnattributed : prog unit := log DefaultTenantID (str "payment_unattributed").

Definition announce (tenantID : bytes) : prog unit := if hForget h then perform (CForget tenantID) else Ret tt.

(** A lookup that fails, for whatever reason, is one that found nothing. *)
Definition tenantFor (meta : gmap bytes bytes) (customerID : bytes) : prog (result error Tenant) :=
  let id := TrimSpace (default [] (meta !! str "tenant_id")) in
  r ← (if bool_decide (id = []) then Ret (Err ErrNoTenant) else perform (CGetTenant id));
  match r with
  | Ok t => Ret (Ok t)
  | Err _ =>
      let c := TrimSpace customerID in
      r ← (if bool_decide (c = []) then Ret (Err ErrNoTenant) else perform (CTenantByStripeCustomer c));
      match r with Ok t => Ret (Ok t) | Err _ => Ret (Err ErrNoTenant) end
  end.

Definition once (eventID : bytes) : prog (result error bool) :=
  r ← perform (CApplyStripeEvent eventID);
  match r with
  | Ok applied => Ret (Ok applied)
  | Err e => Ret (Err (Wrap (str "recording the event") e))
  end.

Definition owner (t : Tenant) : prog (option user) :=
  if negb (hUsers h) || bool_decide (tOwnerUserID t = []) then Ret None
  else
    u ← perform (CGetUserByID (tID t) (tOwnerUserID t));
    Ret (match u with Ok u => Some u | Err _ => None end).

Definition ownerEmail (t : Tenant) : prog bytes :=
  u ← owner t; Ret (match u with Some u => uEmail u | None => [] end).

Definition ownerName (t : Tenant) : prog bytes :=
  u ← owner t; Ret (match u with Some u => uName u | None => [] end).

Definition notify (t : Tenant) (m : bytes → letter) : prog unit :=
  if negb (hMail h) then Ret tt
  else
    to ← ownerEmail t;
    if bool_decide (to = []) then Ret tt
    else name ← ownerName t; Receipts.SendOrLog to (m name).

(** [recordReceipt]; [paidAt] in seconds, [None] for now. *)
Definition recordReceipt (t : Tenant) (key txn : bytes) (cents : Z) (currency email name plan tier country : bytes)
  (paidAt : option Z) : prog unit :=
  if negb (hReceipts h) || bool_decide (key = []) || (cents <=? 0) then Ret tt
  else
    let e := TrimSpace email in
    email ← (if negb (bool_decide (e = [])) then Ret e else ownerEmail t);
    id ← perform CXid;
    now ← perform CNow;
    _ ← perform (CCreateReceipt
          (MkFacts id (tID t) key txn country email name cents (ToUpper currency) plan tier
             (match paidAt with Some p => fmtTime (p * second) | None => fmtTime now end) None)
          (fmtTime now));
    Ret tt.

Definition donation (t : Tenant) (ev : Event) (cs : checkoutSession) (country : bytes) : prog unit :=
  recordReceipt t (donationKey (csPaymentIntent cs) (csID cs)) (csPaymentIntent cs) (csAmountTotal cs)
    (csCurrency cs) (cs_email cs) (csDetailsName cs) DonationPlan (str "Donation") country
    (Some (unix (eCreated ev))).

(** The tenant an anonymous donation is filed under: only its id is used. *)
Definition platform : Tenant :=
  MkTenant DefaultTenantID [] [] [] None None None [] [] [] [] [] None None.

Definition anonymousDonation (ev : Event) (cs : checkoutSession) : prog (result error unit) :=
  try! ok := once (eID ev) in
  if negb ok then Ret (Ok tt)
  else _ ← donation platform ev cs (cs_country cs); Ret (Ok tt).

Definition bound (cs : checkoutSession) (t : Tenant) : Tenant :=
  let customer := if negb (bool_decide (csCustomer cs = [])) then csCustomer cs else StripeCustomerID t in
  if bool_decide (BillingCountry t = []) && negb (bool_decide (cs_country cs = []))
  then bind_customer customer (cs_country cs) (str "billing address at Stripe checkout " ++ csID cs) t
  else bind_customer customer (BillingCountry t) (BillingCountryEvidence t) t.

Definition binds (cs : checkoutSession) (t : Tenant) : bool :=
  (negb (bool_decide (csCustomer cs = [])) && negb (bool_decide (StripeCustomerID t = csCustomer cs)))
  || (bool_decide (BillingCountry t = []) && negb (bool_decide (cs_country cs = []))).

Definition onCheckout (ev : Event) (cs : checkoutSession) : prog (result error unit) :=
  t ← tenantFor (csMetadata cs) (csCustomer cs);
  match t with
  | Err e =>
      if isAnonymousDonation cs then anonymousDonation ev cs
      else _ ← recordUnattributed; Ret (Err e)
  | Ok t =>
      try! ok := once (eID ev) in
      if negb ok then Ret (Ok tt)
      else
        u ← (if binds cs t then perform (CUpdateTenant (bound cs t) []) else Ret (Ok tt));
        match u with
        | Err e => Ret (Err (Wrap (str "binding the customer") e))
        | Ok _ =>
            let t := bound cs t in
            _ ← (if isOneOffPayment cs
                 then donation t ev cs (firstNonEmpty (BillingCountry t) (cs_country cs)) else Ret tt);
            Ret (Ok tt)
        end
  end.

Definition endPlan (t : Tenant) : prog (result error unit) :=
  match PlanExpiresAt t with
  | None => Ret (Ok tt)
  | Some _ =>
      u ← perform (CUpdateTenant (end_plan t) []);
      match u with
      | Err e => Ret (Err (Wrap (str "ending the plan") e))
      | Ok _ =>
          _ ← announce (tID t);
          _ ← log (tID t) (str "subscription_ended");
          now ← perform CNow;
          _ ← notify t (λ name, Lapsed name (tPlan t) now);
          Ret (Ok tt)
      end
  end.

Definition grantPlan (t : Tenant) (sub : subscription) (plan : bytes) : prog (result error unit) :=
  expires ← (match periodEnd sub with
             | Some e => Ret (unix e * second)
             | None => now ← perform CNow; Ret (now + Period)
             end);
  let expires := expires + grace in
  let customer := if bool_decide (sCustomer sub = []) then StripeCustomerID t else sCustomer sub in
  u ← perform (CUpdateTenant (grant plan (fmtTime expires) (sID sub) customer t) []);
  match u with
  | Err e => Ret (Err (Wrap (str "granting the plan") e))
  | Ok _ =>
      _ ← announce (tID t);
      _ ← log (tID t) (str "subscription_granted");
      _ ← (if bool_decide (tPlan t = plan) then Ret tt else notify t (λ name, PlanChanged name plan expires));
      Ret (Ok tt)
  end.

Definition onSubscription (ev : Event) (deleted : bool) (sub : subscription) : prog (result error unit) :=
  t ← tenantFor (sMetadata sub) (sCustomer sub);
  match t with
  | Err e => _ ← recordUnattributed; Ret (Err e)
  | Ok t =>
      try! ok := once (eID ev) in
      if negb ok then Ret (Ok tt)
      else if deleted || negb (live sub) then endPlan t
      else
        let plan := planFor (sub_priceID sub) in
        if bool_decide (plan = []) then _ ← recordUnattributed; Ret (Ok tt)
        else grantPlan t sub plan
  end.

Definition onInvoicePaid (ev : Event) (inv : invoice) : prog (result error unit) :=
  if ivAmountPaid inv <=? 0 then Ret (Ok tt)
  else
    t ← tenantFor (ivMetadata inv) (ivCustomer inv);
    match t with
    | Err e => _ ← recordUnattributed; Ret (Err e)
    | Ok t =>
        try! ok := once (eID ev) in
        if negb ok then Ret (Ok tt)
        else
          let plan := planFor (iv_priceID inv) in
          _ ← recordReceipt t (invoiceKey (ivID inv)) (ivID inv) (ivAmountPaid inv) (ivCurrency inv)
                (ivCustomerEmail inv) (ivCustomerName inv) (firstNonEmpty plan (tPlan t)) (tierName plan)
                (firstNonEmpty (BillingCountry t) (iv_country inv))
                (if ivCreated inv =? 0 then None else Some (unix (ivCreated inv)));
          Ret (Ok tt)
    end.

Definition onInvoiceFailed (ev : Event) (inv : invoice) : prog (result error unit) :=
  if ivAmountDue inv <=? 0 then Ret (Ok tt)
  else
    t ← tenantFor (ivMetadata inv) (ivCustomer inv);
    match t with
    | Err e => _ ← recordUnattributed; Ret (Err e)
    | Ok t =>
        try! ok := once (eID ev) in
        if negb ok then Ret (Ok tt)
        else
          _ ← log (tID t) (str "payment_failed");
          if negb (hMail h) then Ret (Ok tt)
          else
            own ← ownerEmail t;
            let to := firstNonEmpty (ivCustomerEmail inv) own in
            if bool_decide (to = []) then Ret (Ok tt)
            else
              name ← ownerName t;
              let retryAt := if ivNextPaymentAttempt inv =? 0 then None else Some (unix (ivNextPaymentAttempt inv)) in
              _ ← Receipts.SendOrLog to (PaymentFailed name (tPlan t) (ivAmountDue inv) (ivCurrency inv)
                    (BillingCountry t) retryAt (PlanExpiresAt t));
              Ret (Ok tt)
    end.

Definition onInvoicePaymentPaid (ip : invoicePayment) : prog (result error unit) :=
  let ref := TrimSpace (ipPaymentIntent ip) in
  if negb (hReceipts h) || bool_decide (ipInvoice ip = []) || bool_decide (ref = [])
     || negb (bool_decide (ipStatus ip = str "paid")) then Ret (Ok tt)
  else _ ← perform (CSetReceiptPaymentRef (invoiceKey (ipInvoice ip)) ref); Ret (Ok tt).

(** The first receipt found under the keys, as the loop tries them. *)
Fixpoint receipt_by_keys (keys : list bytes) : prog (option Receipt) :=
  match keys with
  | [] => Ret None
  | key :: keys =>
      if bool_decide (key = []) then receipt_by_keys keys
      else
        r ← perform (CGetReceiptByKey key);
        match r with Ok rec => Ret (Some rec) | Err _ => receipt_by_keys keys end
  end.

Definition refunded_receipt (ch : charge) : prog (option Receipt) :=
  rec ← receipt_by_keys [invoiceKey (chInvoice ch); donationKey (chPaymentIntent ch) []];
  match rec with
  | Some rec => Ret (Some rec)
  | None =>
      if bool_decide (chPaymentIntent ch = []) then Ret None
      else
        r ← perform (CGetReceiptByPaymentRef (chPaymentIntent ch));
        Ret (match r with Ok rec => Some rec | Err _ => None end)
  end.

Definition recordRefund (ev : Event) (ch : charge) (rec : Receipt) : prog (result error unit) :=
  try! ok := once (eID ev) in
  if negb ok then Ret (Ok tt)
  else
    id ← perform CXid;
    now ← perform CNow;
    r ← perform (CCreateRefund
          (MkRefundFacts id (rTenantID rec) (rID rec) (chAmountRefunded ch) (ToUpper (rCurrency rec))
             (rCountry rec) (str "refunded in Stripe (charge " ++ chID ch ++ str ")") (str "stripe")
             (fmtTime now) None));
    match r with
    | Err e => Ret (Err (Wrap (str "recording the refund") e))
    | Ok false => Ret (Ok tt)
    | Ok true => _ ← log (rTenantID rec) (str "refund_recorded"); Ret (Ok tt)
    end.

Definition onChargeRefunded (ev : Event) (ch : charge) : prog (result error unit) :=
  if negb (hRefunds h) || negb (hReceipts h) || (chAmountRefunded ch <=? 0) then Ret (Ok tt)
  else
    rec ← refunded_receipt ch;
    match rec with
    | None => _ ← recordUnattributed; Ret (Ok tt)
    | Some rec => recordRefund ev ch rec
    end.

Definition unreadable : prog (result error unit) := Ret (Err (ErrNew (str "unreadable object"))).

Definition dispatch (ev : Event) : prog (result error unit) :=
  match eData ev with
  | CheckoutCompleted (Some cs) => onCheckout ev cs
  | SubscriptionChanged deleted (Some sub) => onSubscription ev deleted sub
  | InvoicePaid (Some inv) => onInvoicePaid ev inv
  | InvoiceFailed (Some inv) => onInvoiceFailed ev inv
  | InvoicePaymentPaid (Some ip) => onInvoicePaymentPaid ip
  | ChargeRefunded (Some ch) => onChargeRefunded ev ch
  | OtherEvent => Ret (Ok tt)
  | _ => unreadable
  end.

(** The status of a verified delivery with an event id; Stripe redelivers until it gets a 2xx. *)
Definition answer (r : result error unit) : Z :=
  match r with
  | Ok _ => 200
  | Err e => if errors_Is e ErrNoTenant then 200 else 500
  end.

Definition deliver (ev : Event) : prog Z :=
  if bool_decide (eID ev = []) then Ret 400 else r ← dispatch ev; Ret (answer r).

End Handler.

End Stripe.
