(* ===== verification/Payments.v ===== *)
(** The money paths running together: any number of webhook deliveries, lapse passes and operator
    actions, and at most one receipt drainer and one refund drainer at a time, call by call
    against one store and one billing system, with calls that fail and programs that die.

    Shown here: a payment never has two numbered invoices and is booked as paid once; a refund
    never has two numbered credit notes and takes back a period at most once. *)
From S2P Require Import Prelude Text SqlTable Books BillStore Effects BillWorld InvoiceNinja Receipts Refunds Stripe.

Module Payments.
Import SqlTable Books BillStore Effects BillWorld.

(** ** The programs *)

Inductive kind := KReceipts | KRefunds | KOther.

#[export] Instance kind_eq : EqDecision kind.
Proof. solve_decision. Defined.

Definition exclusive (k : kind) : bool := match k with KOther => false | _ => true end.

(** What an operator does through the admin API. *)
Inductive operator :=
| ORequeueReceipt (id : bytes) (at_ : Z)
| ORequeueRefund (id : bytes) (at_ : Z)
| ORecordRefund (f : RefundFacts).

Definition operator_prog (o : operator) : Stripe.prog unit :=
  match o with
  | ORequeueReceipt id at_ => _ ← perform (CRequeueReceipt id at_); Ret tt
  | ORequeueRefund id at_ => _ ← perform (CRequeueRefund id at_); Ret tt
  | ORecordRefund f => _ ← perform (CCreateRefund f); Ret tt
  end.

(** [refunding]: whether a refund drainer may run at all. *)
Definition starts (refunding : bool) (k : kind) (p : Stripe.prog unit) : Prop :=
  match k with
  | KReceipts => ∃ j, p = Receipts.Once j
  | KRefunds => refunding = true ∧ ∃ j, p = Refunds.Once j
  | KOther => (∃ h ev, p = (_ ← Stripe.deliver h ev; Ret tt)) ∨ (∃ j, p = Receipts.LapseOnce j)
              ∨ ∃ o, p = operator_prog o
  end.

(** What a bounded, sorted query lists is in the table, once. *)
Lemma listed {R K} (key : R → K) (o : relation R) `{!RelDecision o} (p : R → bool) n t :
  NoDup (key <$> t) →
  let due := take n (merge_sort o (List.filter p t)) in
  (∀ r, r ∈ due → r ∈ t ∧ p r = true) ∧ NoDup (key <$> due).
Proof.
  intros HN due. pose proof (merge_sort_Permutation o (List.filter p t)) as Hm. split.
  - intros r Hr. eapply elem_of_sublist in Hr; [|apply sublist_take]. rewrite Hm in Hr.
    apply list_elem_of_In, List.filter_In in Hr as [Hr Hp]. by apply list_elem_of_In in Hr.
  - unfold due. rewrite fmap_take. eapply sublist_NoDup; [|apply sublist_take]. rewrite Hm.
    eapply sublist_NoDup; [done|apply fmap_sublist, filter_sublist].
Qed.

Lemma same_row {A} (g : A → bytes) t x y : NoDup (g <$> t) → x ∈ t → y ∈ t → g x = g y → x = y.
Proof.
  intros HN [i Hi]%list_elem_of_lookup [j Hj]%list_elem_of_lookup E. assert (i = j) as ->; [|congruence].
  eapply (NoDup_lookup _ _ _ (g x) HN); rewrite list_lookup_fmap; [by rewrite Hi|]. rewrite Hj. cbn. by rewrite E.
Qed.

Section Payments.
Context `{BillingSystem}.

(** ** Answers *)

(** What a call that goes through [reply] can do. *)
Lemma reply_inv {X} db f (w w1 w' : world) (a x : result error X) : fault_ok f →
  reply db f w w1 a = (w', x) →
  (w' = w1 ∧ x = a) ∨
  ((w' = w ∨ w' = w1) ∧ ∃ e, x = Err e ∧ api_status e ≠ Some 404 ∧ errors_Is e ErrNotFound = false).
Proof.
  intros Hf E. destruct f as [|s|s]; cbn in E; injection E as <- <-.
  - by left.
  - right. split; [by left|]. eexists. split; [done|].
    destruct db; [done|]. destruct s as [n|]; [|done]. cbn. destruct Hf. split; [congruence|done].
  - right. split; [by right|]. eexists. split; [done|].
    destruct db; [done|]. destruct s as [n|]; [|done]. cbn. destruct Hf. split; [congruence|done].
Qed.

(** ** The invariant *)

Definition receipt_ids (t : list Receipt) : list bytes := (λ r : Receipt, rID r) <$> t.
Definition refund_ids (t : list Refund) : list bytes := (λ f : Refund, fID f) <$> t.
Definition refunded_ids (t : list Refund) : list bytes := (λ f : Refund, fReceiptID f) <$> t.

(** A document has its number once it is sent and not before. *)
Definition numbered_ok (m : gmap bytes doc) : Prop :=
  m !! [] = None ∧ ∀ i d, m !! i = Some d → (dStatus d = statusDraft ↔ dNumber d = []).

Record documents_ok (w : world) : Prop := {
  rows : NoDup (receipt_ids (receipts w));
  numbers : numbered_ok (invoices (ledger w));
  backed i d : invoices (ledger w) !! i = Some d → dNumber d ≠ [] →
    ∃ r : Receipt, r ∈ receipts w ∧ rID r = dFor d ∧ InvoiceRef r = i;
  linked (r : Receipt) : r ∈ receipts w → InvoiceRef r ≠ [] →
    ∃ d, invoices (ledger w) !! InvoiceRef r = Some d ∧ dFor d = rID r;
}.

Record credits_ok (w : world) : Prop := {
  refund_rows : NoDup (refund_ids (refunds w));
  one_refund : NoDup (refunded_ids (refunds w));
  credit_numbers : numbered_ok (credits (ledger w));
  credit_backed i d : credits (ledger w) !! i = Some d → dNumber d ≠ [] →
    ∃ f : Refund, f ∈ refunds w ∧ fID f = dFor d ∧ CreditRef f = i;
  credit_linked (f : Refund) : f ∈ refunds w → CreditRef f ≠ [] →
    ∃ d, credits (ledger w) !! CreditRef f = Some d ∧ dFor d = fID f;
  credit_paid i d : credits (ledger w) !! i = Some d →
    ∃ (f : Refund) (r : Receipt), f ∈ refunds w ∧ fID f = dFor d ∧ r ∈ receipts w ∧ rID r = fReceiptID f ∧ InvoiceRef r ≠ [];
  taken_back : NoDup (shortened w);
  taken_issued id : id ∈ shortened w → ∃ f : Refund, f ∈ refunds w ∧ fID f = id ∧ fStatus f = Issued;
}.

(** A sent invoice is owed in full or settled by one payment of its total. *)
Definition settled_once (d : doc) : Prop :=
  if bool_decide (dNumber d = []) then dPayments d = []
  else (dPayments d = [] ∧ dBalance d = dTotal d) ∨
       (∃ p, dPayments d = [MkPayment p (dTotal d) 0] ∧ dBalance d = 0).

Record paid_ok (w : world) : Prop := {
  settled i d : invoices (ledger w) !! i = Some d → settled_once d;
  priced i d (r : Receipt) : invoices (ledger w) !! i = Some d → r ∈ receipts w → rID r = dFor d → dTotal d = rAmountCents r;
  known i d : invoices (ledger w) !! i = Some d → dFor d ∈ receipt_ids (receipts w);
}.

Context (refunding : bool).

Definition inv (w : world) : Prop :=
  documents_ok w ∧ credits_ok w ∧ (refunding = false → paid_ok w).

(** ** What programs rely on *)

(** Rows stay, with their facts and the invoice recorded on them. *)
Definition keeps_rows (t t' : list Receipt) : Prop :=
  ∀ r : Receipt, r ∈ t → ∃ r' : Receipt, r' ∈ t' ∧ facts r' = facts r ∧ InvoiceRef r' = InvoiceRef r.

(** What a document is for and its number. *)
Definition doc_id (d : doc) : bytes * bytes * Z := (dFor d, dNumber d, dStatus d).

Record rely_receipts (w w' : world) : Prop := {
  rr_rows : keeps_rows (receipts w) (receipts w');
  rr_docs i : doc_id <$> invoices (ledger w') !! i = doc_id <$> invoices (ledger w) !! i;
  rr_same : refunding = false → invoices (ledger w') = invoices (ledger w);
}.

Record rely_refunds (w w' : world) : Prop := {
  rf_rows (f : Refund) : f ∈ refunds w → ∃ f' : Refund, f' ∈ refunds w' ∧ refund_facts f' = refund_facts f ∧
    CreditRef f' = CreditRef f ∧ (fStatus f' = Issued ↔ fStatus f = Issued);
  rf_credits : credits (ledger w') = credits (ledger w);
  rf_taken : shortened w' = shortened w;
  rf_receipts (r : Receipt) : r ∈ receipts w → ∃ r' : Receipt, r' ∈ receipts w' ∧ facts r' = facts r ∧
    (InvoiceRef r ≠ [] → InvoiceRef r' ≠ []);
}.

Definition rely (k : kind) (w w' : world) : Prop :=
  match k with KReceipts => rely_receipts w w' | KRefunds => rely_refunds w w' | KOther => True end.

Definition guar (k : kind) (w w' : world) : Prop :=
  match k with
  | KReceipts => rely_refunds w w'
  | KRefunds => rely_receipts w w'
  | KOther => rely_receipts w w' ∧ rely_refunds w w'
  end.

#[local] Instance rely_trans k : Transitive (rely k).
Proof.
  destruct k; cbn; [| |done].
  - intros w1 w2 w3 [R1 D1 S1] [R2 D2 S2]. split.
    + intros r Hr. destruct (R1 r Hr) as (r' & Hr' & E1 & E2), (R2 r' Hr') as (r'' & Hr'' & E3 & E4).
      exists r''. split; [done|]. split; congruence.
    + intros i. by rewrite D2.
    + intros Hf. by rewrite S2, S1.
  - intros w1 w2 w3 [R1 C1 T1 P1] [R2 C2 T2 P2]. split; [| congruence | congruence |].
    + intros f Hf. destruct (R1 f Hf) as (f' & Hf' & E1 & E2 & E3), (R2 f' Hf') as (f'' & Hf'' & E4 & E5 & E6).
      exists f''. split; [done|]. split; [congruence|]. split; [congruence|]. tauto.
    + intros r Hr. destruct (P1 r Hr) as (r' & Hr' & E1 & E2), (P2 r' Hr') as (r'' & Hr'' & E3 & E4).
      exists r''. split; [done|]. split; [congruence|]. auto.
Qed.

Lemma rely_refl k w : rely k w w.
Proof. destruct k; cbn; [| |done]; split; try done; intros x ?; by exists x. Qed.

(** ** Calls that leave the documents alone *)

(** The receipts keep their facts and invoices, or a new one joins. *)
Definition touched (t t' : list Receipt) : Prop :=
  (∃ g, t' = g <$> t ∧ ∀ r : Receipt, facts (g r) = facts r ∧ InvoiceRef (g r) = InvoiceRef r) ∨
  (∃ r : Receipt, t' = t ++ [r] ∧ InvoiceRef r = [] ∧ rID r ∉ receipt_ids t).

Definition touched_refunds (t t' : list Refund) : Prop :=
  (∃ g, t' = g <$> t ∧ ∀ f : Refund, refund_facts (g f) = refund_facts f ∧ CreditRef (g f) = CreditRef f ∧
          (fStatus (g f) = Issued ↔ fStatus f = Issued)) ∨
  (∃ f : Refund, t' = t ++ [f] ∧ CreditRef f = [] ∧ fStatus f = Pending ∧ fID f ∉ refund_ids t ∧ fReceiptID f ∉ refunded_ids t).

Record plain_step (w w' : world) : Prop := {
  ps_receipts : touched (receipts w) (receipts w');
  ps_refunds : touched_refunds (refunds w) (refunds w');
  ps_invoices : invoices (ledger w') = invoices (ledger w);
  ps_credits : credits (ledger w') = credits (ledger w);
  ps_taken : shortened w' = shortened w;
}.

Lemma touched_refl t : touched t t.
Proof. left. exists id. by rewrite list_fmap_id. Qed.

Lemma touched_refunds_refl t : touched_refunds t t.
Proof. left. exists id. by rewrite list_fmap_id. Qed.

#[local] Hint Resolve touched_refl touched_refunds_refl : core.

Lemma plain_refl w : plain_step w w.
Proof. by split. Qed.

Lemma touched_in t t' (r : Receipt) : touched t t' → r ∈ t → ∃ r' : Receipt, r' ∈ t' ∧ facts r' = facts r ∧ InvoiceRef r' = InvoiceRef r.
Proof.
  intros [(g & -> & Hg)|(r0 & -> & _)] Hr.
  - exists (g r). split; [by apply list_elem_of_fmap_2|apply Hg].
  - exists r. split; [apply elem_of_app; by left|done].
Qed.

Lemma touched_from t t' (r' : Receipt) : touched t t' → r' ∈ t' →
  (∃ r : Receipt, r ∈ t ∧ facts r' = facts r ∧ InvoiceRef r' = InvoiceRef r) ∨ (InvoiceRef r' = [] ∧ rID r' ∉ receipt_ids t).
Proof.
  intros [(g & -> & Hg)|(r0 & -> & E & Hn)] Hr.
  - left. apply list_elem_of_fmap in Hr as (r & -> & Hr). exists r. split; [done|apply Hg].
  - apply elem_of_app in Hr as [Hr| ->%list_elem_of_singleton]; [left; by exists r'|by right].
Qed.

Lemma touched_ids t t' : touched t t' → NoDup (receipt_ids t) → NoDup (receipt_ids t').
Proof.
  intros [(g & -> & Hg)|(r0 & -> & E & Hn)] HN; unfold receipt_ids in *.
  - rewrite <- list_fmap_compose. erewrite list_fmap_ext; [exact HN|]. intros i r _. cbn. by rewrite (proj1 (Hg r)).
  - rewrite fmap_app. apply NoDup_app. split; [done|]. split; [|apply NoDup_singleton].
    intros x Hx ->%list_elem_of_singleton. done.
Qed.

Lemma touched_refunds_in t t' (f : Refund) : touched_refunds t t' → f ∈ t →
  ∃ f' : Refund, f' ∈ t' ∧ refund_facts f' = refund_facts f ∧ CreditRef f' = CreditRef f ∧ (fStatus f' = Issued ↔ fStatus f = Issued).
Proof.
  intros [(g & -> & Hg)|(f0 & -> & _)] Hf.
  - exists (g f). split; [by apply list_elem_of_fmap_2|apply Hg].
  - exists f. split; [apply elem_of_app; by left|done].
Qed.

Lemma touched_refunds_from t t' (f' : Refund) : touched_refunds t t' → f' ∈ t' →
  (∃ f : Refund, f ∈ t ∧ refund_facts f' = refund_facts f ∧ CreditRef f' = CreditRef f) ∨ (CreditRef f' = [] ∧ fID f' ∉ refund_ids t).
Proof.
  intros [(g & -> & Hg)|(f0 & -> & E & _ & Hn & _)] Hf.
  - left. apply list_elem_of_fmap in Hf as (f & -> & Hf). exists f. split; [done|]. by destruct (Hg f) as (? & ? & _).
  - apply elem_of_app in Hf as [Hf| ->%list_elem_of_singleton]; [left; by exists f'|by right].
Qed.

Lemma touched_refunds_ids t t' : touched_refunds t t' →
  (NoDup (refund_ids t) → NoDup (refund_ids t')) ∧ (NoDup (refunded_ids t) → NoDup (refunded_ids t')).
Proof.
  intros [(g & -> & Hg)|(f0 & -> & E & _ & Hn & Hn')]; unfold refund_ids, refunded_ids in *; split; intros HN.
  1-2: rewrite <- list_fmap_compose; erewrite list_fmap_ext; [exact HN|]; intros i f _; cbn; by rewrite (proj1 (Hg f)).
  all: rewrite fmap_app; apply NoDup_app; split; [done|]; split; [|apply NoDup_singleton];
    intros x Hx ->%list_elem_of_singleton; done.
Qed.

Lemma plain_documents w w' : plain_step w w' → documents_ok w → documents_ok w'.
Proof.
  intros [R F Ei Ec Et] [HN Hn Hb Hl]. split; rewrite ?Ei; [by eapply touched_ids|done| |].
  - intros i d Hi Hd. destruct (Hb i d Hi Hd) as (r & Hr & E1 & E2).
    destruct (touched_in _ _ _ R Hr) as (r' & Hr' & E3 & E4). exists r'. split; [done|].
    by rewrite E3, E4.
  - intros r' Hr' Hne. destruct (touched_from _ _ _ R Hr') as [(r & Hr & E3 & E4)|[E0 _]]; [|done].
    rewrite E3, E4 in *. by apply Hl.
Qed.

Lemma plain_credits w w' : plain_step w w' → credits_ok w → credits_ok w'.
Proof.
  intros [R F Ei Ec Et] [HN H1 Hn Hb Hl Hp Hd Hi]. destruct (touched_refunds_ids _ _ F) as [F1 F2].
  split; rewrite ?Ec, ?Et; [by apply F1|by apply F2|done| | | |done|].
  - intros i d Hc Hne. destruct (Hb i d Hc Hne) as (f & Hf & E1 & E2).
    destruct (touched_refunds_in _ _ _ F Hf) as (f' & Hf' & E3 & E4 & _). exists f'. split; [done|]. by rewrite E3, E4.
  - intros f' Hf' Hne. destruct (touched_refunds_from _ _ _ F Hf') as [(f & Hf & E3 & E4)|[E0 _]]; [|done].
    rewrite E3, E4 in *. by apply Hl.
  - intros i d Hc. destruct (Hp i d Hc) as (f & r & Hf & E1 & Hr & E2 & E3).
    destruct (touched_refunds_in _ _ _ F Hf) as (f' & Hf' & E4 & _), (touched_in _ _ _ R Hr) as (r' & Hr' & E5 & E6).
    exists f', r'. rewrite E4, E5, E6. done.
  - intros id Hid. destruct (Hi id Hid) as (f & Hf & E1 & E2).
    destruct (touched_refunds_in _ _ _ F Hf) as (f' & Hf' & E3 & _ & E4). exists f'. rewrite E3. tauto.
Qed.

Lemma plain_paid w w' : plain_step w w' → paid_ok w → paid_ok w'.
Proof.
  intros [R F Ei Ec Et] [Hs Hp Hk]. split; rewrite Ei; [done| |].
  - intros i d r' Hi Hr' E. destruct (touched_from _ _ _ R Hr') as [(r & Hr & E3 & E4)|[_ Hn]].
    + rewrite E3 in E |- *. by apply (Hp i).
    + destruct Hn. rewrite E. by apply (Hk i).
  - intros i d Hi. specialize (Hk i d Hi). unfold receipt_ids in *.
    apply list_elem_of_fmap in Hk as (r & -> & Hr). destruct (touched_in _ _ _ R Hr) as (r' & Hr' & E3 & _).
    apply list_elem_of_fmap. exists r'. by rewrite E3.
Qed.

Lemma plain_step_ok w w' : inv w → plain_step w w' → inv w' ∧ rely_receipts w w' ∧ rely_refunds w w'.
Proof.
  intros (Hd & Hc & Hp) Hs. split; [|destruct Hs as [R F Ei Ec Et]; split].
  - split; [by eapply plain_documents|]. split; [by eapply plain_credits|]. intros Hf. eapply plain_paid; eauto.
  - split; [|by rewrite Ei|done]. intros r Hr. by eapply touched_in.
  - split; [|done|done|].
    + intros f Hf. by eapply touched_refunds_in.
    + intros r Hr. destruct (touched_in _ _ _ R Hr) as (r' & Hr' & E1 & E2). exists r'.
      split; [done|]. split; [done|]. by rewrite E2.
Qed.

(** The calls that do not record a document, make one, or take a period back. *)
Definition plain {X} (c : call X) : bool :=
  match c with
  | CUpdateTenant _ r => bool_decide (r = [])
  | CSetReceiptInvoice _ _ | CMarkReceiptIssued _ _ _ _ | CSetRefundCredit _ _ | CMarkRefundIssued _ _ _ _
  | CBlockRefund _ _ | CDeleteRefund _ | CCreateInvoice _ _ | CMarkSent _ | CRecordPayment _ _ _ _ _ _
  | CCreateCredit _ _ | CMarkCreditSent _ | CRefundPayment _ _ _ _ | CApplyCredit _ _ _ _ _ => false
  | _ => true
  end.

Lemma update_touched (p : Receipt → bool) g t :
  (∀ r, facts (g r) = facts r ∧ InvoiceRef (g r) = InvoiceRef r) → touched t (fst (sql_update p g t)).
Proof. intros Hg. left. eexists. split; [done|]. intros r. cbn. by destruct (p r). Qed.

Lemma update_touched_refunds (p : Refund → bool) g t :
  (∀ f, refund_facts (g f) = refund_facts f ∧ CreditRef (g f) = CreditRef f ∧
        (p f = true → fStatus (g f) = Issued ↔ fStatus f = Issued)) → touched_refunds t (fst (sql_update p g t)).
Proof.
  intros Hg. left. eexists. split; [done|]. intros f. cbn. destruct (Hg f) as (? & ? & E).
  destruct (p f); [by repeat split; try tauto|done].
Qed.

Lemma plain_receipts t w : touched (receipts w) t → plain_step w (set_receipts t w).
Proof. by split. Qed.

Lemma plain_refunds t w : touched_refunds (refunds w) t → plain_step w (set_refunds t w).
Proof. by split. Qed.

#[local] Hint Resolve plain_refl plain_receipts plain_refunds update_touched update_touched_refunds : plain.

Lemma created_touched f next id now t t' b : CreateReceipt f next id now t = Ok (t', b) → touched t t'.
Proof.
  unfold CreateReceipt. case_bool_decide; [done|]. destruct (existsb _ t) eqn:E; intros [= <- <-]; [done|].
  right. eexists. split; [done|]. split; [done|]. cbn. intros Hin.
  apply list_elem_of_fmap in Hin as (r & Er & Hr). apply not_true_iff_false in E. apply E.
  apply existsb_exists. exists r. split; [by apply list_elem_of_In|]. by rewrite bool_decide_true.
Qed.

Lemma created_touched_refunds f id now t t' b : CreateRefund f id now t = Ok (t', b) → touched_refunds t t'.
Proof.
  unfold CreateRefund. case_bool_decide; [done|]. destruct (existsb _ t) eqn:E; intros [= <- <-]; [done|].
  right. eexists. split; [done|]. split; [done|]. split; [done|]. apply not_true_iff_false in E.
  split; cbn; intros Hin; apply list_elem_of_fmap in Hin as (r & Er & Hr); apply E, existsb_exists;
    exists r; (split; [by apply list_elem_of_In|]); apply orb_true_iff; [left|right]; by apply bool_decide_eq_true.
Qed.

Lemma plain_act X (c : call X) w w' x : plain c = true → act X c w w' x → plain_step w w'.
Proof.
  intros Hp (f & now & id & Hf & E).
  assert (Hrep : ∀ Y db (w1 : world) (a y : result error Y), plain_step w w1 → reply db f w w1 a = (w', y) → plain_step w w').
  { intros Y db w1 a y H1 Hr. apply reply_inv in Hr as [[-> _]|[[-> | ->] _]]; auto with plain. }
  destruct c; try discriminate Hp; cbn [handle] in E;
    try (by injection E as <- _; split); try (by (eapply Hrep; [|exact E]; auto with plain)).
  all: try (eapply Hrep; [|exact E]; apply plain_receipts, update_touched; done).
  all: try (eapply Hrep; [|exact E]; apply plain_refunds, update_touched_refunds; intros g; by repeat split).
  - cbn in Hp. destruct (UpdateTenant t now (tenants w)); [|eauto with plain].
    rewrite Hp in E. eapply Hrep; [|exact E]. by split.
  - destruct (ApplyStripeEvent _ _) as [[es b]|]; eapply Hrep; try exact E; auto with plain. by split.
  - destruct (CreateReceipt _ _ _ _ _) as [[rs b]|] eqn:C; eapply Hrep; try exact E; auto with plain.
    by eapply plain_receipts, created_touched.
  - destruct (CreateRefund _ _ _ _) as [[rs b]|] eqn:C; eapply Hrep; try exact E; auto with plain.
    by eapply plain_refunds, created_touched_refunds.
  - eapply Hrep; [|exact E]. apply plain_refunds, update_touched_refunds. intros g.
    split; [done|]. split; [done|]. intros [_ Hb%bool_decide_eq_true]%andb_true_iff. by rewrite Hb.
  - destruct (create_client (ledger w) c) as [[b i]|] eqn:C; [|eauto with plain].
    apply create_client_docs in C as (_ & Ei & Ec). eapply Hrep; [|exact E]. by split.
Qed.

(** ** Deliveries, lapses and operators *)

Notation tame := (always (λ X c, plain c = true)).

Lemma audit_tame on t a : tame (Receipts.audit on t a).
Proof. unfold Receipts.audit. walk. Qed.

Lemma mail_tame to m : tame (Receipts.SendOrLog to m).
Proof. unfold Receipts.SendOrLog. walk. Qed.

#[local] Hint Resolve audit_tame mail_tame : walks.

Lemma tenantFor_tame meta c : tame (Stripe.tenantFor meta c).
Proof. unfold Stripe.tenantFor. walk. Qed.

Lemma once_tame e : tame (Stripe.once e).
Proof. unfold Stripe.once. walk. Qed.

Lemma stripe_owner_tame h t : tame (Stripe.ownerEmail h t) ∧ tame (Stripe.ownerName h t).
Proof. unfold Stripe.ownerEmail, Stripe.ownerName, Stripe.owner. split; walk. Qed.

Lemma stripe_notify_tame h t m : tame (Stripe.notify h t m).
Proof. destruct (stripe_owner_tame h t). unfold Stripe.notify. walk. Qed.

Lemma announce_tame h t : tame (Stripe.announce h t).
Proof. unfold Stripe.announce. walk. Qed.

Lemma unattributed_tame h : tame (Stripe.recordUnattributed h).
Proof. apply audit_tame. Qed.

Lemma recordReceipt_tame h t k x c cu e n p ti co pa : tame (Stripe.recordReceipt h t k x c cu e n p ti co pa).
Proof. destruct (stripe_owner_tame h t). unfold Stripe.recordReceipt. walk. Qed.

#[local] Hint Resolve tenantFor_tame once_tame stripe_notify_tame announce_tame unattributed_tame recordReceipt_tame : walks.

Lemma checkout_tame h ev cs : tame (Stripe.onCheckout h ev cs).
Proof. unfold Stripe.onCheckout, Stripe.anonymousDonation, Stripe.donation. walk. Qed.

Lemma subscription_tame h ev d sub : tame (Stripe.onSubscription h ev d sub).
Proof. unfold Stripe.onSubscription, Stripe.endPlan, Stripe.grantPlan, Stripe.log. walk. Qed.

Lemma invoice_tame h ev i : tame (Stripe.onInvoicePaid h ev i) ∧ tame (Stripe.onInvoiceFailed h ev i).
Proof.
  split; unfold Stripe.onInvoicePaid, Stripe.onInvoiceFailed, Stripe.log; [walk|].
  assert (∀ t, tame (Stripe.ownerEmail h t)) by (intros; apply stripe_owner_tame).
  assert (∀ t, tame (Stripe.ownerName h t)) by (intros; apply stripe_owner_tame). walk.
Qed.

Lemma by_keys_tame keys : tame (Stripe.receipt_by_keys keys).
Proof. induction keys; walk. Qed.

#[local] Hint Resolve by_keys_tame : walks.

Lemma refunded_tame h ev c : tame (Stripe.onChargeRefunded h ev c).
Proof. unfold Stripe.onChargeRefunded, Stripe.refunded_receipt, Stripe.recordRefund, Stripe.log. walk. Qed.

Lemma deliver_tame h ev : tame (Stripe.deliver h ev).
Proof.
  unfold Stripe.deliver. case_bool_decide; [done|]. apply prog_always_bind; [|done].
  unfold Stripe.dispatch, Stripe.unreadable.
  destruct (Stripe.eData ev) as [[]|? []|[]|[]|[]|[]|]; try done;
    first [apply checkout_tame|apply subscription_tame|apply invoice_tame|apply refunded_tame|idtac].
  unfold Stripe.onInvoicePaymentPaid. walk.
Qed.

Lemma lapse_tame j : tame (Receipts.LapseOnce j).
Proof.
  unfold Receipts.LapseOnce, Receipts.lapse_one, Receipts.warn, Receipts.lapse, Receipts.ownerEmail,
    Receipts.ownerName, Receipts.owner, Receipts.forget. walk.
Qed.

Lemma others_safe p w : starts refunding KOther p → inv w →
  safe act inv (rely KOther) (guar KOther) p (λ _ _, True) w.
Proof.
  intros Hs. apply safe_always with (P := λ X c, plain c = true).
  - intros X c w1 w2 x Hc Hi Ha. apply plain_act in Ha; [|done].
    destruct (plain_step_ok _ _ Hi Ha) as (? & ? & ?). done.
  - destruct Hs as [(h & ev & ->)|[[j ->]|[[] ->]]]; try (by walk); [|apply lapse_tame].
    apply prog_always_bind; [apply deliver_tame|done].
Qed.

(** ** Rules for the drainers *)

Section Rules.
Context (k : kind).

(** What the others cannot make false. *)
Definition stable (A : world → Prop) : Prop := ∀ w w', rely k w w' → A w → A w'.

Lemma and_stable A B : stable A → stable B → stable (λ w, A w ∧ B w).
Proof. intros HA HB w w' Hr [? ?]. split; [by eapply HA|by eapply HB]. Qed.

Lemma guar_refl w : guar k w w.
Proof. destruct k; [apply (rely_refl KRefunds)|apply (rely_refl KReceipts)|]. split; [apply (rely_refl KReceipts)|apply (rely_refl KRefunds)]. Qed.

Lemma plain_step_both w w' : inv w → plain_step w w' → inv w' ∧ rely k w w' ∧ guar k w w'.
Proof. intros Hi Hs. destruct (plain_step_ok w w' Hi Hs) as (? & ? & ?). by destruct k. Qed.

(** A call that leaves documents alone, with what its answer says. *)
Lemma safe_plain {X} (c : call X) (A : world → Prop) (P : X → world → Prop) w :
  plain c = true → stable A → inv w → A w →
  (∀ w1 w2 x, inv w1 → A w1 → act X c w1 w2 x → P x w2) →
  safe act inv (rely k) (guar k) (perform c) (λ x w, A w ∧ P x w) w.
Proof.
  intros Hc HA Hi Hw HP. apply safe_perform; [done|]. intros w1 w2 x Hr Hi1 Ha.
  destruct (plain_step_both _ _ Hi1 (plain_act _ _ _ _ _ Hc Ha)) as (Hi2 & R1 & R2).
  assert (A w1) by (eapply HA; eauto). split; [done|]. split; [done|]. split; [by eapply HA|]. by apply (HP w1).
Qed.

Lemma safe_tame {R} (p : Effects.prog call R) (A : world → Prop) w :
  tame p → stable A → inv w → A w → safe act inv (rely k) (guar k) p (λ _ w, A w) w.
Proof.
  revert w. induction p as [r|X c q IH]; intros w Hp HA Hi Hw; [done|]. destruct Hp as [Hc Hk].
  apply (safe_bind act inv _ _ (perform c) q).
  eapply safe_mono; [|apply (safe_plain c A (λ _ _, True)); auto]. intros x w' Hi' [Hw' _]. by apply IH.
Qed.

(** A call that takes the world to [after] and answers [ans], unless it fails. *)
Lemma safe_reply {X} (c : call (result error X)) (A : world → Prop) (B : world → Prop) (P : X → world → Prop)
    (db : bool) (after : Z → world → world) (ans : world → result error X) w :
  (∀ f now id w, handle f now id c w = reply db f w (after now w) (ans w)) →
  stable A → inv w → A w →
  (∀ w, A w → B w) →
  (∀ now w, inv w → A w →
     let w' := after now w in inv w' ∧ guar k w w' ∧ B w' ∧ ∀ y, ans w = Ok y → P y w') →
  safe act inv (rely k) (guar k) (perform c) (λ x w, match x with Ok y => P y w | Err _ => B w end) w.
Proof.
  intros Hh HA Hi Hw HB HP. apply safe_perform; [done|]. intros w1 w2 x Hr Hi1 (f & now & id & Hf & E).
  rewrite Hh in E. assert (HA1 : A w1) by (eapply HA; eauto).
  destruct (HP now w1 Hi1 HA1) as (Hi2 & Hg & HB2 & Hy).
  apply reply_inv in E as [[-> ->]|[Hw2 (e & -> & _)]]; [| |done].
  - split; [done|]. split; [done|]. destruct (ans w1) eqn:Ea; [by apply Hy|done].
  - destruct Hw2 as [-> | ->].
    + split; [apply guar_refl|]. auto.
    + split; [done|]. auto.
Qed.

End Rules.

End Payments.

End Payments.
