(* ===== verification/PayPlans.v ===== *)
(** What the billing programs do to a tenant's plan: the lapse pass ends exactly the plans that
    have run out, and a webhook delivery grants only plans that are sold. *)
From S2P Require Import Prelude Text Plans SqlTable Books BillStore Effects BillWorld InvoiceNinja Receipts Stripe Payments.

Module PayPlans.
Import SqlTable Books BillStore Effects BillWorld Payments.

Section Plans.
Context `{BillingSystem}.

(** ** The tenants table *)

Definition keeps_tenants (X : Type) (c : call X) : Prop := match c with CUpdateTenant _ _ => False | _ => True end.

Lemma reply_world {X} db f (w w1 : world) (x : result error X) (P : world → Prop) :
  P w → P w1 → P (fst (reply db f w w1 x)).
Proof. by destruct f. Qed.

Lemma handle_tenants {X} f now id (c : call X) w : keeps_tenants X c → tenants (fst (handle f now id c w)) = tenants w.
Proof.
  intros Hc. destruct c; try done; cbn; try (apply (reply_world _ _ _ _ _ (λ w', tenants w' = tenants w)); done);
    try (case_match; [case_match|]; apply (reply_world _ _ _ _ _ (λ w', tenants w' = tenants w)); done).
  by case_match; apply (reply_world _ _ _ _ _ (λ w', tenants w' = tenants w)).
Qed.

Lemma run_tenants {R} (p : Effects.prog call R) : always keeps_tenants p →
  ∀ script now id w, tenants (fst (run script now id p w)) = tenants w.
Proof.
  induction p as [r|X c k IH]; intros Hp script now id w; [done|]. destruct Hp as [Hc Hk]. cbn.
  assert (∃ f n s, (match script with [] => (NoFault, now, []) | (f, t) :: s => (f, t, s) end) = (f, n, s)) as (f & n & s & ->)
    by (destruct script as [|[]]; eauto).
  pose proof (handle_tenants f n id c w Hc) as E. destruct (handle f n id c w) as [w' x]. by rewrite IH.
Qed.

(** [UpdateTenant] as a change of rows. *)
Definition written (x : Tenant) (now : Z) (r : Tenant) : Tenant :=
  MkTenant (tID r) (tOwnerUserID x) (tPlan x) (tStatus x) (tDeletedAt x) (PlanExpiresAt x)
    (LapseWarnedAt x) (BillingCountry x) (BillingCountryEvidence x) (StripeCustomerID x)
    (StripeSubscriptionID x) (tSettings x) (tCreatedAt r) (fmtTime now).

Definition put (x : Tenant) (now : Z) (t : list Tenant) : list Tenant :=
  (λ r, if bool_decide (tID r = tID x) then written x now r else r) <$> t.

Lemma update_put x now t : CheckBillingCountry x = true → UpdateTenant x now t = Ok (put x now t).
Proof. intros E. unfold UpdateTenant. by rewrite E. Qed.

(** ** Lapse *)

Definition runs_out (now : Z) (t : Tenant) : bool :=
  match PlanExpiresAt t with Some e => e * second <=? now | None => false end &&
  bool_decide (tDeletedAt t = None) && negb (bool_decide (tID t = DefaultTenantID)).

(** What a pass at [now] makes of a row: everything but the plan, its end, the warning and the
    time of the change stays. *)
Record passed (now : Z) (t t' : Tenant) : Prop := {
  same_id : tID t' = tID t;
  same_rest : (tOwnerUserID t', tStatus t', tDeletedAt t', BillingCountry t', BillingCountryEvidence t',
               StripeCustomerID t', StripeSubscriptionID t', tSettings t', tCreatedAt t')
            = (tOwnerUserID t, tStatus t, tDeletedAt t, BillingCountry t, BillingCountryEvidence t,
               StripeCustomerID t, StripeSubscriptionID t, tSettings t, tCreatedAt t);
  new_plan : tPlan t' = if runs_out now t && negb (bool_decide (Plans.Normalise (tPlan t) = Plans.Free))
                        then Plans.Free else tPlan t;
  new_end : PlanExpiresAt t' = if runs_out now t then None else PlanExpiresAt t;
}.

Section Lapse.
Context (j : Receipts.LapseJob) (now : Z) (id : bytes).

Notation alone p w := (run [] now id p w).

Lemma owner_keeps t : always keeps_tenants (Receipts.ownerEmail j t) ∧ always keeps_tenants (Receipts.ownerName j t).
Proof. unfold Receipts.ownerEmail, Receipts.ownerName, Receipts.owner. split; walk. Qed.

(** A program that writes [x] once and leaves the tenants alone otherwise. *)
Lemma alone_put {A B} (p : Effects.prog call A) (q : A → result error unit → Effects.prog call B) x w :
  CheckBillingCountry x = true → always keeps_tenants p → (∀ a r, always keeps_tenants (q a r)) →
  tenants (fst (alone (a ← p; r ← perform (CUpdateTenant x []); q a r) w)) = put x now (tenants w).
Proof.
  intros Hx Hp Hq. rewrite bill_run_bind. pose proof (run_tenants p Hp [] now id w) as E.
  destruct (alone p w) as [w1 a]. cbn [fst] in E. rewrite bill_run_bind. cbn. rewrite (update_put _ _ _ Hx). cbn.
  rewrite run_tenants by done. cbn. by rewrite E.
Qed.

Lemma passed_same t : runs_out now t = false → passed now t t.
Proof. intros E. by split; rewrite ?E. Qed.

Lemma passed_warned t wa : runs_out now t = false → passed now t (written (Receipts.set_warned wa t) now t).
Proof. intros E. by split; cbn; rewrite ?E. Qed.

Lemma passed_ended t plan : runs_out now t = true →
  plan = (if negb (bool_decide (Plans.Normalise (tPlan t) = Plans.Free)) then Plans.Free else tPlan t) →
  passed now t (written (Receipts.set_plan plan None t) now t).
Proof. intros E Ep. by split; cbn; rewrite ?E. Qed.

Lemma warn_row t w : CheckBillingCountry t = true →
  tenants (fst (alone (Receipts.warn j t now) w)) = tenants w ∨
  tenants (fst (alone (Receipts.warn j t now) w)) = put (Receipts.set_warned (fmtTime now) t) now (tenants w).
Proof.
  intros Ht. unfold Receipts.warn. destruct (PlanExpiresAt t) as [e|]; [|by left].
  do 5 (match goal with |- context [if ?b then _ else _] => destruct b; [by left|] end).
  destruct (owner_keeps t) as [Ho Hn]. rewrite bill_run_bind. pose proof (run_tenants _ Ho [] now id w) as E.
  destruct (alone (Receipts.ownerEmail j t) w) as [w1 to]. cbn [fst] in E.
  case_bool_decide; [by left|]. right. rewrite bill_run_bind. pose proof (run_tenants _ Hn [] now id w1) as E1.
  destruct (alone (Receipts.ownerName j t) w1) as [w2 name]. cbn [fst] in E1.
  rewrite alone_put; [by rewrite E1, E|done|unfold Receipts.SendOrLog; by walk|by walk].
Qed.

(** One row of the pass. *)
Lemma lapse_one_row t w : CheckBillingCountry t = true →
  ∃ u, tenants (fst (alone (Receipts.lapse_one j now t) w)) =
    (match u with Some x => put x now (tenants w) | None => tenants w end) ∧
    match u with Some x => tID x = tID t ∧ passed now t (written x now t) | None => passed now t t end.
Proof.
  intros Ht. unfold Receipts.lapse_one. destruct (PlanExpiresAt t) as [e|] eqn:Ee.
  2: { exists None. split; [done|]. apply passed_same. unfold runs_out. by rewrite Ee. }
  destruct (now <? e * second) eqn:El.
  { assert (runs_out now t = false) as Er by (unfold runs_out; rewrite Ee; apply Z.ltb_lt in El;
      replace (e * second <=? now) with false by (symmetry; apply Z.leb_gt; lia); done).
    destruct (warn_row t w Ht) as [-> | ->]; [exists None|eexists (Some _)]; (split; [done|]).
    - by apply passed_same.
    - split; [done|by apply passed_warned]. }
  apply Z.ltb_ge in El. destruct (_ || _) eqn:Ed.
  { exists None. split; [done|]. apply passed_same. unfold runs_out. rewrite Ee.
    apply orb_true_iff in Ed as [Ed%bool_decide_eq_true|Ed]; [rewrite (bool_decide_false (tDeletedAt t = None)) by done|rewrite Ed].
    - by rewrite andb_false_r.
    - by rewrite andb_false_r. }
  assert (runs_out now t = true) as Er.
  { unfold runs_out. rewrite Ee. apply orb_false_iff in Ed as [Ed%bool_decide_eq_false ->].
    rewrite bool_decide_true by by destruct (tDeletedAt t); [destruct Ed|]. by replace (e * second <=? now) with true by (symmetry; by apply Z.leb_le). }
  clear Ed. case_bool_decide as Ef.
  - eexists (Some _). split; [apply (alone_put (Ret tt) (λ _ _, Ret tt)); by walk|]. split; [done|].
    apply passed_ended; [done|]. by rewrite bool_decide_true.
  - exists (Some (Receipts.set_plan Plans.Free None t)). split; [|split; [done|]; apply passed_ended; [done|by rewrite bool_decide_false]].
    unfold Receipts.lapse. apply (alone_put (Ret tt) (λ _ _, _)); [done|done|]. intros [] r.
    set (t' := Receipts.set_plan _ _ _). destruct (owner_keeps t').
    unfold Receipts.forget, Receipts.SendOrLog, Receipts.audit. walk.
Qed.

(** The rows with these ids have been passed, the others not. *)
Definition progress (T : list Tenant) (ids : list bytes) (t t' : Tenant) : Prop :=
  t ∈ T ∧ if bool_decide (tID t ∈ ids) then passed now t t' else t' = t.

Lemma progress_put T0 T ids t x : NoDup (tID <$> T0) → t ∈ T0 → tID t ∉ ids →
  Forall2 (progress T0 ids) T0 T → tID x = tID t → passed now t (written x now t) →
  Forall2 (progress T0 (tID t :: ids)) T0 (put x now T).
Proof.
  intros HN Ht Hn HF Ex Hp. apply Forall2_fmap_r. eapply Forall2_impl; [exact HF|].
  intros s s' [Hs Hss]. split; [done|]. rewrite Ex. destruct (decide (tID s = tID t)) as [E|E].
  - assert (s = t) as -> by (eapply (same_row tID); eauto). rewrite bool_decide_false in Hss by done. subst s'.
    rewrite !bool_decide_true; [done|done|by left].
  - assert (tID s' = tID s) as E' by (case_bool_decide; [by destruct Hss|by subst]).
    rewrite (bool_decide_false (tID s' = tID t)) by congruence.
    rewrite (bool_decide_ext (tID s ∈ tID t :: ids) (tID s ∈ ids)); [done|]. rewrite elem_of_cons. tauto.
Qed.

Lemma progress_skip T0 T ids t : NoDup (tID <$> T0) → t ∈ T0 → tID t ∉ ids →
  Forall2 (progress T0 ids) T0 T → passed now t t → Forall2 (progress T0 (tID t :: ids)) T0 T.
Proof.
  intros HN Ht Hn HF Hp. eapply Forall2_impl; [exact HF|].
  intros s s' [Hs Hss]. split; [done|]. destruct (decide (tID s = tID t)) as [E|E].
  - assert (s = t) as -> by (eapply (same_row tID); eauto). rewrite bool_decide_false in Hss by done. subst s'.
    rewrite bool_decide_true; [done|by left].
  - rewrite (bool_decide_ext (tID s ∈ tID t :: ids) (tID s ∈ ids)); [done|]. rewrite elem_of_cons. tauto.
Qed.

Lemma lapse_loop T0 l : ∀ ids w, NoDup (tID <$> T0) → NoDup (tID <$> l) → (∀ t, t ∈ l → t ∈ T0 ∧ tID t ∉ ids) →
  Forall (λ t, CheckBillingCountry t = true) T0 → Forall2 (progress T0 ids) T0 (tenants w) →
  Forall2 (progress T0 (rev (tID <$> l) ++ ids)) T0 (tenants (fst (alone (for_each (Receipts.lapse_one j now) l) w))).
Proof.
  induction l as [|t l IH]; intros ids w HN HNl Hl Hb HF; [done|]. apply NoDup_cons in HNl as [Hnt HNl].
  destruct (Hl t) as [Ht Hi]; [by left|]. rewrite Forall_forall in Hb. pose proof (Hb t Ht) as Hbt.
  cbn [for_each]. change (pbind ?f ?p) with (p ≫= f). rewrite bill_run_bind.
  destruct (lapse_one_row t w Hbt) as (u & Eu & Hu).
  destruct (alone (Receipts.lapse_one j now t) w) as [w1 []]. cbn [fst] in Eu.
  cbn [fmap list_fmap rev]. rewrite <- app_assoc. change ([tID t] ++ ids) with (tID t :: ids). apply IH; [done|done| |by apply Forall_forall|].
  - intros s Hs. destruct (Hl s) as [Hs0 Hsi]; [by right|]. split; [done|]. rewrite elem_of_cons. intros [E|E]; [|done].
    apply Hnt. rewrite <- E. by apply list_elem_of_fmap_2.
  - rewrite Eu. destruct u as [x|]; [destruct Hu; by apply progress_put|by apply progress_skip].
Qed.

(** An hourly pass that nothing disturbs ends exactly the plans that have run out.  A plan
    without an end, such as one an operator set, is left alone. *)
Theorem lapse_pass_exact w : NoDup (tID <$> tenants w) → Forall (λ t, CheckBillingCountry t = true) (tenants w) →
  Forall2 (passed now) (tenants w) (tenants (fst (alone (Receipts.LapseOnce j) w))).
Proof.
  intros HN Hb. unfold Receipts.LapseOnce. rewrite bill_run_bind. cbn [run perform handle]. rewrite bill_run_bind. cbn [run perform handle reply].
  set (l := ListTenants (tenants w)). assert (l ≡ₚ tenants w) as Hl by apply merge_sort_Permutation.
  assert (Forall2 (progress (tenants w) []) (tenants w) (tenants w)) as H0.
  { apply Forall2_same_length_lookup. split; [done|]. intros i x y Hx Hy. split; [by eapply list_elem_of_lookup_2|].
    cbn. congruence. }
  pose proof (lapse_loop (tenants w) l [] w HN) as HF. eapply Forall2_impl; [apply HF; try done|].
  - by rewrite Hl.
  - intros t Ht. rewrite Hl in Ht. split; [done|apply not_elem_of_nil].
  - intros t t' [Ht Hp]. rewrite bool_decide_true in Hp; [done|]. rewrite app_nil_r, list_elem_of_In, <- in_rev, <- list_elem_of_In.
    apply list_elem_of_fmap_2. by rewrite Hl.
Qed.

End Lapse.

(** ** Deliveries *)

(** A program that is safe on its own, run with any faults. *)
Lemma safe_run {R} (I : world → Prop) guar (p : Effects.prog call R) Q :
  ∀ script now id w, Forall (λ m, fault_ok m.1) script → safe act I eq guar p Q w →
  Q (snd (run script now id p w)) (fst (run script now id p w)) ∧ I (fst (run script now id p w)).
Proof.
  induction p as [r|X c k IH]; intros script now id w Hs [Hw Hp]; [done|]. cbn.
  assert (∃ f n s, (match script with [] => (NoFault, now, []) | (f, t) :: s => (f, t, s) end) = (f, n, s) ∧ fault_ok f ∧
    Forall (λ m, fault_ok m.1) s) as (f & n & s & -> & Hf & Hs').
  { destruct script as [|[f t] s]; [by exists NoFault, now, []|]. apply Forall_cons in Hs as [? ?]. by exists f, t, s. }
  destruct (handle f n id c w) as [w' x] eqn:E. apply IH; [done|]. apply (Hp w w' x eq_refl Hw). by exists f, n, id.
Qed.

Lemma SetPrices_sellable m price plan : Stripe.SetPrices m !! price = Some plan → Stripe.sellable plan = true.
Proof.
  unfold Stripe.SetPrices. assert (∀ (g : gmap bytes bytes), (∀ k p, g !! k = Some p → Stripe.sellable p = true) →
    ∀ k p, foldl (λ prices e, let p := Plans.Normalise e.2 in
      if Stripe.sellable p then <[Text.TrimSpace e.1 := p]> prices else prices) g m !! k = Some p → Stripe.sellable p = true) as Hm.
  { induction m as [|[a b] m IH]; intros g Hg; cbn; [done|]. apply IH. intros k p.
    destruct (Stripe.sellable (Plans.Normalise b)) eqn:E; [|apply Hg]. intros [[<- <-]|[_ Hk]]%lookup_insert_Some; [done|by eapply Hg]. }
  apply Hm. intros k p. by rewrite lookup_empty.
Qed.

Section Deliver.
Context (h : Stripe.Handler) (ev : Stripe.Event).
Hypothesis sold : ∀ price plan, Stripe.prices h !! price = Some plan → Stripe.sellable plan = true.

(** What one event can make of a plan. *)
Definition plan_step (t t' : Tenant) : Prop :=
  tID t' = tID t ∧
  ((tPlan t' = tPlan t ∧ PlanExpiresAt t' = PlanExpiresAt t) ∨
   (∃ deleted sub, Stripe.eData ev = Stripe.SubscriptionChanged deleted (Some sub) ∧
      ((PlanExpiresAt t ≠ None ∧ tPlan t' = Plans.Free ∧ PlanExpiresAt t' = None) ∨
       (deleted = false ∧ Stripe.live sub = true ∧ Stripe.sellable (tPlan t') = true)))).

Context (T : list Tenant).

Definition plans_ok (w : world) : Prop := ∀ t', t' ∈ tenants w → ∃ t, t ∈ T ∧ plan_step t t'.

(** A write of a row read from [T] and changed as the event may. *)
Definition fair (X : Type) (c : call X) : Prop :=
  match c with CUpdateTenant x _ => ∃ t, t ∈ T ∧ plan_step t x | _ => True end.

Lemma plan_step_same t : plan_step t t.
Proof. split; [done|]. by left. Qed.

Lemma fair_ok X (c : call X) w1 w2 x : fair X c → plans_ok w1 → act X c w1 w2 x → plans_ok w2.
Proof.
  intros Hc Hi (f & now & id & Hf & E).
  assert (Hother : keeps_tenants X c → plans_ok w2).
  { intros Hk t' Ht'. pose proof (handle_tenants f now id c w1 Hk) as Et. rewrite E in Et. cbn in Et. rewrite Et in Ht'. by apply Hi. }
  destruct c as [| | |y rf| | | | | | | | | | | | | | | | | | | | | | | | | | | | | | | | | | | | | | | | | | | |]; try (by apply Hother).
  destruct Hc as (t & Ht & Hs). cbn in E. unfold UpdateTenant in E. destruct (CheckBillingCountry y); cbn in E.
  - assert (Hp : ∀ w3, tenants w3 = put y now (tenants w1) → plans_ok w3).
    { intros w3 E3 t' Ht'. rewrite E3 in Ht'. apply list_elem_of_fmap in Ht' as (r & -> & Hr).
      destruct (decide (tID r = tID y)) as [Eid|Eid]; [rewrite bool_decide_true by done|rewrite bool_decide_false by done; by apply Hi].
      exists t. split; [done|]. destruct Hs as [E1 E2]. split; [|exact E2].
      cbn. congruence. }
    apply Payments.reply_inv in E as [[-> _]|[[-> | ->] _]]; try done; apply Hp; by case_bool_decide.
  - by apply Payments.reply_inv in E as [[-> _]|[[-> | ->] _]].
Qed.

Notation safe := (safe act plans_ok eq (λ _ _, True)).
Notation fairly := (always fair).

Lemma read_tenant (c : call (result error Tenant)) (get : list Tenant → option Tenant) w :
  (∀ f now id w, handle f now id c w = reply true f w w (found ErrNoRows (get (tenants w)))) →
  (∀ l t, get l = Some t → t ∈ l) → tenants w = T → plans_ok w →
  safe (perform c) (λ x w', tenants w' = T ∧ match x with Ok t => t ∈ T | Err _ => True end) w.
Proof.
  intros Hh Hg HT Hi. apply safe_perform; [done|]. intros w1 w2 x <- _ (f & now & id & Hf & E). rewrite Hh, HT in E.
  apply Payments.reply_inv in E as [[-> ->]|[Hw (e & -> & _)]]; [| |done].
  - split; [done|]. split; [done|]. split; [done|]. destruct (get T) eqn:Eg; [by apply Hg|done].
  - destruct Hw as [-> | ->]; done.
Qed.

Lemma tenantFor_reads meta c w : tenants w = T → plans_ok w →
  safe (Stripe.tenantFor meta c) (λ x _, match x with Ok t => t ∈ T | Err _ => True end) w.
Proof.
  intros HT Hi. unfold Stripe.tenantFor. apply safe_bind.
  eapply safe_mono with (Q := λ x w', tenants w' = T ∧ match x with Ok t => t ∈ T | Err _ => True end).
  - clear w HT Hi. intros [t|e] w Hi [HT Ht]; [done|]. apply safe_bind.
    eapply safe_mono with (Q := λ x w', tenants w' = T ∧ match x with Ok t => t ∈ T | Err _ => True end).
    { by intros [t|e'] w' Hi' [_ Ht']. }
    case_bool_decide; [done|]. apply (read_tenant _ (TenantByStripeCustomer (Text.TrimSpace c))); try done.
    intros l t. unfold TenantByStripeCustomer. case_bool_decide; [done|]. by intros [? _]%head_filter.
  - case_bool_decide; [done|].
    apply (read_tenant _ (GetTenant (Text.TrimSpace (default [] (meta !! str "tenant_id"))))); try done.
    intros l t. unfold GetTenant. by intros [? _]%head_filter.
Qed.

Lemma audit_fair on t a : fairly (Receipts.audit on t a).
Proof. unfold Receipts.audit. walk. Qed.

Lemma notify_fair t m : fairly (Stripe.notify h t m) ∧ fairly (Stripe.announce h t.(tID)).
Proof.
  unfold Stripe.notify, Stripe.ownerEmail, Stripe.ownerName, Stripe.owner, Stripe.announce, Receipts.SendOrLog. split; walk.
Qed.

Lemma recordReceipt_fair t k x c cu e n p ti co pa : fairly (Stripe.recordReceipt h t k x c cu e n p ti co pa).
Proof. unfold Stripe.recordReceipt, Stripe.ownerEmail, Stripe.owner. walk. Qed.

Lemma by_keys_fair keys : fairly (Stripe.receipt_by_keys keys).
Proof. induction keys; walk. Qed.

#[local] Hint Resolve audit_fair recordReceipt_fair by_keys_fair : walks.

(** The rest of a handler, once the tenant is read. *)
Lemma then_fairly {A} (k : result error Tenant → Effects.prog call A) meta c w : tenants w = T → plans_ok w →
  (∀ e, fairly (k (Err e))) → (∀ t, t ∈ T → fairly (k (Ok t))) →
  safe (x ← Stripe.tenantFor meta c; k x) (λ _ _, True) w.
Proof.
  intros HT Hi He Hk. apply safe_bind. eapply safe_mono; [|by apply tenantFor_reads].
  intros x w' Hi' Hx. apply safe_always with (P := fair); [|destruct x; auto|done].
  intros X cl w1 w2 y Hc Hi1 Ha. split; [done|]. by eapply fair_ok.
Qed.

Lemma checkout_fair cs w : tenants w = T → plans_ok w → safe (Stripe.onCheckout h ev cs) (λ _ _, True) w.
Proof.
  intros HT Hi. apply then_fairly; [done|done| |].
  - intros e. unfold Stripe.anonymousDonation, Stripe.once, Stripe.donation, Stripe.recordUnattributed, Stripe.log. walk.
  - intros t Ht. unfold Stripe.once, Stripe.donation. walk. exists t. split; [done|]. unfold Stripe.bound. case_match; split; auto.
Qed.

Lemma end_fair deleted sub t : Stripe.eData ev = Stripe.SubscriptionChanged deleted (Some sub) → t ∈ T →
  fairly (Stripe.endPlan h t).
Proof.
  intros Ev Ht. unfold Stripe.endPlan. destruct (PlanExpiresAt t) eqn:Ee; [|done].
  pose proof (λ m, proj1 (notify_fair t m)). pose proof (proj2 (notify_fair t (λ name, Lapsed name [] 0))).
  unfold Stripe.log. walk. exists t. split; [done|]. split; [done|]. right. exists deleted, sub. split; [done|]. left.
  by rewrite Ee.
Qed.

Lemma grant_fair sub t plan : Stripe.eData ev = Stripe.SubscriptionChanged false (Some sub) → Stripe.live sub = true →
  Stripe.sellable plan = true → t ∈ T → fairly (Stripe.grantPlan h t sub plan).
Proof.
  intros Ev Hl Hp Ht. unfold Stripe.grantPlan.
  pose proof (λ m, proj1 (notify_fair t m)). pose proof (proj2 (notify_fair t (λ name, Lapsed name [] 0))).
  unfold Stripe.log. apply prog_always_bind; [walk|]. intros expires.
  apply prog_always_bind; [|intros [[]|e]; walk]. split; [|done]. exists t. split; [done|]. split; [done|]. right. by exists false, sub; auto.
Qed.

Lemma subscription_fair deleted sub w : Stripe.eData ev = Stripe.SubscriptionChanged deleted (Some sub) →
  tenants w = T → plans_ok w → safe (Stripe.onSubscription h ev deleted sub) (λ _ _, True) w.
Proof using sold.
  intros Ev HT Hi. apply then_fairly; [done|done| |].
  - intros e. unfold Stripe.recordUnattributed, Stripe.log. walk.
  - intros t Ht. unfold Stripe.once. apply always_try; [walk|]. intros [|]; [|done]. cbn [negb].
    destruct (deleted || negb (Stripe.live sub)) eqn:E; [by eapply end_fair|].
    apply orb_false_iff in E as [-> El%negb_false_iff]. case_bool_decide as Ep.
    { unfold Stripe.recordUnattributed, Stripe.log. walk. }
    apply grant_fair; try done. unfold Stripe.planFor in *.
    destruct (Stripe.prices h !! _) as [p|] eqn:Epr; [by eapply sold|done].
Qed.

Lemma deliver_fair w : tenants w = T → plans_ok w → safe (Stripe.deliver h ev) (λ _ _, True) w.
Proof using sold.
  intros HT Hi. unfold Stripe.deliver. case_bool_decide; [done|]. apply safe_bind.
  eapply safe_mono with (Q := λ _ _, True); [done|]. unfold Stripe.dispatch.
  assert (∀ p : Effects.prog call (result error unit), fairly p → safe p (λ _ _, True) w) as Hfair.
  { intros p Hp. apply safe_always with (P := fair); [|done|done]. intros X cl w1 w2 y Hc Hi1 Ha. split; [done|]. by eapply fair_ok. }
  destruct (Stripe.eData ev) as [[cs|]|d [sub|]|[i|]|[i|]|[ip|]|[ch|]|] eqn:Ev; try (by apply Hfair; unfold Stripe.unreadable).
  - by apply checkout_fair.
  - by apply subscription_fair.
  - unfold Stripe.onInvoicePaid. destruct (_ <=? _); [by apply Hfair|]. apply then_fairly; [done|done| |].
    + intros e. unfold Stripe.recordUnattributed, Stripe.log. walk.
    + intros t Ht. unfold Stripe.once. walk.
  - unfold Stripe.onInvoiceFailed. destruct (_ <=? _); [by apply Hfair|]. apply then_fairly; [done|done| |].
    + intros e. unfold Stripe.recordUnattributed, Stripe.log. walk.
    + intros t Ht. unfold Stripe.once, Stripe.log, Stripe.ownerEmail, Stripe.ownerName, Stripe.owner, Receipts.SendOrLog. walk.
  - apply Hfair. unfold Stripe.onInvoicePaymentPaid. walk.
  - apply Hfair. unfold Stripe.onChargeRefunded, Stripe.refunded_receipt, Stripe.recordRefund, Stripe.once, Stripe.recordUnattributed, Stripe.log.
    walk.
Qed.

End Deliver.


(** ** Redeliveries *)

(** A call that writes none of the tables. *)
Definition reads (X : Type) (c : call X) : Prop :=
  match c with
  | CListTenants | CGetTenant _ | CTenantByStripeCustomer _ | CGetUserByID _ _ | CGetReceiptByKey _ | CGetReceipt _
  | CGetReceiptByPaymentRef _ | CMail _ | CAudit _ _ | CForget _ | CXid | CNow => True
  | _ => False
  end.

Definition tables (w : world) : list Tenant * list Receipt * list Refund * list bytes :=
  (tenants w, receipts w, refunds w, stripe_events w).

Lemma reads_tables X (c : call X) w w' x : reads X c → act X c w w' x → tables w' = tables w.
Proof.
  intros Hc (f & now & id & Hf & E). destruct c; try done; cbn in E;
    try (by injection E as <- _); by apply Payments.reply_inv in E as [[-> _]|[[-> | ->] _]].
Qed.

Section Redeliver.
Context (h : Stripe.Handler) (ev : Stripe.Event) (w0 : world).
Hypothesis seen : Stripe.eID ev ∈ stripe_events w0.

Notation untouched := (λ w, tables w = tables w0).
Notation safe := (safe act untouched eq (λ _ _, True)).

Lemma reads_safe {R} (p : Effects.prog call R) w : always reads p → untouched w → safe p (λ _ _, True) w.
Proof.
  intros Hp. apply safe_always with (P := reads); [|done]. intros X c w1 w2 x Hc Hi Ha. split; [done|].
  by rewrite (reads_tables _ _ _ _ _ Hc Ha).
Qed.

Lemma once_again w : untouched w → safe (Stripe.once (Stripe.eID ev)) (λ x _, x ≠ Ok true) w.
Proof using seen.
  intros Hw. apply safe_bind. eapply safe_mono with (Q := λ x _, x ≠ Ok true).
  { intros [[]|e] w' Hi Hx; [done|done|done]. }
  apply safe_perform; [done|]. intros w1 w2 x <- _ (f & now & id & Hf & E). cbn in E. unfold ApplyStripeEvent in E.
  injection Hw as E1 E2 E3 E4. case_bool_decide.
  - split; [done|]. unfold tables. apply Payments.reply_inv in E as [[-> ->]|[[-> | ->] (e & -> & _)]]; try done; by rewrite E1, E2, E3, E4.
  - rewrite E4 in E. assert (existsb (λ x0, bool_decide (x0 = Stripe.eID ev)) (stripe_events w0) = true) as Ex.
    { apply existsb_exists. exists (Stripe.eID ev). split; [by apply list_elem_of_In|by apply bool_decide_eq_true]. }
    rewrite Ex in E. split; [done|]. unfold tables.
    apply Payments.reply_inv in E as [[-> ->]|[[-> | ->] (e & -> & _)]]; try done; cbn; by rewrite E1, E2, E3, ?E4.
Qed.

(** A handler up to the point where it records the event. *)
Lemma again {A} (k : bool → Effects.prog call (result error A)) w : untouched w → (always reads (k false)) →
  safe (try! ok := Stripe.once (Stripe.eID ev) in k ok) (λ _ _, True) w.
Proof using seen.
  intros Hw Hk. apply safe_try. eapply safe_mono; [|by apply once_again]. intros [[]|e] w' Hi Hx; [done| |done]. by apply reads_safe.
Qed.

Lemma then_again {A} (p : Effects.prog call A) (k : A → Effects.prog call (result error unit)) w : untouched w → always reads p →
  (∀ x w', untouched w' → safe (k x) (λ _ _, True) w') → safe (x ← p; k x) (λ _ _, True) w.
Proof.
  intros Hw Hp Hk. apply safe_bind. eapply safe_mono; [|by apply reads_safe]. intros x w' Hw' _. by apply Hk.
Qed.

Lemma tenantFor_reads_only meta c : always reads (Stripe.tenantFor meta c).
Proof. unfold Stripe.tenantFor. walk. Qed.

Lemma unattributed_reads_only : always reads (Stripe.recordUnattributed h).
Proof. unfold Stripe.recordUnattributed, Stripe.log, Receipts.audit. walk. Qed.

#[local] Hint Resolve unattributed_reads_only tenantFor_reads_only : walks.

Lemma by_keys_reads keys : always reads (Stripe.receipt_by_keys keys).
Proof. induction keys; walk. Qed.

#[local] Hint Resolve by_keys_reads : walks.

Lemma redelivered_safe w : untouched w → (∀ o, Stripe.eData ev ≠ Stripe.InvoicePaymentPaid o) →
  safe (Stripe.deliver h ev) (λ _ _, True) w.
Proof using seen.
  intros Hw Hno. unfold Stripe.deliver. case_bool_decide; [done|]. apply safe_bind.
  eapply safe_mono with (Q := λ _ _, True); [done|]. unfold Stripe.dispatch.
  destruct (Stripe.eData ev) as [[cs|]|d [sub|]|[i|]|[i|]|ip|[ch|]|] eqn:Ev; try done.
  - apply then_again; [done|by walk|]. intros [t|e] w' Hw'; [by apply again; [|walk]|].
    case_match; [by apply again; [|walk]|]. apply reads_safe; [walk|done].
  - apply then_again; [done|by walk|]. intros [t|e] w' Hw'; [by apply again; [|walk]|]. apply reads_safe; [walk|done].
  - unfold Stripe.onInvoicePaid. destruct (_ <=? _); [done|].
    apply then_again; [done|by walk|]. intros [t|e] w' Hw'; [by apply again; [|walk]|]. apply reads_safe; [walk|done].
  - unfold Stripe.onInvoiceFailed. destruct (_ <=? _); [done|].
    apply then_again; [done|by walk|]. intros [t|e] w' Hw'; [by apply again; [|walk]|]. apply reads_safe; [walk|done].
  - by destruct (Hno ip).
  - unfold Stripe.onChargeRefunded. destruct (_ || _); [done|].
    apply then_again; [done|unfold Stripe.refunded_receipt; by walk|]. intros [t|] w' Hw'; [by apply again; [|walk]|]. apply reads_safe; [walk|done].
Qed.

End Redeliver.

(** An event that is recorded as applied changes no tenant, receipt or refund when it is
    delivered again, whatever fails on the way. *)
Theorem redelivery_changes_nothing h ev script now id w : Stripe.eID ev ∈ stripe_events w →
  (∀ o, Stripe.eData ev ≠ Stripe.InvoicePaymentPaid o) → Forall (λ s, fault_ok s.1) script →
  tables (fst (run script now id (Stripe.deliver h ev) w)) = tables w.
Proof.
  intros Hs Hno Hf. eapply (safe_run (λ w', tables w' = tables w) (λ _ _, True) _ (λ _ _, True)); [done|].
  by apply redelivered_safe.
Qed.

End Plans.

End PayPlans.
