(* ===== verification/PayReceipts.v ===== *)
(** The receipt drainer of [internal/billing/receipts.go] keeps the invariant of [Payments],
    whatever fails and whatever runs beside it. *)
From S2P Require Import Prelude Text SqlTable Books BillStore Effects BillWorld InvoiceNinja Receipts Payments.

Module PayReceipts.
Import SqlTable Books BillStore Effects BillWorld InvoiceNinja Payments.

(** ** Rows updated by id *)

#[local] Instance facts_eq : EqDecision ReceiptFacts.
Proof. solve_decision. Defined.

Lemma touched_here t (p : Receipt → bool) g :
  (∀ r, r ∈ t → p r = true → facts (g r) = facts r ∧ InvoiceRef (g r) = InvoiceRef r) →
  touched t (fst (sql_update p g t)).
Proof.
  intros Hg. left.
  exists (λ r, if p r && bool_decide (facts (g r) = facts r ∧ InvoiceRef (g r) = InvoiceRef r) then g r else r).
  split.
  - apply list_fmap_ext. intros i r Hi%list_elem_of_lookup_2. cbn. destruct (p r) eqn:E; [|done].
    cbn. by rewrite bool_decide_true by auto.
  - intros r. destruct (p r); [|done]. cbn. by case_bool_decide.
Qed.

Section Drainer.
Context `{BillingSystem} (refunding : bool).

Notation inv := (inv refunding).
Notation stable := (stable refunding KReceipts).
Notation safe := (safe act inv (rely refunding KReceipts) (guar refunding KReceipts)).

(** ** Assertions *)

(** The row of [r], with the invoice recorded on it. *)
Definition row (r : Receipt) (ref : bytes) (w : world) : Prop :=
  ∃ r' : Receipt, r' ∈ receipts w ∧ facts r' = facts r ∧ InvoiceRef r' = ref.

(** The receipts still to come are as they were listed. *)
Definition others (l : list Receipt) (w : world) : Prop := ∀ r, r ∈ l → row r (InvoiceRef r) w.

(** [i] is what the client read of an invoice for [r]; alone with the books, it is still so. *)
Definition seen (r : Receipt) (i : invoice) (w : world) : Prop :=
  iID i ≠ [] ∧ ∃ d, invoices (ledger w) !! iID i = Some d ∧ dFor d = rID r ∧
                    (refunding = false → i = view (iID i) d).

Lemma row_stable r ref : stable (row r ref).
Proof.
  intros w w' [R _ _] (r1 & Hr & E1 & E2). destruct (R r1 Hr) as (r2 & Hr2 & E3 & E4).
  exists r2. split; [done|]. split; congruence.
Qed.

Lemma others_stable l : stable (others l).
Proof. intros w w' Hr Ho r Hl. eapply row_stable; eauto. Qed.

Lemma seen_stable r i : stable (seen r i).
Proof.
  intros w w' Hr (H2 & d & Hd & E1 & E3). pose proof Hr as [_ D S]. specialize (D (iID i)).
  rewrite Hd in D. destruct (invoices (ledger w') !! iID i) as [d'|] eqn:Hd'; [|done].
  unfold doc_id in D; cbn in D. injection D as Ef En Es.
  split; [done|]. exists d'. split; [done|].
  split; [congruence|]. intros Hf. rewrite (S Hf), Hd in Hd'. injection Hd' as <-. auto.
Qed.

(** The row of an id is unique. *)
Lemma row_unique w r ref (r1 : Receipt) : documents_ok w → row r ref w → r1 ∈ receipts w → rID r1 = rID r →
  facts r1 = facts r ∧ InvoiceRef r1 = ref.
Proof.
  intros [HN _ _ _] (r2 & Hr2 & E1 & E2) Hr1 Eid. enough (r1 = r2) as -> by done.
  apply (same_row (λ r : Receipt, rID r) (receipts w)); [done..|]. by rewrite E1.
Qed.

(** ** The calls on documents *)

(** A change of the invoices alone. *)
Lemma ledger_only w b : inv w → credits b = credits (ledger w) →
  credits_ok (set_ledger b w) ∧ rely_refunds w (set_ledger b w).
Proof.
  intros (_ & [HN H1 Hn Hb Hl Hp Hd Hi] & _) Ec. split; split; cbn; rewrite ?Ec; try done.
  - intros f Hf. by exists f.
  - intros r Hr. by exists r.
Qed.

(** A new draft is for its receipt. *)
Lemma create_ok w b i r ref l : inv w → row r ref w → lCost l = rAmountCents r →
  create_invoice (ledger w) (rID r) l = (b, i) →
  inv (set_ledger b w) ∧ rely_refunds w (set_ledger b w) ∧ seen r (view i (draft (rID r) l)) (set_ledger b w).
Proof.
  intros Hi Hrow Hc E. pose proof E as (Hne & Hnew & Ei & Ec)%create_invoice_doc.
  destruct (ledger_only w b Hi Ec) as [Hcr Hrf]. destruct Hi as (Hd & _ & Hp). split; [|split; [done|]].
  2: { split; [done|]. exists (draft (rID r) l). cbn. rewrite Ei, lookup_insert_eq. done. }
  split; [|split; [done|]].
  - destruct Hd as [HN [Hn0 Hn] Hb Hl]. split; cbn; rewrite ?Ei; [done| | |].
    + split; [by rewrite lookup_insert_ne|]. intros j d [[<- <-]|[_ Hj]]%lookup_insert_Some; [done|by apply (Hn j)].
    + intros j d [[<- <-]|[_ Hj]]%lookup_insert_Some Hnum; [done|by apply Hb].
    + intros r' Hr' Hn'. destruct (Hl r' Hr' Hn') as (d & Hd & E'). exists d. split; [|done].
      rewrite lookup_insert_ne; [done|]. intros ->. congruence.
  - intros Hf. destruct (Hp Hf) as [Hs Hpr Hk]. split; cbn; rewrite Ei.
    + intros j d [[<- <-]|[_ Hj]]%lookup_insert_Some; [done|by apply (Hs j)].
    + intros j d r' [[<- <-]|[_ Hj]]%lookup_insert_Some Hr' E'; [|by apply (Hpr j)].
      cbn in *. by rewrite Hc, (proj1 (row_unique w r ref r' Hd Hrow Hr' E')).
    + intros j d [[<- <-]|[_ Hj]]%lookup_insert_Some; [|by apply (Hk j)].
      destruct Hrow as (r' & Hr' & E1 & _). apply list_elem_of_fmap. exists r'. cbn. by rewrite E1.
Qed.

(** A change of one invoice that is recorded on its receipt. *)
Lemma change_ok w b r i d d' : inv w → row r i w → invoices (ledger w) !! i = Some d → dFor d = rID r →
  invoices b = <[i := d']> (invoices (ledger w)) → credits b = credits (ledger w) →
  dFor d' = dFor d → dTotal d' = dTotal d → (dStatus d' = statusDraft ↔ dNumber d' = []) →
  (refunding = false → settled_once d → settled_once d') →
  inv (set_ledger b w) ∧ rely_refunds w (set_ledger b w).
Proof.
  intros Hi Hrow Hlk Ef Ei Ec Ef' Et Hnum Hst.
  destruct (ledger_only w b Hi Ec) as [Hcr Hrf]. destruct Hi as (Hd & _ & Hp). split; [|done].
  split; [|split; [done|]].
  - destruct Hd as [HN [Hn0 Hn] Hb Hl]. split; cbn; rewrite ?Ei; [done| | |].
    + split; [rewrite lookup_insert_ne; [done|congruence]|].
      intros j x [[<- <-]|[_ Hj]]%lookup_insert_Some; [done|by apply (Hn j)].
    + intros j x [[<- <-]|[_ Hj]]%lookup_insert_Some Hx; [|by apply Hb].
      destruct Hrow as (r' & Hr' & E1 & E2). exists r'. split; [done|]. by rewrite E1, Ef', Ef.
    + intros r' Hr' Hn'. destruct (Hl r' Hr' Hn') as (x & Hx & E').
      destruct (decide (i = InvoiceRef r')) as [->|].
      * exists d'. rewrite lookup_insert_eq. split; [done|]. rewrite Ef'. congruence.
      * exists x. by rewrite lookup_insert_ne.
  - intros Hf. destruct (Hp Hf) as [Hs Hpr Hk]. split; cbn; rewrite Ei.
    + intros j x [[<- <-]|[_ Hj]]%lookup_insert_Some; [by apply Hst, (Hs i)|by apply (Hs j)].
    + intros j x r' [[<- <-]|[_ Hj]]%lookup_insert_Some Hr' E'; [|by apply (Hpr j)].
      rewrite Et. apply (Hpr i); [done..|]. congruence.
    + intros j x [[<- <-]|[_ Hj]]%lookup_insert_Some; [|by apply (Hk j)]. rewrite Ef'. by apply (Hk i).
Qed.

(** The rows after an invoice is recorded, and before. *)
Lemma set_invoice_from id ref now t (x' : Receipt) : x' ∈ SetReceiptInvoice id ref now t →
  ∃ x : Receipt, x ∈ t ∧ facts x' = facts x ∧ InvoiceRef x' = if bool_decide (rID x = id) then ref else InvoiceRef x.
Proof.
  intros (x & -> & Hx)%list_elem_of_fmap. exists x. split; [done|]. unfold has_rid. by case_bool_decide.
Qed.

Lemma set_invoice_to id ref now t (x : Receipt) : x ∈ t →
  ∃ x' : Receipt, x' ∈ SetReceiptInvoice id ref now t ∧ facts x' = facts x ∧
    InvoiceRef x' = if bool_decide (rID x = id) then ref else InvoiceRef x.
Proof.
  intros Hx. eexists. split; [by apply list_elem_of_fmap_2|]. unfold has_rid. cbn. by case_bool_decide.
Qed.

Lemma set_invoice_ids id ref now t : receipt_ids (SetReceiptInvoice id ref now t) = receipt_ids t.
Proof.
  unfold receipt_ids, SetReceiptInvoice. cbn. rewrite <- list_fmap_compose. apply list_fmap_ext.
  intros i x _. cbn. by destruct (has_rid id x).
Qed.

#[local] Arguments SetReceiptInvoice : simpl never.

Lemma record_documents w r i now : documents_ok w → row r [] w → seen r i w →
  documents_ok (set_receipts (SetReceiptInvoice (rID r) (iID i) now (receipts w)) w).
Proof.
  intros Hd Hrow (Hne & d & Hlk & Ef & _). pose proof Hd as [HN [Hn0 Hn] Hb Hl]. split; cbn.
  - by rewrite set_invoice_ids.
  - done.
  - intros j x Hj Hx. destruct (Hb j x Hj Hx) as (r1 & Hr1 & E1 & E2).
    destruct (set_invoice_to (rID r) (iID i) now _ _ Hr1) as (r2 & Hr2 & E3 & E4). exists r2.
    split; [done|]. rewrite E3. split; [done|]. rewrite E4. case_bool_decide as Eid; [|done]. exfalso.
    destruct (row_unique w r [] r1 Hd Hrow Hr1 Eid) as [_ E]. rewrite <- E2, E in Hj. congruence.
  - intros r2 Hr2 Hn2. destruct (set_invoice_from _ _ _ _ _ Hr2) as (r1 & Hr1 & E3 & E4).
    rewrite E3, E4 in *. case_bool_decide as Eid; [|by apply Hl]. exists d. by rewrite Eid.
Qed.

(** Recording a new draft on a receipt that has none. *)
Lemma record_ok w r i now : inv w → row r [] w → seen r i w →
  let w' := set_receipts (SetReceiptInvoice (rID r) (iID i) now (receipts w)) w in
  inv w' ∧ rely_refunds w w' ∧ row r (iID i) w'.
Proof.
  intros (Hd & Hc & Hp) Hrow Hs w'. pose proof Hs as (Hne & _).
  assert (Hkeep : ∀ x : Receipt, x ∈ receipts w → ∃ x' : Receipt, x' ∈ receipts w' ∧ facts x' = facts x ∧
      (InvoiceRef x ≠ [] → InvoiceRef x' ≠ [])).
  { intros x Hx. destruct (set_invoice_to (rID r) (iID i) now _ _ Hx) as (x' & Hx' & E1 & E2).
    exists x'. split; [done|]. split; [done|]. rewrite E2. by case_bool_decide. }
  split; [|split].
  - split; [by apply record_documents|]. split.
    + destruct Hc as [H1 H2 H3 H4 H5 H6 H7 H8]. split; try done.
      intros j d Hj. destruct (H6 j d Hj) as (f & x & Hf & Ef & Hx & Ex & Hr).
      destruct (Hkeep x Hx) as (x' & Hx' & E1 & E2). exists f, x'. rewrite E1. auto 10.
    + intros Hf. destruct (Hp Hf) as [H1 H2 H3]. split; cbn; [done| |by rewrite set_invoice_ids].
      intros j d x' Hj Hx' E. destruct (set_invoice_from _ _ _ _ _ Hx') as (x & Hx & E1 & _).
      rewrite E1 in *. by apply (H2 j).
  - split; try done. intros f Hf. by exists f.
  - destruct Hrow as (x & Hx & E1 & E2). destruct (set_invoice_to (rID r) (iID i) now _ _ Hx) as (x' & Hx' & E3 & E4).
    exists x'. split; [done|]. split; [congruence|]. rewrite E4. case_bool_decide as E; [done|]. by rewrite E1 in E.
Qed.

(** Rows of other receipts are not affected. *)
Lemma others_record l w r ref now : rID r ∉ receipt_ids l → others l w →
  others l (set_receipts (SetReceiptInvoice (rID r) ref now (receipts w)) w).
Proof.
  intros Hn Ho x Hx. destruct (Ho x Hx) as (x1 & H1 & E1 & E2).
  destruct (set_invoice_to (rID r) ref now _ _ H1) as (x2 & H2 & E3 & E4).
  exists x2. split; [done|]. split; [congruence|]. rewrite E4. case_bool_decide as E; [|done].
  destruct Hn. rewrite <- E, E1. by apply (list_elem_of_fmap_2 (λ r : Receipt, rID r)).
Qed.

(** ** The client *)

#[local] Hint Resolve row_stable others_stable seen_stable and_stable : core.

(** The receipt being issued, the invoice recorded on it, and the receipts to come. *)
Definition at_row (l : list Receipt) (r : Receipt) (ref : bytes) (w : world) : Prop := others l w ∧ row r ref w.
Definition at_invoice (l : list Receipt) (r : Receipt) (i : invoice) (w : world) : Prop :=
  at_row l r (iID i) w ∧ seen r i w.

Lemma at_row_stable l r ref : stable (at_row l r ref).
Proof. by apply and_stable. Qed.

Lemma at_invoice_stable l r i : stable (at_invoice l r i).
Proof. apply and_stable; [apply at_row_stable|auto]. Qed.

#[local] Hint Resolve at_row_stable at_invoice_stable : core.

(** What the client leaves behind: on success the invoice is on the row. *)
Definition left (l : list Receipt) (r : Receipt) (x : result error invoice) (w : world) : Prop :=
  match x with Ok i => at_invoice l r i w | Err _ => others l w end.

Lemma sent_settled n d : n ≠ [] → settled_once d → dPayments d = [] ∨ dStatus d ≠ statusDraft →
  (dStatus d = statusDraft ↔ dNumber d = []) → settled_once (send n d).
Proof.
  intros Hn Hs Hd Hnum. unfold send. case_match eqn:E; [|done]. apply Z.eqb_eq in E.
  unfold settled_once in *. rewrite bool_decide_true in Hs by tauto. cbn. rewrite bool_decide_false by done.
  left. by rewrite Hs.
Qed.

Lemma send_ok w r i : inv w → row r (iID i) w → seen r i w →
  let b := send_invoice (ledger w) (iID i) in
  inv (set_ledger b w) ∧ rely_refunds w (set_ledger b w) ∧
  ∃ d, invoices b !! iID i = Some d ∧ dNumber d ≠ [] ∧ seen r (view (iID i) d) (set_ledger b w).
Proof.
  intros Hi Hrow (Hne & d & Hlk & Ef & _). destruct (send_invoice_doc _ _ _ Hlk) as (n & Hn & _ & Ei & Ec).
  pose proof Hi as ([HN [Hn0 Hnum] Hb Hl] & Hc & Hp). specialize (Hnum _ _ Hlk).
  assert (Hsend : dFor (send n d) = dFor d ∧ dTotal (send n d) = dTotal d ∧ dNumber (send n d) ≠ [] ∧ dStatus (send n d) ≠ statusDraft).
  { unfold send. destruct (dStatus d =? statusDraft) eqn:E; [done|]. apply Z.eqb_neq in E. tauto. }
  destruct Hsend as (S1 & S2 & S3 & S4). intros b. subst b.
  destruct (change_ok w (send_invoice (ledger w) (iID i)) r (iID i) d (send n d)) as [H1 H2]; try done.
  { intros Hf Hs. apply sent_settled; try done. unfold settled_once in Hs. case_bool_decide; tauto. }
  split; [done|]. split; [done|]. exists (send n d). rewrite Ei, lookup_insert_eq.
  split; [done|]. split; [done|]. split; [done|]. exists (send n d). cbn. rewrite Ei, lookup_insert_eq, S1. done.
Qed.

Lemma markSent_safe l r i w : inv w → at_invoice l r i w →
  safe (markSent (iID i)) (λ x w, left l r x w ∧ match x with Ok i => iStatusID i ≠ statusDraft | _ => True end) w.
Proof.
  intros Hi Hw. apply safe_bind. eapply safe_mono;
    [|apply (safe_reply refunding KReceipts (CMarkSent (iID i)) (at_invoice l r i) (others l)
        (λ got w, ∃ i', got = [i'] ∧ at_invoice l r i' w ∧ (iNumber i' ≠ [] → iStatusID i' ≠ statusDraft)) false
        (λ _ w, set_ledger (send_invoice (ledger w) (iID i)) w)
        (λ w, Ok (option_list (view (iID i) <$> invoices (send_invoice (ledger w) (iID i)) !! iID i)))); auto].
  - intros [got|e] w' Hi'; [|done]. intros (i' & -> & Hw' & Hn). case_bool_decide; (split; [done|]); [|by auto].
    by destruct Hw' as [[? _] _].
  - by intros w' [[? _] _].
  - intros _ w' Hi' [[Ho Hr] Hs]. destruct (send_ok w' r i Hi' Hr Hs) as (H1 & H2 & d & Hd & Hn & H3).
    split; [done|]. split; [done|]. split; [done|]. intros got [= <-]. rewrite Hd. cbn. eexists.
    split; [done|]. split; [done|]. cbn. destruct H1 as ([_ [_ Hnum] _ _] & _). specialize (Hnum _ _ Hd). tauto.
Qed.

Lemma pay_ok w r i : inv w → row r (iID i) w → seen r i w → iStatusID i ≠ statusDraft → 0 < iBalance i →
  let b := pay_invoice (ledger w) (iID i) (rAmountCents r) in
  inv (set_ledger b w) ∧ rely_refunds w (set_ledger b w).
Proof.
  intros Hi Hrow (Hne & d & Hlk & Ef & Hv) Hst Hbal.
  destruct (pay_invoice_doc _ _ (rAmountCents r) _ Hlk) as (p & _ & Ei & Ec).
  pose proof Hi as ([HN [Hn0 Hnum] Hb Hl] & Hc & Hp). specialize (Hnum _ _ Hlk).
  eapply (change_ok w _ r (iID i) d (pay p (rAmountCents r) d)); try done.
  intros Hf Hs. rewrite (Hv Hf) in Hst, Hbal. cbn in Hst, Hbal. destruct (Hp Hf) as [_ Hpr _].
  destruct Hrow as (r' & Hr' & E1 & _). specialize (Hpr _ _ r' Hlk Hr'). rewrite E1 in Hpr. specialize (Hpr (eq_sym Ef)).
  unfold settled_once in *. cbn. rewrite bool_decide_false in Hs |- * by tauto.
  destruct Hs as [[Hs1 Hs2]|(q & Hs1 & Hs2)]; [|lia]. right. exists p. rewrite Hs1, Hs2, Hpr. split; [done|lia].
Qed.

Lemma ensureCustomer_tame c req : always (λ X c, plain c = true) (ensureCustomer c req).
Proof. unfold ensureCustomer, findCustomer. walk. Qed.

Lemma recorded l r i w now : inv w → at_row l r [] w → seen r i w → rID r ∉ receipt_ids l →
  let w' := set_receipts (SetReceiptInvoice (rID r) (iID i) now (receipts w)) w in
  inv w' ∧ rely_refunds w w' ∧ at_invoice l r i w'.
Proof.
  intros Hi [Ho Hr] Hs Hn w'. destruct (record_ok w r i now Hi Hr Hs) as (H1 & H2 & H3).
  split; [done|]. split; [done|]. split; [split; [by apply others_record|done]|done].
Qed.

Section Issue.
Context (j : Receipts.ReceiptJob) (r : Receipt) (l : list Receipt).
Context (Hl : rID r ∉ receipt_ids l).

Notation c := (Receipts.issuer j).
Notation req := (Receipts.request j r).

Lemma create_safe w : inv w → at_row l r [] w → safe (create c req) (left l r) w.
Proof using Hl.
  intros Hi Hw. apply safe_try. eapply safe_mono; [|apply (safe_tame refunding KReceipts _ (at_row l r [])); auto using ensureCustomer_tame].
  clear w Hi Hw. intros [cl|e] w Hi Hw; [|apply Hw]. apply safe_try.
  set (ln := MkLine _ _ _ _ _ _ _).
  eapply safe_mono;
    [|apply (safe_reply refunding KReceipts (CCreateInvoice (rID r) ln) (at_row l r []) (others l)
        (λ i w, at_row l r [] w ∧ seen r i w) false
        (λ _ w, set_ledger (fst (create_invoice (ledger w) (rID r) ln)) w)
        (λ w, Ok (view (snd (create_invoice (ledger w) (rID r) ln)) (draft (rID r) ln)))); auto].
  2: by intros ? [? _].
  2: { intros _ w' Hi' [Ho Hr]. destruct (create_invoice _ _ _) as [b i] eqn:E.
       destruct (create_ok w' b i r [] ln) as (H1 & H2 & H3); try done.
       split; [done|]. split; [done|]. split; [done|]. by intros y [= <-]. }
  clear w Hi Hw. intros [i|e] w Hi Hw; [|done]. destruct Hw as [Hw Hs].
  rewrite bool_decide_false by apply Hs. apply safe_bind. eapply safe_mono;
    [|apply (safe_reply refunding KReceipts (CSetReceiptInvoice (rID r) (iID i)) (λ w, at_row l r [] w ∧ seen r i w) (others l)
        (λ _ w, at_invoice l r i w) true
        (λ now w, set_receipts (SetReceiptInvoice (rID r) (iID i) now (receipts w)) w) (λ _, Ok tt)); auto].
  - by intros [[]|e] w' Hi'.
  - by intros w' [[? _] _].
  - intros now w' Hi' [Hr' Hs']. destruct (recorded l r i w' now) as (H1 & H2 & H3); try done.
    split; [done|]. split; [done|]. split; [apply H3|done].
Qed.

Lemma resume_safe w : inv w → at_row l r (InvoiceRef r) w → safe (resumeOrCreate c req) (left l r) w.
Proof using Hl.
  intros Hi Hw. unfold resumeOrCreate. change (ExistingInvoiceID req) with (InvoiceRef r). case_bool_decide as E0; [rewrite E0 in Hw; by apply create_safe|].
  apply safe_bind. eapply safe_mono;
    [|apply (safe_plain refunding KReceipts (CGetInvoice (InvoiceRef r)) (at_row l r (InvoiceRef r))
        (λ x w, match x with Ok i => iID i = InvoiceRef r ∧ seen r i w | Err e => api_status e ≠ Some 404 end)); auto].
  - intros [i|e] w' Hi' [Hw' Hx].
    + split; [done|]. destruct Hx as [E Hs]. split; [by rewrite E|done].
    + rewrite bool_decide_false by done. split; [done|]. apply Hw'.
  - intros w1 w2 x ([_ _ _ Hlk] & _) [_ (r' & Hr' & E1 & E2)] (f & now & id & Hf & E).
    rewrite <- E2 in E0. destruct (Hlk r' Hr' E0) as (d & Hd & Ed). rewrite E2 in Hd, E0. cbn in E. rewrite Hd in E.
    apply reply_inv in E as [[-> ->]|[_ (e & -> & He & _)]]; [|done|done]. split; [done|]. split; [done|].
    exists d. split; [done|]. split; [by rewrite Ed, E1|done].
Qed.

Lemma record_payment_safe i w : inv w → at_invoice l r i w → iStatusID i ≠ statusDraft →
  safe (if 0 <? iBalance i then recordPayment (iClientID i) (iID i) req else Ret (Ok tt))
    (λ x w, match x with Ok _ => at_row l r (iID i) w | Err _ => others l w end) w.
Proof.
  intros Hi Hw Hst. destruct (0 <? iBalance i) eqn:Hb; [apply Z.ltb_lt in Hb|split; [done|]; apply Hw].
  unfold recordPayment. cbn [Receipts.request qAmountCents].
  apply (safe_reply refunding KReceipts (CRecordPayment _ (iID i) (rAmountCents r) _ _ _) (at_invoice l r i) (others l)
    (λ _ w, at_row l r (iID i) w) false
    (λ _ w, set_ledger (pay_invoice (ledger w) (iID i) (rAmountCents r)) w) (λ _, Ok tt)); auto.
  - by intros w' [[? _] _].
  - intros _ w' Hi' [[Ho Hr] Hs]. destruct (pay_ok w' r i) as (H1 & H2); try done.
Qed.

Lemma issue_receipt_safe w : inv w → at_row l r (InvoiceRef r) w →
  safe (IssueReceipt c req) (λ x w, match x with Ok res => at_row l r (InvoiceID res) w | Err _ => others l w end) w.
Proof using Hl.
  intros Hi Hw. assert (∀ e : error, safe (Ret (Err e)) (λ x w, match x with Ok res => at_row l r (InvoiceID res) w | Err _ => others l w end) w).
  { intros e. split; [done|]. apply Hw. }
  unfold IssueReceipt. repeat case_match; try done.
  apply safe_try. eapply safe_mono; [|by apply resume_safe]. clear w Hi Hw H0. intros [i|e] w Hi Hw; [|done].
  apply safe_try.
  assert (Hsent : safe (if iStatusID i =? statusDraft then markSent (iID i) else Ret (Ok i))
    (λ x w, left l r x w ∧ match x with Ok i => iStatusID i ≠ statusDraft | _ => True end) w).
  { destruct (iStatusID i =? statusDraft) eqn:E; [by apply markSent_safe|]. apply Z.eqb_neq in E. by split. }
  eapply safe_mono; [|exact Hsent]. clear w Hi Hw i Hsent. intros [i|e] w Hi [Hw Hst]; [|done].
  apply safe_try.
  eapply safe_mono; [|by apply (record_payment_safe i w)]. clear w Hi Hw Hst. by intros [[]|e] w Hi Hw.
Qed.

Lemma mark_issued_safe res w at_ : inv w → at_row l r (InvoiceID res) w →
  safe (perform (CMarkReceiptIssued (rID r) (ResultNumber res) (InvoiceID res) at_)) (λ _ w, others l w) w.
Proof.
  intros Hi Hw. eapply safe_mono; [|apply (safe_reply refunding KReceipts (CMarkReceiptIssued _ _ _ _) (at_row l r (InvoiceID res)) (others l)
    (λ _ w, others l w) true
    (λ now w, set_receipts (MarkReceiptIssued (rID r) (ResultNumber res) (InvoiceID res) at_ now (receipts w)) w)
    (λ _, Ok tt)); auto].
  - by intros [[]|e].
  - by intros w' [? _].
  - intros now w' Hi' [Ho Hr].
    assert (Hp : plain_step w' (set_receipts (MarkReceiptIssued (rID r) (ResultNumber res) (InvoiceID res) at_ now (receipts w')) w')).
    { apply plain_receipts, touched_here. intros x Hx Hid%bool_decide_eq_true. split; [done|]. cbn. symmetry.
      apply (row_unique w' r _ x); [apply Hi'|done..]. }
    destruct (plain_step_ok refunding _ _ Hi' Hp) as (H1 & H2 & H3). split; [done|]. split; [done|].
    assert (others l (set_receipts (MarkReceiptIssued (rID r) (ResultNumber res) (InvoiceID res) at_ now (receipts w')) w'))
      by by eapply others_stable.
    by split.
Qed.

Lemma issue_safe w : inv w → at_row l r (InvoiceRef r) w → safe (Receipts.issue j r) (λ _ w, others l w) w.
Proof using Hl.
  intros Hi Hw. unfold Receipts.issue.
  assert (Hblock : ∀ e, safe (Receipts.block r e) (λ _ w, others l w) w).
  { intros e. apply safe_tame; [by unfold Receipts.block; walk|auto|done|apply Hw]. }
  case_bool_decide; [done|]. case_match; [done|]. clear Hblock.
  apply safe_bind. eapply safe_mono; [|by apply issue_receipt_safe]. clear w Hi Hw. intros [res|e] w Hi Hw.
  - apply safe_bind. eapply safe_mono; [|apply (safe_tame refunding KReceipts (perform CNow) (at_row l r (InvoiceID res))); auto; by walk].
    clear w Hi Hw. intros now w Hi Hw. apply safe_bind. eapply safe_mono; [|by apply mark_issued_safe].
    clear w Hi Hw. intros m w Hi Hw. apply safe_tame; [|auto..]. pose proof audit_tame. pose proof mail_tame.
    unfold Receipts.notifyDonor. walk.
  - apply safe_tame; [|auto..]. unfold Receipts.failed, Receipts.block. walk.
Qed.

Lemma drain_one_safe now w : inv w → at_row l r (InvoiceRef r) w → safe (Receipts.drain_one j now r) (λ _ w, others l w) w.
Proof using Hl.
  intros Hi Hw. apply safe_bind. eapply safe_mono; [|apply (safe_tame refunding KReceipts (perform _) (at_row l r (InvoiceRef r))); auto; by walk].
  clear w Hi Hw. intros [[]|e] w Hi Hw; [|split; [done|]; apply Hw..].
  apply safe_bind. eapply safe_mono; [|by apply issue_safe]. clear w Hi Hw. intros [] w Hi Hw.
  apply safe_tame; [by walk|auto..].
Qed.

End Issue.

Lemma drain_safe j now l w : inv w → others l w → NoDup (receipt_ids l) → safe (Receipts.drain j now l) (λ _ _, True) w.
Proof.
  revert w. induction l as [|r l IH]; intros w Hi Hw HN; [done|]. apply NoDup_cons in HN as [Hn HN].
  apply safe_bind. eapply safe_mono; [|apply (safe_tame refunding KReceipts (perform CCtxErr) (at_row l r (InvoiceRef r))); auto].
  - clear w Hi Hw. intros [] w Hi Hw; [done|]. apply safe_bind. eapply safe_mono; [|by apply drain_one_safe].
    intros [] w' Hi' Hw'. by apply IH.
  - by walk.
  - split; [intros x Hx; apply Hw; by right|apply Hw; by left].
Qed.

Lemma once_safe j w : inv w → safe (Receipts.Once j) (λ _ _, True) w.
Proof.
  intros Hi. apply safe_bind. eapply safe_mono; [|apply (safe_tame refunding KReceipts (perform CNow) (λ _, True)); by walk].
  clear w Hi. intros now w Hi _. apply safe_bind. eapply safe_mono;
    [|apply (safe_plain refunding KReceipts (CListDueReceipts now 25) (λ _, True)
        (λ x w, match x with Ok due => others due w ∧ NoDup (receipt_ids due) | Err _ => True end)); try done].
  - clear w Hi. intros [due|e] w Hi [_ Hd]; [|done]. apply drain_safe; [done|apply Hd..].
  - intros w1 w2 x ([HN _ _ _] & _) _ (f & t & id & Hf & E).
    apply reply_inv in E as [[-> ->]|[_ (e & -> & _)]]; [|done|done].
    destruct (listed (λ r : Receipt, rID r) receipt_order (due_receipt (fmtTime now)) 25 _ HN) as [H1 H2].
    split; [|exact H2]. intros r Hr. exists r. split; [by apply H1|done].
Qed.

End Drainer.

End PayReceipts.
