(* ===== verification/PayRefunds.v ===== *)
(** The refund drainer of [internal/refunds/refunds.go] keeps the invariant of [Payments],
    whatever fails and whatever runs beside it. *)
From S2P Require Import Prelude Text SqlTable Books BillStore Effects BillWorld InvoiceNinja Receipts Refunds Payments.

Module PayRefunds.
Import SqlTable Books BillStore Effects BillWorld InvoiceNinja Payments.

Section Drainer.
Context `{BillingSystem}.

Notation inv := (inv true).
Notation stable := (stable true KRefunds).
Notation safe := (safe act inv (rely true KRefunds) (guar true KRefunds)).

(** ** Assertions *)

(** The row of a refund that is not closed, with the credit note recorded on it. *)
Definition row (f : Refund) (ref : bytes) (w : world) : Prop :=
  ∃ f' : Refund, f' ∈ refunds w ∧ refund_facts f' = refund_facts f ∧ CreditRef f' = ref ∧ fStatus f' ≠ Issued.

Definition others (l : list Refund) (w : world) : Prop := ∀ f, f ∈ l → row f (CreditRef f) w.

(** Its payment has an invoice. *)
Definition invoiced (f : Refund) (w : world) : Prop :=
  ∃ r : Receipt, r ∈ receipts w ∧ rID r = fReceiptID f ∧ InvoiceRef r ≠ [].

Definition seen (f : Refund) (i : bytes) (w : world) : Prop :=
  i ≠ [] ∧ ∃ d, credits (ledger w) !! i = Some d ∧ dFor d = fID f.

(** The refund is closed and its period still stands. *)
Definition closed (f : Refund) (w : world) : Prop :=
  fID f ∉ shortened w ∧ ∃ f' : Refund, f' ∈ refunds w ∧ fID f' = fID f ∧ fStatus f' = Issued.

Lemma refund_row_stable f ref : stable (row f ref).
Proof.
  intros w w' [R _ _ _] (f1 & Hf & E1 & E2 & E3). destruct (R f1 Hf) as (f2 & Hf2 & E4 & E5 & E6).
  exists f2. split; [done|]. split; [congruence|]. split; [congruence|]. tauto.
Qed.

Lemma refund_others_stable l : stable (others l).
Proof. intros w w' Hr Ho f Hl. eapply refund_row_stable; eauto. Qed.

Lemma refund_invoiced_stable f : stable (invoiced f).
Proof.
  intros w w' [_ _ _ P] (r & Hr & E1 & E2). destruct (P r Hr) as (r' & Hr' & E3 & E4). exists r'.
  split; [done|]. split; [by rewrite E3|auto].
Qed.

Lemma refund_seen_stable f i : stable (seen f i).
Proof. intros w w' [_ C _ _] (Hn & d & Hd & E). split; [done|]. exists d. by rewrite C. Qed.

Lemma closed_stable f : stable (closed f).
Proof.
  intros w w' [R _ T _] [Hn (f' & Hf & E1 & E2)]. split; [by rewrite T|].
  destruct (R f' Hf) as (f2 & Hf2 & E3 & _ & E4). exists f2. split; [done|]. split; [by rewrite E3|tauto].
Qed.

#[local] Hint Resolve refund_row_stable refund_others_stable refund_invoiced_stable refund_seen_stable closed_stable and_stable : core.

Lemma refund_row_unique w f ref (x : Refund) : credits_ok w → row f ref w → x ∈ refunds w → fID x = fID f →
  refund_facts x = refund_facts f ∧ CreditRef x = ref ∧ fStatus x ≠ Issued.
Proof.
  intros Hc (f' & Hf & E1 & E2) Hx E. enough (x = f') as -> by done.
  apply (same_row (λ f : Refund, fID f) (refunds w)); [apply Hc|done..|]. by rewrite E1.
Qed.

(** ** Rows updated by id *)

Lemma updated_from id g t (x' : Refund) : x' ∈ fst (sql_update (has_fid id) g t) →
  ∃ x : Refund, x ∈ t ∧ x' = if bool_decide (fID x = id) then g x else x.
Proof. intros (x & -> & Hx)%list_elem_of_fmap. by exists x. Qed.

Lemma updated_to id g t (x : Refund) : x ∈ t →
  (if bool_decide (fID x = id) then g x else x) ∈ fst (sql_update (has_fid id) g t).
Proof. intros Hx. by apply (list_elem_of_fmap_2 (λ x, if has_fid id x then g x else x)). Qed.

Section Update.
Context (w : world) (f : Refund) (ref ref' : bytes) (g : Refund → Refund).
Hypothesis Hi : inv w.
Hypothesis Hrow : row f ref w.
Hypothesis Hfacts : ∀ x, refund_facts (g x) = refund_facts x.
Hypothesis Hset : ∀ x : Refund, x ∈ refunds w → fID x = fID f → CreditRef (g x) = ref'.
Hypothesis Hcase : ref' = ref ∨ ref = [] ∧ seen f ref' w.

Notation w' := (set_refunds (fst (sql_update (has_fid (fID f)) g (refunds w))) w).
Notation upd x := (if bool_decide (fID x = fID f) then g x else x).

Lemma upd_facts (x : Refund) : refund_facts (upd x) = refund_facts x.
Proof using Hfacts. by case_bool_decide. Qed.

(** It has not been taken back yet. *)
Lemma open_untaken : fID f ∉ shortened w.
Proof using Hi Hrow.
  intros Hin. destruct Hi as (_ & Hc & _). destruct (taken_issued w Hc _ Hin) as (x & Hx & E1 & E2).
  by destruct (refund_row_unique w f ref x Hc Hrow Hx E1) as (_ & _ & ?).
Qed.

Lemma update_ids (h : RefundFacts → bytes) :
  (λ x : Refund, h x) <$> fst (sql_update (has_fid (fID f)) g (refunds w)) = (λ x : Refund, h x) <$> refunds w.
Proof using Hfacts.
  cbn. rewrite <- list_fmap_compose. apply list_fmap_ext. intros i x _. cbn. unfold has_fid. by rewrite upd_facts.
Qed.

Lemma update_credits : credits_ok w'.
Proof using Hi Hrow Hfacts Hset Hcase.
  pose proof Hi as (_ & Hc & _). pose proof Hc as [H1 H2 [H3a H3] H4 H5 H6 H7 H8]. split; cbn [refunds receipts ledger shortened set_refunds].
  - unfold refund_ids. by rewrite (update_ids fID).
  - unfold refunded_ids. by rewrite (update_ids fReceiptID).
  - done.
  - intros i d Hd Hn. destruct (H4 i d Hd Hn) as (x & Hx & E1 & E2). exists (upd x).
    split; [by apply updated_to|]. rewrite upd_facts. split; [done|]. case_bool_decide as E; [|done].
    rewrite Hset by done. destruct (refund_row_unique w f ref x Hc Hrow Hx E) as (_ & E3 & _).
    destruct Hcase as [->|[E4 _]]; [congruence|]. rewrite <- E2, E3, E4 in Hd. congruence.
  - intros x' Hx' Hn. destruct (updated_from _ _ _ _ Hx') as (x & Hx & ->). rewrite upd_facts.
    case_bool_decide as E; [|by apply H5]. rewrite Hset in * by done.
    destruct (refund_row_unique w f ref x Hc Hrow Hx E) as (_ & E3 & _).
    destruct Hcase as [E4|[_ (_ & d & Hd & E4)]].
    + subst ref'. rewrite <- E3 in Hn |- *. by apply H5.
    + exists d. by rewrite E.
  - intros i d Hd. destruct (H6 i d Hd) as (x & r & Hx & E1 & Hr & E2 & E3). exists (upd x), r.
    split; [by apply updated_to|]. by rewrite upd_facts.
  - done.
  - intros id Hid. destruct (H8 id Hid) as (x & Hx & E1 & E2). exists (upd x). split; [by apply updated_to|].
    rewrite upd_facts. split; [done|]. case_bool_decide as E; [|done]. exfalso. apply open_untaken. by rewrite <- E, E1.
Qed.

Lemma update_ok : inv w' ∧ guar true KRefunds w w' ∧ fID f ∉ shortened w ∧
  (∀ l, fID f ∉ refund_ids l → others l w → others l w') ∧
  ∃ x : Refund, x ∈ refunds w ∧ g x ∈ refunds w' ∧ refund_facts x = refund_facts f ∧ fStatus x ≠ Issued.
Proof using Hi Hrow Hfacts Hset Hcase.
  split; [|split; [|split; [apply open_untaken|split]]].
  - split; [destruct Hi as ([] & _); by split|]. split; [apply update_credits|done].
  - split; [|done|done]. intros r Hr. by exists r.
  - intros l Hl Ho x Hx. destruct (Ho x Hx) as (y & Hy & E1 & E2 & E3). exists y. split; [|done].
    assert (upd y = y) as <-; [|by apply updated_to]. rewrite bool_decide_false; [done|]. intros E. apply Hl.
    rewrite <- E, E1. by apply (list_elem_of_fmap_2 (λ x : Refund, fID x)).
  - destruct Hrow as (x & Hx & E1 & E2 & E3). exists x. split; [done|]. split; [|done].
    assert (upd x = g x) as <-; [|by apply updated_to]. by rewrite bool_decide_true by by rewrite E1.
Qed.

End Update.

(** ** The calls on documents *)

(** The same documents, with the same numbers. *)
Definition same_docs (m m' : gmap bytes doc) : Prop := ∀ i, doc_id <$> m' !! i = doc_id <$> m !! i.

Lemma same_docs_lookup m m' i d' : same_docs m m' → m' !! i = Some d' → 
  ∃ d, m !! i = Some d ∧ dFor d' = dFor d ∧ dNumber d' = dNumber d ∧ dStatus d' = dStatus d.
Proof.
  intros Hs Hd. specialize (Hs i). rewrite Hd in Hs. destruct (m !! i) as [d|]; [|done]. exists d.
  by injection Hs as -> -> ->.
Qed.

Lemma same_docs_sym m m' : same_docs m m' → same_docs m' m.
Proof. intros Hs i. by rewrite Hs. Qed.

Lemma same_docs_insert m i d d' : m !! i = Some d → doc_id d' = doc_id d → same_docs m (<[i := d']> m).
Proof. intros Hd E j. destruct (decide (i = j)) as [<-|]; [by rewrite lookup_insert_eq, Hd; cbn; rewrite E|by rewrite lookup_insert_ne]. Qed.

Lemma same_numbered m m' : same_docs m m' → numbered_ok m → numbered_ok m'.
Proof.
  intros Hs [H0 Hn]. split; [specialize (Hs []); rewrite H0 in Hs; by destruct (m' !! [])|].
  intros i d' Hd'. destruct (same_docs_lookup _ _ _ _ Hs Hd') as (d & Hd & _ & -> & ->). by apply (Hn i).
Qed.

Lemma seen_same f i w b : same_docs (credits (ledger w)) (credits b) → seen f i w → seen f i (set_ledger b w).
Proof.
  intros Hs (Hn & d & Hd & E). split; [done|].
  destruct (same_docs_lookup _ _ _ _ (same_docs_sym _ _ Hs) Hd) as (d' & Hd' & E' & _).
  exists d'. split; [done|congruence].
Qed.

Lemma books_same w b : inv w → same_docs (invoices (ledger w)) (invoices b) →
  same_docs (credits (ledger w)) (credits b) → inv (set_ledger b w) ∧ guar true KRefunds w (set_ledger b w).
Proof.
  intros ([D1 D2 D3 D4] & [C1 C2 C3 C4 C5 C6 C7 C8] & _) Si Sc. split; [split; [|split; [|done]]|].
  - split; cbn; [done|by eapply same_numbered| |].
    + intros i d' Hd' Hn. destruct (same_docs_lookup _ _ _ _ Si Hd') as (d & Hd & E1 & E2 & _). rewrite E1, E2 in *. by eapply D3.
    + intros r Hr Hn. destruct (D4 r Hr Hn) as (d & Hd & E).
      destruct (same_docs_lookup _ _ _ _ (same_docs_sym _ _ Si) Hd) as (d' & Hd' & E1 & _).
      exists d'. split; [done|congruence].
  - split; cbn; [done|done|by eapply same_numbered| | | |done|done].
    + intros i d' Hd' Hn. destruct (same_docs_lookup _ _ _ _ Sc Hd') as (d & Hd & E1 & E2 & _). rewrite E1, E2 in *. by eapply C4.
    + intros f Hf Hn. destruct (C5 f Hf Hn) as (d & Hd & E).
      destruct (same_docs_lookup _ _ _ _ (same_docs_sym _ _ Sc) Hd) as (d' & Hd' & E1 & _).
      exists d'. split; [done|congruence].
    + intros i d' Hd'. destruct (same_docs_lookup _ _ _ _ Sc Hd') as (d & Hd & E1 & _). rewrite E1. by eapply C6.
  - split; cbn; [by intros r Hr; exists r|done|done].
Qed.

Lemma refund_payment_ok w p i a b : inv w → refund_payment (ledger w) p i a = Some b →
  inv (set_ledger b w) ∧ guar true KRefunds w (set_ledger b w) ∧ credits b = credits (ledger w).
Proof.
  intros Hi E. destruct (invoices (ledger w) !! i) as [d|] eqn:Hd; [|rewrite refund_payment_none in E by done; done].
  pose proof (refund_payment_doc (ledger w) p i a d Hd) as Hr.
  destruct (refundable p a d); [|congruence]. destruct Hr as (b' & E' & Ei & Ec). assert (b' = b) as -> by congruence.
  destruct (books_same w b Hi) as [H1 H2]; [rewrite Ei; by eapply same_docs_insert|by rewrite Ec|done].
Qed.

Lemma apply_credit_ok w i c a : inv w → let b := apply_credit (ledger w) i c a in
  inv (set_ledger b w) ∧ guar true KRefunds w (set_ledger b w) ∧ same_docs (credits (ledger w)) (credits b).
Proof.
  intros Hi b. destruct (invoices (ledger w) !! i) as [di|] eqn:Hdi.
  2: { destruct (apply_credit_none (ledger w) i c a) as [Ei Ec]; [by left|]. subst b.
       destruct (books_same w (apply_credit (ledger w) i c a) Hi) as [H1 H2]; [by rewrite Ei|by rewrite Ec|by rewrite Ec]. }
  destruct (credits (ledger w) !! c) as [dc|] eqn:Hdc.
  2: { destruct (apply_credit_none (ledger w) i c a) as [Ei Ec]; [by right|]. subst b.
       destruct (books_same w (apply_credit (ledger w) i c a) Hi) as [H1 H2]; [by rewrite Ei|by rewrite Ec|by rewrite Ec]. }
  destruct (apply_credit_docs (ledger w) i c a di dc Hdi Hdc) as (p & _ & Ei & Ec).
  assert (Sc : same_docs (credits (ledger w)) (credits b)) by (unfold b; rewrite Ec; by eapply same_docs_insert).
  destruct (books_same w b Hi) as [H1 H2]; [unfold b; rewrite Ei; by eapply same_docs_insert|done|done].
Qed.

(** A change of the credit notes alone. *)
Lemma credits_only w b : inv w → invoices b = invoices (ledger w) →
  documents_ok (set_ledger b w) ∧ guar true KRefunds w (set_ledger b w).
Proof.
  intros ([D1 D2 D3 D4] & _) Ei. split; split; cbn; rewrite ?Ei; try done. intros r Hr. by exists r.
Qed.

Lemma create_credit_ok w b i f ref l : inv w → row f ref w → invoiced f w →
  create_credit (ledger w) (fID f) l = (b, i) →
  inv (set_ledger b w) ∧ guar true KRefunds w (set_ledger b w) ∧ seen f i (set_ledger b w).
Proof.
  intros Hi Hrow (r & Hr & Er & Hn') E. pose proof E as (Hne & Hnew & Ec & Ei)%create_credit_doc.
  destruct (credits_only w b Hi Ei) as [Hd Hg]. destruct Hi as (_ & [C1 C2 [C3 C3'] C4 C5 C6 C7 C8] & _).
  split; [|split; [done|]].
  2: { split; [done|]. exists (draft (fID f) l). cbn. by rewrite Ec, lookup_insert_eq. }
  split; [done|]. split; [|done]. split; cbn; rewrite ?Ec; [done|done| | | | |done|done].
  - split; [by rewrite lookup_insert_ne|]. intros j d [[<- <-]|[_ Hj]]%lookup_insert_Some; [done|by apply (C3' j)].
  - intros j d [[<- <-]|[_ Hj]]%lookup_insert_Some Hnum; [done|by apply C4].
  - intros x Hx Hn. destruct (C5 x Hx Hn) as (d & Hd' & E'). exists d. split; [|done].
    rewrite lookup_insert_ne; [done|]. intros ->. congruence.
  - intros j d [[<- <-]|[_ Hj]]%lookup_insert_Some; [|by apply (C6 j)].
    destruct Hrow as (x & Hx & E1 & _). exists x, r. cbn. by rewrite E1.
Qed.

Lemma send_credit_ok w f i : inv w → row f i w → seen f i w →
  let b := send_credit (ledger w) i in
  inv (set_ledger b w) ∧ guar true KRefunds w (set_ledger b w) ∧
  ∃ d, credits b !! i = Some d ∧ seen f i (set_ledger b w).
Proof.
  intros Hi Hrow (Hne & d & Hlk & Ef). destruct (send_credit_doc _ _ _ Hlk) as (n & Hn & _ & Ec & Ei). intros b.
  destruct (credits_only w b Hi Ei) as [Hd Hg]. pose proof Hi as (_ & [C1 C2 [C3 C3'] C4 C5 C6 C7 C8] & _).
  assert (Hnum : dStatus (send n d) = statusDraft ↔ dNumber (send n d) = []).
  { unfold send. destruct (dStatus d =? statusDraft); [done|]. by apply (C3' i). }
  assert (Ef' : dFor (send n d) = dFor d) by by unfold send; case_match.
  subst b. split; [|split; [done|]].
  2: { exists (send n d). rewrite Ec, lookup_insert_eq. split; [done|]. split; [done|]. exists (send n d). cbn.
       rewrite Ec, lookup_insert_eq. split; [done|congruence]. }
  split; [done|]. split; [|done]. split; cbn; rewrite ?Ec; [done|done| | | | |done|done].
  - split; [rewrite lookup_insert_ne; [done|congruence]|].
    intros j x [[<- <-]|[_ Hj]]%lookup_insert_Some; [done|by apply (C3' j)].
  - intros j x [[<- <-]|[_ Hj]]%lookup_insert_Some Hx; [|by apply C4].
    destruct Hrow as (f' & Hf' & E1 & E2 & _). exists f'. split; [done|]. by rewrite E1, Ef', Ef.
  - intros x Hx Hn'. destruct (C5 x Hx Hn') as (y & Hy & E'). destruct (decide (i = CreditRef x)) as [->|].
    + exists (send n d). rewrite lookup_insert_eq. split; [done|]. congruence.
    + exists y. by rewrite lookup_insert_ne.
  - intros j x [[<- <-]|[_ Hj]]%lookup_insert_Some; [|by apply (C6 j)]. rewrite Ef'. by apply (C6 i).
Qed.

(** ** The client *)

Section Issue.
Context (j : Refunds.Job) (f : Refund) (l : list Refund).
Context (Hl : fID f ∉ refund_ids l).

Definition at_row (ref : bytes) (w : world) : Prop := others l w ∧ row f ref w.
Definition at_credit (ref : bytes) (w : world) : Prop := at_row ref w ∧ seen f ref w.

(** The refund is still open. *)
Definition still_open (w : world) : Prop := others l w ∧ ∃ ref, row f ref w.

Lemma at_refund_stable ref : stable (at_row ref).
Proof. by apply and_stable; [apply refund_others_stable|apply refund_row_stable]. Qed.

Lemma at_credit_stable ref : stable (at_credit ref).
Proof. apply and_stable; [apply at_refund_stable|auto]. Qed.

Lemma open_stable : stable still_open.
Proof. intros w w' Hr [Ho (ref & Hrow)]. split; [by eapply refund_others_stable|]. exists ref. by eapply refund_row_stable. Qed.

Lemma at_open ref w : at_row ref w → still_open w.
Proof. intros [Ho Hrow]. split; [done|by exists ref]. Qed.

#[local] Hint Resolve at_refund_stable at_credit_stable open_stable at_open : core.

Definition credit_left (x : result error invoice) (w : world) : Prop :=
  match x with Ok i => at_credit (iID i) w | Err _ => still_open w end.

Lemma set_credit_safe i w : inv w → at_row [] w → seen f i w →
  safe (perform (CSetRefundCredit (fID f) i)) (λ x w, match x with Ok _ => at_credit i w | Err _ => still_open w end) w.
Proof using Hl.
  intros Hi Hw Hs. apply (safe_reply true KRefunds (CSetRefundCredit _ _) (λ w, at_row [] w ∧ seen f i w) still_open
    (λ _, at_credit i) true (λ now w, set_refunds (SetRefundCredit (fID f) i now (refunds w)) w) (λ _, Ok tt)); auto.
  - intros w' [? _]. eauto.
  - intros now w' Hi' [[Ho Hr] Hs'].
    destruct (update_ok w' f [] i (λ r, MkRefund (refund_facts r) (fStatus r) (fAttempts r) (fLastError r) (fNextAttemptAt r)
            (CreditNumber r) i (fIssuedAt r) (fmtTime now) (fLeasedUntil r))) as (H1 & H2 & _ & H3 & x & Hx & Hgx & E1 & E2);
      [done|done|done|done|by right|].
    assert (at_credit i (set_refunds (SetRefundCredit (fID f) i now (refunds w')) w')) as Hat.
    { split; [|done]. split; [by apply H3|]. eexists. split; [exact Hgx|]. by cbn. }
    split; [done|]. split; [done|]. split; [apply (at_open i), Hat|done].
Qed.

Lemma create_credit_safe c req inv0 w :
  nFor req = fID f → OnCreditCreated req = (λ i, perform (CSetRefundCredit (fID f) i)) →
  inv w → at_row [] w → invoiced f w → safe (createCredit c req inv0) credit_left w.
Proof using Hl.
  intros Ef Eon Hi Hw Hp. apply safe_try. rewrite Ef. set (ln := MkLine _ _ _ _ _ _ _).
  eapply safe_mono;
    [|apply (safe_reply true KRefunds (CCreateCredit (fID f) ln) (λ w, at_row [] w ∧ invoiced f w) still_open
        (λ i w, at_row [] w ∧ seen f (iID i) w) false
        (λ _ w, set_ledger (fst (create_credit (ledger w) (fID f) ln)) w)
        (λ w, Ok (view (snd (create_credit (ledger w) (fID f) ln)) (draft (fID f) ln)))); auto].
  2: intros w' [? _]; eauto.
  2: { intros _ w' Hi' [[Ho Hr] Hp']. destruct (create_credit _ _ _) as [b i] eqn:E.
       destruct (create_credit_ok w' b i f [] ln) as (H1 & H2 & H3); try done.
       split; [done|]. split; [done|]. split; [by apply (at_open [])|]. by intros y [= <-]. }
  clear w Hi Hw Hp. intros [i|e] w Hi Hw; [|done]. destruct Hw as [Hw Hs].
  rewrite bool_decide_false by apply Hs. rewrite Eon. apply safe_bind. eapply safe_mono; [|by apply set_credit_safe].
  by intros [[]|e] w' Hi'.
Qed.

Lemma resume_credit_safe c req inv0 w :
  nFor req = fID f → OnCreditCreated req = (λ i, perform (CSetRefundCredit (fID f) i)) → ExistingCreditID req = CreditRef f →
  inv w → at_row (CreditRef f) w → invoiced f w → safe (resumeOrCreateCredit c req inv0) credit_left w.
Proof using Hl.
  intros Ef Eon Eex Hi Hw Hp. unfold resumeOrCreateCredit. rewrite Eex.
  case_bool_decide as E0; [rewrite E0 in Hw; by apply create_credit_safe|].
  apply safe_bind. eapply safe_mono;
    [|apply (safe_plain true KRefunds (CGetCredit (CreditRef f)) (at_row (CreditRef f))
        (λ x w, match x with Ok i => iID i = CreditRef f ∧ seen f (iID i) w | Err e => api_status e ≠ Some 404 end)); auto].
  - intros [i|e] w' Hi' [Hw' Hx].
    + split; [done|]. destruct Hx as [E Hs]. split; [by rewrite E|done].
    + rewrite bool_decide_false by done. split; [done|]. by eapply at_open.
  - intros w1 w2 x (_ & [_ _ _ _ Hlk _ _ _] & _) [_ (f' & Hf' & E1 & E2 & _)] (flt & now & id & Hf & E).
    rewrite <- E2 in E0. destruct (Hlk f' Hf' E0) as (d & Hd & Ed). rewrite E2 in Hd, E0. cbn in E. rewrite Hd in E.
    apply reply_inv in E as [[-> ->]|[_ (e & -> & He & _)]]; [|done|done]. split; [done|]. split; [done|].
    exists d. split; [done|]. by rewrite Ed, E1.
Qed.

Lemma markCreditSent_safe i w : inv w → at_credit i w → safe (markCreditSent i) credit_left w.
Proof.
  intros Hi Hw. apply safe_try. eapply safe_mono;
    [|apply (safe_reply true KRefunds (CMarkCreditSent i) (at_credit i) still_open
        (λ got w, ∃ i', got = [i'] ∧ at_credit (iID i') w) false
        (λ _ w, set_ledger (send_credit (ledger w) i) w)
        (λ w, Ok (option_list (view i <$> credits (send_credit (ledger w) i) !! i)))); auto].
  - intros [got|e] w' Hi'; [|done]. intros (i' & -> & Hw'). case_bool_decide; (split; [done|]); [|done].
    by eapply at_open, Hw'.
  - intros w' [? _]. eauto.
  - intros _ w' Hi' [[Ho Hr] Hs]. destruct (send_credit_ok w' f i Hi' Hr Hs) as (H1 & H2 & d & Hd & H3).
    split; [done|]. split; [done|]. split; [by apply (at_open i)|]. intros got [= <-]. rewrite Hd. cbn. by eexists.
Qed.

Lemma invoice_read_tame id : always (λ X c, plain c = true) (invoiceWithPayments id).
Proof. unfold invoiceWithPayments. walk. Qed.

(** A refund of a payment or a draw on the credit note keeps what is asserted. *)
Lemma refund_payment_safe p i cents day ref w : inv w → at_credit ref w →
  safe (perform (CRefundPayment p i cents day)) (λ _ w, at_credit ref w) w.
Proof.
  intros Hi Hw. eapply safe_mono;
    [|apply (safe_reply true KRefunds (CRefundPayment p i cents day) (at_credit ref) (at_credit ref) (λ _, at_credit ref) false
        (λ _ w, match refund_payment (ledger w) p i cents with Some b => set_ledger b w | None => w end)
        (λ w, match refund_payment (ledger w) p i cents with Some _ => Ok tt | None => Err (ErrAPI 422) end)); auto].
  - by intros [[]|e].
  - intros flt now id w'. cbn. by destruct (refund_payment _ _ _ _).
  - intros _ w' Hi' Hw'. cbn. destruct (refund_payment (ledger w') p i cents) as [b|] eqn:E; [|split; [done|]; split; [apply (guar_refl true KRefunds)|by split]].
    destruct (refund_payment_ok w' p i cents b Hi' E) as (H1 & H2 & Ec). split; [done|]. split; [done|].
    assert (at_credit ref (set_ledger b w')); [|done]. destruct Hw' as [? Hs]. split; [done|]. apply seen_same; [by rewrite Ec|done].
Qed.

Lemma apply_credit_safe c i k cents day ref w : inv w → at_credit ref w →
  safe (perform (CApplyCredit c i k cents day)) (λ _ w, at_credit ref w) w.
Proof.
  intros Hi Hw. eapply safe_mono;
    [|apply (safe_reply true KRefunds (CApplyCredit c i k cents day) (at_credit ref) (at_credit ref) (λ _, at_credit ref) false
        (λ _ w, set_ledger (apply_credit (ledger w) i k cents) w) (λ _, Ok tt)); auto].
  - by intros [[]|e].
  - intros _ w' Hi' Hw'. destruct (apply_credit_ok w' i k cents Hi') as (H1 & H2 & Ec). split; [done|]. split; [done|].
    assert (at_credit ref (set_ledger (apply_credit (ledger w') i k cents) w')); [|done].
    destruct Hw' as [? Hs]. split; [done|]. by apply seen_same.
Qed.

Definition credit_done (x : result error CreditResult) (w : world) : Prop :=
  match x with Ok res => at_row (CreditID res) w | Err _ => still_open w end.

Lemma credit_rest_safe req inv0 credit w : inv w → at_credit (iID credit) w →
  safe (try! inv := (match refundablePayment inv0 (nAmountCents req) with
                     | Some p => try! _ := refundPayment (pID p) req (iID inv0) in invoiceWithPayments (nInvoiceID req)
                     | None => Ret (Ok inv0)
                     end) in
        try! _ := (if (0 <? iBalance inv) && (0 <? iBalance credit) then applyCredit inv credit req else Ret (Ok tt)) in
        Ret (Ok (MkCreditResult (iID credit) (iNumber credit) (iNumber inv)))) credit_done w.
Proof.
  intros Hi Hw. set (p := match refundablePayment _ _ with Some _ => _ | None => _ end).
  assert (Hp : safe p (λ _ w, at_credit (iID credit) w) w).
  { unfold p. destruct (refundablePayment _ _) as [q|]; [|done]. apply safe_try.
    eapply safe_mono; [|by apply refund_payment_safe]. intros [[]|e] w' Hi' Hw'; [|done].
    apply safe_tame; auto using invoice_read_tame. }
  apply safe_try. eapply safe_mono; [|exact Hp]. clear p Hp w Hi Hw. intros [inv1|e] w Hi Hw; [|by eapply at_open, Hw].
  apply safe_try. eapply safe_mono with (Q := λ _ w, at_credit (iID credit) w).
  - intros [[]|e] w' Hi' Hw'; [|by eapply at_open, Hw']. split; [done|]. apply Hw'.
  - destruct (_ && _); [|done]. unfold applyCredit. cbn zeta. destruct (_ <=? 0); [done|]. by apply apply_credit_safe.
Qed.

Lemma issue_credit_safe receipt w : inv w → at_row (CreditRef f) w → invoiced f w →
  safe (IssueCreditNote (Refunds.issuer j) (Refunds.request f receipt)) credit_done w.
Proof using Hl.
  intros Hi Hw Hp. assert (Hret : ∀ e w, inv w → at_row (CreditRef f) w → safe (Ret (Err e)) credit_done w).
  { intros e w1 Hi1 Hw1. split; [done|]. by eapply at_open. }
  unfold IssueCreditNote. repeat (case_match; [by apply Hret|]). apply safe_try.
  eapply safe_mono; [|apply (safe_tame true KRefunds _ (λ w, at_row (CreditRef f) w ∧ invoiced f w));
    auto using invoice_read_tame, and_stable].
  clear w Hi Hw Hp. intros [inv0|e] w Hi [Hw Hp]; [|by eapply at_open]. case_match; [by apply Hret|].
  apply safe_try. eapply safe_mono; [|by apply resume_credit_safe]. clear w Hi Hw Hp. intros [credit|e] w Hi Hw; [|done].
  apply safe_try. eapply safe_mono with (Q := credit_left).
  - clear w Hi Hw. intros [credit'|e] w Hi Hw; [|done]. by apply credit_rest_safe.
  - destruct (_ =? _); [by apply markCreditSent_safe|done].
Qed.

(** ** The drainer *)

Definition at_closed (w : world) : Prop := others l w ∧ closed f w.

Lemma at_closed_stable : stable at_closed.
Proof. apply and_stable; [apply refund_others_stable|apply closed_stable]. Qed.

#[local] Hint Resolve at_closed_stable : core.

Lemma mark_refund_safe number ref at_ w : inv w → at_row ref w →
  safe (perform (CMarkRefundIssued (fID f) number ref at_))
    (λ x w, match x with Ok _ => at_closed w | Err _ => others l w end) w.
Proof using Hl.
  intros Hi Hw. apply (safe_reply true KRefunds (CMarkRefundIssued _ _ _ _) (at_row ref) (others l) (λ _, at_closed) true
    (λ now w, set_refunds (MarkRefundIssued (fID f) number ref at_ now (refunds w)) w) (λ _, Ok tt)); auto.
  - by intros w' [? _].
  - intros now w' Hi' [Ho Hr].
    destruct (update_ok w' f ref ref (λ r, MkRefund (refund_facts r) Issued (fAttempts r) NoError (fNextAttemptAt r)
            number ref (fmtTime at_) (fmtTime now) (fLeasedUntil r))) as (H1 & H2 & H3 & H4 & x & Hx & Hgx & E1 & E2);
      [done|done|done|done|by left|].
    split; [done|]. split; [done|]. split; [by apply H4|]. intros _ _. split; [by apply H4|]. split; [done|].
    eexists. split; [exact Hgx|]. by cbn; rewrite E1.
Qed.

Lemma block_refund_safe reason w : inv w → still_open w → safe (Refunds.block f reason) (λ _ w, others l w) w.
Proof using Hl.
  intros Hi Hw. apply safe_bind. eapply safe_mono;
    [|apply (safe_reply true KRefunds (CBlockRefund (fID f) reason) still_open (others l) (λ _, others l) true
      (λ now w, set_refunds (BlockRefund (fID f) reason now (refunds w)) w) (λ _, Ok tt)); auto].
  - by intros [[]|e].
  - by intros w' [? _].
  - intros now w' Hi' [Ho (ref & Hr)].
    destruct (update_ok w' f ref ref (λ r, MkRefund (refund_facts r) Blocked (fAttempts r) reason (fNextAttemptAt r)
            (CreditNumber r) (CreditRef r) (fIssuedAt r) (fmtTime now) (fLeasedUntil r))) as (H1 & H2 & H3 & H4 & _);
      [done|done|done| |by left|].
    { intros x Hx E. by apply (refund_row_unique w' f ref x); [apply Hi'|..]. }
    split; [done|]. split; [done|]. split; [by apply H4|]. intros _ _. by apply H4.
Qed.

(** The period of a closed refund is taken back, for the first time. *)
Lemma shorten_safe t w : inv w → at_closed w → safe (perform (CUpdateTenant t (fID f))) (λ _ w, others l w) w.
Proof.
  intros Hi Hw. destruct (decide (fID f = [])) as [E0|E0].
  { apply safe_tame; [|apply refund_others_stable|done|apply Hw]. rewrite E0. by walk. }
  eapply safe_mono;
    [|apply (safe_reply true KRefunds (CUpdateTenant t (fID f)) at_closed (others l) (λ _, others l) true
      (λ now w, match UpdateTenant t now (tenants w) with
                | Ok ts => set_shortened (shortened w ++ [fID f]) (set_tenants ts w) | Err _ => w end)
      (λ w, if CheckBillingCountry t then Ok tt else Err ErrBillingCountry)); auto].
  - by intros [[]|e].
  - intros flt now id w'. cbn. unfold UpdateTenant. destruct (CheckBillingCountry t); [|done]. by rewrite bool_decide_false.
  - by intros w' [? _].
  - intros now w' Hi' [Ho [Hn (x & Hx & E1 & E2)]]. unfold UpdateTenant. destruct (CheckBillingCountry t).
    2: { split; [done|]. split; [apply (guar_refl true KRefunds)|]. by split. }
    set (w2 := set_shortened _ _). pose proof Hi' as ([D1 D2 D3 D4] & [C1 C2 C3 C4 C5 C6 C7 C8] & _).
    split; [|split; [|done]].
    + split; [by split|]. split; [|done]. split; try done.
      * apply NoDup_app. split; [done|]. split; [|apply NoDup_singleton]. by intros y Hy ->%list_elem_of_singleton.
      * intros id [Hid| ->%list_elem_of_singleton]%elem_of_app; [by apply C8|by exists x].
    + split; [|done|done]. intros r Hr. by exists r.
Qed.

Lemma reverse_safe receipt w : inv w → at_closed w → safe (Refunds.reversePlan j f receipt) (λ _ w, others l w) w.
Proof.
  intros Hi Hw. assert (∀ w, inv w → at_closed w → safe (Ret None) (λ (_ : option Z) w, others l w) w) as Hret.
  { intros w' Hi' Hw'. split; [done|]. apply Hw'. }
  unfold Refunds.reversePlan. case_bool_decide; [by apply Hret|]. case_match; [by apply Hret|].
  apply safe_bind. eapply safe_mono; [|apply (safe_tame true KRefunds (perform _) at_closed); auto; by walk].
  clear w Hi Hw. intros [t|e] w Hi Hw; [|by apply Hret]. case_match; [|by apply Hret].
  apply safe_bind. eapply safe_mono; [|by apply shorten_safe]. clear w Hi Hw. intros u w Hi Hw.
  apply safe_tame; [|auto..]. pose proof audit_tame. unfold Refunds.audit. walk.
Qed.

Lemma retry_tame e : always (λ X c, plain c = true) (Refunds.retry f e).
Proof. unfold Refunds.retry. walk. Qed.

Lemma others_retry e w : inv w → others l w → safe (Refunds.retry f e) (λ _ w, others l w) w.
Proof. intros. apply safe_tame; auto using retry_tame. Qed.

#[local] Hint Resolve others_retry : core.

Lemma close_safe receipt w : inv w → at_row [] w → safe (Refunds.close_rest j f receipt) (λ _ w, others l w) w.
Proof using Hl.
  intros Hi Hw. apply safe_bind. eapply safe_mono; [|apply (safe_tame true KRefunds (perform CNow) (at_row [])); auto; by walk].
  clear w Hi Hw. intros now w Hi Hw. apply safe_bind. eapply safe_mono; [|by apply mark_refund_safe].
  clear w Hi Hw. intros [[]|e] w Hi Hw; [|by auto]. apply safe_bind. eapply safe_mono; [|by apply reverse_safe].
  clear w Hi Hw. intros ends w Hi Hw. apply safe_tame; [|auto..]. pose proof audit_tame. pose proof mail_tame.
  unfold Refunds.audit. walk.
Qed.

Lemma credited_safe receipt res w : inv w → at_row (CreditID res) w → safe (Refunds.credited j f receipt res) (λ _ w, others l w) w.
Proof using Hl.
  intros Hi Hw. apply safe_bind. eapply safe_mono; [|apply (safe_tame true KRefunds (perform CNow) (at_row (CreditID res))); auto; by walk].
  clear w Hi Hw. intros now w Hi Hw. apply safe_bind. eapply safe_mono; [|by apply mark_refund_safe].
  clear w Hi Hw. intros [[]|e] w Hi Hw; [|done]. apply safe_bind. eapply safe_mono; [|by apply reverse_safe].
  clear w Hi Hw. intros ends w Hi Hw. apply safe_tame; [|auto..]. pose proof audit_tame. pose proof mail_tame.
  unfold Refunds.audit, Refunds.notify. walk.
Qed.

(** Reading the payment tells whether it has an invoice; without one there is no credit note. *)
Lemma read_receipt_safe w : inv w → at_row (CreditRef f) w →
  safe (perform (CGetReceipt (fReceiptID f)))
    (λ x w, at_row (CreditRef f) w ∧
       match x with Ok r => if bool_decide (InvoiceRef r = []) then row f [] w else invoiced f w | Err _ => True end) w.
Proof.
  intros Hi Hw. apply (safe_plain true KRefunds (CGetReceipt _) (at_row (CreditRef f))
    (λ x w, match x with Ok r => if bool_decide (InvoiceRef r = []) then row f [] w else invoiced f w | Err _ => True end)); auto.
  clear w Hi Hw. intros w w2 x ([D1 _ _ _] & Hc & _) [_ Hrow] (flt & now & id & Hf & E). cbn in E.
  destruct (GetReceipt (fReceiptID f) (receipts w)) as [r|] eqn:Hg;
    apply reply_inv in E as [[-> ->]|[_ (e & -> & _)]]; try done.
  apply head_filter in Hg as [Hr Er%bool_decide_eq_true]. cbn [found]. case_bool_decide as E0; [|by exists r].
  destruct (decide (CreditRef f = [])) as [E1|E1]; [by rewrite <- E1|]. exfalso.
  destruct Hrow as (f' & Hf' & E2 & E3 & E4). rewrite <- E3 in E1.
  destruct (credit_linked w Hc f' Hf' E1) as (d & Hd & Ed), (credit_paid w Hc _ _ Hd) as (f2 & r2 & Hf2 & E5 & Hr2 & E6 & E7).
  assert (f2 = f') as -> by (apply (same_row (λ f : Refund, fID f) (refunds w)); [apply Hc|done..|congruence]).
  assert (r2 = r) as -> by (apply (same_row (λ r : Receipt, rID r) (receipts w)); [done..|]; rewrite E6, E2; done). done.
Qed.

Lemma close_without_safe w : inv w → at_row (CreditRef f) w → safe (Refunds.closeWithoutDocument j f) (λ _ w, others l w) w.
Proof using Hl.
  intros Hi Hw. apply safe_bind. eapply safe_mono; [|by apply read_receipt_safe].
  clear w Hi Hw. intros [r|e] w Hi [[Ho Hrow] Hx]; [|by auto]. case_bool_decide; cbn [negb]; [|by auto].
  apply safe_bind. eapply safe_mono; [|apply (safe_tame true KRefunds _ (at_row [])); [by case_bool_decide; walk|auto|done|done]].
  clear w Hi Ho Hrow Hx. intros [[]|e] w Hi Hw; [by apply close_safe|]. apply others_retry; [done|apply Hw].
Qed.

Lemma refund_issue_safe w : inv w → at_row (CreditRef f) w → safe (Refunds.issue j f) (λ _ w, others l w) w.
Proof using Hl.
  intros Hi Hw. apply safe_bind. eapply safe_mono; [|by apply read_receipt_safe].
  clear w Hi Hw. intros [r|e] w Hi [Hw Hx].
  - case_bool_decide; [by apply close_without_safe|]. apply safe_bind. eapply safe_mono; [|by apply issue_credit_safe].
    clear w Hi Hw Hx. intros [res|e] w Hi Hw; [by apply credited_safe|]. unfold Refunds.failed.
    destruct (_ || _); [by apply block_refund_safe|]. destruct (Receipts.final_api e); [by apply block_refund_safe|]. apply others_retry; [done|apply Hw].
  - case_match; [apply block_refund_safe; eauto|]. apply others_retry; [done|apply Hw].
Qed.

Lemma refund_drain_one_safe now w : inv w → at_row (CreditRef f) w → safe (Refunds.drain_one j now f) (λ _ w, others l w) w.
Proof using Hl.
  intros Hi Hw. apply safe_bind. eapply safe_mono; [|apply (safe_tame true KRefunds (perform _) (at_row (CreditRef f))); auto; by walk].
  clear w Hi Hw. intros [[]|e] w Hi Hw; [|split; [done|]; apply Hw..].
  apply safe_bind. eapply safe_mono; [|by apply refund_issue_safe]. clear w Hi Hw. intros [] w Hi Hw.
  apply safe_tame; [by walk|auto..].
Qed.

End Issue.

Lemma refund_drain_safe j now l w : inv w → others l w → NoDup (refund_ids l) → safe (Refunds.drain j now l) (λ _ _, True) w.
Proof.
  revert w. induction l as [|f l IH]; intros w Hi Hw HN; [done|]. apply NoDup_cons in HN as [Hn HN].
  apply safe_bind. eapply safe_mono; [|apply (safe_tame true KRefunds (perform CCtxErr) (at_row f l (CreditRef f))); auto using at_refund_stable].
  - clear w Hi Hw. intros [] w Hi Hw; [done|]. apply safe_bind. eapply safe_mono; [|by apply refund_drain_one_safe].
    intros [] w' Hi' Hw'. by apply IH.
  - by walk.
  - split; [intros x Hx; apply Hw; by right|apply Hw; by left].
Qed.

Lemma refund_once_safe j w : inv w → safe (Refunds.Once j) (λ _ _, True) w.
Proof.
  intros Hi. apply safe_bind. eapply safe_mono; [|apply (safe_tame true KRefunds (perform CNow) (λ _, True)); by walk].
  clear w Hi. intros now w Hi _. apply safe_bind. eapply safe_mono;
    [|apply (safe_plain true KRefunds (CListDueRefunds now 25) (λ _, True)
        (λ x w, match x with Ok due => others due w ∧ NoDup (refund_ids due) | Err _ => True end)); try done].
  - clear w Hi. intros [due|e] w Hi [_ Hd]; [|done]. apply refund_drain_safe; [done|apply Hd..].
  - intros w1 w2 x (_ & [HN _ _ _ _ _ _ _] & _) _ (flt & t & id & Hf & E).
    apply reply_inv in E as [[-> ->]|[_ (e & -> & _)]]; [|done|done].
    destruct (listed (λ f : Refund, fID f) refund_order (due_refund (fmtTime now)) 25 _ HN) as [H1 H2].
    split; [|exact H2]. intros f Hfd. destruct (H1 f Hfd) as [Hin Hp]. exists f. split; [done|]. split; [done|]. split; [done|].
    unfold due_refund in Hp. apply andb_true_iff in Hp as [[Hp%bool_decide_eq_true _]%andb_true_iff _]. by rewrite Hp.
Qed.

End Drainer.

End PayRefunds.
