(* ===== verification/PayLive.v ===== *)
(** Issuing a receipt when nothing fails: it completes from every state an earlier attempt can
    have left behind. *)
From S2P Require Import Prelude Text Vat SqlTable Books BillStore Effects BillWorld InvoiceNinja Receipts Payments PayReceipts.

Module PayLive.
Import SqlTable Books BillStore Effects BillWorld InvoiceNinja Payments PayReceipts.

Section Live.
Context `{BillingSystem} (now : Z) (id : bytes).

Notation inv := (inv false).
Notation alone p w := (run [] now id p w).

Lemma alone_try {A B} (p : Effects.prog call (result error A)) (k : A → Effects.prog call (result error B)) w w' a :
  alone p w = (w', Ok a) → alone (try p k) w = alone (k a) w'.
Proof. intros E. unfold try. by rewrite bill_run_bind, E. Qed.

Lemma alone_call {X} (c : call X) w : alone (perform c) w = handle NoFault now id c w.
Proof. cbn. by destruct (handle NoFault now id c w). Qed.

Lemma alone_act {X} (c : call X) w w' x : handle NoFault now id c w = (w', x) → act X c w w' x.
Proof. intros E. by exists NoFault, now, id. Qed.

(** A program that leaves the documents alone. *)
Lemma alone_tame {R} (p : Effects.prog call R) w w' r :
  always (λ X c, plain c = true) p → inv w → alone p w = (w', r) → inv w' ∧ rely_receipts false w w'.
Proof.
  revert w. induction p as [x|X c k IH]; intros w Hp Hi E; cbn in E.
  - injection E as <- _. split; [done|apply (rely_refl false KReceipts)].
  - destruct Hp as [Hc Hk]. destruct (handle NoFault now id c w) as [w1 x] eqn:E1.
    destruct (plain_step_both false KReceipts _ _ Hi (plain_act _ _ _ _ _ Hc (alone_act _ _ _ _ E1))) as (Hi1 & R1 & _).
    destruct (IH x w1 (Hk x) Hi1 E) as [Hi2 R2]. split; [done|]. by eapply (rely_trans false KReceipts).
Qed.

(** A program that only tells people leaves the outbox and the books as they are. *)
Definition quiet (X : Type) (c : call X) : Prop :=
  match c with CMail _ | CAudit _ _ | CDocumentPDF _ _ | CNow => True | _ => False end.

Lemma alone_quiet {R} (p : Effects.prog call R) w : always quiet p →
  receipts (fst (alone p w)) = receipts w ∧ ledger (fst (alone p w)) = ledger w.
Proof.
  revert w. induction p as [x|X c k IH]; intros w Hp; [done|]. destruct Hp as [Hc Hk]. cbn.
  destruct (handle NoFault now id c w) as [w1 x] eqn:E. destruct (IH x w1 (Hk x)) as [-> ->].
  destruct c; try done; cbn in E; by injection E as <- _.
Qed.

(** Receipt [r] has invoice [i], which is [d]. *)
Record on_invoice (r : Receipt) (i : bytes) (d : doc) (w : world) : Prop := {
  on_inv : inv w;
  on_row : row r i w;
  on_doc : invoices (ledger w) !! i = Some d;
  on_for : dFor d = rID r;
}.

Lemma on_seen r i d w : on_invoice r i d w → seen false r (view i d) w.
Proof.
  intros [([_ [H0 _] _ _] & _) _ Hd Ef]. split; [cbn; congruence|]. by exists d.
Qed.

Section Receipt.
Context (j : Receipts.ReceiptJob) (r : Receipt).

Notation c := (Receipts.issuer j).
Notation req := (Receipts.request j r).

Definition rate : Z := if Vat.Vat.OutsideScope (Receipts.decision r) then 0 else TaxRate c.

Lemma alone_create w w1 cl : inv w → row r [] w → alone (ensureCustomer c req) w = (w1, Ok cl) →
  ∃ w2 i d, alone (create c req) w = (w2, Ok (view i d)) ∧ on_invoice r i d w2 ∧ dTaxRate d = rate.
Proof.
  intros Hi Hr E. destruct (alone_tame _ _ _ _ (ensureCustomer_tame c req) Hi E) as [Hi1 R1].
  assert (Hr1 : row r [] w1) by by eapply row_stable.
  unfold create. rewrite (alone_try _ _ _ _ _ E). clear E Hi Hr R1 w.
  set (ln := MkLine _ _ _ _ _ _ _). destruct (create_invoice (ledger w1) (rID r) ln) as [b i] eqn:Eb.
  destruct (create_ok false w1 b i r [] ln) as (Hi2 & _ & Hs); try done.
  erewrite alone_try; [|rewrite alone_call; cbn; by rewrite Eb]. cbn [fst snd].
  pose proof Hs as (Hne & _). rewrite bool_decide_false by done.
  rewrite bill_run_bind. change (OnInvoiceCreated req) with (λ invoiceID, perform (CSetReceiptInvoice (rID r) invoiceID)).
  cbn beta. rewrite alone_call.
  destruct (record_ok false _ r _ now Hi2 Hr1 Hs) as (Hi3 & _ & Hr3).
  eexists _, i, (draft (rID r) ln). split; [reflexivity|]. split; [|done].
  split; [done|done| |done]. cbn. by apply create_invoice_doc in Eb as (_ & _ & -> & _); rewrite lookup_insert_eq.
Qed.

Lemma alone_resume w : inv w → row r (InvoiceRef r) w →
  (InvoiceRef r = [] → ∃ w1 cl, alone (ensureCustomer c req) w = (w1, Ok cl)) →
  ∃ w2 i d, alone (resumeOrCreate c req) w = (w2, Ok (view i d)) ∧ on_invoice r i d w2 ∧ (InvoiceRef r = [] → dTaxRate d = rate).
Proof.
  intros Hi Hr Hc. unfold resumeOrCreate. change (ExistingInvoiceID req) with (InvoiceRef r).
  case_bool_decide as E0.
  - destruct (Hc E0) as (w1 & cl & E). rewrite E0 in Hr. destruct (alone_create w w1 cl Hi Hr E) as (w2 & i & d & H1 & H2 & H3).
    by exists w2, i, d.
  - destruct Hr as (r' & Hr' & E1 & E2). rewrite <- E2 in E0. pose proof Hi as ([_ _ _ Hl] & _).
    destruct (Hl r' Hr' E0) as (d & Hd & Ef). rewrite E2 in *. exists w, (InvoiceRef r), d.
    split; [rewrite bill_run_bind, alone_call; cbn; by rewrite Hd|]. split; [|done]. split; [done|by exists r'|done|by rewrite Ef, E1].
Qed.

Lemma alone_sent i d w : on_invoice r i d w →
  ∃ w2 d2, alone (if iStatusID (view i d) =? statusDraft then markSent (iID (view i d)) else Ret (Ok (view i d))) w
             = (w2, Ok (view i d2)) ∧
    on_invoice r i d2 w2 ∧ dNumber d2 ≠ [] ∧ dTaxRate d2 = dTaxRate d.
Proof.
  intros Ho. pose proof Ho as [Hi Hr Hd Ef]. pose proof Hi as ([_ [_ Hn] _ _] & _). specialize (Hn i d Hd).
  change (iStatusID (view i d)) with (dStatus d). change (iID (view i d)) with i.
  destruct (dStatus d =? statusDraft) eqn:Es.
  - destruct (send_ok false w r (view i d) Hi Hr (on_seen _ _ _ _ Ho)) as (Hi2 & _ & d2 & Hd2 & Hn2 & _).
    destruct (send_invoice_doc _ _ _ Hd) as (n & Hne & _ & Ei & _). change (iID (view i d)) with i in *.
    assert (d2 = send n d) as -> by (rewrite Ei, lookup_insert_eq in Hd2; congruence).
    eexists _, (send n d). split; [|split; [split|split]].
    + unfold markSent. erewrite alone_try; [|rewrite alone_call; cbn; by rewrite Hd2]. cbn. by rewrite bool_decide_false.
    + done.
    + done.
    + done.
    + unfold send. by rewrite Es.
    + done.
    + unfold send. by rewrite Es.
  - apply Z.eqb_neq in Es. exists w, d. split; [done|]. split; [done|]. split; [tauto|done].
Qed.

Lemma alone_paid i d w : on_invoice r i d w → dNumber d ≠ [] → 0 < rAmountCents r →
  ∃ w2 d2, alone (if 0 <? iBalance (view i d) then recordPayment (iClientID (view i d)) (iID (view i d)) req else Ret (Ok tt)) w
             = (w2, Ok tt) ∧
    on_invoice r i d2 w2 ∧ dNumber d2 = dNumber d ∧ dTaxRate d2 = dTaxRate d ∧ dTotal d2 = rAmountCents r ∧
    dBalance d2 = 0 ∧ ∃ p, dPayments d2 = [MkPayment p (rAmountCents r) 0].
Proof.
  intros Ho Hn Hpos. pose proof Ho as [Hi Hr Hd Ef]. pose proof Hi as ([_ [_ Hnum] _ _] & _ & Hp).
  specialize (Hnum i d Hd). destruct (Hp eq_refl) as [P1 P2 _]. specialize (P1 i d Hd).
  assert (Et : dTotal d = rAmountCents r).
  { pose proof Hr as (r' & Hr' & E1 & _). rewrite <- E1. apply (P2 i d r' Hd Hr'). by rewrite E1. }
  unfold settled_once in P1. rewrite bool_decide_false in P1 by done.
  change (iBalance (view i d)) with (dBalance d). change (iID (view i d)) with i.
  destruct P1 as [[Ep Eb]|(p & Ep & Eb)].
  - replace (0 <? dBalance d) with true by (symmetry; apply Z.ltb_lt; lia).
    destruct (pay_ok false w r (view i d) Hi Hr (on_seen _ _ _ _ Ho)) as (Hi2 & _); [cbn; tauto|cbn; lia|].
    destruct (pay_invoice_doc _ _ (rAmountCents r) _ Hd) as (p & _ & Ei & _).
    eexists _, (pay p (rAmountCents r) d). split; [unfold recordPayment; by rewrite alone_call|].
    split; [split; [done|done|cbn; by rewrite Ei, lookup_insert_eq|done]|].
    cbn. rewrite Ep, Et, Eb. repeat split; [lia|by exists p].
  - rewrite Eb. exists w, d. split; [done|]. split; [done|]. rewrite <- Et. repeat split; [done|by exists p].
Qed.

(** The receipt is issued for the amount paid, its invoice has a number and is paid in full. *)
Definition issued (w : world) : Prop :=
  ∃ (r' : Receipt) d, r' ∈ receipts w ∧ facts r' = facts r ∧ rStatus r' = Issued ∧ InvoiceNumber r' = dNumber d ∧
    dNumber d ≠ [] ∧ invoices (ledger w) !! InvoiceRef r' = Some d ∧ dFor d = rID r ∧ dTotal d = rAmountCents r ∧
    dBalance d = 0 ∧ (∃ p, dPayments d = [MkPayment p (rAmountCents r) 0]) ∧ (InvoiceRef r = [] → dTaxRate d = rate).

Lemma alone_issue_receipt w : inv w → row r (InvoiceRef r) w → configured c = true →
  wrong_currency c (rCurrency r) = false → rEmail r ≠ [] → 0 < rAmountCents r →
  (InvoiceRef r = [] → ∃ w1 cl, alone (ensureCustomer c req) w = (w1, Ok cl)) →
  ∃ w2 i d, alone (IssueReceipt c req) w = (w2, Ok (MkResult i (dNumber d))) ∧ on_invoice r i d w2 ∧ dNumber d ≠ [] ∧
    (InvoiceRef r = [] → dTaxRate d = rate) ∧ dTotal d = rAmountCents r ∧ dBalance d = 0 ∧
    ∃ p, dPayments d = [MkPayment p (rAmountCents r) 0].
Proof.
  intros Hi Hr Hconf Hcur He Hpos Hc. unfold IssueReceipt. rewrite Hconf. cbn [negb].
  change (qCurrency req) with (rCurrency r). change (qEmail req) with (rEmail r). change (qAmountCents req) with (rAmountCents r).
  rewrite Hcur, bool_decide_false by done. replace (rAmountCents r <=? 0) with false by (symmetry; apply Z.leb_gt; lia).
  destruct (alone_resume w Hi Hr Hc) as (w1 & i & d1 & E1 & O1 & T1). rewrite (alone_try _ _ _ _ _ E1).
  destruct (alone_sent i d1 w1 O1) as (w2 & d2 & E2 & O2 & N2 & T2). rewrite (alone_try _ _ _ _ _ E2).
  destruct (alone_paid i d2 w2 O2 N2 Hpos) as (w3 & d3 & E3 & O3 & N3 & T3 & H1 & H2 & H3). rewrite (alone_try _ _ _ _ _ E3).
  exists w3, i, d3. cbn. rewrite N3. split; [done|]. split; [done|]. split; [done|]. split; [|done].
  intros E0. rewrite T3, T2. auto.
Qed.

(** From every state the system can be in, an undisturbed attempt issues the receipt: nothing an
    earlier attempt did is repeated and nothing it left out is missed. *)
Theorem issue_completes w : inv w → row r (InvoiceRef r) w →
  configured c = true → wrong_currency c (rCurrency r) = false → rEmail r ≠ [] → 0 < rAmountCents r →
  Vat.Vat.Charge (Receipts.decision r) || Vat.Vat.OutsideScope (Receipts.decision r) = true →
  (InvoiceRef r = [] → ∃ w1 cl, alone (ensureCustomer c req) w = (w1, Ok cl)) →
  issued (fst (alone (Receipts.issue j r) w)).
Proof.
  intros Hi Hr Hconf Hcur He Hpos Hv Hc. unfold Receipts.issue. rewrite bool_decide_false by done.
  rewrite <- negb_orb, Hv. cbn [negb].
  destruct (alone_issue_receipt w Hi Hr Hconf Hcur He Hpos Hc) as (w2 & i & d & E & [Hi2 Hr2 Hd2 Hf2] & Hn & Ht & H1 & H2 & H3).
  rewrite bill_run_bind, E. rewrite bill_run_bind, alone_call. cbn [handle]. rewrite bill_run_bind, alone_call. cbn [handle reply].
  set (w3 := set_receipts _ _).
  match goal with |- issued (fst (run _ _ _ ?p w3)) => destruct (alone_quiet p w3) as [E1 E2] end.
  { unfold Receipts.notifyDonor, Receipts.audit, Receipts.SendOrLog. walk. }
  destruct Hr2 as (r2 & Hr2 & F1 & F2).
  set (r3 := MkReceipt (facts r2) Issued (rAttempts r2) NoError (rNextAttemptAt r2) (dNumber d) i (PaymentRef r2)
               (fmtTime now) (fmtTime now) (rLeasedUntil r2)).
  exists r3, d. rewrite E1, E2. split; [|by repeat split].
  apply list_elem_of_fmap. exists r2. unfold has_rid. rewrite bool_decide_true by by rewrite F1. done.
Qed.

End Receipt.

End Live.

End PayLive.
