(* ===== verification/PaySystem.v ===== *)
(** The whole billing side: the theorems on every interleaving of [Payments]' programs, and
    schedules that run them. *)
From S2P Require Import Prelude Text SqlTable Books BillStore Effects BillWorld InvoiceNinja Receipts Refunds Stripe.
From S2P Require Import Payments PayPlans PayReceipts PayRefunds PayLive.

Module PaySystem.
Import SqlTable Books BillStore Effects BillWorld Payments.

Section System.
Context `{BillingSystem}.

(** The rest of the Hub, and people at work in the books: tenants, users and customers change;
    the outboxes and the documents do not. *)
Record outside (w w' : world) : Prop := {
  out_receipts : receipts w' = receipts w;
  out_refunds : refunds w' = refunds w;
  out_invoices : invoices (ledger w') = invoices (ledger w);
  out_credits : credits (ledger w') = credits (ledger w);
  out_taken : shortened w' = shortened w;
}.

(** Before the first payment. *)
Record fresh (w : world) : Prop := {
  no_receipts : receipts w = [];
  no_refunds : refunds w = [];
  no_invoices : invoices (ledger w) = ∅;
  no_credits : credits (ledger w) = ∅;
  none_taken : shortened w = [];
}.

(** [once]: whether at most one drainer of a kind runs at a time. *)
Notation pool := (Effects.pool (call := call) (W := world) (K := kind) (R := unit)).
Definition system (once refunding : bool) : pool → pool → Prop :=
  step act (λ k, once && exclusive k) (starts refunding) outside.

Definition runs (once refunding : bool) (w : world) (s : pool) : Prop := rtc (system once refunding) (MkPool w []) s.

Lemma fresh_inv refunding w : fresh w → inv refunding w.
Proof.
  intros [E1 E2 E3 E4 E5]. split; [|split; [|intros _]]; split; rewrite ?E1, ?E2, ?E3, ?E4, ?E5; try done; try apply NoDup_nil_2.
  all: try (by intros x Hx%elem_of_nil). all: by intros i d Hd%lookup_empty_Some.
Qed.

Lemma system_inv refunding w s : fresh w → runs true refunding w s → inv refunding (world_of s).
Proof.
  intros Hf Hr.
  refine (proj1 (pool_invariant act exclusive (starts refunding) outside (inv refunding) (rely refunding) (guar refunding)
    _ _ _ _ _ (MkPool w []) s _ Hr)).
  - apply rely_trans.
  - intros k p w1 Hs Hi. destruct k; [destruct Hs as [j ->]; by apply PayReceipts.once_safe| |by apply others_safe].
    destruct Hs as [-> [j ->]]. by apply PayRefunds.refund_once_safe.
  - intros k k' w1 w2 _ _ Hg Hk. destruct k, k'; try done; try (destruct Hk; done); by destruct Hg.
  - intros w1 w2 Hi [E1 E2 E3 E4 E5]. assert (plain_step w1 w2) as Hp.
    { split; try done; rewrite ?E1, ?E2; [apply touched_refl|apply touched_refunds_refl]. }
    split; [by apply (plain_step_both refunding KOther w1 w2)|]. intros k. by apply (plain_step_both refunding k w1 w2).
  - apply rely_refl.
  - split; [by apply fresh_inv|]. split; [apply Forall_nil_2|]. by intros [] j k p q Hi.
Qed.

(** ** Schedules *)

(** Which program moves, and how its call fares. *)
Record move := MkMove { who : nat; how : fault; mnow : Z; mid : bytes }.

Fixpoint play (ms : list move) (s : pool) : pool :=
  match ms with
  | [] => s
  | m :: ms =>
      match running s !! who m with
      | Some (k, Do c f) =>
          let '(w', x) := handle (how m) (mnow m) (mid m) c (world_of s) in
          play ms (MkPool w' (<[who m := (k, f x)]> (running s)))
      | _ => play ms s
      end
  end.

Lemma play_runs once refunding ms s : Forall (λ m, fault_ok (how m)) ms → rtc (system once refunding) s (play ms s).
Proof.
  revert s. induction ms as [|[n flt now id] ms IH]; intros [w l] Hf; [done|]. apply Forall_cons in Hf as [Hf1 Hf].
  cbn. destruct (l !! n) as [[k [r|X c f]]|] eqn:Hn; [by apply IH| |by apply IH].
  destruct (handle flt now id c w) as [w' x] eqn:E. eapply rtc_l; [|by apply IH].
  rewrite insert_take_drop by by eapply lookup_lt_Some. rewrite <- (take_drop_middle l n _ Hn) at 1.
  apply step_call. by exists flt, now, id.
Qed.

(** Every program may be started, and of each drainer there is one. *)
Definition launched (once refunding : bool) (l : list (kind * Effects.prog call unit)) : Prop :=
  Forall (λ t, starts refunding t.1 t.2) l ∧ (once = true → NoDup (List.filter exclusive l.*1)).

Lemma launch_runs once refunding w l : launched once refunding l → runs once refunding w (MkPool w l).
Proof.
  induction l as [|[k p] l IH] using rev_ind; intros [Hs Hx]; [apply rtc_refl|].
  apply Forall_app in Hs as [Hs [Hp _]%Forall_cons]. rewrite fmap_app, List.filter_app in Hx.
  eapply rtc_r; [apply IH; split; [done|]; intros Ho; by apply NoDup_app in Hx as [? _]|].
  apply step_start; [done|]. intros [-> Hk]%andb_true_iff Hin. specialize (Hx eq_refl). cbn in Hx. rewrite Hk in Hx.
  apply NoDup_app in Hx as (_ & Hx & _). apply (Hx k); [|by left].
  apply list_elem_of_In, List.filter_In. split; [by apply list_elem_of_In|done].
Qed.

Lemma schedule_runs once refunding w l ms : launched once refunding l → Forall (λ m, fault_ok (how m)) ms →
  runs once refunding w (play ms (MkPool w l)).
Proof. intros Hl Hm. unfold runs. etransitivity; [by apply launch_runs|by apply play_runs]. Qed.





End System.

(** ** A small Hub *)

#[local] Existing Instance reference_books.

Notation pool := (Effects.pool (call := call) (W := world) (K := kind) (R := unit)).

Definition acme : Tenant :=
  MkTenant (str "t1") (str "u1") Plans.Plans.Crew (str "active") None (Some (unix 1760000000)) None (str "NL") []
    (str "cus_1") (str "sub_1") [] (Some (unix 1750000000)) (Some (unix 1750000000)).

Definition start : world :=
  MkWorld [acme] [MkUser (str "t1") (str "u1") (str "ann@example.org") (str "Ann")] [] [] []
    (MkRefBooks ∅ ∅ []) [] [] [] [].

Definition hub : Stripe.Handler :=
  Stripe.MkHandler {[str "price_1" := Plans.Plans.Crew]} true true true true true true.

Definition paid : Stripe.Event :=
  Stripe.MkEvent (str "evt_1") 1755000000 (Stripe.InvoicePaid (Some
    (Stripe.MkInvoice (str "in_1") (str "cus_1") ∅ 1000 1000 0 (str "eur") (str "ann@example.org") (str "Ann")
       1755000000 (str "NL") [(str "price_1", [])]))).

Definition refunded_event (cents : Z) : Stripe.Event :=
  Stripe.MkEvent (str "evt_2") 1755000000 (Stripe.ChargeRefunded (Some
    (Stripe.MkCharge (str "ch_1") (str "in_1") [] cents (str "eur")))).

Definition ninja : InvoiceNinja.Client := InvoiceNinja.New (str "https://books") (str "token").
Definition receipt_job : Receipts.ReceiptJob := Receipts.MkReceiptJob ninja true true.
Definition refund_job : Refunds.Job := Refunds.MkJob ninja true true true.

Definition noon : Z := unix 1755000100 * second.
Definition go (n : nat) (who : nat) (id : bytes) : list move := replicate n (MkMove who NoFault noon id).

Definition delivery (ev : Stripe.Event) : Effects.prog call unit := _ ← Stripe.deliver hub ev; Ret tt.

Definition programs : list (kind * Effects.prog call unit) :=
  [(KOther, delivery paid); (KReceipts, Receipts.Once receipt_job);
   (KOther, delivery (refunded_event 1000)); (KRefunds, Refunds.Once refund_job)].

Definition full_run : list move :=
  go 12 0 (str "r1") ++ go 16 1 [] ++ go 10 2 (str "f1") ++ go 25 3 [].

Lemma start_fresh : fresh start.
Proof. by split. Qed.

Lemma programs_launched : launched true true programs.
Proof.
  split; [|intros _; change (NoDup [KReceipts; KRefunds]); by apply (bool_decide_unpack _)].
  repeat apply Forall_cons_2; [| | | |apply Forall_nil_2].
  - left. by exists hub, paid.
  - by exists receipt_job.
  - left. by exists hub, (refunded_event 1000).
  - split; [done|]. by exists refund_job.
Qed.

Lemma two_launched : launched true false (take 2 programs).
Proof.
  destruct programs_launched as [H1 _]. apply Forall_cons in H1 as [H1 H3]. apply Forall_cons in H3 as [H3 _].
  split; [by repeat apply Forall_cons_2; [| |apply Forall_nil_2]|]. intros _. change (NoDup [KReceipts]). apply NoDup_singleton.
Qed.

Lemma go_ok n k id : Forall (λ m, fault_ok (how m)) (go n k id).
Proof. by apply Forall_replicate. Qed.

Lemma full_run_ok : runs true true start (play full_run (MkPool start programs)).
Proof.
  apply schedule_runs; [apply programs_launched|]. unfold full_run. rewrite !Forall_app. repeat split; apply go_ok.
Qed.




(** The drainer died after it recorded its draft. *)
Definition cut_short : pool := play (go 12 0 (str "r1") ++ go 9 1 []) (MkPool start (take 2 programs)).

Definition waiting : Receipt :=
  default (MkReceipt (MkFacts [] [] [] [] [] [] [] 0 [] [] [] None None) Pending 0 NoError None [] [] [] None None None)
    (receipts (world_of cut_short) !! 0%nat).


Definition lapse_job : Receipts.LapseJob := Receipts.MkLapseJob true true true true Receipts.warn_window.

Definition renewal : Stripe.Event :=
  Stripe.MkEvent (str "evt_5") 1759900000 (Stripe.SubscriptionChanged false (Some
    (Stripe.MkSubscription (str "sub_1") (str "cus_1") (str "active") 0 ∅ [(str "price_1", 1762600000)]))).

(** A minute after the end of [acme]'s plan. *)
Definition over : Z := unix (1760000000 + 60) * second.

Lemma lapse_pass_exact_witness :
  Forall2 (PayPlans.passed over) [acme] (tenants (fst (run [] over [] (Receipts.LapseOnce lapse_job) start))) ∧
  tPlan <$> tenants (fst (run [] over [] (Receipts.LapseOnce lapse_job) start)) = [Plans.Plans.Free].
Proof.
  split; [|by vm_compute]. apply (PayPlans.lapse_pass_exact lapse_job over [] start).
  - apply NoDup_singleton.
  - apply Forall_singleton. by vm_compute.
Defined.


Lemma redelivery_changes_nothing_witness :
  let w := fst (run [] noon [] (Stripe.deliver hub renewal) start) in
  tenants w ≠ [acme] ∧ PayPlans.tables (fst (run [] noon [] (Stripe.deliver hub renewal) w)) = PayPlans.tables w.
Proof.
  split; [by vm_compute|].
  apply (PayPlans.redelivery_changes_nothing hub renewal [] noon []).
  - assert (stripe_events (fst (run [] noon [] (Stripe.deliver hub renewal) start)) = [Stripe.eID renewal]) as -> by by vm_compute.
    by left.
  - done.
  - apply Forall_nil_2.
Defined.

End PaySystem.
