(* ===== verification/PayFaults.v ===== *)
(** Runs of the billing programs that end in a state the comments of the code rule out.  Each is
    computed on the small Hub of [PaySystem]. *)
From S2P Require Import Prelude Text Plans SqlTable Books BillStore Effects BillWorld InvoiceNinja Receipts Refunds Stripe.
From S2P Require Import Payments PaySystem.

Module PayFaults.
Import SqlTable Books BillStore Effects BillWorld Payments PaySystem.

#[local] Existing Instance reference_books.

(** One program after the other; [calls] in front of a fault go through. *)
Definition after {R} (p : Effects.prog call R) (script : list (fault * Z)) (now : Z) (id : bytes) (w : world) : world :=
  fst (run script now id p w).

Definition answered (ev : Stripe.Event) (script : list (fault * Z)) (w : world) : Z :=
  snd (run script noon [] (Stripe.deliver hub ev) w).

Definition fails_at (n : nat) (f : fault) : list (fault * Z) := replicate n (NoFault, noon) ++ [(f, noon)].

Definition later : Z := noon + 10 * minute.

(** ** The drainers *)

Definition two_drainers : list (kind * Effects.prog call unit) :=
  [(KOther, delivery paid); (KReceipts, Receipts.Once receipt_job); (KReceipts, Receipts.Once receipt_job)].

(** The second drainer lists the receipt while the first works on it, and claims it afterwards. *)
Definition overtaken : pool :=
  play (go 12 0 (str "r1") ++ go 2 1 [] ++ go 2 2 [] ++ go 16 1 [] ++ go 16 2 []) (MkPool start two_drainers).

Lemma two_launched_together : launched false false two_drainers.
Proof.
  split; [|done]. repeat apply Forall_cons_2; [| | |apply Forall_nil_2].
  - left. by exists hub, paid.
  - by exists receipt_job.
  - by exists receipt_job.
Qed.

(** C37: The lease does not keep two drainers from making two numbered invoices for one payment. *)
Theorem lease_lets_two_invoices :
  runs false false start overtaken ∧
  ∃ d e, invoices (ledger (world_of overtaken)) !! str "1" = Some d ∧ invoices (ledger (world_of overtaken)) !! str "11" = Some e ∧
    dNumber d ≠ [] ∧ dNumber e ≠ [] ∧ dFor d = dFor e.
Proof.
  split.
  - apply schedule_runs; [apply two_launched_together|]. rewrite !Forall_app. repeat split; apply go_ok.
  - eexists _, _. split; [by vm_compute|]. split; [by vm_compute|]. done.
Qed.

(** ** Refunds *)

Definition partly_refunded : world :=
  after (Stripe.deliver hub (refunded_event 400)) [] noon (str "f1")
    (after (Receipts.Once receipt_job) [] noon []
      (after (Stripe.deliver hub paid) [] noon (str "r1") start)).

(** A refund of two fifths whose booking was not confirmed is booked again by the next pass. *)
Theorem partial_refund_booked_twice :
  let w := after (Refunds.Once refund_job) [] later []
             (after (Refunds.Once refund_job) (fails_at 9 (ReplyLost None)) noon [] partly_refunded) in
  (λ f : Refund, (fAmountCents f, fStatus f)) <$> refunds w = [(400, Issued)] ∧
  (λ d, pRefunded <$> dPayments d) <$> (invoices (ledger w) !! str "1") = Some [800; 0].
Proof. by vm_compute. Qed.

(** The refund drainer finds the payment without an invoice, twice; then the receipt drainer
    issues one. *)
Definition crossed : pool :=
  play (go 12 0 (str "r1") ++ go 4 1 [] ++ go 10 2 (str "f1") ++ go 6 3 [] ++ go 14 1 [] ++ go 20 3 [])
    (MkPool start programs).

(** With one drainer of each kind, a refund can be closed without a credit note while the
    payment gets a numbered invoice: the second look at the receipt does not prevent it. *)
Theorem refund_misses_invoice :
  runs true true start crossed ∧
  let w := world_of crossed in
  (λ f : Refund, (fStatus f, CreditRef f)) <$> refunds w = [(Issued, [])] ∧
  credits (ledger w) = ∅ ∧ dNumber <$> invoices (ledger w) !! str "1" = Some (str "1") ∧
  (λ r : Receipt, (rStatus r, InvoiceRef r)) <$> receipts w = [(Issued, str "1")].
Proof.
  split.
  - apply schedule_runs; [apply programs_launched|]. rewrite !Forall_app. repeat split; apply go_ok.
  - by vm_compute.
Qed.

Definition gift : Stripe.Event :=
  Stripe.MkEvent (str "evt_3") 1755000000 (Stripe.CheckoutCompleted (Some
    (Stripe.MkSession (str "cs_1") [] (str "pi_1") (str "payment") 2500 (str "eur") [] {[str "kind" := str "donation"]}
       (str "bob@example.org") (str "Bob") (str "DE")))).

Definition gift_returned : Stripe.Event :=
  Stripe.MkEvent (str "evt_4") 1755000000 (Stripe.ChargeRefunded (Some
    (Stripe.MkCharge (str "ch_2") [] (str "pi_1") 2500 (str "eur")))).

(** The invoice of a donation carries no VAT and its credit note does. *)
Theorem donation_credit_taxed :
  let w := after (Refunds.Once refund_job) [] noon []
    (after (Stripe.deliver hub gift_returned) [] noon (str "f1")
      (after (Receipts.Once receipt_job) [] noon []
        (after (Stripe.deliver hub gift) [] noon (str "r1") start))) in
  dTaxRate <$> invoices (ledger w) !! str "1" = Some 0 ∧ dTaxRate <$> credits (ledger w) !! str "1" = Some 21.
Proof. by vm_compute. Qed.

(** ** Plans *)

(** Two days before the end of [acme]'s plan. *)
Definition nearly : Z := unix (1760000000 - 2 * 86400) * second.

(** An hourly pass warns again every hour. *)
Theorem lapse_warned_hourly :
  let w := after (Receipts.LapseOnce lapse_job) [] (nearly + 60 * minute) []
             (after (Receipts.LapseOnce lapse_job) [] nearly [] start) in
  mails w = replicate 2 (MkMail (str "ann@example.org") (LapseWarning (str "Ann") Plans.Crew (unix 1760000000 * second)) None).
Proof. by vm_compute. Qed.

(** The event is recorded before the plan is granted, so what the store failed to write is lost:
    the delivery is answered with an error, and the redelivery with success and no effect. *)
Theorem failed_grant_lost :
  let w := after (Stripe.deliver hub renewal) (fails_at 2 (CallLost None)) noon [] start in
  answered renewal (fails_at 2 (CallLost None)) start = 500 ∧ tenants w = [acme] ∧
  answered renewal [] w = 200 ∧ tenants (after (Stripe.deliver hub renewal) [] noon [] w) = [acme].
Proof. by vm_compute. Qed.

(** A payment that arrives while the store cannot be read is acknowledged and forgotten. *)
Theorem unreadable_store_drops_payment :
  answered paid [(CallLost None, noon)] start = 200 ∧
  receipts (after (Stripe.deliver hub paid) [(CallLost None, noon)] noon (str "r1") start) = [].
Proof. by vm_compute. Qed.

Definition old_deleted : Stripe.Event :=
  Stripe.MkEvent (str "evt_6") 1755000000 (Stripe.SubscriptionChanged true (Some
    (Stripe.MkSubscription (str "sub_0") (str "cus_1") (str "canceled") 0 ∅ [(str "price_1", 1754000000)]))).

(** The end of an old subscription ends the plan of the one that replaced it. *)
Theorem old_subscription_ends_new :
  StripeSubscriptionID acme = str "sub_1" ∧
  tPlan <$> tenants (after (Stripe.deliver hub old_deleted) [] noon [] start) = [Plans.Free].
Proof. by vm_compute. Qed.

Definition at_over (n who : nat) : list move := replicate n (MkMove who NoFault over []).

Definition lapse_and_renewal : list (kind * Effects.prog call unit) :=
  [(KOther, Receipts.LapseOnce lapse_job); (KOther, delivery renewal)].

(** The pass reads the tenants, the renewal is granted, the pass writes back what it read. *)
Definition undone : pool :=
  play (at_over 2 0 ++ at_over 8 1 ++ at_over 8 0) (MkPool start lapse_and_renewal).

(** A renewal that arrives during a lapse pass is undone by it. *)
Theorem renewal_undone_by_lapse :
  runs true true start undone ∧ stripe_events (world_of undone) = [str "evt_5"] ∧
  tPlan <$> tenants (world_of undone) = [Plans.Free].
Proof.
  split; [|by vm_compute]. apply schedule_runs.
  - split; [|by intros _; apply NoDup_nil_2]. repeat apply Forall_cons_2; [| |apply Forall_nil_2].
    + right. left. by exists lapse_job.
    + left. by exists hub, renewal.
  - rewrite !Forall_app. repeat split; by apply Forall_replicate.
Qed.

End PayFaults.
