(* ===== verification/Topics.v ===== *)
(** The names on the message bus, [internal/mqtt/topics.go]: the builders and the parsers of
    the two topic shapes, on bytes. *)
From S2P Require Import Prelude Text Sha Hubmsg.

Module Topics.
Import Text.

(** ** Segments *)

Definition slash : Z := 47.
Definition plus : Z := 43.
Definition hash : Z := 35.
Definition percent : Z := 37.

(** [segmentEncoder], one byte at a time. *)
Definition encode_byte (b : Z) : list Z :=
  if b =? percent then str "%25" else if b =? plus then str "%2B"
  else if b =? hash then str "%23" else if b =? slash then str "%2F" else [b].

Definition EncodeSegment (id : list Z) : list Z := id ≫= encode_byte.

(** [segmentDecoder]: at each place the first code that matches, else the byte. *)
Fixpoint DecodeSegment (seg : list Z) : list Z :=
  match seg with
  | c :: ((a :: b :: rest) as tl) =>
      if c =? percent then
        if (a =? 50) && (b =? 66) then plus :: DecodeSegment rest
        else if (a =? 50) && (b =? 51) then hash :: DecodeSegment rest
        else if (a =? 50) && (b =? 70) then slash :: DecodeSegment rest
        else if (a =? 50) && (b =? 53) then percent :: DecodeSegment rest
        else c :: DecodeSegment tl
      else c :: DecodeSegment tl
  | c :: tl => c :: DecodeSegment tl
  | [] => []
  end.

(** Whether a publish to [topic] is accepted. *)
Definition CheckPublishTopic (topic : list Z) : bool := negb (existsb (λ b, (b =? plus) || (b =? hash)) topic).

(** ** Builders *)

Definition DefaultTenant : list Z := str "default".

Definition deviceSuffixHeads : list (list Z) :=
  bytes_of_string <$> ["mo"; "mt"; "position"; "sos"; "status"; "telemetry"; "config"; "sms"; "health"; "signal"]%string.

Definition reservedSecond : list (list Z) := bytes_of_string <$> ["hub"; "broadcast"; "bridge"; "relay"]%string.

Definition suffix_head (p : list Z) : bool := bool_decide (p ∈ deviceSuffixHeads).
Definition reserved (p : list Z) : bool := bool_decide (p ∈ reservedSecond).

Definition is_default (tenantID : list Z) : bool := bool_decide (tenantID = []) || bool_decide (tenantID = DefaultTenant).

Definition Namespace (tenantID : list Z) : list Z :=
  if is_default tenantID then str "meshsat" else str "meshsat/" ++ tenantID.

Definition DeviceTopic (tenantID deviceID suffix : list Z) : list Z :=
  Namespace tenantID ++ str "/" ++ EncodeSegment deviceID ++ str "/" ++ suffix.

Definition BridgeTopic (tenantID bridgeID suffix : list Z) : list Z :=
  Namespace tenantID ++ str "/bridge/" ++ EncodeSegment bridgeID ++ str "/" ++ suffix.

(** The builders of the first, single-tenant shape. *)
Definition legacy (deviceID : list Z) (suffix : string) : list Z :=
  str "meshsat/" ++ EncodeSegment deviceID ++ str "/" ++ bytes_of_string suffix.

Definition TopicMORaw (deviceID : list Z) : list Z := legacy deviceID "mo/raw".
Definition TopicMODecoded (deviceID : list Z) : list Z := legacy deviceID "mo/decoded".
Definition TopicMTSend (deviceID : list Z) : list Z := legacy deviceID "mt/send".
Definition TopicMTStatus (deviceID : list Z) : list Z := legacy deviceID "mt/status".
Definition TopicSignal (deviceID : list Z) : list Z := legacy deviceID "status/signal".
Definition TopicHealth (deviceID : list Z) : list Z := legacy deviceID "status/health".
Definition TopicPosition (deviceID : list Z) : list Z := legacy deviceID "position".
Definition TopicTelemetry (deviceID : list Z) : list Z := legacy deviceID "telemetry".
Definition TopicSOS (deviceID : list Z) : list Z := legacy deviceID "sos".
Definition TopicConfigCurrent (deviceID : list Z) : list Z := legacy deviceID "config/current".
Definition TopicConfigUpdate (deviceID : list Z) : list Z := legacy deviceID "config/update".

Definition TopicMORawFor (t d : list Z) : list Z := DeviceTopic t d (str "mo/raw").
Definition TopicMODecodedFor (t d : list Z) : list Z := DeviceTopic t d (str "mo/decoded").
Definition TopicMTSendFor (t d : list Z) : list Z := DeviceTopic t d (str "mt/send").
Definition TopicMTStatusFor (t d : list Z) : list Z := DeviceTopic t d (str "mt/status").
Definition TopicPositionFor (t d : list Z) : list Z := DeviceTopic t d (str "position").
Definition TopicSOSFor (t d : list Z) : list Z := DeviceTopic t d (str "sos").
Definition TopicConfigCurrentFor (t d : list Z) : list Z := DeviceTopic t d (str "config/current").
Definition TopicConfigUpdateFor (t d : list Z) : list Z := DeviceTopic t d (str "config/update").

Definition TopicBridgeMOAckFor (t b : list Z) : list Z := BridgeTopic t b (str "mo/ack").
Definition TopicTAKCotOutFor (t b : list Z) : list Z := BridgeTopic t b (str "tak/cot/out").
Definition TopicTAKCotInFor (t b : list Z) : list Z := BridgeTopic t b (str "tak/cot/in").
Definition TopicTAKChatStatusFor (t b : list Z) : list Z := BridgeTopic t b (str "tak/chat/status").
Definition TopicMsgInFor (t b : list Z) : list Z := BridgeTopic t b (str "msg/in").
Definition TopicMsgStatusFor (t b : list Z) : list Z := BridgeTopic t b (str "msg/status").
Definition TopicSOSAckFor (t b : list Z) : list Z := BridgeTopic t b (str "sos/ack").
Definition TopicHubCapsFor (t b : list Z) : list Z := BridgeTopic t b (str "hub/caps").
Definition TopicRNSAccessFor (t b : list Z) : list Z := BridgeTopic t b (str "rns/access").
Definition TopicWarnInFor (t b : list Z) : list Z := BridgeTopic t b (str "warn/in").

Definition TopicSatMOFor (tenantID imei : list Z) : list Z := Namespace tenantID ++ str "/hub/satmo/" ++ EncodeSegment imei.

Definition RelayTopic (tenantID bridgeID clientID dir : list Z) : list Z :=
  Namespace tenantID ++ str "/relay/" ++ EncodeSegment bridgeID ++ str "/" ++ EncodeSegment clientID ++ str "/" ++ dir.

Definition TopicHubCredits : list Z := str "meshsat/hub/credits".
Definition TopicHubCreditsFor (tenantID : list Z) : list Z :=
  if is_default tenantID then TopicHubCredits else Namespace tenantID ++ str "/hub/credits".
Definition TopicAPRSInboundFor (tenantID : list Z) : list Z :=
  if is_default tenantID then str "meshsat/hub/aprsis/inbound" else Namespace tenantID ++ str "/hub/aprsis/inbound".

Definition TopicTAKBroadcastFor (tenantID : list Z) : list Z := Namespace tenantID ++ str "/broadcast/tak/cot/in".
Definition TopicTAKBroadcastFromFor (tenantID sender : list Z) : list Z :=
  TopicTAKBroadcastFor tenantID ++ str "/" ++ EncodeSegment sender.

Definition DualFilters (legacy : list Z) : list (list Z) :=
  if bool_decide (take 8 legacy = str "meshsat/") then [legacy; str "meshsat/" ++ str "+/" ++ drop 8 legacy] else [legacy].

Definition TopicMTSendWildcard : list Z := str "meshsat/+/mt/send".
Definition TopicHubStatus : list Z := str "meshsat/hub/status".
Definition TopicHubEvents : list Z := str "meshsat/hub/events".
Definition RelayFilters (dir : list Z) : list (list Z) := [str "meshsat/relay/+/+/" ++ dir; str "meshsat/+/relay/+/+/" ++ dir].
Definition SatMOFilters : list (list Z) := [str "meshsat/hub/satmo/+"; str "meshsat/+/hub/satmo/+"].
Definition TAKCotOutFilters : list (list Z) := DualFilters (str "meshsat/bridge/+/tak/cot/out").
Definition TAKChatStatusFilters : list (list Z) := DualFilters (str "meshsat/bridge/+/tak/chat/status").
Definition MsgOutFilters : list (list Z) := DualFilters (str "meshsat/bridge/+/msg/out").
Definition MsgAckFilters : list (list Z) := DualFilters (str "meshsat/bridge/+/msg/ack").
Definition SOSEventFilters : list (list Z) := DualFilters (str "meshsat/bridge/+/sos/event").
Definition RNSJoinFilters : list (list Z) := DualFilters (str "meshsat/bridge/+/rns/join").

(** ** Parsers *)

Definition IsHubTopic (topic : list Z) : bool :=
  match split_on slash topic with
  | m :: p :: _ => bool_decide (m = str "meshsat") && reserved p
  | _ => false
  end.

Definition ParseDeviceTopic (topic : list Z) : option (list Z * list Z * list Z) :=
  match split_on slash topic with
  | m :: p1 :: ((p2 :: rest) as tl) =>
      if negb (bool_decide (m = str "meshsat")) || bool_decide (p1 = []) then None
      else if suffix_head p2 && negb (reserved p1) then Some (DefaultTenant, DecodeSegment p1, join_with slash tl)
      else
        match rest with
        | p3 :: _ =>
            if suffix_head p3 && negb (reserved p1) && negb (reserved p2) && negb (bool_decide (p2 = []))
            then Some (p1, DecodeSegment p2, join_with slash rest) else None
        | [] => None
        end
  | _ => None
  end.

Definition ParseBridgeTopic (topic : list Z) : option (list Z * list Z * list (list Z)) :=
  match split_on slash topic with
  | m :: p1 :: p2 :: p3 :: rest =>
      if negb (bool_decide (m = str "meshsat")) then None
      else if bool_decide (p1 = str "bridge") then
        if bool_decide (p2 = []) then None else Some (DefaultTenant, DecodeSegment p2, p3 :: rest)
      else
        match rest with
        | _ :: _ =>
            if bool_decide (p2 = str "bridge") && negb (reserved p1) then
              if bool_decide (p3 = []) then None else Some (p1, DecodeSegment p3, rest)
            else None
        | [] => None
        end
  | _ => None
  end.

(** A bridge topic with exactly this suffix. *)
Definition bridge_suffix (suffix : list string) (topic : list Z) : option (list Z * list Z) :=
  '(t, b, rest) ← ParseBridgeTopic topic;
  if bool_decide (rest = bytes_of_string <$> suffix) then Some (t, b) else None.

Definition ParseTAKCotOut : list Z → option (list Z * list Z) := bridge_suffix ["tak"; "cot"; "out"].
Definition ParseTAKChatStatus : list Z → option (list Z * list Z) := bridge_suffix ["tak"; "chat"; "status"].
Definition ParseSOSEventTopic : list Z → option (list Z * list Z) := bridge_suffix ["sos"; "event"].
Definition ParseRNSJoinTopic : list Z → option (list Z * list Z) := bridge_suffix ["rns"; "join"].

Definition ParseMsgTopic (topic : list Z) : option (list Z * list Z * list Z) :=
  '(t, b, rest) ← ParseBridgeTopic topic;
  match rest with
  | [m; kind] =>
      if bool_decide (m = str "msg") && (bool_decide (kind = str "out") || bool_decide (kind = str "ack"))
      then Some (t, b, kind) else None
  | _ => None
  end.

Definition ParseSatMOTopic (topic : list Z) : option (list Z * list Z) :=
  match split_on slash topic with
  | [m; h; s; imei] =>
      if bool_decide (m = str "meshsat") && bool_decide (h = str "hub") && bool_decide (s = str "satmo")
         && negb (bool_decide (imei = []))
      then Some (DefaultTenant, DecodeSegment imei) else None
  | [m; t; h; s; imei] =>
      if bool_decide (m = str "meshsat") && bool_decide (h = str "hub") && bool_decide (s = str "satmo")
         && negb (bool_decide (t = [])) && negb (bool_decide (imei = []))
      then Some (t, DecodeSegment imei) else None
  | _ => None
  end.

Definition relay_parts (tenantID bridge client dir : list Z) : option (list Z * list Z * list Z * list Z) :=
  if negb (bool_decide (dir = str "up") || bool_decide (dir = str "down")) || bool_decide (bridge = []) || bool_decide (client = [])
  then None else Some (tenantID, DecodeSegment bridge, DecodeSegment client, dir).

Definition ParseRelayTopic (topic : list Z) : option (list Z * list Z * list Z * list Z) :=
  match split_on slash topic with
  | [m; r; b; c; d] =>
      if bool_decide (m = str "meshsat") && bool_decide (r = str "relay") then relay_parts DefaultTenant b c d else None
  | [m; t; r; b; c; d] =>
      if bool_decide (m = str "meshsat") && bool_decide (r = str "relay") && negb (reserved t) && negb (bool_decide (t = []))
      then relay_parts t b c d else None
  | _ => None
  end.

Definition ExtractDeviceID (topic : list Z) : list Z :=
  match ParseDeviceTopic topic with Some (_, d, _) => d | None => [] end.
Definition ExtractTenantID (topic : list Z) : list Z :=
  match ParseDeviceTopic topic with Some (t, _, _) => t | None => [] end.

Definition MessageDigest (topic payload : list Z) : list Z :=
  take 16 (Hubmsg.hex_encode (Sha.sha256 (topic ++ [0] ++ payload))).
Definition FallbackMessageID (topic payload : list Z) : list Z := str "mo-" ++ MessageDigest topic payload.
Definition FallbackPositionID (topic payload : list Z) : list Z := str "pos-" ++ MessageDigest topic payload.

(** ** Segments *)

Lemma decode_encode_byte b rest : DecodeSegment (encode_byte b ++ rest) = b :: DecodeSegment rest.
Proof.
  unfold encode_byte. destruct (Z.eqb_spec b percent) as [->|H1]; [done|]. destruct (Z.eqb_spec b plus) as [->|H2]; [done|].
  destruct (Z.eqb_spec b hash) as [->|H3]; [done|]. destruct (Z.eqb_spec b slash) as [->|H4]; [done|].
  cbn. apply Z.eqb_neq in H1. rewrite H1. by destruct rest as [|x [|y rest]].
Qed.

Lemma decode_encode id : DecodeSegment (EncodeSegment id) = id.
Proof. unfold EncodeSegment. induction id as [|b id IH]; [done|]. cbn. rewrite decode_encode_byte. by f_equal. Qed.

Lemma encode_free id x : x = slash ∨ x = plus ∨ x = hash → x ∉ EncodeSegment id.
Proof.
  intros Hx. unfold EncodeSegment. induction id as [|b id IH]; [by intros ?%not_elem_of_nil|]. cbn.
  rewrite elem_of_app. intros [Hin|Hin]; [|done]. revert Hin. unfold encode_byte.
  repeat case_match; zbool; cbn; rewrite ?elem_of_cons, ?elem_of_nil; intros Hin.
  all: destruct Hx as [-> | [-> | ->]]; unfold slash, plus, hash, percent in *; naive_solver lia.
Qed.

Lemma encode_nil id : EncodeSegment id = [] → id = [].
Proof. intros H. rewrite <- (decode_encode id), H. done. Qed.

Lemma encode_plain id : percent ∉ id → slash ∉ id → plus ∉ id → hash ∉ id → EncodeSegment id = id.
Proof.
  unfold EncodeSegment. induction id as [|b id IH]; [done|]. rewrite !not_elem_of_cons. intros [] [] [] []. cbn.
  rewrite IH by done. unfold encode_byte. by repeat case_match; zbool; try congruence.
Qed.

(** An identifier is a suffix head, or reserved, exactly when its encoding is. *)
Lemma encode_in (names : list (list Z)) id :
  Forall (λ p, EncodeSegment p = p) names → bool_decide (EncodeSegment id ∈ names) = bool_decide (id ∈ names).
Proof.
  rewrite Forall_forall. intros Hp. apply bool_decide_ext. split; intros H.
  - by rewrite <- (decode_encode id), <- (Hp _ H), decode_encode.
  - by rewrite Hp.
Qed.

Lemma encode_head id : suffix_head (EncodeSegment id) = suffix_head id.
Proof. apply encode_in. by repeat constructor. Qed.

Lemma encode_reserved id : reserved (EncodeSegment id) = reserved id.
Proof. apply encode_in. by repeat constructor. Qed.

(** ** Shapes *)

(** A byte is not in a literal. *)
Ltac literal := refine (bool_decide_unpack _ _); vm_compute; exact I.

(** A tenant with a namespace of its own. *)
Definition customer (t : list Z) : Prop := is_default t = false ∧ slash ∉ t ∧ reserved t = false.

(** The tenant a namespace names. *)
Definition tenant_of (t : list Z) : list Z := if is_default t then DefaultTenant else t.

(** A suffix whose first segment the parser knows. *)
Definition known_suffix (s : list Z) : bool :=
  match split_on slash s with h :: _ => suffix_head h | [] => false end.

Lemma customer_ne t : customer t → t ≠ [].
Proof. by intros [H _] ->. Qed.

Lemma split_app_slash p l : slash ∉ p → split_on slash (p ++ str "/" ++ l) = p :: split_on slash l.
Proof. intros Hp. change (p ++ str "/" ++ l) with (p ++ slash :: l). by rewrite split_on_app, (split_on_free _ p) by done. Qed.

Lemma slash_encode id : slash ∉ EncodeSegment id.
Proof. apply encode_free. auto. Qed.

(** What follows a namespace: one or two levels, then the rest. *)
Lemma split_namespace t l :
  is_default t = true ∨ slash ∉ t →
  split_on slash (Namespace t ++ str "/" ++ l) =
    str "meshsat" :: (if is_default t then [] else [t]) ++ split_on slash l.
Proof.
  intros Ht. unfold Namespace. destruct (is_default t) eqn:E.
  - by rewrite split_app_slash by literal.
  - destruct Ht as [?|Ht]; [done|]. rewrite <- app_assoc.
    change (str "meshsat/" ++ ?x) with (str "meshsat" ++ str "/" ++ x).
    rewrite split_app_slash by literal. by rewrite split_app_slash.
Qed.

Lemma split_device t d s :
  is_default t = true ∨ slash ∉ t →
  split_on slash (DeviceTopic t d s) =
    str "meshsat" :: (if is_default t then [] else [t]) ++ EncodeSegment d :: split_on slash s.
Proof.
  intros Ht. unfold DeviceTopic. rewrite split_namespace by done. do 2 f_equal.
  apply split_app_slash, slash_encode.
Qed.

Lemma split_bridge t b s :
  is_default t = true ∨ slash ∉ t →
  split_on slash (BridgeTopic t b s) =
    str "meshsat" :: (if is_default t then [] else [t]) ++ str "bridge" :: EncodeSegment b :: split_on slash s.
Proof.
  intros Ht. unfold BridgeTopic. change (str "/bridge/" ++ ?x) with (str "/" ++ str "bridge" ++ str "/" ++ x).
  rewrite split_namespace by done. do 2 f_equal.
  rewrite split_app_slash by literal. f_equal. apply split_app_slash, slash_encode.
Qed.

Lemma customer_shape t : customer t → is_default t = true ∨ slash ∉ t.
Proof. by intros (_ & ? & _); right. Qed.

(** ** What the parsers make of what the builders build *)

Lemma parse_device_default t d s :
  is_default t = true → d ≠ [] → known_suffix s = true →
  ParseDeviceTopic (DeviceTopic t d s) = if reserved d then None else Some (DefaultTenant, d, s).
Proof.
  intros Ht Hd Hs. unfold ParseDeviceTopic, known_suffix in *. rewrite split_device, Ht by auto. cbn [app].
  pose proof (join_split slash s) as Hj. destruct (split_on slash s) as [|h tl]; [done|].
  rewrite encode_reserved, Hs, decode_encode, Hj, bool_decide_true, bool_decide_false by (done || by intros ?%encode_nil).
  cbn. destruct (reserved d) eqn:Er; [|done]. cbn. destruct tl; [done|]. by rewrite andb_false_r.
Qed.

Lemma parse_device_customer t d s :
  customer t → d ≠ [] → known_suffix s = true →
  ParseDeviceTopic (DeviceTopic t d s) =
    if suffix_head d then Some (DefaultTenant, DecodeSegment t, d ++ str "/" ++ s)
    else if reserved d then None else Some (t, d, s).
Proof.
  intros Hc Hd Hs. pose proof (customer_ne _ Hc) as Hne. unfold ParseDeviceTopic, known_suffix in *.
  rewrite split_device by by apply customer_shape. destruct Hc as (Ht & Hsl & Hr). rewrite Ht. cbn [app].
  pose proof (join_split slash s) as Hj. destruct (split_on slash s) as [|h tl]; [done|].
  rewrite encode_head, encode_reserved, Hs, Hr, decode_encode, Hj, bool_decide_true, !bool_decide_false
    by (done || by intros ?%encode_nil).
  cbn [negb orb andb]. destruct (suffix_head d) eqn:Eh; cbn [andb].
  - do 2 f_equal.
    change (join_with slash (EncodeSegment d :: h :: tl)) with (EncodeSegment d ++ str "/" ++ join_with slash (h :: tl)).
    rewrite Hj. f_equal.
    rewrite encode_plain; [done| ..]; intros Hin; unfold suffix_head in Eh; apply bool_decide_eq_true in Eh;
      revert Hin; pattern d; eapply Forall_forall; try exact Eh; repeat constructor; literal.
  - by destruct (reserved d).
Qed.

Lemma parse_bridge t b s :
  is_default t = true ∨ customer t → b ≠ [] →
  ParseBridgeTopic (BridgeTopic t b s) = Some (tenant_of t, b, split_on slash s).
Proof.
  intros Ht Hb. unfold ParseBridgeTopic, tenant_of.
  rewrite split_bridge by (destruct Ht; [by left | by apply customer_shape]).
  pose proof (split_on_nonempty slash s) as Hn. destruct (split_on slash s) as [|h tl]; [done|].
  destruct (is_default t) eqn:Ed; cbn [app].
  - by rewrite decode_encode, !bool_decide_true, bool_decide_false by (done || by intros ?%encode_nil).
  - destruct Ht as [?|(_ & _ & Hr)]; [done|].
    assert (t ≠ str "bridge") by (by intros ->).
    rewrite Hr, decode_encode. rewrite (bool_decide_false (t = _)), (bool_decide_false (_ = [])) by (done || by intros ?%encode_nil).
    by rewrite !bool_decide_true.
Qed.

Lemma parse_relay t b c dir :
  is_default t = true ∨ customer t → b ≠ [] → c ≠ [] → dir = str "up" ∨ dir = str "down" →
  ParseRelayTopic (RelayTopic t b c dir) = Some (tenant_of t, b, c, dir).
Proof.
  intros Ht Hb Hc Hdir. unfold ParseRelayTopic, RelayTopic, tenant_of.
  change (str "/relay/" ++ ?x) with (str "/" ++ str "relay" ++ str "/" ++ x).
  rewrite split_namespace by (destruct Ht; [by left | by apply customer_shape]).
  rewrite split_app_slash by literal. rewrite !split_app_slash by apply slash_encode.
  rewrite (split_on_free _ dir) by (destruct Hdir as [-> | ->]; literal).
  assert (Hp : ∀ t', relay_parts t' (EncodeSegment b) (EncodeSegment c) dir = Some (t', b, c, dir)).
  { intros t'. unfold relay_parts. rewrite !decode_encode, !(bool_decide_false (_ = [])) by (by intros ?%encode_nil).
    by destruct Hdir as [-> | ->]. }
  destruct (is_default t) eqn:Ed; cbn [app]; rewrite Hp; [by rewrite !bool_decide_true|].
  destruct Ht as [?|Ht]; [done|]. pose proof (customer_ne _ Ht). destruct Ht as (_ & _ & Hr).
  by rewrite Hr, (bool_decide_false (t = [])), !bool_decide_true.
Qed.

Lemma parse_satmo t imei :
  is_default t = true ∨ customer t → imei ≠ [] →
  ParseSatMOTopic (TopicSatMOFor t imei) = Some (tenant_of t, imei).
Proof.
  intros Ht Hi. unfold ParseSatMOTopic, TopicSatMOFor, tenant_of.
  change (str "/hub/satmo/" ++ ?x) with (str "/" ++ str "hub" ++ str "/" ++ str "satmo" ++ str "/" ++ x).
  rewrite split_namespace by (destruct Ht; [by left | by apply customer_shape]).
  rewrite !split_app_slash by literal. rewrite (split_on_free _ (EncodeSegment imei)) by apply slash_encode.
  destruct (is_default t) eqn:Ed; cbn [app].
  - by rewrite decode_encode, (bool_decide_false (_ = [])), !bool_decide_true by (done || by intros ?%encode_nil).
  - destruct Ht as [?|Ht]; [done|]. pose proof (customer_ne _ Ht).
    by rewrite decode_encode, !(bool_decide_false (_ = [])), !bool_decide_true by (done || by intros ?%encode_nil).
Qed.

Lemma head_not_bridge p : suffix_head p = true → p ≠ str "bridge".
Proof. by intros H ->. Qed.

Lemma reserved_not_bridge p : reserved p = false → p ≠ str "bridge".
Proof. by intros H ->. Qed.

Lemma device_not_hub topic x :
  ParseDeviceTopic topic = Some x → ParseBridgeTopic topic = None ∧ IsHubTopic topic = false.
Proof.
  unfold ParseDeviceTopic, ParseBridgeTopic, IsHubTopic.
  destruct (split_on slash topic) as [|m [|p1 [|p2 rest]]]; try done.
  destruct (_ || _); [done|]. destruct (suffix_head p2 && negb (reserved p1)) eqn:E1.
  - apply andb_true_iff in E1 as [Hh Hr%negb_true_iff]. intros _. rewrite Hr, andb_false_r. split; [|done].
    rewrite (bool_decide_false (p1 = str "bridge")), (bool_decide_false (p2 = str "bridge")) by first [by apply reserved_not_bridge | by apply head_not_bridge].
    destruct rest as [|p3 [|p4 rest]]; [done| |]; by destruct (negb _).
  - destruct rest as [|p3 rest]; [done|]. case_match eqn:E2; [|done].
    repeat (apply andb_true_iff in E2 as [E2 ?]). rewrite !negb_true_iff in *. intros _.
    rewrite (bool_decide_false (p1 = str "bridge")), (bool_decide_false (p2 = str "bridge")) by by apply reserved_not_bridge.
    replace (reserved p1) with false by done. rewrite andb_false_r. split; [|done].
    destruct (negb (bool_decide (m = _))); by destruct rest.
Qed.

(** A topic built by [DeviceTopic] reads back as the tenant, the device and the suffix it was
    built from, except that a reserved id is refused and that a customer's device named like a
    suffix head is read as the platform tenant's device with the customer's id. *)
Theorem device_topic_exact t d s :
  d ≠ [] → known_suffix s = true →
  (is_default t = true → ParseDeviceTopic (DeviceTopic t d s) = if reserved d then None else Some (DefaultTenant, d, s)) ∧
  (customer t →
   ParseDeviceTopic (DeviceTopic t d s) =
     if suffix_head d then Some (DefaultTenant, DecodeSegment t, d ++ str "/" ++ s)
     else if reserved d then None else Some (t, d, s)).
Proof. intros Hd Hs. split; intros Ht; [by apply parse_device_default | by apply parse_device_customer]. Qed.

Lemma device_topic_exact_witness :
  ParseDeviceTopic (DeviceTopic (str "t_1f") (str "+31600000001") (str "mo/decoded")) =
    Some (str "t_1f", str "+31600000001", str "mo/decoded") ∧
  ParseDeviceTopic (DeviceTopic (str "t_1f") (str "mo") (str "position")) =
    Some (DefaultTenant, str "t_1f", str "mo/position").
Proof.
  split.
  - apply (proj2 (device_topic_exact (str "t_1f") (str "+31600000001") (str "mo/decoded") ltac:(done) eq_refl)).
    split; [done|split; [literal|done]].
  - apply (proj2 (device_topic_exact (str "t_1f") (str "mo") (str "position") ltac:(done) eq_refl)).
    split; [done|split; [literal|done]].
Defined.

(** Bridge, relay and satellite topics read back exactly, whatever the ids hold; and no topic
    is both a device's and a bridge's, nor a device's and one of the Hub's own. *)
Theorem hub_topics_exact t :
  is_default t = true ∨ customer t →
  (∀ b s, b ≠ [] → ParseBridgeTopic (BridgeTopic t b s) = Some (tenant_of t, b, split_on slash s)) ∧
  (∀ b c dir, b ≠ [] → c ≠ [] → dir = str "up" ∨ dir = str "down" →
     ParseRelayTopic (RelayTopic t b c dir) = Some (tenant_of t, b, c, dir)) ∧
  (∀ imei, imei ≠ [] → ParseSatMOTopic (TopicSatMOFor t imei) = Some (tenant_of t, imei)) ∧
  (∀ topic, is_Some (ParseDeviceTopic topic) → ParseBridgeTopic topic = None ∧ IsHubTopic topic = false).
Proof.
  intros Ht. split_and!.
  - intros b s. by apply parse_bridge.
  - intros b c dir. by apply parse_relay.
  - intros imei. by apply parse_satmo.
  - intros topic [x Hx]. by apply (device_not_hub topic x).
Qed.

Lemma hub_topics_exact_witness :
  ParseBridgeTopic (BridgeTopic (str "t_1f") (str "a/b+c") (str "sos/event")) =
    Some (str "t_1f", str "a/b+c", [str "sos"; str "event"]).
Proof.
  apply (hub_topics_exact (str "t_1f")); [|done]. right. split; [done|split; [literal|done]].
Defined.

Lemma publish_app l k : CheckPublishTopic (l ++ k) = CheckPublishTopic l && CheckPublishTopic k.
Proof. unfold CheckPublishTopic. by rewrite existsb_app, negb_orb. Qed.

Lemma publish_encode id : CheckPublishTopic (EncodeSegment id) = true.
Proof.
  unfold CheckPublishTopic. apply negb_true_iff, not_true_iff_false. intros (b & Hb & Hw)%existsb_exists.
  apply (encode_free id b); [|by apply list_elem_of_In]. apply orb_true_iff in Hw as [Hw|Hw]; zbool; auto.
Qed.

Lemma publish_namespace t : CheckPublishTopic t = true → CheckPublishTopic (Namespace t) = true.
Proof. intros Ht. unfold Namespace. case_match; [done|]. by rewrite publish_app, Ht. Qed.

(** Whatever a device, bridge or client id holds, the topics built from it carry no wildcard,
    so the bus accepts the publish. *)
Theorem topics_publishable t d c s :
  CheckPublishTopic t = true → CheckPublishTopic s = true →
  CheckPublishTopic (DeviceTopic t d s) = true ∧ CheckPublishTopic (BridgeTopic t d s) = true ∧
  CheckPublishTopic (RelayTopic t d c s) = true ∧ CheckPublishTopic (TopicSatMOFor t d) = true ∧
  CheckPublishTopic (TopicTAKBroadcastFromFor t d) = true.
Proof.
  intros Ht%publish_namespace Hs.
  unfold DeviceTopic, BridgeTopic, RelayTopic, TopicSatMOFor, TopicTAKBroadcastFromFor, TopicTAKBroadcastFor.
  by rewrite !publish_app, !publish_encode, Ht, Hs.
Qed.

Lemma topics_publishable_witness : CheckPublishTopic (DeviceTopic (str "t_1f") (str "+31#") (str "mo/raw")) = true.
Proof. by apply (topics_publishable (str "t_1f") (str "+31#") [] (str "mo/raw")). Defined.

End Topics.
