(* ===== verification/NatsAuth.v ===== *)
(** What each bridge may publish and read on the broker, [internal/bridge/natsauth.go]: the
    rendered users file, the grants, and what they let a bridge say about itself, about other
    bridges and about other tenants.  nats-server is not part of the repository: [Broker]
    states how it reads a permission. *)
From S2P Require Import Prelude Text Hubmsg Topics.

Module NatsAuth.
Import Text Topics.

Definition SharedNATSUser : list Z := str "meshsat".
Definition dot : Z := 46.
Definition quote : Z := 34.

Definition natsSubject (topic : list Z) : list Z := (λ b, if b =? slash then dot else b) <$> topic.

Definition platformNamespace : list Z := str "meshsat".

(** The publish and the subscribe allow lists. *)
Definition NATSPermissions (ns bridgeID : list Z) : list (list Z) * list (list Z) :=
  let n := natsSubject ns in
  let own := n ++ str ".bridge." ++ bridgeID ++ str ".>" in
  (own :: ((λ s, n ++ bytes_of_string s) <$>
     [".*.position"; ".*.telemetry"; ".*.sos"; ".*.health"; ".*.signal";
      ".*.mo.>"; ".*.status.>"; ".*.sms.>"; ".*.config.current"]%string),
   [own; n ++ str ".*.mt.>"; n ++ str ".*.config.>"]
   ++ (if bool_decide (ns = platformNamespace) then [str "meshsat.broadcast.>"]
       else [n ++ str ".broadcast.tak.cot.in"; n ++ str ".broadcast.tak.cot.in.*"])
   ++ [str "$MQTT.sub.>"]).

Definition hubOnlyBridgeTopics : list (list Z) :=
  bytes_of_string <$> ["msg.in"; "msg.status"; "sos.ack"; "hub.caps"; "tak.cot.in"; "rns.access"; "warn.in"]%string.

Definition NATSPublishDeny (ns bridgeID : list Z) : list (list Z) :=
  let every := natsSubject ns ++ str ".bridge.*." in
  hubOnlyBridgeTopics ≫= λ t, [every ++ t; every ++ t ++ str ".>"].

Definition quoteList (items : list (list Z)) : list Z :=
  join_str (str ", ") ((λ s, [quote] ++ s ++ [quote]) <$> items).

Definition ident_byte (r : Z) : bool :=
  (97 <=? r) && (r <=? 122) || (65 <=? r) && (r <=? 90) || (48 <=? r) && (r <=? 57) || (r =? 45) || (r =? 95) || (r =? 46).

Definition validIdent (s : list Z) : bool :=
  negb (bool_decide (s = [])) && (Z.of_nat (length s) <=? 128) && forallb ident_byte s.

Definition ValidBridgeID (id : list Z) : bool := validIdent id && negb (existsb (Z.eqb dot) id).

(** The columns of a bridge row the renderer reads. *)
Record Bridge := MkBridge {
  BridgeID : list Z;
  TenantID : list Z;
  MQTTUsername : list Z;
  MQTTPasswordHash : list Z }.

Definition renderable (b : Bridge) : bool :=
  negb (bool_decide (MQTTUsername b = [])) && negb (bool_decide (MQTTPasswordHash b = []))
  && negb (bool_decide (MQTTUsername b = SharedNATSUser))
  && validIdent (MQTTUsername b) && ValidBridgeID (BridgeID b)
  && bool_decide (take 2 (MQTTPasswordHash b) = str "$2")
  && negb (existsb (λ c, (c =? quote) || (c =? 10) || (c =? 92)) (MQTTPasswordHash b)).

Definition by_name (a b : Bridge) : Prop := Hubmsg.bytes_le (MQTTUsername a) (MQTTUsername b).
#[global] Instance by_name_dec : RelDecision by_name.
Proof. intros a b. unfold by_name. apply _. Defined.

Definition render_user (namespace : list Z → list Z) (b : Bridge) : list Z :=
  let ns := namespace (TenantID b) in
  let p := NATSPermissions ns (BridgeID b) in
  str "    { user: " ++ [quote] ++ MQTTUsername b ++ [quote] ++ str ", password: " ++ [quote] ++ MQTTPasswordHash b ++ [quote]
  ++ str ", permissions: { publish: { allow: [" ++ quoteList (fst p) ++ str "], deny: ["
  ++ quoteList (NATSPublishDeny ns (BridgeID b)) ++ str "] }, subscribe: { allow: [" ++ quoteList (snd p)
  ++ str "] } } }" ++ [10].

Definition RenderNATSUsers (bridges : list Bridge) (namespace : list Z → list Z) : list Z :=
  let users := merge_sort by_name (filter (λ b, renderable b = true) bridges) in
  str "# Rendered by meshsat-hub (internal/bridge/natsauth.go); do not edit by hand." ++ [10]
  ++ str "# " ++ bytes_of_string (pretty (length users)) ++ str " bridge user(s). The shared user's password comes from the pod environment." ++ [10]
  ++ str "authorization {" ++ [10] ++ str "  users = [" ++ [10]
  ++ str "    { user: " ++ SharedNATSUser ++ str ", password: $NATS_MQTT_PASSWORD, permissions: { publish: { allow: ["
  ++ [quote; 62; quote] ++ str "] }, subscribe: { allow: [" ++ [quote; 62; quote] ++ str "] } } }" ++ [10]
  ++ concat (render_user namespace <$> users)
  ++ str "  ]" ++ [10] ++ str "}" ++ [10].

(** ** The broker *)

Definition star : list Z := str "*".
Definition tail_wild : list Z := str ">".

(** NATS subject patterns: a star is one token, a final tail wildcard one token or more. *)
Fixpoint covers (pat subj : list (list Z)) : bool :=
  match pat, subj with
  | [], [] => true
  | p :: pat', s :: subj' =>
      if bool_decide (p = tail_wild) && bool_decide (pat' = []) then true
      else (bool_decide (p = star) || bool_decide (p = s)) && covers pat' subj'
  | _, _ => false
  end.

Definition tokens (s : list Z) : list (list Z) := split_on dot s.

(** A topic whose levels are the tokens of its subject: none empty, no dot, no space. *)
Definition plain (topic : list Z) : Prop :=
  Forall (λ p, p ≠ [] ∧ dot ∉ p ∧ 32 ∉ p) (split_on slash topic) ∧ CheckPublishTopic topic = true.

(** How nats-server applies a user's permissions to an MQTT client on plain topics: a publish
    needs an allow that covers it and no deny that does, a delivery an allow that covers it. *)
Class Broker := {
  may_publish : list (list Z) → list (list Z) → list Z → bool;
  may_read : list (list Z) → list Z → bool;
  may_publish_spec allow deny topic :
    plain topic →
    may_publish allow deny topic =
      existsb (λ p, covers (tokens p) (split_on slash topic)) allow
      && negb (existsb (λ p, covers (tokens p) (split_on slash topic)) deny);
  may_read_spec allow topic :
    plain topic → may_read allow topic = existsb (λ p, covers (tokens p) (split_on slash topic)) allow }.

Definition reference_broker : Broker := {|
  may_publish := λ allow deny topic,
    existsb (λ p, covers (tokens p) (split_on slash topic)) allow
    && negb (existsb (λ p, covers (tokens p) (split_on slash topic)) deny);
  may_read := λ allow topic, existsb (λ p, covers (tokens p) (split_on slash topic)) allow;
  may_publish_spec := λ _ _ _ _, eq_refl;
  may_read_spec := λ _ _ _, eq_refl |}.

(** A bridge's publish right, and its reading right, from the rendered user. *)
Definition publishes `{Broker} (t b topic : list Z) : bool :=
  may_publish (fst (NATSPermissions (Namespace t) b)) (NATSPublishDeny (Namespace t) b) topic.

Definition reads `{Broker} (t b topic : list Z) : bool :=
  may_read (snd (NATSPermissions (Namespace t) b)) topic.

(** ** Names and tokens *)

(** The levels of a tenant's namespace. *)
Definition root (t : list Z) : list (list Z) := str "meshsat" :: if is_default t then [] else [t].

(** A tenant whose id is one plain token: the platform's, or a customer's. *)
Definition tenant_name (t : list Z) : Prop := is_default t = true ∨ customer t ∧ ValidBridgeID t = true.

Lemma valid_byte id c : ValidBridgeID id = true → c ∈ id → ident_byte c = true ∧ c ≠ dot.
Proof.
  unfold ValidBridgeID, validIdent. rewrite !andb_true_iff, !negb_true_iff. intros [[_ Hf] Hd] Hc. split.
  - apply (proj1 (forallb_forall _ _) Hf), list_elem_of_In, Hc.
  - intros ->. apply not_true_iff_false in Hd. apply Hd, existsb_exists. exists dot.
    split; [by apply list_elem_of_In | done].
Qed.

Lemma valid_free id c : ValidBridgeID id = true → ident_byte c = false ∨ c = dot → c ∉ id.
Proof. intros Hv Hc Hin. destruct (valid_byte _ _ Hv Hin). destruct Hc; congruence. Qed.

Lemma valid_encode id : ValidBridgeID id = true → EncodeSegment id = id.
Proof. intros Hv. apply encode_plain; by apply (valid_free _ _ Hv); left. Qed.

Lemma valid_ne id : ValidBridgeID id = true → id ≠ [] ∧ id ≠ star ∧ id ≠ tail_wild.
Proof. intros Hv. split_and!; by intros ->. Qed.

Lemma tokens_subject l : dot ∉ l → tokens (natsSubject l) = split_on slash l.
Proof.
  unfold tokens, natsSubject. induction l as [|c l IH]; [done|]. rewrite not_elem_of_cons. intros [Hc Hl]. cbn.
  destruct (Z.eqb_spec c slash) as [->|Hs]; [by rewrite IH|].
  destruct (Z.eqb_spec c dot); [congruence|]. by rewrite IH.
Qed.

Lemma tenant_shape t : tenant_name t → is_default t = true ∨ slash ∉ t.
Proof. intros [?|[? _]]; [by left | by apply customer_shape]. Qed.

Lemma namespace_split t : tenant_name t → split_on slash (Namespace t) = root t.
Proof.
  intros Ht. unfold Namespace, root. destruct (is_default t) eqn:E; [done|].
  destruct (tenant_shape _ Ht) as [?|Hs]; [congruence|].
  change (str "meshsat/" ++ t) with (str "meshsat" ++ str "/" ++ t).
  rewrite split_app_slash by literal. by rewrite (split_on_free _ t).
Qed.

Lemma namespace_tokens t : tenant_name t → tokens (natsSubject (Namespace t)) = root t.
Proof.
  intros Ht. rewrite tokens_subject; [by apply namespace_split|].
  unfold Namespace. destruct (is_default t) eqn:E; [literal|].
  destruct Ht as [?|[_ Hv]]; [congruence|]. rewrite not_elem_of_app. split; [literal|]. by apply (valid_free _ _ Hv); right.
Qed.

(** The tokens of a grant are the namespace's and the rest's. *)
Lemma grant_tokens t l : tenant_name t → tokens (natsSubject (Namespace t) ++ str "." ++ l) = root t ++ tokens l.
Proof.
  intros Ht. rewrite <- (namespace_tokens _ Ht). apply split_on_app.
Qed.

(** ** Covering *)

Definition literal_token (p : list Z) : Prop := p ≠ star ∧ p ≠ tail_wild.

Lemma covers_literal p pat lv :
  literal_token p → covers (p :: pat) lv = true ↔ ∃ rest, lv = p :: rest ∧ covers pat rest = true.
Proof.
  intros [H1 H2]. destruct lv as [|s lv]; cbn.
  - split; [done|]. by intros (? & [=] & _).
  - rewrite (bool_decide_false (p = tail_wild)), (bool_decide_false (p = star)) by done. cbn.
    rewrite andb_true_iff, bool_decide_eq_true. naive_solver.
Qed.

Lemma covers_star pat lv : covers (star :: pat) lv = true → ∃ d rest, lv = d :: rest ∧ covers pat rest = true.
Proof. destruct lv as [|d rest]; [done|]. cbn. intros Hc. by exists d, rest. Qed.

Lemma covers_root t pat lv :
  tenant_name t → covers (root t ++ pat) lv = true ↔ ∃ rest, lv = root t ++ rest ∧ covers pat rest = true.
Proof.
  intros Ht. unfold root. destruct (is_default t) eqn:E; cbn [app].
  - by rewrite covers_literal.
  - destruct Ht as [?|[_ Hv]]; [congruence|]. apply valid_ne in Hv as (_ & ? & ?).
    rewrite covers_literal by done. setoid_rewrite covers_literal; [|done]. naive_solver.
Qed.

Lemma existsb_root {A} (f : A → list (list Z)) (l : list A) t lv :
  tenant_name t →
  existsb (λ x, covers (root t ++ f x) lv) l = true ↔
    ∃ rest, lv = root t ++ rest ∧ existsb (λ x, covers (f x) rest) l = true.
Proof.
  intros Ht. rewrite existsb_exists. setoid_rewrite (covers_root t _ lv Ht). setoid_rewrite existsb_exists. naive_solver.
Qed.

(** ** The grants below the namespace *)

Definition reports : list (list Z) := bytes_of_string <$> ["position"; "telemetry"; "sos"; "health"; "signal"]%string.
Definition report_trees : list (list Z) := bytes_of_string <$> ["mo"; "status"; "sms"]%string.

Definition grants (b : list Z) : list (list (list Z)) :=
  [str "bridge"; b; tail_wild] :: ((λ k, [star; k]) <$> reports) ++ ((λ k, [star; k; tail_wild]) <$> report_trees)
  ++ [[star; str "config"; str "current"]].

Definition denials : list (list (list Z)) :=
  hubOnlyBridgeTopics ≫= λ s, [str "bridge" :: star :: tokens s; str "bridge" :: star :: tokens s ++ [tail_wild]].

Lemma split_in_grants t b :
  tenant_name t → ValidBridgeID b = true →
  tokens <$> fst (NATSPermissions (Namespace t) b) = (λ g, root t ++ g) <$> grants b.
Proof.
  intros Ht Hb. unfold NATSPermissions, grants. cbn [fst]. rewrite !fmap_cons. f_equal.
  - change (str ".bridge." ++ ?x) with (str "." ++ str "bridge" ++ dot :: x). rewrite grant_tokens by done. f_equal.
    unfold tokens. rewrite split_on_app. f_equal. change (b ++ str ".>") with (b ++ dot :: tail_wild).
    rewrite split_on_app, (split_on_free dot b); [done|]. by apply (valid_free _ _ Hb); right.
  - cbn [fmap list_fmap app reports report_trees]. repeat (apply (f_equal2 cons); [by apply (grant_tokens t)|]). done.
Qed.

Lemma split_in_denials t b :
  tenant_name t → tokens <$> NATSPublishDeny (Namespace t) b = (λ g, root t ++ g) <$> denials.
Proof.
  intros Ht. unfold NATSPublishDeny, denials, hubOnlyBridgeTopics. cbn [fmap list_fmap mbind list_bind app].
  repeat (apply (f_equal2 cons); [rewrite <- app_assoc; by apply (grant_tokens t)|]). done.
Qed.

Lemma existsb_fmap {A B} (f : A → B) (p : B → bool) l : existsb p (f <$> l) = existsb (λ x, p (f x)) l.
Proof. induction l as [|x l IH]; [done|]. cbn. by rewrite <- IH. Qed.

Definition granted (b : list Z) (rest : list (list Z)) : bool := existsb (λ g, covers g rest) (grants b).
Definition denied (rest : list (list Z)) : bool := existsb (λ g, covers g rest) denials.

(** What a bridge may publish: inside its namespace, granted and not denied. *)
Lemma publishes_iff `{Broker} t b topic :
  tenant_name t → ValidBridgeID b = true → plain topic →
  publishes t b topic = true ↔
    ∃ rest, split_on slash topic = root t ++ rest ∧ granted b rest = true ∧ denied rest = false.
Proof.
  intros Ht Hb Hp. unfold publishes. rewrite may_publish_spec, andb_true_iff, negb_true_iff by done.
  set (lv := split_on slash topic).
  rewrite <- (existsb_fmap tokens (λ g, covers g lv)), <- (existsb_fmap tokens (λ g, covers g lv)).
  rewrite split_in_grants, split_in_denials, !existsb_fmap by done. rewrite <- not_true_iff_false.
  rewrite !existsb_root by done. setoid_rewrite <- not_true_iff_false. unfold granted, denied. split.
  - intros [(rest & Hl & Hg) Hd]. exists rest. split_and!; [done|done|]. intros ?. apply Hd. by exists rest.
  - intros (rest & Hl & Hg & Hd). split; [by exists rest|]. intros (rest' & Hl' & ?). rewrite Hl in Hl'.
    apply app_inv_head in Hl' as <-. done.
Qed.

Lemma report_literal k : In k reports ∨ In k report_trees → literal_token k.
Proof. intros [Hk|Hk]; repeat destruct Hk as [<-|Hk]; try done. Qed.

(** The shapes of the grants. *)
Lemma granted_inv b rest :
  ValidBridgeID b = true → granted b rest = true →
  (∃ x l, rest = str "bridge" :: b :: x :: l) ∨
  (∃ d k, rest = [d; k] ∧ k ∈ reports) ∨
  (∃ d k x l, rest = d :: k :: x :: l ∧ k ∈ report_trees) ∨
  (∃ d, rest = [d; str "config"; str "current"]).
Proof.
  intros (_ & Hs & Hw)%valid_ne. unfold granted, grants.
  change (existsb ?f (?x :: ?l)) with (f x || existsb f l). rewrite !existsb_app, !existsb_fmap, !orb_true_iff, !existsb_exists.
  intros [Hc|[(k & Hk & Hc)|[(k & Hk & Hc)|Hc]]].
  - left. apply covers_literal in Hc as (r1 & -> & Hc); [|done]. apply covers_literal in Hc as (r2 & -> & Hc); [|done].
    destruct r2 as [|x l]; [done|]. by exists x, l.
  - right; left. apply covers_star in Hc as (d & r & -> & Hc). apply covers_literal in Hc as (r' & -> & Hc); [|by apply report_literal; left].
    destruct r'; [|done]. exists d, k. split; [done|]. by apply list_elem_of_In.
  - right; right; left. apply covers_star in Hc as (d & r & -> & Hc).
    apply covers_literal in Hc as (r' & -> & Hc); [|by apply report_literal; right].
    destruct r' as [|x l]; [done|]. exists d, k, x, l. split; [done|]. by apply list_elem_of_In.
  - right; right; right. destruct Hc as (g & [<-|[]] & Hc). apply covers_star in Hc as (d & r & -> & Hc). exists d.
    apply covers_literal in Hc as (r' & -> & Hc); [|done]. apply covers_literal in Hc as (r'' & -> & Hc); [|done]. by destruct r''.
Qed.

(** The shapes of what a bridge may read. *)
Definition read_trees : list (list Z) := bytes_of_string <$> ["mt"; "config"]%string.

Lemma reads_inv `{Broker} t b topic :
  tenant_name t → ValidBridgeID b = true → plain topic → reads t b topic = true →
  (∃ x l, split_on slash topic = root t ++ str "bridge" :: b :: x :: l) ∨
  (∃ d k x l, split_on slash topic = root t ++ d :: k :: x :: l ∧ k ∈ read_trees) ∨
  (∃ l, split_on slash topic = root t ++ str "broadcast" :: l) ∨
  (∃ l, split_on slash topic = str "$MQTT" :: l).
Proof.
  intros Ht Hb Hp. pose proof (valid_ne _ Hb) as (_ & ? & ?). unfold reads, NATSPermissions. rewrite may_read_spec by done.
  cbn [snd]. rewrite !existsb_app, !orb_true_iff. set (lv := split_on slash topic).
  assert (Hg : ∀ l, covers (tokens (natsSubject (Namespace t) ++ str "." ++ l)) lv = true →
    ∃ rest, lv = root t ++ rest ∧ covers (tokens l) rest = true).
  { intros l. rewrite grant_tokens by done. by apply covers_root. }
  assert (Hb2 : ∀ l rest, covers (str "broadcast" :: l) rest = true → ∃ l', rest = str "broadcast" :: l').
  { intros l rest (r & -> & _)%covers_literal; [|done]. by exists r. }
  change (str ".bridge." ++ ?x) with (str "." ++ str "bridge." ++ x).
  intros [Hc|[Hc|Hc]]; [| |right; right; right].
  - cbn [existsb] in Hc. repeat (apply orb_true_iff in Hc as [Hc|Hc]); [left| | |done]; apply Hg in Hc as (rest & -> & Hc).
    + change (str "bridge." ++ ?x) with (str "bridge" ++ dot :: x) in Hc. unfold tokens in Hc. rewrite split_on_app in Hc.
      change (b ++ str ".>") with (b ++ dot :: tail_wild) in Hc.
      rewrite split_on_app, (split_on_free dot b) in Hc by (by apply (valid_free _ _ Hb); right).
      apply covers_literal in Hc as (r1 & -> & Hc); [|done]. apply covers_literal in Hc as (r2 & -> & Hc); [|done].
      destruct r2 as [|x l]; [done|]. by exists x, l.
    + right; left. apply covers_star in Hc as (d & r & -> & Hc). apply covers_literal in Hc as (r' & -> & Hc); [|done].
      destruct r' as [|x l]; [done|]. exists d. eexists _, x, l. split; [done|literal].
    + right; left. apply covers_star in Hc as (d & r & -> & Hc). apply covers_literal in Hc as (r' & -> & Hc); [|done].
      destruct r' as [|x l]; [done|]. exists d. eexists _, x, l. split; [done|literal].
  - right; right; left. destruct (is_default t) eqn:E.
    + rewrite bool_decide_true in Hc by (by unfold Namespace; rewrite E). unfold root. rewrite E. cbn [existsb] in Hc. rewrite orb_false_r in Hc.
      apply covers_literal in Hc as (r & -> & Hc); [|done]. apply Hb2 in Hc as [l ->]. by exists l.
    + rewrite bool_decide_false in Hc by (by unfold Namespace; rewrite E). cbn [existsb] in Hc.
      repeat (apply orb_true_iff in Hc as [Hc|Hc]); [| |done]; apply Hg in Hc as (rest & -> & Hc);
        apply Hb2 in Hc as [l ->]; by exists l.
  - cbn [existsb] in Hc. rewrite orb_false_r in Hc. apply covers_literal in Hc as (r & -> & _); [|done]. by exists r.
Qed.

(** ** Plain topics *)

Definition plain_level (p : list Z) : Prop := p ≠ [] ∧ dot ∉ p ∧ 32 ∉ p.

Lemma valid_level id : ValidBridgeID id = true → plain_level id ∧ CheckPublishTopic id = true.
Proof.
  intros Hv. split.
  - split; [by apply valid_ne|]. split; apply (valid_free _ _ Hv); [by right|by left].
  - rewrite <- (valid_encode _ Hv). apply publish_encode.
Qed.

Lemma root_levels t : tenant_name t → Forall plain_level (root t).
Proof.
  intros Ht. unfold root. constructor; [split_and!; [done|literal|literal]|].
  destruct (is_default t) eqn:E; [done|]. destruct Ht as [?|[_ Hv]]; [congruence|].
  constructor; [by apply valid_level|done].
Qed.

Lemma tenant_publishable t : tenant_name t → CheckPublishTopic (Namespace t) = true.
Proof.
  intros Ht. destruct (is_default t) eqn:E; [by unfold Namespace; rewrite E|].
  destruct Ht as [?|[_ Hv]]; [congruence|]. by apply publish_namespace, valid_level.
Qed.

(** The suffix is plain. *)
Definition plain_suffix (s : list Z) : bool :=
  bool_decide (Forall (λ p, p ≠ [] ∧ dot ∉ p ∧ 32 ∉ p) (split_on slash s)) && CheckPublishTopic s.

Lemma plain_bridge t b s : tenant_name t → ValidBridgeID b = true → plain_suffix s = true → plain (BridgeTopic t b s).
Proof.
  intros Ht Hb Hs. apply andb_true_iff in Hs as [Hl%bool_decide_eq_true Hs]. split.
  - rewrite split_bridge by by apply tenant_shape. change (str "meshsat" :: ?x ++ ?y) with (root t ++ y).
    apply Forall_app. split; [by apply root_levels|]. constructor; [split_and!; [done|literal|literal]|].
    rewrite valid_encode by done. constructor; [by apply valid_level|done].
  - unfold BridgeTopic. rewrite !publish_app, publish_encode, Hs, tenant_publishable by done. done.
Qed.

Lemma plain_device t d s :
  tenant_name t → plain_level d → plain_suffix s = true → EncodeSegment d = d → plain (DeviceTopic t d s).
Proof.
  intros Ht Hd Hs He. apply andb_true_iff in Hs as [Hl%bool_decide_eq_true Hs]. split.
  - rewrite split_device by by apply tenant_shape. change (str "meshsat" :: ?x ++ ?y) with (root t ++ y).
    apply Forall_app. split; [by apply root_levels|]. rewrite He. by constructor.
  - unfold DeviceTopic. rewrite !publish_app, publish_encode, Hs, tenant_publishable by done. done.
Qed.

(** ** What the grants enforce *)

(** The topics of a bridge that only the Hub publishes. *)
Definition hub_only : list (list Z → list Z → list Z) :=
  [TopicMsgInFor; TopicMsgStatusFor; TopicSOSAckFor; TopicHubCapsFor; TopicTAKCotInFor; TopicRNSAccessFor; TopicWarnInFor].

Definition hub_suffixes : list (list Z) :=
  bytes_of_string <$> ["msg/in"; "msg/status"; "sos/ack"; "hub/caps"; "tak/cot/in"; "rns/access"; "warn/in"]%string.

Definition bridge_suffixes : list (list Z) :=
  bytes_of_string <$> ["sos/event"; "msg/out"; "msg/ack"; "tak/cot/out"; "tak/chat/status"; "rns/join"; "birth"]%string.

Lemma hub_only_topic build t b : build ∈ hub_only → ∃ s, s ∈ hub_suffixes ∧ build t b = BridgeTopic t b s.
Proof.
  intros Hin. unfold hub_only in Hin. rewrite !elem_of_cons in Hin.
  repeat destruct Hin as [->|Hin]; [..|by apply not_elem_of_nil in Hin]; eexists; (split; [|reflexivity]); literal.
Qed.

Lemma suffix_laws (l : list (list Z)) (f : list Z → bool) s : forallb f l = true → s ∈ l → f s = true.
Proof. intros Hf Hs. by apply (proj1 (forallb_forall _ _) Hf), list_elem_of_In. Qed.

Lemma hub_suffix_denied s b : s ∈ hub_suffixes → denied (str "bridge" :: b :: split_on slash s) = true.
Proof. apply (suffix_laws _ (λ s, denied (str "bridge" :: b :: split_on slash s))). by vm_compute. Qed.

Lemma customer_not_bridge t : customer t → t ≠ str "bridge" ∧ t ≠ str "hub".
Proof. intros (_ & _ & Hr). split; by intros ->. Qed.

Lemma granted_length b rest : ValidBridgeID b = true → granted b rest = true → (2 ≤ length rest)%nat.
Proof.
  intros Hb [(x & l & ->)|[(d & k & -> & _)|[(d & k & x & l & -> & _)|(d & ->)]]]%granted_inv; cbn; (lia || done).
Qed.

Lemma not_tree (names : list (list Z)) p : bool_decide (p ∈ names) = false → p ∉ names.
Proof. apply bool_decide_eq_false. Qed.

Lemma tree_names l k :
  forallb (λ k, bool_decide (DecodeSegment k = k) && negb (bool_decide (k = str "bridge"))) l = true →
  k ∈ l → DecodeSegment k = k ∧ k ≠ str "bridge".
Proof.
  intros Hl Hk. apply (suffix_laws _ _ _ Hl) in Hk. apply andb_true_iff in Hk as [H1%bool_decide_eq_true H2%negb_true_iff].
  by apply bool_decide_eq_false in H2.
Qed.

(** A bridge topic inside a tenant's namespace names that tenant, or, in the platform's, a
    customer one level down. *)
Lemma parse_bridge_levels t topic l t' b' rest :
  tenant_name t → split_on slash topic = root t ++ l → ParseBridgeTopic topic = Some (t', b', rest) →
  rest ≠ [] ∧
  ((∃ p, l = str "bridge" :: p :: rest ∧ b' = DecodeSegment p ∧ t' = tenant_of t) ∨
   (∃ d p, l = d :: str "bridge" :: p :: rest ∧ reserved d = false)).
Proof.
  intros Ht Hl. unfold ParseBridgeTopic, tenant_of. rewrite Hl. unfold root. destruct (is_default t) eqn:E; cbn [app].
  - destruct l as [|p1 [|p2 [|p3 l]]]; [done..|]. rewrite bool_decide_true by done. cbn [negb].
    case_bool_decide as H1; [subst|].
    + case_bool_decide; [done|]. intros [= <- <- <-]. split; [done|]. left. by eexists.
    + destruct l as [|p4 l]; [done|]. case_match eqn:E2; [|done]. apply andb_true_iff in E2 as [->%bool_decide_eq_true Hr%negb_true_iff].
      case_bool_decide; [done|]. intros [= <- <- <-]. split; [done|]. right. by eexists _, _.
  - destruct Ht as [?|[(_ & _ & Hr) _]]; [congruence|].
    destruct l as [|p2 [|p3 l]]; [done..|]. rewrite bool_decide_true by done. cbn [negb].
    rewrite (bool_decide_false (t = str "bridge")) by (by apply reserved_not_bridge).
    destruct l as [|p4 l]; [done|]. case_match eqn:E2; [|done]. apply andb_true_iff in E2 as [->%bool_decide_eq_true _].
    case_bool_decide; [done|]. intros [= <- <- <-]. split; [done|]. left. by eexists.
Qed.

Lemma valid_decode id : ValidBridgeID id = true → DecodeSegment id = id.
Proof. intros Hv. rewrite <- (valid_encode _ Hv) at 1. apply decode_encode. Qed.

Lemma covers_length pat subj : covers pat subj = true → (length pat ≤ length subj)%nat.
Proof.
  revert subj. induction pat as [|p pat IH]; intros [|x subj]; cbn; try done. case_match eqn:E; intros Hc.
  - apply andb_true_iff in E as [_ ->%bool_decide_eq_true]. cbn. lia.
  - apply andb_true_iff in Hc as [_ Hc]. apply IH in Hc. lia.
Qed.

Lemma denied_length rest : (length rest < 4)%nat → denied rest = false.
Proof.
  intros Hl. apply not_true_iff_false. intros (g & Hg & Hc)%existsb_exists. apply covers_length in Hc.
  assert (Nat.leb 4 (length g) = true) as H4%Nat.leb_le; [|lia].
  revert Hg. apply (proj1 (forallb_forall (λ g, Nat.leb 4 (length g)) denials)). by vm_compute.
Qed.

Lemma report_laws k : k ∈ reports → plain_suffix k = true ∧ known_suffix k = true ∧ split_on slash k = [k].
Proof.
  intros Hk. set (f k := plain_suffix k && known_suffix k && bool_decide (split_on slash k = [k])).
  assert (f k = true) as Hf by (revert Hk; apply suffix_laws; by vm_compute).
  by apply andb_true_iff in Hf as [[? ?]%andb_true_iff ?%bool_decide_eq_true].
Qed.

Lemma report_granted b d k : k ∈ reports → granted b [d; k] = true.
Proof.
  intros Hk. apply existsb_exists. exists [star; k]. split.
  - right. apply in_or_app. left. apply list_elem_of_In, list_elem_of_fmap. by exists k.
  - assert (literal_token k) as [? ?] by (apply report_literal; left; by apply list_elem_of_In). cbn.
    rewrite (bool_decide_false (k = tail_wild)), (bool_decide_true (k = k)) by done. cbn. by rewrite orb_true_r.
Qed.

Section enforced.
Context `{Broker}.

(** What a bridge of one tenant may say on a bridge subtree: it is its own, or one of the
    subtrees the device grants reach. *)
Lemma publish_bridge_subtree t b t' b' s :
  tenant_name t → ValidBridgeID b = true → tenant_name t' → ValidBridgeID b' = true → plain_suffix s = true →
  publishes t b (BridgeTopic t' b' s) = true →
  root t = root t' ∧ granted b (str "bridge" :: b' :: split_on slash s) = true ∧
  denied (str "bridge" :: b' :: split_on slash s) = false.
Proof.
  intros Ht Hb Ht' Hb' Hs. rewrite publishes_iff by (done || by apply plain_bridge).
  rewrite split_bridge, (valid_encode b') by (done || by apply tenant_shape).
  change (str "meshsat" :: ?x ++ ?y) with (root t' ++ y).
  intros (rest & Hl & Hg & Hd). unfold root in *.
  destruct (is_default t) eqn:E, (is_default t') eqn:E'; cbn [app] in Hl; injection Hl; clear Hl.
  - intros <-. done.
  - intros <-. exfalso. destruct Ht' as [?|[Hc' _]]; [congruence|].
    apply granted_inv in Hg as [(x & l & Hr)|[(d & k & Hr & _)|[(d & k & x & l & Hr & Hk)|(d & Hr)]]]; [injection Hr..|done].
    + by apply customer_not_bridge in Hc' as [? _].
    + done.
    + intros _ _ <- <-. by apply not_tree in Hk.
    + done.
  - intros _ <-. exfalso. destruct Ht as [?|[Hc _]]; [congruence|]. by apply customer_not_bridge in Hc as [? _].
  - intros <- <-. done.
Qed.


(** C25: The sender a bridge topic names is the bridge the broker authenticated, in its tenant,
    unless the bridge is called mo, status, sms or config. *)
Theorem bridge_sender_authentic t b topic t' b' rest :
  tenant_name t → ValidBridgeID b = true → plain topic →
  publishes t b topic = true → ParseBridgeTopic topic = Some (t', b', rest) →
  t' = tenant_of t ∧ (b' = b ∨ b' ∈ str "config" :: report_trees).
Proof.
  intros Ht Hb Hp Hpub Hparse. apply publishes_iff in Hpub as (l & Hl & Hg & _); [|done..].
  assert (Htree : ∀ k, k ∈ str "config" :: report_trees → DecodeSegment k = k ∧ k ≠ str "bridge").
  { intros k. by apply tree_names. }
  destruct (parse_bridge_levels t topic l t' b' rest) as [Hne [(p & -> & -> & ->)|(d & p & -> & Hd)]]; [done..| |].
  - split; [done|]. apply granted_inv in Hg as [(x & r & Hg)|[(d & k & Hg & _)|[(d & k & x & r & Hg & Hk)|(d & Hg)]]]; [..|done].
    + left. rewrite <- (valid_decode b) by done. congruence.
    + congruence.
    + right. injection Hg as _ -> _. apply elem_of_cons. right. by rewrite (proj1 (Htree k ltac:(by apply elem_of_cons; right))).
    + right. assert (p = str "config") as -> by congruence. apply elem_of_cons. by left.
  - exfalso. apply granted_inv in Hg as [(x & r & Hg)|[(d' & k & Hg & _)|[(d' & k & x & r & Hg & Hk)|(d' & Hg)]]]; [..|done].
    + assert (d = str "bridge") as -> by congruence. done.
    + done.
    + apply (Htree k); [by apply elem_of_cons; right | congruence].
    + done.
Qed.

(** The copy of a satellite message the Hub's providers publish cannot be published by any
    bridge of any tenant. *)
Theorem satmo_unforgeable t b t' imei :
  tenant_name t → ValidBridgeID b = true → tenant_name t' → plain (TopicSatMOFor t' imei) →
  publishes t b (TopicSatMOFor t' imei) = false.
Proof.
  intros Ht Hb Ht' Hp. apply not_true_iff_false. rewrite publishes_iff by done. intros (rest & Hl & Hg & _). revert Hl.
  unfold TopicSatMOFor.
  change (str "/hub/satmo/" ++ ?x) with (str "/" ++ str "hub" ++ str "/" ++ str "satmo" ++ str "/" ++ x).
  rewrite split_namespace by by apply tenant_shape.
  rewrite !split_app_slash by literal. rewrite (split_on_free _ (EncodeSegment imei)) by apply slash_encode.
  apply granted_inv in Hg; [|done]. unfold root.
  assert (Hhub : ∀ u, tenant_name u → is_default u = false → u ≠ str "hub" ∧ u ≠ str "bridge").
  { intros u [?|[Hc _]] ?; [congruence|]. apply customer_not_bridge in Hc. naive_solver. }
  destruct (is_default t) eqn:E, (is_default t') eqn:E'; cbn [app]; intros Hl; injection Hl as Hl.
  all: destruct Hg as [(x & r & ->)|[(d & k & -> & _)|[(d & k & x & r & -> & Hk)|(d & ->)]]]; try done.
  all: simplify_eq; try (by apply not_tree in Hk); try (by destruct (Hhub _ Ht' E')); try (by destruct (Hhub _ Ht E)).
Qed.

(** What a customer's bridge publishes on a device topic is read as its own tenant's, or as the
    platform's device that bears the customer's id. *)
Theorem device_publish_confined t b topic t' d s :
  customer t → ValidBridgeID t = true → ValidBridgeID b = true → plain topic →
  publishes t b topic = true → ParseDeviceTopic topic = Some (t', d, s) →
  t' = t ∨ t' = DefaultTenant ∧ d = t.
Proof.
  intros Hc Hv Hb Hp Hpub. apply publishes_iff in Hpub as (l & Hl & _); [|by right|done..].
  unfold ParseDeviceTopic. rewrite Hl. unfold root. destruct Hc as (Hd & _ & Hr). rewrite Hd. cbn [app].
  assert (Hdec : DecodeSegment t = t) by (rewrite <- (valid_encode _ Hv) at 1; apply decode_encode).
  destruct l as [|p2 l]; [done|]. rewrite Hdec. repeat case_match; intros; simplify_eq; auto.
Qed.

(** What the Hub sends a bridge is read by that bridge only, unless it is called mt or config. *)
Theorem bridge_reader_confined t b topic t' b' rest :
  tenant_name t → ValidBridgeID b = true → plain topic →
  reads t b topic = true → ParseBridgeTopic topic = Some (t', b', rest) →
  t' = tenant_of t ∧ (b' = b ∨ b' ∈ read_trees).
Proof.
  intros Ht Hb Hp Hr Hparse. apply reads_inv in Hr; [|done..].
  assert (Htree : ∀ k, k ∈ read_trees → DecodeSegment k = k ∧ k ≠ str "bridge").
  { intros k. by apply tree_names. }
  destruct Hr as [(x & l & Hl)|[(d & k & x & l & Hl & Hk)|[(l & Hl)|(l & Hl)]]].
  4: { exfalso. revert Hparse. unfold ParseBridgeTopic. rewrite Hl. by destruct l as [|? [|? [|? ?]]]. }
  all: destruct (parse_bridge_levels _ _ _ _ _ _ Ht Hl Hparse) as [Hne [(p & Hp' & -> & ->)|(d' & p & Hp' & Hd)]].
  - split; [done|]. left. rewrite <- (valid_decode b) by done. congruence.
  - assert (d' = str "bridge") as -> by congruence. done.
  - split; [done|]. right. injection Hp' as _ -> _. by rewrite (proj1 (Htree p Hk)).
  - exfalso. apply (Htree k Hk). congruence.
  - done.
  - assert (d' = str "broadcast") as -> by congruence. done.
Qed.

(** A bridge may report for any device of its tenant's namespace. *)
Lemma report_publish t b d k :
  tenant_name t → ValidBridgeID b = true → ValidBridgeID d = true → k ∈ reports →
  publishes t b (DeviceTopic t d k) = true ∧ known_suffix k = true.
Proof.
  intros Ht Hb Hd Hk.
  pose proof (report_laws k Hk) as (Hs & Hn & Hl).
  split; [|done]. rewrite publishes_iff.
  - exists [d; k]. rewrite split_device, valid_encode, Hl by (done || by apply tenant_shape). split; [done|].
    split; [by apply report_granted|]. apply denied_length. cbn. lia.
  - done.
  - done.
  - apply plain_device; [done|by apply valid_level|done|by apply valid_encode].
Qed.

Lemma own_publish t b s :
  tenant_name t → ValidBridgeID b = true → plain_suffix s = true →
  publishes t b (BridgeTopic t b s) = negb (denied (str "bridge" :: b :: split_on slash s)).
Proof.
  intros Ht Hb Hs. apply eq_iff_eq_true. rewrite publishes_iff by (done || by apply plain_bridge).
  rewrite split_bridge, valid_encode by (done || by apply tenant_shape).
  change (str "meshsat" :: ?x ++ ?y) with (root t ++ y). rewrite negb_true_iff. split.
  - intros (rest & <-%app_inv_head & _ & ?). done.
  - intros Hd. eexists. split; [done|]. split; [|done]. unfold granted, grants.
    change (existsb ?f (?x :: ?l)) with (f x || existsb f l). apply orb_true_iff. left.
    pose proof (split_on_nonempty slash s). destruct (split_on slash s) as [|x l]; [done|].
    destruct (valid_ne _ Hb) as (_ & ? & ?). apply covers_literal; [done|]. eexists. split; [done|].
    apply covers_literal; [done|]. by eexists.
Qed.

Lemma own_read t b s :
  tenant_name t → ValidBridgeID b = true → plain_suffix s = true → reads t b (BridgeTopic t b s) = true.
Proof.
  intros Ht Hb Hs. unfold reads. rewrite may_read_spec by by apply plain_bridge. apply existsb_exists. eexists.
  split; [by left|]. rewrite split_bridge, valid_encode by (done || by apply tenant_shape).
  change (str "meshsat" :: ?x ++ ?y) with (root t ++ y).
  change (str ".bridge." ++ ?x) with (str "." ++ str "bridge" ++ dot :: x). rewrite grant_tokens by done.
  apply covers_root; [done|]. eexists. split; [done|]. unfold tokens. rewrite split_on_app.
  change (b ++ str ".>") with (b ++ dot :: tail_wild).
  rewrite split_on_app, (split_on_free dot b) by (by apply (valid_free _ _ Hb); right).
  pose proof (split_on_nonempty slash s). destruct (split_on slash s) as [|x l]; [done|].
  destruct (valid_ne _ Hb) as (_ & ? & ?). apply covers_literal; [done|]. eexists. split; [done|].
  apply covers_literal; [done|]. by eexists.
Qed.

(** The grants are no narrower than the protocol: a bridge can publish everything it is to say
    on its own subtree and can read everything the Hub says to it there. *)
Theorem bridge_can_work t b :
  tenant_name t → ValidBridgeID b = true →
  (∀ s, s ∈ bridge_suffixes → publishes t b (BridgeTopic t b s) = true) ∧
  (∀ build, build ∈ hub_only → reads t b (build t b) = true).
Proof.
  intros Ht Hb. split.
  - intros s Hs. assert (plain_suffix s = true) by (revert Hs; by apply suffix_laws).
    rewrite own_publish by done. revert Hs. apply (suffix_laws _ (λ s, negb (denied (str "bridge" :: b :: split_on slash s)))).
    by vm_compute.
  - intros build Hin. destruct (hub_only_topic build t b Hin) as (s & Hs & ->). apply own_read; [done..|].
    revert Hs. by apply suffix_laws.
Qed.

(** Any bridge can raise an SOS as another bridge of its tenant whose id is mo, status or sms:
    the device grants cover that bridge's subtree. *)
Theorem bridge_sos_impersonated t b k :
  tenant_name t → ValidBridgeID b = true → k ∈ report_trees →
  publishes t b (BridgeTopic t k (str "sos/event")) = true ∧
  ParseSOSEventTopic (BridgeTopic t k (str "sos/event")) = Some (tenant_of t, k) ∧ ValidBridgeID k = true.
Proof.
  intros Ht Hb Hk. assert (Hv : ValidBridgeID k = true) by (revert Hk; by apply suffix_laws).
  split_and!; [| |done].
  - rewrite publishes_iff by (done || by apply plain_bridge). exists [str "bridge"; k; str "sos"; str "event"].
    rewrite split_bridge, valid_encode by (done || by apply tenant_shape).
    split; [done|]. split.
    + unfold granted. apply existsb_exists. exists [star; k; tail_wild]. split.
      * right. apply in_or_app. right. apply in_or_app. left. apply list_elem_of_In, list_elem_of_fmap. by exists k.
      * cbn. destruct (valid_ne _ Hv) as (_ & ? & ?). rewrite (bool_decide_false (k = tail_wild)), (bool_decide_true (k = k)) by done.
        cbn. by rewrite orb_true_r.
    + by vm_compute.
  - unfold ParseSOSEventTopic, bridge_suffix. rewrite parse_bridge; [by rewrite option_bind_assoc || done | |by apply valid_ne].
    destruct Ht as [?|[? _]]; auto.
Qed.

End enforced.

#[local] Instance by_name_trans : Transitive by_name.
Proof. intros a b c. apply (transitivity (R := Hubmsg.bytes_le)). Qed.

#[local] Instance by_name_total : Total by_name.
Proof. intros a b. apply (total Hubmsg.bytes_le). Qed.

(** The file depends on the set of bridges and not on the order the store lists them in, so an
    unchanged fleet renders to the same bytes. *)
Theorem render_order_free bridges bridges' namespace :
  NoDup (MQTTUsername <$> filter (λ b, renderable b = true) bridges) → bridges ≡ₚ bridges' →
  RenderNATSUsers bridges namespace = RenderNATSUsers bridges' namespace.
Proof.
  intros Hnd Hp. unfold RenderNATSUsers.
  assert (merge_sort by_name (filter (λ b, renderable b = true) bridges) =
          merge_sort by_name (filter (λ b, renderable b = true) bridges')) as ->; [|done].
  apply (StronglySorted_unique_strong by_name); [|by apply (StronglySorted_merge_sort by_name)..|].
  - intros a b Ha Hb Hab Hba. rewrite merge_sort_Permutation in Ha. rewrite merge_sort_Permutation, <- Hp in Hb.
    apply list_elem_of_lookup in Ha as [i Hi], Hb as [j Hj].
    assert (MQTTUsername a = MQTTUsername b) as Hn by (by apply (anti_symm Hubmsg.bytes_le)).
    assert (i = j) as ->; [|congruence].
    apply (NoDup_lookup _ i j (MQTTUsername a) Hnd); rewrite list_lookup_fmap; [by rewrite Hi|]. rewrite Hj. cbn. by rewrite Hn.
  - by rewrite !merge_sort_Permutation, Hp.
Qed.

(** ** Witnesses: a customer, its two bridges, and the pattern-matching broker *)

Ltac computed := vm_compute; reflexivity.

Definition acme : list Z := str "t_1f2e3d4c5b6a7988".
Definition kit1 : list Z := str "kit-1".
Definition kit2 : list Z := str "kit_2".

Lemma acme_customer : customer acme.
Proof. split; [computed|split; [literal|computed]]. Qed.

Lemma acme_name : tenant_name acme.
Proof. right. split; [apply acme_customer|computed]. Qed.


Lemma bridge_sender_authentic_witness :
  acme = tenant_of acme ∧ (kit1 = kit1 ∨ kit1 ∈ str "config" :: report_trees).
Proof.
  apply (@bridge_sender_authentic reference_broker acme kit1 (BridgeTopic acme kit1 (str "sos/event")) acme kit1 [str "sos"; str "event"]);
    [apply acme_name|computed| |computed|computed]. split; [literal|computed].
Defined.

Lemma satmo_unforgeable_witness : @publishes reference_broker acme kit1 (TopicSatMOFor acme (str "300434060000001")) = false.
Proof.
  apply (@satmo_unforgeable reference_broker acme kit1 acme (str "300434060000001"));
    [apply acme_name|computed|apply acme_name|]. split; [literal|computed].
Defined.

Lemma device_publish_confined_witness : acme = acme ∨ acme = DefaultTenant ∧ str "300434060000001" = acme.
Proof.
  apply (@device_publish_confined reference_broker acme kit1 (DeviceTopic acme (str "300434060000001") (str "position"))
           acme (str "300434060000001") (str "position")); [apply acme_customer|computed|computed| |computed|computed]. split; [literal|computed].
Defined.

Lemma bridge_reader_confined_witness : acme = tenant_of acme ∧ (kit1 = kit1 ∨ kit1 ∈ read_trees).
Proof.
  apply (@bridge_reader_confined reference_broker acme kit1 (TopicMsgInFor acme kit1) acme kit1 [str "msg"; str "in"]);
    [apply acme_name|computed| |computed|computed]. split; [literal|computed].
Defined.

Lemma bridge_can_work_witness : @publishes reference_broker acme kit1 (BridgeTopic acme kit1 (str "sos/event")) = true.
Proof. refine (proj1 (@bridge_can_work reference_broker acme kit1 acme_name eq_refl) (str "sos/event") _). literal. Defined.

Lemma bridge_sos_impersonated_witness :
  @publishes reference_broker acme kit1 (BridgeTopic acme (str "sms") (str "sos/event")) = true.
Proof. apply (@bridge_sos_impersonated reference_broker acme kit1 (str "sms")); [apply acme_name|computed|literal]. Defined.

Definition row (id : list Z) : Bridge := MkBridge id acme id (str "$2a$10$abcdefghijklmnopqrstuv").

Lemma render_order_free_witness :
  RenderNATSUsers [row kit1; row kit2] Namespace = RenderNATSUsers [row kit2; row kit1] Namespace.
Proof. apply (render_order_free [row kit1; row kit2] [row kit2; row kit1] Namespace); [literal|]. apply perm_swap. Defined.

End NatsAuth.
