(* ===== verification/Relay.v ===== *)
(** The WebSocket relay, [internal/relay/relay.go] and [budget.go]: the sockets a replica
    holds, the frames between a client and a bridge over the bus, the budget of a client, and
    what one step of a replica does to its tables and to the outside.  [RelaySystem] puts
    replicas and the bridges on the broker together.

    A pointer to a session is a number into the heap of its replica, which keeps a session
    after its socket is closed.  The bodies of the read loops are steps: what
    [conn.ReadMessage] returns, whether a write or a publish fails and the clock are inputs.
    How the bus client matches a subscription is [Bus].  Opening a client's socket is
    [RelayHandler.Connect] of [internal/api/relay.go] after its checks: [Admit], then
    [ServeClient].  The budget in Redis, the pings and read deadlines and the metrics are left
    out. *)
From stdpp Require Import functions.
From S2P Require Import Prelude Fields Text Topics Wire NatsAuth.
Import Fields.

Module Relay.
Import Text Topics NatsAuth Envelope.

(** ** The budget *)

(** [Budget]: whether one more frame of a key may pass at a time (seconds). *)
Class Budget (B : Type) := allow : Z → list Z → Z → B → bool * B.

Record window := Window { w_minute : Z; w_count : Z }.

Notation MemoryBudget := (gmap (list Z) window).
Definition NewMemoryBudget : MemoryBudget := ∅.

(** The entry of a key, [window{}] where there is none. *)
Definition window_of (b : MemoryBudget) (key : list Z) : window := default (Window 0 0) (b !! key).

Definition Allow (now : Z) (key : list Z) (limit : Z) (b : MemoryBudget) : bool * MemoryBudget :=
  if limit <=? 0 then (true, b)
  else
    let minute := now ÷ 60 in
    let w := window_of b key in
    let fresh := negb (w_minute w =? minute) in
    let b := if fresh && (4096 <? Z.of_nat (size b)) then filter (λ kv, w_minute kv.2 = minute) b else b in
    let w := if fresh then Window minute 0 else w in
    let w := Window (w_minute w) (w_count w + 1) in
    (w_count w <=? limit, <[key := w]> b).

#[export] Instance memory_budget : Budget MemoryBudget := Allow.

(** ** Sessions *)

Inductive role := RBridge | RClient.

#[export] Instance role_eq_dec : EqDecision role.
Proof. solve_decision. Defined.

(** [s_closed] is [closeOnce]; [s_serving] holds until the handler of the socket returns. *)
Record session := Session {
  s_role : role; s_tenant : list Z; s_bridge : list Z; s_client : list Z; s_closed : bool; s_serving : bool }.

#[export] Instance session_settable : Settable session :=
  λ s, Session (s_role s) (s_tenant s) (s_bridge s) (s_client s) (s_closed s) (s_serving s).

Definition CloseNormal : Z := 1000.
Definition CloseAbnormal : Z := 1006.
Definition CloseBudget : Z := 1008.
Definition CloseSuperseded : Z := 1001.
Definition CloseFrame : Z := 1003.

(** What a replica does to the outside. *)
Inductive event :=
  | Published (topic payload : list Z)
  | Wrote (sid : nat) (frame : list Z)
  | Closed (sid : nat) (code : Z).

Definition budgetKey (tenantID clientID : list Z) : list Z := tenantID ++ str ":" ++ clientID.
Definition bridgeKey (tenantID bridgeID : list Z) : list Z := tenantID ++ str "/" ++ bridgeID.
Definition clientKey (tenantID bridgeID clientID : list Z) : list Z :=
  tenantID ++ str "/" ++ bridgeID ++ str "/" ++ clientID.

(** The frame limit after [withDefaults]. *)
Definition FramesPerMinute (opt : Z) : Z := if opt =? 0 then 100 else opt.

Record Relay (B : Type) := MkRelay {
  budget : B; frames : Z; bridges : gmap (list Z) nat; clients : gmap (list Z) nat; heap : gmap nat session }.
Arguments MkRelay {B}.
Arguments budget {B}.
Arguments frames {B}.
Arguments bridges {B}.
Arguments clients {B}.
Arguments heap {B}.

#[export] Instance relay_settable B : Settable (Relay B) :=
  λ r, MkRelay (budget r) (frames r) (bridges r) (clients r) (heap r).

Definition New {B} (b : B) (opt : Z) : Relay B := MkRelay b (FramesPerMinute opt) ∅ ∅ ∅.

(** How the bus client gives a message to the subscriptions with a filter that has no
    multi-level wildcard: level by level, a plus sign for any level. *)
Fixpoint levels_match (pat lv : list (list Z)) : bool :=
  match pat, lv with
  | [], [] => true
  | p :: pat, l :: lv => (bool_decide (p = [plus]) || bool_decide (p = l)) && levels_match pat lv
  | _, _ => false
  end.

Class Bus := {
  matches : list Z → list Z → bool;
  matches_spec f topic : hash ∉ f → matches f topic = levels_match (split_on slash f) (split_on slash topic) }.

Definition reference_bus : Bus := {|
  matches := λ f topic, levels_match (split_on slash f) (split_on slash topic);
  matches_spec := λ _ _ _, eq_refl |}.

Section ops.
Context {B : Type} `{Budget B} `{Bus}.
Implicit Types r : Relay B.

(** [session.close]. *)
Definition close (sid : nat) (code : Z) r : Relay B * list event :=
  match heap r !! sid with
  | Some s =>
      if s_closed s then (r, []) else (r <| heap ::= <[sid := s <| s_closed := true |>]> |>, [Closed sid code])
  | None => (r, [])
  end.

(** [session.write]: it fails on a closed socket, and may fail ([ok]) on an open one. *)
Definition write (sid : nat) (frame : list Z) (ok : bool) r : bool * list event :=
  match heap r !! sid with
  | Some s => if s_closed s || negb ok then (false, []) else (true, [Wrote sid frame])
  | None => (false, [])
  end.

Definition Admit (now : Z) (tenantID clientID : list Z) r : bool * Relay B :=
  let x := allow now (budgetKey tenantID clientID) (frames r) (budget r) in (x.1, r <| budget := x.2 |>).

(** The start of [ServeBridge] after the upgrade. *)
Definition ServeBridge (tenantID bridgeID : list Z) r : Relay B * list event :=
  let sid := fresh (dom (heap r)) in
  let r := r <| heap ::= <[sid := Session RBridge tenantID bridgeID [] false true]> |> in
  let key := bridgeKey tenantID bridgeID in
  let x := match bridges r !! key with Some old => close old CloseSuperseded r | None => (r, []) end in
  (x.1 <| bridges ::= <[key := sid]> |>, x.2).

(** The start of [ServeClient] after the upgrade. *)
Definition ServeClient (tenantID bridgeID clientID : list Z) r : Relay B * list event :=
  let sid := fresh (dom (heap r)) in
  let r := r <| heap ::= <[sid := Session RClient tenantID bridgeID clientID false true]> |> in
  let key := clientKey tenantID bridgeID clientID in
  let x := match clients r !! key with Some old => close old CloseSuperseded r | None => (r, []) end in
  (x.1 <| clients ::= <[key := sid]> |>, x.2).

(** The deferred function of [ServeBridge]. *)
Definition bridge_gone (sid : nat) (s : session) r : Relay B * list event :=
  let key := bridgeKey (s_tenant s) (s_bridge s) in
  let r := if bool_decide (bridges r !! key = Some sid) then r <| bridges ::= delete key |> else r in
  close sid CloseNormal r.

(** The deferred function of [ServeClient]. *)
Definition client_gone (sid : nat) (s : session) r : Relay B * list event :=
  let key := clientKey (s_tenant s) (s_bridge s) (s_client s) in
  let r := if bool_decide (clients r !! key = Some sid) then r <| clients ::= delete key |> else r in
  close sid CloseNormal r.

(** The handler of a socket returns: the deferred function runs, and nothing is read any more. *)
Definition gone (sid : nat) (s : session) r : Relay B * list event :=
  let x := match s_role s with RBridge => bridge_gone sid s r | RClient => client_gone sid s r end in
  (x.1 <| heap ::= alter (λ s, s <| s_serving := false |>) sid |>, x.2).

(** [s.close(code, ...); return]. *)
Definition drop_with (sid : nat) (s : session) (code : Z) r : Relay B * list event :=
  let x := close sid code r in let y := gone sid s x.1 in (y.1, x.2 ++ y.2).

Definition publish (topic payload : list Z) (ok : bool) : list event := if ok then [Published topic payload] else [].

(** The body of the read loop of [ServeBridge]. *)
Definition read_bridge (sid : nat) (s : session) (binary : bool) (data : list Z) (ok : bool) r : Relay B * list event :=
  if negb binary then drop_with sid s CloseFrame r
  else
    match DecodeEnvelope data with
    | Err _ => drop_with sid s CloseFrame r
    | Ok (clientID, payload) =>
        (r, publish (RelayTopic (s_tenant s) (s_bridge s) clientID (str "down")) payload ok)
    end.

(** The body of the read loop of [ServeClient]. *)
Definition read_client (now : Z) (sid : nat) (s : session) (binary : bool) (data : list Z) (ok : bool) r
    : Relay B * list event :=
  if negb binary then drop_with sid s CloseFrame r
  else
    let x := allow now (budgetKey (s_tenant s) (s_client s)) (frames r) (budget r) in
    let r := r <| budget := x.2 |> in
    if negb x.1 then drop_with sid s CloseBudget r
    else (r, publish (RelayTopic (s_tenant s) (s_bridge s) (s_client s) (str "up")) data ok).

(** Writing to the socket found, if one is. *)
Definition write_or_close (sid : nat) (frame : list Z) (ok : bool) r : Relay B * list event :=
  let x := write sid frame ok r in
  if x.1 then (r, x.2) else close sid CloseAbnormal r.

Definition onUp (topic payload : list Z) (ok : bool) r : Relay B * list event :=
  match ParseRelayTopic topic with
  | None => (r, [])
  | Some (tenantID, bridgeID, clientID, _) =>
      match bridges r !! bridgeKey tenantID bridgeID with
      | None => (r, [])
      | Some sid =>
          match EncodeEnvelope clientID payload with
          | Err _ => (r, [])
          | Ok frame => write_or_close sid frame ok r
          end
      end
  end.

Definition onDown (topic payload : list Z) (ok : bool) r : Relay B * list event :=
  match ParseRelayTopic topic with
  | None => (r, [])
  | Some (tenantID, bridgeID, clientID, _) =>
      match clients r !! clientKey tenantID bridgeID clientID with
      | None => (r, [])
      | Some sid => write_or_close sid payload ok r
      end
  end.

(** The subscriptions [Start] makes. *)
Definition subscriptions : list (list Z * (list Z → list Z → bool → Relay B → Relay B * list event)) :=
  ((λ f, (f, onUp)) <$> RelayFilters (str "up")) ++ ((λ f, (f, onDown)) <$> RelayFilters (str "down")).

(** One message of the bus, to every subscription it matches. *)
Definition deliver (topic payload : list Z) (ok : bool) r : Relay B * list event :=
  foldl (λ x s, if matches s.1 topic then let y := s.2 topic payload ok x.1 in (y.1, x.2 ++ y.2) else x)
    (r, []) subscriptions.

(** ** One replica *)

Inductive op :=
  | OpenBridge (tenantID bridgeID : list Z)
  | OpenClient (tenantID bridgeID clientID : list Z)
  | Read (sid : nat) (binary : bool) (data : list Z) (ok : bool)
  | ReadError (sid : nat)
  | Deliver (topic payload : list Z) (ok : bool).

Definition serving (sid : nat) r : option session := s ← heap r !! sid; if s_serving s then Some s else None.

Definition step (now : Z) (o : op) r : Relay B * list event :=
  match o with
  | OpenBridge t b => ServeBridge t b r
  | OpenClient t b c => let x := Admit now t c r in if x.1 then ServeClient t b c x.2 else (x.2, [])
  | Read sid binary data ok =>
      match serving sid r with
      | Some s =>
          match s_role s with
          | RBridge => read_bridge sid s binary data ok r
          | RClient => read_client now sid s binary data ok r
          end
      | None => (r, [])
      end
  | ReadError sid => match serving sid r with Some s => gone sid s r | None => (r, []) end
  | Deliver topic payload ok => deliver topic payload ok r
  end.

End ops.

(** ** All replicas, and the bridges on the broker *)

(** What happened: a replica made a step, or a bridge published on the broker by itself. *)
Inductive entry :=
  | Did (i : nat) (o : op) (evs : list event)
  | Sent (tenantID bridgeID topic payload : list Z).

(** A message somebody published. *)
Definition on_bus (log : list entry) (topic payload : list Z) : Prop :=
  (∃ i o evs, Did i o evs ∈ log ∧ Published topic payload ∈ evs) ∨ ∃ t b, Sent t b topic payload ∈ log.

(** A tenant as the store names it. *)
Definition stored_tenant (t : list Z) : Prop := tenant_name t ∧ tenant_of t = t.

(** Sockets are opened for stored bridges; the bus delivers what was published. *)
Definition op_ok (log : list entry) (o : op) : Prop :=
  match o with
  | OpenBridge t b => stored_tenant t ∧ ValidBridgeID b = true
  | OpenClient t b c => stored_tenant t ∧ ValidBridgeID b = true ∧ ValidBridgeID c = true
  | Deliver topic payload _ => on_bus log topic payload
  | _ => True
  end.

(** The histories of replicas that share the bus, from their starts: replicas step in any
    order at any clocks, messages arrive late, repeatedly or never, and any bridge publishes
    what the broker lets it. *)
Inductive history {B} `{Budget B} `{Bus} `{Broker} (b0 : B) (opt : Z) : list entry → (nat → Relay B) → Prop :=
  | history_start : history b0 opt [] (λ _, New b0 opt)
  | history_step log R i now o r' evs :
      history b0 opt log R → op_ok log o → step now o (R i) = (r', evs) →
      history b0 opt (log ++ [Did i o evs]) (<[i := r']> R)
  | history_sent log R t b topic payload :
      history b0 opt log R → tenant_name t → ValidBridgeID b = true → plain topic → publishes t b topic = true →
      history b0 opt (log ++ [Sent t b topic payload]) R.

(** ** Sessions keep their names *)

Definition ident (s : session) : role * list Z * list Z * list Z := (s_role s, s_tenant s, s_bridge s, s_client s).

Definition named (x : role * list Z * list Z * list Z) : Prop :=
  let '(ro, t, b, c) := x in
  stored_tenant t ∧ ValidBridgeID b = true ∧ (ro = RClient → ValidBridgeID c = true).

Section replica.
Context {B : Type} `{Budget B} `{Bus}.
Implicit Types r : Relay B.

Definition idents r : gmap nat (role * list Z * list Z * list Z) := ident <$> heap r.

(** The tables lead to sockets of their keys, and every socket is a stored bridge's. *)
Record relay_ok r : Prop := {
  ok_bridges k sid : bridges r !! k = Some sid → ∃ t b c, idents r !! sid = Some (RBridge, t, b, c) ∧ k = bridgeKey t b;
  ok_clients k sid : clients r !! k = Some sid → ∃ t b c, idents r !! sid = Some (RClient, t, b, c) ∧ k = clientKey t b c;
  ok_named sid x : idents r !! sid = Some x → named x }.

(** A step that opens no socket. *)
Definition shrinks r r' : Prop := idents r' = idents r ∧ bridges r' ⊆ bridges r ∧ clients r' ⊆ clients r.

#[local] Instance shrinks_preorder : PreOrder shrinks.
Proof. split; [done|]. intros r1 r2 r3 (? & ? & ?) (? & ? & ?). split_and!; by etrans. Qed.

Lemma shrinks_ok r r' : shrinks r r' → relay_ok r → relay_ok r'.
Proof.
  intros (Hi & Hb & Hc) [Ob Oc On]. split; rewrite Hi.
  - intros k sid Hk. by apply Ob, (lookup_weaken _ _ _ _ Hk).
  - intros k sid Hk. by apply Oc, (lookup_weaken _ _ _ _ Hk).
  - done.
Qed.

Definition silent (evs : list event) : Prop := ∀ e, e ∈ evs → ∃ sid code, e = Closed sid code.

Lemma silent_nil : silent [].
Proof. by intros e ?%elem_of_nil. Qed.

Lemma silent_app l k : silent l → silent k → silent (l ++ k).
Proof. intros Hl Hk e [?|?]%elem_of_app; auto. Qed.

(** An update of a session that keeps its name. *)
Lemma idents_insert r sid s s' :
  heap r !! sid = Some s → ident s' = ident s → idents (r <| heap ::= <[sid := s']> |>) = idents r.
Proof.
  intros Hs He. unfold idents. cbn. rewrite fmap_insert, He. apply insert_id. by rewrite lookup_fmap, Hs.
Qed.

Lemma close_quiet sid code r : shrinks r (close sid code r).1 ∧ silent (close sid code r).2.
Proof.
  unfold close. destruct (heap r !! sid) as [s|] eqn:E; [|by split; [|apply silent_nil]].
  destruct (s_closed s); [by split; [|apply silent_nil]|]. split.
  - split_and!; [by apply (idents_insert r sid s)|done..].
  - intros e ->%list_elem_of_singleton. by eexists _, _.
Qed.

Lemma gone_quiet sid s r : shrinks r (gone sid s r).1 ∧ silent (gone sid s r).2.
Proof.
  assert (Hx : ∀ r, shrinks r (r <| heap ::= alter (λ s, s <| s_serving := false |>) sid |>)).
  { intros r'. split_and!; [|done..]. unfold idents. cbn. apply map_eq. intros j. rewrite !lookup_fmap.
    destruct (decide (j = sid)) as [->|]; [|by rewrite lookup_alter_ne].
    rewrite lookup_alter_eq. by destruct (heap r' !! sid). }
  assert (Hy : ∀ r1 r2 code, shrinks r1 r2 → shrinks r1 (close sid code r2).1 ∧ silent (close sid code r2).2).
  { intros r1 r2 code H1. destruct (close_quiet sid code r2). split; [by etrans|done]. }
  unfold gone. cbn [fst snd]. destruct (s_role s); unfold bridge_gone, client_gone;
    match goal with |- context [close _ ?c ?r2] => destruct (Hy r r2 c) as [Hs He] end;
    try (case_bool_decide; [|done]; split_and!; try done; by apply delete_subseteq).
  all: split; [by etrans; [exact Hs|apply Hx]|exact He].
Qed.

Lemma drop_with_quiet sid s code r : shrinks r (drop_with sid s code r).1 ∧ silent (drop_with sid s code r).2.
Proof.
  unfold drop_with. cbn. destruct (close_quiet sid code r), (gone_quiet sid s (close sid code r).1).
  split; [by etrans|by apply silent_app].
Qed.

(** A write of a frame, and otherwise a close. *)
Lemma write_or_close_quiet sid frame ok r :
  shrinks r (write_or_close sid frame ok r).1 ∧
  ∀ e, e ∈ (write_or_close sid frame ok r).2 → e = Wrote sid frame ∨ ∃ sid code, e = Closed sid code.
Proof.
  unfold write_or_close, write. destruct (close_quiet sid CloseAbnormal r) as [Hs He].
  assert (∀ e, e ∈ (close sid CloseAbnormal r).2 → e = Wrote sid frame ∨ ∃ sid code, e = Closed sid code) by auto.
  destruct (heap r !! sid) as [s|]; [|done]. destruct (_ || _); [done|]. cbn. split; [done|].
  intros e ->%list_elem_of_singleton. by left.
Qed.

(** ** What each operation does to the outside *)

(** Why a handler writes a frame to a socket. *)
Definition written_up r (topic payload : list Z) (sid : nat) (frame : list Z) : Prop :=
  ∃ t b c d, ParseRelayTopic topic = Some (t, b, c, d) ∧ bridges r !! bridgeKey t b = Some sid ∧
    EncodeEnvelope c payload = Ok frame.

Definition written_down r (topic payload : list Z) (sid : nat) (frame : list Z) : Prop :=
  ∃ t b c d, ParseRelayTopic topic = Some (t, b, c, d) ∧ clients r !! clientKey t b c = Some sid ∧ frame = payload.

Definition writes_only (P : nat → list Z → Prop) (evs : list event) : Prop :=
  ∀ e, e ∈ evs → (∃ sid frame, e = Wrote sid frame ∧ P sid frame) ∨ ∃ sid code, e = Closed sid code.

Lemma onUp_spec topic payload ok r :
  shrinks r (onUp topic payload ok r).1 ∧ writes_only (written_up r topic payload) (onUp topic payload ok r).2.
Proof.
  unfold onUp, writes_only, written_up.
  destruct (ParseRelayTopic topic) as [[[[t b] c] d]|]; [|by split; [|intros ? ?%elem_of_nil]].
  destruct (bridges r !! bridgeKey t b) as [sid|] eqn:Eb; [|by split; [|intros ? ?%elem_of_nil]].
  destruct (EncodeEnvelope c payload) as [frame|] eqn:Ee; [|by split; [|intros ? ?%elem_of_nil]].
  destruct (write_or_close_quiet sid frame ok r) as [Hs He]. split; [done|].
  intros e [->|?]%He; [left|by right]. eexists _, _. split; [done|]. by exists t, b, c, d.
Qed.

Lemma onDown_spec topic payload ok r :
  shrinks r (onDown topic payload ok r).1 ∧ writes_only (written_down r topic payload) (onDown topic payload ok r).2.
Proof.
  unfold onDown, writes_only, written_down.
  destruct (ParseRelayTopic topic) as [[[[t b] c] d]|]; [|by split; [|intros ? ?%elem_of_nil]].
  destruct (clients r !! clientKey t b c) as [sid|] eqn:Eb; [|by split; [|intros ? ?%elem_of_nil]].
  destruct (write_or_close_quiet sid payload ok r) as [Hs He]. split; [done|].
  intros e [->|?]%He; [left|by right]. eexists _, _. split; [done|]. by exists t, b, c, d.
Qed.

(** A filter of a direction only lets topics of that direction through. *)
Lemma filter_direction f dir topic t b c d :
  dir = str "up" ∨ dir = str "down" → f ∈ RelayFilters dir → matches f topic = true →
  ParseRelayTopic topic = Some (t, b, c, d) → d = dir.
Proof.
  intros Hdir Hf. assert (Hh : hash ∉ f).
  { destruct Hdir as [-> | ->]; revert Hf; unfold RelayFilters; rewrite !elem_of_cons, elem_of_nil;
      intros [->|[->|[]]]; literal. }
  rewrite matches_spec by done. unfold ParseRelayTopic.
  assert (Hsp : split_on slash f = [str "meshsat"; str "relay"; [plus]; [plus]; dir] ∨
    split_on slash f = [str "meshsat"; [plus]; str "relay"; [plus]; [plus]; dir]).
  { destruct Hdir as [-> | ->]; revert Hf; unfold RelayFilters; rewrite !elem_of_cons, elem_of_nil;
      intros [->|[->|[]]]; [left|right|left|right]; reflexivity. }
  assert (Hp : dir ≠ [plus]) by (by destruct Hdir as [-> | ->]).
  destruct Hsp as [-> | ->]; destruct (split_on slash topic) as [|l1 [|l2 [|l3 [|l4 [|l5 [|l6 [|]]]]]]]; cbn [levels_match];
    rewrite ?andb_false_r, ?andb_true_r; try done.
  all: rewrite (bool_decide_false (dir = [plus])) by done; cbn [orb]; rewrite !andb_true_iff, !bool_decide_eq_true.
  all: intros Hm; destruct_and? Hm; subst; case_match; [|done]; unfold relay_parts; case_match; [done|]; congruence.
Qed.

(** Why a replica that is given a message writes a frame to a socket. *)
Definition written r (topic payload : list Z) (sid : nat) (frame : list Z) : Prop :=
  ∃ t b c d, ParseRelayTopic topic = Some (t, b, c, d) ∧
    (d = str "up" ∧ bridges r !! bridgeKey t b = Some sid ∧ EncodeEnvelope c payload = Ok frame ∨
     d = str "down" ∧ clients r !! clientKey t b c = Some sid ∧ frame = payload).

Lemma writes_only_mono (P Q : nat → list Z → Prop) evs :
  (∀ sid frame, P sid frame → Q sid frame) → writes_only P evs → writes_only Q evs.
Proof. intros HPQ Hw e [(sid & frame & -> & ?)|?]%Hw; [left|by right]. eauto. Qed.

Lemma subscription_spec s topic payload ok r :
  s ∈ subscriptions → matches s.1 topic = true →
  shrinks r (s.2 topic payload ok r).1 ∧ writes_only (written r topic payload) (s.2 topic payload ok r).2.
Proof.
  unfold subscriptions. intros [(f & -> & Hf)%list_elem_of_fmap|(f & -> & Hf)%list_elem_of_fmap]%elem_of_app Hm; cbn [fst snd] in *.
  - destruct (onUp_spec topic payload ok r) as [Hs Hw]. split; [done|]. revert Hw. apply writes_only_mono.
    intros sid frame (t & b & c & d & Hp & ? & ?). exists t, b, c, d. split; [done|left].
    split; [|done]. by apply (filter_direction f (str "up") topic t b c d); [left|..].
  - destruct (onDown_spec topic payload ok r) as [Hs Hw]. split; [done|]. revert Hw. apply writes_only_mono.
    intros sid frame (t & b & c & d & Hp & ? & ?). exists t, b, c, d. split; [done|right].
    split; [|done]. by apply (filter_direction f (str "down") topic t b c d); [right|..].
Qed.

Lemma written_shrinks r r' topic payload sid frame :
  shrinks r r' → written r' topic payload sid frame → written r topic payload sid frame.
Proof.
  intros (_ & Hb & Hc) (t & b & c & d & Hp & [(-> & Hk & ?)|(-> & Hk & ?)]); exists t, b, c; eexists; (split; [done|]).
  - left. split_and!; [done| |done]. by apply (lookup_weaken _ _ _ _ Hk).
  - right. split_and!; [done| |done]. by apply (lookup_weaken _ _ _ _ Hk).
Qed.

Lemma deliver_spec topic payload ok r :
  shrinks r (deliver topic payload ok r).1 ∧ writes_only (written r topic payload) (deliver topic payload ok r).2.
Proof.
  unfold deliver. pose proof (λ s r', subscription_spec s topic payload ok r') as Hsub.
  assert (Hx : shrinks r (r, @nil event).1 ∧ writes_only (written r topic payload) (r, @nil event).2)
    by (split; [done|by intros ? ?%elem_of_nil]).
  revert Hsub Hx. generalize (r, @nil event). induction subscriptions as [|s l IH]; intros x Hsub [Hs Hw]; [done|].
  cbn [foldl]. apply IH; [intros s' r' Hs'; apply Hsub, elem_of_cons; by right|].
  destruct (matches s.1 topic) eqn:E; [|done]. cbn [fst snd].
  destruct (Hsub s x.1 (list_elem_of_here _ _) E) as [Hs1 Hw1]. split; [by etrans|].
  intros e [He|He]%elem_of_app; [by apply Hw|]. revert e He. revert Hw1. apply writes_only_mono.
  intros sid frame. by apply written_shrinks.
Qed.

(** A replica writes only what it was given a message for. *)
Lemma step_wrote now o r sid frame :
  Wrote sid frame ∈ (step now o r).2 →
  ∃ topic payload ok, o = Deliver topic payload ok ∧ written r topic payload sid frame.
Proof.
  assert (Hq : ∀ evs, silent evs → Wrote sid frame ∉ evs) by (by intros evs Hs (? & ? & ?)%Hs).
  destruct o as [t b|t b c|sid' binary data ok|sid'|topic payload ok]; cbn [step].
  - unfold ServeBridge. cbn [fst snd]. intros He. exfalso. revert He. apply Hq.
    case_match; [apply close_quiet|apply silent_nil].
  - intros He. exfalso. revert He. apply Hq. destruct (Admit now t c r) as [[] r']; [|apply silent_nil].
    unfold ServeClient. cbn [fst snd]. case_match; [apply close_quiet|apply silent_nil].
  - intros He. exfalso. revert He.
    destruct (serving sid' r) as [s|]; [|by intros ?%elem_of_nil].
    destruct (s_role s); unfold read_bridge, read_client, publish; repeat case_match; cbn [fst snd].
    all: try (apply Hq, drop_with_quiet); rewrite ?list_elem_of_singleton; try done; by intros ?%elem_of_nil.
  - intros He. exfalso. revert He. apply Hq. case_match; [apply gone_quiet|apply silent_nil].
  - intros He. exists topic, payload, ok. split; [done|].
    destruct (deliver_spec topic payload ok r) as [_ Hw]. by destruct (Hw _ He) as [(? & ? & [= -> ->] & ?)|(? & ? & ?)].
Qed.

(** A replica publishes only what it read from a socket, under the names of the socket. *)
Definition source (ro : role) (t b c data topic payload : list Z) : Prop :=
  match ro with
  | RBridge => ∃ c', DecodeEnvelope data = Ok (c', payload) ∧ topic = RelayTopic t b c' (str "down")
  | RClient => payload = data ∧ topic = RelayTopic t b c (str "up")
  end.

Lemma step_published now o r topic payload :
  Published topic payload ∈ (step now o r).2 →
  ∃ sid data ok ro t b c, o = Read sid true data ok ∧ idents r !! sid = Some (ro, t, b, c) ∧
    source ro t b c data topic payload.
Proof.
  assert (Hq : ∀ evs, silent evs → Published topic payload ∉ evs) by (by intros evs Hs (? & ? & ?)%Hs).
  destruct o as [t b|t b c|sid' binary data ok|sid'|topic' payload' ok]; cbn [step].
  - unfold ServeBridge. cbn [fst snd]. intros He. exfalso. revert He. apply Hq.
    case_match; [apply close_quiet|apply silent_nil].
  - intros He. exfalso. revert He. apply Hq. destruct (Admit now t c r) as [[] r']; [|apply silent_nil].
    unfold ServeClient. cbn [fst snd]. case_match; [apply close_quiet|apply silent_nil].
  - unfold serving. destruct (heap r !! sid') as [s|] eqn:Es; [cbn|by intros ?%elem_of_nil].
    destruct (s_serving s); [|by intros ?%elem_of_nil].
    assert (Hi : idents r !! sid' = Some (s_role s, s_tenant s, s_bridge s, s_client s)) by (unfold idents; by rewrite lookup_fmap, Es).
    intros He. exists sid', data, ok, (s_role s), (s_tenant s), (s_bridge s), (s_client s).
    destruct (s_role s); revert He; unfold read_bridge, read_client, publish; destruct binary; cbn [negb];
      try (intros He; exfalso; revert He; apply Hq, drop_with_quiet).
    + destruct (DecodeEnvelope data) as [[c' p]|] eqn:Ed; [|intros He; exfalso; revert He; apply Hq, drop_with_quiet].
      destruct ok; [|by intros ?%elem_of_nil]. cbn [snd]. intros [= -> ->]%list_elem_of_singleton.
      split_and!; [done..|]. by exists c'.
    + destruct (allow now _ _ _) as [[] bu]; cbn [fst snd negb]; [|intros He; exfalso; revert He; apply Hq, drop_with_quiet].
      destruct ok; [|by intros ?%elem_of_nil]. intros [= -> ->]%list_elem_of_singleton. by split_and!.
  - intros He. exfalso. revert He. apply Hq. case_match; [apply gone_quiet|apply silent_nil].
  - intros He. destruct (deliver_spec topic' payload' ok r) as [_ Hw].
    by destruct (Hw _ He) as [(? & ? & ? & ?)|(? & ? & ?)].
Qed.

(** Opening a socket, when the one it supersedes is closed first. *)
Lemma open_idents sid x old code r :
  heap r !! sid = None →
  let r1 := r <| heap ::= <[sid := x]> |> in
  let y := match old with Some o => close o code r1 | None => (r1, []) end in
  idents y.1 = <[sid := ident x]> (idents r) ∧ bridges y.1 ⊆ bridges r ∧ clients y.1 ⊆ clients r.
Proof.
  intros Hn. cbn. set (r1 := r <| heap ::= <[sid := x]> |>).
  assert (H1 : shrinks r1 (match old with Some o => close o code r1 | None => (r1, []) end).1)
    by (destruct old; [apply close_quiet|done]).
  destruct H1 as (Hi & Hb & Hc). rewrite Hi. split_and!; [|done..]. unfold idents. cbn. by rewrite fmap_insert.
Qed.

Lemma fresh_session r : heap r !! fresh (dom (heap r)) = None.
Proof. apply not_elem_of_dom, is_fresh. Qed.

Lemma ServeBridge_ok t b r :
  stored_tenant t → ValidBridgeID b = true → relay_ok r →
  relay_ok (ServeBridge t b r).1 ∧ idents r ⊆ idents (ServeBridge t b r).1.
Proof.
  intros Ht Hb [Ob Oc On]. unfold ServeBridge. cbn [fst]. set (sid := fresh _).
  pose proof (fresh_session r) as Hf. fold sid in Hf.
  destruct (open_idents sid (Session RBridge t b [] false true) (bridges r !! bridgeKey t b) CloseSuperseded r Hf) as (Hi & Hbs & Hcs).
  cbv zeta in Hi, Hbs, Hcs |- *. change (bridges (r <| heap ::= _ |>)) with (bridges r).
  set (y := match bridges r !! bridgeKey t b with Some _ => _ | None => _ end) in *.
  assert (Hx : idents (y.1 <| bridges ::= <[bridgeKey t b := sid]> |>) = <[sid := (RBridge, t, b, [])]> (idents r)) by exact Hi.
  assert (Hnone : idents r !! sid = None) by (unfold idents; by rewrite lookup_fmap, Hf).
  split; [|rewrite Hx; by apply insert_subseteq]. split; rewrite Hx.
  - cbn. intros k s [[<- <-]|[? Hk]]%lookup_insert_Some; [exists t, b, []; by rewrite lookup_insert_eq|].
    destruct (Ob k s) as (t' & b' & c' & ? & ?); [by apply (lookup_weaken _ _ _ _ Hk)|]. exists t', b', c'.
    by rewrite lookup_insert_ne by congruence.
  - cbn. intros k s Hk. destruct (Oc k s) as (t' & b' & c' & ? & ?); [by apply (lookup_weaken _ _ _ _ Hk)|].
    exists t', b', c'. by rewrite lookup_insert_ne by congruence.
  - intros s x [[<- <-]|[? Hk]]%lookup_insert_Some; [by split_and!|by apply (On s)].
Qed.

Lemma ServeClient_ok t b c r :
  stored_tenant t → ValidBridgeID b = true → ValidBridgeID c = true → relay_ok r →
  relay_ok (ServeClient t b c r).1 ∧ idents r ⊆ idents (ServeClient t b c r).1.
Proof.
  intros Ht Hb Hc [Ob Oc On]. unfold ServeClient. cbn [fst]. set (sid := fresh _).
  pose proof (fresh_session r) as Hf. fold sid in Hf.
  destruct (open_idents sid (Session RClient t b c false true) (clients r !! clientKey t b c) CloseSuperseded r Hf) as (Hi & Hbs & Hcs).
  cbv zeta in Hi, Hbs, Hcs |- *. change (clients (r <| heap ::= _ |>)) with (clients r).
  set (y := match clients r !! clientKey t b c with Some _ => _ | None => _ end) in *.
  assert (Hx : idents (y.1 <| clients ::= <[clientKey t b c := sid]> |>) = <[sid := (RClient, t, b, c)]> (idents r)) by exact Hi.
  assert (Hnone : idents r !! sid = None) by (unfold idents; by rewrite lookup_fmap, Hf).
  split; [|rewrite Hx; by apply insert_subseteq]. split; rewrite Hx.
  - cbn. intros k s Hk. destruct (Ob k s) as (t' & b' & c' & ? & ?); [by apply (lookup_weaken _ _ _ _ Hk)|].
    exists t', b', c'. by rewrite lookup_insert_ne by congruence.
  - cbn. intros k s [[<- <-]|[? Hk]]%lookup_insert_Some; [exists t, b, c; by rewrite lookup_insert_eq|].
    destruct (Oc k s) as (t' & b' & c' & ? & ?); [by apply (lookup_weaken _ _ _ _ Hk)|]. exists t', b', c'.
    by rewrite lookup_insert_ne by congruence.
  - intros s x [[<- <-]|[? Hk]]%lookup_insert_Some; [by split_and!|by apply (On s)].
Qed.

Lemma shrinks_keeps r r' : shrinks r r' → relay_ok r → relay_ok r' ∧ idents r ⊆ idents r'.
Proof. intros Hs Hr. split; [by apply (shrinks_ok r)|]. destruct Hs as (-> & _). done. Qed.

(** The invariant is kept by every step, and no socket changes its names. *)
Lemma step_ok log now o r :
  op_ok log o → relay_ok r → relay_ok (step now o r).1 ∧ idents r ⊆ idents (step now o r).1.
Proof.
  intros Ho Hr. destruct o as [t b|t b c|sid binary data ok|sid|topic payload ok]; cbn [step op_ok] in *.
  - destruct Ho. by apply ServeBridge_ok.
  - destruct Ho as (? & ? & ?). unfold Admit. destruct (allow now _ _ _) as [[] bu]; cbn [fst snd];
      destruct (shrinks_keeps r (r <| budget := bu |>)) as [Hr1 Hr2]; try done.
    destruct (ServeClient_ok t b c (r <| budget := bu |>)) as [Hr3 Hr4]; [done..|]. split; [done|]. by etrans.
  - apply shrinks_keeps; [|done]. unfold serving. destruct (heap r !! sid) as [s|]; [cbn|done].
    destruct (s_serving s); [|done]. destruct (s_role s); unfold read_bridge, read_client, publish; destruct binary; cbn [negb].
    + destruct (DecodeEnvelope data) as [[]|]; [done|apply drop_with_quiet].
    + apply drop_with_quiet.
    + destruct (allow now _ _ _) as [[] bu]; cbn [fst snd negb]; [done|].
      etrans; [|apply drop_with_quiet]. done.
    + apply drop_with_quiet.
  - apply shrinks_keeps; [|done]. case_match; [apply gone_quiet|done].
  - apply shrinks_keeps; [|done]. apply deliver_spec.
Qed.

End replica.

(** ** Names in keys and topics *)

Lemma slash_app_inj (x y x' y' : list Z) :
  slash ∉ x → slash ∉ x' → x ++ str "/" ++ y = x' ++ str "/" ++ y' → x = x' ∧ y = y'.
Proof.
  revert x'. induction x as [|a x IH]; intros [|a' x'] Hx Hx' He; cbn in He; rewrite ?not_elem_of_cons in *.
  - by simplify_eq.
  - injection He as <- _. naive_solver.
  - injection He as -> _. naive_solver.
  - injection He as <- He. destruct Hx, Hx'. destruct (IH x') as [-> ->]; done.
Qed.

Lemma tenant_slash t : stored_tenant t → slash ∉ t.
Proof.
  intros [Ht He]. destruct (tenant_shape _ Ht) as [Hd|]; [|done]. unfold tenant_of in He. rewrite Hd in He. subst. literal.
Qed.

Lemma valid_slash id : ValidBridgeID id = true → slash ∉ id.
Proof. intros Hv. apply (valid_free _ _ Hv). by left. Qed.

(** The topics the relay publishes name the tunnel. *)
Lemma parse_own t b c dir :
  stored_tenant t → ValidBridgeID b = true → c ≠ [] → dir = str "up" ∨ dir = str "down" →
  ParseRelayTopic (RelayTopic t b c dir) = Some (t, b, c, dir).
Proof.
  intros [Ht He] Hb Hc Hd. rewrite parse_relay, He; [done| |by apply valid_ne|done..].
  destruct Ht as [|[]]; auto.
Qed.

Lemma decode_client frame c p : DecodeEnvelope frame = Ok (c, p) → c ≠ [].
Proof.
  unfold DecodeEnvelope. repeat case_match; intros; simplify_eq. intros Hc. apply (f_equal length) in Hc. revert Hc.
  repeat match goal with H : (_ || _) = false |- _ => apply orb_false_iff in H as [? ?] end.
  match goal with H : (_ =? 0)%nat = false |- _ => apply Nat.eqb_neq in H end.
  match goal with H : (_ <? 2 + _)%nat = false |- _ => apply Nat.ltb_ge in H end.
  rewrite sub_length by lia. cbn [length]. lia.
Qed.

(** What a bridge publishes by itself on a relay topic is for a bridge of its tenant that is
    called mo, status or sms. *)
Lemma sent_relay `{Broker} t b topic t' b' c d :
  tenant_name t → ValidBridgeID b = true → plain topic → publishes t b topic = true →
  ParseRelayTopic topic = Some (t', b', c, d) → t' = tenant_of t ∧ b' ∈ report_trees.
Proof.
  intros Ht Hb Hp Hpub Hparse. apply publishes_iff in Hpub as (l & Hl & Hg & _); [|done..].
  assert (Htree : ∀ k, k ∈ report_trees → DecodeSegment k = k ∧ k ≠ str "bridge") by (intros k; by apply tree_names).
  assert (Hrel : str "relay" ∉ report_trees) by literal.
  assert (Hparts : ∀ u p q e, relay_parts u p q e = Some (t', b', c, d) → u = t' ∧ b' = DecodeSegment p).
  { intros u p q e. unfold relay_parts. case_match; [done|]. by intros [= -> <- _ _]. }
  revert Hparse. unfold ParseRelayTopic, tenant_of. rewrite Hl. unfold root. destruct (is_default t) eqn:E; cbn [app].
  - destruct l as [|l1 [|l2 [|l3 [|l4 [|l5 [|]]]]]]; try done; case_match eqn:Em; try done; intros [<- ->]%Hparts;
      rewrite !andb_true_iff, ?negb_true_iff, !bool_decide_eq_true in Em; destruct_and? Em; subst.
    + split; [done|].
      apply granted_inv in Hg as [(x & r & Hg)|[(d' & k & Hg & _)|[(d' & k & x & r & Hg & Hk)|(d' & Hg)]]]; simplify_eq; try done.
      by rewrite (proj1 (Htree _ Hk)).
    + exfalso. apply granted_inv in Hg as [(x & r & Hg)|[(d' & k & Hg & _)|[(d' & k & x & r & Hg & Hk)|(d' & Hg)]]]; simplify_eq; done.
  - destruct Ht as [?|[(_ & _ & Hr) _]]; [congruence|].
    destruct l as [|l1 [|l2 [|l3 [|l4 [|]]]]]; try done; case_match eqn:Em; try done; intros [<- ->]%Hparts;
      rewrite !andb_true_iff, ?negb_true_iff, !bool_decide_eq_true in Em; destruct_and? Em; subst.
    + done.
    + split; [done|].
      apply granted_inv in Hg as [(x & r & Hg)|[(d' & k & Hg & _)|[(d' & k & x & r & Hg & Hk)|(d' & Hg)]]]; simplify_eq; try done.
      by rewrite (proj1 (Htree _ Hk)).
Qed.

End Relay.
