(* ===== verification/RelaySystem.v ===== *)
(** The relay as a whole: replicas that share the bus, and bridges that publish on the broker
    by themselves.  Every frame the relay writes is traced to the socket it was read from;
    frames of an open tunnel arrive; the budget of a replica caps what a client sends. *)
From stdpp Require Import functions.
From S2P Require Import Prelude Fields Text Topics Wire NatsAuth Relay.
Import Fields.

Module RelaySystem.
Import Text Topics NatsAuth Envelope Relay.

(** ** Histories *)

Section system.
Context {B : Type} `{Budget B} `{Bus} `{Broker} (b0 : B) (opt : Z).

Lemma history_ok log R i : history b0 opt log R → relay_ok (R i).
Proof.
  intros Hh. revert i. induction Hh as [|log R j now o r' evs Hh IH Ho Hs|]; intros i; [|..].
  - split; cbn; unfold idents; cbn; intros *; rewrite ?fmap_empty, lookup_empty; done.
  - destruct (decide (i = j)) as [->|]; [rewrite fn_lookup_insert|by rewrite fn_lookup_insert_ne].
    replace r' with (step now o (R j)).1 by (by rewrite Hs). by apply (step_ok log).
  - done.
Qed.

(** Where a message on the bus comes from: a socket some replica read it from, or a bridge
    that the broker let publish it. *)
Definition read_from (log : list entry) (R : nat → Relay B) (topic payload : list Z) : Prop :=
  ∃ j sid data ok evs ro t b c, Did j (Read sid true data ok) evs ∈ log ∧
    idents (R j) !! sid = Some (ro, t, b, c) ∧ source ro t b c data topic payload.

Definition sent_by_bridge (topic : list Z) : Prop :=
  ∃ t b, tenant_name t ∧ ValidBridgeID b = true ∧ plain topic ∧ publishes t b topic = true.

Lemma read_from_mono log log' R R' topic payload :
  (∀ j, idents (R j) ⊆ idents (R' j)) → read_from log R topic payload → read_from (log ++ log') R' topic payload.
Proof.
  intros HR (j & sid & data & ok & evs & ro & t & b & c & Hd & Hi & Hs). exists j, sid, data, ok, evs, ro, t, b, c.
  split_and!; [apply elem_of_app; by left| |done]. by apply (lookup_weaken _ _ _ _ Hi).
Qed.

Lemma step_grows log R i now o :
  history b0 opt log R → op_ok log o → ∀ j, idents (R j) ⊆ idents ((<[i := (step now o (R i)).1]> R) j).
Proof.
  intros Hh Ho j. destruct (decide (j = i)) as [->|]; [rewrite fn_lookup_insert|by rewrite fn_lookup_insert_ne].
  by apply (step_ok log); [|apply (history_ok log)].
Qed.

Lemma bus_origin log R topic payload :
  history b0 opt log R → on_bus log topic payload → read_from log R topic payload ∨ sent_by_bridge topic.
Proof.
  induction 1 as [|log R i now o r' evs Hh IH Ho Hs|log R t b top pay Hh IH Ht Hb Hp Hpub].
  - by intros [(? & ? & ? & ?%elem_of_nil & _)|(? & ? & ?%elem_of_nil)].
  - assert (Hr : r' = (step now o (R i)).1 ∧ evs = (step now o (R i)).2) by (by rewrite Hs). destruct Hr as [-> ->].
    pose proof (step_grows log R i now o Hh Ho) as Hg. intros Hon.
    assert (on_bus log topic payload ∨ Published topic payload ∈ (step now o (R i)).2) as [Hold|Hnew].
    { destruct Hon as [(j & o' & evs & Hd & He)|(t & b & Hd)].
      - apply elem_of_app in Hd as [Hd|[= -> -> ->]%list_elem_of_singleton]; [|by right]. left; left. by exists j, o', evs.
      - apply elem_of_app in Hd as [Hd|?%list_elem_of_singleton]; [|done]. left; right. by exists t, b. }
    + destruct (IH Hold); [left|by right]. by apply (read_from_mono log _ R).
    + left. apply step_published in Hnew as (sid & data & ok & ro & t & b & c & -> & Hi & Hsrc).
      exists i, sid, data, ok, (step now (Read sid true data ok) (R i)).2, ro, t, b, c.
      split_and!; [apply elem_of_app; right; by apply list_elem_of_singleton| |done]. by apply (lookup_weaken _ _ _ _ Hi).
  - intros [(j & o' & evs & Hd & He)|(t' & b' & Hd)].
    + apply elem_of_app in Hd as [Hd|?%list_elem_of_singleton]; [|done].
      destruct IH as [IH|]; [left; by exists j, o', evs|left|by right]. by apply (read_from_mono log _ R).
    + apply elem_of_app in Hd as [Hd|[= -> -> -> ->]%list_elem_of_singleton].
      * destruct IH as [IH|]; [right; by exists t', b'|left|by right]. by apply (read_from_mono log _ R).
      * right. by exists t, b.
Qed.

(** The tunnel a message names. *)
Lemma source_parse log R ro t b c j sid data topic payload :
  history b0 opt log R → idents (R j) !! sid = Some (ro, t, b, c) → source ro t b c data topic payload →
  match ro with
  | RBridge => ∃ c', ParseRelayTopic topic = Some (t, b, c', str "down") ∧ DecodeEnvelope data = Ok (c', payload)
  | RClient => ParseRelayTopic topic = Some (t, b, c, str "up") ∧ payload = data
  end.
Proof.
  intros Hh Hi Hsrc. destruct (ok_named _ (history_ok log R j Hh) _ _ Hi) as (Ht & Hb & Hc). destruct ro; cbn in Hsrc.
  - destruct Hsrc as (c' & Hd & ->). exists c'. split; [|done]. apply parse_own; [done..| |by right]. by apply decode_client in Hd.
  - destruct Hsrc as [-> ->]. split; [|done]. apply parse_own; [done..| |by left]. by apply valid_ne, Hc.
Qed.

(** The socket a message is for, and where the message is from. *)
Definition genuine (log : list entry) (R : nat → Relay B) (ro : role) (t b c frame : list Z) : Prop :=
  ∃ j sid data ok evs, Did j (Read sid true data ok) evs ∈ log ∧
    match ro with
    | RClient => ∃ c', idents (R j) !! sid = Some (RBridge, t, b, c') ∧ DecodeEnvelope data = Ok (c, frame)
    | RBridge => ∃ c', idents (R j) !! sid = Some (RClient, t, b, c') ∧ EncodeEnvelope c' data = Ok frame
    end.

Lemma tree_slash k : k ∈ report_trees → slash ∉ k.
Proof. unfold report_trees. cbn. rewrite !elem_of_cons, elem_of_nil. intros [->|[->|[->|[]]]]; literal. Qed.

Lemma tenant_of_slash t : tenant_name t → slash ∉ tenant_of t.
Proof. intros Ht. unfold tenant_of. destruct (tenant_shape _ Ht) as [->|]; [literal|]. case_match; [literal|done]. Qed.

Lemma up_not_down : str "up" ≠ str "down".
Proof. done. Qed.

Lemma written_bridge log R i topic payload sid frame t b c :
  history b0 opt log R → on_bus log topic payload →
  ParseRelayTopic topic = Some (t, b, c, str "up") → bridges (R i) !! bridgeKey t b = Some sid →
  EncodeEnvelope c payload = Ok frame →
  ∃ c', idents (R i) !! sid = Some (RBridge, t, b, c') ∧ (b ∈ report_trees ∨ genuine log R RBridge t b c' frame).
Proof.
  intros Hh Ho Hp Hk Hf. pose proof (history_ok log R i Hh) as Hi.
  destruct (ok_bridges _ Hi _ _ Hk) as (t1 & b1 & c1 & Hid & Hkey). destruct (ok_named _ Hi _ _ Hid) as (Ht1 & _ & _).
  destruct (bus_origin log R topic payload Hh Ho) as [(j & sid' & data & ok & evs & ro & t2 & b2 & c2 & Hd & Hi2 & Hsrc)|Hsent].
  - pose proof (source_parse _ _ _ _ _ _ _ _ _ _ _ Hh Hi2 Hsrc) as Hsp.
    destruct (ok_named _ (history_ok log R j Hh) _ _ Hi2) as (Ht2 & _ & _).
    destruct ro; [pose proof up_not_down; destruct Hsp as (c' & ? & _); congruence|]. destruct Hsp as [Hsp ->]. rewrite Hsp in Hp. simplify_eq.
    apply slash_app_inj in Hkey as [-> ->]; [|by apply tenant_slash..]. exists c1. split; [done|right].
    exists j, sid', data, ok, evs. split; [done|]. by exists c.
  - destruct Hsent as (t2 & b2 & Ht2 & ? & ? & ?). destruct (sent_relay t2 b2 topic t b c (str "up")) as [-> Hb]; [done..|].
    apply slash_app_inj in Hkey as [-> ->]; [|by apply tenant_of_slash|by apply tenant_slash]. exists c1. auto.
Qed.

Lemma written_client log R i topic payload sid t b c :
  history b0 opt log R → on_bus log topic payload →
  ParseRelayTopic topic = Some (t, b, c, str "down") → clients (R i) !! clientKey t b c = Some sid →
  idents (R i) !! sid = Some (RClient, t, b, c) ∧ (b ∈ report_trees ∨ genuine log R RClient t b c payload).
Proof.
  intros Hh Ho Hp Hk. pose proof (history_ok log R i Hh) as Hi.
  destruct (ok_clients _ Hi _ _ Hk) as (t1 & b1 & c1 & Hid & Hkey). destruct (ok_named _ Hi _ _ Hid) as (Ht1 & Hb1 & _).
  destruct (bus_origin log R topic payload Hh Ho) as [(j & sid' & data & ok & evs & ro & t2 & b2 & c2 & Hd & Hi2 & Hsrc)|Hsent].
  - pose proof (source_parse _ _ _ _ _ _ _ _ _ _ _ Hh Hi2 Hsrc) as Hsp.
    destruct (ok_named _ (history_ok log R j Hh) _ _ Hi2) as (Ht2 & Hb2 & _).
    destruct ro; [|pose proof up_not_down; destruct Hsp as [? _]; congruence]. destruct Hsp as (c' & Hsp & Hdec). rewrite Hsp in Hp. simplify_eq.
    apply slash_app_inj in Hkey as [-> Hkey]; [|by apply tenant_slash..].
    apply slash_app_inj in Hkey as [-> ->]; [|by apply valid_slash..]. split; [done|right].
    exists j, sid', data, ok, evs. split; [done|]. by exists c2.
  - destruct Hsent as (t2 & b2 & Ht2 & ? & ? & ?). destruct (sent_relay t2 b2 topic t b c (str "down")) as [-> Hb]; [done..|].
    apply slash_app_inj in Hkey as [-> Hkey]; [|by apply tenant_of_slash|by apply tenant_slash].
    apply slash_app_inj in Hkey as [-> ->]; [|by apply tree_slash|by apply valid_slash]. auto.
Qed.

Lemma genuine_mono log R R' ro t b c frame :
  (∀ j, idents (R j) ⊆ idents (R' j)) → genuine log R ro t b c frame → genuine log R' ro t b c frame.
Proof.
  intros HR (j & sid & data & ok & evs & Hd & Hro). exists j, sid, data, ok, evs. split; [done|].
  destruct ro; destruct Hro as (c' & Hi & ?); exists c'; (split; [|done]); by apply (lookup_weaken _ _ _ _ Hi).
Qed.

(** The last step of a history. *)
Lemma history_last log R i o evs :
  history b0 opt (log ++ [Did i o evs]) R →
  ∃ R' now, history b0 opt log R' ∧ op_ok log o ∧ evs = (step now o (R' i)).2 ∧ R = <[i := (step now o (R' i)).1]> R'.
Proof.
  intros Hh. inversion Hh as [Hl|log' R' i' now o' r' evs' Hh' Ho Hs Hl|log' R' t b topic payload Hh' _ _ _ _ Hl].
  - by destruct log.
  - apply app_inj_tail in Hl as [-> [= -> -> ->]]. exists R', now. by rewrite Hs.
  - by apply app_inj_tail in Hl as [_ ?].
Qed.

(** C19: Whatever the replicas, the bus and the bridges do, a frame the relay writes to a client
    is the payload of an envelope that the client's own bridge sent it through its socket, and
    a frame it writes to a bridge is the envelope, under that client's id, of a frame that a
    client of that tenant sent for this bridge through its socket.  Only a bridge called mo,
    status or sms can get, or seem to send, anything else. *)
Theorem relay_frames_authentic log R i o evs sid frame :
  history b0 opt (log ++ [Did i o evs]) R → Wrote sid frame ∈ evs →
  ∃ ro t b c, idents (R i) !! sid = Some (ro, t, b, c) ∧
    (b ∈ report_trees ∨
     ∃ j sid' data ok evs', Did j (Read sid' true data ok) evs' ∈ log ∧
       match ro with
       | RClient => ∃ c', idents (R j) !! sid' = Some (RBridge, t, b, c') ∧ DecodeEnvelope data = Ok (c, frame)
       | RBridge => ∃ c', idents (R j) !! sid' = Some (RClient, t, b, c') ∧ EncodeEnvelope c' data = Ok frame
       end).
Proof.
  intros (R' & now & Hh & Ho & -> & ->)%history_last Hw.
  pose proof (step_grows log R' i now o Hh Ho) as Hg.
  apply step_wrote in Hw as (topic & payload & ok & -> & t & b & c & d & Hp & [(-> & Hk & Hf)|(-> & Hk & ->)]); cbn [op_ok] in Ho.
  - destruct (written_bridge log R' i topic payload sid frame t b c) as (c' & Hid & Hor); [done..|]. exists RBridge, t, b, c'.
    split; [by apply (lookup_weaken _ _ _ _ Hid)|]. destruct Hor as [|Hor]; [by left|right].
    exact (genuine_mono log R' _ RBridge t b c' frame Hg Hor).
  - destruct (written_client log R' i topic payload sid t b c) as (Hid & Hor); [done..|]. exists RClient, t, b, c.
    split; [by apply (lookup_weaken _ _ _ _ Hid)|]. destruct Hor as [|Hor]; [by left|right].
    exact (genuine_mono log R' _ RClient t b c payload Hg Hor).
Qed.

End system.

(** ** Frames arrive *)

Section tunnel.
Context {B : Type} `{Budget B} `{Bus}.
Implicit Types r : Relay B.

Lemma split_relay t b c dir :
  is_default t = true ∨ slash ∉ t → slash ∉ dir →
  split_on slash (RelayTopic t b c dir) = root t ++ [str "relay"; EncodeSegment b; EncodeSegment c; dir].
Proof.
  intros Ht Hd. unfold RelayTopic, root. change (str "/relay/" ++ ?x) with (str "/" ++ str "relay" ++ str "/" ++ x).
  rewrite split_namespace, split_app_slash by (done || literal). rewrite !split_app_slash by apply slash_encode.
  by rewrite (split_on_free _ dir).
Qed.

Lemma levels_same p pat lv : levels_match (p :: pat) (p :: lv) = levels_match pat lv.
Proof. cbn. by rewrite (bool_decide_true (p = p)), orb_true_r. Qed.

Lemma levels_plus l pat lv : levels_match ([plus] :: pat) (l :: lv) = levels_match pat lv.
Proof. done. Qed.

Lemma levels_last p l : p ≠ [plus] → levels_match [p] [l] = bool_decide (p = l).
Proof. intros Hp. cbn. by rewrite (bool_decide_false (p = [plus])), andb_true_r. Qed.

Lemma levels_length pat lv : length pat ≠ length lv → levels_match pat lv = false.
Proof.
  revert lv. induction pat as [|p pat IH]; intros [|l lv]; try done. cbn [length levels_match]. intros Hl.
  rewrite IH by congruence. apply andb_false_r.
Qed.

(** Which filters a topic of the relay matches. *)
Lemma filter_levels t b c dir dir' topic :
  dir' = str "up" ∨ dir' = str "down" → split_on slash topic = root t ++ [str "relay"; b; c; dir] →
  matches (str "meshsat/relay/+/+/" ++ dir') topic = is_default t && bool_decide (dir' = dir) ∧
  matches (str "meshsat/+/relay/+/+/" ++ dir') topic = negb (is_default t) && bool_decide (dir' = dir).
Proof.
  intros Hdir Hsp. rewrite !matches_spec, Hsp by (destruct Hdir as [-> | ->]; literal).
  replace (split_on slash (str "meshsat/relay/+/+/" ++ dir')) with [str "meshsat"; str "relay"; [plus]; [plus]; dir']
    by (by destruct Hdir as [-> | ->]).
  replace (split_on slash (str "meshsat/+/relay/+/+/" ++ dir')) with [str "meshsat"; [plus]; str "relay"; [plus]; [plus]; dir']
    by (by destruct Hdir as [-> | ->]).
  assert (Hp : dir' ≠ [plus]) by (by destruct Hdir as [-> | ->]).
  unfold root. destruct (is_default t); cbn [app andb negb]; split.
  1, 4: by rewrite ?levels_same, !levels_plus, ?levels_same, ?levels_plus, levels_last.
  all: by apply levels_length.
Qed.

(** A message of the relay goes to the handler of its direction, once. *)
Lemma deliver_own t b c dir payload ok r :
  tenant_name t → dir = str "up" ∨ dir = str "down" →
  deliver (RelayTopic t b c dir) payload ok r =
    (if bool_decide (dir = str "up") then onUp else onDown) (RelayTopic t b c dir) payload ok r.
Proof.
  intros Ht Hdir. assert (Hd : slash ∉ dir) by (destruct Hdir as [-> | ->]; literal).
  pose proof (split_relay t b c dir (tenant_shape _ Ht) Hd) as Hsp. revert Hsp. generalize (RelayTopic t b c dir). intros topic Hsp.
  unfold deliver, subscriptions, RelayFilters. cbn [fmap list_fmap app foldl fst snd].
  destruct (filter_levels t _ _ dir (str "up") topic (or_introl eq_refl) Hsp) as [-> ->].
  destruct (filter_levels t _ _ dir (str "down") topic (or_intror eq_refl) Hsp) as [-> ->].
  pose proof up_not_down. destruct Hdir as [-> | ->], (is_default t); cbn [negb andb];
    rewrite ?(bool_decide_true (str "up" = str "up")), ?(bool_decide_true (str "down" = str "down")),
      ?(bool_decide_false (str "up" = str "down")), ?(bool_decide_false (str "down" = str "up")) by congruence;
    cbn [app fst snd]; by rewrite <- surjective_pairing.
Qed.

(** An open socket of a replica, in the table of its role. *)
Definition holds_bridge r (sid : nat) (t b : list Z) : Prop :=
  heap r !! sid = Some (Session RBridge t b [] false true) ∧ bridges r !! bridgeKey t b = Some sid.

Definition holds_client r (sid : nat) (t b c : list Z) : Prop :=
  heap r !! sid = Some (Session RClient t b c false true) ∧ clients r !! clientKey t b c = Some sid.

Lemma encode_valid c data :
  ValidBridgeID c = true → EncodeEnvelope c data = Ok ([envelopeVersion; Zlen c] ++ c ++ data).
Proof.
  intros Hv. destruct (valid_ne _ Hv) as [Hne _]. unfold ValidBridgeID, validIdent in Hv.
  apply andb_true_iff in Hv as [Hv _]. apply andb_true_iff in Hv as [Hv _]. apply andb_true_iff in Hv as [_ Hl%Z.leb_le].
  unfold EncodeEnvelope, MaxClientID, Zlen. destruct c as [|x c]; [done|].
  rewrite (proj2 (Z.ltb_ge _ _)) by lia. by rewrite u8_small by (unfold byte_ok; lia).
Qed.

Lemma deliver_up t b c payload sid r :
  stored_tenant t → ValidBridgeID b = true → ValidBridgeID c = true → holds_bridge r sid t b →
  deliver (RelayTopic t b c (str "up")) payload true r = (r, [Wrote sid ([envelopeVersion; Zlen c] ++ c ++ payload)]).
Proof.
  intros Ht Hb Hc [Hh Hk]. rewrite deliver_own by (apply Ht || auto). rewrite bool_decide_true by done.
  unfold onUp. rewrite parse_own by (done || auto || by apply valid_ne). rewrite Hk, encode_valid by done.
  unfold write_or_close, write. by rewrite Hh.
Qed.

Lemma deliver_down t b c payload sid r :
  stored_tenant t → ValidBridgeID b = true → ValidBridgeID c = true → holds_client r sid t b c →
  deliver (RelayTopic t b c (str "down")) payload true r = (r, [Wrote sid payload]).
Proof.
  intros Ht Hb Hc [Hh Hk]. rewrite deliver_own by (apply Ht || auto). rewrite bool_decide_false by done.
  unfold onDown. rewrite parse_own by (done || auto || by apply valid_ne). rewrite Hk.
  unfold write_or_close, write. by rewrite Hh.
Qed.

(** C22: A tunnel between two replicas carries frames both ways.  While the client's socket is
    open on one replica and the bridge's on another, a frame the client sends within its budget
    is published once, and the replica of the bridge writes the bridge exactly one envelope that
    decodes to the client's id and the frame; what the bridge answers in an envelope for this
    client reaches the client's socket unchanged.  The sockets stay as they are. *)
Theorem relay_tunnel_carries now r1 r2 t b c sc sb data reply :
  stored_tenant t → ValidBridgeID b = true → ValidBridgeID c = true →
  holds_client r1 sc t b c → holds_bridge r2 sb t b →
  (allow now (budgetKey t c) (frames r1) (budget r1)).1 = true →
  let up := RelayTopic t b c (str "up") in
  let down := RelayTopic t b c (str "down") in
  let r1' := (step now (Read sc true data true) r1).1 in
  ∃ frame answer,
    (step now (Read sc true data true) r1).2 = [Published up data] ∧
    step now (Deliver up data true) r2 = (r2, [Wrote sb frame]) ∧ DecodeEnvelope frame = Ok (c, data) ∧
    EncodeEnvelope c reply = Ok answer ∧
    step now (Read sb true answer true) r2 = (r2, [Published down reply]) ∧
    step now (Deliver down reply true) r1' = (r1', [Wrote sc reply]) ∧ holds_client r1' sc t b c.
Proof.
  intros Ht Hb Hc [Hh1 Hk1] [Hh2 Hk2] Ha. cbv zeta.
  set (x := allow now (budgetKey t c) (frames r1) (budget r1)) in *.
  assert (Hdec : ∀ p, DecodeEnvelope ([envelopeVersion; Zlen c] ++ c ++ p) = Ok (c, p)).
  { intros p. destruct (valid_ne _ Hc) as [Hne _]. apply DecodeEnvelope_frame; [done|].
    unfold ValidBridgeID, validIdent in Hc. rewrite !andb_true_iff in Hc. unfold Zlen. destruct Hc as [[[_ Hl%Z.leb_le] _] _]. lia. }
  assert (Hs : step now (Read sc true data true) r1 = (r1 <| budget := x.2 |>, [Published (RelayTopic t b c (str "up")) data])).
  { cbn [step]. unfold serving. rewrite Hh1. cbn [mbind option_bind s_serving s_role]. unfold read_client. cbn [negb s_tenant s_client s_bridge].
    fold x. by rewrite Ha. }
  exists ([envelopeVersion; Zlen c] ++ c ++ data), ([envelopeVersion; Zlen c] ++ c ++ reply). rewrite Hs. cbn [fst snd].
  split_and!; [done| |by apply Hdec|by apply encode_valid| | |by split].
  - cbn [step]. by apply deliver_up.
  - cbn [step]. unfold serving. rewrite Hh2. cbn [mbind option_bind s_serving s_role]. unfold read_bridge. by rewrite Hdec.
  - cbn [step]. by apply deliver_down.
Qed.

(** Any bridge of a tenant can make the relay write frames to a bridge of that tenant that is
    called mo, status or sms in the name of any client, without a socket and without budget:
    the device grants cover the relay topics of such a bridge. *)
Theorem relay_frame_forged `{Broker} t b' b c payload sid r :
  stored_tenant t → ValidBridgeID b' = true → b ∈ report_trees → ValidBridgeID c = true → holds_bridge r sid t b →
  publishes t b' (RelayTopic t b c (str "up")) = true ∧
  deliver (RelayTopic t b c (str "up")) payload true r = (r, [Wrote sid ([envelopeVersion; Zlen c] ++ c ++ payload)]).
Proof.
  intros Ht Hb' Hb Hc Hr.
  assert (Hv : ValidBridgeID b = true ∧ granted b' [str "relay"; b; c; str "up"] = true).
  { revert Hb. unfold report_trees. cbn [fmap list_fmap]. rewrite !elem_of_cons, elem_of_nil.
    intros [->|[->|[->|[]]]]; (split; [reflexivity|]); unfold granted, grants;
      change (existsb ?f (?x :: ?l)) with (f x || existsb f l); rewrite existsb_app; apply orb_true_iff; right;
      apply orb_true_iff; right; cbn; by rewrite ?orb_true_r. }
  destruct Hv as [Hv Hg]. split; [|by apply deliver_up].
  assert (Hsl : is_default t = true ∨ slash ∉ t) by (apply tenant_shape, Ht).
  assert (Hsp := split_relay t b c (str "up") Hsl ltac:(literal)). rewrite !valid_encode in Hsp by done.
  apply publishes_iff; [apply Ht|done| |].
  - split; [|unfold RelayTopic; rewrite !publish_app, !publish_encode, tenant_publishable by apply Ht; done].
    rewrite Hsp. apply Forall_app. split; [by apply root_levels, Ht|].
    repeat constructor; try literal; try (by apply valid_level); done.
  - eexists. split; [exact Hsp|]. split; [done|]. reflexivity.
Qed.

End tunnel.

(** ** The budget of one replica *)

(** The calls of [Allow] on one budget, with their answers. *)
Fixpoint spend (limit : Z) (b : MemoryBudget) (calls : list (Z * list Z)) : list (Z * list Z * bool) :=
  match calls with
  | [] => []
  | (now, key) :: calls => let x := Allow now key limit b in (now, key, x.1) :: spend limit x.2 calls
  end.

(** How many frames of a key passed in a minute. *)
Fixpoint passed (key : list Z) (minute : Z) (log : list (Z * list Z * bool)) : Z :=
  match log with
  | [] => 0
  | (now, k, ok) :: log =>
      (if bool_decide (k = key) && (now ÷ 60 =? minute) && ok then 1 else 0) + passed key minute log
  end.

(** A clock that does not go back. *)
Fixpoint clock_from (lo : Z) (calls : list (Z * list Z)) : Prop :=
  match calls with [] => True | (now, _) :: calls => lo <= now ∧ clock_from now calls end.

Definition used (b : MemoryBudget) (key : list Z) (minute : Z) : Z :=
  if w_minute (window_of b key) =? minute then w_count (window_of b key) else 0.

Definition budget_ok (b : MemoryBudget) (lo : Z) : Prop :=
  ∀ key, 0 <= w_count (window_of b key) ∧ (w_count (window_of b key) = 0 ∨ w_minute (window_of b key) <= lo ÷ 60).

Lemma passed_later limit b key minute lo calls :
  clock_from lo calls → minute < lo ÷ 60 → passed key minute (spend limit b calls) = 0.
Proof.
  revert b lo. induction calls as [|[now k] calls IH]; intros b lo Hc Hm; [done|]. destruct Hc as [Hlo Hc]. cbn [spend passed].
  pose proof (Z.quot_le_mono lo now 60 ltac:(lia) Hlo). rewrite (proj2 (Z.eqb_neq (now ÷ 60) minute)) by lia.
  rewrite andb_false_r. cbn [andb]. rewrite (IH _ now) by (done || lia). done.
Qed.

(** The windows after a call: the caller's counts one more, another's is kept or, when it is
    of another minute, may be gone. *)
Lemma Allow_window now key limit b :
  0 < limit →
  let x := Allow now key limit b in
  window_of x.2 key = Window (now ÷ 60) (used b key (now ÷ 60) + 1) ∧
  x.1 = (used b key (now ÷ 60) + 1 <=? limit) ∧
  ∀ k, k ≠ key → window_of x.2 k = window_of b k ∨ (w_minute (window_of b k) ≠ now ÷ 60 ∧ window_of x.2 k = Window 0 0).
Proof.
  intros Hl. unfold Allow, used. rewrite (proj2 (Z.leb_gt limit 0)) by lia. cbv zeta.
  set (w := window_of b key). set (m := now ÷ 60). cbn [fst snd].
  split; [|split].
  - unfold window_of. rewrite lookup_insert_eq. cbn. destruct (Z.eqb_spec (w_minute w) m); cbn; congruence.
  - by destruct (Z.eqb_spec (w_minute w) m).
  - intros k Hk. unfold window_of. rewrite lookup_insert_ne by done.
    destruct (negb (w_minute w =? m) && (4096 <? Z.of_nat (size b))); [|by left].
    rewrite map_lookup_filter. destruct (b !! k) as [v|]; [|by left]. cbn.
    destruct (decide (w_minute v = m)) as [Hv|Hv].
    + left. by rewrite option_guard_True.
    + right. by rewrite option_guard_False.
Qed.

Lemma Allow_ok now key limit b lo :
  0 < limit → lo <= now → budget_ok b lo → budget_ok (Allow now key limit b).2 now.
Proof.
  intros Hl Hlo Hb k. destruct (Allow_window now key limit b Hl) as (Hw & _ & Ho). cbv zeta in *.
  pose proof (Z.quot_le_mono lo now 60 ltac:(lia) Hlo). destruct (decide (k = key)) as [->|Hk].
  - rewrite Hw. cbn. unfold used. destruct (Hb key). case_match; lia.
  - destruct (Ho k Hk) as [-> | [_ ->]]; [|cbn; lia]. destruct (Hb k). lia.
Qed.

Lemma passed_bound limit b key minute lo calls :
  0 < limit → clock_from lo calls → budget_ok b lo →
  passed key minute (spend limit b calls) <= Z.max 0 (limit - used b key minute).
Proof.
  intros Hl. revert b lo. induction calls as [|[now k] calls IH]; intros b lo Hc Hb; [cbn; lia|].
  destruct Hc as [Hlo Hc]. cbn [spend passed].
  destruct (Allow_window now k limit b Hl) as (Hw & Hx & Ho). cbv zeta in *.
  pose proof (Allow_ok now k limit b lo Hl Hlo Hb) as Hb'. pose proof (IH _ now Hc Hb') as Hrest.
  pose proof (Z.quot_le_mono lo now 60 ltac:(lia) Hlo) as Hq. destruct (Z.eqb_spec (now ÷ 60) minute) as [<-|Hm]; rewrite ?andb_true_r.
  - case_bool_decide as Hk; cbn [andb].
    + subst k. rewrite Hx. unfold used at 1 in Hrest. rewrite Hw in Hrest. cbn [w_minute w_count] in Hrest.
      rewrite Z.eqb_refl in Hrest. destruct (Z.leb_spec (used b key (now ÷ 60) + 1) limit); lia.
    + destruct (Ho key ltac:(congruence)) as [He|[Hn He]]; unfold used in *; rewrite He in Hrest; [lia|].
      rewrite (proj2 (Z.eqb_neq _ _) Hn). cbn in Hrest. case_match; lia.
  - rewrite andb_false_r. cbn [andb]. destruct (Z.lt_ge_cases minute (now ÷ 60)).
    + rewrite (passed_later limit _ key minute now calls) by done. lia.
    + pose proof (Hb key) as [? ?]. pose proof (Hb' key) as [? ?]. unfold used in *. repeat case_match; zbool; lia.
Qed.

(** While the clock does not go back, no more frames and connects of a client pass in a minute
    than the limit, on one replica. *)
Theorem memory_budget_caps limit key minute lo calls :
  0 < limit → clock_from lo calls → passed key minute (spend limit NewMemoryBudget calls) <= limit.
Proof.
  intros Hl Hc. pose proof (passed_bound limit NewMemoryBudget key minute lo calls Hl Hc) as Hp.
  assert (budget_ok NewMemoryBudget lo) as Hb by (intros k; unfold window_of, NewMemoryBudget; rewrite lookup_empty; cbn; lia).
  assert (used NewMemoryBudget key minute = 0) as Hu
    by (unfold used, window_of, NewMemoryBudget; rewrite lookup_empty; by destruct (_ =? minute)).
  specialize (Hp Hb). lia.
Qed.

(** ** A tunnel of [acme] between two replicas *)

Definition hello : list Z := str "hello".

(** A step of a replica, on a log and the replicas' states. *)
Definition act (x : list entry * (nat → Relay MemoryBudget)) (a : nat * op) : list entry * (nat → Relay MemoryBudget) :=
  let y := @step _ memory_budget reference_bus 0 a.2 (x.2 a.1) in (x.1 ++ [Did a.1 a.2 y.2], <[a.1 := y.1]> x.2).

Definition opened : list entry * (nat → Relay MemoryBudget) :=
  act (act ([], λ _, New NewMemoryBudget 0) (0%nat, OpenBridge acme kit1)) (1%nat, OpenClient acme kit1 kit2).

Lemma act_history x a :
  @history _ memory_budget reference_bus reference_broker NewMemoryBudget 0 x.1 x.2 → op_ok x.1 a.2 →
  @history _ memory_budget reference_bus reference_broker NewMemoryBudget 0 (act x a).1 (act x a).2.
Proof.
  intros Hh Ho. unfold act. cbv zeta. cbn [fst snd].
  eapply history_step with (now := 0); [exact Hh|exact Ho|apply surjective_pairing].
Qed.

Definition spoke := act opened (1%nat, Read 0 true hello true).
Definition up_topic : list Z := RelayTopic acme kit1 kit2 (str "up").
Definition arrived_frame : list Z := [1; 5] ++ kit2 ++ hello.
Definition heard := act spoke (0%nat, Deliver up_topic hello true).

Lemma acme_stored : stored_tenant acme.
Proof. split; [exact acme_name|reflexivity]. Qed.

Lemma heard_log : heard.1 = spoke.1 ++ [Did 0 (Deliver up_topic hello true) [Wrote 0 arrived_frame]].
Proof. vm_compute. reflexivity. Qed.

Lemma spoke_history : @history _ memory_budget reference_bus reference_broker NewMemoryBudget 0 spoke.1 spoke.2.
Proof.
  unfold spoke, opened.
  repeat (apply act_history; [|cbn; split_and?; (exact acme_stored || reflexivity || exact I)]). apply history_start.
Qed.

Lemma heard_history : @history _ memory_budget reference_bus reference_broker NewMemoryBudget 0 heard.1 heard.2.
Proof.
  apply act_history; [exact spoke_history|]. left.
  exists 1%nat, (Read 0 true hello true), [Published up_topic hello]. vm_compute.
  split; [right; right; left|left].
Qed.

Lemma relay_frames_authentic_witness :
  ∃ ro t b c, idents (heard.2 0%nat) !! 0%nat = Some (ro, t, b, c) ∧
    (b ∈ report_trees ∨
     ∃ j sid' data ok evs', Did j (Read sid' true data ok) evs' ∈ spoke.1 ∧
       match ro with
       | RClient => ∃ c', idents (heard.2 j) !! sid' = Some (RBridge, t, b, c') ∧ DecodeEnvelope data = Ok (c, arrived_frame)
       | RBridge => ∃ c', idents (heard.2 j) !! sid' = Some (RClient, t, b, c') ∧ EncodeEnvelope c' data = Ok arrived_frame
       end).
Proof.
  apply (@relay_frames_authentic _ memory_budget reference_bus reference_broker NewMemoryBudget 0 spoke.1 heard.2 0
    (Deliver up_topic hello true) [Wrote 0 arrived_frame] 0 arrived_frame).
  - rewrite <- heard_log. exact heard_history.
  - left.
Defined.

Lemma relay_tunnel_carries_witness :
  ∃ frame answer,
    (@step _ memory_budget reference_bus 0 (Read 0 true hello true) (opened.2 1%nat)).2 = [Published up_topic hello] ∧
    @step _ memory_budget reference_bus 0 (Deliver up_topic hello true) (opened.2 0%nat) = (opened.2 0%nat, [Wrote 0 frame]) ∧
    DecodeEnvelope frame = Ok (kit2, hello) ∧ EncodeEnvelope kit2 [7] = Ok answer.
Proof.
  destruct (@relay_tunnel_carries _ memory_budget reference_bus 0 (opened.2 1%nat) (opened.2 0%nat) acme kit1 kit2 0 0 hello [7])
    as (frame & answer & ? & ? & ? & ? & _); [exact acme_stored|reflexivity|reflexivity|split; vm_compute; reflexivity..|vm_compute; reflexivity|].
  exists frame, answer. split_and!; assumption.
Defined.

End RelaySystem.
