(* ===== verification/Tenancy.v ===== *)
(** Which tenant a message belongs to, [internal/tenancy/resolver.go] and [platform.go], over
    the tenant lookups of the SQLite store; and what the broker's grants and the resolver
    together let a customer's bridge reach. *)
From S2P Require Import Prelude Text Topics NatsAuth.

Module Tenancy.
Import Text Topics.

Notation name := (list Z).

(** ** The rows the lookups read *)

Record TenantRow := MkTenant {
  tID : name;
  tSlug : name;
  tPlan : name;
  tStatus : name;
  tDeletedAt : option Z }.

(** [devices] and [bridges] as (id, tenant_id), [tenants], and the rows of every other table
    with a [tenant_id] column, as (table, tenant_id). *)
Record tables := MkTables {
  device_rows : list (name * name);
  bridge_rows : list (name * name);
  tenant_rows : list TenantRow;
  scoped_rows : list (name * name) }.

(** [ErrNoRows] is [database/sql]'s, [ErrDown] any failure of the query itself. *)
Inductive lookup_error := ErrNotFound | ErrAmbiguousTenant | ErrNoRows | ErrDown.

Fixpoint scan_tenants (tenant : name) (rows : list name) : result lookup_error name :=
  match rows with
  | [] => if bool_decide (tenant = []) then Err ErrNotFound else Ok tenant
  | t :: rows =>
      if negb (bool_decide (tenant = [])) && negb (bool_decide (t = tenant)) then Err ErrAmbiguousTenant
      else scan_tenants t rows
  end.

Definition lookupTenant (down : bool) (rows : list (name * name)) (key : name) : result lookup_error name :=
  if down then Err ErrDown else scan_tenants [] (snd <$> filter (λ r, fst r = key) rows).

Definition LookupDeviceTenant (down : bool) (db : tables) (imei : name) : result lookup_error name :=
  lookupTenant down (device_rows db) imei.

Definition LookupBridgeTenant (down : bool) (db : tables) (bridgeID : name) : result lookup_error name :=
  lookupTenant down (bridge_rows db) bridgeID.

Definition GetTenant (down : bool) (db : tables) (id : name) : result lookup_error TenantRow :=
  if down then Err ErrDown
  else match filter (λ r, tID r = id) (tenant_rows db) with [] => Err ErrNoRows | r :: _ => Ok r end.

(** ** The resolver *)

Record entry := MkEntry {
  eTenant : name;
  eKnown : bool;
  eExpiry : Z }.

Record Resolver := MkResolver {
  def : name;
  ttl : Z;
  devices : gmap name entry;
  bridges : gmap name entry;
  tenants : gmap name entry }.

Definition NewResolver (defaultTenant : name) (ttl : Z) : Resolver :=
  MkResolver (if bool_decide (defaultTenant = []) then DefaultTenant else defaultTenant) ttl ∅ ∅ ∅.

(** An unexpired entry, when caching is on. *)
Definition cached (ttl now : Z) (cache : gmap name entry) (key : name) : option entry :=
  if 0 <? ttl then e ← cache !! key; if now <? eExpiry e then Some e else None else None.

(** The answer, and the cache after it; [looked] is what the store says when it is asked. *)
Definition known (def : name) (ttl now : Z) (cache : gmap name entry) (key : name)
    (looked : result lookup_error name) : name * bool * gmap name entry :=
  let fill e := if 0 <? ttl then <[key := e]> cache else cache in
  if bool_decide (key = []) then (def, false, cache)
  else match cached ttl now cache key with
  | Some e => (eTenant e, negb (bool_decide (eTenant e = [])) && eKnown e, cache)
  | None =>
      match looked with
      | Ok [] => (def, false, cache)
      | Ok tenant => (tenant, true, fill (MkEntry tenant true (now + ttl)))
      | Err ErrNotFound | Err ErrAmbiguousTenant => (def, false, fill (MkEntry def false (now + ttl)))
      | Err _ => (def, false, cache)
      end
  end.

Definition tenantExists (ttl now : Z) (cache : gmap name entry) (id : name)
    (got : result lookup_error TenantRow) : bool * gmap name entry :=
  match cached ttl now cache id with
  | Some e => (eKnown e, cache)
  | None =>
      let fill exists_ := if 0 <? ttl then <[id := MkEntry [] exists_ (now + ttl)]> cache else cache in
      match got with
      | Ok _ => (true, fill true)
      | Err ErrNotFound => (false, fill false)
      | Err _ => (false, cache)
      end
  end.

(** The tenant, and the existence cache after it. *)
Definition reconcile (r : Resolver) (now : Z) (owner : name) (isKnown : bool) (topicTenant : name)
    (got : result lookup_error TenantRow) : name * gmap name entry :=
  if isKnown then (owner, tenants r)
  else if bool_decide (topicTenant = []) || bool_decide (topicTenant = def r) then (def r, tenants r)
  else
    let x := tenantExists (ttl r) now (tenants r) topicTenant got in
    (if fst x then topicTenant else def r, snd x).

(** A call: the clock, the tables, and whether each of its two queries fails. *)
Record env := MkEnv {
  now : Z;
  db : tables;
  lookup_down : bool;
  get_down : bool }.

Definition ForDevice (r : Resolver) (e : env) (imei : name) : name * Resolver :=
  let '(t, _, c) := known (def r) (ttl r) (now e) (devices r) imei (LookupDeviceTenant (lookup_down e) (db e) imei) in
  (t, MkResolver (def r) (ttl r) c (bridges r) (tenants r)).

Definition ForBridge (r : Resolver) (e : env) (bridgeID : name) : name * Resolver :=
  let '(t, _, c) := known (def r) (ttl r) (now e) (bridges r) bridgeID (LookupBridgeTenant (lookup_down e) (db e) bridgeID) in
  (t, MkResolver (def r) (ttl r) (devices r) c (tenants r)).

Definition ForDeviceTopic (r : Resolver) (e : env) (imei topicTenant : name) : name * Resolver :=
  let '(owner, k, c) := known (def r) (ttl r) (now e) (devices r) imei (LookupDeviceTenant (lookup_down e) (db e) imei) in
  let '(t, x) := reconcile r (now e) owner k topicTenant (GetTenant (get_down e) (db e) topicTenant) in
  (t, MkResolver (def r) (ttl r) c (bridges r) x).

Definition ForBridgeTopic (r : Resolver) (e : env) (bridgeID topicTenant : name) : name * Resolver :=
  let '(owner, k, c) := known (def r) (ttl r) (now e) (bridges r) bridgeID (LookupBridgeTenant (lookup_down e) (db e) bridgeID) in
  let '(t, x) := reconcile r (now e) owner k topicTenant (GetTenant (get_down e) (db e) topicTenant) in
  (t, MkResolver (def r) (ttl r) (devices r) c x).

Definition Forget (r : Resolver) (imei : name) : Resolver :=
  MkResolver (def r) (ttl r) (delete imei (devices r)) (bridges r) (tenants r).

Definition drop_tenant (t : name) (c : gmap name entry) : gmap name entry :=
  filter (λ ke : name * entry, eTenant (snd ke) ≠ t) c.

Definition ForgetTenant (r : Resolver) (t : name) : Resolver :=
  if bool_decide (t = []) then r
  else MkResolver (def r) (ttl r) (drop_tenant t (devices r)) (drop_tenant t (bridges r)) (delete t (tenants r)).

(** ** Topics *)

Definition IsPlatformTopic (r : Resolver) (e : env) (topic : name) : bool * Resolver :=
  match ParseDeviceTopic topic with
  | Some (tenant, device, _) =>
      if bool_decide (tenant = DefaultTenant) then
        let x := ForDeviceTopic r e device tenant in (bool_decide (fst x = def r), snd x)
      else (false, r)
  | None =>
      match ParseBridgeTopic topic with
      | Some (tenant, bridge, _) =>
          if bool_decide (tenant = DefaultTenant) then
            let x := ForBridgeTopic r e bridge tenant in (bool_decide (fst x = def r), snd x)
          else (false, r)
      | None => (false, r)
      end
  end.

Definition TenantForTopic (r : Resolver) (e : env) (topic : name) : name * Resolver :=
  match ParseDeviceTopic topic with
  | Some (tenant, device, _) => ForDeviceTopic r e device tenant
  | None =>
      match ParseBridgeTopic topic with
      | Some (tenant, bridge, _) => ForBridgeTopic r e bridge tenant
      | None => ([], r)
      end
  end.

(** ** What the tables say *)

(** The owner of record, or the default tenant for an id that is missing or ambiguous. *)
Definition owner (def : name) (rows : list (name * name)) (key : name) : name * bool :=
  match lookupTenant false rows key with Ok t => (t, true) | Err _ => (def, false) end.

Definition has_tenant (d : tables) (t : name) : bool := bool_decide (t ∈ tID <$> tenant_rows d).

(** Who a message belongs to: the owner of record, else the topic's tenant if it exists. *)
Definition belongs (def : name) (o : name * bool) (exists_ : bool) (topicTenant : name) : name :=
  if snd o then fst o
  else if bool_decide (topicTenant = []) || bool_decide (topicTenant = def) then def
  else if exists_ then topicTenant else def.

Lemma scan_nonempty u l t : scan_tenants u l = Ok t → t ≠ [].
Proof. revert u. induction l as [|x l IH]; intros u; cbn; case_match; zbool; naive_solver. Qed.

Lemma scan_in u l t : scan_tenants u l = Ok t → t = u ∨ t ∈ l.
Proof.
  revert u. induction l as [|x l IH]; intros u; cbn; case_match; try done; [naive_solver|].
  intros [->|?]%IH; right; [left|by right].
Qed.

Lemma lookup_in rows key t : lookupTenant false rows key = Ok t → (key, t) ∈ rows ∧ t ≠ [].
Proof.
  unfold lookupTenant. intros H. pose proof (scan_nonempty _ _ _ H) as Hne. split; [|done].
  apply scan_in in H as [?|H]; [done|]. apply list_elem_of_fmap in H as ([k t'] & -> & [? Hin]%list_elem_of_filter).
  cbn in *. by subst.
Qed.

Lemma lookup_cached_err rows key e :
  lookupTenant false rows key = Err e → e = ErrNotFound ∨ e = ErrAmbiguousTenant.
Proof.
  unfold lookupTenant. generalize (@nil Z). generalize (snd <$> filter (λ r, fst r = key) rows).
  intros l. induction l as [|x l IH]; intros u; cbn; case_match; try naive_solver.
Qed.

Lemma GetTenant_ok d t : is_ok (GetTenant false d t) = has_tenant d t.
Proof.
  unfold GetTenant, has_tenant. apply eq_iff_eq_true. rewrite bool_decide_eq_true, list_elem_of_fmap.
  destruct (filter _ _) as [|r l] eqn:E; cbn.
  - split; [done|]. intros (r & -> & Hr). assert (r ∈ []) as []%not_elem_of_nil.
    rewrite <- E. by apply list_elem_of_filter.
  - split; [|done]. intros _. assert (r ∈ r :: l) as Hr by left. rewrite <- E in Hr.
    apply list_elem_of_filter in Hr as [<- ?]. by exists r.
Qed.

Lemma GetTenant_not_notfound down d t : GetTenant down d t ≠ Err ErrNotFound.
Proof. unfold GetTenant. by repeat case_match. Qed.

(** ** Caching: every answer is a recent one *)

Definition history := list (Z * tables).

(** The tables at some moment less than [ttl] ago, or now. *)
Definition recently (h : history) (ttl now : Z) (d : tables) : Prop :=
  ∃ t, (t, d) ∈ h ∧ t ≤ now ∧ (t = now ∨ now < t + ttl).

Definition owners_ok (def : name) (ttl : Z) (h : history) (rows : tables → list (name * name)) (c : gmap name entry) : Prop :=
  ∀ k e, c !! k = Some e →
    ∃ t d, (t, d) ∈ h ∧ eExpiry e = t + ttl ∧ (eTenant e, eKnown e) = owner def (rows d) k.

Definition tenants_ok (ttl : Z) (h : history) (c : gmap name entry) : Prop :=
  ∀ k e, c !! k = Some e → ∃ t d, (t, d) ∈ h ∧ eExpiry e = t + ttl ∧ eKnown e = has_tenant d k.

Lemma cached_some ttl now c k e : cached ttl now c k = Some e → c !! k = Some e ∧ now < eExpiry e.
Proof.
  unfold cached. destruct (0 <? ttl); [|done]. destruct (c !! k) as [e'|]; [|done]. cbn.
  destruct (Z.ltb_spec now (eExpiry e')); [|done]. by intros [= ->].
Qed.

Section history.
Context (def : name) (ttl now : Z) (h : history).
Hypothesis past : Forall (λ td, td.1 ≤ now) h.

Lemma recent_entry t d : (t, d) ∈ h → now < t + ttl → recently h ttl now d.
Proof. intros Hin Hlt. exists t. split; [done|]. split; [|by right]. by apply (proj1 (Forall_forall _ _) past (t, d)). Qed.

Lemma recent_now d : (now, d) ∈ h → recently h ttl now d.
Proof. intros ?. exists now. auto with lia. Qed.

Lemma owners_insert rows c k d e :
  owners_ok def ttl h rows c → (now, d) ∈ h → e = MkEntry (fst (owner def (rows d) k)) (snd (owner def (rows d) k)) (now + ttl) →
  owners_ok def ttl h rows (if 0 <? ttl then <[k := e]> c else c).
Proof.
  intros Hc Hd ->. case_match; [|done]. intros k' e' [[<- <-]|[_ ?]]%lookup_insert_Some; [|by apply Hc].
  exists now, d. cbn. by rewrite <- surjective_pairing.
Qed.

Lemma known_spec rows c k down d :
  owners_ok def ttl h rows c → (now, d) ∈ h →
  let x := known def ttl now c k (lookupTenant down (rows d) k) in
  owners_ok def ttl h rows (snd x) ∧
  (k ≠ [] → down = false → ∃ d', recently h ttl now d' ∧ fst x = owner def (rows d') k).
Proof.
  intros Hc Hd. unfold known. case_bool_decide as Hk; [by split|].
  destruct (cached ttl now c k) as [e|] eqn:Ec.
  { apply cached_some in Ec as [Hck Hlt]. destruct (Hc _ _ Hck) as (t & d' & Hin & He & Ho). cbn. split; [done|].
    intros _ _. exists d'. split; [apply (recent_entry t); [done|lia]|]. rewrite <- Ho. f_equal.
    destruct (eKnown e); [|by rewrite andb_false_r]. rewrite andb_true_r. apply negb_true_iff, bool_decide_eq_false.
    unfold owner in Ho. case_match eqn:El; [|done]. injection Ho as ->. by apply lookup_in in El as [_ ?]. }
  destruct (lookupTenant down (rows d) k) as [t|e] eqn:El.
  - destruct down; [done|]. pose proof (lookup_in _ _ _ El) as [_ Hne]. destruct t as [|b t]; [done|].
    assert (owner def (rows d) k = (b :: t, true)) as Ho by (unfold owner; by rewrite El). cbn. split.
    + apply (owners_insert _ _ _ d); [done..|]. by rewrite Ho.
    + intros _ _. exists d. split; [by apply recent_now|]. by rewrite Ho.
  - destruct down.
    + injection El as <-. cbn. split; [done|]. by intros _ [=].
    + assert (owner def (rows d) k = (def, false)) as Ho by (unfold owner; by rewrite El).
      destruct (lookup_cached_err _ _ _ El) as [-> | ->]; cbn.
      all: split; [apply (owners_insert _ _ _ d); [done..|]; by rewrite Ho|].
      all: intros _ _; exists d; (split; [by apply recent_now|]); by rewrite Ho.
Qed.

Lemma exists_spec c t down d :
  tenants_ok ttl h c → (now, d) ∈ h →
  let x := tenantExists ttl now c t (GetTenant down d t) in
  tenants_ok ttl h (snd x) ∧ (down = false → ∃ d', recently h ttl now d' ∧ fst x = has_tenant d' t).
Proof.
  intros Hc Hd. unfold tenantExists. destruct (cached ttl now c t) as [e|] eqn:Ec.
  { apply cached_some in Ec as [Hck Hlt]. destruct (Hc _ _ Hck) as (t' & d' & Hin & He & Ho). split; [done|].
    intros _. exists d'. split; [apply (recent_entry t'); [done|lia]|done]. }
  destruct (GetTenant down d t) as [r|e] eqn:Eg.
  - destruct down; [done|]. assert (has_tenant d t = true) as Ht by (rewrite <- GetTenant_ok; by rewrite Eg). cbn. split.
    + case_match; [|done]. intros k e [[<- <-]|[_ ?]]%lookup_insert_Some; [|by apply Hc]. by exists now, d.
    + intros _. exists d. split; [by apply recent_now|done].
  - destruct e; try (by apply GetTenant_not_notfound in Eg); (split; [done|]); intros ->;
      exists d; (split; [by apply recent_now|]); rewrite <- GetTenant_ok; by rewrite Eg.
Qed.

End history.

(** ** A resolver in use *)

Record system := MkSystem {
  res : Resolver;
  clock : Z;
  cur : tables;
  hist : history }.

Inductive action :=
| Tick (d : Z)
| WriteTables (d : tables)
| AskDevice (imei topicTenant : name) (lookup_down get_down : bool)
| AskBridge (bridgeID topicTenant : name) (lookup_down get_down : bool)
| AskTopic (topic : name) (lookup_down get_down : bool)
| DropDevice (imei : name)
| DropTenant (t : name).

Definition call (s : system) (lookup_down get_down : bool) : env := MkEnv (clock s) (cur s) lookup_down get_down.

Definition with_res (s : system) (x : name * Resolver) : option name * system :=
  (Some (fst x), MkSystem (snd x) (clock s) (cur s) (hist s)).

Definition act (a : action) (s : system) : option name * system :=
  match a with
  | Tick d => let t := clock s + Z.max 0 d in (None, MkSystem (res s) t (cur s) ((t, cur s) :: hist s))
  | WriteTables d => (None, MkSystem (res s) (clock s) d ((clock s, d) :: hist s))
  | AskDevice imei t ld gd => with_res s (ForDeviceTopic (res s) (call s ld gd) imei t)
  | AskBridge b t ld gd => with_res s (ForBridgeTopic (res s) (call s ld gd) b t)
  | AskTopic topic ld gd => with_res s (TenantForTopic (res s) (call s ld gd) topic)
  | DropDevice imei => (None, MkSystem (Forget (res s) imei) (clock s) (cur s) (hist s))
  | DropTenant t => (None, MkSystem (ForgetTenant (res s) t) (clock s) (cur s) (hist s))
  end.

Fixpoint acts (l : list action) (s : system) : system :=
  match l with [] => s | a :: l => acts l (snd (act a s)) end.

Definition start (r : Resolver) (d : tables) : system := MkSystem r 0 d [(0, d)].

Record resolver_ok (s : system) : Prop := {
  ok_now : (clock s, cur s) ∈ hist s;
  ok_past : Forall (λ td, td.1 ≤ clock s) (hist s);
  ok_devices : owners_ok (def (res s)) (ttl (res s)) (hist s) device_rows (devices (res s));
  ok_bridges : owners_ok (def (res s)) (ttl (res s)) (hist s) bridge_rows (bridges (res s));
  ok_tenants : tenants_ok (ttl (res s)) (hist s) (tenants (res s)) }.

Lemma owners_more f tt h h' rows c : (∀ x, x ∈ h → x ∈ h') → owners_ok f tt h rows c → owners_ok f tt h' rows c.
Proof. intros Hh Hc k e He. destruct (Hc k e He) as (t & d & ? & ?). exists t, d. auto. Qed.

Lemma tenants_more tt h h' c : (∀ x, x ∈ h → x ∈ h') → tenants_ok tt h c → tenants_ok tt h' c.
Proof. intros Hh Hc k e He. destruct (Hc k e He) as (t & d & ? & ?). exists t, d. auto. Qed.

Lemma owners_sub f tt h rows c c' : c' ⊆ c → owners_ok f tt h rows c → owners_ok f tt h rows c'.
Proof. intros Hs Hc k e He. apply Hc. by apply (lookup_weaken _ _ _ _ He). Qed.

Lemma reconcile_ok s o k t gd :
  resolver_ok s →
  let x := reconcile (res s) (clock s) o k t (GetTenant gd (cur s) t) in
  tenants_ok (ttl (res s)) (hist s) (snd x) ∧
  (gd = false → ∃ d, recently (hist s) (ttl (res s)) (clock s) d ∧ fst x = belongs (def (res s)) (o, k) (has_tenant d t) t).
Proof.
  intros [Hn Hp _ _ Ht]. unfold reconcile, belongs. cbn [fst snd].
  destruct (exists_spec (ttl (res s)) (clock s) (hist s) Hp (tenants (res s)) t gd (cur s) Ht Hn) as [H1 H2].
  destruct k; [|destruct (_ || _)]; cbn [fst snd]; (split; [done|]); intros Hg.
  1,2: exists (cur s); (split; [by apply recent_now|done]).
  destruct (H2 Hg) as (d & Hd & Hx). exists d. by rewrite Hx.
Qed.

(** The two topic queries are one, over the devices or over the bridges. *)
Lemma ask_ok s (rows : tables → list (name * name)) c key t ld gd :
  resolver_ok s → owners_ok (def (res s)) (ttl (res s)) (hist s) rows c →
  let x := known (def (res s)) (ttl (res s)) (clock s) c key (lookupTenant ld (rows (cur s)) key) in
  let y := reconcile (res s) (clock s) (fst (fst x)) (snd (fst x)) t (GetTenant gd (cur s) t) in
  owners_ok (def (res s)) (ttl (res s)) (hist s) rows (snd x) ∧ tenants_ok (ttl (res s)) (hist s) (snd y) ∧
  (key ≠ [] → ld = false → gd = false → ∃ d d',
     recently (hist s) (ttl (res s)) (clock s) d ∧ recently (hist s) (ttl (res s)) (clock s) d' ∧
     fst y = belongs (def (res s)) (owner (def (res s)) (rows d) key) (has_tenant d' t) t).
Proof.
  intros Hs Hc x y. destruct (known_spec (def (res s)) (ttl (res s)) (clock s) (hist s) (ok_past s Hs) rows c key ld (cur s) Hc (ok_now s Hs)) as [H1 H2].
  destruct (reconcile_ok s (fst (fst x)) (snd (fst x)) t gd Hs) as [H3 H4]. split; [done|]. split; [done|].
  intros Hk Hl Hg. destruct (H2 Hk Hl) as (d & Hd & Ho). destruct (H4 Hg) as (d' & Hd' & Hb). exists d, d'.
  split_and!; [done..|]. unfold y. rewrite Hb. fold x in Ho. rewrite <- Ho. by destruct (fst x).
Qed.

Lemma ForDeviceTopic_ok s imei t ld gd :
  resolver_ok s → resolver_ok (snd (with_res s (ForDeviceTopic (res s) (call s ld gd) imei t))).
Proof.
  intros Hs. destruct (ask_ok s device_rows (devices (res s)) imei t ld gd Hs (ok_devices s Hs)) as (H1 & H2 & _).
  unfold ForDeviceTopic, LookupDeviceTenant. cbn [call now db lookup_down get_down].
  destruct (known _ _ _ _ _ _) as [[o k] c] eqn:E1. cbn [fst snd] in *. destruct (reconcile _ _ _ _ _ _) as [x y] eqn:E2.
  destruct Hs. by split.
Qed.

Lemma ForBridgeTopic_ok s b t ld gd :
  resolver_ok s → resolver_ok (snd (with_res s (ForBridgeTopic (res s) (call s ld gd) b t))).
Proof.
  intros Hs. destruct (ask_ok s bridge_rows (bridges (res s)) b t ld gd Hs (ok_bridges s Hs)) as (H1 & H2 & _).
  unfold ForBridgeTopic, LookupBridgeTenant. cbn [call now db lookup_down get_down].
  destruct (known _ _ _ _ _ _) as [[o k] c] eqn:E1. cbn [fst snd] in *. destruct (reconcile _ _ _ _ _ _) as [x y] eqn:E2.
  destruct Hs. by split.
Qed.

Lemma act_ok a s : resolver_ok s → resolver_ok (snd (act a s)).
Proof.
  intros Hs. destruct a as [d|d|imei t ld gd|b t ld gd|topic ld gd|imei|t]; cbn [act].
  - destruct Hs as [Hn Hp Hd Hb Ht]. split; cbn; [left| | | |].
    + constructor; [done|]. eapply Forall_impl; [done|]. cbn. intros x Hx. lia.
    + eapply owners_more, Hd. by right.
    + eapply owners_more, Hb. by right.
    + eapply tenants_more, Ht. by right.
  - destruct Hs as [Hn Hp Hd Hb Ht]. split; cbn; [left| | | |].
    + by constructor.
    + eapply owners_more, Hd. by right.
    + eapply owners_more, Hb. by right.
    + eapply tenants_more, Ht. by right.
  - by apply ForDeviceTopic_ok.
  - by apply ForBridgeTopic_ok.
  - unfold TenantForTopic. repeat case_match; [by apply ForDeviceTopic_ok|by apply ForBridgeTopic_ok|by destruct Hs].
  - destruct Hs as [Hn Hp Hd Hb Ht]. split; cbn; try done. eapply owners_sub, Hd. apply delete_subseteq.
  - unfold ForgetTenant. case_bool_decide; [by destruct Hs|]. destruct Hs as [Hn Hp Hd Hb Ht]. split; cbn; try done.
    + eapply owners_sub, Hd. apply map_filter_subseteq.
    + eapply owners_sub, Hb. apply map_filter_subseteq.
    + intros k e [_ He]%lookup_delete_Some. by apply Ht.
Qed.

Lemma acts_ok l s : resolver_ok s → resolver_ok (acts l s).
Proof. revert s. induction l as [|a l IH]; intros s Hs; cbn; [done|]. by apply IH, act_ok. Qed.

Lemma act_ttl a s : ttl (res (snd (act a s))) = ttl (res s) ∧ def (res (snd (act a s))) = def (res s).
Proof.
  destruct a; cbn; unfold TenantForTopic, ForDeviceTopic, ForBridgeTopic, ForgetTenant; repeat case_match; done.
Qed.

Lemma acts_ttl l s : ttl (res (acts l s)) = ttl (res s).
Proof. revert s. induction l as [|a l IH]; intros s; cbn; [done|]. rewrite IH. apply act_ttl. Qed.

Lemma acts_def l s : def (res (acts l s)) = def (res s).
Proof. revert s. induction l as [|a l IH]; intros s; cbn; [done|]. rewrite IH. apply act_ttl. Qed.

Lemma start_ok def ttl d : resolver_ok (start (NewResolver def ttl) d).
Proof. split; cbn; [left|by constructor| | |]; intros k e; by rewrite lookup_empty. Qed.


Definition sample_tables : tables :=
  MkTables [(str "300434060000001", str "t_a")] [(str "kit-1", str "t_a")]
    [MkTenant (str "t_a") (str "a") (str "free") (str "active") None] [].


(** ** Forgetting a tenant *)

(** The tables name the tenant. *)
Definition names (d : tables) (t : name) : Prop :=
  t ∈ snd <$> device_rows d ∨ t ∈ snd <$> bridge_rows d ∨ has_tenant d t = true.

Definition uncached (t : name) (c : gmap name entry) : Prop := ∀ k e, c !! k = Some e → eTenant e ≠ t.

Record forgotten (t : name) (s : system) : Prop := {
  fg_tables : ¬ names (cur s) t;
  fg_devices : uncached t (devices (res s));
  fg_bridges : uncached t (bridges (res s));
  fg_tenants : ∀ e, tenants (res s) !! t = Some e → eKnown e = false }.

Definition keeps_out (t : name) (a : action) : Prop := match a with WriteTables d => ¬ names d t | _ => True end.

Lemma known_forgotten t def ttl now c key ld rows :
  t ≠ def → t ∉ snd <$> rows → uncached t c →
  let x := known def ttl now c key (lookupTenant ld rows key) in
  fst (fst x) ≠ t ∧ uncached t (snd x).
Proof.
  intros Hd Hr Hc. unfold known. case_bool_decide; [done|].
  assert (Hin : ∀ u b e, u ≠ t → uncached t (if 0 <? ttl then <[key := MkEntry u b e]> c else c)).
  { intros u b e Hu. case_match; [|done]. intros k e' [[<- <-]|[_ ?]]%lookup_insert_Some; [done|by apply (Hc k)]. }
  destruct (cached ttl now c key) as [e|] eqn:Ec; [apply cached_some in Ec as [Ec _]; cbn; split; [by apply (Hc key)|done]|].
  destruct (lookupTenant ld rows key) as [u|e] eqn:El.
  - destruct ld; [done|]. apply lookup_in in El as [El Hne]. destruct u as [|b u]; [done|]. cbn.
    assert (b :: u ≠ t) by (intros <-; apply Hr, list_elem_of_fmap; by exists (key, b :: u)). auto.
  - destruct e; cbn; auto.
Qed.

Lemma reconcile_forgotten t s o k topicTenant gd :
  t ≠ def (res s) → forgotten t s → o ≠ t →
  let x := reconcile (res s) (clock s) o k topicTenant (GetTenant gd (cur s) topicTenant) in
  fst x ≠ t ∧ (∀ e, snd x !! t = Some e → eKnown e = false).
Proof.
  intros Hd [Hn _ _ Ht] Ho. unfold reconcile. destruct k; [done|]. destruct (_ || _); [done|].
  assert (Hg : ∀ r, GetTenant gd (cur s) t ≠ Ok r).
  { intros r Hr. apply Hn. right. right. destruct gd; [done|]. by rewrite <- GetTenant_ok, Hr. }
  destruct (decide (topicTenant = t)) as [->|Hne].
  - unfold tenantExists. destruct (cached _ _ _ t) as [e|] eqn:Ec.
    + apply cached_some in Ec as [Ec _]. cbn. by rewrite (Ht _ Ec).
    + destruct (GetTenant gd (cur s) t) as [r|e] eqn:Eg; [by destruct (Hg r)|].
      destruct e; cbn; (split; [done|]); try done. by apply GetTenant_not_notfound in Eg.
  - cbn [fst snd]. split; [by destruct (fst _)|]. unfold tenantExists. repeat case_match; cbn; try done;
      intros e'; rewrite lookup_insert_ne by done; apply Ht.
Qed.

Lemma device_forgotten t s imei u ld gd :
  t ≠ def (res s) → forgotten t s →
  let x := with_res s (ForDeviceTopic (res s) (call s ld gd) imei u) in fst x ≠ Some t ∧ forgotten t (snd x).
Proof.
  intros Hd Hf. unfold ForDeviceTopic, LookupDeviceTenant. cbn [call now db lookup_down get_down].
  destruct (known_forgotten t (def (res s)) (ttl (res s)) (clock s) (devices (res s)) imei ld (device_rows (cur s)) Hd) as [H1 H2];
    [intros ?; apply Hf; by left|apply Hf|].
  destruct (known _ _ _ _ _ _) as [[o k] c] eqn:E1. cbn [fst snd] in *.
  destruct (reconcile_forgotten t s o k u gd Hd Hf H1) as [H3 H4]. destruct (reconcile _ _ _ _ _ _) as [x y].
  cbn in *. split; [congruence|]. destruct Hf. by split.
Qed.

Lemma bridge_forgotten t s b u ld gd :
  t ≠ def (res s) → forgotten t s →
  let x := with_res s (ForBridgeTopic (res s) (call s ld gd) b u) in fst x ≠ Some t ∧ forgotten t (snd x).
Proof.
  intros Hd Hf. unfold ForBridgeTopic, LookupBridgeTenant. cbn [call now db lookup_down get_down].
  destruct (known_forgotten t (def (res s)) (ttl (res s)) (clock s) (bridges (res s)) b ld (bridge_rows (cur s)) Hd) as [H1 H2];
    [intros ?; apply Hf; right; by left|apply Hf|].
  destruct (known _ _ _ _ _ _) as [[o k] c] eqn:E1. cbn [fst snd] in *.
  destruct (reconcile_forgotten t s o k u gd Hd Hf H1) as [H3 H4]. destruct (reconcile _ _ _ _ _ _) as [x y].
  cbn in *. split; [congruence|]. destruct Hf. by split.
Qed.

Lemma uncached_sub t c c' : c' ⊆ c → uncached t c → uncached t c'.
Proof. intros Hs Hc k e He. apply (Hc k). by apply (lookup_weaken _ _ _ _ He). Qed.

Lemma act_forgotten t a s :
  t ≠ [] → t ≠ def (res s) → keeps_out t a → forgotten t s → fst (act a s) ≠ Some t ∧ forgotten t (snd (act a s)).
Proof.
  intros Ht Hd Ha Hf. destruct a as [d|d|imei u ld gd|b u ld gd|topic ld gd|imei|u]; cbn [act].
  - destruct Hf. by split.
  - destruct Hf. by split.
  - by apply device_forgotten.
  - by apply bridge_forgotten.
  - unfold TenantForTopic. repeat case_match; [by apply device_forgotten|by apply bridge_forgotten|].
    destruct Hf. split; [cbn; congruence|by split].
  - destruct Hf as [? Hdv ? ?]. split; [done|]. split; try done. cbn. eapply uncached_sub, Hdv. apply delete_subseteq.
  - destruct Hf as [? Hdv Hb Htn]. split; [done|]. cbn. unfold ForgetTenant. case_bool_decide; [by split|]. split; try done; cbn.
    + eapply uncached_sub, Hdv. apply map_filter_subseteq.
    + eapply uncached_sub, Hb. apply map_filter_subseteq.
    + intros e [_ He]%lookup_delete_Some. by apply Htn.
Qed.

Lemma acts_forgotten t l s :
  t ≠ [] → t ≠ def (res s) → Forall (keeps_out t) l → forgotten t s → forgotten t (acts l s).
Proof.
  intros Ht Hd Hl. revert s Hd. induction Hl as [|a l Ha Hl IH]; intros s Hd Hf; [done|]. cbn. apply IH.
  - by rewrite (proj2 (act_ttl a s)).
  - by apply act_forgotten.
Qed.

Lemma drop_forgets t s : t ≠ [] → ¬ names (cur s) t → forgotten t (snd (act (DropTenant t) s)).
Proof.
  intros Ht Hn. cbn. unfold ForgetTenant. rewrite bool_decide_false by done. split; cbn; [done| | |].
  1,2: intros k e [_ He]%map_lookup_filter_Some; done.
  intros e. by rewrite lookup_delete_eq.
Qed.

(** Once a purged tenant has been evicted from a resolver whose tables no longer name it, no
    message is attributed to it again, whatever is asked, for as long as no row names it. *)
Theorem purged_tenant_unreachable t s l a :
  t ≠ [] → t ≠ def (res s) → ¬ names (cur s) t → Forall (keeps_out t) (a :: l) →
  fst (act a (acts l (snd (act (DropTenant t) s)))) ≠ Some t.
Proof.
  intros Ht Hd Hn [Ha Hl]%Forall_cons. apply (act_forgotten t); try done.
  - rewrite acts_def. by rewrite (proj2 (act_ttl (DropTenant t) s)).
  - apply acts_forgotten; [done| |done|by apply drop_forgets]. by rewrite (proj2 (act_ttl (DropTenant t) s)).
Qed.

Lemma purged_tenant_unreachable_witness :
  fst (act (AskDevice (str "300434060000001") (str "t_a") false false)
         (acts [Tick 1] (snd (act (DropTenant (str "t_a"))
            (acts [AskDevice (str "300434060000001") (str "t_a") false false; WriteTables (MkTables [] [] [] [])]
               (start (NewResolver DefaultTenant 30) sample_tables)))))) ≠ Some (str "t_a").
Proof.
  apply (purged_tenant_unreachable (str "t_a")
    (acts [AskDevice (str "300434060000001") (str "t_a") false false; WriteTables (MkTables [] [] [] [])]
       (start (NewResolver DefaultTenant 30) sample_tables)) [Tick 1]
    (AskDevice (str "300434060000001") (str "t_a") false false)); [done|done| |by repeat constructor].
  cbn. intros [[]%elem_of_nil|[[]%elem_of_nil|[=]]].
Defined.

(** ** What a customer's bridge reaches *)

Definition fresh (ttl : Z) : Resolver := NewResolver DefaultTenant ttl.

Lemma fresh_device ttl e imei u :
  imei ≠ [] → lookup_down e = false → get_down e = false →
  fst (ForDeviceTopic (fresh ttl) e imei u) =
    belongs DefaultTenant (owner DefaultTenant (device_rows (db e)) imei) (has_tenant (db e) u) u.
Proof.
  intros Hi Hl Hg. set (s := MkSystem (fresh ttl) (now e) (db e) [(now e, db e)]).
  assert (Hs : resolver_ok s).
  { split; cbn; [left|by constructor| | |]; intros k x; by rewrite lookup_empty. }
  destruct (ask_ok s device_rows ∅ imei u false false Hs) as (_ & _ & H); [intros k x; by rewrite lookup_empty|].
  destruct (H Hi eq_refl eq_refl) as (d & d' & (t1 & Hd & _) & (t2 & Hd' & _) & Hx).
  apply list_elem_of_singleton in Hd as [= -> ->], Hd' as [= -> ->]. etransitivity; [|exact Hx].
  unfold ForDeviceTopic, LookupDeviceTenant. rewrite Hl, Hg. cbn [fresh NewResolver s res clock cur devices].
  by destruct (known _ _ _ _ _ _) as [[o k] c], (reconcile _ _ _ _ _ _).
Qed.

(** A failed lookup is read as an unregistered device, so the topic decides: the owner of
    record does not win while the store cannot be asked. *)
Theorem lookup_failure_moves_device ttl e imei u :
  lookup_down e = true → get_down e = false → u ≠ [] → u ≠ DefaultTenant → has_tenant (db e) u = true →
  fst (ForDeviceTopic (fresh ttl) e imei u) = u.
Proof.
  intros Hl Hg Hu Hd Ht. unfold ForDeviceTopic, LookupDeviceTenant, known, cached. rewrite Hl, Hg.
  cbn [fresh NewResolver devices]. rewrite lookup_empty. rewrite <- GetTenant_ok in Ht.
  assert (∀ x : name * bool * gmap name entry, x = (DefaultTenant, false, ∅) →
    fst (let '(owner, k, c) := x in
         let '(t, y) := reconcile (fresh ttl) (now e) owner k u (GetTenant false (db e) u) in
         (t, MkResolver DefaultTenant ttl c ∅ y)) = u) as H; [|apply H; by repeat case_match].
  intros x ->. unfold reconcile, tenantExists, cached. cbn [fresh NewResolver Tenancy.def Tenancy.tenants].
  rewrite lookup_empty, !bool_decide_false by done. destruct (GetTenant false (db e) u); [|done].
  change (Tenancy.ttl (fresh ttl)) with ttl. by destruct (0 <? ttl).
Qed.

Lemma lookup_failure_moves_device_witness :
  fst (ForDeviceTopic (fresh 30) (MkEnv 0 (MkTables [(str "1", str "t_b")] [] (tenant_rows sample_tables) []) true false)
         (str "1") (str "t_a")) = str "t_a".
Proof. by apply (lookup_failure_moves_device 30 (MkEnv 0 (MkTables [(str "1", str "t_b")] [] (tenant_rows sample_tables) []) true false)). Defined.

(** A topic that names a customer is never platform traffic, unless its device is named like a
    suffix; and a device registered to a customer is not, whatever topic it is on. *)
Theorem platform_topic_sound r e t d s :
  d ≠ [] → reserved d = false → known_suffix s = true →
  (customer t → suffix_head d = false → fst (IsPlatformTopic r e (DeviceTopic t d s)) = false) ∧
  (customer t → fst (IsPlatformTopic r e (BridgeTopic t d s)) = false) ∧
  (∀ v ttl, is_default t = true → lookup_down e = false → get_down e = false →
     lookupTenant false (device_rows (db e)) d = Ok v → v ≠ DefaultTenant →
     fst (IsPlatformTopic (fresh ttl) e (DeviceTopic t d s)) = false).
Proof.
  intros Hd Hr Hs. unfold IsPlatformTopic. split_and!.
  - intros Hc Hh. rewrite parse_device_customer, Hh, Hr by done.
    rewrite bool_decide_false; [done|]. intros ->. by destruct Hc as [? _].
  - intros Hc. destruct (ParseDeviceTopic _) as [x|] eqn:Ep.
    + apply device_not_hub in Ep as [Ep _]. by rewrite parse_bridge in Ep by auto.
    + rewrite parse_bridge by auto. unfold tenant_of. destruct Hc as [Hc _]. rewrite Hc, bool_decide_false; [done|]. by intros ->.
  - intros v ttl Ht Hl Hg Hv Hne. rewrite parse_device_default, Hr, bool_decide_true by done. cbn [fst].
    rewrite fresh_device by done. unfold belongs, owner. rewrite Hv. by apply bool_decide_eq_false.
Qed.

Lemma platform_topic_sound_witness :
  fst (IsPlatformTopic (fresh 30) (MkEnv 0 sample_tables false false)
         (DeviceTopic DefaultTenant (str "300434060000001") (str "position"))) = false.
Proof.
  refine (proj2 (proj2 (platform_topic_sound (fresh 30) (MkEnv 0 sample_tables false false) DefaultTenant
            (str "300434060000001") (str "position") _ _ _)) (str "t_a") 30 _ _ _ _ _); (done || reflexivity).
Defined.

(** C38: A customer's bridge can publish a report that the Hub takes for the platform's own: it
    names a device like a suffix, and the topic reads as the platform's device with the
    customer's id. *)
Theorem customer_reaches_platform `{NatsAuth.Broker} t b d k ttl e :
  customer t → NatsAuth.ValidBridgeID t = true → NatsAuth.ValidBridgeID b = true →
  d ∈ deviceSuffixHeads → k ∈ NatsAuth.reports →
  lookup_down e = false → get_down e = false → lookupTenant false (device_rows (db e)) t = Err ErrNotFound →
  let topic := DeviceTopic t d k in
  NatsAuth.publishes t b topic = true ∧
  fst (TenantForTopic (fresh ttl) e topic) = DefaultTenant ∧ fst (IsPlatformTopic (fresh ttl) e topic) = true.
Proof.
  intros Hc Hv Hb Hd Hk Hl Hg Hn topic.
  assert (NatsAuth.ValidBridgeID d = true) as Hvd by (revert Hd; by apply NatsAuth.suffix_laws).
  destruct (NatsAuth.report_publish t b d k) as [Hp Hs]; [by right|done..|]. split; [done|].
  assert (ParseDeviceTopic topic = Some (DefaultTenant, t, d ++ str "/" ++ k)) as Hparse.
  { unfold topic. rewrite parse_device_customer, (NatsAuth.valid_decode t) by (done || by apply NatsAuth.valid_ne).
    unfold suffix_head. by rewrite bool_decide_true. }
  unfold TenantForTopic, IsPlatformTopic. rewrite Hparse, (bool_decide_true (DefaultTenant = DefaultTenant)) by done. cbn [fst].
  rewrite fresh_device by (done || by apply customer_ne). unfold owner. by rewrite Hn.
Qed.

Lemma customer_reaches_platform_witness :
  fst (TenantForTopic (fresh 30) (MkEnv 0 sample_tables false false) (DeviceTopic NatsAuth.acme (str "mo") (str "sos"))) = DefaultTenant.
Proof.
  apply (@customer_reaches_platform NatsAuth.reference_broker NatsAuth.acme NatsAuth.kit1 (str "mo") (str "sos") 30
           (MkEnv 0 sample_tables false false));
    [apply NatsAuth.acme_customer|reflexivity|reflexivity|literal|literal|reflexivity..].
Defined.

(** A customer's bridge can publish a report that the Hub attributes to another customer: it
    names that customer's device under its own prefix, and the owner of record wins. *)
Theorem customer_reaches_customer `{NatsAuth.Broker} t b d k v ttl e :
  customer t → NatsAuth.ValidBridgeID t = true → NatsAuth.ValidBridgeID b = true →
  NatsAuth.ValidBridgeID d = true → suffix_head d = false → reserved d = false → k ∈ NatsAuth.reports →
  lookup_down e = false → get_down e = false → lookupTenant false (device_rows (db e)) d = Ok v →
  NatsAuth.publishes t b (DeviceTopic t d k) = true ∧ fst (TenantForTopic (fresh ttl) e (DeviceTopic t d k)) = v.
Proof.
  intros Hc Hv Hb Hd Hh Hr Hk Hl Hg Hn.
  destruct (NatsAuth.report_publish t b d k) as [Hp Hs]; [by right|done..|]. split; [done|].
  unfold TenantForTopic. rewrite parse_device_customer, Hh, Hr by (done || by apply NatsAuth.valid_ne).
  rewrite fresh_device by (done || by apply NatsAuth.valid_ne). unfold owner. by rewrite Hn.
Qed.

Lemma customer_reaches_customer_witness :
  fst (TenantForTopic (fresh 30) (MkEnv 0 sample_tables false false)
         (DeviceTopic NatsAuth.acme (str "300434060000001") (str "sos"))) = str "t_a".
Proof.
  apply (@customer_reaches_customer NatsAuth.reference_broker NatsAuth.acme NatsAuth.kit1 (str "300434060000001") (str "sos") (str "t_a") 30
           (MkEnv 0 sample_tables false false));
    [apply NatsAuth.acme_customer|reflexivity..|literal|reflexivity|reflexivity|reflexivity].
Defined.

End Tenancy.
