(* ===== verification/TenantLife.v ===== *)
(** The end of a tenant's life, [internal/tenancy/purge.go] and [evict.go] over the SQLite
    lifecycle queries, and the status cache every request asks, [status.go]. *)
From S2P Require Import Prelude Topics SqlTable Tenancy.

Module TenantLife.
Import Topics SqlTable Tenancy.

Definition TenantActive : name := str "active".
Definition TenantDeleted : name := str "deleted".
Definition PurgeGrace : Z := 30 * 24 * 60 * minute.

(** ** The queries *)

Inductive life_error := ErrReservedTenantID | ErrNoTenant | ErrQuery.

Definition SoftDeleteTenant (down : bool) (d : tables) (id : name) (at_ : Z) : result life_error tables :=
  if bool_decide (id = DefaultTenant) then Err ErrReservedTenantID
  else if down then Err ErrQuery
  else
    let x := sql_update (λ r, bool_decide (tID r = id))
               (λ r, MkTenant (tID r) (tSlug r) (tPlan r) TenantDeleted (fmtTime at_)) (tenant_rows d) in
    if (snd x =? 0)%nat then Err ErrNoTenant
    else Ok (MkTables (device_rows d) (bridge_rows d) (fst x) (scoped_rows d)).

(** [status=deleted AND deleted_at<>'' AND deleted_at<cutoff]; the text of a time orders as the
    time does. *)
Definition due (cutoff : Z) (r : TenantRow) : bool :=
  bool_decide (tStatus r = TenantDeleted) &&
  match tDeletedAt r, fmtTime cutoff with Some a, Some c => a <? c | _, _ => false end.

Definition by_deleted (a b : TenantRow) : Prop := default 0 (tDeletedAt a) <= default 0 (tDeletedAt b).
#[global] Instance by_deleted_dec : RelDecision by_deleted.
Proof. intros a b. unfold by_deleted. apply _. Defined.

Definition ListTenantsDeletedBefore (down : bool) (d : tables) (cutoff : Z) : result life_error (list TenantRow) :=
  if down then Err ErrQuery else Ok (merge_sort by_deleted (filter (λ r, due cutoff r = true) (tenant_rows d))).

(** One transaction over every table with a [tenant_id] column, and [tenants]. *)
Definition PurgeTenant (down : bool) (d : tables) (id : name) : result life_error tables :=
  if bool_decide (id = DefaultTenant) then Err ErrReservedTenantID
  else if down then Err ErrQuery
  else Ok (MkTables (filter (λ r, snd r ≠ id) (device_rows d)) (filter (λ r, snd r ≠ id) (bridge_rows d))
             (filter (λ r, tID r ≠ id) (tenant_rows d)) (filter (λ r, snd r ≠ id) (scoped_rows d))).

(** ** The status cache *)

Record statusEntry := MkStatus {
  sStatus : name;
  sPlan : name;
  sAt : Z }.

(** The entry, whether the read failed, and the cache after it. *)
Definition status_entry (ttl now : Z) (seen : gmap name statusEntry) (tenantID : name) (got : result lookup_error TenantRow) :
    statusEntry * bool * gmap name statusEntry :=
  let zero := MkStatus TenantActive [] 0 in
  let fetch :=
    match got with
    | Err _ => (zero, true, seen)
    | Ok t =>
        let e := MkStatus (if bool_decide (tStatus t = []) then TenantActive else tStatus t) (tPlan t) now in
        (e, false, if 0 <? ttl then <[tenantID := e]> seen else seen)
    end in
  if bool_decide (tenantID = []) then (zero, false, seen)
  else if 0 <? ttl then
    match seen !! tenantID with
    | Some e => if now - sAt e <? ttl then (e, false, seen) else fetch
    | None => fetch
    end
  else fetch.

Definition Status (ttl now : Z) seen tenantID got : name * bool :=
  let x := status_entry ttl now seen tenantID got in (sStatus (fst (fst x)), snd (fst x)).
Definition Plan (ttl now : Z) seen tenantID got : name * bool :=
  let x := status_entry ttl now seen tenantID got in (sPlan (fst (fst x)), snd (fst x)).

Definition forgetLocal (tenantID : name) (seen : gmap name statusEntry) : gmap name statusEntry := delete tenantID seen.

(** ** The replicas and the purge *)

(** A replica's caches. *)
Record replica := MkReplica {
  resolver : Resolver;
  statuses : gmap name statusEntry }.

Definition evictLocal (t : name) (r : replica) : replica :=
  MkReplica (ForgetTenant (resolver r) t) (forgetLocal t (statuses r)).

Record world := MkWorld {
  rows : tables;
  servers : gset name;
  audited : list name;
  leader : replica;
  others : list replica }.

(** Evict here, and say so on the bus unless the publish fails. *)
Definition Evict (lost : bool) (t : name) (w : world) : world :=
  if bool_decide (t = []) then w
  else MkWorld (rows w) (servers w) (audited w) (evictLocal t (leader w))
         (if lost then others w else evictLocal t <$> others w).

(** What fails while one tenant is purged. *)
Record faults := MkFaults {
  teardown_fails : bool;
  audit_fails : bool;
  purge_fails : bool;
  announce_fails : bool }.

(** The rows, and then the caches. *)
Definition destroy (f : faults) (t : name) (w : world) : world :=
  match PurgeTenant (purge_fails f) (rows w) t with
  | Err _ => w
  | Ok d => Evict (announce_fails f) t (MkWorld d (servers w) (audited w) (leader w) (others w))
  end.

(** The tenant's own server, and then the audit line, which goes in before the rows disappear. *)
Definition wind_up (hosted : bool) (f : faults) (t : name) (w : world) : world :=
  MkWorld (rows w) (if hosted then servers w ∖ {[t]} else servers w)
    (if audit_fails f then audited w else audited w ++ [t]) (leader w) (others w).

(** The body of the loop. *)
Definition purge_one (hosted : bool) (f : faults) (t : TenantRow) (w : world) : world :=
  if bool_decide (tID t = DefaultTenant) then w
  else if hosted && teardown_fails f then w
  else destroy f (tID t) (wind_up hosted f (tID t) w).

Definition once (hosted : bool) (grace now : Z) (list_fails : bool) (f : name → faults) (w : world) : world :=
  match ListTenantsDeletedBefore list_fails (rows w) (now - (if grace <=? 0 then PurgeGrace else grace)) with
  | Err _ => w
  | Ok l => foldl (λ w t, purge_one hosted (f (tID t)) t w) w l
  end.

(** ** All of a tenant or nothing of it *)

Definition of_tenant (t : name) (d : tables) : tables :=
  MkTables (filter (λ r, snd r = t) (device_rows d)) (filter (λ r, snd r = t) (bridge_rows d))
    (filter (λ r, tID r = t) (tenant_rows d)) (filter (λ r, snd r = t) (scoped_rows d)).

Definition no_rows : tables := MkTables [] [] [] [].

(** The replica's caches hold nothing of the tenant. *)
Definition evicted (t : name) (r : replica) : Prop :=
  uncached t (devices (resolver r)) ∧ uncached t (bridges (resolver r)) ∧
  tenants (resolver r) !! t = None ∧ statuses r !! t = None.

Record gone (hosted : bool) (t : name) (w : world) : Prop := {
  gone_rows : of_tenant t (rows w) = no_rows;
  gone_server : hosted = true → t ∉ servers w;
  gone_cache : t ≠ [] → evicted t (leader w) }.

Lemma filter_twice {A} (P Q : A → Prop) `{!∀ x, Decision (P x), !∀ x, Decision (Q x)} (l : list A) :
  (∀ x, Q x → P x) → filter Q (filter P l) = filter Q l.
Proof.
  intros HPQ. induction l as [|x l IH]; [done|]. rewrite !filter_cons. destruct (decide (P x)) as [HP|HP].
  - rewrite filter_cons. by rewrite IH.
  - destruct (decide (Q x)) as [HQ|HQ]; [by apply HPQ in HQ|done].
Qed.

Lemma filter_none_left {A} (P Q : A → Prop) `{!∀ x, Decision (P x), !∀ x, Decision (Q x)} (l : list A) :
  (∀ x, Q x → ¬ P x) → filter Q (filter P l) = [].
Proof.
  intros HPQ. induction l as [|x l IH]; [done|]. rewrite filter_cons. destruct (decide (P x)) as [HP|HP]; [|done].
  rewrite filter_cons, decide_False by naive_solver. done.
Qed.

Lemma purge_other t u d d' : t ≠ u → PurgeTenant false d u = Ok d' → of_tenant t d' = of_tenant t d.
Proof.
  intros Hne. unfold PurgeTenant. case_bool_decide; [done|]. intros [= <-]. unfold of_tenant. cbn.
  f_equal; apply filter_twice; naive_solver.
Qed.

Lemma purge_same t d d' : PurgeTenant false d t = Ok d' → of_tenant t d' = no_rows.
Proof.
  unfold PurgeTenant. case_bool_decide; [done|]. intros [= <-]. unfold of_tenant, no_rows. cbn.
  f_equal; apply filter_none_left; naive_solver.
Qed.

Lemma evict_same t r : t ≠ [] → evicted t (evictLocal t r).
Proof.
  intros Ht. unfold evicted, evictLocal, ForgetTenant. rewrite bool_decide_false by done. cbn. split_and!.
  1,2: intros k e [_ He]%map_lookup_filter_Some; done.
  all: apply lookup_delete_eq.
Qed.

Lemma evict_keeps t u r : evicted t r → evicted t (evictLocal u r).
Proof.
  intros (Hd & Hb & Ht & Hs). unfold evicted, evictLocal, ForgetTenant, forgetLocal. cbn. split_and!.
  - case_bool_decide; [done|]. eapply uncached_sub, Hd. apply map_filter_subseteq.
  - case_bool_decide; [done|]. eapply uncached_sub, Hb. apply map_filter_subseteq.
  - case_bool_decide; [done|]. cbn. by rewrite lookup_delete_None; right.
  - rewrite lookup_delete_None. by right.
Qed.

(** What [destroy] does to one tenant and to the rest. *)
Lemma destroy_other f u t w :
  t ≠ u →
  of_tenant t (rows (destroy f u w)) = of_tenant t (rows w) ∧ servers (destroy f u w) = servers w ∧
  (evicted t (leader w) → evicted t (leader (destroy f u w))).
Proof.
  intros Hne. unfold destroy. destruct (PurgeTenant _ _ _) as [d|e] eqn:Ep; [|done]. unfold Evict.
  destruct (purge_fails f); [unfold PurgeTenant in Ep; by case_match|].
  apply (purge_other t) in Ep; [|done]. case_bool_decide; cbn; split_and!; auto using evict_keeps.
Qed.

Lemma destroy_same f t w :
  of_tenant t (rows (destroy f t w)) = of_tenant t (rows w) ∧ purge_fails f = true ∨
  t = DefaultTenant ∨
  of_tenant t (rows (destroy f t w)) = no_rows ∧ servers (destroy f t w) = servers w ∧ (t ≠ [] → evicted t (leader (destroy f t w))).
Proof.
  unfold destroy. destruct (PurgeTenant _ _ _) as [d|e] eqn:Ep.
  - right. right. unfold Evict. destruct (purge_fails f); [unfold PurgeTenant in Ep; by case_match|].
    apply purge_same in Ep. case_bool_decide; cbn; split_and!; auto using evict_same. done.
  - unfold PurgeTenant in Ep. case_bool_decide; [by right; left|]. left. by destruct (purge_fails f).
Qed.

Lemma purge_one_other hosted f r t w :
  t ≠ tID r →
  of_tenant t (rows (purge_one hosted f r w)) = of_tenant t (rows w) ∧
  (t ∈ servers (purge_one hosted f r w) ↔ t ∈ servers w) ∧
  (evicted t (leader w) → evicted t (leader (purge_one hosted f r w))).
Proof.
  intros Hne. unfold purge_one. case_bool_decide; [done|]. case_match; [done|].
  destruct (destroy_other f (tID r) t (wind_up hosted f (tID r) w) Hne) as (H1 & H2 & H3).
  rewrite H1, H2. cbn. split; [done|]. split; [|done]. destruct hosted; set_solver.
Qed.

Lemma purge_one_same hosted f r w :
  of_tenant (tID r) (rows (purge_one hosted f r w)) = of_tenant (tID r) (rows w) ∨
  tID r ≠ DefaultTenant ∧ gone hosted (tID r) (purge_one hosted f r w).
Proof.
  unfold purge_one. case_bool_decide; [by left|]. case_match; [by left|].
  destruct (destroy_same f (tID r) (wind_up hosted f (tID r) w)) as [[H1 _]|[?|(H1 & H2 & H3)]]; [by left|done|].
  right. split; [done|]. split; [done| |done]. intros ->. rewrite H2. cbn. set_solver.
Qed.

Lemma gone_stays hosted f r t w : gone hosted t w → gone hosted t (purge_one hosted f r w).
Proof.
  intros [Hr Hs Hc]. destruct (decide (t = tID r)) as [->|Hne].
  - destruct (purge_one_same hosted f r w) as [Hu|[_ ?]]; [|done]. split; [by rewrite Hu| |].
    + intros Hh. specialize (Hs Hh). unfold purge_one, destroy, Evict. repeat case_match; cbn; try done; subst; set_solver.
    + intros Ht. specialize (Hc Ht). unfold purge_one, destroy, Evict. repeat case_match; cbn; try done; by apply evict_same.
  - destruct (purge_one_other hosted f r t w Hne) as (H1 & H2 & H3). split; [by rewrite H1| |auto].
    intros Hh. rewrite H2. auto.
Qed.

Lemma purge_all_outcome hosted f l t w :
  let w' := foldl (λ w r, purge_one hosted (f (tID r)) r w) w l in
  (of_tenant t (rows w') = of_tenant t (rows w) ∧ (t ∉ tID <$> l → t ∈ servers w' ↔ t ∈ servers w)) ∨
  t ≠ DefaultTenant ∧ t ∈ tID <$> l ∧ gone hosted t w'.
Proof.
  revert w. induction l as [|r l IH]; intros w; [left; done|]. cbn. set (w1 := purge_one hosted (f (tID r)) r w).
  destruct (decide (t = tID r)) as [->|Hne].
  - destruct (purge_one_same hosted (f (tID r)) r w) as [Hu|[Hd Hg]].
    + destruct (IH w1) as [[H1 _]|(H1 & _ & H2)]; [left|right].
      * split; [by rewrite H1|]. intros []. left.
      * split; [done|]. split; [left|done].
    + right. split; [done|]. split; [left|]. fold w1 in Hg. clear -Hg. revert Hg. generalize w1 as w2.
      induction l as [|r' l IHl]; intros w2 Hg; [done|]. cbn. apply IHl. by apply gone_stays.
  - destruct (purge_one_other hosted (f (tID r)) r t w Hne) as (H1 & H2 & _). fold w1 in H1, H2.
    destruct (IH w1) as [[H3 H4]|(H3 & H4 & H5)]; [left|right].
    + split; [congruence|]. rewrite not_elem_of_cons. intros [_ Hl]. by rewrite H4.
    + split; [done|]. split; [by right|done].
Qed.


Definition no_faults : faults := MkFaults false false false false.

(** A world with the platform, a customer closed long ago and one closed a moment ago. *)
Definition sample_world : world :=
  MkWorld
    (MkTables [(str "1", str "t_a"); (str "2", str "t_b")] []
       [MkTenant DefaultTenant DefaultTenant (str "beta") (str "active") None;
        MkTenant (str "t_a") (str "a") (str "free") TenantDeleted (Some 1000);
        MkTenant (str "t_b") (str "b") (str "free") TenantDeleted (Some 2592900)] [])
    {[str "t_a"; str "t_b"]} [] (MkReplica (fresh 30) ∅) [MkReplica (fresh 30) ∅].

Definition sample_now : Z := 2593000 * second.

(** The long-closed customer goes and the other stays. *)
Lemma sample_purge :
  map tID (tenant_rows (rows (once true PurgeGrace (sample_now + 2000 * second) false (λ _, no_faults) sample_world))) =
    [DefaultTenant; str "t_b"].
Proof. by vm_compute. Qed.


(** Nothing of a tenant is destroyed before the grace has passed since it was closed. *)
Theorem purge_grace_respected hosted grace now list_fails f w id at_ d :
  0 < grace → at_ ≠ 0 → SoftDeleteTenant false (rows w) id at_ = Ok d → now <= at_ + grace →
  let w1 := MkWorld d (servers w) (audited w) (leader w) (others w) in
  of_tenant id (rows (once hosted grace now list_fails f w1)) = of_tenant id d.
Proof.
  intros Hg Hat Hd Hnow w1. unfold once, ListTenantsDeletedBefore. destruct (Z.leb_spec grace 0); [lia|].
  destruct list_fails; [done|]. set (l := merge_sort _ _). destruct (purge_all_outcome hosted f l id w1) as [[H1 _]|(_ & H2 & _)]; [done|].
  exfalso. unfold l in H2. rewrite merge_sort_Permutation, list_elem_of_fmap in H2.
  destruct H2 as (r & -> & [Hr Hin]%list_elem_of_filter).
  unfold SoftDeleteTenant in Hd. repeat (case_match; [done|]). injection Hd as <-. cbn in Hin.
  apply list_elem_of_fmap in Hin as (r0 & Hr0 & _). unfold due in Hr. case_bool_decide as Hid; subst r; cbn in *; [|done].
  apply andb_true_iff in Hr as [_ Hr]. unfold fmtTime in Hr. destruct (Z.eqb_spec at_ 0); [done|].
  destruct (Z.eqb_spec (now - grace) 0); [done|]. zbool.
  assert ((now - grace) / second <= at_ / second) by (apply Z.div_le_mono; unfold second; lia). lia.
Qed.

Definition open_world : world :=
  MkWorld (MkTables [(str "1", str "t_b")] [] [MkTenant (str "t_b") (str "b") (str "free") (str "active") None] [])
    {[str "t_b"]} [] (MkReplica (fresh 30) ∅) [].

Definition closed_tables : tables :=
  MkTables [(str "1", str "t_b")] [] [MkTenant (str "t_b") (str "b") (str "free") TenantDeleted (Some 5)] [].

Lemma purge_grace_respected_witness :
  of_tenant (str "t_b") (rows (once true PurgeGrace (7 * second) false (λ _, no_faults)
    (MkWorld closed_tables (servers open_world) [] (leader open_world) []))) = of_tenant (str "t_b") closed_tables.
Proof.
  apply (purge_grace_respected true PurgeGrace (7 * second) false (λ _, no_faults) open_world (str "t_b") (5 * second) closed_tables);
    vm_compute; (done || reflexivity).
Defined.

Lemma purge_one_done hosted r w :
  tID r ≠ DefaultTenant → tID r ≠ [] →
  gone hosted (tID r) (purge_one hosted no_faults r w) ∧ Forall (evicted (tID r)) (others (purge_one hosted no_faults r w)).
Proof.
  intros Hd Hne. unfold purge_one. rewrite bool_decide_false, andb_false_r by done.
  destruct (destroy_same no_faults (tID r) (wind_up hosted no_faults (tID r) w)) as [[_ [=]]|[?|(H1 & H2 & H3)]]; [done|].
  split.
  - split; [done| |done]. intros ->. rewrite H2. cbn. set_solver.
  - unfold destroy, PurgeTenant. cbn [purge_fails no_faults]. rewrite bool_decide_false by done. unfold Evict.
    rewrite bool_decide_false by done. cbn. apply Forall_fmap, Forall_true. intros x. by apply evict_same.
Qed.

Lemma others_stay hosted f r t w : Forall (evicted t) (others w) → Forall (evicted t) (others (purge_one hosted f r w)).
Proof.
  intros Ho. unfold purge_one, destroy, Evict. repeat case_match; cbn; try done.
  apply Forall_fmap. eapply Forall_impl; [done|]. intros x. apply evict_keeps.
Qed.

(** When nothing fails, one run takes every tenant that is due, on every replica. *)
Theorem purge_completes hosted grace now w t r :
  0 < grace → r ∈ tenant_rows (rows w) → tID r = t → due (now - grace) r = true → t ≠ DefaultTenant → t ≠ [] →
  let w' := once hosted grace now false (λ _, no_faults) w in
  gone hosted t w' ∧ Forall (evicted t) (others w').
Proof.
  intros Hg Hr Ht Hdue Hd Hne. unfold once, ListTenantsDeletedBefore. destruct (Z.leb_spec grace 0); [lia|].
  set (l := merge_sort _ _).
  assert (Hl : t ∈ tID <$> l).
  { unfold l. rewrite merge_sort_Permutation, list_elem_of_fmap. exists r. split; [done|]. by apply list_elem_of_filter. }
  clearbody l. cbn zeta. clear r Hr Ht Hdue. revert w. induction l as [|r l IH]; intros w; [by apply not_elem_of_nil in Hl|].
  apply elem_of_cons in Hl as [->|Hl]; [|by apply IH]. cbn. clear IH.
  destruct (purge_one_done hosted r w Hd Hne) as [H1 H2]. revert H1 H2. generalize (purge_one hosted no_faults r w). clear w.
  induction l as [|r' l IHl]; intros w H1 H2; [done|]. cbn. apply IHl; [by apply gone_stays|by apply others_stay].
Qed.

Lemma purge_completes_witness :
  gone true (str "t_a") (once true PurgeGrace (sample_now + 2000 * second) false (λ _, no_faults) sample_world).
Proof.
  apply (purge_completes true PurgeGrace (sample_now + 2000 * second) sample_world (str "t_a")
           (MkTenant (str "t_a") (str "a") (str "free") TenantDeleted (Some 1000))); try done.
  apply elem_of_cons. right. left.
Defined.

(** ** The status cache is recent *)

Record status_system := MkStatusSystem {
  seen : gmap name statusEntry;
  sclock : Z;
  scur : tables;
  shist : history }.

Inductive status_action :=
| STick (d : Z)
| SWrite (d : tables)
| SAsk (t : name) (down : bool)
| SForget (t : name).

Definition status_act (ttl : Z) (s : status_system) (a : status_action) : status_system :=
  match a with
  | STick d => let n := sclock s + Z.max 0 d in MkStatusSystem (seen s) n (scur s) ((n, scur s) :: shist s)
  | SWrite d => MkStatusSystem (seen s) (sclock s) d ((sclock s, d) :: shist s)
  | SAsk t down => MkStatusSystem (snd (status_entry ttl (sclock s) (seen s) t (GetTenant down (scur s) t))) (sclock s) (scur s) (shist s)
  | SForget t => MkStatusSystem (forgetLocal t (seen s)) (sclock s) (scur s) (shist s)
  end.

(** What the row says. *)
Definition row_status (r : TenantRow) : name := if bool_decide (tStatus r = []) then TenantActive else tStatus r.

Record status_ok (s : status_system) : Prop := {
  so_now : (sclock s, scur s) ∈ shist s;
  so_past : Forall (λ td, td.1 ≤ sclock s) (shist s);
  so_seen : ∀ k e, seen s !! k = Some e →
    ∃ d r, (sAt e, d) ∈ shist s ∧ GetTenant false d k = Ok r ∧ sStatus e = row_status r ∧ sPlan e = tPlan r }.

Lemma status_act_ok ttl s a : status_ok s → status_ok (status_act ttl s a).
Proof.
  intros [Hn Hp Hs]. destruct a as [d|d|t down|t]; cbn.
  - split; cbn; [left| |].
    + constructor; [done|]. eapply Forall_impl; [done|]. cbn. intros x Hx. lia.
    + intros k e He. destruct (Hs k e He) as (d' & r & ? & ?). exists d', r. split; [by right|done].
  - split; cbn; [left|by constructor|]. intros k e He. destruct (Hs k e He) as (d' & r & ? & ?). exists d', r. split; [by right|done].
  - split; cbn; [done..|]. intros k e. unfold status_entry.
    destruct (GetTenant down (scur s) t) as [r|] eqn:Eg; [|by repeat case_match; cbn; apply Hs].
    assert (GetTenant false (scur s) t = Ok r) as Eg' by (by destruct down).
    repeat case_match; cbn; try apply Hs.
    all: intros [[<- <-]|[_ ?]]%lookup_insert_Some; [|by apply Hs].
    all: exists (scur s), r; unfold row_status; cbn; split_and!; try done; by case_match.
  - split; cbn; [done..|]. unfold forgetLocal. intros k e [_ He]%lookup_delete_Some. by apply Hs.
Qed.

Lemma status_acts_ok ttl l s : status_ok s → status_ok (foldl (status_act ttl) s l).
Proof. revert s. induction l as [|a l IH]; intros s Hs; [done|]. cbn. by apply IH, status_act_ok. Qed.

(** The status a request is gated on is the tenant's at a moment less than the cache's lifetime
    ago, and the one in the table now once the entry has been dropped. *)
Theorem status_bounded_stale ttl d0 l t r :
  t ≠ [] →
  let s := foldl (status_act ttl) (MkStatusSystem ∅ 0 d0 [(0, d0)]) l in
  GetTenant false (scur s) t = Ok r →
  (∃ d r', recently (shist s) ttl (sclock s) d ∧ GetTenant false d t = Ok r' ∧
     Status ttl (sclock s) (seen s) t (Ok r) = (row_status r', false)) ∧
  Status ttl (sclock s) (forgetLocal t (seen s)) t (Ok r) = (row_status r, false).
Proof.
  intros Ht s Hr. assert (status_ok s) as [Hn Hp Hs].
  { apply status_acts_ok. split; cbn; [left|by constructor|]. intros k e. by rewrite lookup_empty. }
  assert (Hfetch : ∃ d r', recently (shist s) ttl (sclock s) d ∧ GetTenant false d t = Ok r' ∧
     (row_status r, false) = (row_status r', false)).
  { exists (scur s), r. split; [by apply recent_now|done]. }
  unfold Status, status_entry, forgetLocal. rewrite bool_decide_false, lookup_delete_eq by done. split; [|by destruct (0 <? ttl)].
  destruct (0 <? ttl); [|done]. destruct (seen s !! t) as [e|] eqn:Ee; [|done].
  destruct (Z.ltb_spec (sclock s - sAt e) ttl); [|done]. cbn.
  destruct (Hs t e Ee) as (d & r' & Hin & Hg & Hst & _). exists d, r'. split; [|by rewrite Hst].
  apply (recent_entry ttl (sclock s) (shist s) Hp (sAt e)); [done|lia].
Qed.

Lemma status_bounded_stale_witness :
  Status 15 0 (forgetLocal (str "t_a") ∅) (str "t_a") (Ok (MkTenant (str "t_a") (str "a") (str "free") (str "suspended") None))
    = (str "suspended", false).
Proof.
  refine (proj2 (status_bounded_stale 15 (MkTables [] [] [MkTenant (str "t_a") (str "a") (str "free") (str "suspended") None] []) []
    (str "t_a") (MkTenant (str "t_a") (str "a") (str "free") (str "suspended") None) _ _)); done.
Defined.

End TenantLife.
