(* ===== verification/AuditLog.v ===== *)
(** The tamper-evident audit log: the digests, the append, the verifier and the retention of
    [internal/audit], over the queries of the SQLite store.  Times are microseconds since
    1 January of year 1; byte strings are lists of byte values. *)
From S2P Require Import Prelude Calendar Sha Hubmsg.

Module AuditLog.
Import Calendar.

Notation bytes := (list Z).

Record AuditEntry := MkEntry {
  ID : bytes;
  Action : bytes;
  Actor : bytes;
  Detail : bytes;
  IP : bytes;
  PrevHash : bytes;
  Hash : bytes;
  HashVersion : Z;
  CreatedAt : Z }.

#[export] Instance AuditEntry_eq : EqDecision AuditEntry.
Proof. solve_decision. Defined.

Definition HashVersionCurrent : Z := 2.

Definition micro : Z := 1000.
Definition second_us : Z := 1000000.
Definition day_us : Z := 86400 * second_us.

(** [hashTimeLayout] of a UTC time. *)
Definition hash_time (t : Z) : bytes :=
  let s := t / second_us in
  let '(y, m, d) := civil (s / 86400) in
  let r := s mod 86400 in
  digits 4 y ++ str "-" ++ digits 2 m ++ str "-" ++ digits 2 d ++ str "T"
  ++ digits 2 (r / 3600) ++ str ":" ++ digits 2 (r / 60 mod 60) ++ str ":" ++ digits 2 (r mod 60)
  ++ str "." ++ digits 6 (t mod second_us) ++ str "Z".

(** [fmt.Fprintf(h, "%d:%s;", len(f), f)]. *)
Definition field (f : bytes) : bytes := Hubmsg.FormatInt (Zlen f) ++ str ":" ++ f ++ str ";".

Definition v1_preimage (e : AuditEntry) : bytes :=
  Action e ++ str "|" ++ Actor e ++ str "|" ++ Detail e ++ str "|" ++ IP e ++ str "|" ++ PrevHash e.

Definition ComputeHash (e : AuditEntry) : bytes := Hubmsg.hex_encode (Sha.sha256 (v1_preimage e)).

Definition v2_fields (tenantID : bytes) (e : AuditEntry) : list bytes :=
  [str "v2"; tenantID; ID e; hash_time (CreatedAt e); Action e; Actor e; Detail e; IP e; PrevHash e].

Definition v2_preimage (tenantID : bytes) (e : AuditEntry) : bytes := v2_fields tenantID e ≫= field.

Definition ComputeHashV2 (tenantID : bytes) (e : AuditEntry) : bytes :=
  Hubmsg.hex_encode (Sha.sha256 (v2_preimage tenantID e)).

(** [now.UnixNano()]. *)
Definition unix_nano (t : Z) : Z := (t - 62135596800 * second_us) * micro.

Definition newEntryID (now : Z) (random : bytes) : bytes :=
  str "aud-" ++ bytes_of_string (pretty (unix_nano now)) ++ str "-" ++ Hubmsg.hex_encode random.

(** ** The table *)

(** The rows in rowid order, with their tenant. *)
Notation table := (list (bytes * AuditEntry)).

Definition of_tenant (t : bytes) (tbl : table) : list AuditEntry := snd <$> filter (λ r, fst r = t) tbl.

Inductive audit_error := ErrConstraint | ErrDB.

(** The primary key on [id] and the unique index on [(tenant_id, prev_hash)]. *)
Definition insertAuditEntry (tbl : table) (t : bytes) (e : AuditEntry) : result audit_error table :=
  if bool_decide (ID e ∈ ID ∘ snd <$> tbl) || bool_decide (PrevHash e ∈ PrevHash <$> of_tenant t tbl)
  then Err ErrConstraint else Ok (tbl ++ [(t, e)]).

Definition GetLatestAuditEntry (tbl : table) (t : bytes) : option AuditEntry := last (of_tenant t tbl).

Definition AppendAuditEntry (down : bool) (tbl : table) (t : bytes) (build : option AuditEntry → AuditEntry) : result audit_error table :=
  if down then Err ErrDB else insertAuditEntry tbl t (build (GetLatestAuditEntry tbl t)).

Definition limited {A} (limit : Z) (l : list A) : list A := if 0 <? limit then take (Z.to_nat limit) l else l.

Definition ListAuditEntries (tbl : table) (t : bytes) (limit : Z) : list AuditEntry := limited limit (reverse (of_tenant t tbl)).

Definition ListAuditEntriesByAction (tbl : table) (t : bytes) (actions : list bytes) (limit : Z) : list AuditEntry :=
  limited limit (filter (λ e, Action e ∈ actions) (reverse (of_tenant t tbl))).

(** [created_at < cutoff] on the column's text against a whole second. *)
Definition before (cutoff : Z) (e : AuditEntry) : bool := CreatedAt e / second_us <? cutoff / second_us.

Definition ListAuditEntriesBefore (tbl : table) (t : bytes) (cutoff limit : Z) : list AuditEntry :=
  limited limit (filter (λ e, before cutoff e = true) (of_tenant t tbl)).

Definition DeleteAuditEntriesBefore (tbl : table) (t : bytes) (cutoff : Z) : table :=
  filter (λ r, fst r ≠ t ∨ before cutoff (snd r) = false) tbl.

(** ** The service *)

(** The callback of [Log]: [now] is the replica's clock in nanoseconds. *)
Definition next_entry (t action actor detail ip : bytes) (now : Z) (random : bytes) (prev : option AuditEntry) : AuditEntry :=
  let clock := now / micro in
  let at_ := match prev with Some p => if clock <=? CreatedAt p then CreatedAt p + 1 else clock | None => clock end in
  let prevHash := match prev with Some p => Hash p | None => [] end in
  let e := MkEntry (newEntryID at_ random) action actor detail ip prevHash [] HashVersionCurrent at_ in
  MkEntry (ID e) action actor detail ip prevHash (ComputeHashV2 t e) HashVersionCurrent at_.

Definition Log (down : bool) (tbl : table) (t action actor detail ip : bytes) (now : Z) (random : bytes) : result audit_error table :=
  AppendAuditEntry down tbl t (next_entry t action actor detail ip now random).

(** The loop of [VerifyChain], oldest first: [None], or the entry that breaks the chain. *)
Fixpoint walk_chain (t : bytes) (prevHash : bytes) (seenV2 : bool) (verified : nat) (l : list AuditEntry) : nat * option AuditEntry :=
  match l with
  | [] => (verified, None)
  | e :: l =>
      if negb (bool_decide (PrevHash e = prevHash)) then (verified, Some e)
      else if HashVersion e =? 1 then
        if seenV2 then (verified, Some e)
        else if negb (bool_decide (Hash e = ComputeHash e)) then (verified, Some e)
        else walk_chain t (Hash e) seenV2 (S verified) l
      else if HashVersion e =? 2 then
        if negb (bool_decide (Hash e = ComputeHashV2 t e)) then (verified, Some e)
        else walk_chain t (Hash e) true (S verified) l
      else (verified, Some e)
  end.

Definition VerifyChain (tbl : table) (t : bytes) : nat * option AuditEntry :=
  let entries := reverse (ListAuditEntries tbl t 0) in
  walk_chain t (match entries with e :: _ => PrevHash e | [] => [] end) false 0 entries.

(** ** Retention *)

(** What an archive holds at each place, one per tenant and day. *)
Notation archive := (gmap (bytes * Z) (list AuditEntry)).

(** A file is appended to; an object is replaced. *)
Inductive Sink := FileSink | S3Sink.

Definition Write (s : Sink) (a : archive) (t : bytes) (cutoff : Z) (entries : list AuditEntry) : archive :=
  let place := (t, cutoff / day_us) in
  match s with
  | FileSink => <[place := default [] (a !! place) ++ entries]> a
  | S3Sink => <[place := entries]> a
  end.

(** What fails in one tenant's run; a failed file write leaves the lines already written. *)
Record retention_faults := MkRetentionFaults {
  list_fails : bool;
  write_fails : option nat;
  delete_fails : bool }.

Definition failed_write (s : Sink) (n : nat) (a : archive) (t : bytes) (cutoff : Z) (entries : list AuditEntry) : archive :=
  match s with FileSink => Write FileSink a t cutoff (take n entries) | S3Sink => a end.

Definition delete_step (f : retention_faults) (tbl : table) (t : bytes) (cutoff : Z) : table :=
  if delete_fails f then tbl else DeleteAuditEntriesBefore tbl t cutoff.

Definition purgeTenant (sink : option Sink) (f : retention_faults) (tbl : table) (a : archive) (t : bytes) (cutoff : Z) : table * archive :=
  match sink with
  | None => (delete_step f tbl t cutoff, a)
  | Some s =>
      if list_fails f then (tbl, a)
      else
        let entries := ListAuditEntriesBefore tbl t cutoff 0 in
        if bool_decide (entries = []) then (delete_step f tbl t cutoff, a)
        else match write_fails f with
        | Some n => (tbl, failed_write s n a t cutoff entries)
        | None => (delete_step f tbl t cutoff, Write s a t cutoff entries)
        end
  end.

Record RetentionConfig := MkConfig {
  RetentionDays : Z;
  MinDays : Z;
  MaxDays : Z }.

(** A tenant's retention: its own choice within the bounds, or the platform's default. *)
Definition days (cfg : RetentionConfig) (own : Z) : Z :=
  if own <=? 0 then RetentionDays cfg
  else if (0 <? MinDays cfg) && (own <? MinDays cfg) then MinDays cfg
  else if (0 <? MaxDays cfg) && (MaxDays cfg <? own) then MaxDays cfg
  else own.

(** [tenants] are the rows (id, audit_retention_days), [None] when they cannot be listed; the
    last row of the default tenant decides for it. *)
Definition targets (cfg : RetentionConfig) (default_id : bytes) (tenants : option (list (bytes * Z))) : list (bytes * Z) :=
  match tenants with
  | None => [(default_id, RetentionDays cfg)]
  | Some l =>
      (default_id, foldl (λ d r, if bool_decide (fst r = default_id) then days cfg (snd r) else d) (RetentionDays cfg) l)
      :: ((λ r, (fst r, days cfg (snd r))) <$> filter (λ r, fst r ≠ default_id) l)
  end.

Definition purgeAll (cfg : RetentionConfig) (sink : option Sink) (f : bytes → retention_faults) (default_id : bytes)
    (tenants : option (list (bytes * Z))) (now : Z) (s : table * archive) : table * archive :=
  foldl (λ s r, if snd r <=? 0 then s else purgeTenant sink (f (fst r)) (fst s) (snd s) (fst r) (now - snd r * day_us))
    s (targets cfg default_id tenants).

(** ** The digest binds every field *)

Lemma FormatInt_no_colon n : 58 ∉ Hubmsg.FormatInt n.
Proof.
  unfold Hubmsg.FormatInt, bytes_of_string. rewrite list_elem_of_fmap. intros (c & Hc & Hin).
  apply (pretty_no_colon (Z.to_N n)). replace colon with c; [done|].
  rewrite <- (Ascii.ascii_N_embedding c), <- (Ascii.ascii_N_embedding colon). f_equal. change (Ascii.N_of_ascii colon) with 58%N. lia.
Qed.

Lemma FormatInt_inj a b : 0 <= a → 0 <= b → Hubmsg.FormatInt a = Hubmsg.FormatInt b → a = b.
Proof.
  intros Ha Hb H. unfold Hubmsg.FormatInt, bytes_of_string in H. apply list_fmap_eq_inj in H.
  - apply chars_inj in H. apply (inj pretty) in H. lia.
  - intros x y Hxy. rewrite <- (Ascii.ascii_N_embedding x), <- (Ascii.ascii_N_embedding y). f_equal. lia.
Qed.

Lemma split_at_first {A} (c : A) l1 l2 d1 d2 :
  c ∉ l1 → c ∉ l2 → l1 ++ c :: d1 = l2 ++ c :: d2 → l1 = l2 ∧ d1 = d2.
Proof.
  revert l2. induction l1 as [|x l1 IH]; intros [|y l2] H1 H2 H; cbn in H; simplify_eq; [done| | |].
  - by destruct H2; left.
  - by destruct H1; left.
  - rewrite not_elem_of_cons in H1, H2. destruct (IH l2) as [-> ->]; naive_solver.
Qed.

Lemma field_inj f g r r' : field f ++ r = field g ++ r' → f = g ∧ r = r'.
Proof.
  unfold field. rewrite <- !app_assoc. change (str ":" ++ ?x) with (58 :: x).
  intros [Hn Hr]%split_at_first; [|apply FormatInt_no_colon..].
  apply FormatInt_inj in Hn; [|unfold Zlen; lia..]. unfold Zlen in Hn. apply Nat2Z.inj in Hn.
  apply app_inj_1 in Hr as [-> Hr]; [|done]. split; [done|]. by injection Hr.
Qed.

Lemma field_ne f r : field f ++ r ≠ [].
Proof. unfold field. rewrite <- !app_assoc. intros H%app_eq_nil. by destruct H. Qed.

Lemma audit_fields_inj fs gs : fs ≫= field = gs ≫= field → fs = gs.
Proof.
  revert gs. induction fs as [|f fs IH]; intros [|g gs]; cbn; intros H; [done| | |].
  - symmetry in H. by apply field_ne in H.
  - by apply field_ne in H.
  - apply field_inj in H as [-> H]. by rewrite (IH gs).
Qed.

(** A time whose year has four digits. *)
Definition time_ok (t : Z) : Prop := 0 <= fst (fst (civil (t / second_us / 86400))) < 10000.

Lemma clock_inj a b : a / 3600 = b / 3600 → a / 60 mod 60 = b / 60 mod 60 → a mod 60 = b mod 60 → a = b.
Proof.
  assert (∀ x, x = x / 3600 * 3600 + x / 60 mod 60 * 60 + x mod 60) as H by (intros x; Z.to_euclidean_division_equations; lia).
  intros H1 H2 H3. rewrite (H a), (H b). by rewrite H1, H2, H3.
Qed.

Lemma hash_time_inj a b : time_ok a → time_ok b → hash_time a = hash_time b → a = b.
Proof.
  unfold time_ok, hash_time. destruct (civil (a / second_us / 86400)) as [[ya ma] da] eqn:Ea.
  destruct (civil (b / second_us / 86400)) as [[yb mb] db] eqn:Eb. cbn [fst]. intros Ha Hb H.
  pose proof (civil_bounds _ _ _ _ Ea) as [? ?]. pose proof (civil_bounds _ _ _ _ Eb) as [? ?].
  set (ra := a / second_us mod 86400) in *. set (rb := b / second_us mod 86400) in *.
  assert (0 <= ra < 86400) by (apply Z.mod_pos_bound; lia). assert (0 <= rb < 86400) by (apply Z.mod_pos_bound; lia).
  assert (0 <= a mod second_us < 1000000) by (apply Z.mod_pos_bound; done).
  assert (0 <= b mod second_us < 1000000) by (apply Z.mod_pos_bound; done).
  repeat (apply app_inj_1 in H as [?Hd H]; [|by rewrite ?digits_length]).
  apply digits_inj in Hd, Hd1, Hd3, Hd5, Hd7, Hd9, Hd11; cbn;
    try lia; try (Z.to_euclidean_division_equations; lia).
  assert (a / second_us / 86400 = b / second_us / 86400) by (apply civil_inj; congruence).
  assert (ra = rb) as Hr by (apply clock_inj; done).
  assert (a / second_us = b / second_us) as Hs by (rewrite (Z.div_mod (a / second_us) 86400), (Z.div_mod (b / second_us) 86400); lia).
  rewrite (Z.div_mod a second_us), (Z.div_mod b second_us) by done. by rewrite Hs, Hd11.
Qed.

(** Two different inputs with one digest. *)
Definition sha256_collision : Prop := ∃ x y : bytes, x ≠ y ∧ Sha.sha256 x = Sha.sha256 y.

Lemma hex_inj a b : bytes_ok a → bytes_ok b → Hubmsg.hex_encode a = Hubmsg.hex_encode b → a = b.
Proof. intros [Ha _]%Hubmsg.hex_decode_encode [Hb _]%Hubmsg.hex_decode_encode H. rewrite H in Ha. congruence. Qed.

Lemma entry_ext e e' :
  ID e = ID e' → Action e = Action e' → Actor e = Actor e' → Detail e = Detail e' → IP e = IP e' →
  PrevHash e = PrevHash e' → Hash e = Hash e' → HashVersion e = HashVersion e' → CreatedAt e = CreatedAt e' → e = e'.
Proof. destruct e, e'. cbn. congruence. Qed.

(** A v2 digest commits to the tenant and to every field. *)
Lemma v2_binds t t' e e' :
  time_ok (CreatedAt e) → time_ok (CreatedAt e') → HashVersion e = 2 → HashVersion e' = 2 →
  Hash e = ComputeHashV2 t e → Hash e' = ComputeHashV2 t' e' → Hash e = Hash e' →
  t = t' ∧ e = e' ∨ sha256_collision.
Proof.
  intros Ht Ht' Hv Hv' He He' Hsame. assert (Hh := Hsame). rewrite He, He' in Hh. apply hex_inj in Hh; [|apply Sha.sha256_ok..].
  destruct (decide (v2_preimage t e = v2_preimage t' e')) as [Hp|Hp]; [left|right; by exists (v2_preimage t e), (v2_preimage t' e')].
  apply audit_fields_inj in Hp. unfold v2_fields in Hp. do 9 (apply (inj2 cons) in Hp as [?Hf Hp]).
  apply hash_time_inj in Hf2; [|done..]. split; [done|]. apply entry_ext; congruence.
Qed.

(** ** The chain *)

#[local] Opaque ComputeHash ComputeHashV2.

(** What the verifier accepts, from a previous hash on. *)
Fixpoint good (t prev : bytes) (seen : bool) (l : list AuditEntry) : Prop :=
  match l with
  | [] => True
  | e :: l =>
      PrevHash e = prev ∧
      (HashVersion e = 1 ∧ seen = false ∧ Hash e = ComputeHash e ∨ HashVersion e = 2 ∧ Hash e = ComputeHashV2 t e) ∧
      good t (Hash e) (seen || (HashVersion e =? 2)) l
  end.

Lemma walk_good t prev seen n l :
  walk_chain t prev seen n l = ((n + length l)%nat, None) ↔ good t prev seen l.
Proof.
  revert prev seen n. induction l as [|e l IH]; intros prev seen n; cbn [walk_chain good length].
  - rewrite Nat.add_0_r. done.
  - case_bool_decide as Hp; cbn [negb]; [|split; [intros [=]|naive_solver]].
    destruct (Z.eqb_spec (HashVersion e) 1) as [H1|H1].
    + rewrite H1. destruct seen; [split; [intros [=]|naive_solver]|]. case_bool_decide as Hh; cbn [negb].
      * rewrite Nat.add_succ_r, <- Nat.add_succ_l, IH. cbn. naive_solver.
      * split; [intros [=]|naive_solver].
    + destruct (Z.eqb_spec (HashVersion e) 2) as [H2|H2]; [|split; [intros [=]|naive_solver]].
      case_bool_decide as Hh; cbn [negb]; [|split; [intros [=]|naive_solver]].
      rewrite orb_true_r, Nat.add_succ_r, <- Nat.add_succ_l, IH. naive_solver.
Qed.

Lemma good_unseen t prev l : good t prev true l → good t prev false l.
Proof.
  destruct l as [|e l]; [done|]. cbn. intros (H1 & [(_ & [=] & _)|[H2 H3]] & H4). rewrite H2 in *. auto.
Qed.

(** The hash the next entry links to. *)
Definition link (prev : bytes) (l : list AuditEntry) : bytes := match last l with Some e => Hash e | None => prev end.

Lemma link_cons prev e l : link (Hash e) l = link prev (e :: l).
Proof. unfold link. rewrite last_cons. by destruct (last l). Qed.

Lemma good_app t prev seen l k :
  good t prev seen (l ++ k) ↔
  good t prev seen l ∧ good t (link prev l) (seen || existsb (λ e, HashVersion e =? 2) l) k.
Proof.
  revert prev seen. induction l as [|e l IH]; intros prev seen; cbn [app good existsb].
  - rewrite orb_false_r. cbn. naive_solver.
  - rewrite IH, link_cons with (prev := prev), orb_assoc. naive_solver.
Qed.

(** Where the verifier anchors. *)
Definition anchor (l : list AuditEntry) : bytes := match l with e :: _ => PrevHash e | [] => [] end.

Definition verifies (t : bytes) (l : list AuditEntry) : Prop := good t (anchor l) false l.

Lemma verify_iff tbl t : VerifyChain tbl t = (length (of_tenant t tbl), None) ↔ verifies t (of_tenant t tbl).
Proof.
  unfold VerifyChain, ListAuditEntries, limited, verifies, anchor. cbn [Z.ltb Z.compare]. rewrite reverse_involutive.
  rewrite <- (walk_good t _ false 0). done.
Qed.

Lemma verifies_suffix t l k : verifies t (l ++ k) → verifies t k.
Proof.
  unfold verifies. rewrite good_app. intros [_ H]. destruct k as [|e k]; [done|].
  assert (anchor (e :: k) = link (anchor (l ++ e :: k)) l) as -> by (cbn; by destruct H as [-> _]).
  destruct (_ || _); [by apply good_unseen|done].
Qed.

(** Verified, and in order of time. *)
Definition ordered (l : list AuditEntry) : Prop := StronglySorted (λ a b, CreatedAt a <= CreatedAt b) l.

Definition chain_ok (t : bytes) (l : list AuditEntry) : Prop := verifies t l ∧ ordered l.

Lemma ordered_snoc l e : ordered l → (∀ p, last l = Some p → CreatedAt p <= CreatedAt e) → ordered (l ++ [e]).
Proof.
  intros Hl He. induction Hl as [|a l Hl IH Ha]; cbn; [by repeat constructor|]. constructor.
  - apply IH. intros p Hp. apply He. by rewrite last_cons, Hp.
  - apply Forall_app. split; [done|]. constructor; [|done]. destruct (last l) as [p|] eqn:El.
    + transitivity (CreatedAt p); [|apply He; by rewrite last_cons, El].
      apply (proj1 (Forall_forall _ _) Ha). by apply last_Some_elem_of.
    + apply He. by rewrite last_cons, El.
Qed.

Lemma next_ok t a b c d now r l : chain_ok t l → chain_ok t (l ++ [next_entry t a b c d now r (last l)]).
Proof.
  intros [Hv Ho]. set (e := next_entry _ _ _ _ _ _ _ _).
  assert (He : HashVersion e = 2 ∧ Hash e = ComputeHashV2 t e) by (unfold e, next_entry; by destruct (last l)).
  split.
  - unfold verifies. rewrite good_app. split.
    + by destruct l.
    + cbn [good]. split_and!; [|by right|done]. unfold e, link, next_entry. cbn. destruct (last l) eqn:El; [done|].
      by apply last_None in El as ->.
  - apply ordered_snoc; [done|]. intros p Hp. unfold e, next_entry. rewrite Hp. cbn. case_match; zbool; lia.
Qed.

Lemma filter_all {A} (P : A → Prop) `{!∀ x, Decision (P x)} l : Forall P l → filter P l = l.
Proof. induction 1 as [|x l Hx _ IH]; [done|]. by rewrite filter_cons_True, IH. Qed.

(** What retention keeps is a suffix. *)
Lemma keep_suffix cutoff l : ordered l → ∃ k, l = k ++ filter (λ e, before cutoff e = false) l.
Proof.
  induction 1 as [|a l Hl [k Hk] Ha]; [by exists []|]. rewrite filter_cons. destruct (before cutoff a) eqn:Eb.
  - exists (a :: k). cbn. by f_equal.
  - exists []. cbn. f_equal. symmetry. apply filter_all, Forall_forall. intros e He.
    apply (proj1 (Forall_forall _ _) Ha) in He. unfold before in *. zbool.
    assert (CreatedAt a / second_us <= CreatedAt e / second_us) by (apply Z.div_le_mono; done). apply Z.ltb_ge. lia.
Qed.

Lemma keep_ok t cutoff l : chain_ok t l → chain_ok t (filter (λ e, before cutoff e = false) l).
Proof.
  intros [Hv Ho]. destruct (keep_suffix cutoff l Ho) as [k Hk]. split.
  - rewrite Hk in Hv. by apply verifies_suffix in Hv.
  - unfold ordered in *. rewrite Hk in Ho. by apply StronglySorted_app_1_r in Ho.
Qed.

(** ** A log in use *)

Inductive audit_op :=
| OLog (down : bool) (t action actor detail ip : bytes) (now : Z) (random : bytes)
| ORetain (cfg : RetentionConfig) (sink : option Sink) (f : bytes → retention_faults) (default_id : bytes)
    (tenants : option (list (bytes * Z))) (now : Z).

Definition audit_step (s : table * archive) (o : audit_op) : table * archive :=
  match o with
  | OLog down t action actor detail ip now random =>
      match Log down (fst s) t action actor detail ip now random with Ok tbl => (tbl, snd s) | Err _ => s end
  | ORetain cfg sink f d tenants now => purgeAll cfg sink f d tenants now s
  end.

Definition audit_run (s : table * archive) (ops : list audit_op) : table * archive := foldl audit_step s ops.

Lemma of_tenant_app t tbl u e : of_tenant t (tbl ++ [(u, e)]) = of_tenant t tbl ++ if decide (u = t) then [e] else [].
Proof. unfold of_tenant. rewrite filter_app, fmap_app. f_equal. rewrite filter_cons. by case_decide; simpl; case_decide. Qed.

Lemma of_tenant_delete t tbl u c :
  of_tenant t (DeleteAuditEntriesBefore tbl u c) =
    if decide (u = t) then filter (λ e, before c e = false) (of_tenant t tbl) else of_tenant t tbl.
Proof.
  unfold of_tenant, DeleteAuditEntriesBefore. induction tbl as [|[v e] tbl IH]; [by case_decide|].
  rewrite !filter_cons. cbn [fst snd]. repeat case_decide; rewrite ?fmap_cons, ?filter_cons; cbn [fst snd];
    repeat case_decide; subst; try done; rewrite ?filter_cons; repeat case_decide; cbn; rewrite ?IH; naive_solver.
Qed.

(** What one tenant's run does to the table. *)
Lemma purgeTenant_table sink f tbl a t c :
  fst (purgeTenant sink f tbl a t c) = tbl ∨ fst (purgeTenant sink f tbl a t c) = DeleteAuditEntriesBefore tbl t c.
Proof. unfold purgeTenant, delete_step. repeat case_match; cbn; auto. Qed.

(** A property kept by every tenant's run is kept by the whole. *)
Lemma purgeAll_ind (P : table * archive → Prop) cfg sink f d tenants now s :
  (∀ t n s, (t, n) ∈ targets cfg d tenants → 0 < n → P s →
     P (purgeTenant sink (f t) (fst s) (snd s) t (now - n * day_us))) →
  P s → P (purgeAll cfg sink f d tenants now s).
Proof.
  unfold purgeAll. generalize (targets cfg d tenants). intros l Hstep. revert s.
  induction l as [|[t n] l IH]; intros s Hs; [done|]. cbn. apply IH.
  - intros t' n' s' Hin. apply Hstep. by right.
  - destruct (Z.leb_spec n 0); [done|]. apply Hstep; [left|lia|done].
Qed.

Definition all_ok (tbl : table) : Prop := ∀ t, chain_ok t (of_tenant t tbl).

Lemma step_all_ok s o : all_ok (fst s) → all_ok (fst (audit_step s o)).
Proof.
  intros Hs. destruct o as [down t action actor detail ip now random|cfg sink f d tenants now]; cbn [audit_step].
  - unfold Log, AppendAuditEntry, insertAuditEntry, GetLatestAuditEntry. destruct down; [done|].
    destruct (_ || _); [done|]. cbn [fst]. intros u. rewrite of_tenant_app. case_decide; [subst|by rewrite app_nil_r]. by apply next_ok.
  - apply (purgeAll_ind (λ s, all_ok (fst s))); [|done]. intros t n s' _ _ Hs'.
    destruct (purgeTenant_table sink (f t) (fst s') (snd s') t (now - n * day_us)) as [-> | ->]; [done|].
    intros u. rewrite of_tenant_delete. case_decide; [|done]. by apply keep_ok.
Qed.

(** C26: Whatever the replicas log, at whatever clock readings, and whatever retention deletes, with
    any failures, the verifier accepts every tenant's whole chain. *)
Theorem audit_chain_verifies a ops t :
  let tbl := fst (audit_run ([], a) ops) in VerifyChain tbl t = (length (of_tenant t tbl), None).
Proof.
  cbn zeta. apply verify_iff. assert (all_ok (fst (audit_run ([], a) ops))) as H; [|apply H].
  assert (all_ok (fst (([] : table), a))) as H0 by (intros u; split; [done|constructor]).
  revert H0. generalize (([] : table), a). unfold audit_run.
  induction ops as [|o ops IH]; intros s Hs; [done|]. cbn. by apply IH, step_all_ok.
Qed.

Lemma last_hash_suffix t p s l t' p' s' l' :
  good t p s l → good t' p' s' l' → Forall (λ e, HashVersion e = 2 ∧ time_ok (CreatedAt e)) l →
  Forall (λ e, HashVersion e = 2 ∧ time_ok (CreatedAt e)) l' → l ≠ [] → l' ≠ [] → link p l = link p' l' →
  t = t' ∧ (l `suffix_of` l' ∨ l' `suffix_of` l) ∨ sha256_collision.
Proof.
  revert l'. induction l as [|e l IH] using rev_ind; [done|]. intros l' Hg Hg' Hv Hv' _ Hne' Hlink.
  destruct l' as [|e' l' _] using rev_ind; [done|]. clear Hne'.
  apply good_app in Hg as [Hg (Hp & He & _)], Hg' as [Hg' (Hp' & He' & _)].
  apply Forall_app in Hv as [Hv [[Hve Hte] _]%Forall_cons], Hv' as [Hv' [[Hve' Hte'] _]%Forall_cons].
  unfold link in Hlink. rewrite !last_snoc in Hlink.
  assert (Hash e = ComputeHashV2 t e) as Hh by (destruct He as [[? _]|[_ ?]]; [lia|done]).
  assert (Hash e' = ComputeHashV2 t' e') as Hh' by (destruct He' as [[? _]|[_ ?]]; [lia|done]).
  destruct (v2_binds t t' e e') as [[-> ->]|?]; [done..| |by right].
  destruct (decide (l = [])) as [->|Hl]; [left; split; [done|left; by exists l']|].
  destruct (decide (l' = [])) as [->|Hl']; [left; split; [done|right; by exists l]|].
  destruct (IH l') as [[_ [?|?]]|?]; try done; [congruence|left; split; [done|]..|by right].
  - left. by apply suffix_snoc.
  - right. by apply suffix_snoc.
Qed.


(** ** Nothing is lost *)

Definition archived (a : archive) (t : bytes) (e : AuditEntry) : Prop := ∃ day es, a !! (t, day) = Some es ∧ e ∈ es.

Definition held (t : bytes) (e : AuditEntry) (s : table * archive) : Prop := (t, e) ∈ fst s ∨ archived (snd s) t e.

Lemma file_keeps a t c es u e : archived a u e → archived (Write FileSink a t c es) u e.
Proof.
  intros (day & es' & Ha & He). unfold Write. destruct (decide ((t, c / day_us) = (u, day))) as [Heq|Hne].
  - exists day, (es' ++ es). rewrite Heq, Ha, lookup_insert_eq. split; [done|]. apply elem_of_app. by left.
  - exists day, es'. by rewrite lookup_insert_ne.
Qed.

Lemma written s a t c es e : e ∈ es → archived (Write s a t c es) t e.
Proof.
  intros He. unfold Write. destruct s; eexists (c / day_us), _; rewrite lookup_insert_eq; (split; [done|]); [apply elem_of_app; by right|done].
Qed.

Lemma deleted_listed tbl t c u e :
  (u, e) ∈ tbl → (u, e) ∈ DeleteAuditEntriesBefore tbl t c ∨ u = t ∧ e ∈ ListAuditEntriesBefore tbl t c 0.
Proof.
  intros Hin. unfold DeleteAuditEntriesBefore, ListAuditEntriesBefore, limited. cbn [Z.ltb Z.compare].
  rewrite !list_elem_of_filter. cbn [fst snd]. destruct (decide (u = t)) as [->|]; [|naive_solver].
  destruct (before c e) eqn:Eb; [right|naive_solver]. split_and!; [done..|]. unfold of_tenant. apply list_elem_of_fmap.
  exists (t, e). split; [done|]. by apply list_elem_of_filter.
Qed.

Lemma purgeTenant_held f t c u e s :
  held u e s → held u e (purgeTenant (Some FileSink) f (fst s) (snd s) t c).
Proof.
  intros Hh. unfold purgeTenant. destruct (list_fails f); [by destruct s|]. set (es := ListAuditEntriesBefore _ _ _ _).
  assert (Hdel : ∀ a, (∀ x, archived (snd s) u x → archived a u x) → (e ∈ es → u = t → archived a u e) →
    held u e (delete_step f (fst s) t c, a)).
  { intros a Ha Hes. destruct Hh as [Hin|?]; [|right; by apply Ha]. unfold delete_step. destruct (delete_fails f); [by left|].
    destruct (deleted_listed (fst s) t c u e Hin) as [?|[? ?]]; [by left|right; by apply Hes]. }
  case_bool_decide as He.
  - apply Hdel; [done|]. rewrite He. by intros ?%not_elem_of_nil.
  - destruct (write_fails f) as [n|]; [|apply Hdel; [intros x; apply file_keeps|by intros ? ->; apply written]].
    destruct Hh as [?|?]; [by left|right; by apply file_keeps].
Qed.

(** With the file archive, an entry once logged is for ever in the table or in the archive,
    whatever fails between listing, writing and deleting. *)
Theorem audit_nothing_lost s ops t e :
  Forall (λ o, match o with ORetain _ sink _ _ _ _ => sink = Some FileSink | _ => True end) ops →
  held t e s → held t e (audit_run s ops).
Proof.
  intros Hops. revert s. induction Hops as [|o ops Ho Hops IH]; intros s Hs; [done|]. cbn. apply IH.
  destruct o as [down u action actor detail ip now random|cfg sink f d tenants now]; cbn [audit_step].
  - unfold Log, AppendAuditEntry, insertAuditEntry. destruct down; [done|]. destruct (_ || _); [done|].
    destruct Hs as [?|?]; [left|by right]. apply elem_of_app. by left.
  - subst sink. apply purgeAll_ind; [|done]. intros u n s' _ _. apply purgeTenant_held.
Qed.

(** ** The floor under a tenant's choice *)

Lemma days_floor cfg own :
  0 < MinDays cfg <= RetentionDays cfg → MaxDays cfg <= 0 ∨ MinDays cfg <= MaxDays cfg → MinDays cfg <= days cfg own.
Proof. intros H1 H2. unfold days. repeat case_match; zbool; lia. Qed.

Lemma targets_floor cfg d tenants t n :
  0 < MinDays cfg <= RetentionDays cfg → MaxDays cfg <= 0 ∨ MinDays cfg <= MaxDays cfg →
  (t, n) ∈ targets cfg d tenants → MinDays cfg <= n.
Proof.
  intros H1 H2. unfold targets. destruct tenants as [l|]; [|rewrite list_elem_of_singleton; intros [= _ ->]; lia].
  intros [[= _ ->]|Hin]%elem_of_cons.
  - assert (∀ z, MinDays cfg <= z →
      MinDays cfg <= foldl (λ n r, if bool_decide (fst r = d) then days cfg (snd r) else n) z l) as Hf; [|apply Hf; lia].
    induction l as [|r l IH]; intros z Hz; [done|]. cbn. apply IH. case_bool_decide; [by apply days_floor|done].
  - apply list_elem_of_fmap in Hin as (r & [= _ ->] & _). by apply days_floor.
Qed.

(** However short a retention a tenant chooses, entries younger than the floor stay. *)
Theorem retention_floor cfg sink f d tenants now s t e :
  0 < MinDays cfg <= RetentionDays cfg → MaxDays cfg <= 0 ∨ MinDays cfg <= MaxDays cfg →
  (t, e) ∈ fst s → now - MinDays cfg * day_us <= CreatedAt e →
  (t, e) ∈ fst (purgeAll cfg sink f d tenants now s).
Proof.
  intros H1 H2 Hin Hyoung. apply (purgeAll_ind (λ s, (t, e) ∈ fst s)); [|done]. intros u n s' Hn _ Hs'.
  destruct (purgeTenant_table sink (f u) (fst s') (snd s') u (now - n * day_us)) as [-> | ->]; [done|].
  apply list_elem_of_filter. split; [|done]. right. cbn. apply targets_floor in Hn; [|done..].
  unfold before. apply Z.ltb_ge, Z.div_le_mono; [done|]. unfold day_us, second_us in *. nia.
Qed.

(** ** Witnesses, and the object store *)

(** 63 900 000 000 s after the zero time is in December 2025. *)
Definition noon : Z := 63900000000 * second_us.

Definition acme : bytes := str "t_1f2e".

Definition log_at (t : Z) (r : Z) : audit_op :=
  OLog false acme (str "login") (str "user") (str "a|b") (str "::1") (t * micro) [r; 0; 0; 1].

Definition two_entries : table := fst (audit_run ([], ∅) [log_at noon 1; log_at (noon - second_us) 2]).

Definition first_entry : AuditEntry := next_entry acme (str "login") (str "user") (str "a|b") (str "::1") (noon * micro) [1; 0; 0; 1] None.

Definition last_entry : AuditEntry :=
  next_entry acme (str "login") (str "user") (str "a|b") (str "::1") ((noon - second_us) * micro) [2; 0; 0; 1] (Some first_entry).


(** Keep a day; the leader runs at startup and a restart runs again an hour later. *)
Definition keep_a_day : RetentionConfig := MkConfig 1 0 0.
Definition no_faults (t : bytes) : retention_faults := MkRetentionFaults false None false.
Definition retain (s : Sink) (t : Z) : audit_op := ORetain keep_a_day (Some s) no_faults (str "default") (Some [(acme, 0)]) t.

Definition restart (s : Sink) : list audit_op :=
  [log_at noon 1; log_at (noon + 1800 * second_us) 2; retain s (noon + day_us + 900 * second_us); retain s (noon + day_us + 3600 * second_us)].

Lemma audit_nothing_lost_witness :
  held acme first_entry (audit_run ([(acme, first_entry)], ∅)
    [retain FileSink (noon + day_us + 900 * second_us); retain FileSink (noon + day_us + 3600 * second_us)]).
Proof.
  apply (audit_nothing_lost ([(acme, first_entry)], ∅)
    [retain FileSink (noon + day_us + 900 * second_us); retain FileSink (noon + day_us + 3600 * second_us)]).
  - repeat constructor.
  - left. left.
Defined.

(** Where an entry is, decided. *)
Definition holds_entry (e : AuditEntry) (s : table * archive) : bool :=
  bool_decide (e ∈ snd <$> fst s) || existsb (λ p : bytes * Z * list AuditEntry, bool_decide (e ∈ snd p)) (map_to_list (snd s)).

Lemma held_holds t e s : held t e s → holds_entry e s = true.
Proof.
  intros [Hin|(day & es & Ha & He)]; apply orb_true_iff; [left|right].
  - apply bool_decide_eq_true, list_elem_of_fmap. by exists (t, e).
  - apply existsb_exists. exists ((t, day), es). split; [|by apply bool_decide_eq_true].
    apply list_elem_of_In. by apply elem_of_map_to_list.
Qed.

(** With the object store the second run of a day replaces the object of the first, and the
    entries of the first are in neither place; the file archive keeps them. *)
Theorem s3_archive_overwritten :
  let s := audit_run ([], ∅) (restart S3Sink) in
  (acme, first_entry) ∈ fst (audit_run ([], ∅) (take 1 (restart S3Sink))) ∧
  ¬ held acme first_entry s ∧ holds_entry first_entry (audit_run ([], ∅) (restart FileSink)) = true.
Proof.
  cbn zeta. split; [|split].
  - apply (bool_decide_unpack _). vm_compute. exact I.
  - intros Hh%held_holds. by vm_compute in Hh.
  - by vm_compute.
Qed.

Lemma retention_floor_witness :
  (acme, first_entry) ∈ fst (purgeAll (MkConfig 90 30 0) (Some S3Sink) no_faults (str "default") (Some [(acme, 1)])
    (noon + 20 * day_us) ([(acme, first_entry)], ∅)).
Proof.
  apply (retention_floor (MkConfig 90 30 0) (Some S3Sink) no_faults (str "default") (Some [(acme, 1)]) (noon + 20 * day_us)
    ([(acme, first_entry)], ∅) acme first_entry); [done|by left|left|by vm_compute].
Defined.

End AuditLog.
