(* ===== verification/SosTable.v ===== *)
(** The record of an SOS ([internal/store/sosruns.go]) and its table
    ([internal/store/sqlite/sosruns.go]). *)
From Stdlib Require Import Ascii.
From S2P Require Import Prelude Float64 SqlTable.

Module SosTable.
Export SqlTable.
Import Float64.

Inductive SOSRunState := SOSRunActive | SOSRunCancelled.

#[export] Instance SOSRunState_eq : EqDecision SOSRunState.
Proof. solve_decision. Defined.

(** [store.SOSRun]; [T] is the type of its times: in memory [Z], with [None] for a nil
    pointer, and the text of the column in a row. *)
Record SOSRunOf (T : Type) := MkRun {
  rTenantID : string;
  rOrigin : string;
  SOSID : string;
  BridgeID : string;
  RunStartMs : Z;
  rState : SOSRunState;
  Rev : Z;
  Bearers : string;
  DeviceID : string;
  rText : string;
  Lat : float64;
  Lon : float64;
  HasPosition : bool;
  rAlertID : string;
  AlertPending : bool;
  StartedAt : option Z;
  CancelledAt : option Z;
  CancelledBy : string;
  CancelReason : Z;
  rCreatedAt : T;
  rUpdatedAt : T;
}.
Arguments MkRun {T}.
Arguments rTenantID {T}. Arguments rOrigin {T}. Arguments SOSID {T}. Arguments BridgeID {T}.
Arguments RunStartMs {T}. Arguments rState {T}. Arguments Rev {T}. Arguments Bearers {T}.
Arguments DeviceID {T}. Arguments rText {T}. Arguments Lat {T}. Arguments Lon {T}.
Arguments HasPosition {T}. Arguments rAlertID {T}. Arguments AlertPending {T}.
Arguments StartedAt {T}. Arguments CancelledAt {T}. Arguments CancelledBy {T}.
Arguments CancelReason {T}. Arguments rCreatedAt {T}. Arguments rUpdatedAt {T}.

Notation SOSRun := (SOSRunOf Z).
Notation run_row := (SOSRunOf (option Z)).

Definition SOSEventStart : string := "start".
Definition SOSEventCancel : string := "cancel".

Record SOSRunEvent := MkRunEvent {
  eTenantID : string;
  eOrigin : string;
  eSOSID : string;
  eBridgeID : string;
  eRunStartMs : Z;
  eKind : string;
  eBearer : string;
  eDeviceID : string;
  eText : string;
  eLat : float64;
  eLon : float64;
  eHasPosition : bool;
  eBy : string;
  eReason : Z;
  eAt : Z;
}.

Record SOSRunApplied := MkApplied { aRun : SOSRun; Created : bool; Ended : bool }.

(** ** Bearers *)

(** [strings.Split(s, ",")]: the part before the first comma, and the rest. *)
Fixpoint split_comma (s : string) : list string :=
  match s with
  | EmptyString => [""]
  | String c s =>
      if Ascii.eqb c ","%char then "" :: split_comma s
      else match split_comma s with p :: ps => String c p :: ps | [] => [String c ""] end
  end.

Definition AddSOSBearer (list bearer : string) : string :=
  if String.eqb bearer "" then list
  else if existsb (String.eqb bearer) (split_comma list) then list
  else if String.eqb list "" then bearer
  else list +:+ "," +:+ bearer.

(** ** Events *)

Definition zero : float64 := f64_of_Z 0.

Definition NewSOSRun (ev : SOSRunEvent) : SOSRun :=
  let at_ := eAt ev in
  if String.eqb (eKind ev) SOSEventCancel then
    MkRun (eTenantID ev) (eOrigin ev) (eSOSID ev) (eBridgeID ev) (eRunStartMs ev) SOSRunCancelled 1
      (AddSOSBearer "" (eBearer ev)) "" "" zero zero false "" true None (Some at_) (eBy ev) (eReason ev) at_ at_
  else
    MkRun (eTenantID ev) (eOrigin ev) (eSOSID ev) (eBridgeID ev) (eRunStartMs ev) SOSRunActive 1
      (AddSOSBearer "" (eBearer ev)) (eDeviceID ev) (eText ev) (eLat ev) (eLon ev) (eHasPosition ev) "" true
      (Some at_) None "" (-1) at_ at_.

(** [r.Rev++], the bearer and the time of an event. *)
Definition counted (r : SOSRun) (ev : SOSRunEvent) : SOSRun :=
  MkRun (rTenantID r) (rOrigin r) (SOSID r) (BridgeID r) (RunStartMs r) (rState r) (Rev r + 1)
    (AddSOSBearer (Bearers r) (eBearer ev)) (DeviceID r) (rText r) (Lat r) (Lon r) (HasPosition r) (rAlertID r)
    (AlertPending r) (StartedAt r) (CancelledAt r) (CancelledBy r) (CancelReason r) (rCreatedAt r) (eAt ev).

(** The time and content of the start. *)
Definition set_started (r : SOSRun) (ev : SOSRunEvent) : SOSRun :=
  MkRun (rTenantID r) (rOrigin r) (SOSID r) (BridgeID r) (RunStartMs r) (rState r) (Rev r)
    (Bearers r) (eDeviceID ev) (eText ev) (eLat ev) (eLon ev) (eHasPosition ev) (rAlertID r)
    (AlertPending r) (Some (eAt ev)) (CancelledAt r) (CancelledBy r) (CancelReason r) (rCreatedAt r) (rUpdatedAt r).

Definition set_cancelled (r : SOSRun) (ev : SOSRunEvent) : SOSRun :=
  MkRun (rTenantID r) (rOrigin r) (SOSID r) (BridgeID r) (RunStartMs r) SOSRunCancelled (Rev r)
    (Bearers r) (DeviceID r) (rText r) (Lat r) (Lon r) (HasPosition r) (rAlertID r)
    true (StartedAt r) (Some (eAt ev)) (eBy ev) (eReason ev) (rCreatedAt r) (rUpdatedAt r).

Definition ApplySOSEvent (r : SOSRun) (ev : SOSRunEvent) : SOSRun * bool :=
  let r := counted r ev in
  if String.eqb (eKind ev) SOSEventStart then
    (match StartedAt r with None => set_started r ev | Some _ => r end, false)
  else if String.eqb (eKind ev) SOSEventCancel then
    if bool_decide (rState r = SOSRunActive) then (set_cancelled r ev, true) else (r, false)
  else (r, false).

(** ** The table *)

(** [fmtTimePtr]; [parseTimePtr] is its inverse up to whole seconds. *)
Definition fmtTimePtr (t : option Z) : option Z := t ≫= fmtTime.
Definition parseTimePtr (s : option Z) : option Z := match s with None => None | Some _ => Some (parseTime s) end.

Definition sosRunArgs (r : SOSRun) : run_row :=
  MkRun (rTenantID r) (rOrigin r) (SOSID r) (BridgeID r) (RunStartMs r) (rState r) (Rev r)
    (Bearers r) (DeviceID r) (rText r) (Lat r) (Lon r) (HasPosition r) (rAlertID r)
    (AlertPending r) (fmtTimePtr (StartedAt r)) (fmtTimePtr (CancelledAt r)) (CancelledBy r) (CancelReason r)
    (fmtTime (rCreatedAt r)) (fmtTime (rUpdatedAt r)).

Definition scanSOSRun (r : run_row) : SOSRun :=
  MkRun (rTenantID r) (rOrigin r) (SOSID r) (BridgeID r) (RunStartMs r) (rState r) (Rev r)
    (Bearers r) (DeviceID r) (rText r) (Lat r) (Lon r) (HasPosition r) (rAlertID r)
    (AlertPending r) (parseTimePtr (StartedAt r)) (parseTimePtr (CancelledAt r)) (CancelledBy r) (CancelReason r)
    (parseTime (rCreatedAt r)) (parseTime (rUpdatedAt r)).

(** [WHERE tenant_id=? AND origin=? AND sos_id=?] *)
Definition has_key {T} (tenantID origin sosID : string) (r : SOSRunOf T) : bool :=
  String.eqb (rTenantID r) tenantID && String.eqb (rOrigin r) origin && String.eqb (SOSID r) sosID.

(** The columns the [UPDATE] of an applied event writes. *)
Definition set_run (run : SOSRun) (r : run_row) : run_row :=
  MkRun (rTenantID r) (rOrigin r) (SOSID r) (BridgeID r) (RunStartMs r) (rState run) (Rev run)
    (Bearers run) (DeviceID run) (rText run) (Lat run) (Lon run) (HasPosition run) (rAlertID r)
    (AlertPending run) (fmtTimePtr (StartedAt run)) (fmtTimePtr (CancelledAt run)) (CancelledBy run)
    (CancelReason run) (rCreatedAt r) (fmtTime (rUpdatedAt run)).

Definition GetSOSRun (tenantID origin sosID : string) (t : list run_row) : option SOSRun :=
  scanSOSRun <$> head (List.filter (has_key tenantID origin sosID) t).

(** One transaction: the insert unless the key exists, else the event applied to the row. *)
Definition ApplySOSRunEvent (ev : SOSRunEvent) (now : Z) (t : list run_row) : list run_row * SOSRunApplied :=
  let ev := if eAt ev =? 0 then
              MkRunEvent (eTenantID ev) (eOrigin ev) (eSOSID ev) (eBridgeID ev) (eRunStartMs ev) (eKind ev)
                (eBearer ev) (eDeviceID ev) (eText ev) (eLat ev) (eLon ev) (eHasPosition ev) (eBy ev) (eReason ev) now
            else ev in
  let fresh := NewSOSRun ev in
  match GetSOSRun (eTenantID ev) (eOrigin ev) (eSOSID ev) t with
  | None => (t ++ [sosRunArgs fresh], MkApplied fresh true false)
  | Some run =>
      let '(run, ended) := ApplySOSEvent run ev in
      (fst (sql_update (has_key (rTenantID run) (rOrigin run) (SOSID run)) (set_run run) t), MkApplied run false ended)
  end.

(** A time column as a number; the empty text sorts first. *)
Definition time_key (o : option Z) : Z := default (-1) o.

(** [ORDER BY created_at] *)
Definition created_asc (r s : run_row) : Prop := time_key (rCreatedAt r) <= time_key (rCreatedAt s).

#[export] Instance created_asc_dec : RelDecision created_asc.
Proof. intros r s; unfold created_asc; apply _. Defined.

Definition FindSOSRuns (tenantID sosID : string) (t : list run_row) : list SOSRun :=
  scanSOSRun <$> merge_sort created_asc
    (List.filter (λ r, String.eqb (rTenantID r) tenantID && String.eqb (SOSID r) sosID) t).

(** [SET alert_id=?, updated_at=?] and [SET alert_pending=0] *)
Definition set_alert_id (alertID : string) (now : Z) (r : run_row) : run_row :=
  MkRun (rTenantID r) (rOrigin r) (SOSID r) (BridgeID r) (RunStartMs r) (rState r) (Rev r)
    (Bearers r) (DeviceID r) (rText r) (Lat r) (Lon r) (HasPosition r) alertID
    (AlertPending r) (StartedAt r) (CancelledAt r) (CancelledBy r) (CancelReason r) (rCreatedAt r) (fmtTime now).

Definition set_settled (r : run_row) : run_row :=
  MkRun (rTenantID r) (rOrigin r) (SOSID r) (BridgeID r) (RunStartMs r) (rState r) (Rev r)
    (Bearers r) (DeviceID r) (rText r) (Lat r) (Lon r) (HasPosition r) (rAlertID r)
    false (StartedAt r) (CancelledAt r) (CancelledBy r) (CancelReason r) (rCreatedAt r) (rUpdatedAt r).

(** The table and whether a row was affected. *)
Definition SetSOSRunAlert (tenantID origin sosID alertID : string) (now : Z) (t : list run_row) : list run_row * bool :=
  let '(t', n) := sql_update (has_key tenantID origin sosID) (set_alert_id alertID now) t in
  (t', negb (Nat.eqb n 0)).

Definition ClearSOSRunAlertPending (tenantID origin sosID : string) (rev : Z) (t : list run_row) : list run_row * bool :=
  let '(t', n) := sql_update (λ r, has_key tenantID origin sosID r && (Rev r =? rev)) set_settled t in
  (t', Nat.eqb n 1).

(** [ORDER BY updated_at, sos_id] *)
Definition updated_order (r s : run_row) : Prop :=
  let x := time_key (rUpdatedAt r) in let y := time_key (rUpdatedAt s) in
  x < y ∨ (x = y ∧ String.leb (SOSID r) (SOSID s) = true).

#[export] Instance updated_order_dec : RelDecision updated_order.
Proof. intros r s; unfold updated_order; apply _. Defined.

Definition ListSOSRunsAlertPending (limit : nat) (t : list run_row) : list SOSRun :=
  scanSOSRun <$> take limit (merge_sort updated_order (List.filter AlertPending t)).

(** ** Lemmas *)

(** The primary key. *)
Definition key {T} (r : SOSRunOf T) : string * string * string := (rTenantID r, rOrigin r, SOSID r).

Definition unique_runs (t : list run_row) : Prop := NoDup (key <$> t).

Lemma has_key_spec {T} tn o s (r : SOSRunOf T) : has_key tn o s r = true ↔ key r = (tn, o, s).
Proof.
  unfold has_key, key. rewrite !andb_true_iff, !String.eqb_eq. split; [by intros [[-> ->] ->]|by intros [= -> -> ->]].
Qed.

Lemma has_key_false {T} tn o s (r : SOSRunOf T) : has_key tn o s r = false ↔ key r ≠ (tn, o, s).
Proof. rewrite <- not_true_iff_false, has_key_spec. done. Qed.

(** A key is in the table once, or not at all. *)
Lemma run_cases tn o s t : unique_runs t →
  (∃ t1 r t2, t = t1 ++ r :: t2 ∧ key r = (tn, o, s)
     ∧ Forall (λ q, has_key tn o s q = false) t1 ∧ Forall (λ q, has_key tn o s q = false) t2)
  ∨ Forall (λ q, has_key tn o s q = false) t.
Proof.
  intros Hu. destruct (head (List.filter (has_key tn o s) t)) as [r|] eqn:E.
  - left. apply head_filter in E as [(t1 & t2 & ->)%list_elem_of_split Hk%has_key_spec]. exists t1, r, t2.
    unfold unique_runs in Hu. rewrite fmap_app, fmap_cons, Hk in Hu.
    apply NoDup_app in Hu as (_ & H1 & [H2 _]%NoDup_cons). split_and!; [done|done| |]; apply Forall_forall.
    + intros q Hq. apply has_key_false. intros Eq. apply (H1 (key q)); [by apply list_elem_of_fmap_2|]. rewrite Eq. left.
    + intros q Hq. apply has_key_false. intros Eq. apply H2. rewrite <- Eq. by apply list_elem_of_fmap_2.
  - right. apply Forall_forall. intros q Hq. apply not_true_is_false. intros Hk.
    assert (In q (List.filter (has_key tn o s) t)) as Hin by (apply List.filter_In; split; [by apply list_elem_of_In|done]).
    destruct (List.filter _ t); done.
Qed.

Lemma unique_run t r q : unique_runs t → r ∈ t → q ∈ t → key r = key q → r = q.
Proof.
  intros Hu [i Hi]%list_elem_of_lookup [j Hj]%list_elem_of_lookup E.
  assert (i = j) as ->; [|congruence]. apply (NoDup_lookup _ _ _ (key r) Hu); rewrite list_lookup_fmap.
  - by rewrite Hi.
  - by rewrite Hj, E.
Qed.

Lemma put_run_unique r r' t1 t2 : key r' = key r → unique_runs (t1 ++ r :: t2) → unique_runs (t1 ++ r' :: t2).
Proof. unfold unique_runs. rewrite !fmap_app, !fmap_cons. by intros ->. Qed.

Lemma ApplySOSEvent_key r ev : key (fst (ApplySOSEvent r ev)) = key r.
Proof. unfold ApplySOSEvent. by repeat (case_match; simpl). Qed.

(** Whether a state may follow another. *)
Definition follows_state (a b : SOSRunState) : Prop := a = SOSRunCancelled → b = SOSRunCancelled.

(** What an event does to a run: every event counts; cancelled stays cancelled; alert work is
    owed after as before, or newly owed; a cancel ends cancelled; the bridge and the recorded
    alert stay. *)
Lemma ApplySOSEvent_spec r ev r' ended : ApplySOSEvent r ev = (r', ended) →
  Rev r' = Rev r + 1 ∧ follows_state (rState r) (rState r') ∧ BridgeID r' = BridgeID r
  ∧ (AlertPending r' = false → AlertPending r = false ∧ rState r' = rState r)
  ∧ (eKind ev = SOSEventCancel → rState r' = SOSRunCancelled)
  ∧ (StartedAt r ≠ None → StartedAt r' = StartedAt r)
  ∧ (ended = true ↔ rState r = SOSRunActive ∧ rState r' = SOSRunCancelled).
Proof.
  unfold ApplySOSEvent, follows_state. intros H.
  destruct (String.eqb_spec (eKind ev) SOSEventStart) as [Es|_].
  { injection H as <- <-. rewrite Es. destruct (StartedAt (counted r ev)) eqn:E; cbn in *; rewrite E;
      (split_and!; try done); (split; [done|]); cbn; intros [H1 H2]; congruence. }
  destruct (String.eqb_spec (eKind ev) SOSEventCancel) as [Ec|Hc].
  - case_bool_decide as Ha; injection H as <- <-; cbn in *.
    + split_and!; try done.
    + assert (rState r = SOSRunCancelled) as Hs by (by destruct (rState r)).
      (split_and!; try done); (split; [done|]); intros [H1 H2]; congruence.
  - injection H as <- <-. cbn. (split_and!; try done); (split; [done|]); intros [H1 H2]; congruence.
Qed.

End SosTable.
