(* ===== verification/AlertStore.v ===== *)
(** The tables of the SQLite store behind alerts and the dead man's switch
    ([internal/store/sqlite/sqlite.go], [claims.go]) and the programs that use them.

    Tables, columns and times are as in [SqlTable].

    An operation of the engine or the monitor is a [prog]: a tree of calls to the store,
    the notifier and the clock.  [handle] answers one call; a call can fail before or after
    it took effect.  [run] executes a program alone, and [AlertSystem] interleaves many. *)
From S2P Require Import Prelude Float64 SqlTable SosTable.

Module AlertStore.
Export SqlTable SosTable.
Import Float64.

(** ** Alerts *)

Inductive AlertState :=
| AlertStateTriggered
| AlertStateEscalating
| AlertStateAcknowledged
| AlertStateExhausted
| AlertStateCancelled.

#[export] Instance AlertState_eq : EqDecision AlertState.
Proof. solve_decision. Defined.

(** [store.Alert]; [T] is the type of times, [Z] in memory and [option Z] in a row. *)
Record AlertOf (T : Type) := MkAlert {
  ID : string;
  TenantID : string;
  ChainID : string;
  DeviceIMEI : string;
  Type_ : string;
  Detail : string;
  State : AlertState;
  CurrentTier : Z;
  Retries : Z;
  AckedBy : string;
  AckedAt : T;
  NextEscAt : T;
  CreatedAt : T;
  UpdatedAt : T;
}.
Arguments MkAlert {T}.
Arguments ID {T}. Arguments TenantID {T}. Arguments ChainID {T}. Arguments DeviceIMEI {T}.
Arguments Type_ {T}. Arguments Detail {T}. Arguments State {T}. Arguments CurrentTier {T}.
Arguments Retries {T}. Arguments AckedBy {T}. Arguments AckedAt {T}. Arguments NextEscAt {T}.
Arguments CreatedAt {T}. Arguments UpdatedAt {T}.

#[export] Instance AlertOf_eq T `{EqDecision T} : EqDecision (AlertOf T).
Proof. solve_decision. Defined.

Notation Alert := (AlertOf Z).
Notation alert_row := (AlertOf (option Z)).

Definition scan_alert (r : alert_row) : Alert :=
  MkAlert (ID r) (TenantID r) (ChainID r) (DeviceIMEI r) (Type_ r) (Detail r) (State r)
    (CurrentTier r) (Retries r) (AckedBy r) (parseTime (AckedAt r)) (parseTime (NextEscAt r))
    (parseTime (CreatedAt r)) (parseTime (UpdatedAt r)).

(** [state IN ('triggered', 'escalating')] *)
Definition open_state (s : AlertState) : bool :=
  match s with AlertStateTriggered | AlertStateEscalating => true | _ => false end.

(** The optional [AND tenant_id=?]: an empty tenant is a wildcard. *)
Definition scoped (tenantID : string) (r : alert_row) : bool :=
  String.eqb tenantID "" || String.eqb (TenantID r) tenantID.

Definition CreateAlert (tenantID : string) (a : Alert) (t : list alert_row) : option (list alert_row) :=
  if existsb (λ r, String.eqb (ID r) (ID a)) t then None
  else Some (t ++ [MkAlert (ID a) tenantID (ChainID a) (DeviceIMEI a) (Type_ a) (Detail a)
                     (State a) (CurrentTier a) (Retries a) (AckedBy a) (fmtTime (AckedAt a))
                     (fmtTime (NextEscAt a)) (fmtTime (CreatedAt a)) (fmtTime (UpdatedAt a))]).

Definition GetAlert (tenantID id : string) (t : list alert_row) : option Alert :=
  scan_alert <$> head (List.filter (λ r, String.eqb (ID r) id && scoped tenantID r) t).

(** [ORDER BY created_at DESC]; the empty text sorts first, so it comes last here. *)
Definition created_desc (r s : alert_row) : Prop :=
  match CreatedAt r, CreatedAt s with
  | Some x, Some y => y <= x
  | None, Some _ => False
  | _, None => True
  end.

#[export] Instance created_desc_dec : RelDecision created_desc.
Proof.
  intros r s; unfold created_desc; destruct (CreatedAt r), (CreatedAt s); apply _.
Defined.

Definition ListAlerts (tenantID : string) (activeOnly : bool) (limit : nat) (t : list alert_row) : list Alert :=
  scan_alert <$> take limit (merge_sort created_desc
    (List.filter (λ r, scoped tenantID r && (negb activeOnly || open_state (State r))) t)).

(** The columns [UpdateAlert] and [AdvanceAlert] write. *)
Definition set_alert (a : Alert) (r : alert_row) : alert_row :=
  MkAlert (ID r) (TenantID r) (ChainID r) (DeviceIMEI r) (Type_ r) (Detail r)
    (State a) (CurrentTier a) (Retries a) (AckedBy a) (fmtTime (AckedAt a))
    (fmtTime (NextEscAt a)) (CreatedAt r) (fmtTime (UpdatedAt a)).

Definition UpdateAlert (tenantID : string) (a : Alert) (t : list alert_row) : list alert_row :=
  fst (sql_update (λ r, String.eqb (ID r) (ID a) && scoped tenantID r) (set_alert a) t).

Definition AdvanceAlert (tenantID : string) (a : Alert) (expectedNextEscAt : Z) (t : list alert_row) : list alert_row * bool :=
  let '(t', n) := sql_update
    (λ r, String.eqb (ID r) (ID a) && bool_decide (NextEscAt r = fmtTime expectedNextEscAt)
          && open_state (State r) && scoped tenantID r) (set_alert a) t in
  (t', Nat.eqb n 1).

(** ** Chains and notification preferences *)

Record EscalationTier := MkTier {
  Name : string;
  Targets : list string;
  WaitSec : Z;
  MaxRetries : Z;
}.

Record EscalationChain := MkChain {
  cID : string;
  cTenantID : string;
  cName : string;
  Tiers : list EscalationTier;
  cCreatedAt : Z;
}.

Definition GetEscalationChain (tenantID id : string) (t : list EscalationChain) : option EscalationChain :=
  head (List.filter (λ c, String.eqb (cID c) id
                          && (String.eqb tenantID "" || String.eqb (cTenantID c) tenantID)) t).

(** [ORDER BY created_at DESC] *)
Definition chain_desc (c d : EscalationChain) : Prop := cCreatedAt d <= cCreatedAt c.

#[export] Instance chain_desc_dec : RelDecision chain_desc.
Proof. intros c d; unfold chain_desc; apply _. Defined.

Definition ListEscalationChains (tenantID : string) (t : list EscalationChain) : list EscalationChain :=
  merge_sort chain_desc (List.filter (λ c, String.eqb (cTenantID c) tenantID) t).

Definition CreateEscalationChain (c : EscalationChain) (t : list EscalationChain) : option (list EscalationChain) :=
  if existsb (λ r, String.eqb (cID r) (cID c)) t then None else Some (t ++ [c]).

Definition DeleteEscalationChain (tenantID id : string) (t : list EscalationChain) : list EscalationChain :=
  List.filter (λ c, negb (String.eqb (cID c) id && String.eqb (cTenantID c) tenantID)) t.

Record NotificationPref := MkPref {
  pDeviceIMEI : string;
  pTenantID : string;
  URLs : list string;
  pEnabled : bool;
}.

Definition GetNotificationPref (tenantID deviceIMEI : string) (t : list NotificationPref) : option NotificationPref :=
  head (List.filter (λ p, String.eqb (pDeviceIMEI p) deviceIMEI && String.eqb (pTenantID p) tenantID) t).

(** ** Devices and dead man's switches *)

Record device_row := MkDevice {
  IMEI : string;
  dTenantID : string;
  LastSeen : option Z;
}.

Definition GetDevice (tenantID imei : string) (t : list device_row) : option device_row :=
  head (List.filter (λ d, String.eqb (IMEI d) imei && String.eqb (dTenantID d) tenantID) t).

Definition TouchDeviceLastSeen (tenantID imei : string) (now : Z) (t : list device_row) : list device_row :=
  fst (sql_update (λ d, String.eqb (IMEI d) imei && String.eqb (dTenantID d) tenantID)
         (λ d, MkDevice (IMEI d) (dTenantID d) (Some (now / second))) t).

(** [store.DeadmanConfig], times as in [AlertOf]. *)
Record DeadmanConfigOf (T : Type) := MkDeadman {
  mDeviceIMEI : string;
  mTenantID : string;
  mChainID : string;
  IntervalSec : Z;
  GraceSec : Z;
  Enabled : bool;
  SnoozedUntil : T;
  Alerted : bool;
  mUpdatedAt : T;
}.
Arguments MkDeadman {T}.
Arguments mDeviceIMEI {T}. Arguments mTenantID {T}. Arguments mChainID {T}.
Arguments IntervalSec {T}. Arguments GraceSec {T}. Arguments Enabled {T}.
Arguments SnoozedUntil {T}. Arguments Alerted {T}. Arguments mUpdatedAt {T}.

Notation DeadmanConfig := (DeadmanConfigOf Z).
Notation deadman_row := (DeadmanConfigOf (option Z)).

Definition scanDeadman (r : deadman_row) : DeadmanConfig :=
  MkDeadman (mDeviceIMEI r) (mTenantID r) (mChainID r) (IntervalSec r) (GraceSec r) (Enabled r)
    (parseTime (SnoozedUntil r)) (Alerted r) (parseTime (mUpdatedAt r)).

Definition deadman_key {T} (tenantID imei : string) (r : DeadmanConfigOf T) : bool :=
  String.eqb (mDeviceIMEI r) imei && String.eqb (mTenantID r) tenantID.

(** [INSERT .. ON CONFLICT(device_imei, tenant_id) DO UPDATE] *)
Definition SaveDeadmanConfig (tenantID : string) (c : DeadmanConfig) (now : Z) (t : list deadman_row) : list deadman_row :=
  let row := MkDeadman (mDeviceIMEI c) tenantID (mChainID c) (IntervalSec c) (GraceSec c)
               (Enabled c) (fmtTime (SnoozedUntil c)) (Alerted c) (fmtTime now) in
  if existsb (deadman_key tenantID (mDeviceIMEI c)) t
  then (λ r, if deadman_key tenantID (mDeviceIMEI c) r then row else r) <$> t
  else t ++ [row].

Definition GetDeadmanConfig (tenantID deviceIMEI : string) (t : list deadman_row) : option DeadmanConfig :=
  scanDeadman <$> head (List.filter (deadman_key tenantID deviceIMEI) t).

(** [ORDER BY tenant_id, device_imei] *)
Definition deadman_order (r s : deadman_row) : Prop :=
  match String.compare (mTenantID r) (mTenantID s) with
  | Lt => True
  | Eq => String.leb (mDeviceIMEI r) (mDeviceIMEI s) = true
  | Gt => False
  end.

#[export] Instance deadman_order_dec : RelDecision deadman_order.
Proof.
  intros r s; unfold deadman_order; destruct (String.compare _ _); apply _.
Defined.

Definition ListDeadmanConfigs (t : list deadman_row) : list DeadmanConfig :=
  scanDeadman <$> merge_sort deadman_order t.

Definition DeleteDeadmanConfig (tenantID deviceIMEI : string) (t : list deadman_row) : list deadman_row :=
  List.filter (λ r, negb (deadman_key tenantID deviceIMEI r)) t.

(** ** Dispatch claims *)

(** [INSERT OR IGNORE]: the keys and whether the row is new. *)
Definition ClaimOnce (key : string) (t : list string) : list string * bool :=
  if existsb (String.eqb key) t then (t, false) else (t ++ [key], true).

(** ** Programs over the store *)

(** Errors: the driver's [sql.ErrNoRows] and constraint violation, the store's
    [ErrNotFound], a failed call (transient or not, as [dbwrap.IsTransient] classifies it), an
    error of a package itself, and [fmt.Errorf] with [%w]. *)
Inductive error :=
| ErrNoRows
| ErrNotFound
| ErrUnique
| ErrDB (transient : bool)
| ErrNew (text : string)
| Wrap (text : string) (e : error).

(** [apprise.AlertData]; [TriggeredAt] before it is formatted. *)
Record AlertData := MkData {
  aAlertID : string;
  aDeviceIMEI : string;
  aType : string;
  aDetail : string;
  TierName : string;
  TierNum : Z;
  TierTotal : Z;
  Retry : Z;
  aMaxRetries : Z;
  TriggeredAt : Z;
}.

(** What reaches the notifier.  [due] is not sent: it is the [next_esc_at] the step was
    taken from, kept to state which steps have been notified. *)
Record Notification := MkNotification {
  nTenantID : string;
  nTargets : list string;
  nData : AlertData;
  due : option Z;
}.

(** What is published on the bus: [sos.SOSEvent], [sos.RunEvent], [sos.Ack] and the old-way
    page of [sos.Runs], before encoding. *)
Inductive payload :=
| PSOSEvent (imei text keyword source : string)
| PRunEvent (imei text source sosID : string) (state : SOSRunState) (bridgeID bearers : string) (lat lon : float64)
| PAck (v : Z) (sosID kind : string) (state : SOSRunState) (rev : Z)
| PLegacy (id imei bridgeID text : string) (timestamp : Z) (position : option (float64 * float64)).

(** A topic is its tenant, its device or bridge, and the suffix. *)
Record message := MkMessage { mTenant : string; mSubject : string; mSuffix : string; mBody : payload }.

Record audit_entry := MkAudit { uTenantID : string; Action : string; Actor : string; uDetail : string }.

Record world := MkWorld {
  alerts : list alert_row;
  chains : list EscalationChain;
  prefs : list NotificationPref;
  devices : list device_row;
  deadman_configs : list deadman_row;
  sent : list Notification;
  sos_runs : list run_row;
  claims : list string;
  published : list message;
  audited : list audit_entry;
}.

(** The calls of the store, the notifier, the bus and the clock, with their answers.
    [CSleep] waits; it fails when its context ends first. *)
Inductive call : Type → Type :=
| CCreateAlert (tenantID : string) (a : Alert) : call (result error unit)
| CGetAlert (tenantID id : string) : call (result error Alert)
| CListAlerts (tenantID : string) (activeOnly : bool) (limit : nat) : call (result error (list Alert))
| CUpdateAlert (tenantID : string) (a : Alert) : call (result error unit)
| CAdvanceAlert (tenantID : string) (a : Alert) (expected : Z) : call (result error bool)
| CGetEscalationChain (tenantID id : string) : call (result error EscalationChain)
| CGetNotificationPref (tenantID imei : string) : call (result error NotificationPref)
| CGetDevice (tenantID imei : string) : call (result error device_row)
| CTouchDeviceLastSeen (tenantID imei : string) : call (result error unit)
| CSaveDeadmanConfig (tenantID : string) (c : DeadmanConfig) : call (result error unit)
| CGetDeadmanConfig (tenantID imei : string) : call (result error DeadmanConfig)
| CListDeadmanConfigs : call (result error (list DeadmanConfig))
| CDeleteDeadmanConfig (tenantID imei : string) : call (result error unit)
| CNotify (n : Notification) : call (result error unit)
| CListEscalationChains (tenantID : string) : call (result error (list EscalationChain))
| CApplySOSRunEvent (ev : SOSRunEvent) : call (result error SOSRunApplied)
| CGetSOSRun (tenantID origin sosID : string) : call (result error SOSRun)
| CFindSOSRuns (tenantID sosID : string) : call (result error (list SOSRun))
| CSetSOSRunAlert (tenantID origin sosID alertID : string) : call (result error unit)
| CClearSOSRunAlertPending (tenantID origin sosID : string) (rev : Z) : call (result error bool)
| CListSOSRunsAlertPending (limit : nat) : call (result error (list SOSRun))
| CClaimOnce (key : string) : call (result error bool)
| CPublish (m : message) : call (result error unit)
| CAuditLog (e : audit_entry) : call (result error unit)
| CSleep : call (result error unit)
| CNow : call Z.

(** A call goes through, is lost before it takes effect, or its reply is lost after. *)
Inductive fault := NoFault | CallLost (transient : bool) | ReplyLost (transient : bool).

#[export] Instance fault_eq : EqDecision fault.
Proof. solve_decision. Defined.

Definition reply {X} (f : fault) (w w' : world) (x : result error X) : world * result error X :=
  match f with
  | NoFault => (w', x)
  | CallLost b => (w, Err (ErrDB b))
  | ReplyLost b => (w', Err (ErrDB b))
  end.

Definition found {X} (o : option X) : result error X :=
  match o with Some x => Ok x | None => Err ErrNoRows end.

Definition set_alerts (x : list alert_row) (w : world) : world :=
  MkWorld x (chains w) (prefs w) (devices w) (deadman_configs w) (sent w) (sos_runs w) (claims w) (published w) (audited w).
Definition set_devices (x : list device_row) (w : world) : world :=
  MkWorld (alerts w) (chains w) (prefs w) x (deadman_configs w) (sent w) (sos_runs w) (claims w) (published w) (audited w).
Definition set_deadman (x : list deadman_row) (w : world) : world :=
  MkWorld (alerts w) (chains w) (prefs w) (devices w) x (sent w) (sos_runs w) (claims w) (published w) (audited w).
Definition set_sent (x : list Notification) (w : world) : world :=
  MkWorld (alerts w) (chains w) (prefs w) (devices w) (deadman_configs w) x (sos_runs w) (claims w) (published w) (audited w).
Definition set_runs (x : list run_row) (w : world) : world :=
  MkWorld (alerts w) (chains w) (prefs w) (devices w) (deadman_configs w) (sent w) x (claims w) (published w) (audited w).
Definition set_claims (x : list string) (w : world) : world :=
  MkWorld (alerts w) (chains w) (prefs w) (devices w) (deadman_configs w) (sent w) (sos_runs w) x (published w) (audited w).
Definition set_published (x : list message) (w : world) : world :=
  MkWorld (alerts w) (chains w) (prefs w) (devices w) (deadman_configs w) (sent w) (sos_runs w) (claims w) x (audited w).
Definition set_audited (x : list audit_entry) (w : world) : world :=
  MkWorld (alerts w) (chains w) (prefs w) (devices w) (deadman_configs w) (sent w) (sos_runs w) (claims w) (published w) x.

Definition handle {X} (f : fault) (now : Z) (c : call X) (w : world) : world * X :=
  match c with
  | CCreateAlert tenantID a =>
      match CreateAlert tenantID a (alerts w) with
      | Some t => reply f w (set_alerts t w) (Ok tt)
      | None => reply f w w (Err ErrUnique)
      end
  | CGetAlert tenantID id => reply f w w (found (GetAlert tenantID id (alerts w)))
  | CListAlerts tenantID activeOnly limit => reply f w w (Ok (ListAlerts tenantID activeOnly limit (alerts w)))
  | CUpdateAlert tenantID a => reply f w (set_alerts (UpdateAlert tenantID a (alerts w)) w) (Ok tt)
  | CAdvanceAlert tenantID a expected =>
      let '(t, won) := AdvanceAlert tenantID a expected (alerts w) in
      reply f w (set_alerts t w) (Ok won)
  | CGetEscalationChain tenantID id => reply f w w (found (GetEscalationChain tenantID id (chains w)))
  | CGetNotificationPref tenantID imei => reply f w w (found (GetNotificationPref tenantID imei (prefs w)))
  | CGetDevice tenantID imei => reply f w w (found (GetDevice tenantID imei (devices w)))
  | CTouchDeviceLastSeen tenantID imei =>
      reply f w (set_devices (TouchDeviceLastSeen tenantID imei now (devices w)) w) (Ok tt)
  | CSaveDeadmanConfig tenantID c =>
      reply f w (set_deadman (SaveDeadmanConfig tenantID c now (deadman_configs w)) w) (Ok tt)
  | CGetDeadmanConfig tenantID imei => reply f w w (found (GetDeadmanConfig tenantID imei (deadman_configs w)))
  | CListDeadmanConfigs => reply f w w (Ok (ListDeadmanConfigs (deadman_configs w)))
  | CDeleteDeadmanConfig tenantID imei =>
      reply f w (set_deadman (DeleteDeadmanConfig tenantID imei (deadman_configs w)) w) (Ok tt)
  | CNotify n => reply f w (set_sent (sent w ++ [n]) w) (Ok tt)
  | CListEscalationChains tenantID => reply f w w (Ok (ListEscalationChains tenantID (chains w)))
  | CApplySOSRunEvent ev =>
      let p := ApplySOSRunEvent ev now (sos_runs w) in
      reply f w (set_runs (fst p) w) (Ok (snd p))
  | CGetSOSRun tenantID origin sosID =>
      reply f w w (match GetSOSRun tenantID origin sosID (sos_runs w) with Some r => Ok r | None => Err ErrNotFound end)
  | CFindSOSRuns tenantID sosID => reply f w w (Ok (FindSOSRuns tenantID sosID (sos_runs w)))
  | CSetSOSRunAlert tenantID origin sosID alertID =>
      let p := SetSOSRunAlert tenantID origin sosID alertID now (sos_runs w) in
      reply f w (set_runs (fst p) w) (if snd p then Ok tt else Err ErrNotFound)
  | CClearSOSRunAlertPending tenantID origin sosID rev =>
      let p := ClearSOSRunAlertPending tenantID origin sosID rev (sos_runs w) in
      reply f w (set_runs (fst p) w) (Ok (snd p))
  | CListSOSRunsAlertPending limit => reply f w w (Ok (ListSOSRunsAlertPending limit (sos_runs w)))
  | CClaimOnce key =>
      let p := ClaimOnce key (claims w) in
      reply f w (set_claims (fst p) w) (Ok (snd p))
  | CPublish m => reply f w (set_published (published w ++ [m]) w) (Ok tt)
  | CAuditLog e => reply f w (set_audited (audited w ++ [e]) w) (Ok tt)
  | CSleep => reply f w w (Ok tt)
  | CNow => (w, now)
  end.

Inductive prog (R : Type) : Type :=
| Ret (r : R)
| Do {X : Type} (c : call X) (k : X → prog R).
Arguments Ret {R} r.
Arguments Do {R X} c k.

Fixpoint pbind {A B} (f : A → prog B) (p : prog A) : prog B :=
  match p with
  | Ret a => f a
  | Do c k => Do c (λ x, pbind f (k x))
  end.

#[export] Instance prog_ret : MRet prog := @Ret.
#[export] Instance prog_bind : MBind prog := @pbind.

Definition perform {X} (c : call X) : prog X := Do c Ret.

(** [for _, x := range l { body(x) }] *)
Fixpoint for_each {A} (body : A → prog unit) (l : list A) : prog unit :=
  match l with
  | [] => Ret tt
  | x :: l => body x ;; for_each body l
  end.

(** A program alone, without faults, with the clock at [now]. *)
Fixpoint run {R} (now : Z) (p : prog R) (w : world) : world * R :=
  match p with
  | Ret r => (w, r)
  | Do c k => let '(w', x) := handle NoFault now c w in run now (k x) w'
  end.

Lemma run_bind {A B} now (p : prog A) (f : A → prog B) w :
  run now (x ← p; f x) w = (let '(w', a) := run now p w in run now (f a) w').
Proof.
  revert w; induction p as [a|X c k IH]; intros w; [done|].
  cbn; destruct (handle NoFault now c w) as [w' x]; apply IH.
Qed.

Lemma run_for_each {A} now (body : A → prog unit) l : ∀ w,
  run now (for_each body l) w = (foldl (λ w x, fst (run now (body x) w)) w l, tt).
Proof.
  induction l as [|x l IH]; intros w; [done|].
  cbn [for_each]. rewrite run_bind. cbn. destruct (run now (body x) w) as [w' []]. apply IH.
Qed.

(** Every call a program can make satisfies [P]. *)
Fixpoint always {R} (P : ∀ X, call X → Prop) (p : prog R) : Prop :=
  match p with
  | Ret _ => True
  | Do c k => P _ c ∧ ∀ x, always P (k x)
  end.

Lemma always_bind {A B} (P : ∀ X, call X → Prop) (p : prog A) (f : A → prog B) :
  always P p → (∀ a, always P (f a)) → always P (x ← p; f x).
Proof. induction p as [|X c k IH]; cbn; [auto|]. intros [Hc Hk] Hf. split; [done|]. intros x. by apply IH. Qed.

Lemma always_for_each {A} (P : ∀ X, call X → Prop) (body : A → prog unit) l :
  (∀ a, always P (body a)) → always P (for_each body l).
Proof. intros H. induction l; [done|]. by apply always_bind. Qed.

Lemma run_always {R} (P : ∀ X, call X → Prop) (I : world → Prop) now (p : prog R) : ∀ w,
  (∀ X (c : call X) w, P X c → I w → I (fst (handle NoFault now c w))) →
  always P p → I w → I (fst (run now p w)).
Proof.
  induction p as [|X c k IH]; intros w Hstep; [done|]. intros [Hc Hk] Hw. cbn.
  pose proof (Hstep X c w Hc Hw). destruct (handle NoFault now c w) as [w' x]. by apply IH.
Qed.

(** Proves [always] of a program by walking through its calls; [walks] has the lemmas on
    programs it uses. *)
Create HintDb walks.
Ltac walk :=
  repeat first
    [ solve [auto 1 with walks nocore]
    | match goal with |- always _ (mbind _ _) => apply always_bind end
    | progress cbn
    | done
    | match goal with
      | |- _ ∧ _ => split
      | |- ∀ _, _ => intros
      | |- always _ (for_each _ _) => apply always_for_each
      | |- context [match ?x with _ => _ end] => destruct x
      end ].

(** ** Lemmas on the tables *)

(** A row stands alone in its table: no other row has its id. *)
Definition alone (r : alert_row) (t1 t2 : list alert_row) : Prop :=
  Forall (λ s, ID s ≠ ID r) t1 ∧ Forall (λ s, ID s ≠ ID r) t2.

Definition unique_ids (t : list alert_row) : Prop := NoDup (ID <$> t).

Lemma unique_alone t r : unique_ids t → r ∈ t → ∃ t1 t2, t = t1 ++ r :: t2 ∧ alone r t1 t2.
Proof.
  intros Hu (t1 & t2 & ->)%list_elem_of_split. exists t1, t2; split; [done|].
  unfold unique_ids in Hu. rewrite fmap_app, fmap_cons in Hu.
  apply NoDup_app in Hu as (_ & H1 & H2%NoDup_cons). split; apply Forall_forall.
  - intros s Hs E. apply (H1 (ID s)); [by apply list_elem_of_fmap_2|]. rewrite E. left.
  - intros s Hs E. apply H2. rewrite <- E. by apply list_elem_of_fmap_2.
Qed.

Lemma unique_row t r s : unique_ids t → r ∈ t → s ∈ t → ID r = ID s → s = r.
Proof.
  intros Hu Hr Hs E. destruct (unique_alone t r Hu Hr) as (t1 & t2 & -> & H1 & H2).
  apply elem_of_app in Hs as [Hs|Hs]; [by destruct (proj1 (Forall_forall _ _) H1 s Hs)|].
  apply elem_of_cons in Hs as [->|Hs]; [done|]. by destruct (proj1 (Forall_forall _ _) H2 s Hs).
Qed.

Lemma others_false (r : alert_row) id (q : alert_row → bool) t :
  id = ID r → Forall (λ s, ID s ≠ ID r) t → Forall (λ s, String.eqb (ID s) id && q s = false) t.
Proof.
  intros -> H. eapply Forall_impl; [exact H|]. intros s Hs; cbn.
  by apply String.eqb_neq in Hs as ->.
Qed.

Lemma scoped_self (r : alert_row) : scoped (TenantID r) r = true.
Proof. unfold scoped. by rewrite String.eqb_refl, orb_true_r. Qed.

Lemma AdvanceAlert_none tid a e t :
  Forall (λ r, String.eqb (ID r) (ID a) && bool_decide (NextEscAt r = fmtTime e)
               && open_state (State r) && scoped tid r = false) t →
  AdvanceAlert tid a e t = (t, false).
Proof. intros H. unfold AdvanceAlert, sql_update. by rewrite update_none, filter_none. Qed.

Lemma GetAlert_split tid r t1 t2 : alone r t1 t2 → scoped tid r = true →
  GetAlert tid (ID r) (t1 ++ r :: t2) = Some (scan_alert r).
Proof.
  intros [H1 H2] Hs. unfold GetAlert. rewrite (filter_split _ t1 r t2); [done| | |].
  1,2: by eapply others_false.
  by rewrite String.eqb_refl, Hs.
Qed.

Lemma AdvanceAlert_split tid a e r t1 t2 :
  alone r t1 t2 → ID a = ID r → NextEscAt r = fmtTime e → open_state (State r) = true →
  scoped tid r = true →
  AdvanceAlert tid a e (t1 ++ r :: t2) = (t1 ++ set_alert a r :: t2, true).
Proof.
  intros [H1 H2] Ha He Ho Hs. unfold AdvanceAlert. rewrite (sql_update_split _ _ t1 r t2); [done| | |].
  1,2: eapply Forall_impl; [eassumption|]; intros s Hq; cbn; rewrite Ha;
    by apply String.eqb_neq in Hq as ->.
  rewrite Ha, String.eqb_refl, Ho, Hs, bool_decide_true by done. done.
Qed.

(** An update of one alert leaves what is read of the others. *)
Lemma GetAlert_map tid id (g : alert_row → alert_row) t :
  (∀ r, ID (g r) = ID r ∧ TenantID (g r) = TenantID r) → (∀ r, ID r = id → g r = r) →
  GetAlert tid id (g <$> t) = GetAlert tid id t.
Proof.
  intros Hid Hg. unfold GetAlert. f_equal. f_equal. induction t as [|r t IH]; [done|]. cbn.
  destruct (Hid r) as [-> Ht]. assert (scoped tid (g r) = scoped tid r) as -> by (unfold scoped; by rewrite Ht).
  destruct (String.eqb_spec (ID r) id) as [E|]; cbn; [|done].
  rewrite IH, Hg by done. done.
Qed.

Lemma GetAlert_AdvanceAlert tid id tid' a e t : id ≠ ID a →
  GetAlert tid id (fst (AdvanceAlert tid' a e t)) = GetAlert tid id t.
Proof.
  intros Hne. unfold AdvanceAlert. cbn.
  apply GetAlert_map; [intros; by case_match|].
  intros r <-. by apply String.eqb_neq in Hne as ->.
Qed.

(** ** The row of an alert *)

Definition row_of (id : string) (t : list alert_row) : option alert_row :=
  head (List.filter (λ r, String.eqb (ID r) id) t).

Lemma row_of_In id t r : row_of id t = Some r → r ∈ t ∧ ID r = id.
Proof.
  by intros [Hin E%String.eqb_eq]%head_filter.
Qed.

Lemma row_of_None id t : row_of id t = None ↔ Forall (λ r, ID r ≠ id) t.
Proof.
  unfold row_of. induction t as [|r t IH]; [done|]. cbn. rewrite Forall_cons.
  destruct (String.eqb_spec (ID r) id); cbn; [|tauto]. split; [done|]. by intros [? _].
Qed.

Lemma row_of_split r t1 t2 : alone r t1 t2 → row_of (ID r) (t1 ++ r :: t2) = Some r.
Proof.
  intros [H1 H2]. unfold row_of. rewrite filter_split; [done| | |apply String.eqb_refl].
  1,2: eapply Forall_impl; [eassumption|]; intros s Hs; by apply String.eqb_neq.
Qed.

Lemma row_of_put id a r t1 t2 : alone r t1 t2 →
  row_of id (t1 ++ set_alert a r :: t2)
  = if String.eqb id (ID r) then Some (set_alert a r) else row_of id (t1 ++ r :: t2).
Proof.
  intros Hal. destruct (String.eqb_spec id (ID r)) as [->|Hne].
  - apply (row_of_split (set_alert a r)). done.
  - unfold row_of. rewrite !List.filter_app. cbn. by apply not_eq_sym, String.eqb_neq in Hne as ->.
Qed.

Lemma put_unique a r t1 t2 : unique_ids (t1 ++ r :: t2) → unique_ids (t1 ++ set_alert a r :: t2).
Proof. unfold unique_ids. by rewrite !fmap_app, !fmap_cons. Qed.

Lemma row_of_app id t r :
  row_of id (t ++ [r]) = match row_of id t with Some s => Some s | None => if String.eqb (ID r) id then Some r else None end.
Proof.
  unfold row_of. rewrite List.filter_app. cbn. destruct (List.filter _ t); [|done]. by case_match.
Qed.

(** A compare-and-set writes exactly one row, its own, which was open and at the expected
    time; or it writes nothing and says so. *)
Lemma advance_cases tid a e t : unique_ids t →
  (∃ t1 r t2, t = t1 ++ r :: t2 ∧ alone r t1 t2 ∧ ID r = ID a ∧ NextEscAt r = fmtTime e
     ∧ open_state (State r) = true ∧ AdvanceAlert tid a e t = (t1 ++ set_alert a r :: t2, true))
  ∨ AdvanceAlert tid a e t = (t, false).
Proof.
  intros Hu. destruct (row_of (ID a) t) as [r|] eqn:Hr.
  - apply row_of_In in Hr as [Hr Hid]. destruct (unique_alone t r Hu Hr) as (t1 & t2 & -> & Hal).
    destruct (decide (NextEscAt r = fmtTime e ∧ open_state (State r) = true ∧ scoped tid r = true)) as [(He & Ho & Hs)|Hno].
    + left. exists t1, r, t2. split_and!; try done. by apply AdvanceAlert_split.
    + right. apply AdvanceAlert_none. apply Forall_app. destruct Hal as [H1 H2]. rewrite <- Hid.
      split; [eapply Forall_impl; [exact H1|]|apply Forall_cons; split; [|eapply Forall_impl; [exact H2|]]].
      1,3: intros s Hs; cbn; by apply String.eqb_neq in Hs as ->.
      rewrite String.eqb_refl. cbn. case_bool_decide; [|done]. cbn.
      destruct (open_state (State r)); [|done]. cbn. apply not_true_is_false. tauto.
  - right. apply AdvanceAlert_none. apply row_of_None in Hr.
    eapply Forall_impl; [exact Hr|]. intros s Hs; cbn. by apply String.eqb_neq in Hs as ->.
Qed.

Lemma update_cases tid a t : unique_ids t →
  (∃ t1 r t2, t = t1 ++ r :: t2 ∧ alone r t1 t2 ∧ ID r = ID a ∧ scoped tid r = true
     ∧ UpdateAlert tid a t = t1 ++ set_alert a r :: t2)
  ∨ (UpdateAlert tid a t = t ∧ GetAlert tid (ID a) t = None).
Proof.
  intros Hu. destruct (row_of (ID a) t) as [r|] eqn:Hr.
  - apply row_of_In in Hr as [Hr Hid]. destruct (unique_alone t r Hu Hr) as (t1 & t2 & -> & Hal).
    destruct (scoped tid r) eqn:Hs.
    + left. exists t1, r, t2. split_and!; try done. unfold UpdateAlert. destruct Hal as [H1 H2].
      rewrite (sql_update_split _ _ t1 r t2); [done| | |by rewrite Hid, String.eqb_refl, Hs].
      1,2: by eapply others_false.
    + right. destruct Hal as [H1 H2].
      assert (Hf : Forall (λ s, String.eqb (ID s) (ID a) && scoped tid s = false) (t1 ++ r :: t2)).
      { apply Forall_app. split; [by eapply others_false|]. apply Forall_cons. split; [|by eapply others_false].
        by rewrite Hs, andb_false_r. }
      unfold UpdateAlert, sql_update, GetAlert. cbn. by rewrite update_none, filter_none.
  - right. apply row_of_None in Hr.
    assert (Hf : Forall (λ s, String.eqb (ID s) (ID a) && scoped tid s = false) t).
    { eapply Forall_impl; [exact Hr|]. intros s Hs; cbn. by apply String.eqb_neq in Hs as ->. }
    unfold UpdateAlert, sql_update, GetAlert. cbn. by rewrite update_none, filter_none.
Qed.

Lemma create_cases tid a t :
  (∃ r, CreateAlert tid a t = Some (t ++ [r]) ∧ row_of (ID a) t = None ∧ ID r = ID a ∧ State r = State a)
  ∨ (CreateAlert tid a t = None ∧ row_of (ID a) t ≠ None).
Proof.
  unfold CreateAlert. destruct (existsb _ t) eqn:E.
  - right. split; [done|]. rewrite row_of_None. apply existsb_exists in E as (r & Hr & E%String.eqb_eq).
    intros H. apply list_elem_of_In in Hr. by apply (proj1 (Forall_forall _ _) H r).
  - left. eexists. split; [done|]. split; [|done]. apply row_of_None, Forall_forall. intros r Hr Er.
    apply not_true_iff_false in E. apply E. apply existsb_exists. exists r.
    split; [by apply list_elem_of_In|by apply String.eqb_eq].
Qed.

Lemma app_unique t r : unique_ids t → row_of (ID r) t = None → unique_ids (t ++ [r]).
Proof.
  unfold unique_ids. intros Hu Hr%row_of_None. rewrite fmap_app. apply NoDup_app.
  split; [done|]. split; [|apply NoDup_singleton].
  intros k (s & -> & Hs)%list_elem_of_fmap E%list_elem_of_singleton.
  by apply (proj1 (Forall_forall _ _) Hr s).
Qed.

(** Calls that leave alerts, chains and notifications alone. *)
Definition inert {X} (c : call X) : bool :=
  match c with
  | CCreateAlert _ _ | CUpdateAlert _ _ | CAdvanceAlert _ _ _ | CNotify _ => false
  | _ => true
  end.

Lemma handle_inert {X} (c : call X) f now w : inert c = true →
  let w' := fst (handle f now c w) in
  alerts w' = alerts w ∧ chains w' = chains w ∧ sent w' = sent w.
Proof. intros Hc. destruct c; try done; by destruct f. Qed.

Lemma handle_unique_ids {X} (c : call X) f now w :
  unique_ids (alerts w) → unique_ids (alerts (fst (handle f now c w))).
Proof.
  intros Hu. destruct (inert c) eqn:Hi; [by destruct (handle_inert c f now w Hi) as (-> & _)|].
  destruct c; try done; cbn [handle].
  - destruct (create_cases tenantID a (alerts w)) as [(r & -> & Hn & Hid & _)|[-> _]]; [|by destruct f].
    destruct f; [|done|]; apply app_unique; by rewrite ?Hid.
  - destruct (update_cases tenantID a (alerts w) Hu) as [(t1 & r & t2 & Et & _ & _ & _ & ->)|[-> _]];
      [|by destruct f]. rewrite Et in Hu. destruct f; cbn; [by eapply put_unique|by rewrite Et|by eapply put_unique].
  - destruct (advance_cases tenantID a expected (alerts w) Hu) as [(t1 & r & t2 & Et & _ & _ & _ & _ & ->)| ->];
      [|by destruct f]. rewrite Et in Hu. destruct f; cbn; [by eapply put_unique|by rewrite Et|by eapply put_unique].
  - by destruct f.
Qed.

End AlertStore.
