(* ===== verification/Escalation.v ===== *)
(** The escalation engine, [internal/escalation/escalation.go], as programs over
    [AlertStore].  This file runs an engine alone: which notifications an alert causes, in
    which order, and when they end.  [AlertSystem] interleaves engines.  The rendering of
    a notification ([apprise.FormatSubject], [FormatBody]) and the notifier's backends are
    left out: a notification is its targets and its [AlertData]. *)
From S2P Require Import Prelude AlertStore.

Module Escalation.
Import AlertStore.

Definition escalationLease : Z := 2 * minute.

(** [time.Duration(n) * time.Second] *)
Definition seconds (n : Z) : Z := i64 (n * second).

Definition unix_nano (t : Z) : Z := t - 62135596800 * second.

(** ** Raising and closing *)

(** An alert with its progress fields replaced. *)
Definition set_progress (a : Alert) (s : AlertState) (tier retries next updated : Z) : Alert :=
  MkAlert (ID a) (TenantID a) (ChainID a) (DeviceIMEI a) (Type_ a) (Detail a) s tier retries
    (AckedBy a) (AckedAt a) next (CreatedAt a) updated.

(** An alert closed as [s] by [by] at [now]. *)
Definition set_closed (a : Alert) (s : AlertState) (by_ : string) (now : Z) : Alert :=
  MkAlert (ID a) (TenantID a) (ChainID a) (DeviceIMEI a) (Type_ a) (Detail a) s (CurrentTier a)
    (Retries a) by_ now (NextEscAt a) (CreatedAt a) now.

Definition Trigger (tenantID : string) (alert : Alert) : prog (result error unit) :=
  id ← (if String.eqb (ID alert) "" then
          t ← perform CNow; mret ("alert-" +:+ pretty (unix_nano t))
        else mret (ID alert));
  now ← perform CNow;
  r ← perform (CCreateAlert tenantID
        (MkAlert id (TenantID alert) (ChainID alert) (DeviceIMEI alert) (Type_ alert)
           (Detail alert) AlertStateTriggered 0 0 (AckedBy alert) (AckedAt alert) now now now));
  match r with
  | Err e => mret (Err (Wrap "escalation: create alert: " e))
  | Ok _ => mret (Ok tt)
  end.

Definition Acknowledge (tenantID alertID ackedBy : string) : prog (result error unit) :=
  r ← perform (CGetAlert tenantID alertID);
  match r with
  | Err e => mret (Err (Wrap "escalation: get alert: " e))
  | Ok alert =>
      if bool_decide (State alert = AlertStateAcknowledged) then mret (Ok tt)
      else
        now ← perform CNow;
        u ← perform (CUpdateAlert tenantID (set_closed alert AlertStateAcknowledged ackedBy now));
        match u with
        | Err e => mret (Err (Wrap "escalation: update alert: " e))
        | Ok _ => mret (Ok tt)
        end
  end.

Fixpoint isNotFound (e : error) : bool :=
  match e with ErrNoRows | ErrNotFound => true | Wrap _ e => isNotFound e | _ => false end.

Definition TriggerOnce (tenantID : string) (alert : Alert) : prog (result error bool) :=
  if String.eqb (ID alert) "" then mret (Err (ErrNew "escalation: TriggerOnce needs an alert id"))
  else
    r ← perform (CGetAlert tenantID (ID alert));
    match r with
    | Ok _ => mret (Ok false)
    | Err _ =>
        t ← Trigger tenantID alert;
        match t with
        | Err e =>
            g ← perform (CGetAlert tenantID (ID alert));
            match g with Ok _ => mret (Ok false) | Err _ => mret (Err e) end
        | Ok _ => mret (Ok true)
        end
    end.

Definition cancelAlert (tenantID : string) (alert : Alert) (by_ : string) : prog (result error bool) :=
  if bool_decide (State alert = AlertStateCancelled) then mret (Ok false)
  else
    now ← perform CNow;
    u ← perform (CUpdateAlert tenantID (set_closed alert AlertStateCancelled by_ now));
    match u with
    | Err e => mret (Err (Wrap "escalation: update alert: " e))
    | Ok _ => mret (Ok true)
    end.

Definition Cancel (tenantID alertID by_ : string) : prog (result error bool) :=
  r ← perform (CGetAlert tenantID alertID);
  match r with
  | Err e => if isNotFound e then mret (Ok false) else mret (Err (Wrap "escalation: get alert: " e))
  | Ok alert => cancelAlert tenantID alert by_
  end.

Definition closeRounds : nat := 3.
Definition ClosedBeforeRaised : string := " (cancelled before it paged)".

(** The alert [Close] writes when there is none yet. *)
Definition tomb (alert : Alert) (by_ : string) (now : Z) : Alert :=
  MkAlert (ID alert) (TenantID alert) (ChainID alert) (DeviceIMEI alert) (Type_ alert)
    (Detail alert +:+ ClosedBeforeRaised) AlertStateCancelled 0 0 by_ now now now now.

Fixpoint close_loop (rounds : nat) (tenantID : string) (alert : Alert) (by_ : string) : prog (result error bool) :=
  match rounds with
  | O => mret (Err (ErrNew ("escalation: closing alert " +:+ ID alert +:+ " lost 3 races to a raise")))
  | S rounds =>
      r ← perform (CGetAlert tenantID (ID alert));
      match r with
      | Ok existing => cancelAlert tenantID existing by_
      | Err e =>
          if negb (isNotFound e) then mret (Err (Wrap "escalation: get alert: " e))
          else
            now ← perform CNow;
            c ← perform (CCreateAlert tenantID (tomb alert by_ now));
            match c with
            | Ok _ => mret (Ok true)
            | Err _ => close_loop rounds tenantID alert by_
            end
      end
  end.

Definition Close (tenantID : string) (alert : Alert) (by_ : string) : prog (result error bool) :=
  if String.eqb (ID alert) "" then mret (Err (ErrNew "escalation: Close needs an alert id"))
  else close_loop closeRounds tenantID alert by_.

(** ** One escalation step *)

(** Closing an alert that has no tier left, or no chain. *)
Definition exhaust (alert : Alert) (now : Z) : prog unit :=
  _ ← perform (CAdvanceAlert (TenantID alert)
        (set_progress alert AlertStateExhausted (CurrentTier alert) (Retries alert) (NextEscAt alert) now)
        (NextEscAt alert));
  mret tt.

(** The lease: [next_esc_at] moves two minutes past [now]. *)
Definition leased (alert : Alert) (now : Z) : Alert :=
  set_progress alert AlertStateEscalating (CurrentTier alert) (Retries alert) (now + escalationLease) now.

Definition alert_data (chain : EscalationChain) (tier : EscalationTier) (alert : Alert) : AlertData :=
  MkData (ID alert) (DeviceIMEI alert) (Type_ alert) (Detail alert) (Name tier)
    (CurrentTier alert + 1) (Zlen (Tiers chain)) (Retries alert + 1) (MaxRetries tier) (CreatedAt alert).

Definition pref_urls (r : result error NotificationPref) : list string :=
  match r with Ok p => if pEnabled p then URLs p else [] | Err _ => [] end.

Definition targets_of (alert : Alert) (tier : EscalationTier) : prog (list string) :=
  if String.eqb (DeviceIMEI alert) "" then mret (Targets tier)
  else
    p ← perform (CGetNotificationPref (TenantID alert) (DeviceIMEI alert));
    q ← perform (CGetNotificationPref (TenantID alert) "*");
    mret (Targets tier ++ pref_urls p ++ pref_urls q).

(** The wait before the next retry within a tier. *)
Definition backoff (retries waitSec : Z) : Z :=
  let shift := if retries <? 0 then 0 else retries in
  let shift := if 16 <? shift then 16 else shift in
  let b := Z.shiftl 1 shift * second in
  let maxWait := seconds waitSec in
  if maxWait <? b then maxWait else b.

(** The alert after its step has been notified. *)
Definition finished (chain : EscalationChain) (tier : EscalationTier) (alert : Alert) (now : Z) : Alert :=
  let retries := Retries alert + 1 in
  if MaxRetries tier <=? retries then
    let next := CurrentTier alert + 1 in
    match Tiers chain !! Z.to_nat next with
    | Some nextTier => set_progress alert (State alert) next 0 (now + seconds (WaitSec nextTier)) now
    | None => set_progress alert AlertStateExhausted next 0 now now
    end
  else set_progress alert (State alert) (CurrentTier alert) retries
         (now + backoff retries (WaitSec tier)) now.

(** The part of [processAlert] from the lease on. *)
Definition lease_step (chain : EscalationChain) (tier : EscalationTier) (alert : Alert) (now : Z) : prog unit :=
  let mine := leased alert now in
  w ← perform (CAdvanceAlert (TenantID alert) mine (NextEscAt alert));
  match w with
  | Ok true =>
      targets ← targets_of mine tier;
      _ ← perform (CNotify (MkNotification (TenantID alert) targets (alert_data chain tier mine)
                              (fmtTime (NextEscAt alert))));
      _ ← perform (CAdvanceAlert (TenantID alert) (finished chain tier mine now) (NextEscAt mine));
      mret tt
  | _ => mret tt
  end.

(** A tier index is never negative; a panic on one ends the program here. *)
Definition processAlert (alert : Alert) (now : Z) : prog unit :=
  r ← perform (CGetEscalationChain (TenantID alert) (ChainID alert));
  match r with
  | Err _ => exhaust alert now
  | Ok chain =>
      if Zlen (Tiers chain) <=? CurrentTier alert then exhaust alert now
      else
        match Tiers chain !! Z.to_nat (CurrentTier alert) with
        | Some tier => lease_step chain tier alert now
        | None => mret tt
        end
  end.

Definition processAlerts : prog unit :=
  r ← perform (CListAlerts "" true 100);
  match r with
  | Err _ => mret tt
  | Ok alerts =>
      now ← perform CNow;
      for_each (λ alert, if now <? NextEscAt alert then mret tt else processAlert alert now) alerts
  end.

(** What the loop does with one alert at [now]: nothing unless it is open and due. *)
Definition tick (id : string) (now : Z) (w : world) : world :=
  match GetAlert "" id (alerts w) with
  | Some alert =>
      if negb (open_state (State alert)) || (now <? NextEscAt alert) then w
      else fst (run now (processAlert alert now) w)
  | None => w
  end.

(** ** The schedule of a chain *)

(** The notifications of the tier with index [i]: (tier number, retry number). *)
Definition tier_steps (i : Z) (t : EscalationTier) : list (Z * Z) :=
  (λ j, (i + 1, j + 1)) <$> seqZ 0 (Z.max 1 (MaxRetries t)).

Fixpoint schedule (i : Z) (tiers : list EscalationTier) : list (Z * Z) :=
  match tiers with
  | [] => []
  | t :: tiers => tier_steps i t ++ schedule (i + 1) tiers
  end.

Definition step_of (n : Notification) : Z * Z := (TierNum (nData n), Retry (nData n)).

(** Times at least [gap] apart, the first not before [lo]. *)
Fixpoint spaced (gap lo : Z) (times : list Z) : Prop :=
  match times with
  | [] => True
  | t :: times => lo <= t ∧ spaced gap (t + gap) times
  end.

(** The waits of a chain fit the gap, and [time.Duration] does not overflow. *)
Definition waits_ok (gap : Z) (tiers : list EscalationTier) : Prop :=
  gap < 2 ^ 63 ∧ Forall (λ t, 0 <= WaitSec t ∧ WaitSec t * second <= gap) tiers.

(** ** Lemmas *)

Lemma seconds_small n : 0 <= n → n * second < 2 ^ 63 → seconds n = n * second.
Proof. intros. apply i64_id. unfold second in *. lia. Qed.

Lemma backoff_bounds retries n :
  0 <= n → n * second < 2 ^ 63 → 0 <= backoff retries n <= n * second.
Proof.
  intros H0 H1. unfold backoff. rewrite (seconds_small n) by done.
  set (s := if 16 <? _ then _ else _).
  assert (0 <= Z.shiftl 1 s) by (apply Z.shiftl_nonneg; lia).
  unfold second in *. case_if; zbool; lia.
Qed.

(** A due alert with a tier left: the lease, the notification and the completion. *)
Lemma processAlert_due now chain tier r t1 t2 w :
  alerts w = t1 ++ r :: t2 → alone r t1 t2 →
  GetEscalationChain (TenantID r) (ChainID r) (chains w) = Some chain →
  0 <= CurrentTier r → Tiers chain !! Z.to_nat (CurrentTier r) = Some tier →
  open_state (State r) = true → NextEscAt r ≠ Some 0 →
  ∃ targets, let mine := leased (scan_alert r) now in
  run now (processAlert (scan_alert r) now) w
  = (set_sent (sent w ++ [MkNotification (TenantID r) targets (alert_data chain tier mine) (NextEscAt r)])
       (set_alerts (t1 ++ set_alert (finished chain tier mine now) r :: t2) w), tt).
Proof.
  intros Hw Hal Hc H0 Ht Ho Hn.
  assert (Hf : fmtTime (parseTime (NextEscAt r)) = NextEscAt r) by (by apply fmt_parse).
  assert (Hlt : (Zlen (Tiers chain) <=? CurrentTier r) = false).
  { apply lookup_lt_Some in Ht. apply Z.leb_gt. unfold Zlen. lia. }
  unfold processAlert. cbn -[lease_step]. rewrite Hc. cbn -[lease_step].
  rewrite Hlt, Ht. unfold lease_step. cbn -[AdvanceAlert targets_of finished leased].
  rewrite Hw, (AdvanceAlert_split _ _ _ r) by (done || apply scoped_self).
  cbn -[AdvanceAlert targets_of finished leased].
  set (mine := leased (scan_alert r) now). set (r1 := set_alert mine r).
  assert (Htg : ∀ w, ∃ tg, run now (targets_of mine tier) w = (w, tg)).
  { intros v. unfold targets_of. case_if; [by eexists|]. cbn. by eexists. }
  destruct (Htg (set_alerts (t1 ++ r1 :: t2) w)) as [tg Htg']. exists tg.
  rewrite run_bind, Htg'. cbn -[AdvanceAlert finished leased].
  rewrite (AdvanceAlert_split _ _ (NextEscAt mine) r1); try done.
  - cbn -[finished leased]. by rewrite Hf.
  - unfold finished. cbn. repeat case_match; done.
  - apply (scoped_self r1).
Qed.

(** The steps left at retry [j] of tier [i]. *)
Definition remaining (chain : EscalationChain) (i j : Z) (tier : EscalationTier) : list (Z * Z) :=
  drop (Z.to_nat j) (tier_steps i tier) ++ schedule (i + 1) (drop (Z.to_nat (i + 1)) (Tiers chain)).

(** The alert [id] of tenant [tid] is open, due by [lo], and [rest] is still to be sent. *)
Definition position (lo : Z) (id tid : string) (chain : EscalationChain) (rest : list (Z * Z)) (w : world) : Prop :=
  ∃ t1 r t2 tier,
    alerts w = t1 ++ r :: t2 ∧ alone r t1 t2 ∧ ID r = id ∧ TenantID r = tid
    ∧ GetEscalationChain tid (ChainID r) (chains w) = Some chain
    ∧ 0 <= CurrentTier r ∧ Tiers chain !! Z.to_nat (CurrentTier r) = Some tier
    ∧ 0 <= Retries r < Z.max 1 (MaxRetries tier)
    ∧ open_state (State r) = true ∧ NextEscAt r ≠ Some 0 ∧ parseTime (NextEscAt r) <= lo
    ∧ rest = remaining chain (CurrentTier r) (Retries r) tier.

(** The alert [id] is closed as exhausted. *)
Definition over (id : string) (w : world) : Prop :=
  ∃ t1 r t2, alerts w = t1 ++ r :: t2 ∧ alone r t1 t2 ∧ ID r = id ∧ State r = AlertStateExhausted.

Lemma tier_steps_drop i j tier : 0 <= j < Z.max 1 (MaxRetries tier) →
  drop (Z.to_nat j) (tier_steps i tier) = (i + 1, j + 1) :: drop (Z.to_nat (j + 1)) (tier_steps i tier).
Proof.
  intros Hj. unfold tier_steps. rewrite <- !fmap_drop.
  rewrite (drop_S (seqZ 0 _) j (Z.to_nat j)) by (apply lookup_seqZ; lia).
  cbn. by replace (Z.to_nat (j + 1)) with (S (Z.to_nat j)) by lia.
Qed.

Lemma tier_steps_end i j tier : Z.max 1 (MaxRetries tier) <= j → drop (Z.to_nat j) (tier_steps i tier) = [].
Proof. intros. apply drop_ge. unfold tier_steps. rewrite length_fmap, length_seqZ. lia. Qed.

Lemma remaining_cons chain i j tier : 0 <= j < Z.max 1 (MaxRetries tier) →
  remaining chain i j tier = (i + 1, j + 1) :: remaining chain i (j + 1) tier.
Proof. intros. unfold remaining. by rewrite tier_steps_drop. Qed.

(** Past the last retry the next tier begins. *)
Lemma remaining_next chain i j tier t' : 0 <= i → Z.max 1 (MaxRetries tier) <= j →
  Tiers chain !! Z.to_nat (i + 1) = Some t' → remaining chain i j tier = remaining chain (i + 1) 0 t'.
Proof.
  intros Hi Hj Ht. unfold remaining. rewrite tier_steps_end by done.
  rewrite (drop_S _ _ _ Ht). cbn [schedule app]. rewrite drop_0.
  by replace (S (Z.to_nat (i + 1))) with (Z.to_nat (i + 1 + 1)) by lia.
Qed.

Lemma remaining_last chain i j tier : Z.max 1 (MaxRetries tier) <= j →
  Tiers chain !! Z.to_nat (i + 1) = None → remaining chain i j tier = [].
Proof.
  intros Hj Ht. unfold remaining. rewrite tier_steps_end by done.
  by rewrite (drop_ge (Tiers chain)) by (by apply lookup_ge_None).
Qed.

(** Moving to [now + d] with [d] within the gap keeps the alert due by [now + gap]. *)
Lemma next_due now d gap : second <= now → 0 <= d <= gap →
  fmtTime (now + d) ≠ Some 0 ∧ parseTime (fmtTime (now + d)) <= now + gap.
Proof.
  unfold fmtTime, second. intros Hn Hd. case_if; zbool; [lia|]. split.
  - intros [= E]. zlia.
  - unfold parseTime, second. zlia.
Qed.

Lemma tick_step gap lo now id tid chain rest w :
  waits_ok gap (Tiers chain) → second <= now → lo <= now → position lo id tid chain rest w →
  ∃ n w', tick id now w = w' ∧ sent w' = sent w ++ [n] ∧ nTenantID n = tid ∧ aAlertID (nData n) = id
    ∧ ((rest = [step_of n] ∧ over id w')
       ∨ ∃ rest', rest = step_of n :: rest' ∧ position (now + gap) id tid chain rest' w').
Proof.
  intros [Hgap Hwait] Hnow Hlo (t1 & r & t2 & tier & Hw & Hal & <- & <- & Hc & Hi & Ht & Hj & Ho & Hn & Hdue & ->).
  destruct (processAlert_due now chain tier r t1 t2 w) as [tg Hrun]; try done.
  unfold tick. rewrite Hw, GetAlert_split by done. cbn -[run processAlert parseTime].
  rewrite Ho. cbn -[run processAlert parseTime]. replace (now <? _) with false by (symmetry; apply Z.ltb_ge; lia).
  rewrite Hrun. eexists _, _. split; [done|]. split; [done|]. split; [done|]. split; [done|].
  rewrite remaining_cons by done. unfold step_of. cbn -[finished].
  pose proof (proj1 (Forall_forall _ _) Hwait) as Hw'. clear Hwait.
  assert (Htm := Hw' tier ltac:(by eapply list_elem_of_lookup_2)). cbn beta in Htm.
  assert (Hset : ∀ a, alone (set_alert a r) t1 t2) by done.
  unfold finished. cbn -[second]. case_if; zbool.
  - destruct (Tiers chain !! Z.to_nat (CurrentTier r + 1)) as [t'|] eqn:Ht'.
    + right. eexists. split; [done|].
      assert (Ht'm := Hw' t' ltac:(by eapply list_elem_of_lookup_2)). cbn beta in Ht'm.
      rewrite (remaining_next _ _ _ _ t') by (done || lia).
      destruct (next_due now (seconds (WaitSec t')) gap) as [Hz Hp];
        [done|rewrite seconds_small by lia; unfold second in *; lia|].
      eexists t1, _, t2, t'. split_and!; try done; cbn; try lia.
    + left. rewrite remaining_last by (done || lia). split; [done|].
      eexists t1, _, t2. split_and!; try done.
  - right. eexists. split; [done|].
    destruct (next_due now (backoff (Retries r + 1) (WaitSec tier)) gap) as [Hz Hp];
      [done|pose proof (backoff_bounds (Retries r + 1) (WaitSec tier)); lia|].
    eexists t1, _, t2, tier. split_and!; try done; cbn; try lia.
Qed.

Lemma over_tick id now w : over id w → tick id now w = w.
Proof.
  intros (t1 & r & t2 & Hw & Hal & <- & Hs). unfold tick.
  rewrite Hw, GetAlert_split by done. cbn. by rewrite Hs.
Qed.

Lemma ticks_schedule gap id tid chain times : ∀ lo rest w,
  waits_ok gap (Tiers chain) → 0 <= gap → second <= lo → spaced gap lo times →
  position lo id tid chain rest w → length times = length rest →
  ∃ new, let w' := foldl (λ w now, tick id now w) w times in
    sent w' = sent w ++ new ∧ step_of <$> new = rest ∧ over id w'
    ∧ Forall (λ n, nTenantID n = tid ∧ aAlertID (nData n) = id) new.
Proof.
  induction times as [|now times IH]; intros lo rest w Hok Hg Hlo Hsp Hpos Hlen.
  - destruct Hpos as (t1 & r & t2 & tier & Hp). exfalso. destruct_and! Hp. subst rest.
    by rewrite remaining_cons in Hlen.
  - destruct Hsp as [Hnow Hsp].
    destruct (tick_step gap lo now id tid chain rest w) as (n & w1 & Htick & Hsent & Hn1 & Hn2 & [[-> Hov]|(rest' & -> & Hpos')]);
      try done; [lia| |].
    + destruct times; [|done]. cbn. rewrite Htick. exists [n]. split_and!; auto.
    + destruct (IH (now + gap) rest' w1) as (new & Hs & Hst & Hov & Hall); try done; [lia|by injection Hlen|].
      cbn. rewrite Htick. exists (n :: new). rewrite Hs, Hsent, <- app_assoc. cbn. rewrite Hst.
      split_and!; auto.
Qed.

(** The calls of a step of alert [id]: the only alert it writes, by compare-and-set, and
    notifies about is its own. *)
Definition steps_only (id : string) : ∀ X, call X → Prop := λ X c,
  match c with
  | CAdvanceAlert _ a _ => ID a = id
  | CNotify n => aAlertID (nData n) = id
  | CCreateAlert _ _ | CUpdateAlert _ _ => False
  | _ => True
  end.

(** What is stored and has been sent of alert [id]. *)
Definition view (id : string) (w : world) : option Alert * list Notification :=
  (GetAlert "" id (alerts w), List.filter (λ n, String.eqb (aAlertID (nData n)) id) (sent w)).

Lemma finished_ID chain tier a now : ID (finished chain tier a now) = ID a.
Proof. unfold finished. by repeat case_match. Qed.

Lemma processAlert_steps alert now : always (steps_only (ID alert)) (processAlert alert now).
Proof.
  unfold processAlert, lease_step, targets_of, exhaust. walk.
  all: by rewrite finished_ID.
Qed.

Lemma handle_steps id id' X (c : call X) f now w : steps_only id X c → id' ≠ id →
  view id' (fst (handle f now c w)) = view id' w.
Proof.
  intros Hc Hne. destruct (inert c) eqn:Hi.
  { destruct (handle_inert c f now w Hi) as (Ha & _ & Hs). unfold view. by rewrite Ha, Hs. }
  destruct c; try done; cbn in Hc; cbn -[AdvanceAlert].
  - destruct (AdvanceAlert _ _ _ _) as [t won] eqn:E.
    assert (GetAlert "" id' t = GetAlert "" id' (alerts w)) as Hg.
    { change t with (fst (t, won)). rewrite <- E. apply GetAlert_AdvanceAlert. by subst. }
    unfold view. destruct f; cbn; by rewrite ?Hg.
  - unfold view. destruct f; cbn; [|done|]; f_equal; rewrite List.filter_app; cbn; subst id;
      apply not_eq_sym, String.eqb_neq in Hne as ->; by rewrite app_nil_r.
Qed.

Lemma processAlert_others alert now id w : id ≠ ID alert →
  view id (fst (run now (processAlert alert now) w)) = view id w.
Proof.
  intros Hne. apply (run_always (steps_only (ID alert)) (λ v, view id v = view id w));
    [|apply processAlert_steps|done].
  intros X c v Hc <-. by eapply handle_steps.
Qed.

Lemma CreateAlert_fresh tid a t : Forall (λ r, ID r ≠ ID a) t →
  ∃ r, CreateAlert tid a t = Some (t ++ [r]) ∧ ID r = ID a ∧ TenantID r = tid ∧ ChainID r = ChainID a
    ∧ State r = State a ∧ CurrentTier r = CurrentTier a ∧ Retries r = Retries a
    ∧ NextEscAt r = fmtTime (NextEscAt a).
Proof.
  intros H. unfold CreateAlert. replace (existsb _ t) with false; [by eexists|].
  symmetry. apply not_true_is_false. intros (r & Hr & E)%existsb_exists.
  apply String.eqb_eq in E. apply list_elem_of_In in Hr.
  by apply (proj1 (Forall_forall _ _) H r).
Qed.

(** A raised alert stands at the start of its chain's schedule. *)
Lemma Trigger_position tid alert chain now w :
  Forall (λ r, ID r ≠ ID alert) (alerts w) → ID alert ≠ "" → second <= now →
  GetEscalationChain tid (ChainID alert) (chains w) = Some chain → Tiers chain ≠ [] →
  ∃ w1, run now (Trigger tid alert) w = (w1, Ok tt) ∧ sent w1 = sent w
    ∧ position now (ID alert) tid chain (schedule 0 (Tiers chain)) w1.
Proof.
  intros Hf Hid Hnow Hc Hne. unfold Trigger. apply String.eqb_neq in Hid as ->.
  cbn -[CreateAlert].
  match goal with |- context [CreateAlert tid ?a _] =>
    destruct (CreateAlert_fresh tid a (alerts w) Hf) as (r & -> & Rid & Rt & Rc & Rs & Ri & Rj & Rn) end.
  cbn. eexists. split; [done|]. split; [done|].
  destruct (Tiers chain) as [|tier tiers] eqn:Ht; [done|].
  destruct (next_due now 0 0) as [Hz Hp]; [done|lia|]. rewrite !Z.add_0_r in Hz, Hp.
  exists (alerts w), r, [], tier. cbn in *. split_and!; try done; try congruence; try lia.
  - split; [|constructor]. by rewrite Rid.
  - by rewrite Ri, Ht.
  - by rewrite Rs.
  - unfold remaining. by rewrite Ri, Rj, Ht.
Qed.

(** C15: Running an engine carries an alert through its whole chain: raised by [Trigger] and
    looked at by the loop at times spaced by at least the longest wait, it is notified
    exactly by the schedule of the chain (tier after tier, each tier its number of retries
    and at least once), always for its own tenant, and is then closed as exhausted, after
    which no later tick does anything. *)
Theorem escalation_runs_chain gap tid alert chain now times w :
  Forall (λ r, ID r ≠ ID alert) (alerts w) → ID alert ≠ "" → second <= now →
  GetEscalationChain tid (ChainID alert) (chains w) = Some chain → Tiers chain ≠ [] →
  waits_ok gap (Tiers chain) → 0 <= gap → spaced gap now times →
  length times = length (schedule 0 (Tiers chain)) →
  ∃ w1 new, run now (Trigger tid alert) w = (w1, Ok tt)
    ∧ (let w2 := foldl (λ w now, tick (ID alert) now w) w1 times in
       sent w2 = sent w ++ new ∧ step_of <$> new = schedule 0 (Tiers chain)
       ∧ Forall (λ n, nTenantID n = tid ∧ aAlertID (nData n) = ID alert) new
       ∧ State <$> GetAlert "" (ID alert) (alerts w2) = Some AlertStateExhausted
       ∧ ∀ later, tick (ID alert) later w2 = w2).
Proof.
  intros Hf Hid Hnow Hc Hne Hok Hg Hsp Hlen.
  destruct (Trigger_position tid alert chain now w) as (w1 & Hrun & Hs & Hpos); try done.
  destruct (ticks_schedule gap (ID alert) tid chain times now _ w1 Hok Hg Hnow Hsp Hpos Hlen)
    as (new & Hnew & Hst & Hov & Hall).
  exists w1, new. split; [done|]. cbn zeta. rewrite Hnew, Hs. split_and!; try done.
  - destruct Hov as (t1 & r & t2 & Ht & Hal & Er & Hx). rewrite Ht, <- Er, GetAlert_split by done.
    cbn. by rewrite Hx.
  - intros later. by apply over_tick.
Qed.

(** What [ListAlerts] returns is read from the rows, each once. *)
Lemma listed_rows t n : unique_ids t →
  NoDup (ID <$> ListAlerts "" true n t)
  ∧ ∀ a, a ∈ ListAlerts "" true n t → GetAlert "" (ID a) t = Some a ∧ open_state (State a) = true.
Proof.
  intros Hu. unfold ListAlerts. set (q := λ r : alert_row, _). set (l := merge_sort _ _).
  assert (Hl : l ≡ₚ List.filter q t) by apply merge_sort_Permutation. split.
  - rewrite <- list_fmap_compose. change (ID ∘ scan_alert) with (@ID (option Z)).
    eapply sublist_NoDup; [|apply fmap_sublist, sublist_take].
    rewrite Hl. eapply sublist_NoDup; [exact Hu|]. apply fmap_sublist.
    apply filter_sublist.
  - intros a (r & -> & Hr)%list_elem_of_fmap.
    assert (Hr' : r ∈ List.filter q t).
    { rewrite <- Hl. apply elem_of_take in Hr as (i & Hi & _). by eapply list_elem_of_lookup_2. }
    apply list_elem_of_In, List.filter_In in Hr' as [Hin%list_elem_of_In Hq].
    destruct (unique_alone t r Hu Hin) as (t1 & t2 & -> & Hal).
    split; [by apply GetAlert_split|]. exact Hq.
Qed.

(** A round of the engine is one tick of each alert it listed: with unique ids, what a
    step does to one alert never changes another that is still to be processed, so the
    snapshot taken at the start of the round is still accurate when its turn comes. *)
Theorem processAlerts_ticks now w : unique_ids (alerts w) →
  fst (run now processAlerts w)
  = foldl (λ w a, tick (ID a) now w) w (ListAlerts "" true 100 (alerts w)).
Proof.
  intros Hu. unfold processAlerts. cbn -[ListAlerts for_each]. rewrite run_for_each. cbn [fst].
  destruct (listed_rows (alerts w) 100 Hu) as [Hnd Hl]. clear Hu.
  revert Hnd Hl. generalize (ListAlerts "" true 100 (alerts w)) as l. intros l.
  revert w. induction l as [|a l IH]; intros w Hnd Hl; [done|]. cbn [foldl].
  destruct (Hl a ltac:(left)) as [Ha Ho].
  assert (tick (ID a) now w = fst (run now (if now <? NextEscAt a then mret tt else processAlert a now) w)) as ->.
  { unfold tick. rewrite Ha, Ho. cbn. by case_if. }
  apply NoDup_cons in Hnd as [Hni Hnd]. apply IH; [done|]. intros b Hb.
  destruct (Hl b ltac:(by right)) as [Hb1 Hb2]. split; [|done]. rewrite <- Hb1.
  case_if; [done|]. apply (f_equal fst (processAlert_others a now (ID b) w
    ltac:(intros E; apply Hni; rewrite <- E; by apply list_elem_of_fmap_2))).
Qed.

(** ** The limit of the listing *)

#[local] Instance created_desc_trans : Transitive created_desc.
Proof.
  intros r s t. unfold created_desc.
  destruct (CreatedAt r), (CreatedAt s), (CreatedAt t); cbn; lia || done.
Qed.

#[local] Instance created_desc_total : Total created_desc.
Proof. intros r s. unfold created_desc. destruct (CreatedAt r), (CreatedAt s); cbn; lia || tauto. Qed.

(** Open and created strictly after [r]. *)
Definition newer_open (r s : alert_row) : bool :=
  open_state (State s) && negb (bool_decide (created_desc r s)).

Lemma sorted_newer_before (l : list alert_row) i r : StronglySorted created_desc l → l !! i = Some r →
  (length (List.filter (newer_open r) l) <= i)%nat.
Proof.
  intros Hs Hi. rewrite <- (take_drop_middle l i r Hi).
  assert (Hr : newer_open r r = false).
  { unfold newer_open. rewrite bool_decide_true, andb_false_r; [done|].
    destruct (total created_desc r r); done. }
  assert (Hd : Forall (λ s, newer_open r s = false) (drop (S i) l)).
  { apply Forall_forall. intros s (j & Hj)%list_elem_of_lookup.
    rewrite <- (take_drop_middle l i r Hi) in Hs. apply StronglySorted_app in Hs as (_ & _ & Hs).
    apply StronglySorted_inv in Hs as [_ Hs]. unfold newer_open. rewrite bool_decide_true, andb_false_r; [done|].
    apply (proj1 (Forall_forall _ _) Hs). by eapply list_elem_of_lookup_2. }
  rewrite List.filter_app. cbn. rewrite Hr, (filter_none _ _ Hd), app_nil_r.
  etransitivity; [apply List.filter_length_le|]. rewrite length_take. lia.
Qed.

(** The listing behind a round is bounded and newest first: while a hundred open alerts
    are newer than [r], a round neither advances nor notifies [r], however long it has been
    due. *)
Theorem old_alert_starves now w r : unique_ids (alerts w) → r ∈ alerts w →
  (100 <= length (List.filter (newer_open r) (alerts w)))%nat →
  view (ID r) (fst (run now processAlerts w)) = view (ID r) w.
Proof.
  intros Hu Hr Hn.
  assert (Hl : ∀ a, a ∈ ListAlerts "" true 100 (alerts w) → ID r ≠ ID a).
  { intros a Ha E. revert Ha. unfold ListAlerts. set (q := λ r : alert_row, _).
    pose proof (merge_sort_Permutation created_desc (List.filter q (alerts w))) as Hp.
    pose proof (StronglySorted_merge_sort created_desc (List.filter q (alerts w))) as Hs.
    intros (r' & -> & (i & Hi & Hlt)%elem_of_take)%list_elem_of_fmap.
    assert (r' ∈ alerts w) as Hr'.
    { apply list_elem_of_In. apply (List.filter_In q). apply list_elem_of_In.
      rewrite <- Hp. by eapply list_elem_of_lookup_2. }
    assert (r' = r) as -> by (by eapply unique_row).
    apply sorted_newer_before in Hi; [|done]. rewrite Hp in Hi. unfold q in Hi.
    rewrite filter_filter_length in Hi; [lia|].
    intros s Hq. unfold newer_open in Hq. destruct (open_state (State s)); done. }
  unfold processAlerts. cbn -[ListAlerts for_each]. rewrite run_for_each. cbn [fst].
  revert Hl. generalize (ListAlerts "" true 100 (alerts w)) as l. clear Hu Hr Hn. intros l.
  revert w. induction l as [|a l IH]; intros w Hl; [done|]. cbn [foldl].
  rewrite IH; [|intros b Hb; apply Hl; by right]. case_if; [done|].
  apply processAlert_others, Hl. left.
Qed.

(** ** Witnesses *)

Definition sample_chain : EscalationChain :=
  MkChain "c" "t" "on call" [MkTier "sms" ["a"] 60 2; MkTier "mail" ["b"] 30 0] 0.

Definition sample_alert (id : string) : Alert :=
  MkAlert id "" "c" "dev" "sos" "help" AlertStateTriggered 0 0 "" 0 0 0 0.

Definition sample_world : world := MkWorld [] [sample_chain] [] [] [] [] [] [] [] [].

Lemma escalation_runs_chain_witness :
  ∃ w1 new, run (1000 * second) (Trigger "t" (sample_alert "x")) sample_world = (w1, Ok tt)
    ∧ (let w2 := foldl (λ w now, tick (ID (sample_alert "x")) now w) w1
                   [1000 * second; 1060 * second; 1120 * second] in
       sent w2 = sent sample_world ++ new ∧ step_of <$> new = schedule 0 (Tiers sample_chain)
       ∧ Forall (λ n, nTenantID n = "t" ∧ aAlertID (nData n) = ID (sample_alert "x")) new
       ∧ State <$> GetAlert "" (ID (sample_alert "x")) (alerts w2) = Some AlertStateExhausted
       ∧ ∀ later, tick (ID (sample_alert "x")) later w2 = w2).
Proof.
  apply (escalation_runs_chain (60 * second) "t" (sample_alert "x") sample_chain (1000 * second)
           [1000 * second; 1060 * second; 1120 * second] sample_world).
  - constructor.
  - done.
  - by vm_compute.
  - reflexivity.
  - done.
  - split; [by vm_compute|]. apply (bool_decide_unpack _). vm_compute. exact I.
  - by vm_compute.
  - by vm_compute.
  - reflexivity.
Defined.

(** [n] open alerts that are not due, newer than one that is. *)
Definition crowded (n : nat) : list alert_row :=
  MkAlert "old" "t" "c" "" "sos" "" AlertStateTriggered 0 0 "" None (Some 5) (Some 5) (Some 5)
  :: ((λ i, MkAlert ("n" +:+ pretty (N.of_nat i)) "t" "c" "" "sos" "" AlertStateEscalating 0 1 ""
              None (Some 9000) (Some (10 + Z.of_nat i)) (Some 20)) <$> seq 0 n).

Definition crowded_world : world := MkWorld (crowded 100) [sample_chain] [] [] [] [] [] [] [] [].

Lemma processAlerts_ticks_witness :
  fst (run (1000 * second) processAlerts (MkWorld (crowded 2) [sample_chain] [] [] [] [] [] [] [] []))
  = foldl (λ w a, tick (ID a) (1000 * second) w) (MkWorld (crowded 2) [sample_chain] [] [] [] [] [] [] [] [])
      (ListAlerts "" true 100 (crowded 2)).
Proof.
  apply (processAlerts_ticks (1000 * second) (MkWorld (crowded 2) [sample_chain] [] [] [] [] [] [] [] [])).
  apply (bool_decide_unpack _). vm_compute. exact I.
Defined.

Lemma old_alert_starves_witness :
  view "old" (fst (run (1000 * second) processAlerts crowded_world)) = view "old" crowded_world.
Proof.
  apply (old_alert_starves (1000 * second) crowded_world
           (MkAlert "old" "t" "c" "" "sos" "" AlertStateTriggered 0 0 "" None (Some 5) (Some 5) (Some 5))).
  - apply (bool_decide_unpack _). vm_compute. exact I.
  - left.
  - apply Nat.leb_le. vm_compute. reflexivity.
Defined.

End Escalation.
