(* ===== verification/Deadman.v ===== *)
(** The dead man's switch, [internal/deadman/deadman.go], as programs over [AlertStore]
    that raise their alerts through [Escalation.Trigger].  The context's timeouts are left
    out; a timed-out call is a failed one.  The scan runs against other replicas in
    [AlertSystem]. *)
From S2P Require Import Prelude Calendar AlertStore Escalation.

Module Deadman.
Import Calendar.
Import AlertStore Escalation.

(** [deadman.Config]; durations in nanoseconds. *)
Record Config := MkConfig {
  fDeviceIMEI : string;
  fChainID : string;
  Interval : Z;
  Grace : Z;
  fEnabled : bool;
}.

#[global] Instance Config_eq : EqDecision Config.
Proof. solve_decision. Defined.

Definition toStored (cfg : Config) : DeadmanConfig :=
  MkDeadman (fDeviceIMEI cfg) "" (fChainID cfg) (Interval cfg ÷ second) (Grace cfg ÷ second)
    (fEnabled cfg) 0 false 0.

Definition fromStored (c : DeadmanConfig) : Config :=
  MkConfig (mDeviceIMEI c) (mChainID c) (seconds (IntervalSec c)) (seconds (GraceSec c)) (Enabled c).

Definition set_snoozed (t : Z) (c : DeadmanConfig) : DeadmanConfig :=
  MkDeadman (mDeviceIMEI c) (mTenantID c) (mChainID c) (IntervalSec c) (GraceSec c) (Enabled c) t
    (Alerted c) (mUpdatedAt c).

Definition set_alerted (b : bool) (c : DeadmanConfig) : DeadmanConfig :=
  MkDeadman (mDeviceIMEI c) (mTenantID c) (mChainID c) (IntervalSec c) (GraceSec c) (Enabled c)
    (SnoozedUntil c) b (mUpdatedAt c).

Definition Configure (tenantID : string) (cfg : Config) : prog unit :=
  if negb (fEnabled cfg) then
    _ ← perform (CDeleteDeadmanConfig tenantID (fDeviceIMEI cfg)); mret tt
  else
    r ← perform (CGetDeadmanConfig tenantID (fDeviceIMEI cfg));
    let stored :=
      match r with
      | Ok prev => set_alerted (Alerted prev) (set_snoozed (SnoozedUntil prev) (toStored cfg))
      | Err _ => toStored cfg
      end in
    _ ← perform (CSaveDeadmanConfig tenantID stored); mret tt.

Definition Remove (tenantID deviceIMEI : string) : prog unit :=
  _ ← perform (CDeleteDeadmanConfig tenantID deviceIMEI); mret tt.

(** [update]; [fn] may read the clock. *)
Definition update (tenantID deviceIMEI : string) (fn : DeadmanConfig → prog DeadmanConfig) : prog unit :=
  r ← perform (CGetDeadmanConfig tenantID deviceIMEI);
  match r with
  | Err _ => mret tt
  | Ok c => c' ← fn c; _ ← perform (CSaveDeadmanConfig tenantID c'); mret tt
  end.

Definition Snooze (tenantID deviceIMEI : string) (duration : Z) : prog unit :=
  update tenantID deviceIMEI (λ c, now ← perform CNow; mret (set_snoozed (now + duration) c)).

Definition ClearSnooze (tenantID deviceIMEI : string) : prog unit :=
  update tenantID deviceIMEI (λ c, mret (set_snoozed 0 c)).

Definition ClearAlert (tenantID deviceIMEI : string) : prog unit :=
  update tenantID deviceIMEI (λ c, mret (set_alerted false c)).

Definition CheckIn (tenantID deviceIMEI : string) : prog unit :=
  r ← perform (CGetDeadmanConfig tenantID deviceIMEI);
  _ ← (match r with
       | Ok c => if Alerted c then perform (CSaveDeadmanConfig tenantID (set_alerted false c))
                 else mret (Ok tt)
       | Err _ => mret (Ok tt)
       end);
  _ ← perform (CTouchDeviceLastSeen tenantID deviceIMEI); mret tt.

Definition ListConfigs (tenantID : string) : prog (list Config) :=
  r ← perform CListDeadmanConfigs;
  match r with
  | Err _ => mret []
  | Ok stored => mret (fromStored <$> List.filter (λ c, Enabled c && String.eqb (mTenantID c) tenantID) stored)
  end.

(** ** [time.RFC3339] of a UTC time *)

Definition rfc3339 (t : Z) : string :=
  let s := t / second in
  let '(y, m, d) := civil (s / 86400) in
  let r := s mod 86400 in
  pad4 y +:+ "-" +:+ pad2 m +:+ "-" +:+ pad2 d +:+ "T" +:+ pad2 (r / 3600) +:+ ":"
    +:+ pad2 (r / 60 mod 60) +:+ ":" +:+ pad2 (r mod 60) +:+ "Z".

(** ** The scan *)

Definition deadline (lastSeen : Z) (cfg : DeadmanConfig) : Z :=
  lastSeen + seconds (IntervalSec cfg) + seconds (GraceSec cfg).

Definition missed (cfg : DeadmanConfig) (lastSeen : Z) : Alert :=
  MkAlert "" "" (mChainID cfg) (mDeviceIMEI cfg) "deadman"
    ("Device missed check-in. Last seen: " +:+ rfc3339 lastSeen) AlertStateTriggered 0 0 "" 0 0 0 0.

Definition checkDevice (cfg : DeadmanConfig) (now : Z) : prog unit :=
  if negb (SnoozedUntil cfg =? 0) && (now <? SnoozedUntil cfg) then mret tt
  else if Alerted cfg then mret tt
  else
    r ← perform (CGetDevice (mTenantID cfg) (mDeviceIMEI cfg));
    match r with
    | Err _ => mret tt
    | Ok device =>
        let lastSeen := parseTime (LastSeen device) in
        if now <? deadline lastSeen cfg then mret tt
        else
          s ← perform (CSaveDeadmanConfig (mTenantID cfg) (set_alerted true cfg));
          match s with
          | Err _ => mret tt
          | Ok _ => _ ← Trigger (mTenantID cfg) (missed cfg lastSeen); mret tt
          end
    end.

Definition scan : prog unit :=
  r ← perform CListDeadmanConfigs;
  match r with
  | Err _ => mret tt
  | Ok configs =>
      now ← perform CNow;
      for_each (λ cfg, if Enabled cfg then checkDevice cfg now else mret tt) configs
  end.

(** The monitor's operations. *)
Inductive op :=
| OConfigure (tenantID : string) (cfg : Config)
| ORemove (tenantID deviceIMEI : string)
| OSnooze (tenantID deviceIMEI : string) (duration : Z)
| OClearSnooze (tenantID deviceIMEI : string)
| OClearAlert (tenantID deviceIMEI : string)
| OCheckIn (tenantID deviceIMEI : string)
| OScan.

#[global] Instance op_eq : EqDecision op.
Proof. solve_decision. Defined.

Definition op_prog (o : op) : prog unit :=
  match o with
  | OConfigure t cfg => Configure t cfg
  | ORemove t d => Remove t d
  | OSnooze t d n => Snooze t d n
  | OClearSnooze t d => ClearSnooze t d
  | OClearAlert t d => ClearAlert t d
  | OCheckIn t d => CheckIn t d
  | OScan => scan
  end.

(** The operations that let the switch of device [d] page again. *)
Definition rearms (t d : string) (o : op) : bool :=
  match o with
  | OConfigure t' cfg => String.eqb t' t && String.eqb (fDeviceIMEI cfg) d && negb (fEnabled cfg)
  | ORemove t' d' | OClearAlert t' d' | OCheckIn t' d' => String.eqb t' t && String.eqb d' d
  | _ => false
  end.

Definition switch (t d : string) (w : world) : option DeadmanConfig :=
  GetDeadmanConfig t d (deadman_configs w).

Definition alerted (t d : string) (w : world) : bool :=
  match switch t d w with Some c => Alerted c | None => false end.

(** The dead man's alerts raised for device [d] of tenant [t]. *)
Definition pages (t d : string) (w : world) : nat :=
  length (List.filter (λ r, String.eqb (TenantID r) t && String.eqb (DeviceIMEI r) d
                            && String.eqb (Type_ r) "deadman") (alerts w)).

Definition unique_switches (t : list deadman_row) : Prop :=
  NoDup ((λ r, (mTenantID r, mDeviceIMEI r)) <$> t).

(** ** The switch table *)

Lemma deadman_key_spec {T} t d (r : DeadmanConfigOf T) :
  deadman_key t d r = true ↔ mTenantID r = t ∧ mDeviceIMEI r = d.
Proof. unfold deadman_key. rewrite andb_true_iff, !String.eqb_eq. tauto. Qed.

Lemma saved_same t c now tbl :
  GetDeadmanConfig t (mDeviceIMEI c) (SaveDeadmanConfig t c now tbl)
  = Some (MkDeadman (mDeviceIMEI c) t (mChainID c) (IntervalSec c) (GraceSec c) (Enabled c)
            (parseTime (fmtTime (SnoozedUntil c))) (Alerted c) (parseTime (fmtTime now))).
Proof.
  unfold GetDeadmanConfig, SaveDeadmanConfig. set (row := MkDeadman _ _ _ _ _ _ _ _ _).
  assert (Hk : deadman_key t (mDeviceIMEI c) row = true) by (by apply deadman_key_spec).
  destruct (existsb _ tbl) eqn:E.
  - induction tbl as [|r tbl IH]; [done|]. cbn in E |- *.
    destruct (deadman_key t (mDeviceIMEI c) r) eqn:Er; cbn.
    + by rewrite Hk.
    + rewrite Er. by apply IH.
  - rewrite List.filter_app. rewrite filter_none; [cbn; by rewrite Hk|].
    apply Forall_forall. intros r Hr. apply not_true_is_false. intros Er.
    apply not_true_iff_false in E. apply E. apply existsb_exists. exists r.
    split; [by apply list_elem_of_In|done].
Qed.

Lemma saved_other t d t' c now tbl : (t, d) ≠ (t', mDeviceIMEI c) →
  GetDeadmanConfig t d (SaveDeadmanConfig t' c now tbl) = GetDeadmanConfig t d tbl.
Proof.
  intros Hne. unfold GetDeadmanConfig, SaveDeadmanConfig. set (row := MkDeadman _ _ _ _ _ _ _ _ _).
  assert (Hk : deadman_key t d row = false).
  { apply not_true_is_false. intros [E1 E2]%deadman_key_spec. cbn in *. congruence. }
  destruct (existsb _ tbl).
  - f_equal. f_equal. induction tbl as [|r tbl IH]; [done|]. cbn.
    destruct (deadman_key t' (mDeviceIMEI c) r) eqn:Er; cbn; [|by rewrite IH].
    rewrite Hk, IH. replace (deadman_key t d r) with false; [done|]. symmetry.
    apply not_true_is_false. intros [E1 E2]%deadman_key_spec.
    apply deadman_key_spec in Er as [E3 E4]. congruence.
  - rewrite List.filter_app. cbn. by rewrite Hk, app_nil_r.
Qed.

Lemma deleted_other t d t' d' tbl : (t, d) ≠ (t', d') →
  GetDeadmanConfig t d (DeleteDeadmanConfig t' d' tbl) = GetDeadmanConfig t d tbl.
Proof.
  intros Hne. unfold GetDeadmanConfig, DeleteDeadmanConfig. f_equal. f_equal.
  induction tbl as [|r tbl IH]; [done|]. cbn.
  destruct (deadman_key t' d' r) eqn:Er; cbn; [|by rewrite IH].
  rewrite IH. replace (deadman_key t d r) with false; [done|]. symmetry.
  apply not_true_is_false. intros [E1 E2]%deadman_key_spec.
  apply deadman_key_spec in Er as [E3 E4]. congruence.
Qed.

Lemma got_key t d tbl c : GetDeadmanConfig t d tbl = Some c → mTenantID c = t ∧ mDeviceIMEI c = d.
Proof.
  unfold GetDeadmanConfig. intros (r & Hr & ->)%fmap_Some. by apply head_filter in Hr as [_ H%deadman_key_spec].
Qed.

Lemma listed_switches tbl : unique_switches tbl →
  NoDup ((λ c, (mTenantID c, mDeviceIMEI c)) <$> ListDeadmanConfigs tbl)
  ∧ ∀ c, c ∈ ListDeadmanConfigs tbl → GetDeadmanConfig (mTenantID c) (mDeviceIMEI c) tbl = Some c.
Proof.
  intros Hu. unfold ListDeadmanConfigs.
  pose proof (merge_sort_Permutation deadman_order tbl) as Hp. split.
  - rewrite <- list_fmap_compose.
    change ((λ c : DeadmanConfig, (mTenantID c, mDeviceIMEI c)) ∘ scanDeadman)
      with (λ r : deadman_row, (mTenantID r, mDeviceIMEI r)).
    by rewrite Hp.
  - intros c (r & -> & Hr)%list_elem_of_fmap. rewrite Hp in Hr. unfold GetDeadmanConfig. cbn.
    apply list_elem_of_split in Hr as (t1 & t2 & ->). unfold unique_switches in Hu.
    rewrite fmap_app, fmap_cons in Hu. apply NoDup_app in Hu as (_ & H1 & H2%NoDup_cons).
    rewrite filter_split; [done| | |by apply deadman_key_spec].
    all: apply Forall_forall; intros s Hs; apply not_true_is_false; intros [E1 E2]%deadman_key_spec.
    + apply (H1 (mTenantID s, mDeviceIMEI s)); [by apply (list_elem_of_fmap_2 (λ r, (mTenantID r, mDeviceIMEI r)))|].
      rewrite E1, E2. left.
    + apply H2. rewrite <- E1, <- E2. by apply (list_elem_of_fmap_2 (λ r, (mTenantID r, mDeviceIMEI r))).
Qed.

(** ** What an operation leaves alone *)

(** Calls that touch neither the switch of [(t, d)] nor its dead man's alerts. *)
Definition elsewhere (t d : string) : ∀ X, call X → Prop := λ X c,
  match c with
  | CSaveDeadmanConfig t' c => (t, d) ≠ (t', mDeviceIMEI c)
  | CDeleteDeadmanConfig t' d' => (t, d) ≠ (t', d')
  | CCreateAlert t' a => (t, d) ≠ (t', DeviceIMEI a) ∨ Type_ a ≠ "deadman"
  | _ => True
  end.

Definition same_switch (t d : string) (w w' : world) : Prop :=
  switch t d w' = switch t d w ∧ pages t d w' = pages t d w.

Lemma pages_map t d (g : alert_row → alert_row) tbl :
  (∀ r, TenantID (g r) = TenantID r ∧ DeviceIMEI (g r) = DeviceIMEI r ∧ Type_ (g r) = Type_ r) →
  length (List.filter (λ r, String.eqb (TenantID r) t && String.eqb (DeviceIMEI r) d
                            && String.eqb (Type_ r) "deadman") (g <$> tbl))
  = length (List.filter (λ r, String.eqb (TenantID r) t && String.eqb (DeviceIMEI r) d
                              && String.eqb (Type_ r) "deadman") tbl).
Proof.
  intros Hg. induction tbl as [|r tbl IH]; [done|]. cbn. destruct (Hg r) as (-> & -> & ->).
  case_match; cbn; by rewrite IH.
Qed.

Lemma handle_elsewhere t d X (c : call X) f now w :
  elsewhere t d X c → same_switch t d w (fst (handle f now c w)).
Proof.
  intros Hc. destruct c; cbn in Hc; cbn -[CreateAlert AdvanceAlert UpdateAlert];
    try (destruct f; done).
  - unfold CreateAlert. destruct (existsb _ _); [by destruct f|].
    destruct f; [|done|]; (split; [done|]); unfold pages; cbn; rewrite List.filter_app; cbn;
      (destruct (String.eqb_spec tenantID t), (String.eqb_spec (DeviceIMEI a) d),
         (String.eqb_spec (Type_ a) "deadman"); cbn; rewrite ?app_nil_r; try done);
      subst; destruct Hc; done.
  - destruct f; [|done|]; (split; [done|]); apply pages_map; intros r; by case_match.
  - unfold AdvanceAlert. cbn. destruct f; [|done|]; (split; [done|]);
      apply pages_map; intros r; by case_match.
  - destruct f; [|done|]; (split; [|done]); by apply saved_other.
  - destruct f; [|done|]; (split; [|done]); by apply deleted_other.
Qed.

Lemma run_elsewhere {R} t d now (p : prog R) w :
  always (elsewhere t d) p → same_switch t d w (fst (run now p w)).
Proof.
  intros Hp. apply (run_always (elsewhere t d) (same_switch t d w)); [|done|done].
  intros X c v Hc [Hs Hn]. destruct (handle_elsewhere t d X c NoFault now v Hc) as [Hs' Hn'].
  split; congruence.
Qed.

Lemma checkDevice_elsewhere t d cfg now : (t, d) ≠ (mTenantID cfg, mDeviceIMEI cfg) →
  always (elsewhere t d) (checkDevice cfg now).
Proof. intros Hne. unfold checkDevice, Trigger. walk; by left || idtac. Qed.

Lemma update_elsewhere t d t' d' (fn : DeadmanConfig → prog DeadmanConfig) now w :
  (∀ c, always (elsewhere t d) (fn c)) → (∀ c now w, mDeviceIMEI (snd (run now (fn c) w)) = mDeviceIMEI c) →
  (t, d) ≠ (t', d') → same_switch t d w (fst (run now (update t' d' fn) w)).
Proof.
  intros Hfn Hid Hne. unfold update. cbn -[GetDeadmanConfig].
  destruct (GetDeadmanConfig t' d' (deadman_configs w)) as [c|] eqn:E; [|done]. cbn.
  rewrite run_bind. pose proof (run_elsewhere t d now (fn c) w (Hfn c)) as [Hs Hn].
  pose proof (Hid c now w) as Hc. destruct (run now (fn c) w) as [w' c']. cbn in *.
  apply got_key in E as [_ E].
  split; [|done]. rewrite <- Hs. unfold switch. cbn. apply saved_other. congruence.
Qed.

(** ** One page per missed window *)

(** The dead man's alerts of [(t, d)], plus one while its switch may still page. *)
Definition potential (t d : string) (w : world) : nat :=
  (pages t d w + (if alerted t d w then 0 else 1))%nat.

Lemma same_potential t d w w' : same_switch t d w w' → potential t d w' = potential t d w.
Proof. intros [Hs Hn]. unfold potential, alerted. by rewrite Hs, Hn. Qed.

(** A raise adds at most one row, or changes nothing. *)
Lemma Trigger_run now t a w :
  ∃ r, fst (run now (Trigger t a) w) = w
    ∨ fst (run now (Trigger t a) w) = set_alerts (alerts w ++ [r]) w.
Proof.
  unfold Trigger. destruct (String.eqb (ID a) "");
    cbn -[CreateAlert]; unfold CreateAlert; (destruct (existsb _ _);
      [by eexists (MkAlert "" "" "" "" "" "" AlertStateTriggered 0 0 "" None None None None); left
      |eexists; by right]).
Qed.

Lemma pages_snoc t d w r : (pages t d (set_alerts (alerts w ++ [r]) w) <= pages t d w + 1)%nat.
Proof.
  unfold pages. cbn. rewrite List.filter_app, length_app. cbn. case_match; cbn; lia.
Qed.

Lemma checkDevice_potential t d cfg now clk w : switch t d w = Some cfg →
  (potential t d (fst (run clk (checkDevice cfg now) w)) <= potential t d w)%nat.
Proof.
  intros Hs. destruct (got_key _ _ _ _ Hs) as [<- <-]. unfold checkDevice.
  case_if; [done|]. destruct (Alerted cfg) eqn:Ha; [done|].
  cbn -[GetDevice SaveDeadmanConfig Trigger]. destruct (GetDevice _ _ _) as [dev|]; [|done]. cbn -[SaveDeadmanConfig Trigger].
  case_if; [done|]. cbn -[SaveDeadmanConfig Trigger]. rewrite run_bind.
  set (w1 := set_deadman _ w).
  assert (Hal : alerted (mTenantID cfg) (mDeviceIMEI cfg) w1 = true).
  { unfold alerted, switch, w1. cbn -[SaveDeadmanConfig]. by rewrite (saved_same _ (set_alerted true cfg)). }
  assert (Hna : alerted (mTenantID cfg) (mDeviceIMEI cfg) w = false).
  { unfold alerted. by rewrite Hs. }
  destruct (Trigger_run clk (mTenantID cfg) (missed cfg (parseTime (LastSeen dev))) w1) as [r Hr].
  destruct (run clk (Trigger _ _) w1) as [w2 res]. cbn in Hr |- *. unfold potential.
  rewrite Hna. destruct Hr as [->| ->].
  - rewrite Hal. unfold w1, pages. cbn. lia.
  - replace (alerted _ _ (set_alerts _ w1)) with true by (by rewrite <- Hal).
    pose proof (pages_snoc (mTenantID cfg) (mDeviceIMEI cfg) w1 r).
    change (alerts w1) with (alerts w) in H.
    change (pages _ _ w1) with (pages (mTenantID cfg) (mDeviceIMEI cfg) w) in H. lia.
Qed.

Lemma scan_potential t d now w : unique_switches (deadman_configs w) →
  (potential t d (fst (run now scan w)) <= potential t d w)%nat.
Proof.
  intros Hu. unfold scan. cbn -[ListDeadmanConfigs for_each]. rewrite run_for_each. cbn [fst].
  destruct (listed_switches _ Hu) as [Hnd Hl].
  assert (Hsw : ∀ c, c ∈ ListDeadmanConfigs (deadman_configs w) →
            (mTenantID c, mDeviceIMEI c) = (t, d) → switch t d w = Some c).
  { intros c Hc [= <- <-]. by apply Hl. }
  clear Hl Hu. revert w Hsw Hnd. intros w. generalize (ListDeadmanConfigs (deadman_configs w)) as l.
  intros l. revert w. induction l as [|c l IH]; intros w Hsw Hnd; [done|]. cbn [foldl].
  apply NoDup_cons in Hnd as [Hni Hnd].
  set (w1 := fst (run now (if Enabled c then _ else _) w)).
  destruct (decide ((mTenantID c, mDeviceIMEI c) = (t, d))) as [E|E].
  - assert (potential t d w1 <= potential t d w)%nat.
    { unfold w1. destruct (Enabled c); [|done]. apply checkDevice_potential, Hsw; [left|done]. }
    etransitivity; [apply IH; [|done]|done].
    intros c' Hc' E'. exfalso. apply Hni. rewrite E, <- E'.
    by apply (list_elem_of_fmap_2 (λ c, (mTenantID c, mDeviceIMEI c))).
  - assert (Hsame : same_switch t d w w1).
    { unfold w1. destruct (Enabled c); [|done]. by apply run_elsewhere, checkDevice_elsewhere. }
    rewrite <- (same_potential t d w w1 Hsame). apply IH; [|done].
    intros c' Hc' E'. rewrite (proj1 Hsame). apply Hsw; [by right|done].
Qed.

(** Saving a switch with its alerted flag kept. *)
Lemma update_potential t d fn now w :
  (∀ c, ∃ c', run now (fn c) w = (w, c') ∧ mDeviceIMEI c' = mDeviceIMEI c ∧ Alerted c' = Alerted c) →
  potential t d (fst (run now (update t d fn) w)) = potential t d w.
Proof.
  intros Hfn. unfold update. cbn -[GetDeadmanConfig].
  destruct (GetDeadmanConfig t d (deadman_configs w)) as [c|] eqn:E; [|done]. cbn -[SaveDeadmanConfig].
  rewrite run_bind. destruct (Hfn c) as (c' & -> & Hid & Ha). cbn -[SaveDeadmanConfig].
  unfold potential, alerted, switch. rewrite E. cbn -[SaveDeadmanConfig].
  apply got_key in E as [_ E]. rewrite <- Hid in E. rewrite <- E, saved_same. cbn. by rewrite Ha.
Qed.

Lemma configure_potential t d cfg now w : rearms t d (OConfigure t cfg) = false → fDeviceIMEI cfg = d →
  potential t d (fst (run now (Configure t cfg) w)) = potential t d w.
Proof.
  cbn. rewrite String.eqb_refl. intros Hr <-. rewrite String.eqb_refl in Hr. cbn in Hr.
  unfold Configure. rewrite Hr. cbn -[GetDeadmanConfig SaveDeadmanConfig].
  unfold potential, alerted, switch. f_equal.
  destruct (GetDeadmanConfig t (fDeviceIMEI cfg) (deadman_configs w)) as [prev|]; cbn -[GetDeadmanConfig SaveDeadmanConfig].
  - by rewrite (saved_same t (set_alerted (Alerted prev) (set_snoozed (SnoozedUntil prev) (toStored cfg)))).
  - by rewrite (saved_same t (toStored cfg)).
Qed.

Lemma checkin_elsewhere t d t' d' now w : (t, d) ≠ (t', d') →
  same_switch t d w (fst (run now (CheckIn t' d') w)).
Proof.
  intros Hne. unfold CheckIn. cbn -[GetDeadmanConfig SaveDeadmanConfig].
  destruct (GetDeadmanConfig t' d' (deadman_configs w)) as [c|] eqn:E; [|done]. cbn -[SaveDeadmanConfig].
  destruct (Alerted c); [|done]. split; [|done]. unfold switch. cbn -[SaveDeadmanConfig].
  apply saved_other. apply got_key in E as [_ E]. cbn. congruence.
Qed.

Lemma op_potential t d o now w : unique_switches (deadman_configs w) → rearms t d o = false →
  (potential t d (fst (run now (op_prog o) w)) <= potential t d w)%nat.
Proof.
  intros Hu Hr.
  assert (Hel : ∀ t' d', (t, d) ≠ (t', d') ∨ (t = t' ∧ d = d')).
  { intros. destruct (decide ((t, d) = (t', d'))) as [[= -> ->]|]; auto. }
  destruct o as [t' cfg|t' d'|t' d' n|t' d'|t' d'|t' d'|]; cbn [op_prog]; [..|by apply scan_potential].
  1: destruct (Hel t' (fDeviceIMEI cfg)) as [Hne|[<- Hd]]; [|by rewrite configure_potential].
  2,5,6: destruct (Hel t' d') as [Hne|[<- <-]]; [|cbn in Hr; by rewrite !String.eqb_refl in Hr].
  5,6: destruct (Hel t' d') as [Hne|[<- <-]];
    [|unfold Snooze, ClearSnooze; rewrite update_potential; [done|intros c; by eexists]].
  all: apply Nat.eq_le_incl, same_potential.
  1,2: apply run_elsewhere; unfold Configure, Remove; walk; congruence.
  2: by apply checkin_elsewhere.
  all: apply update_elsewhere; [intros; walk|done|done].
Qed.

Lemma saved_unique t c now tbl : unique_switches tbl → unique_switches (SaveDeadmanConfig t c now tbl).
Proof.
  unfold unique_switches, SaveDeadmanConfig. intros Hu. set (row := MkDeadman _ _ _ _ _ _ _ _ _).
  destruct (existsb _ tbl) eqn:E.
  - rewrite <- list_fmap_compose. erewrite list_fmap_ext; [exact Hu|]. intros i r Hr. cbn.
    destruct (deadman_key t (mDeviceIMEI c) r) eqn:Er; [|done].
    apply deadman_key_spec in Er as [E1 E2]. cbn. by rewrite E1, E2.
  - rewrite fmap_app. apply NoDup_app. split; [done|]. split; [|apply NoDup_singleton].
    intros k (r & -> & Hr)%list_elem_of_fmap Hk%list_elem_of_singleton. injection Hk as E1 E2.
    apply not_true_iff_false in E. apply E. apply existsb_exists. exists r.
    split; [by apply list_elem_of_In|by apply deadman_key_spec].
Qed.

Lemma handle_unique X (c : call X) f now w :
  unique_switches (deadman_configs w) → unique_switches (deadman_configs (fst (handle f now c w))).
Proof.
  intros Hu. destruct c; cbn -[CreateAlert AdvanceAlert UpdateAlert SaveDeadmanConfig]; try by destruct f.
  - by destruct (CreateAlert _ _ _), f.
  - destruct f; [|done|]; by apply saved_unique.
  - destruct f; [|done|]; (eapply sublist_NoDup; [exact Hu|]; apply fmap_sublist, filter_sublist).
Qed.

Lemma run_unique {R} now (p : prog R) w :
  unique_switches (deadman_configs w) → unique_switches (deadman_configs (fst (run now p w))).
Proof.
  apply (run_always (λ _ _, True) (λ w, unique_switches (deadman_configs w))).
  - intros X c v _. apply handle_unique.
  - clear. induction p; cbn; auto.
Qed.

(** A sequence of operations, each run to its end at its time. *)
Definition runs (ops : list (Z * op)) (w : world) : world :=
  foldl (λ w o, fst (run o.1 (op_prog o.2) w)) w ops.

(** C29: One page per missed window: through any sequence of configuring, snoozing and scanning
    at any times, as long as nothing re-arms the switch of a device (a check-in, a cleared
    alert, a removal), it raises at most one dead man's alert, and none if it had raised
    one already. *)
Theorem deadman_pages_once t d ops w : unique_switches (deadman_configs w) →
  Forall (λ o, rearms t d o.2 = false) ops →
  (pages t d (runs ops w) <= pages t d w + (if alerted t d w then 0 else 1))%nat.
Proof.
  intros Hu Hops. transitivity (potential t d (runs ops w)); [unfold potential; lia|].
  change (pages t d w + _)%nat with (potential t d w). unfold runs.
  revert w Hu. induction Hops as [|o ops Ho _ IH]; intros w Hu; [done|]. cbn [foldl].
  etransitivity; [apply IH; by apply run_unique|by apply op_potential].
Qed.

(** When a switch pages: it is neither snoozed nor alerted and the window has passed. *)
Definition overdue (cfg : DeadmanConfig) (lastSeen now : Z) : Prop :=
  (SnoozedUntil cfg = 0 ∨ SnoozedUntil cfg <= now) ∧ Alerted cfg = false
  ∧ deadline lastSeen cfg <= now.

(** A check pages exactly the overdue devices: if the switch is overdue it is marked
    alerted and one alert is raised, for its tenant, device and chain, due at once; if it is
    not, or the device does not exist, nothing is written at all. *)
Theorem checkDevice_exact cfg now clk w :
  existsb (λ r, String.eqb (ID r) ("alert-" +:+ pretty (unix_nano clk))) (alerts w) = false →
  let w' := fst (run clk (checkDevice cfg now) w) in
  match GetDevice (mTenantID cfg) (mDeviceIMEI cfg) (devices w) with
  | Some dev =>
      let seen := parseTime (LastSeen dev) in
      (overdue cfg seen now →
         alerted (mTenantID cfg) (mDeviceIMEI cfg) w' = true
         ∧ ∃ r, alerts w' = alerts w ++ [r] ∧ TenantID r = mTenantID cfg ∧ DeviceIMEI r = mDeviceIMEI cfg
             ∧ ChainID r = mChainID cfg ∧ Type_ r = "deadman" ∧ State r = AlertStateTriggered
             ∧ CurrentTier r = 0 ∧ Retries r = 0 ∧ NextEscAt r = fmtTime clk)
      ∧ (¬ overdue cfg seen now → w' = w)
  | None => w' = w
  end.
Proof.
  intros Hfresh. cbn zeta. unfold checkDevice.
  destruct (GetDevice (mTenantID cfg) (mDeviceIMEI cfg) (devices w)) as [dev|] eqn:Hd.
  - set (seen := parseTime (LastSeen dev)). split.
    + intros (Hsn & Ha & Hdl). rewrite Ha.
      replace (negb _ && _) with false; [|destruct Hsn as [->|Hsn]; [done|];
        symmetry; apply andb_false_iff; right; by apply Z.ltb_ge].
      cbn -[GetDevice SaveDeadmanConfig Trigger]. rewrite Hd. cbn -[SaveDeadmanConfig Trigger].
      fold seen. replace (now <? _) with false by (symmetry; by apply Z.ltb_ge).
      cbn -[SaveDeadmanConfig CreateAlert pretty]. unfold CreateAlert. cbn -[SaveDeadmanConfig pretty].
      rewrite Hfresh. cbn -[SaveDeadmanConfig pretty]. split.
      * unfold alerted, switch. cbn -[SaveDeadmanConfig]. by rewrite (saved_same _ (set_alerted true cfg)).
      * by eexists.
    + intros Hno. case_if; [done|]. destruct (Alerted cfg) eqn:Ha; [done|].
      cbn -[GetDevice SaveDeadmanConfig Trigger]. rewrite Hd. cbn -[SaveDeadmanConfig Trigger].
      fold seen. case_if; [done|]. zbool. destruct Hno. split_and!; [|done|lia].
      destruct (Z.eqb_spec (SnoozedUntil cfg) 0); [by left|right]. cbn in *. zbool. lia.
  - case_if; [done|]. destruct (Alerted cfg); [done|].
    cbn -[GetDevice SaveDeadmanConfig Trigger]. by rewrite Hd.
Qed.

Lemma touched_same t d now tbl dev : GetDevice t d tbl = Some dev →
  GetDevice t d (TouchDeviceLastSeen t d now tbl) = Some (MkDevice d t (Some (now / second))).
Proof.
  unfold GetDevice, TouchDeviceLastSeen, sql_update. cbn [fst]. induction tbl as [|r tbl IH]; [done|].
  cbn. destruct (String.eqb_spec (IMEI r) d) as [<-|Hd], (String.eqb_spec (dTenantID r) t) as [<-|Ht]; cbn.
  - intros _. by rewrite !String.eqb_refl.
  - apply String.eqb_neq in Ht as ->. rewrite andb_false_r. exact IH.
  - apply String.eqb_neq in Hd as ->. exact IH.
  - apply String.eqb_neq in Hd as ->. exact IH.
Qed.

Lemma touched_other t d t' d' now tbl : (t, d) ≠ (t', d') →
  GetDevice t d (TouchDeviceLastSeen t' d' now tbl) = GetDevice t d tbl.
Proof.
  intros Hne. unfold GetDevice, TouchDeviceLastSeen, sql_update. cbn [fst]. f_equal.
  induction tbl as [|r tbl IH]; [done|]. cbn.
  destruct (String.eqb_spec (IMEI r) d'), (String.eqb_spec (dTenantID r) t'); cbn; rewrite IH; try done.
  destruct (String.eqb_spec (IMEI r) d), (String.eqb_spec (dTenantID r) t); cbn; try done. congruence.
Qed.

(** A check-in opens a fresh window: the switch is no longer alerted, keeps its chain and
    times, and from then on is overdue exactly when its interval and grace have passed since
    the check-in (to the second) and it is not snoozed. *)
Theorem checkin_resets_window t d cfg dev t0 w :
  switch t d w = Some cfg → GetDevice t d (devices w) = Some dev →
  let w1 := fst (run t0 (CheckIn t d) w) in
  ∃ cfg1 dev1, switch t d w1 = Some cfg1 ∧ GetDevice t d (devices w1) = Some dev1
    ∧ fromStored cfg1 = fromStored cfg ∧ Alerted cfg1 = false
    ∧ ∀ now, overdue cfg1 (parseTime (LastSeen dev1)) now
        ↔ (SnoozedUntil cfg1 = 0 ∨ SnoozedUntil cfg1 <= now)
          ∧ t0 - t0 mod second + Interval (fromStored cfg) + Grace (fromStored cfg) <= now.
Proof.
  intros Hs Hd. destruct (got_key _ _ _ _ Hs) as [Et Ed]. cbn zeta.
  assert (Hdl : ∀ c, fromStored c = fromStored cfg → ∀ now,
    deadline (parseTime (Some (t0 / second))) c <= now
    ↔ t0 - t0 mod second + Interval (fromStored cfg) + Grace (fromStored cfg) <= now).
  { intros c [= _ _ E1 E2 _] now. unfold deadline. cbn -[seconds second]. rewrite E1, E2.
    unfold second. zlia. }
  unfold CheckIn. cbn -[GetDeadmanConfig SaveDeadmanConfig TouchDeviceLastSeen second].
  unfold switch in Hs |- *. rewrite Hs. cbn -[GetDeadmanConfig SaveDeadmanConfig TouchDeviceLastSeen second].
  destruct (Alerted cfg) eqn:Ha; cbn -[GetDeadmanConfig SaveDeadmanConfig TouchDeviceLastSeen second].
  all: rewrite (touched_same t d t0 _ dev Hd).
  - subst d. rewrite (saved_same t (set_alerted false cfg)).
    eexists _, _. split; [done|]. split; [done|]. split; [done|]. split; [done|].
    intros now. unfold overdue. rewrite Hdl by done. tauto.
  - rewrite Hs. eexists _, _. split; [done|]. split; [done|]. split; [done|]. split; [done|].
    intros now. unfold overdue. rewrite Hdl by done. tauto.
Qed.

(** The tenant an operation acts for; the scan acts for all. *)
Definition op_tenant (o : op) : option string :=
  match o with
  | OConfigure t _ | ORemove t _ | OSnooze t _ _ | OClearSnooze t _ | OClearAlert t _ | OCheckIn t _ => Some t
  | OScan => None
  end.

(** The configuration interface is confined to its tenant: an operation of one tenant
    changes no switch, no alert count and no device of another, and listing returns exactly
    the enabled switches of the tenant that asked. *)
Theorem monitor_tenants_isolated a b d o now w : op_tenant o = Some a → b ≠ a →
  let w' := fst (run now (op_prog o) w) in
  same_switch b d w w' ∧ GetDevice b d (devices w') = GetDevice b d (devices w)
  ∧ ∀ cfg, cfg ∈ snd (run now (ListConfigs a) w)
      ↔ ∃ r, r ∈ deadman_configs w ∧ Enabled r = true ∧ mTenantID r = a ∧ cfg = fromStored (scanDeadman r).
Proof.
  intros Ho Hne. cbn zeta. split; [|split].
  - destruct o; cbn [op_tenant op_prog] in *; simplify_eq.
    1,2: apply run_elsewhere; unfold Configure, Remove; walk; congruence.
    4: apply checkin_elsewhere; congruence.
    all: apply update_elsewhere; [intros; walk|done|congruence].
  - apply (run_always (λ X c, match c with CTouchDeviceLastSeen t _ => t = a | _ => True end)
      (λ v, GetDevice b d (devices v) = GetDevice b d (devices w))); [| |done].
    + intros X c v Hc <-. destruct c; cbn -[CreateAlert AdvanceAlert TouchDeviceLastSeen]; try done;
        try by destruct (CreateAlert _ _ _).
      cbn in Hc. subst. apply touched_other. congruence.
    + destruct o; cbn [op_tenant op_prog] in *; simplify_eq;
        unfold Configure, Remove, Snooze, ClearSnooze, ClearAlert, CheckIn, update; walk.
  - intros cfg. unfold ListConfigs. cbn -[ListDeadmanConfigs]. rewrite list_elem_of_fmap.
    unfold ListDeadmanConfigs. pose proof (merge_sort_Permutation deadman_order (deadman_configs w)) as Hp.
    split.
    + intros (c & -> & Hc). apply list_elem_of_In, List.filter_In in Hc as [Hc Hq].
      apply list_elem_of_In, list_elem_of_fmap in Hc as (r & -> & Hr). rewrite Hp in Hr.
      apply andb_true_iff in Hq as [He Ht]. apply String.eqb_eq in Ht. by exists r.
    + intros (r & Hr & He & Ht & ->). exists (scanDeadman r). split; [done|].
      apply list_elem_of_In, List.filter_In. split; [|cbn; by rewrite He, Ht, String.eqb_refl].
      apply list_elem_of_In, list_elem_of_fmap_2. by rewrite Hp.
Qed.

(** ** Witnesses *)

Definition sample_switch (a : bool) : deadman_row :=
  MkDeadman "d" "t" "c" 60 10 true None a (Some 100).

Definition watched (a : bool) : world :=
  MkWorld [] [sample_chain] [] [MkDevice "d" "t" (Some 100)] [sample_switch a] [] [] [] [] [].

Definition sample_ops : list (Z * op) :=
  [(150 * second, OScan); (200 * second, OScan); (300 * second, OSnooze "t" "d" second); (400 * second, OScan)].

Lemma deadman_pages_once_witness :
  (pages "t" "d" (runs sample_ops (watched false)) <= pages "t" "d" (watched false)
     + (if alerted "t" "d" (watched false) then 0 else 1))%nat
  ∧ pages "t" "d" (runs sample_ops (watched false)) = 1%nat.
Proof.
  split.
  - apply (deadman_pages_once "t" "d" sample_ops (watched false)).
    + apply (bool_decide_unpack _). vm_compute. exact I.
    + apply (bool_decide_unpack _). vm_compute. exact I.
  - vm_compute. reflexivity.
Defined.

Lemma checkDevice_exact_witness :
  alerted "t" "d" (fst (run (200 * second) (checkDevice (scanDeadman (sample_switch false)) (200 * second)) (watched false)))
  = true.
Proof.
  apply (proj1 (checkDevice_exact (scanDeadman (sample_switch false)) (200 * second) (200 * second)
                  (watched false) eq_refl)).
  unfold overdue. split; [by left|]. split; [done|]. by vm_compute.
Defined.

Lemma checkin_resets_window_witness :
  ∃ cfg1 dev1, switch "t" "d" (fst (run (500 * second + 7) (CheckIn "t" "d") (watched true))) = Some cfg1
    ∧ GetDevice "t" "d" (devices (fst (run (500 * second + 7) (CheckIn "t" "d") (watched true)))) = Some dev1
    ∧ fromStored cfg1 = fromStored (scanDeadman (sample_switch true)) ∧ Alerted cfg1 = false
    ∧ ∀ now, overdue cfg1 (parseTime (LastSeen dev1)) now
        ↔ (SnoozedUntil cfg1 = 0 ∨ SnoozedUntil cfg1 <= now)
          ∧ 500 * second + 7 - (500 * second + 7) mod second
            + Interval (fromStored (scanDeadman (sample_switch true)))
            + Grace (fromStored (scanDeadman (sample_switch true))) <= now.
Proof.
  apply (checkin_resets_window "t" "d" (scanDeadman (sample_switch true)) (MkDevice "d" "t" (Some 100))
           (500 * second + 7) (watched true)); reflexivity.
Defined.

Lemma monitor_tenants_isolated_witness :
  same_switch "t" "d" (watched true) (fst (run second (op_prog (ORemove "u" "d")) (watched true))).
Proof.
  apply (monitor_tenants_isolated "u" "t" "d" (ORemove "u" "d") second (watched true)); done.
Defined.

End Deadman.
