(* ===== verification/Sos.v ===== *)
(** The Hub's side of an SOS: the runs of [internal/sos/runs.go] and the detector of
    [internal/sos/detector.go], as programs over [AlertStore] that use the [Escalation]
    engine.  JSON and topics are taken decoded; log lines are left out. *)
From S2P Require Import Prelude Float64 Text Sha Hubmsg AlertStore Escalation.

Module Sos.
Import Float64 AlertStore Escalation.

#[global] Instance float64_eq : EqDecision float64.
Proof. solve_decision. Defined.

(** ** Retries, [dbwrap.RetryShort] *)

Fixpoint IsRetryable (e : error) : bool :=
  match e with ErrDB transient => transient | Wrap _ e => IsRetryable e | _ => false end.

Fixpoint retry_loop {X} (attempts : nat) (fn : prog (result error X)) (err : error) : prog (result error X) :=
  match attempts with
  | O => mret (Err err)
  | S attempts =>
      r ← fn;
      match r with
      | Ok x => mret (Ok x)
      | Err e =>
          if negb (IsRetryable e) then mret (Err e)
          else
            t ← perform CSleep;
            match t with
            | Err _ => mret (Err (Wrap "context: " e))
            | Ok _ => retry_loop attempts fn e
            end
      end
  end.

Definition RetryShort {X} (fn : prog (result error X)) : prog (result error X) := retry_loop 3 fn (ErrDB false).

(** ** The detector *)

(** [NewDetector]'s configuration; [defaultTenant] is [tenants.Default()]. *)
Record Detector := MkDetector {
  dEngine : bool;
  chainID : string;
  defaultTenant : string;
  dataStore : bool;
}.

#[global] Instance Detector_eq : EqDecision Detector.
Proof. solve_decision. Defined.

Record moDecodedMsg := MkMsg { msgID : string; msgIMEI : string; msgText : string; msgSOS : option bool }.

#[global] Instance moDecodedMsg_eq : EqDecision moDecodedMsg.
Proof. solve_decision. Defined.

Definition sosKeywords : list string := ["SOS"; "MAYDAY"; "EMERGENCY"].

(** [strings.Contains] *)
Fixpoint contains (l kw : list Z) : bool :=
  bool_decide (take (length kw) l = kw) || match l with [] => false | _ :: l => contains l kw end.

(** The keyword and the source; [None] for no SOS. *)
Definition detectSOS (msg : moDecodedMsg) : option (string * string) :=
  match msgSOS msg with
  | Some true => Some ("", "field")
  | _ =>
      let upper := Text.ToUpper (bytes_of_string (msgText msg)) in
      match List.filter (λ kw, contains upper (bytes_of_string kw)) sosKeywords with
      | kw :: _ => Some (kw, "keyword")
      | [] => None
      end
  end.

(** *** The claim of an SOS, whatever bearer carried it *)

Definition dash : Z := 45.
Definition bearer_char (b : Z) : bool :=
  ((97 <=? b) && (b <=? 122)) || ((48 <=? b) && (b <=? 57)) || (b =? 95).
Definition digit (b : Z) : bool := (48 <=? b) && (b <=? 57).

(** The text before the first, and the text after the last, byte that fails [p]. *)
Fixpoint span (p : Z → bool) (l : list Z) : list Z * list Z :=
  match l with
  | [] => ([], [])
  | x :: l' => if p x then let '(a, b) := span p l' in (x :: a, b) else ([], l)
  end.

Definition span_end (p : Z → bool) (l : list Z) : list Z * list Z :=
  let '(a, b) := span p (reverse l) in (reverse b, reverse a).

Definition strip_suffix (suffix l : list Z) : option (list Z) :=
  let n := (length l - length suffix)%nat in
  if bool_decide (drop n l = suffix) then Some (take n l) else None.

(** [-([0-9]+)$] behind a non-empty [(.+)] without a newline. *)
Definition bridge_and_start (l : list Z) : option (list Z * list Z) :=
  let '(a, m2) := span_end digit l in
  match reverse a with
  | c :: m1 =>
      if (c =? dash) && negb (bool_decide (m2 = [])) && negb (bool_decide (m1 = [])) && forallb (λ b, negb (b =? 10)) m1
      then Some (reverse m1, m2) else None
  | [] => None
  end.

(** The submatches of [^sos-[a-z0-9_]+-(.+)-([0-9]+)(-cancelled)?$]: a bearer has no dash and
    neither have digits, so they are determined. *)
Definition bridgeSOSID (id : list Z) : option (list Z * list Z * list Z) :=
  if bool_decide (take 4 id = str "sos-") then
    let '(bearer, rest) := span bearer_char (drop 4 id) in
    match rest with
    | c :: rest =>
        if (c =? dash) && negb (bool_decide (bearer = [])) then
          match strip_suffix (str "-cancelled") rest with
          | Some l => '(m1, m2) ← bridge_and_start l; Some (m1, m2, str "-cancelled")
          | None => '(m1, m2) ← bridge_and_start rest; Some (m1, m2, [])
          end
        else None
    | [] => None
    end
  else None.

Definition claim_key (id : list Z) : list Z :=
  match bridgeSOSID id with
  | Some (m1, m2, m3) => str "sos-" ++ m1 ++ [dash] ++ m2 ++ m3
  | None => id
  end.

Definition sosClaimKey (id : string) : string := string_of_bytes (claim_key (bytes_of_string id)).

Definition resolveChainID (d : Detector) (tenantID : string) : prog string :=
  if negb (String.eqb (chainID d) "") && String.eqb tenantID (defaultTenant d) then mret (chainID d)
  else if negb (dataStore d) then mret ""
  else
    r ← perform (CListEscalationChains tenantID);
    match r with
    | Ok (c :: _) => mret (cID c)
    | _ => mret ""
    end.

(** [alert] as the SOS packages make it; the engine writes what is zero here. *)
Definition new_alert (id chain imei detail : string) : Alert :=
  MkAlert id "" chain imei "sos" detail AlertStateTriggered 0 0 "" 0 0 0 0.

(** From the decoded message on: [device] is the topic's id, [tenantID] the tenant the
    resolver answers for the device, [fallback] the digest id of the message. *)
Definition handleMODecoded (d : Detector) (decoded : option moDecodedMsg) (device tenantID fallback : string) : prog unit :=
  match decoded with
  | None => mret tt
  | Some msg =>
      let imei := if String.eqb (msgIMEI msg) "" then device else msgIMEI msg in
      if String.eqb imei "" then mret tt
      else
        match detectSOS msg with
        | None => mret tt
        | Some (keyword, source) =>
            let id := if String.eqb (msgID msg) "" then fallback else msgID msg in
            won ← (if dataStore d then
                     perform (CClaimOnce ("sos:" +:+ tenantID +:+ ":" +:+ sosClaimKey id))
                   else mret (Ok true));
            match won with
            | Ok true =>
                _ ← perform (CPublish (MkMessage tenantID imei "sos" (PSOSEvent imei (msgText msg) keyword source)));
                if negb (dEngine d) then mret tt
                else
                  chain ← resolveChainID d tenantID;
                  if String.eqb chain "" then mret tt
                  else _ ← Trigger tenantID (new_alert "" chain imei (msgText msg)); mret tt
            | _ => mret tt
            end
        end
  end.

(** ** Runs *)

(** [NewRuns]; [chainOf] is a detector's [ChainFor], as the Hub wires it. *)
Record Runs := MkRuns { engine : bool; chainOf : option Detector; audit : bool }.

#[global] Instance Runs_eq : EqDecision Runs.
Proof. solve_decision. Defined.

Definition ErrBadSOSID : error := ErrNew "sos: sos_id does not name this run".

Record Event := MkEvent {
  vTenantID : string;
  vBridgeID : string;
  vBearer : string;
  vKind : string;
  vSOSID : string;
  vRunStartMs : Z;
  vDeviceID : string;
  vText : string;
  vLat : float64;
  vLon : float64;
  vHasPosition : bool;
  vReason : Z;
  vBy : string;
}.

#[global] Instance Event_eq : EqDecision Event.
Proof. solve_decision. Defined.

Definition Origin (bridgeID : string) : string := "bridge:" +:+ bridgeID.

(** What [AlertID] hashes. *)
Definition alert_preimage (tenantID origin sosID : string) : list Z :=
  bytes_of_string tenantID ++ [0] ++ bytes_of_string origin ++ [0] ++ bytes_of_string sosID.

Definition AlertID (tenantID origin sosID : string) : string :=
  "sos-" +:+ string_of_bytes (Hubmsg.hex_encode (take 20 (Sha.sha256 (alert_preimage tenantID origin sosID)))).

(** The alert id of a run. *)
Definition alert_of {T} (run : SOSRunOf T) : string := AlertID (rTenantID run) (rOrigin run) (SOSID run).

Definition chain (r : Runs) (tenantID : string) : prog string :=
  match chainOf r with None => mret "" | Some d => resolveChainID d tenantID end.

Definition subject_of (deviceID bridgeID : string) : string :=
  if String.eqb deviceID "" || String.eqb deviceID "bridge" then bridgeID else deviceID.

Definition alertFor (run : SOSRun) (chain : string) : Alert :=
  new_alert (alert_of run) chain (subject_of (DeviceID run) (BridgeID run))
    (if String.eqb (rText run) "" then "SOS from bridge " +:+ BridgeID run +:+ " via " +:+ Bearers run else rText run).

Definition closeAlert (r : Runs) (run : SOSRun) : prog (result error unit) :=
  if negb (engine r) then mret (Ok tt)
  else
    let by_ := if String.eqb (CancelledBy run) "" then rOrigin run else CancelledBy run in
    c ← chain r (rTenantID run);
    x ← Close (rTenantID run) (alertFor run c) by_;
    match x with Err e => mret (Err (Wrap "close alert: " e)) | Ok _ => mret (Ok tt) end.

Definition raise (r : Runs) (run : SOSRun) : prog (result error unit) :=
  if negb (engine r) then mret (Ok tt)
  else
    c ← chain r (rTenantID run);
    if String.eqb c "" then mret (Ok tt)
    else
      let alert := alertFor run c in
      x ← TriggerOnce (rTenantID run) alert;
      match x with
      | Err e => mret (Err (Wrap "raise alert: " e))
      | Ok _ =>
          y ← perform (CSetSOSRunAlert (rTenantID run) (rOrigin run) (SOSID run) (ID alert));
          match y with
          | Err e => mret (Err (Wrap "record alert: " e))
          | Ok _ =>
              z ← perform (CGetSOSRun (rTenantID run) (rOrigin run) (SOSID run));
              match z with
              | Err e => mret (Err (Wrap "re-read run: " e))
              | Ok now => if bool_decide (rState now = SOSRunCancelled) then closeAlert r now else mret (Ok tt)
              end
          end
      end.

Definition syncAlert (r : Runs) (run : SOSRun) : prog (result error unit) :=
  if bool_decide (rState run = SOSRunCancelled) then closeAlert r run else raise r run.

Definition settle (r : Runs) (run : SOSRun) : prog bool :=
  x ← syncAlert r run;
  match x with
  | Err _ => mret false
  | Ok _ =>
      y ← perform (CClearSOSRunAlertPending (rTenantID run) (rOrigin run) (SOSID run) (Rev run));
      mret (match y with Ok ok => ok | Err _ => false end)
  end.

Definition tell (run : SOSRun) : prog unit :=
  let subject := subject_of (DeviceID run) (BridgeID run) in
  let '(lat, lon) := if HasPosition run then (Lat run, Lon run) else (zero, zero) in
  _ ← perform (CPublish (MkMessage (rTenantID run) subject "sos"
        (PRunEvent subject (rText run) "bridge_sos_v2" (SOSID run) (rState run) (BridgeID run) (Bearers run) lat lon)));
  mret tt.

Definition ack (run : SOSRun) (kind : string) : prog unit :=
  _ ← perform (CPublish (MkMessage (rTenantID run) (BridgeID run) "sos/ack" (PAck 2 (SOSID run) kind (rState run) (Rev run))));
  mret tt.

Definition state_text (s : SOSRunState) : string :=
  match s with SOSRunActive => "active" | SOSRunCancelled => "cancelled" end.

Definition log (r : Runs) (run : SOSRun) (ev : Event) (by_ : string) : prog unit :=
  if negb (audit r) then mret tt
  else
    let action := if String.eqb (vKind ev) SOSEventCancel then "sos_run_cancel" else "sos_run_start" in
    let detail := "sos_id=" +:+ SOSID run +:+ " origin=" +:+ rOrigin run +:+ " bearer=" +:+ vBearer ev
                  +:+ " state=" +:+ state_text (rState run) +:+ " rev=" +:+ pretty (Rev run) in
    _ ← perform (CAuditLog (MkAudit (rTenantID run) action by_ detail)); mret tt.

(** The event [apply] stores. *)
Definition stored_event (ev : Event) (origin by_ : string) (now : Z) : SOSRunEvent :=
  MkRunEvent (vTenantID ev) origin (vSOSID ev) (vBridgeID ev) (vRunStartMs ev) (vKind ev) (vBearer ev)
    (vDeviceID ev) (vText ev) (vLat ev) (vLon ev) (vHasPosition ev) by_ (vReason ev) now.

Definition apply (r : Runs) (ev : Event) (origin : string) : prog (result error SOSRunApplied) :=
  let by_ := if String.eqb (vBy ev) "" then origin else vBy ev in
  a ← RetryShort (now ← perform CNow; perform (CApplySOSRunEvent (stored_event ev origin by_ now)));
  match a with
  | Err e => mret (Err (Wrap ("sos: apply " +:+ vKind ev +:+ ": ") e))
  | Ok applied =>
      let run := aRun applied in
      (if AlertPending run then _ ← settle r run; mret tt else mret tt);;
      (if (Created applied && bool_decide (rState run = SOSRunActive)) || Ended applied then tell run else mret tt);;
      (if String.eqb (vBy ev) "" then ack run (vKind ev) else mret tt);;
      log r run ev by_;;
      mret (Ok applied)
  end.

Definition Apply (r : Runs) (ev : Event) : prog (result error SOSRunApplied) :=
  if negb (String.eqb (vKind ev) SOSEventStart) && negb (String.eqb (vKind ev) SOSEventCancel)
  then mret (Err (ErrNew ("sos: unknown event kind " +:+ vKind ev)))
  else if String.eqb (vTenantID ev) "" || String.eqb (vBridgeID ev) ""
          || negb (Hubmsg.SOSIDValid Sha.sha1 (bytes_of_string (vSOSID ev)) (bytes_of_string (vBridgeID ev)) (vRunStartMs ev))
  then mret (Err ErrBadSOSID)
  else apply r ev (Origin (vBridgeID ev)).

(** The runs cancelled so far, and the error that stopped it. *)
Fixpoint cancel_all (r : Runs) (tenantID userID : string) (runs out : list SOSRun) : prog (list SOSRun * option error) :=
  match runs with
  | [] => mret (out, None)
  | run :: runs =>
      a ← apply r (MkEvent tenantID (BridgeID run) "hub" SOSEventCancel (SOSID run) (RunStartMs run) "" "" zero zero
                     false 0 ("user:" +:+ userID)) (rOrigin run);
      match a with
      | Err e => mret (out, Some e)
      | Ok applied => cancel_all r tenantID userID runs (out ++ [aRun applied])
      end
  end.

Definition Cancel (r : Runs) (tenantID sosID userID : string) : prog (list SOSRun * option error) :=
  x ← perform (CFindSOSRuns tenantID sosID);
  match x with
  | Err e => mret ([] : list SOSRun, Some e)
  | Ok [] => mret ([] : list SOSRun, Some ErrNotFound)
  | Ok runs => cancel_all r tenantID userID runs []
  end.

Fixpoint settle_all (r : Runs) (runs : list SOSRun) (n : Z) : prog Z :=
  match runs with
  | [] => mret n
  | run :: runs => ok ← settle r run; settle_all r runs (if (ok : bool) then n + 1 else n)
  end.

Definition Reconcile (r : Runs) : prog (result error Z) :=
  x ← perform (CListSOSRunsAlertPending 100);
  match x with
  | Err e => mret (Err (Wrap "sos: list owed alert work: " e))
  | Ok runs => n ← settle_all r runs 0; mret (Ok n)
  end.

Definition PageUnstored (r : Runs) (ev : Event) : prog bool :=
  if negb (engine r) then mret false
  else
    c ← chain r (vTenantID ev);
    if String.eqb c "" then mret true
    else
      now ← perform CNow;
      let run := NewSOSRun (MkRunEvent (vTenantID ev) (Origin (vBridgeID ev)) (vSOSID ev) (vBridgeID ev) (vRunStartMs ev)
                   SOSEventStart (vBearer ev) (vDeviceID ev) (vText ev) (vLat ev) (vLon ev) (vHasPosition ev) "" 0 now) in
      x ← TriggerOnce (vTenantID ev) (alertFor run c);
      mret (is_ok x).

(** *** Events over MQTT *)

Record MQTTEvent := MkMQTT {
  V : Z;
  Kind : string;
  mqSOSID : string;
  mqRunStartMs : option Z;
  mqDeviceID : string;
  mqText : string;
  mqLat : option float64;
  mqLon : option float64;
  mqReason : Z;
  Timestamp : Z;
}.

#[global] Instance MQTTEvent_eq : EqDecision MQTTEvent.
Proof. solve_decision. Defined.

Fixpoint is_bad_id (e : error) : bool :=
  match e with ErrNew s => String.eqb s "sos: sos_id does not name this run" | Wrap _ e => is_bad_id e | _ => false end.

(** [t.Unix()] *)
Definition unix (t : Z) : Z := unix_nano t / second.

Definition position (m : MQTTEvent) : option (float64 * float64) :=
  match mqLat m, mqLon m with Some lat, Some lon => Some (lat, lon) | _, _ => None end.

(** A start that is not taken as its run pages the old way. *)
Definition old_way (tenantID bridgeID : string) (m : MQTTEvent) : prog unit :=
  if negb (String.eqb (Kind m) SOSEventStart) then mret tt
  else
    now ← perform CNow;
    let ts := if 0 <? Timestamp m then Timestamp m else unix now in
    let subject := subject_of (mqDeviceID m) bridgeID in
    let text := if String.eqb (mqText m) "" then "SOS from bridge " +:+ bridgeID +:+ " via mqtt" else mqText m in
    _ ← perform (CPublish (MkMessage tenantID subject "mo/decoded"
          (PLegacy ("sos-mqtt-" +:+ bridgeID +:+ "-" +:+ pretty ts) subject bridgeID text ts (position m))));
    mret tt.

(** From the parsed topic and the decoded payload on: [err] says that decoding failed, [m] is
    what it had filled in. *)
Definition handleMQTT (r : Runs) (tenantID bridgeID : string) (err : bool) (m : MQTTEvent) : prog unit :=
  match mqRunStartMs m with
  | Some start =>
      if err || negb (V m =? 2)
         || (negb (String.eqb (Kind m) SOSEventStart) && negb (String.eqb (Kind m) SOSEventCancel))
      then old_way tenantID bridgeID m
      else
        let '(lat, lon, has) := match position m with Some (lat, lon) => (lat, lon, true) | None => (zero, zero, false) end in
        a ← Apply r (MkEvent tenantID bridgeID "mqtt" (Kind m) (mqSOSID m) start (mqDeviceID m) (mqText m) lat lon has
                       (mqReason m) "");
        match a with
        | Ok _ => mret tt
        | Err e => if is_bad_id e then old_way tenantID bridgeID m else mret tt
        end
  | None => old_way tenantID bridgeID m
  end.

(** ** Operations *)

Inductive op :=
| OApply (r : Runs) (ev : Event)
| OCancelRun (r : Runs) (tenantID sosID userID : string)
| OReconcile (r : Runs)
| OPageUnstored (r : Runs) (ev : Event)
| OMQTT (r : Runs) (tenantID bridgeID : string) (err : bool) (m : MQTTEvent)
| ODetect (d : Detector) (decoded : option moDecodedMsg) (device tenantID fallback : string).

#[global] Instance op_eq : EqDecision op.
Proof. solve_decision. Defined.

Definition op_prog (o : op) : prog unit :=
  match o with
  | OApply r ev => _ ← Apply r ev; mret tt
  | OCancelRun r t s u => _ ← Cancel r t s u; mret tt
  | OReconcile r => _ ← Reconcile r; mret tt
  | OPageUnstored r ev => _ ← PageUnstored r ev; mret tt
  | OMQTT r t b err m => handleMQTT r t b err m
  | ODetect d msg dev t fb => handleMODecoded d msg dev t fb
  end.

End Sos.
