(* ===== verification/AlertSystem.v ===== *)
(** Many replicas at once: any number of operations of the escalation engine
    ([internal/escalation/escalation.go]) and of the dead man's switch
    ([internal/deadman/deadman.go]) run against one store.  A step of the system is one call
    of one operation, which may fail before or after taking effect; an operation that never
    moves again has crashed.  The administrator may replace chains and preferences and the
    devices may be touched at any moment.

    Invariants are proved with a [protocol]: a ghost state per running operation, a condition
    on each call it makes and a rule for how its ghost state follows the answer. *)
From S2P Require Import Prelude AlertStore Escalation Deadman Sos.

Module AlertSystem.
Import AlertStore Escalation.

Inductive op :=
| OTrigger (tenantID : string) (alert : Alert)
| OTriggerOnce (tenantID : string) (alert : Alert)
| OAcknowledge (tenantID alertID ackedBy : string)
| OCancel (tenantID alertID by_ : string)
| OClose (tenantID : string) (alert : Alert) (by_ : string)
| OProcess
| OMonitor (o : Deadman.op)
| OSOS (o : Sos.op).

#[export] Instance op_eq : EqDecision op.
Proof. solve_decision. Defined.

Notation answer := (result error bool).

Definition op_prog (o : op) : prog answer :=
  match o with
  | OTrigger t a => r ← Trigger t a; mret (match r with Ok _ => Ok true | Err e => Err e end)
  | OTriggerOnce t a => TriggerOnce t a
  | OAcknowledge t id by_ => r ← Acknowledge t id by_; mret (match r with Ok _ => Ok true | Err e => Err e end)
  | OCancel t id by_ => Cancel t id by_
  | OClose t a by_ => Close t a by_
  | OProcess => _ ← processAlerts; mret (Ok true)
  | OMonitor o => _ ← Deadman.op_prog o; mret (Ok true)
  | OSOS o => _ ← Sos.op_prog o; mret (Ok true)
  end.

(** The store and the operations started so far, each with what is left of it. *)
Record sys := MkSys { state : world; threads : list (op * prog answer) }.

(** The next call of operation [i]. *)
Definition fire (i : nat) (f : fault) (now : Z) (s : sys) : option sys :=
  match threads s !! i with
  | Some (o, Do c k) =>
      let '(w, x) := handle f now c (state s) in
      Some (MkSys w (<[i := (o, k x)]> (threads s)))
  | _ => None
  end.

Definition configure (cs : list EscalationChain) (ps : list NotificationPref) (ds : list device_row) (w : world) : world :=
  MkWorld (alerts w) cs ps ds (deadman_configs w) (sent w) (sos_runs w) (claims w) (published w) (audited w).

(** Steps of the system; [good] restricts the chains an administrator may store.  There is
    no call that changes a stored chain. *)
Inductive step (good : EscalationChain → Prop) : sys → sys → Prop :=
| step_start o s : step good s (MkSys (state s) (threads s ++ [(o, op_prog o)]))
| step_call i f now s s' : fire i f now s = Some s' → step good s s'
| step_chain c cs s : good c → CreateEscalationChain c (chains (state s)) = Some cs →
    step good s (MkSys (configure cs (prefs (state s)) (devices (state s)) (state s)) (threads s))
| step_unchain t id s :
    step good s (MkSys (configure (DeleteEscalationChain t id (chains (state s))) (prefs (state s))
                          (devices (state s)) (state s)) (threads s))
| step_config ps ds s :
    step good s (MkSys (configure (chains (state s)) ps ds (state s)) (threads s)).

(** ** Protocols *)

Record protocol (G : Type) := MkProtocol {
  pre : G → ∀ X, call X → Prop;
  resp : ∀ X, call X → X → Prop;
  next : G → ∀ X, call X → X → G;
}.
Arguments pre {G}. Arguments resp {G}. Arguments next {G}.

Section Protocol.
Context {G : Type} (P : protocol G).

(** The weakest precondition of a program: every call meets its condition, whatever the
    answers, and the result meets [Q]. *)
Fixpoint obeys {R} (g : G) (p : prog R) (Q : G → R → Prop) : Prop :=
  match p with
  | Ret r => Q g r
  | Do c k => pre P g _ c ∧ ∀ x, resp P _ c x → obeys (next P g _ c x) (k x) Q
  end.

Lemma obeys_mono {R} (p : prog R) : ∀ g (Q Q' : G → R → Prop),
  (∀ g r, Q g r → Q' g r) → obeys g p Q → obeys g p Q'.
Proof. induction p as [|X c k IH]; cbn; intros g Q Q' HQ; [auto|]. intros [Hc Hk]. eauto. Qed.

Lemma obeys_bind {A B} (p : prog A) (f : A → prog B) : ∀ g Q,
  obeys g p (λ g a, obeys g (f a) Q) → obeys g (x ← p; f x) Q.
Proof.
  induction p as [|X c k IH]; cbn; intros g Q; [auto|]. intros [Hc Hk]. split; [done|].
  intros x Hx. apply IH. auto.
Qed.

Lemma obeys_for_each {A} (I : G → Prop) (body : A → prog unit) l : ∀ g,
  I g → (∀ g a, I g → obeys g (body a) (λ g' _, I g')) → obeys g (for_each body l) (λ g' _, I g').
Proof.
  induction l as [|a l IH]; intros g Hg Hb; [done|]. cbn [for_each].
  apply obeys_bind. eapply obeys_mono; [|by apply Hb]. intros g' r Hg'. by apply IH.
Qed.

Context (good : EscalationChain → Prop) (post : op → G → answer → Prop) (g0 : G).
Context (J : list G → world → Prop) (allowed : op → Prop).
Hypothesis starts : ∀ o, allowed o → obeys g0 (op_prog o) (post o).
Hypothesis J_start : ∀ gs w, J gs w → J (gs ++ [g0]) w.
Hypothesis J_call : ∀ gs i g X (c : call X) f now w w' x,
  gs !! i = Some g → pre P g X c → J gs w → handle f now c w = (w', x) →
  resp P X c x ∧ J (<[i := next P g X c x]> gs) w'.
Hypothesis J_config : ∀ gs w cs ps ds,
  (∀ c, c ∈ cs → c ∈ chains w ∨ good c) → J gs w → J gs (configure cs ps ds w).

(** Every operation is at a point of the protocol, and the ghost states fit the store. *)
Definition follows (s : sys) : Prop :=
  ∃ gs, Forall2 (λ g t, obeys g (snd t) (post (fst t))) gs (threads s) ∧ J gs (state s).

(** Every operation started so far is allowed. *)
Definition all_allowed (s : sys) : Prop := Forall (λ t, allowed (fst t)) (threads s).

Lemma step_allowed s s' : step good s s' → all_allowed s' → all_allowed s.
Proof.
  unfold all_allowed. destruct 1 as [o s|i f now s s' Hfire| | | ]; try done.
  - by intros [? _]%Forall_app.
  - unfold fire in Hfire. destruct (threads s !! i) as [[o [r|X c k]]|] eqn:Ht; try done.
    destruct (handle f now c (state s)) as [w x]. injection Hfire as <-. cbn. intros H.
    apply Forall_lookup. intros j [o' p] Hj. destruct (decide (j = i)) as [->|Hne].
    + rewrite Ht in Hj. injection Hj as <- <-. eapply (Forall_lookup_1 _ _ i (o, k x) H).
      apply list_lookup_insert_eq. by eapply lookup_lt_Some.
    + eapply (Forall_lookup_1 _ _ j (o', p) H). by rewrite list_lookup_insert_ne.
Qed.

Lemma follows_step s s' : step good s s' → all_allowed s' → follows s → follows s'.
Proof.
  intros Hst Hall (gs & Hf & HJ). destruct Hst as [o s|i f now s s' Hfire|c cs s Hc Hcs|t id s|ps ds s].
  - exists (gs ++ [g0]). split; [|by apply J_start]. apply Forall2_app; [done|].
    constructor; [|constructor]. apply starts. by apply Forall_app in Hall as [_ [? _]%Forall_cons].
  - unfold fire in Hfire. destruct (threads s !! i) as [[o [r|X c k]]|] eqn:Ht; [done| |done].
    destruct (handle f now c (state s)) as [w x] eqn:Hh. injection Hfire as <-.
    destruct (Forall2_lookup_r _ _ _ _ _ Hf Ht) as (g & Hg & [Hpre Hk]).
    destruct (J_call gs i g X c f now (state s) w x Hg Hpre HJ Hh) as [Hr HJ'].
    exists (<[i := next P g X c x]> gs). split; [|done]. cbn.
    apply Forall2_insert; [done|]. by apply Hk.
  - exists gs. split; [done|]. apply J_config; [|done]. intros c' Hin.
    unfold CreateEscalationChain in Hcs. case_match; [done|]. injection Hcs as <-.
    apply elem_of_app in Hin as [Hin| ->%list_elem_of_singleton]; auto.
  - exists gs. split; [done|]. apply J_config; [|done]. intros c' Hin. left.
    apply list_elem_of_In, List.filter_In in Hin as [Hin _]. by apply list_elem_of_In.
  - exists gs. split; [done|]. apply J_config; [auto|done].
Qed.

Lemma follows_steps_allowed s s' : rtc (step good) s s' → all_allowed s' → follows s → follows s'.
Proof.
  intros H Hall. assert (Ha : ∀ s s', rtc (step good) s s' → all_allowed s' → all_allowed s).
  { induction 1; eauto using step_allowed. }
  induction H as [|s1 s2 s3 Hst Hrest IH]; [done|]. intros Hf. apply IH; [done|].
  eapply follows_step; eauto.
Qed.

End Protocol.

Lemma follows_steps {G} (P : protocol G) good post g0 (J : list G → world → Prop) :
  (∀ o, obeys P g0 (op_prog o) (post o)) → (∀ gs w, J gs w → J (gs ++ [g0]) w) →
  (∀ gs i g X (c : call X) f now w w' x,
     gs !! i = Some g → pre P g X c → J gs w → handle f now c w = (w', x) →
     resp P X c x ∧ J (<[i := next P g X c x]> gs) w') →
  (∀ gs w cs ps ds, (∀ c, c ∈ cs → c ∈ chains w ∨ good c) → J gs w → J gs (configure cs ps ds w)) →
  ∀ s s', rtc (step good) s s' → follows P post J s → follows P post J s'.
Proof.
  intros Ho Hs Hc Hg s s' Hst. apply (follows_steps_allowed P good post g0 J (λ _, True)); auto.
  apply Forall_true. done.
Qed.

(** Walks through a program's calls; leaves the conditions it cannot discharge. *)
Ltac obey :=
  repeat (cbn; first
    [ exact I
    | done
    | match goal with
      | |- _ ∧ _ => split
      | |- ∀ _, _ => intros
      | |- obeys _ _ (mbind _ _) _ => apply obeys_bind
      | |- context [match ?x with _ => _ end] => destruct x eqn:?
      end ]).

(** ** A closed alert stays closed *)

(** Acknowledged or cancelled. *)
Definition settled (st : AlertState) : bool :=
  match st with AlertStateAcknowledged | AlertStateCancelled => true | _ => false end.

Definition settled_in (id : string) (w : world) : Prop :=
  ∃ r, row_of id (alerts w) = Some r ∧ settled (State r) = true.

Definition about (id : string) (n : Notification) : bool := String.eqb (aAlertID (nData n)) id.

(** The calls of every operation but the engine's round: no compare-and-set and no page,
    and an update only closes. *)
Definition quiet : ∀ X, call X → Prop := λ X c,
  match c with
  | CUpdateAlert _ a => settled (State a) = true
  | CAdvanceAlert _ _ _ | CNotify _ => False
  | _ => True
  end.

(** Quiet calls that do not touch the SOS runs, the claims or the bus. *)
Definition own : ∀ X, call X → Prop := λ X c,
  match c with
  | CApplySOSRunEvent _ | CSetSOSRunAlert _ _ _ _ | CClearSOSRunAlertPending _ _ _ _ | CClaimOnce _ | CPublish _ => False
  | c => quiet _ c
  end.

Lemma always_mono {R} (P Q : ∀ X, call X → Prop) (p : prog R) :
  (∀ X c, P X c → Q X c) → always P p → always Q p.
Proof. intros H. induction p as [|X c k IH]; cbn; [done|]. intros [Hc Hk]. auto. Qed.

Lemma own_quiet {R} (p : prog R) : always own p → always quiet p.
Proof. apply always_mono. by intros X []. Qed.

Lemma Trigger_own t a : always own (Trigger t a).
Proof. unfold Trigger. walk. Qed.

Lemma TriggerOnce_own t a : always own (TriggerOnce t a).
Proof. unfold TriggerOnce, Trigger. walk. Qed.

Lemma Close_own t a b : always own (Close t a b).
Proof.
  unfold Close. case_match; [done|]. generalize closeRounds as n.
  induction n as [|n IH]; [done|]. unfold close_loop, cancelAlert; fold close_loop. walk.
Qed.

Lemma Trigger_quiet t a : always quiet (Trigger t a).
Proof. apply own_quiet, Trigger_own. Qed.

Lemma TriggerOnce_quiet t a : always quiet (TriggerOnce t a).
Proof. apply own_quiet, TriggerOnce_own. Qed.

Lemma Close_quiet t a b : always quiet (Close t a b).
Proof. apply own_quiet, Close_own. Qed.

#[local] Hint Resolve Trigger_quiet TriggerOnce_quiet Close_quiet : walks.

Lemma resolve_quiet d t : always quiet (Sos.resolveChainID d t).
Proof. unfold Sos.resolveChainID. walk. Qed.
#[local] Hint Resolve resolve_quiet : walks.

Lemma chain_quiet r t : always quiet (Sos.chain r t).
Proof. unfold Sos.chain. walk. Qed.
#[local] Hint Resolve chain_quiet : walks.

Lemma settle_quiet r run : always quiet (Sos.settle r run).
Proof. unfold Sos.settle, Sos.syncAlert, Sos.raise, Sos.closeAlert. walk. Qed.
#[local] Hint Resolve settle_quiet : walks.

Lemma retry_quiet {X} n (fn : prog (result error X)) err : always quiet fn → always quiet (Sos.retry_loop n fn err).
Proof. intros Hf. revert err. induction n as [|n IH]; intros err; [done|]. cbn [Sos.retry_loop]. walk. Qed.

Lemma apply_quiet r ev o : always quiet (Sos.apply r ev o).
Proof.
  unfold Sos.apply, Sos.RetryShort. apply always_bind; [by apply retry_quiet|]. intros [ap|e]; [|done].
  unfold Sos.tell, Sos.ack, Sos.log. walk.
Qed.
#[local] Hint Resolve apply_quiet : walks.

Lemma Apply_quiet r ev : always quiet (Sos.Apply r ev).
Proof. unfold Sos.Apply. repeat case_if; walk. Qed.
#[local] Hint Resolve Apply_quiet : walks.

Lemma sos_quiet o : always quiet (Sos.op_prog o).
Proof.
  destruct o; cbn [Sos.op_prog].
  - walk.
  - apply always_bind; [|done]. unfold Sos.Cancel. cbn. split; [done|]. intros [runs|]; [|done].
    destruct runs as [|run runs]; [done|]. generalize (run :: runs), (@nil SOSRun). clear.
    induction l as [|run l IH]; intros out; [done|]. cbn [Sos.cancel_all]. walk.
  - apply always_bind; [|done]. unfold Sos.Reconcile. cbn. split; [done|]. intros [runs|]; [|done].
    apply always_bind; [|done]. generalize 0. induction runs as [|run runs IH]; intros n; [done|]. cbn [Sos.settle_all]. walk.
  - unfold Sos.PageUnstored. walk.
  - unfold Sos.handleMQTT, Sos.old_way. walk.
  - unfold Sos.handleMODecoded. walk.
Qed.

Definition is_sos (o : op) : bool := match o with OSOS _ => true | _ => false end.

Lemma ops_own o : o ≠ OProcess → is_sos o = false → always own (op_prog o).
Proof.
  intros Ho Hs. destruct o as [t a|t a|t i b|t i b|t a b| |o|o]; cbn [op_prog]; try done.
  - apply always_bind; [apply Trigger_own|done].
  - apply TriggerOnce_own.
  - unfold Acknowledge. walk.
  - unfold Cancel, cancelAlert. walk.
  - apply Close_own.
  - apply always_bind; [|done]. destruct o; cbn [Deadman.op_prog].
    7: unfold Deadman.scan, Deadman.checkDevice, Trigger; walk.
    all: unfold Deadman.Configure, Deadman.Remove, Deadman.Snooze, Deadman.ClearSnooze,
           Deadman.ClearAlert, Deadman.CheckIn, Deadman.update; walk.
Qed.

Lemma ops_quiet o : o ≠ OProcess → always quiet (op_prog o).
Proof.
  intros Ho. destruct (is_sos o) eqn:Hs; [|by apply own_quiet, ops_own].
  destruct o; try done. apply always_bind; [apply sos_quiet|done].
Qed.

Lemma obeys_always {G R} (P : protocol G) (K : G → Prop) (p : prog R) : ∀ g,
  K g → (∀ g X c, K g → quiet X c → pre P g X c ∧ ∀ x, K (next P g X c x)) →
  always quiet p → obeys P g p (λ g' _, K g').
Proof.
  induction p as [|X c k IH]; cbn; intros g Hg Hq; [done|]. intros [Hc Hk].
  destruct (Hq g X c Hg Hc) as [Hpre Hn]. split; [done|]. intros x _. by apply IH.
Qed.

(** Obligations of a protocol for all operations at once: a step of the engine on an alert
    that is due, and the quiet calls. *)
Lemma ops_obey {G} (P : protocol G) (K : G → Prop) g o :
  (∀ a now g, NextEscAt a <= now → K g → obeys P g (processAlert a now) (λ g' _, K g')) →
  (∀ g X c, K g → quiet X c → pre P g X c ∧ ∀ x, K (next P g X c x)) →
  K g → obeys P g (op_prog o) (λ g' _, K g').
Proof.
  intros Hstep Hq Hg. destruct (decide (o = OProcess)) as [->|Ho].
  2: { apply obeys_always; [done|done|by apply ops_quiet]. }
  cbn [op_prog]. apply obeys_bind. unfold processAlerts. cbn -[for_each].
  destruct (Hq g _ (CListAlerts "" true 100) Hg I) as [H1 H2]. split; [done|].
  intros [l|] _; [|apply H2]. cbn -[for_each].
  destruct (Hq _ _ CNow (H2 (Ok l)) I) as [H3 H4]. split; [done|]. intros now _.
  apply (obeys_for_each _ K); [done|]. intros g' a Hg'. case_if; [done|]. zbool. by apply Hstep.
Qed.

(** How often alert [id] has been notified. *)
Definition notified (id : string) (w : world) : nat := length (List.filter (about id) (sent w)).

(** An operation is armed for [id] between winning a compare-and-set on it and notifying. *)
Definition closing (id : string) : protocol bool := {|
  pre armed X c :=
    match c with
    | CNotify n => about id n = true → armed = true
    | CUpdateAlert _ a => settled (State a) = true
    | _ => True
    end;
  resp X c x := True;
  next armed X c :=
    match c with
    | CAdvanceAlert _ a _ => λ x,
        if String.eqb (ID a) id then match x with Ok b => b | Err _ => false end else armed
    | CNotify n => λ _, if about id n then false else armed
    | _ => λ _, armed
    end |}.

Lemma closing_ops id o : obeys (closing id) false (op_prog o) (λ _ _, True).
Proof.
  apply (ops_obey (closing id) (λ _, True)); [|by intros g X []|done].
  intros a now g _ _. unfold processAlert, exhaust, lease_step, targets_of, about. obey.
  all: congruence.
Qed.

Definition armed_count (gs : list bool) : nat := length (List.filter (λ b : bool, b) gs).

Lemma armed_insert (gs : list bool) (i : nat) (g g' : bool) : gs !! i = Some g →
  (armed_count (<[i := g']> gs) + (if g then 1 else 0) = armed_count gs + (if g' then 1 else 0))%nat.
Proof.
  unfold armed_count. revert i. induction gs as [|b gs IH]; intros [|i] H; try done; cbn in *.
  - injection H as ->. destruct g, g'; cbn; lia.
  - specialize (IH i H). destruct b; [exact (f_equal S IH)|exact IH].
Qed.

Lemma armed_bound gs : (armed_count gs <= length gs)%nat.
Proof. apply List.filter_length_le. Qed.

Lemma notified_app id w n : (length (List.filter (about id) (sent w ++ [n])) = notified id w + (if about id n then 1 else 0))%nat.
Proof. unfold notified. rewrite List.filter_app, length_app. cbn. case_match; cbn; lia. Qed.

(** The row of [id] stays settled, and each page of it uses up an armed operation. *)
Definition shut (id : string) (limit : nat) (gs : list bool) (w : world) : Prop :=
  unique_ids (alerts w) ∧ settled_in id w ∧ (notified id w + armed_count gs <= limit)%nat.

Lemma settled_put id a r t1 t2 (w : world) : alone r t1 t2 → settled_in id w →
  alerts w = t1 ++ r :: t2 → (ID r = id → settled (State a) = true) →
  ∃ r', row_of id (t1 ++ set_alert a r :: t2) = Some r' ∧ settled (State r') = true.
Proof.
  intros Hal (r0 & Hr0 & Hs) Hw Ha. rewrite (row_of_put id a r t1 t2 Hal). rewrite Hw in Hr0.
  destruct (String.eqb_spec id (ID r)) as [->|]; [|by eexists]. eexists. split; [done|]. by apply Ha.
Qed.

Lemma shut_call id limit gs i g X (c : call X) f now w w' x :
  gs !! i = Some g → pre (closing id) g X c → shut id limit gs w → handle f now c w = (w', x) →
  resp (closing id) X c x ∧ shut id limit (<[i := next (closing id) g X c x]> gs) w'.
Proof.
  intros Hg Hpre (Hu & Hset & Hcnt) Hh. split; [done|].
  pose proof (handle_unique_ids c f now w Hu) as Hu'. rewrite Hh in Hu'. cbn in Hu'.
  pose proof (armed_insert gs i g (next (closing id) g X c x) Hg) as Harm.
  split; [done|]. destruct (inert c) eqn:Hi.
  { destruct (handle_inert c f now w Hi) as (Ha & _ & Hsn). rewrite Hh in Ha, Hsn. cbn in Ha, Hsn.
    unfold settled_in, notified. rewrite Ha, Hsn. split; [done|].
    assert (next (closing id) g X c x = g) as E by (by destruct c). rewrite E in *. unfold notified in Hcnt. lia. }
  destruct c; try done; cbn in Hpre; cbn [handle] in Hh.
  - cbn in Harm. unfold settled_in. assert (Hw' : (alerts w' = alerts w ∨ ∃ r, alerts w' = alerts w ++ [r]) ∧ sent w' = sent w).
    { destruct (create_cases tenantID a (alerts w)) as [(r & E & _)|[E _]]; rewrite E in Hh;
        destruct f; injection Hh as <- _; cbn; eauto. }
    destruct Hw' as [Hw' Hsn]. unfold notified in *. rewrite Hsn. split; [|cbn; lia].
    destruct Hw' as [->|[r ->]]; [done|]. destruct Hset as (r0 & Hr0 & Hs). exists r0.
    by rewrite row_of_app, Hr0.
  - cbn in Harm. assert (Hsn : sent w' = sent w) by (destruct f; by injection Hh as <- _).
    split; [|unfold notified in *; rewrite Hsn; cbn; lia].
    destruct (update_cases tenantID a (alerts w) Hu) as [(t1 & r & t2 & Et & Hal & _ & _ & E)|[E _]].
    + rewrite E in Hh. destruct f; injection Hh as <- _; [|done|]; by eapply settled_put.
    + rewrite E in Hh. destruct f; injection Hh as <- _; done.
  - destruct (advance_cases tenantID a expected (alerts w) Hu) as [(t1 & r & t2 & Et & Hal & Hid & _ & Ho & E)|E];
      rewrite E in Hh.
    + assert (Hne : ID r ≠ id).
      { intros <-. destruct Hset as (r0 & Hr0 & Hs). rewrite Et, row_of_split in Hr0 by done.
        injection Hr0 as <-. destruct (State r); done. }
      cbn in Harm |- *. rewrite <- Hid in *. apply String.eqb_neq in Hne as Hne'. rewrite Hne' in *.
      assert (Hsn : sent w' = sent w) by (destruct f; by injection Hh as <- _).
      split; [|unfold notified in *; rewrite Hsn; lia].
      destruct f; injection Hh as <- _; [|done|]; by eapply settled_put.
    + assert (Hw : alerts w' = alerts w ∧ sent w' = sent w ∧ x ≠ Ok true).
      { destruct f; injection Hh as <- <-; done. }
      destruct Hw as (Ha & Hsn & Hx). unfold settled_in, notified in *. rewrite Ha, Hsn. split; [done|].
      cbn in Harm |- *. destruct (String.eqb (ID a) id); [|lia].
      destruct x as [[]|]; [done| |]; destruct g; lia.
  - cbn in Harm |- *. assert (Ha : alerts w' = alerts w) by (destruct f; by injection Hh as <- _).
    unfold settled_in. rewrite Ha. split; [done|].
    assert (Hn : (notified id w' <= notified id w + (if about id n then 1 else 0))%nat).
    { pose proof (notified_app id w n). destruct f; injection Hh as <- _; unfold notified in *; cbn; lia. }
    destruct (about id n); [rewrite (Hpre eq_refl) in Harm|]; destruct g; lia.
Qed.

(** Once closed an alert stays closed, and is paged only by operations that were running. *)
Lemma settled_forever w0 s s' id : unique_ids (alerts w0) →
  rtc (step (λ _, True)) (MkSys w0 []) s → settled_in id (state s) →
  rtc (step (λ _, True)) s s' →
  settled_in id (state s') ∧ (notified id (state s') <= notified id (state s) + length (threads s))%nat.
Proof.
  intros Hu Hs0 Hset Hs.
  destruct (follows_steps (closing id) (λ _, True) (λ _ _ _, True) false (λ _ w, unique_ids (alerts w))
              (closing_ops id)) with (s := MkSys w0 []) (s' := s) as (gs & Hf & Hu'); [done| |done|done| |].
  { intros gs i g X c f now w w' x _ _ Hw Hh. split; [done|].
    pose proof (handle_unique_ids c f now w Hw) as H. by rewrite Hh in H. }
  { exists []. split; [constructor|done]. }
  set (limit := (notified id (state s) + length (threads s))%nat).
  destruct (follows_steps (closing id) (λ _, True) (λ _ _ _, True) false (shut id limit)
              (closing_ops id)) with (s := s) (s' := s') as (gs' & _ & _ & Hset' & Hcnt); [| |done|done| |].
  - intros gs1 w (H1 & H2 & H3). split_and!; try done. unfold armed_count in *.
    rewrite List.filter_app, length_app. cbn. lia.
  - intros. by eapply shut_call.
  - exists gs. split; [done|]. split_and!; try done. subst limit.
    apply Forall2_length in Hf. pose proof (armed_bound gs). lia.
  - split; [done|]. lia.
Qed.

(** C1: Closing is final under any interleaving: once an alert is acknowledged or cancelled it
    is acknowledged or cancelled in every later state, whatever the replicas do and however
    their calls fail, and it is paged at most by the operations that were already running
    when it was closed, once each; operations started later never page it. *)
Theorem closed_stays_closed w0 s s' id : unique_ids (alerts w0) →
  rtc (step (λ _, True)) (MkSys w0 []) s → settled_in id (state s) →
  rtc (step (λ _, True)) s s' →
  settled_in id (state s') ∧ (notified id (state s') <= notified id (state s) + length (threads s))%nat.
Proof. apply settled_forever. Qed.

(** ** One replica per due time *)

(** Where an operation stands with alert [id]: it holds a lease [L] taken from the due time
    [e] and has yet to notify, or has notified, or neither. *)
Inductive lease :=
| Idle
| Leased (e L : option Z)
| Notified (e L : option Z).

(** A stored time as a number of seconds. *)
Definition skey (o : option Z) : Z := default 0 o.

(** Chains whose tiers wait at least a second (and not for centuries). *)
Definition waits (c : EscalationChain) : Prop :=
  Forall (λ t, 1 <= WaitSec t ∧ WaitSec t * second < 2 ^ 63) (Tiers c).

Definition moves_past (e : option Z) (a : Alert) : Prop :=
  open_state (State a) = false ∨ skey e < skey (fmtTime (NextEscAt a)).

Definition leasing (id : string) : protocol lease := {|
  pre g X c :=
    match c with
    | CAdvanceAlert _ a expected => ID a = id →
        match g with
        | Idle => moves_past (fmtTime expected) a
        | Leased e L | Notified e L => fmtTime expected = L ∧ moves_past e a
        end
    | CNotify n => about id n = true → ∃ L, g = Leased (due n) L
    | CUpdateAlert _ a => settled (State a) = true
    | _ => True
    end;
  resp X c :=
    match c with
    | CGetEscalationChain _ _ => λ x, match x with Ok ch => waits ch | Err _ => True end
    | _ => λ _, True
    end;
  next g X c :=
    match c with
    | CAdvanceAlert _ a expected => λ x,
        if String.eqb (ID a) id then
          match g, x with
          | Idle, Ok true =>
              if open_state (State a) then Leased (fmtTime expected) (fmtTime (NextEscAt a)) else Idle
          | _, _ => Idle
          end
        else g
    | CNotify n => λ _,
        if about id n then match g with Leased e L => Notified e L | g => g end else g
    | _ => λ _, g
    end |}.

(** The retry wait and the next tier's wait are at least a second. *)
Lemma seconds_ge n : 1 <= n → n * second < 2 ^ 63 → second <= seconds n.
Proof. intros. rewrite seconds_small by lia. unfold second in *. lia. Qed.

Lemma backoff_ge retries n : 1 <= n → n * second < 2 ^ 63 → second <= backoff retries n.
Proof.
  intros H0 H1. unfold backoff. pose proof (seconds_ge n H0 H1).
  set (s := if 16 <? _ then _ else _).
  assert (0 <= s) by (subst s; repeat case_if; zbool; lia).
  assert (1 <= Z.shiftl 1 s) by (rewrite Z.shiftl_1_l; pose proof (Z.pow_pos_nonneg 2 s); lia).
  unfold second in *. case_if; zbool; lia.
Qed.

Lemma past_due e now d : e <= now → second <= d → skey (fmtTime e) < skey (fmtTime (now + d)).
Proof. unfold skey. rewrite !skey_fmt. unfold second. intros. zlia. Qed.

Lemma finished_moves chain tier a now e : waits chain → tier ∈ Tiers chain → e <= now →
  moves_past (fmtTime e) (finished chain tier a now).
Proof.
  intros Hw Ht He. unfold finished, moves_past. pose proof (proj1 (Forall_forall _ _) Hw) as Hall.
  destruct (Hall tier Ht) as [H1 H2]. case_if.
  - destruct (Tiers chain !! _) as [t'|] eqn:E; [|by left]. right.
    destruct (Hall t') as [H3 H4]; [by eapply list_elem_of_lookup_2|].
    apply past_due; [done|]. by apply seconds_ge.
  - right. apply past_due; [done|]. by apply backoff_ge.
Qed.

Lemma targets_leases id g a tier : obeys (leasing id) g (targets_of a tier) (λ g' _, g' = g).
Proof. unfold targets_of. obey. Qed.

Lemma processAlert_leases id a now : NextEscAt a <= now →
  obeys (leasing id) Idle (processAlert a now) (λ g _, g = Idle).
Proof.
  intros Hdue. unfold processAlert, exhaust, lease_step. cbn -[leased finished targets_of].
  split; [done|]. intros [chain|e] Hch; cbn in Hch.
  2: { cbn. split; [intros _; by left|]. intros x _. repeat case_match; done. }
  case_if.
  { cbn. split; [intros _; by left|]. intros x _. repeat case_match; done. }
  destruct (Tiers chain !! Z.to_nat (CurrentTier a)) as [tier|] eqn:Ht; [|done].
  cbn -[leased finished targets_of]. split.
  { intros _. right. apply past_due; [done|]. by vm_compute. }
  intros [[]|] _; [|cbn; by repeat case_match..].
  apply list_elem_of_lookup_2 in Ht. apply obeys_bind.
  eapply obeys_mono; [|apply targets_leases]. intros g targets ->.
  cbn -[finished leased]. unfold about. cbn -[finished leased]. rewrite finished_ID.
  change (ID (leased a now)) with (ID a).
  destruct (String.eqb_spec (ID a) id) as [Hid|Hid]; cbn -[finished leased].
  - split; [by eexists|]. intros _ _. split; [|done]. intros _. split; [done|].
    by apply finished_moves.
  - done.
Qed.

Lemma leasing_ops id o : obeys (leasing id) Idle (op_prog o) (λ _ _, True).
Proof.
  eapply obeys_mono; [done|]. apply (ops_obey (leasing id) (λ g, g = Idle)); [| |done].
  - intros a now g Hdue ->. by apply processAlert_leases.
  - by intros g X [] -> H.
Qed.

(** The due times of [id] that have been notified, and those held but not yet notified. *)
Definition used (id : string) (w : world) : list (option Z) := due <$> List.filter (about id) (sent w).

Definition held1 (g : lease) : list (option Z) := match g with Leased e _ => [e] | _ => [] end.
Definition held (gs : list lease) : list (option Z) := concat (held1 <$> gs).

Definition lease_of (g : lease) : option (option Z * option Z) :=
  match g with Idle => None | Leased e L | Notified e L => Some (e, L) end.

Lemma concat_insert {A B} (f : A → list B) (gs : list A) i g g' : gs !! i = Some g →
  f g ++ concat (f <$> <[i := g']> gs) ≡ₚ f g' ++ concat (f <$> gs).
Proof.
  intros Hg. rewrite <- (take_drop_middle gs i g Hg) at 2.
  rewrite insert_take_drop by (by eapply lookup_lt_Some).
  rewrite !fmap_app, !fmap_cons, !concat_app. cbn.
  rewrite (Permutation_app_swap_app (f g)), (Permutation_app_swap_app (f g')).
  apply Permutation_app_head. apply Permutation_app_swap_app.
Qed.

Lemma concat_nodup_two {A} (l : list (list A)) i j x a b : NoDup (concat l) → i ≠ j →
  l !! i = Some a → l !! j = Some b → x ∈ a → x ∈ b → False.
Proof.
  intros Hnd Hne Hi Hj Ha Hb. pose proof (concat_insert (λ y : list A, y) l i a [] Hi) as Hp.
  rewrite !list_fmap_id in Hp. cbn in Hp. rewrite <- Hp in Hnd. apply NoDup_app in Hnd as (_ & Hd & _).
  apply (Hd x Ha). apply list_elem_of_In, in_concat. exists b. split; [|by apply list_elem_of_In].
  apply list_elem_of_In. eapply (list_elem_of_lookup_2 _ j). by rewrite list_lookup_insert_ne.
Qed.

Lemma held_insert gs i g g' : gs !! i = Some g →
  held1 g ++ held (<[i := g']> gs) ≡ₚ held1 g' ++ held gs.
Proof. apply concat_insert. Qed.

(** Every due time below [C] has been consumed by one winner; the row stands past all of them;
    and a lease is either consumed itself (taken over) or the current one, which [h] holds. *)
Definition ledger (id : string) (C : list (option Z)) (h : nat) (gs : list lease) (w : world) : Prop :=
  NoDup (used id w ++ held gs) ∧ (∀ e, e ∈ used id w ++ held gs → e ∈ C)
  ∧ match row_of id (alerts w) with
    | None => C = [] ∧ Forall (λ g, g = Idle) gs
    | Some r => open_state (State r) = true →
        (∀ e, e ∈ C → skey e < skey (NextEscAt r))
        ∧ ∀ i g e L, gs !! i = Some g → lease_of g = Some (e, L) →
            L ∈ C ∨ (i = h ∧ NextEscAt r = L ∧ ∀ c, c ∈ C → skey c <= skey e)
    end.

Definition exclusive (id : string) (gs : list lease) (w : world) : Prop :=
  unique_ids (alerts w) ∧ Forall waits (chains w) ∧ ∃ C h, ledger id C h gs w.

(** An operation that gives its lease up. *)
Lemma ledger_drop id C h gs i g w : gs !! i = Some g → ledger id C h gs w →
  ledger id C h (<[i := Idle]> gs) w.
Proof.
  intros Hg (Hnd & Hin & Hrow). pose proof (held_insert gs i g Idle Hg) as Hp. cbn in Hp.
  assert (Hsub : used id w ++ held gs ≡ₚ held1 g ++ used id w ++ held (<[i := Idle]> gs)).
  { rewrite <- Hp. apply Permutation_app_swap_app. }
  split; [rewrite Hsub in Hnd; by apply NoDup_app in Hnd as (_ & _ & Hnd)|].
  split; [intros e He; apply Hin; rewrite Hsub; apply elem_of_app; by right|].
  destruct (row_of id (alerts w)) as [r|].
  - intros Ho. destruct (Hrow Ho) as [H1 H2]. split; [done|]. intros j g' e L Hj Hl.
    apply list_lookup_insert_Some in Hj as [(-> & <- & _)|[_ Hj]]; [done|by eapply H2].
  - destruct Hrow as [-> Hall]. split; [done|]. by apply Forall_insert.
Qed.

(** A change that leaves the row of [id] and what was sent. *)
Lemma ledger_same id C h gs w w' :
  row_of id (alerts w') = row_of id (alerts w) → sent w' = sent w → ledger id C h gs w → ledger id C h gs w'.
Proof. unfold ledger, used. by intros -> ->. Qed.

(** A row that is no longer open. *)
Lemma ledger_closed id C h gs w w' r : row_of id (alerts w') = Some r →
  open_state (State r) = false → sent w' = sent w → ledger id C h gs w → ledger id C h gs w'.
Proof.
  unfold ledger, used. intros -> Hr -> (H1 & H2 & _). split_and!; [done|done|].
  intros Ho. congruence.
Qed.

(** Winning a lease from the due time [e]. *)
Lemma ledger_win id C h gs i w w' r r' :
  gs !! i = Some Idle → row_of id (alerts w) = Some r → open_state (State r) = true →
  row_of id (alerts w') = Some r' → skey (NextEscAt r) < skey (NextEscAt r') → sent w' = sent w →
  ledger id C h gs w →
  ledger id (NextEscAt r :: C) i (<[i := Leased (NextEscAt r) (NextEscAt r')]> gs) w'
  ∧ ledger id (NextEscAt r :: C) i gs w'.
Proof.
  intros Hi Hr Ho Hr' Hlt Hs. unfold ledger, used. rewrite Hr, Hr', Hs. intros (Hnd & Hin & Hrow).
  destruct (Hrow Ho) as [H1 H2]. fold (used id w) in *.
  assert (Hnew : NextEscAt r ∉ C) by (intros H%H1; lia).
  assert (HC : ∀ e, e ∈ NextEscAt r :: C → skey e < skey (NextEscAt r')).
  { intros e [->|He]%elem_of_cons; [done|]. apply H1 in He. lia. }
  pose proof (held_insert gs i Idle (Leased (NextEscAt r) (NextEscAt r')) Hi) as Hp. cbn in Hp.
  split; split_and!.
  - rewrite Hp. rewrite <- Permutation_middle. apply NoDup_cons. split; [|done]. by intros ?%Hin.
  - intros e. rewrite Hp. rewrite <- Permutation_middle. intros [->|He]%elem_of_cons; [left|]. right. by apply Hin.
  - intros _. split; [done|]. intros j g e L Hj Hl.
    apply list_lookup_insert_Some in Hj as [(-> & <- & _)|[Hne Hj]].
    + injection Hl as <- <-. right. split_and!; try done.
      intros c [->|Hc]%elem_of_cons; [done|]. apply H1 in Hc. lia.
    + left. destruct (H2 j g e L Hj Hl) as [HL|(_ & <- & _)]; [by right|left].
  - done.
  - intros e He. right. by apply Hin.
  - intros _. split; [done|]. intros j g e L Hj Hl.
    left. destruct (H2 j g e L Hj Hl) as [HL|(_ & <- & _)]; [by right|left].
Qed.

(** Completing against a lease that is still the current one. *)
Lemma ledger_complete id C h gs i g e w w' r r' :
  gs !! i = Some g → lease_of g = Some (e, NextEscAt r) →
  row_of id (alerts w) = Some r → open_state (State r) = true →
  row_of id (alerts w') = Some r' → skey e < skey (NextEscAt r') → sent w' = sent w →
  ledger id C h gs w → ledger id C h (<[i := Idle]> gs) w'.
Proof.
  intros Hi Hg Hr Ho Hr' Hlt Hs HL. destruct (ledger_drop id C h gs i g w Hi HL) as (Hnd' & Hin' & _).
  destruct HL as (Hnd & Hin & Hrow). rewrite Hr in Hrow. destruct (Hrow Ho) as [H1 H2].
  unfold ledger, used in *. rewrite Hr', Hs. split_and!; [done|done|]. intros _.
  destruct (H2 i g e _ Hi Hg) as [HC|(-> & _ & Hmax)]; [apply H1 in HC; lia|].
  split; [intros c Hc; specialize (Hmax c Hc); lia|].
  intros j g' e' L Hj Hl. apply list_lookup_insert_Some in Hj as [(-> & <- & _)|[Hne Hj]]; [done|].
  destruct (H2 j g' e' L Hj Hl) as [HC|(-> & _)]; [by left|done].
Qed.

(** Notifying uses up the due time of the lease. *)
Lemma ledger_notify id C h gs i L n w w' : gs !! i = Some (Leased (due n) L) → about id n = true →
  alerts w' = alerts w → sent w' = sent w ++ [n] ∨ sent w' = sent w →
  ledger id C h gs w → ledger id C h (<[i := Notified (due n) L]> gs) w'.
Proof.
  intros Hi Hn Ha Hs (Hnd & Hin & Hrow).
  pose proof (held_insert gs i (Leased (due n) L) (Notified (due n) L) Hi) as Hp. cbn in Hp.
  assert (Hsub : used id w ++ held gs ≡ₚ used id w ++ [due n] ++ held (<[i := Notified (due n) L]> gs)) by (by rewrite Hp).
  assert (Hu : used id w' = used id w ++ [due n] ∨ used id w' = used id w).
  { unfold used. destruct Hs as [->| ->]; [left|by right]. rewrite List.filter_app, fmap_app. cbn. by rewrite Hn. }
  unfold ledger. rewrite Ha. split_and!.
  - rewrite Hsub in Hnd. destruct Hu as [->| ->]; [by rewrite <- app_assoc|].
    rewrite (Permutation_app_swap_app (used id w)) in Hnd. by apply NoDup_app in Hnd as (_ & _ & Hnd).
  - intros e He. apply Hin. rewrite Hsub. destruct Hu as [E|E]; rewrite E in He.
    + by rewrite <- app_assoc in He.
    + rewrite !elem_of_app in *. tauto.
  - destruct (row_of id (alerts w)) as [r|].
    + intros Ho. destruct (Hrow Ho) as [H1 H2]. split; [done|]. intros j g e L' Hj Hl.
      apply list_lookup_insert_Some in Hj as [(-> & <- & _)|[_ Hj]]; [|by eapply H2].
      injection Hl as <- <-. by eapply H2.
    + destruct Hrow as [_ Hall]. by apply (Forall_lookup_1 _ _ _ _ Hall) in Hi.
Qed.

Lemma ledger_create id C h gs t a w w' : CreateAlert t a (alerts w) = Some (alerts w') → sent w' = sent w →
  ledger id C h gs w → ledger id C h gs w'.
Proof.
  intros Hc Hs HL. destruct (create_cases t a (alerts w)) as [(r & E & Hn & Hid & _)|[E _]]; [|congruence].
  assert (Ha : alerts w' = alerts w ++ [r]) by congruence. clear Hc E.
  destruct (row_of id (alerts w)) as [r0|] eqn:Hr0.
  { eapply (ledger_same _ _ _ _ w); [|done|done]. by rewrite Ha, row_of_app, Hr0. }
  destruct (String.eqb_spec (ID r) id) as [Er|Er].
  - destruct HL as (H1 & H2 & H3). rewrite Hr0 in H3. destruct H3 as [-> Hall].
    unfold ledger, used in *. rewrite Hs, Ha, row_of_app, Hr0, Er, String.eqb_refl.
    split_and!; [done|done|]. intros _. split; [by intros ? ?%not_elem_of_nil|].
    intros i g e L Hi Hl. by rewrite (Forall_lookup_1 _ _ _ _ Hall Hi) in Hl.
  - eapply (ledger_same _ _ _ _ w); [|done|done]. apply String.eqb_neq in Er. by rewrite Ha, row_of_app, Hr0, Er.
Qed.

Definition lost (f : fault) : bool := match f with CallLost _ => true | _ => false end.

Lemma lost_dec f : (∃ b, f = CallLost b) ∨ lost f = false.
Proof. destruct f; [by right|left; by eexists|by right]. Qed.

(** A compare-and-set on [id], by where the operation stands. *)
Lemma exclusive_advance id C h gs i g t a expected f now w w' x :
  unique_ids (alerts w) → gs !! i = Some g → ID a = id →
  pre (leasing id) g _ (CAdvanceAlert t a expected) → ledger id C h gs w →
  handle f now (CAdvanceAlert t a expected) w = (w', x) →
  ∃ C' h', ledger id C' h' (<[i := next (leasing id) g _ (CAdvanceAlert t a expected) x]> gs) w'.
Proof.
  intros Hu Hg Hid Hpre HL Hh. cbn in Hpre |- *. specialize (Hpre Hid). rewrite Hid, String.eqb_refl.
  cbn [handle] in Hh. pose proof (ledger_drop id C h gs i g w Hg HL) as Hdrop.
  destruct (advance_cases t a expected (alerts w) Hu) as [(t1 & r & t2 & Et & Hal & Hr & Hn & Ho & E)|E]; rewrite E in Hh.
  2: { assert (row_of id (alerts w') = row_of id (alerts w) ∧ sent w' = sent w ∧ x ≠ Ok true) as (H1 & H2 & H3)
         by (destruct f; injection Hh as <- <-; done).
       exists C, h. eapply (ledger_same _ _ _ _ w); [done|done|]. destruct g, x as [[]|]; done. }
  assert (Hrow : row_of id (alerts w) = Some r) by (rewrite Et, <- Hid, <- Hr; by apply row_of_split).
  assert (Hrow' : lost f = false → row_of id (alerts w') = Some (set_alert a r) ∧ sent w' = sent w).
  { intros Hf. assert (alerts w' = t1 ++ set_alert a r :: t2 ∧ sent w' = sent w) as [-> ->]
      by (destruct f; injection Hh as <- _; done).
    by rewrite row_of_put, <- Hid, <- Hr, String.eqb_refl. }
  destruct (lost_dec f) as [[b ->]|Hf].
  { injection Hh as <- <-. exists C, h. destruct g; done. }
  destruct (Hrow' Hf) as [Hr' Hs]. destruct (open_state (State a)) eqn:Hoa.
  2: { exists C, h. eapply (ledger_closed id C h _ w w' (set_alert a r)); [done|done|done|].
       destruct g, x as [[]|]; done. }
  destruct g as [|e L|e L].
  - destruct Hpre as [Hcl|Hlt]; [congruence|]. rewrite <- Hn in Hlt.
    destruct (ledger_win id C h gs i w w' r (set_alert a r)) as [H1 H2]; try done.
    exists (NextEscAt r :: C), i. destruct x as [[]|]; [by rewrite <- Hn|rewrite list_insert_id by done; done..].
  - destruct Hpre as [HL' [Hcl|Hlt]]; [congruence|]. exists C, h.
    eapply (ledger_complete id C h gs i (Leased e L) e w w' r); try done. cbn. congruence.
  - destruct Hpre as [HL' [Hcl|Hlt]]; [congruence|]. exists C, h.
    eapply (ledger_complete id C h gs i (Notified e L) e w w' r); try done. cbn. congruence.
Qed.

Lemma handle_chains X (c : call X) f now w : chains (fst (handle f now c w)) = chains w.
Proof.
  destruct c; cbn; try (by destruct f); by case_match; destruct f.
Qed.

Lemma exclusive_call id gs i g X (c : call X) f now w w' x :
  gs !! i = Some g → pre (leasing id) g X c → exclusive id gs w → handle f now c w = (w', x) →
  resp (leasing id) X c x ∧ exclusive id (<[i := next (leasing id) g X c x]> gs) w'.
Proof.
  intros Hg Hpre (Hu & Hw & C & h & HL) Hh.
  pose proof (handle_unique_ids c f now w Hu) as Hu'. pose proof (handle_chains X c f now w) as Hch.
  pose proof Hh as Hh'. rewrite Hh in Hu', Hch. cbn in Hu', Hch. split.
  { destruct c; try done. cbn [handle] in Hh. destruct (GetEscalationChain _ _ _) as [ch|] eqn:E;
      destruct f; injection Hh as <- <-; try done. cbn.
    apply head_filter in E as [Hin _]. by apply (proj1 (Forall_forall _ _) Hw). }
  split; [done|]. split; [by rewrite Hch|]. destruct (inert c) eqn:Hi.
  { destruct (handle_inert c f now w Hi) as (Ha & _ & Hs). rewrite Hh in Ha, Hs. cbn in Ha, Hs.
    assert (next (leasing id) g X c x = g) as -> by (by destruct c).
    rewrite list_insert_id by done. exists C, h. eapply (ledger_same _ _ _ _ w); [by rewrite Ha|done|done]. }
  destruct c; try done; cbn [handle] in Hh.
  - rewrite list_insert_id by done. exists C, h.
    destruct (CreateAlert tenantID a (alerts w)) as [t|] eqn:E; [|destruct f; by injection Hh as <- _].
    destruct f; injection Hh as <- _; [|done|]; by eapply ledger_create.
  - rewrite list_insert_id by done. exists C, h. cbn in Hpre.
    destruct (update_cases tenantID a (alerts w) Hu) as [(t1 & r & t2 & Et & Hal & Hr & _ & E)|[E _]].
    2: { rewrite E in Hh. destruct f; injection Hh as <- _; done. }
    rewrite E in Hh. destruct (lost_dec f) as [[b ->]|Hf]; [by injection Hh as <- _|].
    assert (alerts w' = t1 ++ set_alert a r :: t2 ∧ sent w' = sent w) as [Ha Hs]
      by (destruct f; by injection Hh as <- _).
    destruct (String.eqb_spec id (ID r)) as [->|Hne].
    + eapply (ledger_closed _ _ _ _ w w' (set_alert a r)); [| |done|done].
      * by rewrite Ha, row_of_put, String.eqb_refl.
      * cbn. by destruct (State a).
    + eapply (ledger_same _ _ _ _ w); [|done|done]. apply String.eqb_neq in Hne. by rewrite Ha, row_of_put, Hne, Et.
  - destruct (decide (ID a = id)) as [Hid|Hid]; [by eapply (exclusive_advance id C h gs i g tenantID a expected f now w w' x)|]. cbn.
    apply String.eqb_neq in Hid as Hid'. rewrite Hid', list_insert_id by done. exists C, h.
    destruct (advance_cases tenantID a expected (alerts w) Hu) as [(t1 & r & t2 & Et & Hal & Hr & _ & _ & E)|E];
      rewrite E in Hh; [|destruct f; by injection Hh as <- _].
    destruct f; injection Hh as <- _; [|done|]; (eapply (ledger_same _ _ _ _ w); [|done|done]); cbn;
      rewrite row_of_put, Hr by done; rewrite String.eqb_sym, Hid'; by rewrite Et.
  - exists C, h. cbn in Hpre |- *. destruct (about id n) eqn:Hn.
    + destruct (Hpre eq_refl) as [L ->]. eapply (ledger_notify id C h gs i L n w w'); try done;
        destruct f; injection Hh as <- _; cbn; auto.
    + rewrite list_insert_id by done. destruct f; injection Hh as <- _; [|done|];
        unfold ledger, used in *; cbn; rewrite List.filter_app; cbn; by rewrite Hn, app_nil_r.
Qed.

(** C10: Exactly one replica notifies a step: under any interleaving and any faults, as long as
    every tier waits at least a second, no two notifications of an alert are taken from the
    same due time.  Of all the replicas that listed the alert when it was due, at most one
    pages. *)
Theorem one_replica_per_due_time w0 s id : unique_ids (alerts w0) → Forall waits (chains w0) →
  List.filter (about id) (sent w0) = [] →
  rtc (step waits) (MkSys w0 []) s → NoDup (used id (state s)).
Proof.
  intros Hu Hw Hs Hsteps.
  destruct (follows_steps (leasing id) waits (λ _ _ _, True) Idle (exclusive id) (leasing_ops id))
    with (s := MkSys w0 []) (s' := s) as (gs & _ & _ & _ & C & h & Hnd & _); [| | |done| |].
  - intros gs w (H1 & H2 & C & h & Hnd & Hin & Hrow). split_and!; [done|done|]. exists C, h.
    unfold ledger, held in *. rewrite fmap_app, concat_app. cbn. rewrite app_nil_r.
    split_and!; [done|done|]. destruct (row_of id (alerts w)) as [r|].
    + intros Ho. destruct (Hrow Ho) as [H3 H4]. split; [done|]. intros i g e L Hi Hl.
      apply lookup_snoc_Some in Hi as [[_ Hi]|[_ <-]]; [by eapply H4|done].
    + destruct Hrow as [-> Hall]. split; [done|]. apply Forall_app. split; [done|by apply Forall_singleton].
  - intros. by eapply exclusive_call.
  - intros gs w cs ps ds Hcs (H1 & H2 & H3). split_and!; [done| |done].
    apply Forall_forall. intros c [Hc|Hc]%Hcs; [|done]. by apply (proj1 (Forall_forall _ _) H2).
  - exists []. split; [constructor|]. split_and!; [done|done|]. exists [], O. unfold ledger, used. cbn.
    rewrite Hs. cbn. split_and!; [constructor|by intros ? ?%not_elem_of_nil|].
    destruct (row_of _ _); [|done]. intros _. split; [by intros ? ?%not_elem_of_nil|done].
  - by apply NoDup_app in Hnd as [Hnd _].
Qed.

(** ** What an operation's answer promises *)

(** What an operation has learnt from the answers so far. *)
Inductive fact :=
| FFound (tenantID id : string)
| FCreated (id : string)
| FShut (id : string).

#[export] Instance fact_eq : EqDecision fact.
Proof. solve_decision. Defined.

Definition if_shut (st : AlertState) (id : string) : list fact := if settled st then [FShut id] else [].

Definition learning : protocol (list fact) := {|
  pre facts X c := match c with CUpdateAlert _ a => settled (State a) = true | _ => True end;
  resp X c :=
    match c with
    | CGetAlert _ id => λ x, match x with Ok a => ID a = id | Err _ => True end
    | _ => λ _, True
    end;
  next facts X c :=
    match c with
    | CGetAlert t id => λ x,
        match x with Ok a => FFound t id :: if_shut (State a) id ++ facts | Err _ => facts end
    | CCreateAlert _ a => λ x,
        match x with Ok _ => FCreated (ID a) :: if_shut (State a) (ID a) ++ facts | Err _ => facts end
    | CUpdateAlert t a => λ x,
        match x with
        | Ok _ => if decide (FFound t (ID a) ∈ facts) then FShut (ID a) :: facts else facts
        | Err _ => facts
        end
    | _ => λ _, facts
    end |}.

Definition promise (o : op) (facts : list fact) (r : answer) : Prop :=
  match o, r with
  | OTriggerOnce _ a, Ok true => FCreated (ID a) ∈ facts
  | OClose _ a _, Ok _ => FShut (ID a) ∈ facts
  | OAcknowledge _ id _, Ok _ => FShut id ∈ facts
  | OCancel _ id _, Ok true => FShut id ∈ facts
  | _, _ => True
  end.

Lemma cancel_promise t a b facts : FFound t (ID a) ∈ facts →
  (State a = AlertStateCancelled → FShut (ID a) ∈ facts) →
  obeys learning facts (cancelAlert t a b) (λ fs r, is_ok r = true → FShut (ID a) ∈ fs).
Proof.
  intros Hf Hc. unfold cancelAlert. case_bool_decide; [cbn; auto|]. cbn. split; [done|]. intros now _.
  split; [done|]. intros [u|] _; [|done]. cbn. intros _. rewrite decide_True by done. left.
Qed.

(** Reading an alert: it exists, and if it was cancelled it is shut. *)
Lemma read_facts t (a : Alert) facts (fs := FFound t (ID a) :: if_shut (State a) (ID a) ++ facts) :
  FFound t (ID a) ∈ fs ∧ (settled (State a) = true → FShut (ID a) ∈ fs)
  ∧ (State a = AlertStateCancelled → FShut (ID a) ∈ fs).
Proof.
  subst fs. split; [left|]. unfold if_shut. split.
  - intros ->. right. left.
  - intros ->. right. left.
Qed.

Lemma close_promise t a b n : ∀ facts,
  obeys learning facts (close_loop n t a b) (λ fs r, is_ok r = true → FShut (ID a) ∈ fs).
Proof.
  induction n as [|n IH]; intros facts; [done|]. cbn [close_loop]. cbn -[cancelAlert close_loop].
  split; [done|]. intros [x|e] Hx; cbn -[cancelAlert close_loop].
  - cbn in Hx. rewrite <- Hx. destruct (read_facts t x facts) as (H1 & _ & H2). by apply cancel_promise.
  - case_match; [done|]. cbn -[close_loop]. split; [done|]. intros now _. split; [done|].
    intros [[]|] _; [cbn; intros _; right; left|]. apply IH.
Qed.

Lemma learning_ops o : obeys learning [] (op_prog o) (promise o).
Proof.
  assert (Hany : (∀ r fs, promise o fs r) → obeys learning [] (op_prog o) (promise o)).
  { intros Hp. eapply obeys_mono; [intros; apply Hp|]. apply (ops_obey learning (λ _, True)); [|by intros g X []|done].
    intros a now g _ _. unfold processAlert, exhaust, lease_step, targets_of. obey. }
  destruct o as [t a|t a|t i b|t i b|t a b| |o|o]; try (by apply Hany); clear Hany; cbn [op_prog].
  - unfold TriggerOnce. destruct (String.eqb (ID a) "") eqn:Hid; [done|]. cbn -[Trigger]. split; [done|].
    intros [x|e] _; [done|]. unfold Trigger. rewrite Hid. cbn.
    split; [done|]. intros now _. split; [done|]. intros [u|] _; [cbn; left|].
    cbn. split; [done|]. intros [y|] _; done.
  - unfold Acknowledge. cbn. split; [done|]. intros [x|e] Hx; [|done]. cbn in Hx. rewrite <- Hx.
    destruct (read_facts t x []) as (H1 & H2 & _). case_bool_decide as Hs; cbn.
    + apply H2. by rewrite Hs.
    + split; [done|]. intros now _. split; [done|]. intros [u|] _; [|done]. cbn.
      rewrite decide_True by done. left.
  - unfold Cancel. cbn -[cancelAlert]. split; [done|]. intros [x|e] Hx; [|by case_match].
    cbn in Hx. rewrite <- Hx. destruct (read_facts t x []) as (H1 & _ & H2).
    eapply obeys_mono; [|by apply cancel_promise]. intros fs [[]|] Hr; try done. by apply Hr.
  - unfold Close. case_if; [done|]. eapply obeys_mono; [|apply close_promise].
    intros fs [[]|] Hr; try done; by apply Hr.
Qed.

Definition holds (w : world) (fa : fact) : Prop :=
  match fa with
  | FFound t id => GetAlert t id (alerts w) ≠ None
  | FCreated id => row_of id (alerts w) ≠ None
  | FShut id => settled_in id w
  end.

Definition created (facts : list fact) : list string :=
  omap (λ fa, match fa with FCreated id => Some id | _ => None end) facts.

(** Everything the operations have learnt is so, and no alert was created by two of them. *)
Definition truthful (gs : list (list fact)) (w : world) : Prop :=
  unique_ids (alerts w) ∧ Forall (Forall (holds w)) gs ∧ NoDup (concat (created <$> gs)).

Lemma GetAlert_exists t id tbl : GetAlert t id tbl ≠ None ↔ ∃ r, r ∈ tbl ∧ ID r = id ∧ scoped t r = true.
Proof.
  unfold GetAlert. destruct (head (List.filter _ tbl)) as [r|] eqn:E; cbn.
  - split; [|done]. intros _. apply head_filter in E as [Hin Hq]. apply andb_true_iff in Hq as [E%String.eqb_eq Hs].
    by exists r.
  - split; [done|]. intros (r & Hr & <- & Hs) _.
    assert (In r (List.filter (λ r0, String.eqb (ID r0) (ID r) && scoped t r0) tbl)) as Hin.
    { apply List.filter_In. split; [by apply list_elem_of_In|]. by rewrite String.eqb_refl, Hs. }
    destruct (List.filter _ tbl); done.
Qed.

(** Facts survive a row being overwritten by one that stays, or becomes, settled. *)
Lemma holds_put a r t1 t2 w fa : alone r t1 t2 → alerts w = t1 ++ r :: t2 →
  (settled (State r) = true → settled (State a) = true) →
  holds w fa → holds (set_alerts (t1 ++ set_alert a r :: t2) w) fa.
Proof.
  intros Hal Hw Hset. destruct fa as [t id|id|id]; cbn.
  - rewrite !GetAlert_exists, Hw. intros (s & [Hs|[->|Hs]%elem_of_cons]%elem_of_app & H).
    + exists s. rewrite elem_of_app. tauto.
    + exists (set_alert a r). rewrite elem_of_app, elem_of_cons. split; [tauto|done].
    + exists s. rewrite elem_of_app, elem_of_cons. tauto.
  - rewrite row_of_put, Hw by done. by case_match.
  - intros (s & Hs & Hst). unfold settled_in. cbn. rewrite row_of_put by done. rewrite Hw in Hs.
    destruct (String.eqb_spec id (ID r)) as [->|]; [|by exists s]. eexists. split; [done|].
    rewrite row_of_split in Hs by done. injection Hs as ->. by apply Hset.
Qed.

Lemma holds_app r w fa : holds w fa → holds (set_alerts (alerts w ++ [r]) w) fa.
Proof.
  destruct fa as [t id|id|id]; cbn.
  - rewrite !GetAlert_exists. intros (s & Hs & H). exists s. rewrite elem_of_app. tauto.
  - rewrite row_of_app. by destruct (row_of id (alerts w)).
  - intros (s & Hs & H). exists s. cbn. by rewrite row_of_app, Hs.
Qed.

Lemma holds_call X (c : call X) facts f now w fa : unique_ids (alerts w) → pre learning facts X c →
  holds w fa → holds (fst (handle f now c w)) fa.
Proof.
  intros Hu Hpre Hfa. assert (Hsame : ∀ w', alerts w' = alerts w → holds w' fa).
  { intros w' E. destruct fa; cbn in *; unfold settled_in in *; by rewrite E. }
  destruct (inert c) eqn:Hi; [by apply Hsame, handle_inert|]. destruct c; try done; cbn [handle].
  - destruct (create_cases tenantID a (alerts w)) as [(r & -> & _)|[-> _]]; [|by destruct f].
    destruct f; [by apply holds_app|done|by apply holds_app].
  - destruct (update_cases tenantID a (alerts w) Hu) as [(t1 & r & t2 & Et & Hal & _ & _ & ->)|[-> _]];
      [|destruct f; by apply Hsame]. destruct f; cbn; [|done|]; by apply (holds_put a r).
  - destruct (advance_cases tenantID a expected (alerts w) Hu) as [(t1 & r & t2 & Et & Hal & _ & _ & Ho & ->)| ->];
      [|destruct f; by apply Hsame].
    destruct f; cbn; [|done|]; (apply (holds_put a r); [done|done| |done]); by destruct (State r).
  - destruct f; by apply Hsame.
Qed.

Lemma row_settled id a t w : unique_ids (alerts w) → GetAlert t id (alerts w) = Some a →
  ID a = id ∧ (settled (State a) = true → settled_in id w).
Proof.
  intros Hu (r & Hr & ->)%fmap_Some. apply head_filter in Hr as [Hin Hq].
  apply andb_true_iff in Hq as [<-%String.eqb_eq _]. split; [done|]. intros Hs.
  destruct (unique_alone _ r Hu Hin) as (t1 & t2 & E & Hal). exists r. split; [|done].
  rewrite E. by apply row_of_split.
Qed.

(** The facts an answer adds are true. *)
Lemma learnt X (c : call X) facts f now w w' x : unique_ids (alerts w) → pre learning facts X c →
  Forall (holds w) facts → handle f now c w = (w', x) →
  resp learning X c x ∧ Forall (holds w') (next learning facts X c x).
Proof.
  intros Hu Hpre Hf Hh.
  assert (Hold : Forall (holds w') facts).
  { eapply Forall_impl; [exact Hf|]. intros fa Hfa. pose proof (holds_call X c facts f now w fa Hu Hpre Hfa).
    by rewrite Hh in H. }
  assert (Hif : ∀ st id, (settled st = true → settled_in id w') → Forall (holds w') (if_shut st id)).
  { intros st id H. unfold if_shut. case_match; [|constructor]. apply Forall_singleton. by apply H. }
  destruct c; cbn; try done; cbn [handle] in Hh.
  - split; [done|]. destruct x as [u|]; [|done].
    destruct (create_cases tenantID a (alerts w)) as [(r & E & Hn & Hid & Hst)|[E _]]; rewrite E in Hh;
      [|by destruct f]. destruct f; try done. injection Hh as <- _.
    assert (Hr : row_of (ID a) (alerts w ++ [r]) = Some r) by (by rewrite row_of_app, Hn, Hid, String.eqb_refl).
    apply Forall_cons. split; [cbn; by rewrite Hr|]. apply Forall_app. split; [|done].
    apply Hif. intros Hs. exists r. cbn. rewrite Hr, Hst. done.
  - destruct f; try (by injection Hh as <- <-). injection Hh as <- <-.
    destruct (GetAlert tenantID id (alerts w)) as [a|] eqn:E; [|done]. cbn.
    destruct (row_settled id a tenantID w Hu E) as [Hid Hs]. split; [done|].
    apply Forall_cons. split; [cbn; by rewrite E|]. apply Forall_app. split; [|done]. by apply Hif.
  - split; [done|]. destruct x as [u|]; [|done]. case_decide as Hd; [|done]. apply Forall_cons. split; [|done].
    apply (proj1 (Forall_forall _ _) Hf) in Hd. cbn in Hd, Hpre |- *.
    destruct (update_cases tenantID a (alerts w) Hu) as [(t1 & r & t2 & Et & Hal & Hr & _ & E)|[_ E]]; [|done].
    rewrite E in Hh. destruct f; try done. injection Hh as <- _. exists (set_alert a r). cbn.
    by rewrite row_of_put, Hr, String.eqb_refl.
Qed.

Lemma created_if_shut st id facts : created (if_shut st id ++ facts) = created facts.
Proof. unfold if_shut. by destruct (settled st). Qed.

(** Only a successful insert adds a created alert, and none stood there before. *)
Lemma created_next X (c : call X) facts f now w w' x : handle f now c w = (w', x) →
  created (next learning facts X c x) = created facts
  ∨ ∃ id, created (next learning facts X c x) = id :: created facts ∧ row_of id (alerts w) = None.
Proof.
  intros Hh. destruct c; cbn; try (by left).
  - destruct x as [u|]; [|by left]. right. exists (ID a). cbn [handle] in Hh.
    destruct (create_cases tenantID a (alerts w)) as [(r & E & Hn & _)|[E _]]; rewrite E in Hh; [|by destruct f].
    split; [|done]. cbn. f_equal. apply created_if_shut.
  - left. destruct x; [|done]. apply created_if_shut.
  - left. destruct x; [|done]. by case_decide.
Qed.

Lemma truthful_call gs i g X (c : call X) f now w w' x :
  gs !! i = Some g → pre learning g X c → truthful gs w → handle f now c w = (w', x) →
  resp learning X c x ∧ truthful (<[i := next learning g X c x]> gs) w'.
Proof.
  intros Hg Hpre (Hu & Hall & Hnd) Hh.
  destruct (learnt X c g f now w w' x Hu Hpre (Forall_lookup_1 _ _ _ _ Hall Hg) Hh) as [Hr Hnew].
  split; [done|]. split_and!.
  - pose proof (handle_unique_ids c f now w Hu) as H. by rewrite Hh in H.
  - apply Forall_insert; [|done]. eapply Forall_impl; [exact Hall|]. intros facts Hf.
    eapply Forall_impl; [exact Hf|]. intros fa Hfa.
    pose proof (holds_call X c g f now w fa Hu Hpre Hfa) as H. by rewrite Hh in H.
  - pose proof (concat_insert created gs i g (next learning g X c x) Hg) as Hp.
    destruct (created_next X c g f now w w' x Hh) as [E|(id & E & Hn)]; rewrite E in Hp.
    + apply Permutation_app_inv_l in Hp. by rewrite Hp.
    + cbn in Hp. rewrite Permutation_middle in Hp. apply Permutation_app_inv_l in Hp. rewrite Hp.
      apply NoDup_cons. split; [|done]. intros (l & Hid & Hl)%list_elem_of_In%in_concat.
      apply list_elem_of_In, list_elem_of_fmap in Hid as (facts & -> & Hfs).
      apply list_elem_of_In, list_elem_of_omap in Hl as (fa & Hfa & Efa).
      apply (proj1 (Forall_forall _ _) Hall) in Hfs. apply (proj1 (Forall_forall _ _) Hfs) in Hfa.
      destruct fa; try done. injection Efa as ->. done.
Qed.

Lemma reachable_truthful w0 s : unique_ids (alerts w0) → rtc (step (λ _, True)) (MkSys w0 []) s →
  follows learning promise truthful s.
Proof.
  intros Hu Hs. eapply (follows_steps learning (λ _, True) promise [] truthful learning_ops); [| | |done|].
  - intros gs w (H1 & H2 & H3). split_and!; [done| |].
    + apply Forall_app. split; [done|]. by apply Forall_singleton.
    + by rewrite fmap_app, concat_app, app_nil_r.
  - intros. by eapply truthful_call.
  - intros gs w cs ps ds _ (H1 & H2 & H3). split_and!; [done| |done].
    eapply Forall_impl; [exact H2|]. intros facts Hf. eapply Forall_impl; [exact Hf|]. by intros [].
  - exists []. split; [constructor|]. split_and!; [done|constructor|constructor].
Qed.

(** A deterministic id is raised once: in any interleaving, with any faults, at most one
    [TriggerOnce] of an id answers that it raised the alert. *)
Theorem raised_once w0 s i j t1 a t2 b : unique_ids (alerts w0) →
  rtc (step (λ _, True)) (MkSys w0 []) s →
  threads s !! i = Some (OTriggerOnce t1 a, Ret (Ok true)) →
  threads s !! j = Some (OTriggerOnce t2 b, Ret (Ok true)) → ID a = ID b → i = j.
Proof.
  intros Hu Hs Hi Hj Eid. destruct (reachable_truthful w0 s Hu Hs) as (gs & Hf & _ & _ & Hnd).
  destruct (Forall2_lookup_r _ _ _ _ _ Hf Hi) as (fi & Hgi & Pi). cbn in Pi.
  destruct (Forall2_lookup_r _ _ _ _ _ Hf Hj) as (fj & Hgj & Pj). cbn in Pj. rewrite <- Eid in Pj.
  destruct (decide (i = j)) as [|Hne]; [done|]. exfalso.
  assert (Hin : ∀ facts, FCreated (ID a) ∈ facts → ID a ∈ created facts).
  { intros facts H. apply list_elem_of_omap. by exists (FCreated (ID a)). }
  eapply (concat_nodup_two (created <$> gs) i j); [done|done| | |by apply Hin, Pi|by apply Hin, Pj].
  - by rewrite list_lookup_fmap, Hgi.
  - by rewrite list_lookup_fmap, Hgj.
Qed.

(** An answer that an alert is closed can be relied on: in any interleaving, with any
    faults, once [Close] or [Acknowledge] has returned without an error, or [Cancel] has
    answered true, the alert exists and is acknowledged or cancelled. *)
Theorem closed_when_told w0 s i o r id : unique_ids (alerts w0) →
  rtc (step (λ _, True)) (MkSys w0 []) s → threads s !! i = Some (o, Ret (Ok r)) →
  ((∃ t a b, o = OClose t a b ∧ ID a = id) ∨ (∃ t b, o = OAcknowledge t id b)
   ∨ (∃ t b, o = OCancel t id b ∧ r = true)) →
  settled_in id (state s).
Proof.
  intros Hu Hs Hi Ho. destruct (reachable_truthful w0 s Hu Hs) as (gs & Hf & _ & Hall & _).
  destruct (Forall2_lookup_r _ _ _ _ _ Hf Hi) as (fi & Hgi & Pi). cbn in Pi.
  assert (FShut id ∈ fi) as Hin.
  { destruct Ho as [(t & a & b & -> & <-)|[(t & b & ->)|(t & b & -> & ->)]]; done. }
  pose proof (Forall_lookup_1 _ _ _ _ Hall Hgi) as H. exact (proj1 (Forall_forall _ _) H _ Hin).
Qed.

(** ** Executions by schedule *)

Inductive action :=
| Start (o : op)
| Call (i : nat) (f : fault) (now : Z).

Definition act (a : action) (s : sys) : option sys :=
  match a with
  | Start o => Some (MkSys (state s) (threads s ++ [(o, op_prog o)]))
  | Call i f now => fire i f now s
  end.

Fixpoint play (acts : list action) (s : sys) : option sys :=
  match acts with
  | [] => Some s
  | a :: acts => match act a s with Some s' => play acts s' | None => None end
  end.

Lemma play_steps good acts : ∀ s s', play acts s = Some s' → rtc (step good) s s'.
Proof.
  induction acts as [|a acts IH]; intros s s' H; [injection H as <-; apply rtc_refl|].
  cbn in H. destruct (act a s) as [s1|] eqn:E; [|done]. eapply rtc_l; [|by apply IH].
  destruct a as [o|i f now]; [injection E as <-; apply step_start|by eapply step_call].
Qed.

Lemma play_app acts1 acts2 s :
  play (acts1 ++ acts2) s = match play acts1 s with Some s' => play acts2 s' | None => None end.
Proof. revert s. induction acts1 as [|a acts1 IH]; intros s; [done|]. cbn. by destruct (act a s). Qed.

(** A schedule that runs and ends in a state that passes a test. *)
Lemma play_check (check : sys → Prop) `{∀ s, Decision (check s)} acts s0 :
  match play acts s0 with Some s => bool_decide (check s) | None => false end = true →
  ∃ s, play acts s0 = Some s ∧ check s.
Proof. destruct (play acts s0) as [s|]; [|done]. intros Hc%bool_decide_eq_true. by exists s. Qed.

(** [n] calls of operation [i], without faults, the clock at [now] seconds and running on by
    a nanosecond a call. *)
Definition calls (i n : nat) (now : Z) : list action :=
  (λ k, Call i NoFault (now * second + Z.of_nat k)) <$> seq 0 n.

Definition finished_ops (s : sys) : bool :=
  forallb (λ t, match snd t with Ret _ => true | _ => false end) (threads s).

(** Two replicas page one missed check-in twice: the alerted flag is saved without
    comparing it, so two scans that listed the switch before either saved it both raise an
    alert, although nothing re-armed the switch in between. *)
Theorem deadman_replicas_page_twice : ∃ s,
  rtc (step (λ _, True)) (MkSys (Deadman.watched false) []) s ∧ finished_ops s = true
  ∧ fst <$> threads s = [OMonitor Deadman.OScan; OMonitor Deadman.OScan]
  ∧ Deadman.pages "t" "d" (state s) = 2%nat.
Proof.
  set (acts := [Start (OMonitor Deadman.OScan); Start (OMonitor Deadman.OScan)]
    ++ calls 0 2 200 ++ calls 1 2 201 ++ calls 0 5 202 ++ calls 1 5 203).
  destruct (play_check (λ s, finished_ops s = true
  ∧ fst <$> threads s = [OMonitor Deadman.OScan; OMonitor Deadman.OScan]
  ∧ Deadman.pages "t" "d" (state s) = 2%nat)
    acts (MkSys (Deadman.watched false) [])) as (s & Hs & Hc); [vm_compute; reflexivity|].
  exists s. split; [by eapply play_steps|exact Hc].
Qed.

(** A switch removed while a scan is at work comes back: the scan saves the row it listed. *)
Theorem removed_switch_returns : ∃ s,
  rtc (step (λ _, True)) (MkSys (Deadman.watched false) []) s ∧ finished_ops s = true
  ∧ fst <$> threads s = [OMonitor Deadman.OScan; OMonitor (Deadman.ORemove "t" "d")]
  ∧ Deadman.alerted "t" "d" (state s) = true.
Proof.
  set (acts := [Start (OMonitor Deadman.OScan)] ++ calls 0 2 200
    ++ [Start (OMonitor (Deadman.ORemove "t" "d"))] ++ calls 1 1 201 ++ calls 0 5 202).
  destruct (play_check (λ s, finished_ops s = true
  ∧ fst <$> threads s = [OMonitor Deadman.OScan; OMonitor (Deadman.ORemove "t" "d")]
  ∧ Deadman.alerted "t" "d" (state s) = true)
    acts (MkSys (Deadman.watched false) [])) as (s & Hs & Hc); [vm_compute; reflexivity|].
  exists s. split; [by eapply play_steps|exact Hc].
Qed.

(** An alert of tenant [t] without a device, due at [next] seconds. *)
Definition plain_row (id : string) (created next : Z) : alert_row :=
  MkAlert id "t" "c" "" "sos" "" AlertStateTriggered 0 0 "" None (Some next) (Some created) (Some created).

Definition impatient : world :=
  MkWorld [plain_row "x" 100 100] [MkChain "c" "t" "now" [MkTier "sms" ["a"] 0 3] 0] [] [] [] [] [] [] [] [].

(** The condition of [one_replica_per_due_time] is needed: with a tier that waits zero
    seconds (which the interface accepts) a step can end in the second it began, so the
    store's times do not tell a replica with an old listing that the step is done, and two
    replicas page the same step from the same due time. *)
Theorem zero_wait_pages_twice : ∃ s,
  rtc (step (λ _, True)) (MkSys impatient []) s ∧ finished_ops s = true
  ∧ used "x" (state s) = [Some 100; Some 100] ∧ step_of <$> sent (state s) = [(1, 1); (1, 1)].
Proof.
  set (acts := [Start OProcess; Start OProcess] ++ calls 0 2 100 ++ calls 1 2 100 ++ calls 0 4 100 ++ calls 1 4 100).
  destruct (play_check (λ s, finished_ops s = true
  ∧ used "x" (state s) = [Some 100; Some 100] ∧ step_of <$> sent (state s) = [(1, 1); (1, 1)])
    acts (MkSys impatient [])) as (s & Hs & Hc); [vm_compute; reflexivity|].
  exists s. split; [by eapply play_steps|exact Hc].
Qed.

(** The clock readings of a schedule, in nanoseconds. *)
Definition readings (acts : list action) : list Z :=
  omap (λ a, match a with Call _ _ now => Some now | Start _ => None end) acts.

Definition two_due : world :=
  MkWorld [plain_row "y" 50 50; plain_row "x" 100 100] [MkChain "c" "t" "one" [MkTier "sms" ["a"] 60 3] 0] [] [] [] [] [] [] [] [].

(** A lease can be granted already expired: the round reads the clock once, before its
    first alert, so after a notification that takes three minutes the next alert's two-minute
    lease lies in the past.  A second replica that looks a second later takes the same step:
    one step is paged twice within seconds, though every tier waits a minute. *)
Theorem lease_granted_expired : ∃ acts1 acts2 s1 s2,
  play acts1 (MkSys two_due []) = Some s1 ∧ play acts2 s1 = Some s2
  ∧ Forall waits (chains two_due) ∧ Sorted Z.le (readings (acts1 ++ acts2))
  ∧ notified "y" (state s1) = 0%nat
  ∧ Forall (λ now, 300 * second <= now <= 302 * second) (readings acts2)
  ∧ step_of <$> List.filter (about "y") (sent (state s2)) = [(1, 1); (1, 1)].
Proof.
  set (acts1 := [Start OProcess] ++ calls 0 4 100 ++ calls 0 2 299).
  set (acts2 := calls 0 3 300 ++ [Start OProcess] ++ calls 1 9 301).
  destruct (play_check (λ s, notified "y" (state s) = 0%nat) acts1 (MkSys two_due []))
    as (s1 & H1 & Hn); [vm_compute; reflexivity|].
  destruct (play_check (λ s, step_of <$> List.filter (about "y") (sent (state s)) = [(1, 1); (1, 1)])
    (acts1 ++ acts2) (MkSys two_due [])) as (s2 & H2 & Hst); [vm_compute; reflexivity|].
  rewrite play_app, H1 in H2. exists acts1, acts2, s1, s2.
  split; [done|]. split; [done|]. split; [|split; [|split; [done|split; [|done]]]].
  all: apply (bool_decide_unpack _); vm_compute; exact I.
Qed.

(** ** Witnesses *)

Definition calm : world :=
  MkWorld [plain_row "x" 100 100] [MkChain "c" "t" "one" [MkTier "sms" ["a"] 60 3] 0] [] [] [] [] [] [] [] [].

Lemma closed_stays_closed_witness : ∃ s s',
  rtc (step (λ _, True)) (MkSys calm []) s ∧ rtc (step (λ _, True)) s s'
  ∧ settled_in "x" (state s') ∧ (notified "x" (state s') <= notified "x" (state s) + length (threads s))%nat.
Proof.
  destruct (play_check (λ s, settled <$> (State <$> row_of "x" (alerts (state s))) = Some true)
    ([Start OProcess] ++ calls 0 4 100 ++ [Start (OAcknowledge "t" "x" "op")] ++ calls 1 3 101) (MkSys calm []))
    as (s & Hs & Hset); [vm_compute; reflexivity|].
  destruct (play_check (λ s, notified "x" (state s) = 1%nat)
    (([Start OProcess] ++ calls 0 4 100 ++ [Start (OAcknowledge "t" "x" "op")] ++ calls 1 3 101) ++ calls 0 2 102)
    (MkSys calm [])) as (s' & Hs' & _); [vm_compute; reflexivity|].
  rewrite play_app, Hs in Hs'. exists s, s'.
  assert (H1 : rtc (step (λ _, True)) (MkSys calm []) s) by (by eapply play_steps).
  assert (H2 : rtc (step (λ _, True)) s s') by (by eapply play_steps).
  split; [exact H1|]. split; [exact H2|].
  apply (closed_stays_closed calm s s' "x").
  - apply (bool_decide_unpack _). vm_compute. exact I.
  - exact H1.
  - unfold settled_in. destruct (row_of "x" (alerts (state s))) as [r|]; [|discriminate].
    exists r. split; [reflexivity|]. injection Hset as Hset. exact Hset.
  - exact H2.
Defined.

Lemma one_replica_per_due_time_witness : ∃ s,
  rtc (step waits) (MkSys calm []) s ∧ used "x" (state s) = [Some 100] ∧ NoDup (used "x" (state s)).
Proof.
  destruct (play_check (λ s, used "x" (state s) = [Some 100])
    ([Start OProcess; Start OProcess] ++ calls 0 2 100 ++ calls 1 2 100 ++ calls 0 4 100 ++ calls 1 2 100)
    (MkSys calm [])) as (s & Hs & Hu); [vm_compute; reflexivity|].
  exists s. assert (H1 : rtc (step waits) (MkSys calm []) s) by (by eapply play_steps).
  split; [exact H1|]. split; [exact Hu|]. apply (one_replica_per_due_time calm s "x").
  - apply (bool_decide_unpack _). vm_compute. exact I.
  - apply (bool_decide_unpack _). vm_compute. exact I.
  - reflexivity.
  - exact H1.
Defined.

Lemma raised_once_witness : ∃ s, rtc (step (λ _, True)) (MkSys calm []) s
  ∧ threads s !! 0%nat = Some (OTriggerOnce "t" (sample_alert "z"), Ret (Ok true)) ∧ 0%nat = 0%nat.
Proof.
  assert (∃ s, play ([Start (OTriggerOnce "t" (sample_alert "z")); Start (OTriggerOnce "t" (sample_alert "z"))]
      ++ calls 0 1 100 ++ calls 1 1 100 ++ calls 0 2 100 ++ calls 1 3 100) (MkSys calm []) = Some s
      ∧ threads s !! 0%nat = Some (OTriggerOnce "t" (sample_alert "z"), Ret (Ok true))) as (s & Hp & Ht).
  { eexists. split; [vm_compute; reflexivity|reflexivity]. }
  assert (H1 : rtc (step (λ _, True)) (MkSys calm []) s) by (by eapply play_steps).
  exists s. split; [exact H1|]. split; [exact Ht|].
  refine (raised_once calm s 0 0 "t" (sample_alert "z") "t" (sample_alert "z") _ H1 Ht Ht eq_refl).
  apply (bool_decide_unpack _). vm_compute. exact I.
Defined.

Lemma closed_when_told_witness : ∃ s, rtc (step (λ _, True)) (MkSys calm []) s ∧ settled_in "z" (state s).
Proof.
  assert (∃ s, play ([Start (OClose "t" (sample_alert "z") "op"); Start (OTriggerOnce "t" (sample_alert "z"))]
      ++ calls 0 2 100 ++ calls 1 3 100 ++ calls 0 4 100) (MkSys calm []) = Some s
      ∧ threads s !! 0%nat = Some (OClose "t" (sample_alert "z") "op", Ret (Ok true))) as (s & Hp & Ht).
  { eexists. split; [vm_compute; reflexivity|reflexivity]. }
  assert (H1 : rtc (step (λ _, True)) (MkSys calm []) s) by (by eapply play_steps).
  exists s. split; [exact H1|]. refine (closed_when_told calm s 0 _ true "z" _ H1 Ht _).
  - apply (bool_decide_unpack _). vm_compute. exact I.
  - left. eexists _, _, _. split; reflexivity.
Defined.

End AlertSystem.
