(* ===== verification/SosSystem.v ===== *)
(** SOS runs under any interleaving: what [internal/sos/runs.go] promises with the alert work
    it records in the run's row.  The system is that of [AlertSystem], with every operation
    of the engine, the monitor and the SOS packages running against one store. *)
From S2P Require Import Prelude SosTable AlertStore Escalation Sos AlertSystem.

Module SosSystem.
Import AlertStore Escalation AlertSystem.

(** ** How a row of the runs can change *)

(** A later version of the same row. *)
Definition evolves (r r' : run_row) : Prop :=
  key r' = key r ∧ BridgeID r' = BridgeID r ∧ Rev r <= Rev r' ∧ (Rev r' = Rev r → rState r' = rState r)
  ∧ follows_state (rState r) (rState r').

Lemma evolves_refl r : evolves r r.
Proof. unfold evolves, follows_state. split_and!; (done || lia). Qed.

Lemma evolves_trans r1 r2 r3 : evolves r1 r2 → evolves r2 r3 → evolves r1 r3.
Proof.
  intros (K1 & B1 & V1 & E1 & F1) (K2 & B2 & V2 & E2 & F2). unfold evolves, follows_state in *.
  split_and!; try congruence; [lia| |auto]. intros H. rewrite E2, E1 by lia. done.
Qed.

(** A call that clears the owed work of row [r], or records its alert. *)
Definition clears {X} (c : call X) (r : run_row) : Prop :=
  match c with CClearSOSRunAlertPending t o s rev => key r = (t, o, s) ∧ Rev r = rev | _ => False end.

Definition records {X} (c : call X) (r : run_row) (a : string) : Prop :=
  match c with CSetSOSRunAlert t o s a' => key r = (t, o, s) ∧ a = a' | _ => False end.

(** What happens to a row in a call: it evolves, work stays owed unless it is cleared, and
    its alert stays unless it is recorded. *)
Definition changed {X} (c : call X) (r r' : run_row) : Prop :=
  evolves r r'
  ∧ (AlertPending r' = false → (AlertPending r = false ∧ rState r' = rState r) ∨ (clears c r ∧ rState r' = rState r))
  ∧ (rAlertID r' = rAlertID r ∨ records c r (rAlertID r')).

(** The row of an event that found none. *)
Definition fresh (r : run_row) : Prop := AlertPending r = true ∧ rAlertID r = "".

Lemma changed_refl {X} (c : call X) r : changed c r r.
Proof. unfold changed. split_and!; [apply evolves_refl|auto|auto]. Qed.

(** The rows after a call come from those before. *)
Definition runs_step {X} (c : call X) (t t' : list run_row) : Prop :=
  unique_runs t' ∧ (∀ r, r ∈ t → ∃ r', r' ∈ t' ∧ changed c r r')
  ∧ (∀ r', r' ∈ t' → fresh r' ∨ ∃ r, r ∈ t ∧ changed c r r').

Lemma runs_step_refl {X} (c : call X) t : unique_runs t → runs_step c t t.
Proof. intros Hu. split_and!; [done| |]; intros r Hr; [|right]; exists r; split; try done; apply changed_refl. Qed.

Lemma runs_step_map {X} (c : call X) (g : run_row → run_row) t : unique_runs t →
  (∀ r, r ∈ t → changed c r (g r)) → runs_step c t (g <$> t).
Proof.
  intros Hu Hg. split_and!.
  - unfold unique_runs. rewrite <- list_fmap_compose. erewrite list_fmap_ext; [exact Hu|].
    intros i r Hr. apply (Hg r). by eapply list_elem_of_lookup_2.
  - intros r Hr. exists (g r). split; [by apply list_elem_of_fmap_2|auto].
  - intros r' (r & -> & Hr)%list_elem_of_fmap. right. eauto.
Qed.

(** The row [GetSOSRun] reads is the only one with its key. *)
Lemma GetSOSRun_row tn o s t run : unique_runs t → GetSOSRun tn o s t = Some run →
  ∃ r, r ∈ t ∧ key r = (tn, o, s) ∧ run = scanSOSRun r ∧ ∀ q, q ∈ t → has_key tn o s q = true → q = r.
Proof.
  intros Hu H. unfold GetSOSRun in H. destruct (run_cases tn o s t Hu) as [(t1 & r & t2 & -> & Hk & H1 & H2)|Hn].
  - rewrite filter_split in H by (done || by apply has_key_spec). injection H as <-. exists r.
    split_and!; [by apply elem_of_app; right; left|done|done|]. intros q Hq Hkq.
    rewrite elem_of_app, elem_of_cons in Hq. rewrite Forall_forall in H1, H2.
    destruct Hq as [Hq|[Hq|Hq]]; [|done|]; [apply H1 in Hq|apply H2 in Hq]; congruence.
  - by rewrite filter_none in H.
Qed.

Lemma apply_step ev now t : unique_runs t → let p := ApplySOSRunEvent ev now t in
  runs_step (CApplySOSRunEvent ev) t (fst p)
  ∧ (∃ r, r ∈ fst p ∧ key r = key (aRun (snd p)) ∧ BridgeID r = BridgeID (aRun (snd p))
       ∧ Rev r = Rev (aRun (snd p)) ∧ rState r = rState (aRun (snd p)))
  ∧ (eKind ev = SOSEventCancel → rState (aRun (snd p)) = SOSRunCancelled).
Proof.
  intros Hu p. subst p. unfold ApplySOSRunEvent. set (ev' := if eAt ev =? 0 then _ else ev).
  assert (Hk : eKind ev' = eKind ev ∧ eTenantID ev' = eTenantID ev ∧ eOrigin ev' = eOrigin ev ∧ eSOSID ev' = eSOSID ev)
    by (subst ev'; by case_if).
  destruct Hk as (Hk & _). rewrite <- Hk. clear Hk. generalize ev'. clear ev'. intros ev'.
  destruct (GetSOSRun _ _ _ t) as [run|] eqn:E.
  - apply GetSOSRun_row in E as (r & Hr & Hkey & -> & Hone); [|done].
    destruct (ApplySOSEvent (scanSOSRun r) ev') as [run ended] eqn:Ea.
    pose proof (ApplySOSEvent_key (scanSOSRun r) ev') as Hkr. rewrite Ea in Hkr. cbn [fst] in Hkr.
    destruct (ApplySOSEvent_spec _ _ _ _ Ea) as (Hrev & Hst & Hb & Hp & Hc & _). cbn [fst snd aRun].
    assert (Hkr' : key run = key r) by (by rewrite Hkr).
    assert (Hkey' : has_key (rTenantID run) (rOrigin run) (SOSID run) r = true) by (by apply has_key_spec).
    assert (Hch : changed (CApplySOSRunEvent ev) r (set_run run r)).
    { cbn in Hrev, Hst, Hb, Hp. unfold changed, evolves. cbn. split_and!; try done; try lia.
      - left. by apply Hp.
      - by left. }
    split_and!; [| |done].
    + apply runs_step_map; [done|]. intros q Hq. case_match eqn:Hq'; [|apply changed_refl].
      apply has_key_spec in Hq'. assert (q = r) as ->; [|done]. apply Hone; [done|].
      apply has_key_spec. change (key q = key run) in Hq'. congruence.
    + exists (set_run run r). split_and!; [|by symmetry|by rewrite Hb|done|done].
      apply list_elem_of_fmap. exists r. by rewrite Hkey'.
  - cbn [fst snd aRun]. assert (Hfresh : key (sosRunArgs (NewSOSRun ev')) = (eTenantID ev', eOrigin ev', eSOSID ev')).
    { unfold NewSOSRun. by case_if. }
    destruct (run_cases (eTenantID ev') (eOrigin ev') (eSOSID ev') t Hu) as [(t1 & r & t2 & -> & Hk & H1 & H2)|Hn].
    { unfold GetSOSRun in E. rewrite filter_split in E by (done || by apply has_key_spec). done. }
    unfold runs_step. split_and!.
    + unfold unique_runs. rewrite fmap_app. apply NoDup_app. split_and!; [done| |apply NoDup_singleton].
      intros k (q & -> & Hq)%list_elem_of_fmap Hk%list_elem_of_singleton.
      rewrite Forall_forall in Hn. apply Hn in Hq. apply has_key_false in Hq. by rewrite Hk, Hfresh in Hq.
    + intros r Hr. exists r. split; [apply elem_of_app; by left|apply changed_refl].
    + intros r' [Hr|Hr%list_elem_of_singleton]%elem_of_app; [|subst r'].
      * right. exists r'. split; [done|apply changed_refl].
      * left. unfold NewSOSRun, fresh. by case_if.
    + exists (sosRunArgs (NewSOSRun ev')). split_and!; try done. apply elem_of_app. right. by apply list_elem_of_singleton.
    + unfold NewSOSRun. intros ->. done.
Qed.

(** Every call, with every fault, takes the runs one such step. *)
Lemma handle_runs X (c : call X) f now w : unique_runs (sos_runs w) →
  runs_step c (sos_runs w) (sos_runs (fst (handle f now c w))).
Proof.
  intros Hu. pose proof (runs_step_refl c _ Hu) as Hsame.
  destruct c; cbn -[ApplySOSRunEvent SetSOSRunAlert ClearSOSRunAlertPending]; try (by destruct f).
  - by destruct (CreateAlert _ _ _), f.
  - pose proof (apply_step ev now (sos_runs w) Hu) as (H & _). by destruct f.
  - assert (H : runs_step (CSetSOSRunAlert tenantID origin sosID alertID) (sos_runs w)
      (fst (SetSOSRunAlert tenantID origin sosID alertID now (sos_runs w)))).
    { apply runs_step_map; [done|]. intros r Hr. case_match eqn:Hk; [|apply changed_refl].
      apply has_key_spec in Hk. unfold changed, evolves, follows_state. cbn. split_and!; auto; lia. }
    by destruct f.
  - assert (H : runs_step (CClearSOSRunAlertPending tenantID origin sosID rev) (sos_runs w)
      (fst (ClearSOSRunAlertPending tenantID origin sosID rev (sos_runs w)))).
    { apply runs_step_map; [done|]. intros r Hr. case_match eqn:Hk; [|apply changed_refl].
      apply andb_true_iff in Hk as [Hk%has_key_spec Hv%Z.eqb_eq].
      unfold changed, evolves, follows_state. cbn. split_and!; auto; lia. }
    by destruct f.
Qed.

(** ** Cancelled is final *)

Lemma step_runs good s s' : step good s s' → unique_runs (sos_runs (state s)) →
  unique_runs (sos_runs (state s'))
  ∧ ∀ r, r ∈ sos_runs (state s) → ∃ r', r' ∈ sos_runs (state s') ∧ evolves r r'.
Proof.
  intros Hst Hu. assert (Hsame : ∀ r, r ∈ sos_runs (state s) → ∃ r', r' ∈ sos_runs (state s) ∧ evolves r r').
  { intros r Hr. exists r. split; [done|apply evolves_refl]. }
  destruct Hst as [o s|i f now s s' Hfire| | | ]; try done.
  unfold fire in Hfire. destruct (threads s !! i) as [[o [r|X c k]]|]; try done.
  pose proof (handle_runs X c f now (state s) Hu) as (H1 & H2 & _).
  destruct (handle f now c (state s)) as [w x]. injection Hfire as <-. split; [done|].
  intros r Hr. destruct (H2 r Hr) as (r' & Hr' & Hc & _). eauto.
Qed.

(** ** What an operation knows of the runs *)

(** A run as an answer reported it: its row is still there, has counted at least as many
    events, has the same state if no more, and is cancelled if it was. *)
Definition holds_run (w : world) (run : SOSRun) : Prop :=
  ∃ r, r ∈ sos_runs w ∧ key r = key run ∧ BridgeID r = BridgeID run ∧ Rev run <= Rev r
       ∧ (Rev r = Rev run → rState r = rState run) ∧ follows_state (rState run) (rState r).

Definition known {X} (c : call X) : X → list SOSRun :=
  match c with
  | CApplySOSRunEvent _ => λ x, match x with Ok ap => [aRun ap] | Err _ => [] end
  | CGetSOSRun _ _ _ => λ x, match x with Ok run => [run] | Err _ => [] end
  | CFindSOSRuns _ _ => λ x, match x with Ok runs => runs | Err _ => [] end
  | CListSOSRunsAlertPending _ => λ x, match x with Ok runs => runs | Err _ => [] end
  | _ => λ _, []
  end.

(** An acknowledgement that reports [run] after an event of [kind]. *)
Definition acknowledges (m : message) (run : SOSRun) : Prop :=
  match mBody m with
  | PAck _ sosID kind st rev =>
      mTenant m = rTenantID run ∧ mSubject m = BridgeID run ∧ sosID = SOSID run ∧ st = rState run ∧ rev = Rev run
      ∧ (kind = SOSEventCancel → st = SOSRunCancelled)
  | _ => False
  end.

Definition is_ack (m : message) : bool := match mBody m with PAck _ _ _ _ _ => true | _ => false end.

Notation ghost := (list fact * list SOSRun)%type.

(** Owed work is cleared only for a known run whose alert is shut if it is cancelled; an
    alert is recorded only when it exists; an acknowledgement reports a known run. *)
Definition owing : protocol ghost := {|
  pre g X c :=
    pre learning (fst g) X c ∧
    match c with
    | CClearSOSRunAlertPending t o s rev =>
        ∃ run, run ∈ snd g ∧ key run = (t, o, s) ∧ Rev run = rev
               ∧ (rState run = SOSRunCancelled → FShut (Sos.AlertID t o s) ∈ fst g)
    | CSetSOSRunAlert t o s a => a = Sos.AlertID t o s ∧ (FCreated a ∈ fst g ∨ FFound t a ∈ fst g)
    | CPublish m => is_ack m = true → ∃ run, run ∈ snd g ∧ acknowledges m run
    | _ => True
    end;
  resp X c x :=
    resp learning X c x ∧
    match c, x with
    | CApplySOSRunEvent ev, Ok ap => eKind ev = SOSEventCancel → rState (aRun ap) = SOSRunCancelled
    | CGetSOSRun t o s, Ok run => key run = (t, o, s)
    | _, _ => True
    end;
  next g X c x := (next learning (fst g) X c x, known c x ++ snd g) |}.

Lemma row_known w r : r ∈ sos_runs w → holds_run w (scanSOSRun r).
Proof. intros Hr. exists r. unfold follows_state. cbn. split_and!; (done || lia). Qed.

Lemma holds_run_call X (c : call X) f now w run : unique_runs (sos_runs w) →
  holds_run w run → holds_run (fst (handle f now c w)) run.
Proof.
  intros Hu (r & Hr & Hk & Hb & Hv & He & Hf). destruct (handle_runs X c f now w Hu) as (_ & H & _).
  destruct (H r Hr) as (r' & Hr' & (Hk' & Hb' & Hv' & He' & Hf') & _). exists r'.
  unfold follows_state in *. split_and!; try congruence; [lia| |auto].
  intros E. rewrite He', He by lia. done.
Qed.

Lemma known_true X (c : call X) f now w w' x : unique_runs (sos_runs w) → handle f now c w = (w', x) →
  Forall (holds_run w') (known c x)
  ∧ match c, x with
    | CApplySOSRunEvent ev, Ok ap => eKind ev = SOSEventCancel → rState (aRun ap) = SOSRunCancelled
    | CGetSOSRun t o s, Ok run => key run = (t, o, s)
    | _, _ => True
    end.
Proof.
  intros Hu Hh. assert (Hrows : ∀ l, (∀ r, r ∈ l → r ∈ sos_runs w') → Forall (holds_run w') (scanSOSRun <$> l)).
  { intros l Hl. apply Forall_forall. intros run (r & -> & Hr)%list_elem_of_fmap. by apply row_known, Hl. }
  destruct c; cbn [known]; try (split; [constructor|done]); cbn -[ApplySOSRunEvent GetSOSRun FindSOSRuns ListSOSRunsAlertPending] in Hh.
  - destruct x as [ap|e]; [|split; [constructor|done]]. destruct f; try done. injection Hh as <- <-.
    destruct (apply_step ev now (sos_runs w) Hu) as (_ & (r & Hr & Hk & Hb & Hv & Hst) & Hc). split; [|done].
    apply Forall_singleton. exists r. unfold follows_state. cbn. split_and!; try done; [lia|congruence].
  - destruct x as [run|e]; [|split; [constructor|done]]. destruct f; try done. injection Hh as <- Hx.
    destruct (GetSOSRun _ _ _ _) as [run'|] eqn:E; [|done]. injection Hx as ->.
    apply GetSOSRun_row in E as (r & Hr & Hk & -> & _); [|done]. split; [|done].
    apply Forall_singleton. by apply row_known.
  - destruct x as [runs|e]; [|split; [constructor|done]]. destruct f; try done. injection Hh as <- <-. split; [|done].
    apply Hrows. intros r Hr. rewrite merge_sort_Permutation in Hr.
    apply list_elem_of_In, List.filter_In in Hr as [Hr _]. by apply list_elem_of_In.
  - destruct x as [runs|e]; [|split; [constructor|done]]. destruct f; try done. injection Hh as <- <-. split; [|done].
    apply Hrows. intros r Hr%elem_of_take. destruct Hr as (i & Hr & _). apply list_elem_of_lookup_2 in Hr.
    rewrite merge_sort_Permutation in Hr. apply list_elem_of_In, List.filter_In in Hr as [Hr _]. by apply list_elem_of_In.
Qed.

(** ** The invariant *)

(** A cancelled run that owes no work has its alert shut; a recorded alert is the run's own
    and exists. *)
Definition run_ok (w : world) (r : run_row) : Prop :=
  (rState r = SOSRunCancelled → AlertPending r = false → settled_in (Sos.alert_of r) w)
  ∧ (rAlertID r ≠ "" → rAlertID r = Sos.alert_of r ∧ row_of (Sos.alert_of r) (alerts w) ≠ None).

Definition ack_ok (w : world) (m : message) : Prop := is_ack m = true → ∃ run, holds_run w run ∧ acknowledges m run.

Definition sos_ok (w : world) : Prop :=
  unique_ids (alerts w) ∧ unique_runs (sos_runs w) ∧ Forall (run_ok w) (sos_runs w) ∧ Forall (ack_ok w) (published w).

Definition obliged (gs : list ghost) (w : world) : Prop :=
  truthful (fst <$> gs) w ∧ sos_ok w ∧ Forall (λ g, Forall (holds_run w) (snd g)) gs.

Lemma alert_of_key {T U} (r : SOSRunOf T) (r' : SOSRunOf U) : key r = key r' → Sos.alert_of r = Sos.alert_of r'.
Proof. unfold key, Sos.alert_of. intros [= -> -> ->]. done. Qed.

(** The alerts of the runs after a call. *)
Lemma run_ok_call X (c : call X) g f now w :
  sos_ok w → Forall (holds w) (fst g) → Forall (holds_run w) (snd g) → pre owing g X c →
  Forall (run_ok (fst (handle f now c w))) (sos_runs (fst (handle f now c w))).
Proof.
  intros (Hids & Hu & Hok & _) Hfacts Hruns [Hpre Hc]. set (w' := fst (handle f now c w)).
  assert (Hkeep : ∀ fa, holds w fa → holds w' fa) by (intros fa; by apply (holds_call X c (fst g))).
  pose proof (proj1 (Forall_forall _ _) Hok) as Hok'. pose proof (proj1 (Forall_forall _ _) Hfacts) as Hfacts'.
  pose proof (proj1 (Forall_forall _ _) Hruns) as Hruns'.
  apply Forall_forall. intros r' Hr'. destruct (handle_runs X c f now w Hu) as (_ & _ & H).
  destruct (H r' Hr') as [[Hp Ha]|(r & Hr & Hev & Hp & Ha)]; [split; congruence|].
  destruct Hev as (Hk & _). unfold run_ok. rewrite (alert_of_key r' r Hk). destruct (Hok' r Hr) as [H1 H2]. split.
  - intros Hst Hnp. destruct (Hp Hnp) as [[Hnp' Hst']|[Hcl Hst']].
    { apply (Hkeep (FShut _)), H1; congruence. }
    destruct c; try done. destruct Hcl as [Hkr Hrev].
    destruct Hc as (run & Hrun & Hkrun & Hrevrun & Hshut). destruct (Hruns' run Hrun) as (q & Hq & Hkq & _ & _ & He & _).
    assert (q = r) as -> by (apply (unique_run (sos_runs w)); congruence).
    apply (Hkeep (FShut _)), Hfacts'. unfold Sos.alert_of. injection Hkr as -> -> ->. apply Hshut.
    rewrite <- He by congruence. congruence.
  - intros Hne. destruct Ha as [Ha|Ha].
    { rewrite Ha in Hne |- *. destruct (H2 Hne) as [H3 H4]. split; [done|]. by apply (Hkeep (FCreated _)). }
    destruct c; try done. destruct Ha as [Hkr ->], Hc as [-> Hex]. unfold Sos.alert_of. injection Hkr as -> -> ->.
    split; [done|]. destruct Hex as [Hex|Hex]; apply Hfacts' in Hex; apply Hkeep in Hex; [done|].
    cbn in Hex. apply GetAlert_exists in Hex as (a & Hin & <- & _). intros Hn%row_of_None.
    rewrite Forall_forall in Hn. by apply (Hn a).
Qed.

Lemma ack_ok_call X (c : call X) g f now w :
  sos_ok w → Forall (holds_run w) (snd g) → pre owing g X c →
  Forall (ack_ok (fst (handle f now c w))) (published (fst (handle f now c w))).
Proof.
  intros (_ & Hu & _ & Hacks) Hruns [_ Hc]. set (w' := fst (handle f now c w)).
  assert (Hold : ∀ m, m ∈ published w → ack_ok w' m).
  { intros m Hm Ha. destruct (proj1 (Forall_forall _ _) Hacks m Hm Ha) as (run & Hrun & Hack).
    exists run. split; [by apply holds_run_call|done]. }
  assert (Hpub : published w' = published w
    ∨ ∃ m, published w' = published w ++ [m] ∧ (is_ack m = true → ∃ run, run ∈ snd g ∧ acknowledges m run)).
  { destruct c; subst w'; try (left; by destruct f).
    - left. cbn. by destruct (CreateAlert _ _ _), f.
    - destruct f; [right|by left|right]; by exists m. }
  apply Forall_forall. intros m Hm. destruct Hpub as [E|(m' & E & Hm')]; rewrite E in Hm; [by apply Hold|].
  apply elem_of_app in Hm as [Hm| ->%list_elem_of_singleton]; [by apply Hold|].
  intros Ha. destruct (Hm' Ha) as (run & Hrun & Hack). exists run. split; [|done].
  apply holds_run_call; [done|]. by apply (proj1 (Forall_forall _ _) Hruns).
Qed.

Lemma obliged_call gs i g X (c : call X) f now w w' x :
  gs !! i = Some g → pre owing g X c → obliged gs w → handle f now c w = (w', x) →
  resp owing X c x ∧ obliged (<[i := next owing g X c x]> gs) w'.
Proof.
  intros Hg Hpre (Htr & Hok & Hall) Hh. pose proof Hok as (Hids & Hu & _).
  destruct (truthful_call (fst <$> gs) i (fst g) X c f now w w' x) as [Hr Htr'];
    [by rewrite list_lookup_fmap, Hg|apply Hpre|done|done|].
  assert (Hfacts : Forall (holds w) (fst g)).
  { destruct Htr as (_ & H & _). eapply (Forall_lookup_1 _ _ i _ H). by rewrite list_lookup_fmap, Hg. }
  pose proof (Forall_lookup_1 _ _ _ _ Hall Hg) as Hruns.
  destruct (known_true X c f now w w' x Hu Hh) as [Hknown Hresp]. split; [by split|].
  assert (Hold : ∀ g : ghost, Forall (holds_run w) (snd g) → Forall (holds_run w') (snd g)).
  { intros g' H. eapply Forall_impl; [exact H|]. intros run Hrun.
    pose proof (holds_run_call X c f now w run Hu Hrun) as H'. by rewrite Hh in H'. }
  unfold obliged. rewrite list_fmap_insert. split_and!; [done| |].
  - pose proof (run_ok_call X c g f now w Hok Hfacts Hruns Hpre) as H1.
    pose proof (ack_ok_call X c g f now w Hok Hruns Hpre) as H2.
    pose proof (handle_runs X c f now w Hu) as (H3 & _). pose proof (handle_unique_ids c f now w Hids) as H4.
    rewrite Hh in H1, H2, H3, H4. by split_and!.
  - apply Forall_insert; [|apply Forall_app; split; [done|by apply Hold]].
    eapply Forall_impl; [exact Hall|]. intros g' H. by apply Hold.
Qed.

(** ** The operations keep it *)

Definition grows (g g' : ghost) : Prop := fst g ⊆ fst g' ∧ snd g ⊆ snd g'.

Lemma grows_refl g : grows g g.
Proof. by split. Qed.

Lemma grows_trans g1 g2 g3 : grows g1 g2 → grows g2 g3 → grows g1 g3.
Proof. intros [H1 H2] [H3 H4]. split; by etransitivity. Qed.

Lemma learning_grows facts X (c : call X) x : facts ⊆ next learning facts X c x.
Proof.
  destruct c; cbn; try done; destruct x as [v|]; try done.
  - intros fa H. right. apply elem_of_app. by right.
  - intros fa H. right. apply elem_of_app. by right.
  - case_decide; [|done]. intros fa Hfa. by right.
Qed.

(** Calls that neither clear nor record nor acknowledge. *)
Definition plain : ∀ X, call X → Prop := λ X c,
  match c with
  | CClearSOSRunAlertPending _ _ _ _ | CSetSOSRunAlert _ _ _ _ => False
  | CPublish m => is_ack m = false
  | _ => True
  end.

Lemma own_plain {R} (p : prog R) : always own p → always plain p.
Proof. apply always_mono. by intros X []. Qed.

(** What a program promises of the alerts it promises here too. *)
Lemma obeys_lift {R} (p : prog R) : ∀ g (Q : list fact → R → Prop),
  obeys learning (fst g) p Q → always plain p → obeys owing g p (λ g' r, Q (fst g') r ∧ grows g g').
Proof.
  induction p as [r|X c k IH]; cbn; intros g Q; [intros H _; split; [done|apply grows_refl]|].
  intros [Hc Hk] [Hp Ha]. split; [split; [done|]|].
  - destruct c; try done. cbn in Hp. congruence.
  - intros x [Hx _]. eapply obeys_mono; [|apply IH; [by apply Hk|done]].
    intros g' r [HQ Hg]. split; [done|]. eapply grows_trans; [|exact Hg].
    split; [apply learning_grows|]. cbn. intros run H. apply elem_of_app. by right.
Qed.

Lemma obeys_lift_quiet {R} (p : prog R) g : always quiet p → always plain p → obeys owing g p (λ g' _, grows g g').
Proof.
  intros Hq Hp. eapply obeys_mono; [|apply (obeys_lift p g (λ _ _, True)); [|done]]; [by intros g' r [_ H]|].
  apply (obeys_always learning (λ _, True)); [done| |done]. by intros g' X [].
Qed.

Lemma close_owing g t a b : obeys owing g (Close t a b) (λ g' x, (is_ok x = true → FShut (ID a) ∈ fst g') ∧ grows g g').
Proof.
  apply (obeys_lift _ g (λ fs x, is_ok x = true → FShut (ID a) ∈ fs)).
  - unfold Close. case_if; [done|]. apply close_promise.
  - apply own_plain, Close_own.
Qed.

Lemma trigger_owing g t a : obeys owing g (TriggerOnce t a)
  (λ g' x, (is_ok x = true → FCreated (ID a) ∈ fst g' ∨ FFound t (ID a) ∈ fst g') ∧ grows g g').
Proof.
  apply (obeys_lift _ g (λ fs x, is_ok x = true → FCreated (ID a) ∈ fs ∨ FFound t (ID a) ∈ fs)).
  - unfold TriggerOnce, Trigger. destruct (String.eqb (ID a) "") eqn:Hid; [done|]. cbn. split; [done|].
    intros [y|e] _; cbn; [intros _; right; left|]. cbn. split; [done|]. intros now _. split; [done|].
    intros [u|e'] _; cbn; [intros _; left; left|]. split; [done|]. intros [y|e''] _; cbn; [intros _; right; left|done].
  - apply own_plain, TriggerOnce_own.
Qed.

Lemma resolve_plain d t : always plain (Sos.resolveChainID d t).
Proof. unfold Sos.resolveChainID. walk. Qed.

Lemma chain_plain r t : always plain (Sos.chain r t).
Proof. unfold Sos.chain. case_match; [apply resolve_plain|done]. Qed.

Lemma chain_owing g r t : obeys owing g (Sos.chain r t) (λ g' _, grows g g').
Proof. apply obeys_lift_quiet; [apply chain_quiet|apply chain_plain]. Qed.

Lemma closeAlert_owing g r run : Sos.engine r = true →
  obeys owing g (Sos.closeAlert r run) (λ g' x, (is_ok x = true → FShut (Sos.alert_of run) ∈ fst g') ∧ grows g g').
Proof.
  intros He. unfold Sos.closeAlert. rewrite He. cbn [negb]. cbv zeta.
  apply obeys_bind. eapply obeys_mono; [|apply chain_owing]. intros g1 c Hg1. cbn beta.
  apply obeys_bind. eapply obeys_mono; [|apply close_owing]. intros g2 x [Hx Hg2]. cbn beta.
  destruct x; cbn; (split; [|exact (grows_trans _ _ _ Hg1 Hg2)]); [exact Hx|done].
Qed.

Lemma raise_owing g r run : Sos.engine r = true → obeys owing g (Sos.raise r run) (λ g' _, grows g g').
Proof.
  intros He. unfold Sos.raise. rewrite He. cbn [negb].
  apply obeys_bind. eapply obeys_mono; [|apply chain_owing]. intros g1 c Hg1. cbn beta. case_if; [done|]. cbv zeta.
  apply obeys_bind. eapply obeys_mono; [|apply trigger_owing]. intros g2 x [Hx Hg2]. cbn beta.
  pose proof (grows_trans _ _ _ Hg1 Hg2) as Hg. destruct x as [b|e]; [|done]. specialize (Hx eq_refl).
  cbn -[Sos.AlertID Sos.closeAlert next]. split; [split; [done|]; by split|]. intros y _.
  set (g3 := next owing g2 _ _ y). assert (H3 : grows g g3) by (eapply grows_trans; [exact Hg|by split]).
  destruct y as [u|e]; [|done]. cbn -[Sos.closeAlert next]. split; [done|]. intros z _.
  set (g4 := next owing g3 _ _ z).
  assert (H4 : grows g g4) by (eapply grows_trans; [exact H3|]; split; [done|]; intros q Hq; apply elem_of_app; by right).
  destruct z as [now|e]; [|done]. case_bool_decide; [|done].
  eapply obeys_mono; [|by apply closeAlert_owing]. intros g5 v [_ Hg5]. exact (grows_trans _ _ _ H4 Hg5).
Qed.

Lemma settle_owing g r run : Sos.engine r = true → run ∈ snd g →
  obeys owing g (Sos.settle r run) (λ g' _, grows g g').
Proof.
  intros He Hrun. unfold Sos.settle. apply obeys_bind.
  assert (Hsync : obeys owing g (Sos.syncAlert r run)
    (λ g' x, (is_ok x = true → rState run = SOSRunCancelled → FShut (Sos.alert_of run) ∈ fst g') ∧ grows g g')).
  { unfold Sos.syncAlert. case_bool_decide as Hs.
    - eapply obeys_mono; [|by apply closeAlert_owing]. intros g' x [Hx Hg]. split; [auto|done].
    - eapply obeys_mono; [|by apply raise_owing]. intros g' x Hg. split; [done|done]. }
  eapply obeys_mono; [|exact Hsync]. intros g1 x [Hx Hg]. cbn beta. destruct x as [u|e]; [|done]. cbn.
  split; [split; [done|]|].
  - exists run. split_and!; [by apply Hg|done|done|]. by apply Hx.
  - intros y _. exact Hg.
Qed.

(** A committed event: the run it reports is known, and cancelled after a cancel. *)
Definition committed (kind : string) (g g' : ghost) (x : result error SOSRunApplied) : Prop :=
  grows g g' ∧ match x with
               | Ok ap => aRun ap ∈ snd g' ∧ (kind = SOSEventCancel → rState (aRun ap) = SOSRunCancelled)
               | Err _ => True
               end.

Lemma retry_owing g (ev : Z → SOSRunEvent) kind n : (∀ now, eKind (ev now) = kind) → ∀ err g1, grows g g1 →
  obeys owing g1 (Sos.retry_loop n (now ← perform CNow; perform (CApplySOSRunEvent (ev now))) err) (committed kind g).
Proof.
  intros Hk. induction n as [|n IH]; intros err g1 Hg; [by split|]. cbn [Sos.retry_loop]. cbn -[Sos.retry_loop next].
  split; [done|]. intros now _. split; [done|]. intros x Hx.
  set (g2 := next owing _ _ (CApplySOSRunEvent _) x). assert (H2 : grows g g2).
  { eapply grows_trans; [exact Hg|]. split; [done|]. intros q Hq. apply elem_of_app. by right. }
  destruct x as [ap|e].
  - cbn in Hx. destruct Hx as [_ Hx]. split; [done|]. split; [|by rewrite Hk in Hx]. cbn. left.
  - case_match; [by split|]. cbn -[Sos.retry_loop next]. split; [done|]. intros [u|e'] _; [|by split].
    by apply IH.
Qed.

Lemma apply_owing g r ev o : Sos.engine r = true → obeys owing g (Sos.apply r ev o) (λ g' _, grows g g').
Proof.
  intros He. unfold Sos.apply, Sos.RetryShort. cbv zeta. apply obeys_bind.
  eapply obeys_mono; [|apply (retry_owing g _ (Sos.vKind ev)); [done|apply grows_refl]].
  intros g1 x [Hg1 Hx]. cbn beta. destruct x as [ap|e]; [|done]. destruct Hx as [Hrun Hc].
  apply obeys_bind. eapply (obeys_mono _ _ _ (λ g' _, grows g1 g')).
  2: { case_match; [|done]. apply obeys_bind. eapply obeys_mono; [|by apply settle_owing]. intros g' b Hg. exact Hg. }
  intros g2 _ Hg2. apply obeys_bind. eapply (obeys_mono _ _ _ (λ g' _, grows g1 g')).
  2: { case_match; [|done]. unfold Sos.tell. cbn. destruct (HasPosition _); cbn; (split; [done|intros _ _; exact Hg2]). }
  intros g3 _ Hg3. apply obeys_bind. eapply (obeys_mono _ _ _ (λ g' _, grows g1 g')).
  2: { case_match; [|done]. cbn. split; [split; [done|]|intros _ _; exact Hg3]. intros _. exists (aRun ap).
       split; [by apply Hg3|]. unfold acknowledges. cbn. split_and!; done. }
  intros g4 _ Hg4. apply obeys_bind. eapply (obeys_mono _ _ _ (λ g' _, grows g1 g')).
  2: { unfold Sos.log. case_match; [done|]. cbn. split; [done|intros _ _; exact Hg4]. }
  intros g5 _ Hg5. exact (grows_trans _ _ _ Hg1 Hg5).
Qed.

Lemma Apply_owing g r ev : Sos.engine r = true → obeys owing g (Sos.Apply r ev) (λ g' _, grows g g').
Proof. intros He. unfold Sos.Apply. case_if; [done|]. case_if; [done|]. by apply apply_owing. Qed.

(** Every replica that works on SOS runs has an escalation engine. *)
Definition has_engine (o : op) : Prop :=
  match o with
  | OSOS (Sos.OApply r _) | OSOS (Sos.OCancelRun r _ _ _) | OSOS (Sos.OReconcile r) | OSOS (Sos.OPageUnstored r _)
  | OSOS (Sos.OMQTT r _ _ _ _) => Sos.engine r = true
  | _ => True
  end.

Lemma cancel_all_owing r t u runs : Sos.engine r = true → ∀ out g,
  obeys owing g (Sos.cancel_all r t u runs out) (λ _ _, True).
Proof.
  intros He. induction runs as [|run runs IH]; intros out g; [done|]. cbn [Sos.cancel_all].
  apply obeys_bind. eapply obeys_mono; [|by apply apply_owing]. intros g' [ap|e] _; [apply IH|done].
Qed.

Lemma settle_all_owing r runs : Sos.engine r = true → ∀ n g, runs ⊆ snd g →
  obeys owing g (Sos.settle_all r runs n) (λ _ _, True).
Proof.
  intros He. induction runs as [|run runs IH]; intros n g Hin; [done|]. cbn [Sos.settle_all].
  apply obeys_bind. eapply obeys_mono; [|apply settle_owing; [done|apply Hin; left]].
  intros g' ok [_ Hg]. apply IH. intros q Hq. apply Hg, Hin. by right.
Qed.

Lemma sos_owing o : has_engine (OSOS o) → obeys owing ([], []) (Sos.op_prog o) (λ _ _, True).
Proof.
  intros He. destruct o; cbn [Sos.op_prog]; cbn in He.
  - apply obeys_bind. eapply obeys_mono; [|by apply Apply_owing]. done.
  - apply obeys_bind. unfold Sos.Cancel. cbn. split; [done|]. intros [[|run runs]|] _; [done| |done].
    eapply obeys_mono; [|by apply cancel_all_owing]. done.
  - apply obeys_bind. unfold Sos.Reconcile. cbn -[next]. split; [done|]. intros [runs|] _; [|done].
    apply obeys_bind. eapply obeys_mono; [|apply settle_all_owing; [done|]]; [done|].
    cbn. intros q Hq. apply elem_of_app. by left.
  - eapply obeys_mono; [|apply obeys_lift_quiet; [apply (sos_quiet (Sos.OPageUnstored r ev))|]]; [done|].
    pose proof chain_plain. pose proof (λ t a, own_plain _ (TriggerOnce_own t a)). unfold Sos.PageUnstored. walk.
  - assert (Hold : ∀ g, obeys owing g (Sos.old_way tenantID bridgeID m) (λ _ _, True)).
    { intros g. unfold Sos.old_way. obey. }
    unfold Sos.handleMQTT. repeat case_match; try apply Hold.
    all: apply obeys_bind; (eapply obeys_mono; [|by apply Apply_owing]); intros g [ap|e] _; [done|].
    all: case_match; [apply Hold|done].
  - eapply obeys_mono; [|apply obeys_lift_quiet; [apply (sos_quiet (Sos.ODetect d decoded device tenantID fallback))|]]; [done|].
    pose proof resolve_plain. pose proof (λ t a, own_plain _ (Trigger_own t a)). cbn [Sos.op_prog]. unfold Sos.handleMODecoded. walk.
Qed.

Lemma owing_ops o : has_engine o → obeys owing ([], []) (op_prog o) (λ _ _, True).
Proof.
  intros He. destruct (is_sos o) eqn:Hs.
  { destruct o; try done. apply obeys_bind. eapply obeys_mono; [|by apply sos_owing]. done. }
  eapply obeys_mono; [|apply (obeys_lift _ _ (promise o)); [apply learning_ops|]]; [done|].
  destruct (decide (o = OProcess)) as [->|Ho]; [|by apply own_plain, ops_own]. cbn [op_prog].
  unfold processAlerts, processAlert, exhaust, lease_step, targets_of. walk.
Qed.

(** Started from a store where it holds, [sos_ok] holds in every state the system reaches, if
    every replica has an engine. *)
Lemma reachable_sos_ok w0 s : sos_ok w0 → rtc (step (λ _, True)) (MkSys w0 []) s →
  Forall (λ t, has_engine (fst t)) (threads s) → sos_ok (state s).
Proof.
  intros Hok Hs Hall.
  destruct (follows_steps_allowed owing (λ _, True) (λ _ _ _, True) ([], []) obliged has_engine)
    with (s := MkSys w0 []) (s' := s) as (gs & _ & _ & H & _); [apply owing_ops| | | |done|done| |done].
  - intros gs w ((H1 & H2 & H3) & H4 & H5). unfold obliged, truthful. rewrite fmap_app. split_and!; try done.
    + apply Forall_app. split; [done|by apply Forall_singleton].
    + cbn. by rewrite fmap_app, concat_app, app_nil_r.
    + apply Forall_app. split; [done|by apply Forall_singleton].
  - intros. by eapply obliged_call.
  - intros gs w cs ps ds _ ((H1 & H2 & H3) & H4 & H5). split_and!; [split_and!; [done| |done]|done|done].
    eapply Forall_impl; [exact H2|]. intros facts Hf. eapply Forall_impl; [exact Hf|]. by intros [].
  - exists []. split; [constructor|]. split_and!; [|done|constructor]. destruct Hok as (Hu & _).
    split_and!; [done|constructor|constructor].
Qed.

(** ** The promises *)

(** C2: A cancel silences its SOS: when a run is cancelled and owes no alert work, its alert is
    acknowledged or cancelled, and stays so in every later state; from then on only the
    operations already running can page it, once each.  Under any interleaving of any number
    of replicas and with any faults, if every replica has an escalation engine. *)
Theorem sos_cancel_silences w0 s s' r : sos_ok w0 → rtc (step (λ _, True)) (MkSys w0 []) s →
  Forall (λ t, has_engine (fst t)) (threads s) →
  r ∈ sos_runs (state s) → rState r = SOSRunCancelled → AlertPending r = false →
  rtc (step (λ _, True)) s s' →
  settled_in (Sos.alert_of r) (state s')
  ∧ (notified (Sos.alert_of r) (state s') <= notified (Sos.alert_of r) (state s) + length (threads s))%nat.
Proof.
  intros Hok Hs Hall Hr Hc Hp Hs'. destruct (reachable_sos_ok w0 s Hok Hs Hall) as (_ & _ & H & _).
  destruct (proj1 (Forall_forall _ _) H r Hr) as [Hshut _]. apply (settled_forever w0 s s'); auto. apply Hok.
Qed.

(** C11: An acknowledgement stands for durable work: for every ack on the bus the run is in the
    store, of that tenant, bridge and id, having counted at least the events the ack reports;
    after the ack of a cancel the run is cancelled, and its alert is closed or the work of
    closing it is still owed in the row. *)
Theorem sos_ack_durable w0 s m v sosID kind st rev : sos_ok w0 → rtc (step (λ _, True)) (MkSys w0 []) s →
  Forall (λ t, has_engine (fst t)) (threads s) →
  m ∈ published (state s) → mBody m = PAck v sosID kind st rev →
  ∃ r, r ∈ sos_runs (state s) ∧ rTenantID r = mTenant m ∧ BridgeID r = mSubject m ∧ SOSID r = sosID ∧ rev <= Rev r
       ∧ (kind = SOSEventCancel → rState r = SOSRunCancelled
            ∧ (AlertPending r = true ∨ settled_in (Sos.alert_of r) (state s))).
Proof.
  intros Hok Hs Hall Hm Hb. destruct (reachable_sos_ok w0 s Hok Hs Hall) as (_ & _ & H & Hacks).
  assert (Ha : is_ack m = true) by (unfold is_ack; by rewrite Hb).
  destruct (proj1 (Forall_forall _ _) Hacks m Hm Ha) as (run & (r & Hr & Hk & Hbr & Hv & _ & Hf) & Hack).
  unfold acknowledges in Hack. rewrite Hb in Hack. destruct Hack as (Ht & Hsub & Hid & Hst & Hrev & Hkind).
  injection Hk as Hk1 Hk2 Hk3. exists r. split_and!; [done|congruence..|lia|]. intros Hc.
  assert (rState r = SOSRunCancelled) as Hcr by (apply Hf; rewrite <- Hst; by apply Hkind).
  split; [done|]. destruct (AlertPending r) eqn:Hp; [by left|right].
  destruct (proj1 (Forall_forall _ _) H r Hr) as [Hshut _]. by apply Hshut.
Qed.

(** A cancel is terminal: whatever the replicas do, no run is ever lost, its count of
    events never falls, and once cancelled it is cancelled in every later state, also when its
    start arrives after the cancel. *)
Theorem sos_cancel_terminal good s s' : rtc (step good) s s' → unique_runs (sos_runs (state s)) →
  ∀ r, r ∈ sos_runs (state s) → ∃ r', r' ∈ sos_runs (state s') ∧ key r' = key r ∧ Rev r <= Rev r'
    ∧ (rState r = SOSRunCancelled → rState r' = SOSRunCancelled).
Proof.
  intros Hs Hu. assert (H : ∀ r, r ∈ sos_runs (state s) → ∃ r', r' ∈ sos_runs (state s') ∧ evolves r r').
  { induction Hs as [|s1 s2 s3 Hst Hrest IH]; intros r Hr; [exists r; split; [done|apply evolves_refl]|].
    destruct (step_runs good s1 s2 Hst Hu) as [Hu2 H2]. destruct (H2 r Hr) as (r2 & Hr2 & E2).
    destruct (IH Hu2 r2 Hr2) as (r3 & Hr3 & E3). exists r3. split; [done|]. by eapply evolves_trans. }
  intros r Hr. destruct (H r Hr) as (r' & Hr' & Hk & _ & Hv & _ & Hf). by exists r'.
Qed.

End SosSystem.
