(* ===== verification/SosLive.v ===== *)
(** One replica alone, without faults: the reconciler of [internal/sos/runs.go] finishes the
    alert work the runs owe, and one SOS detected on any number of bearers and replicas
    ([internal/sos/detector.go]) is told and raised once. *)
From S2P Require Import Prelude SosTable AlertStore Escalation Hubmsg Sos AlertSystem SosSystem.

Module SosLive.
Import AlertStore Escalation AlertSystem SosSystem.

(** ** What a program alone makes of the alerts *)

(** [al'] has the alerts of [al], and perhaps one of tenant [t] with id [id]. *)
Definition alerts_step (t id : string) (al al' : list alert_row) : Prop :=
  unique_ids al' ∧ ∀ x', x' ∈ al' →
    (∃ x, x ∈ al ∧ ID x = ID x' ∧ TenantID x = TenantID x') ∨ (ID x' = id ∧ TenantID x' = t).

Lemma alerts_step_refl t id al : unique_ids al → alerts_step t id al al.
Proof. intros Hu. split; [done|]. intros x Hx. left. by exists x. Qed.

Lemma set_alerts_same w : set_alerts (alerts w) w = w.
Proof. by destruct w. Qed.

(** No other tenant has an alert with this id. *)
Definition mine (t id : string) (al : list alert_row) : Prop := ∀ x, x ∈ al → ID x = id → TenantID x = t.

Lemma mine_cases t id al : unique_ids al → mine t id al →
  (∃ x, x ∈ al ∧ ID x = id ∧ GetAlert t id al = Some (scan_alert x)) ∨ (GetAlert t id al = None ∧ Forall (λ x, ID x ≠ id) al).
Proof.
  intros Hu Hm. destruct (row_of id al) as [x|] eqn:E.
  - left. apply row_of_In in E as [Hx <-]. exists x. split_and!; [done|done|].
    destruct (unique_alone al x Hu Hx) as (t1 & t2 & -> & Hal). apply GetAlert_split; [done|].
    rewrite <- (Hm x Hx eq_refl). apply scoped_self.
  - right. apply row_of_None in E. split; [|done]. unfold GetAlert. rewrite filter_none; [done|].
    eapply Forall_impl; [exact E|]. intros x Hx. cbn. by apply String.eqb_neq in Hx as ->.
Qed.

Lemma create_new t a al : Forall (λ x, ID x ≠ ID a) al → ∃ x, CreateAlert t a al = Some (al ++ [x]) ∧ ID x = ID a ∧ TenantID x = t.
Proof.
  intros H. unfold CreateAlert. assert (existsb (λ r, String.eqb (ID r) (ID a)) al = false) as ->; [|by eexists].
  induction H as [|x al Hx _ IH]; [done|]. cbn. rewrite IH. by apply String.eqb_neq in Hx as ->.
Qed.

Lemma alerts_step_new t id al x : unique_ids al → Forall (λ x, ID x ≠ id) al → ID x = id → TenantID x = t →
  alerts_step t id al (al ++ [x]).
Proof.
  intros Hu Hn Hid Ht. split.
  - apply app_unique; [done|]. rewrite Hid. by apply row_of_None.
  - intros x' [Hx| ->%list_elem_of_singleton]%elem_of_app; [left; by exists x'|by right].
Qed.

Lemma run_Close now t a b w : ID a ≠ "" → unique_ids (alerts w) → mine t (ID a) (alerts w) →
  ∃ al y, run now (Close t a b) w = (set_alerts al w, Ok y) ∧ alerts_step t (ID a) (alerts w) al.
Proof.
  intros Hid Hu Hm. unfold Close. apply String.eqb_neq in Hid as ->. unfold closeRounds. cbn [close_loop].
  cbn -[close_loop GetAlert CreateAlert UpdateAlert cancelAlert].
  destruct (mine_cases t (ID a) (alerts w) Hu Hm) as [(x & Hx & Hxid & ->)|[-> Hn]].
  - cbn -[UpdateAlert]. unfold cancelAlert. case_bool_decide.
    + exists (alerts w), false. rewrite set_alerts_same. split; [done|by apply alerts_step_refl].
    + cbn -[UpdateAlert]. eexists _, true. split; [done|].
      destruct (update_cases t (set_closed (scan_alert x) AlertStateCancelled b now) (alerts w) Hu)
        as [(t1 & r & t2 & E & Hal & Hr & _ & E')|[E' _]]; rewrite E'; [|by apply alerts_step_refl].
      rewrite E in Hu |- *. split; [by apply put_unique with (r := r)|]. intros x' Hx'. left.
      apply elem_of_app in Hx' as [Hx'|[->|Hx']%elem_of_cons].
      * exists x'. rewrite elem_of_app. auto.
      * exists r. rewrite elem_of_app, elem_of_cons. auto.
      * exists x'. rewrite elem_of_app, elem_of_cons. auto.
  - cbn -[CreateAlert close_loop].
    destruct (create_new t (tomb a b now) (alerts w) Hn) as (x & -> & Hxid & Hxt). cbn -[close_loop].
    eexists _, true. split; [done|]. by apply alerts_step_new.
Qed.

Lemma run_TriggerOnce now t a w : ID a ≠ "" → unique_ids (alerts w) → mine t (ID a) (alerts w) →
  ∃ al y, run now (TriggerOnce t a) w = (set_alerts al w, Ok y) ∧ alerts_step t (ID a) (alerts w) al.
Proof.
  intros Hid Hu Hm. unfold TriggerOnce, Trigger. apply String.eqb_neq in Hid as ->.
  cbn -[GetAlert CreateAlert].
  destruct (mine_cases t (ID a) (alerts w) Hu Hm) as [(x & Hx & Hxid & ->)|[-> Hn]].
  - exists (alerts w), false. rewrite set_alerts_same. split; [done|by apply alerts_step_refl].
  - cbn -[CreateAlert]. set (a' := MkAlert _ _ _ _ _ _ _ _ _ _ _ _ _ _).
    destruct (create_new t a' (alerts w) Hn) as (x & -> & Hxid & Hxt). cbn.
    eexists _, true. split; [done|]. by apply alerts_step_new.
Qed.

Lemma run_chain now r t w : ∃ c, run now (Sos.chain r t) w = (w, c).
Proof. unfold Sos.chain, Sos.resolveChainID. repeat (case_match; cbn; try (by eexists)). Qed.

(** ** Settling a run *)

Lemma alert_id_nonempty t o q : Sos.AlertID t o q ≠ "".
Proof. done. Qed.

#[local] Opaque Sos.AlertID.

(** The row [r] of the runs is the only one with its key. *)
Definition only (r : run_row) (t1 t2 : list run_row) : Prop :=
  Forall (λ q, has_key (rTenantID r) (rOrigin r) (SOSID r) q = false) (t1 ++ t2).

Lemma only_row t r : unique_runs t → r ∈ t → ∃ t1 t2, t = t1 ++ r :: t2 ∧ only r t1 t2.
Proof.
  intros Hu Hr. destruct (run_cases (rTenantID r) (rOrigin r) (SOSID r) t Hu) as [(t1 & q & t2 & E & Hk & H1 & H2)|H].
  - assert (q = r) as ->; [|exists t1, t2; split; [done|by apply Forall_app]].
    apply (unique_run t); [done| |done|exact Hk]. rewrite E. apply elem_of_app. right. left.
  - apply (proj1 (Forall_forall _ _) H) in Hr. apply has_key_false in Hr. done.
Qed.

Lemma only_key r r' t1 t2 : key r' = key r → only r t1 t2 → only r' t1 t2.
Proof. unfold only, key. intros [= -> -> ->]. done. Qed.

Lemma own_key (r : run_row) : has_key (rTenantID r) (rOrigin r) (SOSID r) r = true.
Proof. by apply has_key_spec. Qed.

(** A version of a row that keeps its identity and its count. *)
Definition same_rev (r r' : run_row) : Prop := key r' = key r ∧ Rev r' = Rev r ∧ rState r' = rState r.

Lemma run_closeAlert now r run w : Sos.engine r = true → unique_ids (alerts w) →
  mine (rTenantID run) (Sos.alert_of run) (alerts w) →
  ∃ al, AlertStore.run now (Sos.closeAlert r run) w = (set_alerts al w, Ok tt)
        ∧ alerts_step (rTenantID run) (Sos.alert_of run) (alerts w) al.
Proof.
  intros He Hu Hm. unfold Sos.closeAlert. rewrite He. cbn [negb]. cbv zeta.
  destruct (run_chain now r (rTenantID run) w) as [c Hc]. rewrite run_bind, Hc. cbv zeta.
  set (by_ := if String.eqb (CancelledBy run) "" then _ else _).
  destruct (run_Close now (rTenantID run) (Sos.alertFor run c) by_ w) as (al & y & Hy & Hst);
    [apply alert_id_nonempty|done|done|].
  exists al. rewrite run_bind, Hy. done.
Qed.

Lemma run_raise now r row t1 t2 w : Sos.engine r = true → unique_ids (alerts w) →
  mine (rTenantID row) (Sos.alert_of row) (alerts w) → rState row = SOSRunActive →
  sos_runs w = t1 ++ row :: t2 → only row t1 t2 →
  ∃ w' row', AlertStore.run now (Sos.raise r (scanSOSRun row)) w = (w', Ok tt)
    ∧ sos_runs w' = t1 ++ row' :: t2 ∧ same_rev row row'
    ∧ alerts_step (rTenantID row) (Sos.alert_of row) (alerts w) (alerts w').
Proof.
  intros He Hu Hm Hst Hw Ho. unfold Sos.raise. rewrite He. cbn [negb].
  destruct (run_chain now r (rTenantID (scanSOSRun row)) w) as [c Hc]. rewrite run_bind, Hc. cbv zeta.
  case_if; [exists w, row; split_and!; try done; by apply alerts_step_refl|].
  destruct (run_TriggerOnce now (rTenantID row) (Sos.alertFor (scanSOSRun row) c) w) as (al & y & Hy & Hal);
    [apply alert_id_nonempty|done|done|].
  change (rTenantID (scanSOSRun row)) with (rTenantID row). rewrite run_bind, Hy. apply Forall_app in Ho as [H1 H2].
  cbn -[SetSOSRunAlert GetSOSRun Sos.AlertID Sos.closeAlert]. rewrite Hw.
  unfold SetSOSRunAlert at 1. rewrite (sql_update_split _ _ t1 row t2) by (done || apply own_key).
  unfold SetSOSRunAlert. rewrite (sql_update_split _ _ t1 row t2) by (done || apply own_key).
  cbn -[GetSOSRun Sos.AlertID Sos.closeAlert set_alert_id]. set (row' := set_alert_id _ _ _).
  assert (GetSOSRun (rTenantID row) (rOrigin row) (SOSID row) (t1 ++ row' :: t2) = Some (scanSOSRun row')) as ->.
  { unfold GetSOSRun. rewrite filter_split; [done|done|done|]. apply (own_key row'). }
  cbn -[Sos.AlertID Sos.closeAlert]. rewrite Hst. cbn -[Sos.AlertID]. eexists _, row'. by split_and!.
Qed.

Lemma run_settle now r row t1 t2 w : Sos.engine r = true → unique_ids (alerts w) →
  mine (rTenantID row) (Sos.alert_of row) (alerts w) → sos_runs w = t1 ++ row :: t2 → only row t1 t2 →
  ∃ w' row', AlertStore.run now (Sos.settle r (scanSOSRun row)) w = (w', true)
    ∧ sos_runs w' = t1 ++ row' :: t2 ∧ key row' = key row ∧ AlertPending row' = false
    ∧ alerts_step (rTenantID row) (Sos.alert_of row) (alerts w) (alerts w').
Proof.
  intros He Hu Hm Hw Ho. unfold Sos.settle. rewrite run_bind.
  assert (∃ w1 row1, AlertStore.run now (Sos.syncAlert r (scanSOSRun row)) w = (w1, Ok tt)
    ∧ sos_runs w1 = t1 ++ row1 :: t2 ∧ same_rev row row1
    ∧ alerts_step (rTenantID row) (Sos.alert_of row) (alerts w) (alerts w1)) as (w1 & row1 & -> & Hw1 & (Hk & Hv & _) & Hal).
  { unfold Sos.syncAlert. case_bool_decide as Hs.
    - destruct (run_closeAlert now r (scanSOSRun row) w) as (al & H & Hal); [done|done|done|].
      exists (set_alerts al w), row. by split_and!.
    - apply run_raise; try done. cbn in Hs. by destruct (rState row). }
  cbn -[ClearSOSRunAlertPending]. rewrite Hw1. apply (only_key _ _ _ _ Hk) in Ho. apply Forall_app in Ho as [H1 H2].
  assert (Hp : ∀ q : run_row, has_key (rTenantID row1) (rOrigin row1) (SOSID row1) q = false →
    has_key (rTenantID row) (rOrigin row) (SOSID row) q && (Rev q =? Rev row) = false).
  { injection Hk as -> -> ->. by intros q ->. }
  assert (Hclear : ClearSOSRunAlertPending (rTenantID row) (rOrigin row) (SOSID row) (Rev row) (t1 ++ row1 :: t2)
    = (t1 ++ set_settled row1 :: t2, true)).
  { unfold ClearSOSRunAlertPending. rewrite (sql_update_split _ _ t1 row1 t2); [done| | |].
    1,2: eapply Forall_impl; [eassumption|]; auto.
    rewrite Hv, Z.eqb_refl, andb_true_r. by apply has_key_spec. }
  rewrite Hclear. eexists _, _. split; [done|]. by split_and!.
Qed.

(** What the reconciler relies on: the alert ids of runs are their own.  [AlertID] is a
    digest, so this is that no two tenants' runs collide and no other alert has such an id. *)
Definition own_alerts (w : world) : Prop :=
  (∀ q, q ∈ sos_runs w → mine (rTenantID q) (Sos.alert_of q) (alerts w))
  ∧ (∀ q q', q ∈ sos_runs w → q' ∈ sos_runs w → Sos.alert_of q = Sos.alert_of q' → rTenantID q = rTenantID q').

Definition tidy (w : world) : Prop := unique_ids (alerts w) ∧ unique_runs (sos_runs w) ∧ own_alerts w.

Lemma tidy_settle row row' t1 t2 w w' : tidy w → sos_runs w = t1 ++ row :: t2 → sos_runs w' = t1 ++ row' :: t2 →
  key row' = key row → alerts_step (rTenantID row) (Sos.alert_of row) (alerts w) (alerts w') → tidy w'.
Proof.
  intros (Hu & Hr & Hown & Hcol) Hw Hw' Hk [Hu' Hal].
  assert (Hback : ∀ q', q' ∈ sos_runs w' → ∃ q, q ∈ sos_runs w ∧ rTenantID q = rTenantID q' ∧ Sos.alert_of q = Sos.alert_of q').
  { rewrite Hw, Hw'. intros q' Hq'. rewrite elem_of_app, elem_of_cons in Hq'. destruct Hq' as [H|[->|H]].
    - exists q'. rewrite elem_of_app. auto.
    - exists row. rewrite elem_of_app, elem_of_cons. injection Hk as H1 H2 H3.
      split_and!; [auto|done|]. apply alert_of_key. unfold key. congruence.
    - exists q'. rewrite elem_of_app, elem_of_cons. auto. }
  assert (Hrow : row ∈ sos_runs w) by (rewrite Hw; apply elem_of_app; right; left).
  split_and!; [done|rewrite Hw'; apply (put_run_unique row); [done|by rewrite <- Hw]|].
  split.
  - intros q' (q & Hq & <- & <-)%Hback x' Hx' Hid. destruct (Hal x' Hx') as [(x & Hx & E1 & E2)|[E1 E2]].
    + rewrite <- E2. apply (Hown q Hq x Hx). congruence.
    + rewrite E2. apply Hcol; [done|done|]. congruence.
  - intros q1 q2 (p1 & H1 & <- & <-)%Hback (p2 & H2 & <- & <-)%Hback. by apply Hcol.
Qed.

Lemma run_settle_all now r l : Sos.engine r = true → ∀ n w, tidy w → (∀ q, q ∈ l → q ∈ sos_runs w) → NoDup (key <$> l) →
  ∃ w', AlertStore.run now (Sos.settle_all r (scanSOSRun <$> l) n) w = (w', n + Zlen l)
    ∧ ∀ q', q' ∈ sos_runs w' → AlertPending q' = true → q' ∈ sos_runs w ∧ key q' ∉ key <$> l.
Proof.
  intros He. induction l as [|row l IH]; intros n w Ht Hin Hnd.
  { exists w. split; [cbn; f_equal; unfold Zlen; cbn; lia|]. intros q' Hq _. split; [done|apply not_elem_of_nil]. }
  apply NoDup_cons in Hnd as [Hni Hnd]. pose proof Ht as (Hu & Hr & Hown & _).
  assert (Hrow : row ∈ sos_runs w) by (apply Hin; left).
  destruct (only_row (sos_runs w) row Hr Hrow) as (t1 & t2 & Hw & Ho).
  destruct (run_settle now r row t1 t2 w) as (w1 & row' & Hs & Hw1 & Hk & Hp & Hal); [done|done|by apply Hown|done|done|].
  cbn [fmap list_fmap Sos.settle_all]. rewrite run_bind, Hs.
  destruct (IH (n + 1) w1) as (w' & -> & Hpend); [by eapply tidy_settle| |done|].
  - intros q Hq. assert (Hq' : q ∈ sos_runs w) by (apply Hin; by right). rewrite Hw in Hq'. rewrite Hw1.
    rewrite elem_of_app, elem_of_cons in Hq' |- *. destruct Hq' as [?|[->|?]]; [auto| |auto].
    destruct Hni. by apply list_elem_of_fmap_2.
  - exists w'. split; [f_equal; unfold Zlen; cbn; lia|]. intros q' Hq Hpq. destruct (Hpend q' Hq Hpq) as [H1 H2].
    rewrite Hw1 in H1. rewrite elem_of_app, elem_of_cons in H1. rewrite Hw, elem_of_app, elem_of_cons, not_elem_of_cons.
    apply (proj1 (Forall_app _ _ _)) in Ho as [F1 F2].
    destruct H1 as [H1|[->|H1]]; [|congruence|]; (split; [auto|]); (split; [|done]); apply has_key_false.
    + by apply (proj1 (Forall_forall _ _) F1).
    + by apply (proj1 (Forall_forall _ _) F2).
Qed.

(** A program that keeps the protocol keeps the invariant when it runs alone. *)
Lemma run_obliged {R} (p : prog R) Q now : ∀ g w, obeys owing g p Q → obliged [g] w →
  ∃ g', obliged [g'] (fst (AlertStore.run now p w)) ∧ Q g' (snd (AlertStore.run now p w)).
Proof.
  induction p as [r|X c k IH]; cbn; intros g w Hp Hw; [by exists g|]. destruct Hp as [Hc Hk].
  destruct (handle NoFault now c w) as [w' x] eqn:Hh.
  destruct (obliged_call [g] 0 g X c NoFault now w w' x) as [Hr Hw']; [done|done|done|done|].
  apply (IH x (next owing g X c x) w'); [by apply Hk|done].
Qed.

Definition owed (w : world) : list run_row := List.filter AlertPending (sos_runs w).


(** ** One SOS, detected many times *)

(** [o] handles a message of the SOS claimed as [k]. *)
Definition claims_as (k : string) (o : op) : Prop :=
  match o with
  | OSOS (Sos.ODetect d (Some msg) _ tenantID fallback) =>
      Sos.dataStore d = true
      ∧ k = "sos:" +:+ tenantID +:+ ":" +:+ Sos.sosClaimKey (if String.eqb (Sos.msgID msg) "" then fallback else Sos.msgID msg)
  | _ => False
  end.

(** After winning the claim an operation may publish once and raise once. *)
Definition claiming (k : string) : protocol (bool * bool) := {|
  pre g X c :=
    match c with
    | CClaimOnce key => key = k ∧ g = (false, false)
    | CPublish _ => fst g = true
    | CCreateAlert _ _ => snd g = true
    | CUpdateAlert _ _ | CAdvanceAlert _ _ _ => False
    | _ => True
    end;
  resp X c x := True;
  next g X c :=
    match c with
    | CClaimOnce _ => λ x, match x with Ok true => (true, true) | _ => g end
    | CPublish _ => λ _, (false, snd g)
    | CCreateAlert _ _ => λ _, (fst g, false)
    | _ => λ _, g
    end |}.

Lemma claiming_ops k o : claims_as k o → obeys (claiming k) (false, false) (op_prog o) (λ _ _, True).
Proof.
  destruct o as [| | | | | | |[| | | | |d [msg|] dev t fb]]; try done. intros [Hd Hk]. cbn [op_prog].
  apply obeys_bind. cbn [Sos.op_prog]. unfold Sos.handleMODecoded. case_if; [done|].
  destruct (Sos.detectSOS msg) as [[kw src]|]; [|done]. rewrite Hd, <- Hk. cbn -[Sos.resolveChainID Trigger].
  split; [done|]. intros [[]|] _; try done. cbn -[Sos.resolveChainID Trigger]. split; [done|]. intros y _. case_if; [done|].
  unfold Sos.resolveChainID, Trigger. obey.
Qed.

Definition claimed (k : string) (w : world) : nat := if existsb (String.eqb k) (claims w) then 1 else 0.

(** What has been published and raised, and what still may be, is one at most. *)
Definition once (k : string) (p a : nat) (gs : list (bool * bool)) (w : world) : Prop :=
  (length (published w) + armed_count (fst <$> gs) <= p + claimed k w)%nat
  ∧ (length (alerts w) + armed_count (snd <$> gs) <= a + claimed k w)%nat.

Lemma once_call k p a gs i g X (c : call X) f now w w' x :
  gs !! i = Some g → pre (claiming k) g X c → once k p a gs w → handle f now c w = (w', x) →
  resp (claiming k) X c x ∧ once k p a (<[i := next (claiming k) g X c x]> gs) w'.
Proof.
  intros Hg Hpre [Hp Ha] Hh. split; [done|].
  assert (H1 := armed_insert (fst <$> gs) i (fst g) (fst (next (claiming k) g X c x))).
  assert (H2 := armed_insert (snd <$> gs) i (snd g) (snd (next (claiming k) g X c x))).
  rewrite !list_lookup_fmap, Hg in H1, H2. specialize (H1 eq_refl). specialize (H2 eq_refl).
  unfold once. rewrite !list_fmap_insert.
  assert (Hsame : published w' = published w ∧ alerts w' = alerts w ∧ claims w' = claims w → next (claiming k) g X c x = g →
    once k p a (<[i := next (claiming k) g X c x]> gs) w').
  { intros (E1 & E2 & E3) E. unfold once, claimed. rewrite E, !list_fmap_insert, E1, E2, E3. rewrite E in H1, H2.
    unfold claimed in *. lia. }
  unfold once in Hsame. rewrite !list_fmap_insert in Hsame.
  destruct c; cbn -[armed_count ClaimOnce] in *; try done; try (apply Hsame; [|done]; destruct f; by injection Hh as <- _).
  - assert (Hl : (length (alerts w') <= length (alerts w) + 1)%nat ∧ published w' = published w ∧ claims w' = claims w).
    { clear Hsame. destruct (create_cases tenantID a0 (alerts w)) as [(r & E & _)|[E _]]; rewrite E in Hh;
        destruct f; injection Hh as <- _; cbn; rewrite ?length_app; cbn; split_and!; (done || lia). }
    destruct Hl as (Hl & E1 & E2). unfold claimed in *. rewrite E1, E2. rewrite Hpre in H2. destruct (fst g); lia.
  - destruct Hpre as [-> ->]. unfold ClaimOnce in Hh. unfold claimed in *. cbn [fst snd] in H1, H2.
    destruct (existsb (String.eqb k) (claims w)) eqn:E.
    + assert (claims w' = claims w ∧ published w' = published w ∧ alerts w' = alerts w ∧ x ≠ Ok true) as (-> & -> & -> & Hx)
        by (destruct f; by injection Hh as <- <-).
      rewrite E. destruct x as [[]|]; [congruence|cbn [fst snd] in *; lia..].
    + assert (Hn : existsb (String.eqb k) (claims w ++ [k]) = true).
      { apply existsb_exists. exists k. split; [apply in_or_app; right; by left|apply String.eqb_refl]. }
      assert (published w' = published w ∧ alerts w' = alerts w ∧
        (claims w' = claims w ++ [k] ∨ claims w' = claims w ∧ x ≠ Ok true)) as (-> & -> & Hc)
        by (destruct f; injection Hh as <- <-; auto).
      destruct Hc as [->|[-> Hx]]; [rewrite Hn|rewrite E]; destruct x as [[]|]; cbn [fst snd] in *; (congruence || lia).
  - assert (Hl : (length (published w') <= length (published w) + 1)%nat ∧ alerts w' = alerts w ∧ claims w' = claims w).
    { destruct f; injection Hh as <- _; cbn; rewrite ?length_app; cbn; split_and!; (done || lia). }
    destruct Hl as (Hl & E1 & E2). unfold claimed in *. rewrite E1, E2. rewrite Hpre in H1. destruct (snd g); lia.
Qed.


(** ** The claim of an SOS *)

(** An id as the Hub's uplinks and the bridges write it. *)
Definition bridge_id (bearer bridge start : list Z) (cancelled : bool) : list Z :=
  str "sos-" ++ bearer ++ Sos.dash :: bridge ++ [Sos.dash] ++ start ++ (if cancelled then str "-cancelled" else []).

Definition digits (l : list Z) : Prop := l ≠ [] ∧ Forall (λ b, Sos.digit b = true) l.

Lemma span_spec p a x b : Forall (λ z, p z = true) a → p x = false → Sos.span p (a ++ x :: b) = (a, x :: b).
Proof. intros Ha Hx. induction Ha as [|z a Hz _ IH]; cbn; [by rewrite Hx|]. by rewrite Hz, IH. Qed.

Lemma bridge_and_start_spec bridge start : bridge ≠ [] → 10 ∉ bridge → digits start →
  Sos.bridge_and_start (bridge ++ [Sos.dash] ++ start) = Some (bridge, start).
Proof.
  intros Hb Hn [Hs Hd]. unfold Sos.bridge_and_start, Sos.span_end. rewrite !reverse_app, <- app_assoc. cbn.
  rewrite (span_spec Sos.digit (reverse start) Sos.dash) by (done || by apply Forall_reverse).
  rewrite !reverse_involutive. cbn.
  assert (reverse bridge ≠ []) by (intros E; apply (f_equal reverse) in E; by rewrite reverse_involutive in E).
  rewrite !bool_decide_false by done. cbn.
  assert (forallb (λ b, negb (b =? 10)) (reverse bridge) = true) as ->; [|done].
  apply forallb_forall. intros b Hin%list_elem_of_In. rewrite elem_of_reverse in Hin. apply negb_true_iff, Z.eqb_neq. by intros ->.
Qed.

Lemma no_suffix suffix l x y : last suffix = Some x → last l = Some y → x ≠ y → Sos.strip_suffix suffix l = None.
Proof.
  intros Hx Hy Hne. unfold Sos.strip_suffix. rewrite bool_decide_false; [done|]. intros E.
  assert (Hl : last l = last suffix); [|congruence].
  rewrite <- (take_drop (length l - length suffix) l), E, last_app, Hx. done.
Qed.

Lemma strip_suffix_app suffix l : Sos.strip_suffix suffix (l ++ suffix) = Some l.
Proof.
  unfold Sos.strip_suffix. rewrite length_app. replace (length l + length suffix - length suffix)%nat with (length l) by lia.
  by rewrite drop_app_length, take_app_length, bool_decide_true.
Qed.

Lemma claim_key_spec bearer bridge start c : bearer ≠ [] → Forall (λ b, Sos.bearer_char b = true) bearer →
  bridge ≠ [] → 10 ∉ bridge → digits start →
  Sos.claim_key (bridge_id bearer bridge start c)
  = str "sos-" ++ bridge ++ [Sos.dash] ++ start ++ (if c then str "-cancelled" else []).
Proof.
  intros Hb Hbc Hbr Hn Hs. unfold Sos.claim_key, Sos.bridgeSOSID, bridge_id.
  rewrite bool_decide_true by done. rewrite (drop_app_length' (str "sos-")) by done.
  rewrite (span_spec Sos.bearer_char bearer Sos.dash) by done. rewrite bool_decide_false by done. cbn [negb andb Z.eqb].
  change (Sos.dash =? Sos.dash) with true. cbn [andb]. destruct c.
  - rewrite !app_assoc, strip_suffix_app. rewrite <- !app_assoc, bridge_and_start_spec by done. done.
  - rewrite app_nil_r. destruct Hs as [Hs0 Hs]. destruct (last start) as [y|] eqn:Hy; [|by apply last_None in Hy].
    rewrite (no_suffix _ _ 100 y); [rewrite bridge_and_start_spec by done; cbn; by rewrite app_nil_r|done| |].
    + rewrite !last_app, Hy. done.
    + intros <-. apply last_Some in Hy as [l' ->]. apply Forall_app in Hs as [_ [Hd _]%Forall_cons]. done.
Qed.

(** The claim names the SOS and not the bearer: the ids of two messages claim the same
    key exactly when bridge, start and kind (start or cancel) agree, whatever bearers carried
    them. *)
Theorem sos_claim_names_run bearer bearer' bridge bridge' start start' c c' :
  bearer ≠ [] → Forall (λ b, Sos.bearer_char b = true) bearer →
  bearer' ≠ [] → Forall (λ b, Sos.bearer_char b = true) bearer' →
  bridge ≠ [] → 10 ∉ bridge → bridge' ≠ [] → 10 ∉ bridge' → digits start → digits start' →
  Sos.claim_key (bridge_id bearer bridge start c) = Sos.claim_key (bridge_id bearer' bridge' start' c')
  ↔ bridge = bridge' ∧ start = start' ∧ c = c'.
Proof.
  intros Hb1 Hb2 Hb1' Hb2' Hr1 Hr2 Hr1' Hr2' Hs Hs'. rewrite !claim_key_spec by done.
  split; [|by intros (-> & -> & ->)]. intros E%app_inv_head.
  assert (Hc : c = c').
  { destruct c, c'; try done; apply (f_equal last) in E; rewrite !last_app in E; cbn in E.
    all: destruct Hs as [Hs0 Hs], Hs' as [Hs0' Hs'].
    - destruct (last start') as [y|] eqn:Hy; [|by apply last_None in Hy]. injection E as <-.
      apply last_Some in Hy as [l' ->]. by apply Forall_app in Hs' as [_ [Hd _]%Forall_cons].
    - destruct (last start) as [y|] eqn:Hy; [|by apply last_None in Hy]. injection E as ->.
      apply last_Some in Hy as [l' ->]. by apply Forall_app in Hs as [_ [Hd _]%Forall_cons]. }
  subst c'. rewrite !app_assoc in E. apply app_inv_tail in E. rewrite <- !app_assoc in E.
  apply (f_equal Sos.bridge_and_start) in E. rewrite !bridge_and_start_spec in E by done. by injection E as -> ->.
Qed.

(** ** Executions *)

Definition detector : Sos.Detector := Sos.MkDetector true "" "default" true.
Definition replica : Sos.Runs := Sos.MkRuns true (Some detector) false.
Definition sos_id : string := string_of_bytes (Hubmsg.Hubmsg.NewV7 1700000000000 (replicate 10 7)).
Definition event (kind bearer : string) : Sos.Event :=
  Sos.MkEvent "t" "b" bearer kind sos_id 1700000000000 "" "help" zero zero false 0 "".

Definition store0 : world := MkWorld [] [sample_chain] [] [] [] [] [] [] [] [].

(** A start by one bearer, then a cancel by another, each to its end. *)
Definition start_then_cancel : list action :=
  [Start (OSOS (Sos.OApply replica (event "start" "sbd")))] ++ calls 0 11 100
  ++ [Start (OSOS (Sos.OApply replica (event "cancel" "sms")))] ++ calls 1 9 101.

(** Two replicas take the same SOS message. *)
Definition mayday : Sos.moDecodedMsg := Sos.MkMsg "sos-sbd-b-5" "dev" "Mayday" None.
Definition mayday_sms : Sos.moDecodedMsg := Sos.MkMsg "sos-sms-b-5" "dev" "Mayday" None.

(** A claim that is stored but whose answer is lost loses the SOS: the replica that made
    it does nothing ("not triggering") and every other replica finds it taken, so nobody is
    told and nobody is paged, although all the replicas worked through the message. *)
Theorem sos_claim_lost : ∃ s, rtc (step (λ _, True)) (MkSys store0 []) s ∧ finished_ops s = true
  ∧ fst <$> threads s = [OSOS (Sos.ODetect detector (Some mayday) "dev" "t" "");
                         OSOS (Sos.ODetect detector (Some mayday) "dev" "t" "")]
  ∧ Sos.detectSOS mayday = Some ("MAYDAY", "keyword") ∧ published (state s) = [] ∧ alerts (state s) = [].
Proof.
  set (o := OSOS (Sos.ODetect detector (Some mayday) "dev" "t" "")).
  destruct (play_check (λ s, finished_ops s = true ∧ fst <$> threads s = [o; o]
      ∧ (length (published (state s)) + length (alerts (state s)))%nat = 0%nat)
    ([Start o; Start o; Call 0 (ReplyLost true) second; Call 1 NoFault second]) (MkSys store0 []))
    as (s & Hs & H1 & H2 & H3); [vm_compute; reflexivity|].
  exists s. split; [by eapply play_steps|]. split; [done|]. split; [done|]. split; [vm_compute; reflexivity|].
  destruct (published (state s)), (alerts (state s)); try discriminate H3. split; reflexivity.
Qed.

(** ** Witnesses *)

Lemma store0_ok : sos_ok store0.
Proof. split_and!; constructor. Qed.

(** A decidable test of the state [start_then_cancel] ends in. *)
Definition cancelled_and_settled (s : sys) : bool :=
  match sos_runs (state s) with
  | [r] => bool_decide (rState r = SOSRunCancelled) && negb (AlertPending r)
           && forallb (λ t, match fst t with OSOS (Sos.OApply r _) => Sos.engine r | _ => false end) (threads s)
           && match published (state s) with
              | [_; _; _; m] => bool_decide (mSubject m = "b")
                                && match mBody m with PAck _ _ kind _ _ => String.eqb kind "cancel" | _ => false end
              | _ => false
              end
  | _ => false
  end.

Lemma start_then_cancel_ends : ∃ s, play start_then_cancel (MkSys store0 []) = Some s ∧ cancelled_and_settled s = true.
Proof. apply (play_check (λ s, cancelled_and_settled s = true)). vm_compute. reflexivity. Qed.

Lemma cancelled_and_settled_spec s : cancelled_and_settled s = true →
  (∃ r, r ∈ sos_runs (state s) ∧ rState r = SOSRunCancelled ∧ AlertPending r = false)
  ∧ Forall (λ t, has_engine (fst t)) (threads s)
  ∧ ∃ m v sosID st rev, m ∈ published (state s) ∧ mBody m = PAck v sosID "cancel" st rev.
Proof.
  unfold cancelled_and_settled. destruct (sos_runs (state s)) as [|r [|]]; try done.
  rewrite !andb_true_iff, bool_decide_eq_true, negb_true_iff, forallb_forall. intros [[[H1 H2] H3] H4]. split_and!.
  - exists r. split; [left|done].
  - apply Forall_forall. intros t Ht%list_elem_of_In%H3. by destruct (fst t) as [| | | | | | |[]].
  - destruct (published (state s)) as [|a [|b [|c [|m []]]]]; try done. apply andb_true_iff in H4 as [_ H4].
    destruct (mBody m) as [| |v sosID kind st rev|] eqn:E; try done. apply String.eqb_eq in H4 as ->.
    exists m, v, sosID, st, rev. split; [|done]. do 3 right. left.
Qed.

Lemma sos_cancel_silences_witness : ∃ s r, rtc (step (λ _, True)) (MkSys store0 []) s ∧ r ∈ sos_runs (state s)
  ∧ settled_in (Sos.alert_of r) (state s).
Proof.
  destruct start_then_cancel_ends as (s & Hs & Hc). apply (play_steps (λ _, True)) in Hs.
  destruct (cancelled_and_settled_spec s Hc) as ((r & Hr & Hst & Hp) & Hall & _).
  exists s, r. split; [exact Hs|]. split; [exact Hr|].
  destruct (sos_cancel_silences store0 s s r store0_ok Hs Hall Hr Hst Hp (rtc_refl _ _)) as [H _]. exact H.
Defined.

Lemma sos_ack_durable_witness : ∃ s r, rtc (step (λ _, True)) (MkSys store0 []) s ∧ r ∈ sos_runs (state s)
  ∧ rState r = SOSRunCancelled.
Proof.
  destruct start_then_cancel_ends as (s & Hs & Hc). apply (play_steps (λ _, True)) in Hs.
  destruct (cancelled_and_settled_spec s Hc) as (_ & Hall & m & v & q & st & rev & Hm & Hb).
  destruct (sos_ack_durable store0 s m v q "cancel" st rev store0_ok Hs Hall Hm Hb) as (r & Hr & _ & _ & _ & _ & H).
  exists s, r. split; [exact Hs|]. split; [exact Hr|]. apply (H eq_refl).
Defined.

Lemma sos_cancel_terminal_witness : ∃ s r r', r ∈ sos_runs (state s) ∧ r' ∈ sos_runs (state s) ∧ key r' = key r
  ∧ rState r' = SOSRunCancelled.
Proof.
  destruct start_then_cancel_ends as (s & Hs & Hc). apply (play_steps (λ _, True)) in Hs.
  destruct (cancelled_and_settled_spec s Hc) as ((r & Hr & Hst & Hp) & Hall & _).
  assert (Hu : unique_runs (sos_runs (state s))).
  { destruct (reachable_sos_ok store0 s store0_ok Hs Hall) as (_ & Hu & _). exact Hu. }
  destruct (sos_cancel_terminal (λ _, True) s s (rtc_refl _ _) Hu r Hr) as (r' & Hr' & Hk & _ & Hf).
  exists s, r, r'. split; [exact Hr|]. split; [exact Hr'|]. split; [exact Hk|]. exact (Hf Hst).
Defined.

(** A run whose start was stored by a replica that stopped before raising its alert. *)
Definition owing_store : world :=
  set_runs (fst (ApplySOSRunEvent (Sos.stored_event (event "start" "sbd") "bridge:b" "" (100 * second)) 0 [])) store0.



Lemma sos_claim_names_run_witness :
  Sos.claim_key (str "sos-sbd-kit-a-5") = Sos.claim_key (str "sos-sms-kit-a-5").
Proof.
  change (str "sos-sbd-kit-a-5") with (bridge_id (str "sbd") (str "kit-a") (str "5") false).
  change (str "sos-sms-kit-a-5") with (bridge_id (str "sms") (str "kit-a") (str "5") false).
  apply (sos_claim_names_run (str "sbd") (str "sms") (str "kit-a") (str "kit-a") (str "5") (str "5") false false).
  all: try (apply (bool_decide_unpack _); vm_compute; exact I).
  all: try (split; apply (bool_decide_unpack _); vm_compute; exact I).
Defined.

End SosLive.
